(* ===== verification/_CoqProject ===== *)
-Q . S2P
Prelude.v
ArraySort.v
JsNumber.v
ExprSyntax.v
ExprTokenizer.v
ExprParser.v
ExprRoundTrip.v
ExprValidator.v
ExprEvaluator.v
ExprSoundness.v
BillingExpr.v
Json.v
BrowserStorage.v
AuthStore.v
AuthSession.v
AuthSafety.v
AuthClient.v
AuthProperties.v
JsonText.v
AuthRedirect.v
ThinkTags.v
ChatMessages.v
ChatProperties.v
StreamController.v
StreamRefinement.v
ChatHandler.v
StatusCodes.v
ModelMapping.v
EntityDialog.v
AdminPermissions.v
NumberText.v
NumberExact.v
TierExpr.v
TierExprReading.v
TierExprPricing.v
Regex.v
JsonPrint.v
JsonStringify.v
RequestRules.v
RequestRulesText.v
RequestRulesReading.v
RequestRulesRoundTrip.v
TierExprParse.v
TierExprParsing.v
TierExprRoundTrip.v
TierEditor.v
TierEditorProperties.v
StorageSchema.v
MessageStorage.v
MessageStorageProperties.v
AdvancedCustom.v
AdvancedCustomProperties.v
JsonScan.v
VertexServiceAccount.v
VertexServiceAccountProperties.v
Accumulate.v
DashboardFlow.v
DashboardFlowPaths.v
DashboardFlowProperties.v
NumberOf.v
Wallet.v
WalletConfirmation.v
ChannelCredentials.v
ChannelForm.v
ChannelFormProperties.v
ParamOverride.v
ParamOverrideEditor.v
ParamOverrideProperties.v
ParamOverrideInvariant.v
PriceSync.v
PriceSyncPage.v
PriceSyncLemmas.v
PriceSyncProperties.v
PricingFormat.v
ModelPricing.v
ModelPricingLemmas.v
ModelPricingEditor.v
ModelPricingProperties.v
SecureVerification.v
TableUrlState.v
