(* ===== verification/Prelude.v ===== *)
(** * NEW API Ultra web console: verification library

    NEW API Ultra is a gateway for language-model services with a web console.  This
    library models the logic of the console (TypeScript, [src/web/src/]) whose mistakes
    cost money, leak data or lose work, and proves what makes it correct.

    ** The program and its models

    The console is a page that keeps a session with the server, and on top of it
    independent features: estimating the price of a request from a billing expression,
    a chat playground, paying into the wallet, editing the rules of a channel.

    Foundations (no source file of their own; what the source uses of the language):
    - [Prelude] : results of functions that throw, strings as UTF-16 code units with
      [trim], [split], [join], [indexOf]; sets as ordered lists; the tactics and hints;
      what [trim] leaves alone; [ArraySort] : sorting, and maps in insertion
      order.
    - [JsNumber] : the [number] type as IEEE 754 binary64 ([SpecFloat], 53 bits), with
      [%], [Math.floor], [Math.max], and the reading of decimal literals.
    - [Json] : values of type [unknown] and the type tests applied to them;
      [JsonText] : [JSON.parse]; [JsonPrint], [JsonStringify] : [JSON.stringify] on texts
      and on values, which [JSON.parse] inverts; [JsonScan] : the text a value is read
      from, under a scan of strings and brackets.
    - [NumberText] : numbers printed as texts and read back; [NumberExact] : sums of whole
      numbers below 2^53 are exact; [NumberOf] : [Number(value)] and [parseFloat]; [Accumulate] : sums over lists and maps that add up.
    - [Regex] : regular expressions with the order of attempts of the language, the
      languages they describe, and a calculus for what a match consumes.

    Billing expressions ([features/pricing/lib/billing-expression-evaluator.ts] and the
    estimator of [features/pricing/lib/tier-expr.ts]): one file per phase.
    - [ExprSyntax] : tokens, syntax trees, errors, values;
    - [ExprTokenizer] : [tokenize] and its readers;
    - [ExprParser] : the recursive-descent parser with its depth limit, and the grammar
      as an inductive relation; [ExprRoundTrip] : printing of trees and its inversion;
    - [ExprValidator], [ExprEvaluator] : static checks and evaluation;
      [ExprSoundness] : the relation between the two;
    - [BillingExpr] : [evaluateBillingExpression], the estimator, and the theorems.

    Visual editor of tiered prices ([features/pricing/lib/tier-expr.ts],
    [features/pricing/lib/billing-expr.ts] and the state of
    [features/system-settings/models/tiered-pricing-editor.tsx]):
    - [TierExpr] : configurations and the text written for them; [TierExprReading],
      [TierExprPricing] : that text under the parser and the evaluator above;
    - [TierExprParse] : the readers [tryParseVisualConfig] and [parseTiersFromExpr], which
      take a text apart by regular expressions; [TierExprParsing], [TierExprRoundTrip] :
      reading what was written;
    - [RequestRules] : the rules by parameter, header and time, written and read;
      [RequestRulesText], [RequestRulesReading], [RequestRulesRoundTrip] : their lemmas
      and theorems;
    - [TierEditor] : the editor as a machine of states, handlers and effects;
      [TierEditorProperties] : its theorems.

    Prices of models ([features/system-settings/models/]):
    - [PriceSync] : the values picked from upstream channels ([upstream-ratio-sync-helpers.ts]);
      [PriceSyncPage] : the page that compares, picks and writes prices and the table of
      differences ([upstream-ratio-sync.tsx], [upstream-ratio-sync-table.tsx]);
      [PriceSyncLemmas], [PriceSyncProperties] : the lemmas and theorems;
    - [PricingFormat] : prices as texts ([pricing-format.ts]); [ModelPricing] : the tables,
      snapshots and rows of models, saving and deleting ([model-pricing-core.ts],
      [model-pricing-snapshots.ts], [model-ratio-visual-editor.tsx]); [ModelPricingEditor] : the
      panel and the editor around it as machines ([model-pricing-sheet.tsx]);
      [ModelPricingLemmas], [ModelPricingProperties] : the lemmas and theorems.

    Session ([stores/auth-store.ts], [lib/auth-session.ts], [lib/auth-session-sync.ts],
    [lib/http-client.ts]):
    - [BrowserStorage] : the local storage of the browser and [clearPlaygroundData]; the
      class [PlaygroundStore] is what the session needs of the playground;
    - [AuthStore] : users, bundles, the store and the decoders of server values;
    - [AuthSession] : a tab as a state machine.  A refresh is a job that is split where
      the source awaits (the lock, the request, the delay); [run], [receive], [resume]
      and [abort] are the pieces, and events interleave them with everything else.  Saving
      a profile ([sidebar-modules-card.tsx], [language-preferences-card.tsx]) and the
      playground page with its timed saves ([use-playground-state.ts]) are events of the
      tab too, in pieces where they wait;
    - [AuthSafety] : its invariants;
    - [AuthClient] : messages between tabs and the interceptors of requests;
    - [AuthProperties] : the theorems;
    - [AuthRedirect] : the targets of redirects and the page to come back to
      ([features/auth/lib/auth-redirect.ts]);
    - [SecureVerification] : sensitive operations that are repeated with a proof of identity,
      as a machine in which verifications and operations end in any order, and its theorems
      ([features/auth/secure-verification/], [lib/secure-verification.ts]).

    Playground ([features/playground/lib/], [features/playground/hooks/]):
    - [ThinkTags], [ChatMessages] : reasoning tags, messages and conversations, payloads;
      [ChatProperties] : their theorems;
    - [StreamController] : the life of streamed requests ([use-stream-request.ts]);
      [StreamRefinement] : an abstract machine with one request at a time, which the
      controller refines;
    - [ChatHandler] : chunks, the flush timer and the queue of state updates
      ([use-chat-handler.ts]);
    - [StorageSchema] : the zod schemas as data, the class [Zod] of what parsing with them
      promises, messages as JSON values; [MessageStorage] : loading, shortening, repairing
      and saving ([lib/storage/storage.ts]); [MessageStorageProperties] : the theorems.

    Channels ([lib/http-status-code-rules.ts], [features/channels/lib/]):
    - [StatusCodes] : rules, their normal form, risky redirects;
    - [ModelMapping] : lists of models and mappings between them;
    - [AdvancedCustom] : the routes of advanced custom channels, read, written, validated and
      offered ([features/channels/lib/advanced-custom.ts]); [AdvancedCustomProperties] :
      their theorems;
    - [VertexServiceAccount] : service account keys, checked and imported from files
      ([features/channels/lib/vertex-service-account.ts]); [VertexServiceAccountProperties] :
      the theorems;
    - [ChannelCredentials] : how the keys of a channel that is edited are given, with the
      effect of the drawer; [ChannelForm] : the values of the form, its checks, the way from
      a channel to the form and the requests that save it
      ([features/channels/lib/channel-form.ts]); [ChannelFormProperties] : the theorems;
    - [ParamOverride] : rules that override parameters, as values, as texts and checked;
      [ParamOverrideEditor] : the dialog that edits them as a machine
      ([features/channels/components/dialogs/param-override-editor-dialog.tsx]);
      [ParamOverrideProperties], [ParamOverrideInvariant] : the theorems.

    Dashboard ([features/dashboard/lib/flow.ts]):
    - [DashboardFlow] : rows of usage become the nodes and links of a flow diagram, with
      filters, limits, highlights and masks; [DashboardFlowPaths] : the amounts along paths;
      [DashboardFlowProperties] : the theorems.

    Wallet ([features/wallet/], [lib/external-url.ts]):
    - [Wallet] : methods, amounts, the processors that pay and their dispatch;
    - [WalletConfirmation] : the confirmation controller over the amount controller.

    Shared helpers of dialogs and menus:
    - [EntityDialog] ([lib/entity-dialog-session.ts]);
    - [AdminPermissions] ([lib/admin-permissions.ts]).

    Tables ([hooks/use-table-url-state.ts]):
    - [TableUrlState] : pages, search texts and column filters that are kept in the address,
      and the theorems.

    ** What the theorems show

    - Billing: evaluation of any text ends with a finite non-negative cost or a
      documented error; tokens cover the text, trees are derived by the grammar, trees that
      can be printed are read back from their texts; validated trees evaluate to values of their type; a ladder
      of tiers charges the first that matches; the estimator never shows a cost with an
      error.
    - Tiered prices: the text of a valid configuration charges exactly its first tier that
      applies; the readers give back what stands in the texts of configurations and rules
      whose names and values stay clear of the syntax; opening the editor changes no text, and switching its mode keeps prices and rules.
    - Prices of models: under any use of the page a model has either a price or ratios
      selected, and an expression only with its mode; a batch of selections is the selections
      one by one; a column is selected completely; what is saved is what was selected, without
      the prices of the other kind, and the rest as it was.  On a new
      model, and once an input price has been entered, the ratios that are saved follow the
      prices on the panel; a saved model is shown again as it was saved, and other models keep
      their prices.
    - Session: every refresh settles within eight requests; a refresh overtaken by another
      session changes nothing; a tab holds token, expiry and session together or none of them, and
      the user with them unless a profile save ends late; the chats in the browser are of the
      account that is signed in, as long as the playground page acts for the account that
      opened it; signing out leaves neither credentials nor chats, here and in other tabs;
      requests are sent at
      most twice and shared only within one session.  A sensitive operation is run with a proof
      only after it was started, and the proof was asked for its own scope and target.
    - Playground: reasoning tags lose no text; every chunk of text, and of reasoning where
      the text has no tags, reaches the answer once, in order, under any timing; at most one stream is open; a request ends once and earlier
      requests are silent, which is also stated as a refinement; conversations keep their
      shape; what is loaded from the storage is bounded, and a saved conversation within
      the limits is loaded as it was.
    - Channels: normal forms of rules mean what the rules mean and read back; guards list
      exactly the entries they are for; the validator of routes accepts exactly what a
      condition on the routes describes, and their text reads back; the scan of key arrays
      agrees with the parser, and imported keys pass the check of the form; an accepted form
      is shown again as it was saved, settings it does not know survive, and a key mode that
      was forced is taken back; parameter rules saved by the visual editor are complete and
      are shown again as they were, and no two rules or conditions of the editor share an identifier.
    - Dashboard: what flows into a node of the diagram flows out of it, every column adds up
      to the summary, masked graphs show no names, limits on columns are kept.
    - Wallet: a confirmation on the page belongs to the last selection and carries the
      amount the server answered for it; every selection ends; paying leaves the page only
      for web addresses.
    - Dialogs: only the last request of the last session is current, all others are
      aborted.  Permissions: the editor's matrix grants nothing but what was granted.  Tables:
      pages and filters that are set are read back from the address by columns that read what
      they write, and a page beyond the last is brought into range once.

    Some theorems state behaviour the code has and should not: string literals read as
    operators, chats kept after a session mismatch, profile and playground saves that end after
    signing out, reasoning that depends on where the
    text was cut, chunks dropped by stopping, long conversations removed by the next load, a
    redirect that is accepted and names another host, edits of prune rules that are lost, a
    failed synchronization that leaves a model without a price, a fixed price that outlives
    the change to prices per token, a cancelled operation that is run after all.

    ** Bounds and fuel

    Loops that are not structural carry fuel, and each has a theorem that the fuel given
    by its caller is enough: the tokenizer one round per code unit and one more, the
    reasoning-tag loop the length and one, [JSON.parse] twice the length and two.  The
    repetitions of a regular expression and the search for its matches have a round per
    unit of the text, since a round that consumes nothing ends them.  The
    parser's fuel is the source's own nesting limit of 128.  A refresh is driven for fifteen
    rounds, which covers its six delays and eight requests; a request is sent twice at
    most, so two rounds are enough for it.  Counters of generations are natural numbers:
    the source's lose exactness only beyond 2^53 events.

    ** What is not modelled

    The server is reached over HTTP and is a parameter everywhere; so are the power
    function of the browser, the browser's reading of addresses, its quota, clocks, random
    names, the zod library, the router and the authenticators.  Components, styles, routes and
    translations are
    presentation, as are the records the chart library passes to its callbacks.  Formatting
    by locale is data of the browser.  Of the logic that could be modelled in the same way,
    the reading of top-up information ([use-topup-info.ts]), the filters of the price list, the
    tests of channels and the forms of the system settings are left out. *)

From Stdlib Require Import Ascii Lia.
From stdpp Require Import base numbers strings gmap countable list.


#[global] Open Scope nat_scope.

(** ** Results

    A function of the program that can [throw] returns [result E A]: [Ok] is a
    normal return and [Err] carries the error value.  The monad operations are
    stdpp's classes, so [x ← m; k] is sequencing that stops at the first throw. *)

Inductive result (E A : Type) : Type :=
| Ok (a : A)
| Err (e : E).
Arguments Ok {E A} a.
Arguments Err {E A} e.

#[export] Instance result_ret {E} : MRet (result E) := fun A a => Ok a.

#[export] Instance result_bind {E} : MBind (result E) :=
  fun A B f m => match m with Ok a => f a | Err e => Err e end.

#[export] Instance result_fmap {E} : FMap (result E) :=
  fun A B f m => match m with Ok a => Ok (f a) | Err e => Err e end.

Definition is_ok {E A} (r : result E A) : bool :=
  match r with Ok _ => true | Err _ => false end.

Lemma bind_Ok_inv {E A B} (m : result E A) (f : A → result E B) b :
  (m ≫= f) = Ok b → ∃ a, m = Ok a ∧ f a = Ok b.
Proof. destruct m; simpl; [eauto | discriminate]. Qed.

Lemma bind_Err_inv {E A B} (m : result E A) (f : A → result E B) e :
  (m ≫= f) = Err e → m = Err e ∨ ∃ a, m = Ok a ∧ f a = Err e.
Proof. destruct m; simpl; [eauto | intros [= ->]; auto]. Qed.

(** [guard_ok b e] is [if (!b) throw e]. *)
Definition guard_ok {E} (b : bool) (e : E) : result E unit :=
  if b then Ok tt else Err e.

(** ** Strings

    A string of the program is a sequence of UTF-16 code units, kept as integers
    in [0, 65535].  [js] turns a literal of the development into one. *)

Abbreviation ustring := (list Z).

Definition unit_of_ascii (c : ascii) : Z := Z.of_N (N_of_ascii c).

Definition js (s : string) : ustring := map unit_of_ascii (String.list_ascii_of_string s).

Definition chr (s : string) : Z :=
  match s with String c _ => unit_of_ascii c | EmptyString => 0 end.

#[global] Arguments js : simpl never.
#[global] Arguments chr : simpl never.
#[global] Arguments Z.eqb : simpl never.
#[global] Arguments Z.leb : simpl never.
#[global] Arguments Z.ltb : simpl never.

(** The double quote, named because a literal cannot hold it. *)
Definition DQUOTE : Z := 34.

(** The code units matched by the regular expression class [\s], which are also
    the ones [String.prototype.trim] removes. *)
Definition is_space (c : Z) : bool :=
  bool_decide (9 ≤ c ≤ 13)%Z || (c =? 32)%Z || (c =? 160)%Z || (c =? 5760)%Z ||
  bool_decide (8192 ≤ c ≤ 8202)%Z || (c =? 8232)%Z || (c =? 8233)%Z ||
  (c =? 8239)%Z || (c =? 8287)%Z || (c =? 12288)%Z || (c =? 65279)%Z.

Definition is_digit (c : Z) : bool := (chr "0" <=? c)%Z && (c <=? chr "9")%Z.

Fixpoint drop_while {A} (p : A → bool) (l : list A) : list A :=
  match l with
  | [] => []
  | x :: l' => if p x then drop_while p l' else l
  end.

Fixpoint take_while {A} (p : A → bool) (l : list A) : list A :=
  match l with
  | [] => []
  | x :: l' => if p x then x :: take_while p l' else []
  end.

Definition trim_start (s : ustring) : ustring := drop_while is_space s.

Definition trim_end (s : ustring) : ustring := reverse (drop_while is_space (reverse s)).

(** [String.prototype.trim]. *)
Definition trim (s : ustring) : ustring := trim_end (trim_start s).

(** [s.slice(i, j)] for [0 <= i <= j]. *)
Definition slice {A} (i j : nat) (s : list A) : list A := take (j - i) (drop i s).

(** [String.prototype.split] on a one-unit separator: never an empty list. *)
Fixpoint split_on (sep : Z) (s : ustring) : list ustring :=
  match s with
  | [] => [[]]
  | c :: s' =>
      if (c =? sep)%Z then [] :: split_on sep s'
      else match split_on sep s' with
           | [] => [[c]]
           | w :: ws => (c :: w) :: ws
           end
  end.

(** [Array.prototype.join]. *)
Fixpoint join (sep : ustring) (ws : list ustring) : ustring :=
  match ws with
  | [] => []
  | [w] => w
  | w :: ws' => w ++ sep ++ join sep ws'
  end.

(** [s.startsWith(p)]. *)
Fixpoint starts_with (p s : ustring) : bool :=
  match p, s with
  | [], _ => true
  | _ :: _, [] => false
  | a :: p', b :: s' => (a =? b)%Z && starts_with p' s'
  end.

(** [s.indexOf(p)] on a suffix: the offset of the first occurrence. *)
Fixpoint index_of (p s : ustring) : option nat :=
  if starts_with p s then Some 0
  else match s with
       | [] => None
       | _ :: s' => S <$> index_of p s'
       end.

(** [s.indexOf(p, from)]. *)
Definition index_of_from (p s : ustring) (from : nat) : option nat :=
  (fun k => from + k) <$> index_of p (drop from s).

(** [s.includes(p)]. *)
Definition includes (p s : ustring) : bool :=
  match index_of p s with Some _ => true | None => false end.

(** Code-unit order, the [<] of the language on strings. *)
Fixpoint ustring_ltb (a b : ustring) : bool :=
  match a, b with
  | _, [] => false
  | [], _ :: _ => true
  | x :: a', y :: b' =>
      if (x <? y)%Z then true else if (y <? x)%Z then false else ustring_ltb a' b'
  end.

Definition ustring_eqb (a b : ustring) : bool := bool_decide (a = b).

(** Truthiness of a string: [Boolean(s)]. *)
Definition truthy (s : ustring) : bool := match s with [] => false | _ => true end.

(** Decimal rendering of a non-negative integer, [String(n)]. *)
Fixpoint dec_digits (fuel : nat) (n : Z) (acc : ustring) : ustring :=
  match fuel with
  | 0 => acc
  | S f =>
      let acc' := (chr "0" + n mod 10)%Z :: acc in
      if (n / 10 =? 0)%Z then acc' else dec_digits f (n / 10) acc'
  end.

Definition show_Z (n : Z) : ustring :=
  if (n <? 0)%Z then chr "-" :: dec_digits (S (Z.to_nat (Z.log2 (- n)))) (- n) []
  else dec_digits (S (Z.to_nat (Z.log2 n))) n [].

Definition show_nat (n : nat) : ustring := show_Z (Z.of_nat n).

(** Value of a run of decimal digits, [Number.parseInt(s, 10)] on such a run. *)
Definition digits_value (s : ustring) : Z :=
  fold_left (fun acc c => acc * 10 + (c - chr "0"))%Z s 0%Z.

(** ** Sets as ordered lists

    [Array.from(new Set(l))]: the first occurrence of each element, in order. *)
Fixpoint uniq_from {A} `{EqDecision A} (seen : list A) (l : list A) : list A :=
  match l with
  | [] => []
  | x :: l' =>
      if decide (x ∈ seen) then uniq_from seen l' else x :: uniq_from (x :: seen) l'
  end.

Definition uniq {A} `{EqDecision A} (l : list A) : list A := uniq_from [] l.

(** ** Tactics *)

(** Splits every [x ← m; k] of the hypotheses that is known to return. *)
Ltac inv_bind :=
  repeat match goal with
  | H : (_ ≫= _) = Ok _ |- _ =>
      let a := fresh "a" in let H1 := fresh "H" in
      apply bind_Ok_inv in H as (a & H1 & H)
  | H : Ok _ = Ok _ |- _ => injection H; clear H; intros; subst
  | H : Err _ = Err _ |- _ => injection H; clear H; intros; subst
  | H : Ok _ = Err _ |- _ => discriminate H
  | H : Err _ = Ok _ |- _ => discriminate H
  | H : mret _ = Ok _ |- _ => injection H; clear H; intros; subst
  | H : guard_ok ?b _ = Ok _ |- _ =>
      let E := fresh "E" in destruct b eqn:E; simpl in H; [clear H | discriminate H]
  end.

(** Case analysis on the scrutinee of the first [match] or [if] found. *)
Ltac case_match_in H :=
  match type of H with
  | context [match ?x with _ => _ end] => let E := fresh "E" in destruct x eqn:E
  end.

(** Case analysis on the condition of the first [if] of the goal. *)
Ltac branch := match goal with |- context [if ?b then _ else _] => destruct b end.

(** Replaces the code units written as literals by their numbers. *)
Ltac chr_norm :=
  repeat match goal with
  | |- context [chr ?s] =>
      let v := eval vm_compute in (chr s) in change (chr s) with v
  | H : context [chr ?s] |- _ =>
      let v := eval vm_compute in (chr s) in change (chr s) with v in H
  end.

(** Boolean conjunctions, disjunctions and comparisons as propositions. *)
Ltac bools :=
  repeat match goal with
  | H : _ && _ = true |- _ => apply andb_true_iff in H as [? ?]
  | H : _ || _ = false |- _ => apply orb_false_iff in H as [? ?]
  | H : negb _ = true |- _ => apply negb_true_iff in H
  | H : negb _ = false |- _ => apply negb_false_iff in H
  | H : bool_decide _ = true |- _ => apply bool_decide_eq_true in H
  | H : bool_decide _ = false |- _ => apply bool_decide_eq_false in H
  | H : ustring_eqb _ _ = true |- _ => apply bool_decide_eq_true in H
  | H : ustring_eqb _ _ = false |- _ => apply bool_decide_eq_false in H
  | H : (_ =? _)%Z = true |- _ => apply Z.eqb_eq in H
  | H : (_ =? _)%Z = false |- _ => apply Z.eqb_neq in H
  | H : (_ <=? _)%Z = true |- _ => apply Z.leb_le in H
  | H : (_ <=? _)%Z = false |- _ => apply Z.leb_gt in H
  | H : (_ <? _)%Z = true |- _ => apply Z.ltb_lt in H
  | H : (_ <? _)%Z = false |- _ => apply Z.ltb_ge in H
  | H : (_ =? _) = true |- _ => apply Nat.eqb_eq in H
  | H : (_ =? _) = false |- _ => apply Nat.eqb_neq in H
  | H : (_ <=? _) = true |- _ => apply Nat.leb_le in H
  | H : (_ <=? _) = false |- _ => apply Nat.leb_gt in H
  | H : (_ <? _) = true |- _ => apply Nat.ltb_lt in H
  | H : (_ <? _) = false |- _ => apply Nat.ltb_ge in H
  end.

(** ** Lemmas on the shared operations *)

Lemma drop_while_length {A} (p : A → bool) l : length (drop_while p l) ≤ length l.
Proof. induction l as [|x l IH]; simpl; [lia | destruct (p x); simpl; lia]. Qed.

Lemma take_drop_while {A} (p : A → bool) l : take_while p l ++ drop_while p l = l.
Proof. induction l as [|x l IH]; simpl; [done | destruct (p x); simpl; congruence]. Qed.

Lemma take_while_length {A} (p : A → bool) l : length (take_while p l) ≤ length l.
Proof. induction l as [|x l IH]; simpl; [lia | destruct (p x); simpl; lia]. Qed.

Lemma take_while_Forall {A} (p : A → bool) l : Forall (fun x => p x = true) (take_while p l).
Proof. induction l as [|x l IH]; simpl; [constructor | destruct (p x) eqn:E; auto]. Qed.

Lemma elem_of_uniq_from {A} `{EqDecision A} (l seen : list A) x :
  x ∈ uniq_from seen l ↔ x ∈ l ∧ x ∉ seen.
Proof.
  revert seen; induction l as [|y l IH]; intros seen; simpl.
  { set_solver. }
  destruct (decide (y ∈ seen)); [rewrite IH; set_solver | ].
  rewrite elem_of_cons, IH. destruct (decide (x = y)); set_solver.
Qed.

Lemma elem_of_uniq {A} `{EqDecision A} (l : list A) x : x ∈ uniq l ↔ x ∈ l.
Proof. unfold uniq. rewrite elem_of_uniq_from. set_solver. Qed.

Lemma NoDup_uniq_from {A} `{EqDecision A} (l seen : list A) : NoDup (uniq_from seen l).
Proof.
  revert seen; induction l as [|y l IH]; intros seen; simpl; [constructor | ].
  destruct (decide _); [apply IH | constructor; [ | apply IH]].
  rewrite elem_of_uniq_from. set_solver.
Qed.

Lemma NoDup_uniq {A} `{EqDecision A} (l : list A) : NoDup (uniq l).
Proof. apply NoDup_uniq_from. Qed.

Lemma starts_with_app p s : starts_with p (p ++ s) = true.
Proof. induction p as [|a p IH]; simpl; [done | rewrite Z.eqb_refl; exact IH]. Qed.

Lemma starts_with_spec p s : starts_with p s = true → s = p ++ drop (length p) s.
Proof.
  revert s; induction p as [|a p IH]; intros [|b s] H; simpl in *; try done.
  bools; subst. f_equal. by apply IH.
Qed.

(** Induction on the length of a list, for loops that skip several elements. *)
Lemma length_ind {A} (P : list A → Prop) :
  (∀ l, (∀ l', length l' < length l → P l') → P l) → ∀ l, P l.
Proof.
  intros H l. remember (length l) as n eqn:Hn. revert l Hn.
  induction n as [n IH] using lt_wf_ind. intros l ->. apply H. eauto.
Qed.

Lemma slice_drop {A} (i j : nat) (l : list A) : take j (drop i l) = slice i (i + j) l.
Proof. unfold slice. f_equal. lia. Qed.

(** Filters that agree on the elements of a list. *)
Lemma filter_ext_in {A} (P Q : A → Prop) `{∀ x, Decision (P x), ∀ x, Decision (Q x)} (l : list A) :
  (∀ x, x ∈ l → P x ↔ Q x) → filter P l = filter Q l.
Proof.
  induction l as [|x l IH]; intros Heq; [done | ]. rewrite !filter_cons.
  assert (Hl : filter P l = filter Q l) by (apply IH; intros; apply Heq; by right).
  destruct (Heq x ltac:(left)). rewrite Hl.
  destruct (decide (P x)), (decide (Q x)); tauto.
Qed.

Lemma filter_all {A} (P : A → Prop) `{∀ x, Decision (P x)} (l : list A) :
  (∀ x, x ∈ l → P x) → filter P l = l.
Proof.
  induction l as [|x l IH]; intros Hall; [done | ].
  rewrite filter_cons_True by (apply Hall; left). f_equal. apply IH. intros. apply Hall. by right.
Qed.

Lemma filter_none {A} (P : A → Prop) `{∀ x, Decision (P x)} (l : list A) :
  (∀ x, x ∈ l → ¬ P x) → filter P l = [].
Proof.
  induction l as [|x l IH]; intros Hnone; [done | ].
  rewrite filter_cons_False by (apply Hnone; left). apply IH. intros. apply Hnone. by right.
Qed.

(** ** Splitting, joining and trimming *)

Lemma drop_while_none {A} (p : A → bool) l : Forall (fun x => p x = false) l → drop_while p l = l.
Proof. destruct 1 as [|x l Hx _]; simpl; [done | by rewrite Hx]. Qed.

Lemma trim_none s : Forall (fun c => is_space c = false) s → trim s = s.
Proof.
  intros Hs. unfold trim, trim_end, trim_start. rewrite (drop_while_none _ s) by done.
  rewrite drop_while_none; [apply reverse_involutive | by apply Forall_reverse].
Qed.

Lemma split_on_none c s : c ∉ s → split_on c s = [s].
Proof.
  induction s as [|x s IH]; intros Hc; simpl; [done | ].
  rewrite (proj2 (Z.eqb_neq x c)) by set_solver. rewrite IH by set_solver. done.
Qed.

Lemma split_on_app c s s' : c ∉ s → split_on c (s ++ c :: s') = s :: split_on c s'.
Proof.
  induction s as [|x s IH]; intros Hc; simpl; [by rewrite Z.eqb_refl | ].
  rewrite (proj2 (Z.eqb_neq x c)) by set_solver. rewrite IH by set_solver. done.
Qed.

Lemma split_on_join c ws :
  ws ≠ [] → Forall (fun w => c ∉ w) ws → split_on c (join [c] ws) = ws.
Proof.
  intros Hne Hws. induction Hws as [|w [|w' ws] Hw Hws IH]; [done | by apply split_on_none | ].
  change (join [c] (w :: w' :: ws)) with (w ++ c :: join [c] (w' :: ws)).
  rewrite split_on_app by done. by rewrite IH.
Qed.

Lemma includes_one c s : includes [c] s = bool_decide (c ∈ s).
Proof.
  unfold includes. induction s as [|x s IH]; [done | ]. cbn [index_of starts_with].
  rewrite andb_true_r. destruct (c =? x)%Z eqn:E; bools.
  - rewrite bool_decide_true by (subst; left). done.
  - destruct (index_of [c] s) as [k|]; simpl.
    + symmetry in IH. apply bool_decide_eq_true in IH. rewrite bool_decide_true by (by right). done.
    + symmetry in IH. apply bool_decide_eq_false in IH. rewrite bool_decide_false by set_solver. done.
Qed.

Create HintDb newapi.
#[export] Hint Resolve elem_of_uniq NoDup_uniq : newapi.

(** ** Texts that trimming leaves alone *)

(** A text without white space at its ends. *)
Definition solid (s : ustring) : Prop :=
  match head s, last s with
  | Some c, Some d => is_space c = false ∧ is_space d = false
  | _, _ => False
  end.

Lemma solid_trim s : solid s → trim s = s.
Proof.
  unfold solid, trim, trim_start, trim_end. destruct s as [|c s]; [done | ]. simpl head.
  destruct (last (c :: s)) as [d|] eqn:El; [ | done]. intros [Hc Hd]. cbn [drop_while]. rewrite Hc.
  apply last_Some in El as [s' ->]. rewrite reverse_app, reverse_singleton. cbn [app drop_while]. rewrite Hd.
  change (d :: reverse s') with ([d] ++ reverse s'). by rewrite reverse_app, reverse_involutive, reverse_singleton.
Qed.

Lemma solid_nonempty s : solid s → s ≠ [].
Proof. by destruct s. Qed.

Lemma solid_truthy s : solid s → truthy s = true.
Proof. by destruct s. Qed.

Lemma head_app_ne {A} (a b : list A) : a ≠ [] → head (a ++ b) = head a.
Proof. by destruct a. Qed.

Lemma last_app_ne {A} (a b : list A) : b ≠ [] → last (a ++ b) = last b.
Proof. intros Hb. destruct b as [|x b]; [done | ]. rewrite last_app. destruct (last (x :: b)) eqn:E; [done | ].
  apply last_None in E. done. Qed.

(** Only the ends matter. *)
Lemma solid_app a b : solid a → solid b → ∀ m, solid (a ++ m ++ b).
Proof.
  intros Ha Hb m. pose proof (solid_nonempty a Ha). pose proof (solid_nonempty b Hb). unfold solid in *.
  rewrite head_app_ne by done. rewrite app_assoc, last_app_ne by done.
  destruct (head a), (last a), (head b), (last b); tauto.
Qed.

Lemma solid_app2 a b : solid a → solid b → solid (a ++ b).
Proof. intros Ha Hb. apply (solid_app a b Ha Hb []). Qed.

Lemma solid_Forall s : s ≠ [] → Forall (fun c => is_space c = false) s → solid s.
Proof.
  intros Hne Hs. unfold solid. destruct s as [|c s]; [done | ]. simpl head.
  destruct (last (c :: s)) as [d|] eqn:El; [ | by apply last_None in El].
  rewrite Forall_forall in Hs. split; apply Hs; [left | ]. apply last_Some in El as [s' ->]. set_solver.
Qed.

Lemma trim_solid s : trim s ≠ [] → solid (trim s).
Proof.
  assert (Hd : ∀ l : ustring, match drop_while is_space l with [] => True | c :: _ => is_space c = false end).
  { induction l as [|c l IH]; simpl; [done | ]. destruct (is_space c) eqn:E; [exact IH | exact E]. }
  unfold trim, trim_end, trim_start. intros Hne. unfold solid.
  set (t := drop_while is_space s) in *. pose proof (Hd s) as Ht. fold t in Ht.
  set (r := drop_while is_space (reverse t)) in *. pose proof (Hd (reverse t)) as Hr. fold r in Hr.
  assert (Hsuf : reverse t = take_while is_space (reverse t) ++ r) by (symmetry; apply take_drop_while).
  rewrite last_reverse. destruct r as [|d r']; [done | ]. simpl head.
  apply (f_equal reverse) in Hsuf. rewrite reverse_involutive, reverse_app in Hsuf.
  destruct (reverse (d :: r')) as [|e q] eqn:Eq; [done | ].
  simpl head. rewrite Hsuf in Ht. by destruct Ht.
Qed.

Lemma trim_length s : length (trim s) ≤ length s.
Proof.
  unfold trim, trim_end, trim_start. rewrite length_reverse.
  etransitivity; [apply drop_while_length | ]. rewrite length_reverse. apply drop_while_length.
Qed.

Lemma trim_idempotent s : trim (trim s) = trim s.
Proof. destruct (trim s) as [|c t] eqn:E; [done | ]. rewrite <- E. apply solid_trim, trim_solid. by rewrite E. Qed.
