(* ===== verification/ArraySort.v ===== *)
(** * Sorting and maps in insertion order

    [Array.prototype.sort] as a stable insertion sort, and the [Map] of the language as a list
    of entries in insertion order. *)

From stdpp Require Import base numbers strings option sets list.
From Stdlib Require Import ZArith Lia.
From S2P Require Import Prelude.

Fixpoint insert_sorted {A} (le : A → A → bool) (x : A) (l : list A) : list A :=
  match l with
  | [] => [x]
  | y :: l' => if le x y then x :: l else y :: insert_sorted le x l'
  end.

(** A stable sort, like [Array.prototype.sort]. *)
Definition sort_by {A} (le : A → A → bool) (l : list A) : list A := foldr (insert_sorted le) [] l.

(** The sort with a comparison that returns a number. *)
Definition sort_cmp {A} (cmp : A → A → Z) : list A → list A := sort_by (fun a b => (cmp a b <=? 0)%Z).

Lemma insert_sorted_perm {A} (le : A → A → bool) x l : insert_sorted le x l ≡ₚ x :: l.
Proof.
  induction l as [|y l IH]; simpl; [done | ]. destruct (le x y); [done | ].
  rewrite IH. apply Permutation_swap.
Qed.

Lemma sort_by_perm {A} (le : A → A → bool) l : sort_by le l ≡ₚ l.
Proof. induction l as [|x l IH]; simpl; [done | ]. by rewrite insert_sorted_perm, IH. Qed.

Lemma sort_cmp_perm {A} (cmp : A → A → Z) l : sort_cmp cmp l ≡ₚ l.
Proof. apply sort_by_perm. Qed.

(** ** Maps *)

Section map.
  Context {K A : Type} `{EqDecision K}.

Fixpoint map_get (k : K) (l : list (K * A)) : option A :=
  match l with
  | [] => None
  | (k', a) :: rest => if bool_decide (k' = k) then Some a else map_get k rest
  end.

(** [map.set(k, f(map.get(k) ?? fresh))]: an entry keeps its place, a new one comes last. *)
Fixpoint map_update (k : K) (fresh : A) (f : A → A) (l : list (K * A)) : list (K * A) :=
  match l with
  | [] => [(k, f fresh)]
  | (k', a) :: rest => if bool_decide (k' = k) then (k', f a) :: rest else (k', a) :: map_update k fresh f rest
  end.

Lemma map_get_update k fresh f l k' :
  map_get k' (map_update k fresh f l) =
  if bool_decide (k = k') then Some (f (default fresh (map_get k l))) else map_get k' l.
Proof.
  induction l as [|[x a] l IH]; simpl.
  - by destruct (bool_decide (k = k')).
  - destruct (bool_decide (x = k)) eqn:E1; bools; subst; simpl.
    + by destruct (bool_decide (k = k')).
    + rewrite IH. destruct (bool_decide (x = k')) eqn:E2; bools; subst; [ | done].
      by rewrite bool_decide_false.
Qed.

Lemma map_update_keys k fresh f l :
  map fst (map_update k fresh f l) = if bool_decide (k ∈ map fst l) then map fst l else map fst l ++ [k].
Proof.
  induction l as [|[x a] l IH]; simpl; [done | ].
  destruct (bool_decide (x = k)) eqn:E; bools; subst; simpl.
  - by rewrite bool_decide_true by set_solver.
  - rewrite IH. destruct (decide (k ∈ map fst l)).
    + by rewrite !bool_decide_true by set_solver.
    + by rewrite !bool_decide_false by set_solver.
Qed.

Lemma map_update_NoDup k fresh f l : NoDup (map fst l) → NoDup (map fst (map_update k fresh f l)).
Proof.
  intros H. rewrite map_update_keys. destruct (bool_decide _) eqn:E; bools; [done | ].
  apply NoDup_app. split; [done | ]. split; [set_solver | apply NoDup_singleton].
Qed.

Lemma map_get_in k a l : map_get k l = Some a → (k, a) ∈ l.
Proof.
  induction l as [|[x b] l IH]; simpl; [done | ]. destruct (bool_decide (x = k)) eqn:E; bools; subst.
  - intros [= ->]. left.
  - intros H. right. by apply IH.
Qed.

Lemma map_in_get k a l : NoDup (map fst l) → (k, a) ∈ l → map_get k l = Some a.
Proof.
  induction l as [|[x b] l IH]; simpl; [by intros _ ?%elem_of_nil | ]. intros [Hx Hd]%NoDup_cons [[= <- <-]|Hin]%elem_of_cons.
  - by rewrite bool_decide_true.
  - rewrite bool_decide_false; [by apply IH | ]. intros ->. apply Hx, list_elem_of_fmap. by exists (k, a).
Qed.

Lemma map_get_None k l : map_get k l = None ↔ k ∉ map fst l.
Proof.
  induction l as [|[x b] l IH]; simpl; [set_solver | ]. destruct (bool_decide (x = k)) eqn:E; bools; subst; set_solver.
Qed.
End map.

(** ** Objects: maps whose entries are set and deleted *)

Definition map_set {K A} `{EqDecision K} (k : K) (a : A) (l : list (K * A)) : list (K * A) := map_update k a (fun _ => a) l.
Definition map_del {K A} `{EqDecision K} (k : K) (l : list (K * A)) : list (K * A) := filter (fun p => p.1 ≠ k) l.
Definition has_key {K A} `{EqDecision K} (k : K) (l : list (K * A)) : bool := match map_get k l with Some _ => true | None => false end.

Section objects.
  Context {K A : Type} `{EqDecision K}.
  Implicit Types (k : K) (a : A) (l : list (K * A)).

Lemma map_get_set k a l k' : map_get k' (map_set k a l) = if bool_decide (k = k') then Some a else map_get k' l.
Proof. apply map_get_update. Qed.

Lemma map_get_filter (P : K → Prop) `{∀ k, Decision (P k)} l k :
  map_get k (filter (fun p => P p.1) l) = if bool_decide (P k) then map_get k l else None.
Proof.
  induction l as [|[x a] l IH]; [by destruct (bool_decide _) | ].
  rewrite filter_cons. cbn [fst map_get]. destruct (decide (P x)) as [Hx|Hx]; cbn [map_get].
  - rewrite IH. destruct (bool_decide (x = k)) eqn:E; bools; subst; [by rewrite bool_decide_true | done].
  - rewrite IH. destruct (bool_decide (x = k)) eqn:E; bools; subst; [by rewrite bool_decide_false | done].
Qed.

Lemma map_get_del k l k' : map_get k' (map_del k l) = if bool_decide (k = k') then None else map_get k' l.
Proof.
  etrans; [exact (map_get_filter (fun x => x ≠ k) l k') | ]. destruct (bool_decide (k = k')) eqn:E; bools; subst.
  - by rewrite bool_decide_false by tauto.
  - by rewrite bool_decide_true by congruence.
Qed.

Lemma map_get_is_Some k l : is_Some (map_get k l) ↔ k ∈ map fst l.
Proof.
  destruct (map_get k l) as [a|] eqn:E.
  - split; [intros _ | eauto]. apply map_get_in in E. apply list_elem_of_fmap. by exists (k, a).
  - split; [by intros [? ?] | ]. intros H. by apply map_get_None in E.
Qed.

Lemma filter_keys_NoDup (P : K * A → Prop) `{∀ p, Decision (P p)} l : NoDup (map fst l) → NoDup (map fst (filter P l)).
Proof.
  intros Hd. eapply sublist_NoDup; [exact Hd | ]. apply (fmap_sublist fst), sublist_filter.
Qed.

Lemma map_set_NoDup k a l : NoDup (map fst l) → NoDup (map fst (map_set k a l)).
Proof. apply map_update_NoDup. Qed.

Lemma map_del_NoDup k l : NoDup (map fst l) → NoDup (map fst (map_del k l)).
Proof. apply filter_keys_NoDup. Qed.

Lemma map_set_nonempty k a l : map_set k a l ≠ [].
Proof. destruct l as [|[x b] l]; [done | ]. unfold map_set. simpl. by destruct (bool_decide _). Qed.
End objects.

Lemma elem_of_map_set {K A} `{EqDecision K} (k : K) (a : A) (l : list (K * A)) e :
  NoDup (map fst l) → e ∈ map_set k a l → e = (k, a) ∨ (e ∈ l ∧ e.1 ≠ k).
Proof.
  intros Hd He. destruct e as [k' a']. apply (map_in_get _ _ _ (map_set_NoDup k a l Hd)) in He. rewrite map_get_set in He.
  case_bool_decide; [left; congruence | right]. split; [by apply map_get_in | cbn; congruence].
Qed.

Create HintDb objects.
#[export] Hint Resolve map_set_NoDup map_del_NoDup filter_keys_NoDup map_set_nonempty : objects.
Create Rewrite HintDb objects.
#[export] Hint Rewrite @map_get_set @map_get_del : objects.
