(* ===== verification/JsNumber.v ===== *)
(** * Numbers of the language

    A [number] is an IEEE 754 binary64 value, kept as the [spec_float] of the
    Standard Library with 53 bits of precision and exponent bound 1024.  Addition,
    subtraction, multiplication, division and comparison are the library's rounded
    operations; this file adds the ones the program uses beyond them: the
    remainder [%], [Math.floor], [Math.ceil], [Math.max], [Math.min] and the
    reading of a decimal literal by [Number(text)]. *)

From stdpp Require Import base list numbers strings.
From Stdlib Require Import SpecFloat ZArith Lia.
From S2P Require Import Prelude.

Abbreviation number := spec_float.

Definition prec : Z := 53.
Definition emax : Z := 1024.

Definition num_add : number → number → number := SFadd prec emax.
Definition num_sub : number → number → number := SFsub prec emax.
Definition num_mul : number → number → number := SFmul prec emax.
Definition num_div : number → number → number := SFdiv prec emax.
Definition num_neg : number → number := SFopp.
Definition num_abs : number → number := SFabs.

(** [a < b], [a <= b] and [a === b] on numbers: all false on a NaN. *)
Definition num_ltb : number → number → bool := SFltb.
Definition num_leb : number → number → bool := SFleb.
Definition num_eqb : number → number → bool := SFeqb.

(** [Number.isFinite]. *)
Definition is_finite (x : number) : bool :=
  match x with S754_zero _ | S754_finite _ _ _ => true | _ => false end.

Definition is_nan (x : number) : bool := match x with S754_nan => true | _ => false end.

(** The number of an integer: exact up to 2^53, rounded to nearest beyond it. *)
Definition num_of_Z (n : Z) : number := binary_normalize prec emax n 0 false.

Definition zero : number := S754_zero false.
Definition one : number := num_of_Z 1.

(** [n % d]: the exact remainder of the truncated division, with the sign of [n]. *)
Definition num_rem (n d : number) : number :=
  match n, d with
  | S754_nan, _ | _, S754_nan | S754_infinity _, _ | _, S754_zero _ => S754_nan
  | _, S754_infinity _ => n
  | S754_zero _, _ => n
  | S754_finite s m e, S754_finite _ m' e' =>
      let low := Z.min e e' in
      let a := Z.shiftl (Zpos m) (e - low) in
      let b := Z.shiftl (Zpos m') (e' - low) in
      match (a mod b)%Z with
      | Z0 => S754_zero s
      | r => binary_normalize prec emax (cond_Zopp s r) low s
      end
  end.

(** [Math.floor]. *)
Definition num_floor (x : number) : number :=
  match x with
  | S754_finite s m e =>
      if (0 <=? e)%Z then x
      else binary_normalize prec emax (cond_Zopp s (Zpos m) / 2 ^ (- e))%Z 0 false
  | _ => x
  end.

(** [Math.ceil x] is [-Math.floor(-x)]. *)
Definition num_ceil (x : number) : number := num_neg (num_floor (num_neg x)).

(** [Math.max] and [Math.min] of two arguments: NaN is absorbing and [+0] is
    above [-0]. *)
Definition num_max (a b : number) : number :=
  if is_nan a || is_nan b then S754_nan
  else match a, b with
       | S754_zero s, S754_zero s' => S754_zero (s && s')
       | _, _ => if num_ltb a b then b else a
       end.

Definition num_min (a b : number) : number :=
  if is_nan a || is_nan b then S754_nan
  else match a, b with
       | S754_zero s, S754_zero s' => S754_zero (s || s')
       | _, _ => if num_ltb b a then b else a
       end.

(** ** Reading decimal literals

    [num_of_decimal m e] is the number nearest to [m * 10^e] for [m >= 0]. *)
Definition num_of_decimal (m e : Z) : number :=
  match m with
  | Zpos _ =>
      if (0 <=? e)%Z then num_of_Z (m * 10 ^ e)
      else
        let '(q, ez, loc) := SFdiv_core_binary prec emax m 0 (10 ^ (- e)) 0 in
        binary_round_aux prec emax false q ez loc
  | _ => zero
  end.

(** The parts of a literal [digits [. digits] [e [sign] digits]]. *)
Definition split_exponent (s : ustring) : ustring * Z :=
  let mant := take_while (fun c => negb ((c =? chr "e")%Z || (c =? chr "E")%Z)) s in
  match drop (length mant) s with
  | [] => (mant, 0%Z)
  | _ :: c :: ds =>
      if (c =? chr "-")%Z then (mant, (- digits_value ds)%Z)
      else if (c =? chr "+")%Z then (mant, digits_value ds)
      else (mant, digits_value (c :: ds))
  | _ :: [] => (mant, 0%Z)
  end.

(** [Number(text)] on a text accepted by the decimal-literal expression
    [(\d+\.?\d*|\.\d+)([eE][+-]?\d+)?]. *)
Definition Number (s : ustring) : number :=
  let '(mant, e) := split_exponent s in
  let int := take_while is_digit mant in
  let frac := drop (S (length int)) mant in
  num_of_decimal (digits_value (int ++ frac)) (e - Z.of_nat (length frac)).

(** ** Facts used by the components *)

Lemma num_eqb_refl x : is_finite x = true → num_eqb x x = true.
Proof.
  destruct x as [s | s | | s m e]; try done; intros _.
  unfold num_eqb, SFeqb, SFcompare. rewrite Z.compare_refl.
  replace (Pos.compare_cont Eq m m) with Eq by (symmetry; apply Pos.compare_refl).
  by destruct s.
Qed.

Lemma num_max_finite a b :
  is_finite a = true → is_finite b = true → is_finite (num_max a b) = true.
Proof.
  intros Ha Hb. unfold num_max.
  destruct a, b; try done; simpl; destruct (num_ltb _ _); done.
Qed.

Lemma num_min_finite a b :
  is_finite a = true → is_finite b = true → is_finite (num_min a b) = true.
Proof.
  intros Ha Hb. unfold num_min.
  destruct a, b; try done; simpl; destruct (num_ltb _ _); done.
Qed.

Lemma num_abs_finite a : is_finite a = true → is_finite (num_abs a) = true.
Proof. by destruct a. Qed.

Lemma num_neg_finite a : is_finite (num_neg a) = is_finite a.
Proof. by destruct a. Qed.

Lemma num_abs_nonneg a : num_ltb (num_abs a) zero = false.
Proof. by destruct a. Qed.

Example number_tenth : Number (js "0.1") = S754_finite false 7205759403792794 (-56).
Proof. vm_compute. reflexivity. Qed.

Example number_sum : num_add (Number (js "0.1")) (Number (js "0.2")) = Number (js "0.30000000000000004").
Proof. vm_compute. reflexivity. Qed.

Example number_exp : Number (js "1.5e-3") = Number (js ".0015").
Proof. vm_compute. reflexivity. Qed.

Example number_overflow : Number (js "1e999") = S754_infinity false.
Proof. vm_compute. reflexivity. Qed.

Example floor_neg : num_floor (num_neg (Number (js "1.5"))) = num_neg (num_of_Z 2).
Proof. vm_compute. reflexivity. Qed.

Example ceil_neg_half : num_ceil (num_neg (Number (js "0.5"))) = S754_zero true.
Proof. vm_compute. reflexivity. Qed.

Example rem_neg : num_rem (num_neg (num_of_Z 7)) (Number (js "2.5")) = num_neg (num_of_Z 2).
Proof. vm_compute. reflexivity. Qed.
