(* ===== verification/ExprSyntax.v ===== *)
(** * Billing expressions: tokens, syntax trees and errors

    The data of [web/src/features/pricing/lib/billing-expression-evaluator.ts]:
    the limits, the token and node types, the values, the static types and one
    constructor of [expr_error] for each [throw] of the file. *)

From stdpp Require Import base list numbers strings.
From Stdlib Require Import Lia.
From S2P Require Import Prelude JsNumber.

(** ** Limits *)

Definition MAX_EXPRESSION_LENGTH : nat := Z.to_nat 10000.
Definition MAX_TOKENS : nat := Z.to_nat 2048.
Definition MAX_PARSE_DEPTH : nat := 128.
Definition MAX_EVALUATION_DEPTH : nat := 256.

(** ** Tokens *)

Inductive TokenType := TNumber | TString | TIdentifier | TSymbol | TEof.

#[export] Instance TokenType_eq_dec : EqDecision TokenType.
Proof. solve_decision. Defined.

Record Token := mkToken {
  type : TokenType;
  value : ustring;
  position : nat;
}.

(** ** Syntax trees *)

Inductive ExpressionValue :=
| VNumber (n : number)
| VString (s : ustring)
| VBoolean (b : bool).

Inductive UnaryOperator := UPlus | UMinus | UNot.

Inductive BinaryOperator :=
| BAdd | BSub | BMul | BPow | BDiv | BRem
| BLt | BLe | BGt | BGe | BEq | BNe | BAnd | BOr.

#[export] Instance UnaryOperator_eq_dec : EqDecision UnaryOperator.
Proof. solve_decision. Defined.

#[export] Instance BinaryOperator_eq_dec : EqDecision BinaryOperator.
Proof. solve_decision. Defined.

Inductive ExpressionNode :=
| Literal (v : ExpressionValue)
| Identifier (name : ustring)
| Unary (operator : UnaryOperator) (operand : ExpressionNode)
| Binary (operator : BinaryOperator) (left right : ExpressionNode)
| Conditional (condition consequent alternate : ExpressionNode)
| Call (name : ustring) (arguments : list ExpressionNode).

Definition unary_text (op : UnaryOperator) : ustring :=
  match op with UPlus => js "+" | UMinus => js "-" | UNot => js "!" end.

Definition binary_text (op : BinaryOperator) : ustring :=
  match op with
  | BAdd => js "+" | BSub => js "-" | BMul => js "*" | BPow => js "**"
  | BDiv => js "/" | BRem => js "%" | BLt => js "<" | BLe => js "<="
  | BGt => js ">" | BGe => js ">=" | BEq => js "==" | BNe => js "!="
  | BAnd => js "&&" | BOr => js "||"
  end.

(** The types the validator assigns. *)
Inductive ExpressionStaticType := StNumber | StString | StBoolean | StUnknown.

#[export] Instance ExpressionStaticType_eq_dec : EqDecision ExpressionStaticType.
Proof. solve_decision. Defined.

(** [Record<string, number>], as its [Object.entries] list. *)
Abbreviation BillingExpressionEnvironment := (list (ustring * number)).

Record BillingExpressionResult := mkResult {
  cost : number;
  matchedTier : ustring;
}.

(** ** Errors

    Positions are the ones printed in the message (counted from 1).  [ETypeError]
    stands for reading a property of [undefined] and [EFuel] for a bound of the
    model; no theorem assumes their absence, it is proved. *)

Inductive expr_error :=
| ETooLong
| ETooComplex
| EUnexpectedPosition (p : nat)
| EInvalidNumber (p : nat)
| EUnterminatedString (p : nat)
| EInvalidUnicodeEscape (p : nat)
| EInvalidStringEscape (p : nat)
| EUnexpectedCharacter (c : Z) (p : nat)
| EUnexpectedToken (printable : ustring) (p : nat)
| EExpected (expected : ustring) (p : nat)
| ENestingTooDeep
| EResultNotNumeric
| EUnknownVariable (name : ustring)
| EConditionNotBoolean
| EUnaryNotBoolean
| EUnaryNotNumber (op : UnaryOperator)
| EOperatorBooleans (op : BinaryOperator)
| EComparisonTypes
| EPlusTypes
| EOperatorNumbers (op : BinaryOperator)
| ETierName
| ETierValue
| ENumericArguments (name : ustring)
| ENumericArgument (name : ustring)
| EUnknownFunction (name : ustring)
| EArgumentCount (name : ustring) (expected : nat)
| EInvalidEstimatorValue (name : ustring)
| ENegativeCost
| ENonFinite
| ETypeError
| EFuel.

Definition quoted (s : ustring) : ustring := DQUOTE :: s ++ [DQUOTE].

(** The text of [Error.message] for each throw. *)
Definition error_message (e : expr_error) : ustring :=
  match e with
  | ETooLong => js "Billing expression is too long"
  | ETooComplex => js "Billing expression is too complex"
  | EUnexpectedPosition p => js "Unexpected character at position " ++ show_nat p
  | EInvalidNumber p => js "Invalid number at position " ++ show_nat p
  | EUnterminatedString p => js "Unterminated string at position " ++ show_nat p
  | EInvalidUnicodeEscape p => js "Invalid Unicode escape at position " ++ show_nat p
  | EInvalidStringEscape p => js "Invalid string escape at position " ++ show_nat p
  | EUnexpectedCharacter c p =>
      js "Unexpected character " ++ quoted [c] ++ js " at position " ++ show_nat p
  | EUnexpectedToken t p =>
      js "Unexpected token " ++ quoted t ++ js " at position " ++ show_nat p
  | EExpected t p => js "Expected " ++ quoted t ++ js " at position " ++ show_nat p
  | ENestingTooDeep => js "Billing expression nesting is too deep"
  | EResultNotNumeric => js "Billing expression result must be numeric"
  | EUnknownVariable n => js "Unknown billing expression variable " ++ quoted n
  | EConditionNotBoolean => js "Billing expression condition must be boolean"
  | EUnaryNotBoolean =>
      js "Billing expression unary " ++ quoted (js "!") ++ js " requires a boolean"
  | EUnaryNotNumber op =>
      js "Billing expression unary " ++ quoted (unary_text op) ++ js " requires a number"
  | EOperatorBooleans op =>
      js "Billing expression operator " ++ quoted (binary_text op) ++ js " requires booleans"
  | EComparisonTypes => js "Billing expression comparison types do not match"
  | EPlusTypes =>
      js "Billing expression operator " ++ quoted (js "+") ++
      js " requires matching numbers or strings"
  | EOperatorNumbers op =>
      js "Billing expression operator " ++ quoted (binary_text op) ++ js " requires numbers"
  | ETierName => js "tier() requires a string name"
  | ETierValue => js "tier() requires a numeric value"
  | ENumericArguments n => n ++ js "() requires numeric arguments"
  | ENumericArgument n => n ++ js "() requires a numeric argument"
  | EUnknownFunction n => js "Unknown billing expression function " ++ quoted n
  | EArgumentCount n k =>
      n ++ js "() requires " ++ show_nat k ++ js " argument" ++
      (if k =? 1 then [] else js "s")
  | EInvalidEstimatorValue n => js "Invalid estimator value for " ++ quoted n
  | ENegativeCost => js "Billing expression produced a negative cost"
  | ENonFinite => js "Billing expression produced a non-finite number"
  | ETypeError => js "Cannot read properties of undefined"
  | EFuel => []
  end.

(** ** Induction on trees

    The generated principle has no hypothesis for the arguments of a call; this
    one does. *)
Section node_induction.
Variable P : ExpressionNode → Prop.
Hypothesis HLiteral : ∀ v, P (Literal v).
Hypothesis HIdentifier : ∀ n, P (Identifier n).
Hypothesis HUnary : ∀ op e, P e → P (Unary op e).
Hypothesis HBinary : ∀ op l r, P l → P r → P (Binary op l r).
Hypothesis HConditional : ∀ c a b, P c → P a → P b → P (Conditional c a b).
Hypothesis HCall : ∀ n args, Forall P args → P (Call n args).

Fixpoint node_induction (e : ExpressionNode) : P e :=
  match e with
  | Literal v => HLiteral v
  | Identifier n => HIdentifier n
  | Unary op e1 => HUnary op e1 (node_induction e1)
  | Binary op l r => HBinary op l r (node_induction l) (node_induction r)
  | Conditional c a b =>
      HConditional c a b (node_induction c) (node_induction a) (node_induction b)
  | Call n args =>
      HCall n args
        ((fix go (l : list ExpressionNode) : Forall P l :=
            match l with
            | [] => Forall_nil_2 P
            | x :: l' => Forall_cons_2 P x l' (node_induction x) (go l')
            end) args)
  end.
End node_induction.
