(* ===== verification/ExprTokenizer.v ===== *)
(** * Billing expressions: the tokenizer

    [class BillingExpressionTokenizer].  The field [index] is threaded through the
    methods; a reader gets the text from [index] on as a suffix [rest] of the source
    and returns its token with the number of code units it consumed. *)

From stdpp Require Import base list numbers strings sets.
From Stdlib Require Import Lia.
From S2P Require Import Prelude JsNumber ExprSyntax.

(** ** Character classes *)

Definition isDigit (char : option Z) : bool :=
  match char with Some c => is_digit c | None => false end.

Definition isIdentifierStart (char : option Z) : bool :=
  match char with
  | Some c =>
      ((chr "a" <=? c)%Z && (c <=? chr "z")%Z) || ((chr "A" <=? c)%Z && (c <=? chr "Z")%Z) ||
      (c =? chr "_")%Z
  | None => false
  end.

Definition isIdentifierPart (char : option Z) : bool :=
  isIdentifierStart char || isDigit char.

(** ** Readers *)

Definition skipWhitespace (rest : ustring) : nat := length (take_while is_space rest).

(** The length matched by [/^(?:\d+\.?\d*|\.\d+)(?:[eE][+-]?\d+)?/u]. *)
Definition match_mantissa (rest : ustring) : option nat :=
  let ds := length (take_while is_digit rest) in
  match ds with
  | 0 =>
      match rest with
      | c :: r =>
          let fs := length (take_while is_digit r) in
          if (c =? chr ".")%Z && (0 <? fs) then Some (1 + fs) else None
      | [] => None
      end
  | _ =>
      match drop ds rest with
      | c :: r =>
          if (c =? chr ".")%Z then Some (ds + 1 + length (take_while is_digit r)) else Some ds
      | [] => Some ds
      end
  end.

Definition match_sign (rest : ustring) : nat :=
  match rest with
  | c :: _ => if (c =? chr "+")%Z || (c =? chr "-")%Z then 1 else 0
  | [] => 0
  end.

Definition match_exponent (rest : ustring) : nat :=
  match rest with
  | e :: r =>
      if (e =? chr "e")%Z || (e =? chr "E")%Z then
        let sign := match_sign r in
        let ds := length (take_while is_digit (drop sign r)) in
        if 0 <? ds then 1 + sign + ds else 0
      else 0
  | [] => 0
  end.

Definition match_number (rest : ustring) : option nat :=
  k ← match_mantissa rest;
  Some (k + match_exponent (drop k rest)).

Definition readNumber (position : nat) (rest : ustring) : result expr_error (Token * nat) :=
  match match_number rest with
  | None => Err (EInvalidNumber (position + 1))
  | Some k =>
      let text := take k rest in
      if is_finite (Number text) then Ok (mkToken TNumber text position, k)
      else Err (EInvalidNumber (position + 1))
  end.

Definition simpleEscapes (c : Z) : option Z :=
  if (c =? DQUOTE)%Z then Some DQUOTE
  else if (c =? chr "'")%Z then Some (chr "'")
  else if (c =? chr "\")%Z then Some (chr "\")
  else if (c =? chr "/")%Z then Some (chr "/")
  else if (c =? chr "b")%Z then Some 8%Z
  else if (c =? chr "f")%Z then Some 12%Z
  else if (c =? chr "n")%Z then Some 10%Z
  else if (c =? chr "r")%Z then Some 13%Z
  else if (c =? chr "t")%Z then Some 9%Z
  else None.

(** The value of a hexadecimal digit. *)
Definition hex_value (c : Z) : option Z :=
  if is_digit c then Some (c - chr "0")%Z
  else if (chr "a" <=? c)%Z && (c <=? chr "f")%Z then Some (c - chr "a" + 10)%Z
  else if (chr "A" <=? c)%Z && (c <=? chr "F")%Z then Some (c - chr "A" + 10)%Z
  else None.

Definition hex4 (h1 h2 h3 h4 : Z) : option Z :=
  a ← hex_value h1; b ← hex_value h2; c ← hex_value h3; d ← hex_value h4;
  Some (((a * 16 + b) * 16 + c) * 16 + d)%Z.

(** The loop of [readString]: [index] is the position of the head of [rest], and
    the result is the decoded value with the index after the closing quote. *)
Fixpoint readString_loop (quote : Z) (position index : nat) (value rest : ustring)
    {struct rest} : result expr_error (ustring * nat) :=
  match rest with
  | [] => Err (EUnterminatedString (position + 1))
  | char :: rest1 =>
      if (char =? quote)%Z then Ok (value, index + 1)
      else if (char =? 10)%Z || (char =? 13)%Z then Err (EUnterminatedString (position + 1))
      else if negb (char =? chr "\")%Z then
        readString_loop quote position (index + 1) (value ++ [char]) rest1
      else
        match rest1 with
        | [] => Err (EUnterminatedString (position + 1))
        | escaped :: rest2 =>
            match simpleEscapes escaped with
            | Some c => readString_loop quote position (index + 2) (value ++ [c]) rest2
            | None =>
                if (escaped =? chr "u")%Z then
                  match rest2 with
                  | h1 :: h2 :: h3 :: h4 :: rest3 =>
                      match hex4 h1 h2 h3 h4 with
                      | Some c => readString_loop quote position (index + 6) (value ++ [c]) rest3
                      | None => Err (EInvalidUnicodeEscape (index + 2 + 1))
                      end
                  | _ => Err (EInvalidUnicodeEscape (index + 2 + 1))
                  end
                else Err (EInvalidStringEscape (index + 2))
            end
        end
  end.

Definition readString (position : nat) (rest : ustring) : result expr_error (Token * nat) :=
  match rest with
  | [] => Err (EUnterminatedString (position + 1))
  | quote :: rest1 =>
      '(value, index) ← readString_loop quote position (position + 1) [] rest1;
      Ok (mkToken TString value position, index - position)
  end.

Definition readIdentifier (position : nat) (rest : ustring) : Token * nat :=
  let k := 1 + length (take_while (fun c => isIdentifierPart (Some c)) (drop 1 rest)) in
  (mkToken TIdentifier (take k rest) position, k).

Definition twoCharacterSymbols : list ustring :=
  [js "&&"; js "||"; js "=="; js "!="; js "<="; js ">="; js "**"].

Definition oneCharacterSymbols : ustring := js "+-*/%<>()?:,!".

Definition readSymbol (position : nat) (rest : ustring) : result expr_error (Token * nat) :=
  let twoCharacter := take 2 rest in
  if bool_decide (twoCharacter ∈ twoCharacterSymbols)
  then Ok (mkToken TSymbol twoCharacter position, 2)
  else match rest with
       | c :: _ =>
           if bool_decide (c ∈ oneCharacterSymbols)
           then Ok (mkToken TSymbol [c] position, 1)
           else Err (EUnexpectedCharacter c (position + 1))
       | [] => Err ETypeError
       end.

(** The dispatch of one round of the loop of [tokenize]. *)
Definition readToken (position : nat) (rest : ustring) : result expr_error (Token * nat) :=
  let char := rest !! 0 in
  if isDigit char || (bool_decide (char = Some (chr ".")) && isDigit (rest !! 1))
  then readNumber position rest
  else if bool_decide (char = Some DQUOTE) || bool_decide (char = Some (chr "'"))
  then readString position rest
  else if isIdentifierStart char then Ok (readIdentifier position rest)
  else readSymbol position rest.

(** The loop of [tokenize]; [tokens] is the array built so far. *)
Fixpoint tokenize_loop (fuel : nat) (source : ustring) (index : nat) (tokens : list Token)
    : result expr_error (list Token) :=
  match fuel with
  | 0 => Err EFuel
  | S f =>
      let finish := Ok (tokens ++ [mkToken TEof [] (length source)]) in
      if index <? length source then
        let position := index + skipWhitespace (drop index source) in
        if length source <=? position then finish
        else
          '(token, k) ← readToken position (drop position source);
          let tokens' := tokens ++ [token] in
          if MAX_TOKENS <? length tokens' then Err ETooComplex
          else if position + k =? position then Err (EUnexpectedPosition (position + k + 1))
          else tokenize_loop f source (position + k) tokens'
      else finish
  end.

(** Every round consumes a code unit, so one round more than the length is enough. *)
Definition tokenize (source : ustring) : result expr_error (list Token) :=
  tokenize_loop (S (length source)) source 0 [].

Example tokenize_sample :
  map value <$> tokenize (js "len<=2e5 ? tier('a', p*1.5) : 0")
  = Ok (map js ["len"; "<="; "2e5"; "?"; "tier"; "("; "a"; ","; "p"; "*"; "1.5"; ")"; ":"; "0"]
        ++ [[]]).
Proof. vm_compute. reflexivity. Qed.

(** ** What a lexeme denotes *)

(** [decodes quote inner v]: the text [inner] between two [quote]s denotes [v]. *)
Inductive decodes (quote : Z) : ustring → ustring → Prop :=
| dec_nil : decodes quote [] []
| dec_plain c s v :
    c ≠ quote → c ≠ 10%Z → c ≠ 13%Z → c ≠ chr "\" →
    decodes quote s v → decodes quote (c :: s) (c :: v)
| dec_simple e c s v :
    chr "\" ≠ quote → simpleEscapes e = Some c →
    decodes quote s v → decodes quote (chr "\" :: e :: s) (c :: v)
| dec_unicode h1 h2 h3 h4 c s v :
    chr "\" ≠ quote → hex4 h1 h2 h3 h4 = Some c →
    decodes quote s v →
    decodes quote (chr "\" :: chr "u" :: h1 :: h2 :: h3 :: h4 :: s) (c :: v).

(** The language of the number expression, as a grammar. *)
Definition all_digits (s : ustring) : Prop := Forall (fun c => is_digit c = true) s.

Inductive mantissa : ustring → Prop :=
| man_int a : a ≠ [] → all_digits a → mantissa a
| man_frac a b : a ≠ [] → all_digits a → all_digits b → mantissa (a ++ chr "." :: b)
| man_dot b : b ≠ [] → all_digits b → mantissa (chr "." :: b).

Inductive exponent : ustring → Prop :=
| exp_none : exponent []
| exp_some e sign ds :
    e = chr "e" ∨ e = chr "E" → sign ∈ [[]; [chr "+"]; [chr "-"]] →
    ds ≠ [] → all_digits ds → exponent (e :: sign ++ ds).

Definition number_literal (s : ustring) : Prop :=
  ∃ m x, s = m ++ x ∧ mantissa m ∧ exponent x.

Definition is_quote (q : Z) : Prop := q = DQUOTE ∨ q = chr "'".

(** [denotes t text]: the token [t] is what the code units [text] stand for. *)
Definition denotes (t : Token) (text : ustring) : Prop :=
  match type t with
  | TNumber =>
      value t = text ∧ number_literal text ∧ is_finite (Number text) = true
  | TIdentifier =>
      value t = text ∧ isIdentifierStart (text !! 0) = true ∧
      Forall (fun c => isIdentifierPart (Some c) = true) text
  | TSymbol =>
      value t = text ∧
      (text ∈ twoCharacterSymbols ∨ ∃ c, text = [c] ∧ c ∈ oneCharacterSymbols)
  | TString => ∃ q inner, is_quote q ∧ text = q :: inner ++ [q] ∧ decodes q inner (value t)
  | TEof => False
  end.

(** [lexed source i ts]: from [i] on, [source] is the lexemes of [ts] separated by
    white space and nothing else. *)
Inductive lexed (source : ustring) : nat → list Token → Prop :=
| lexed_nil i :
    Forall (fun c => is_space c = true) (drop i source) → lexed source i []
| lexed_cons i p k t ts :
    i ≤ p → Forall (fun c => is_space c = true) (slice i p source) →
    0 < k → p + k ≤ length source → position t = p →
    denotes t (slice p (p + k) source) →
    lexed source (p + k) ts → lexed source i (t :: ts).

(** ** Lemmas on the readers *)

Lemma readString_loop_sound q p rest : ∀ i v w j,
  readString_loop q p i v rest = Ok (w, j) →
  ∃ inner s w', rest = inner ++ q :: s ∧ w = v ++ w' ∧ decodes q inner w' ∧
                j = i + length inner + 1.
Proof.
  induction rest as [rest IH] using length_ind; intros i v w j H.
  destruct rest as [|c rest1]; simpl in H; [done | ].
  destruct (c =? q)%Z eqn:Eq; bools.
  { injection H as <- <-. exists [], rest1, []. subst.
    rewrite app_nil_r. repeat split; [constructor | simpl; lia]. }
  destruct ((c =? 10)%Z || (c =? 13)%Z) eqn:E; [done | ]. bools.
  destruct (c =? chr "\")%Z eqn:Eb; simpl in H; bools.
  2: { apply IH in H as (inner & s & w' & -> & -> & Hd & ->); [ | simpl; lia].
       exists (c :: inner), s, (c :: w'). rewrite <- app_assoc.
       repeat split; [by constructor | simpl; lia]. }
  subst c. destruct rest1 as [|e rest2]; [done | ].
  destruct (simpleEscapes e) as [c|] eqn:Es.
  { apply IH in H as (inner & s & w' & -> & -> & Hd & ->); [ | simpl; lia].
    exists (chr "\" :: e :: inner), s, (c :: w'). rewrite <- app_assoc.
    repeat split; [by constructor | simpl; lia]. }
  destruct (e =? chr "u")%Z eqn:Eu; [ | done]. bools; subst e.
  destruct rest2 as [|h1 [|h2 [|h3 [|h4 rest3]]]]; try done.
  destruct (hex4 h1 h2 h3 h4) as [c|] eqn:Eh; [ | done].
  apply IH in H as (inner & s & w' & -> & -> & Hd & ->); [ | simpl; lia].
  exists (chr "\" :: chr "u" :: h1 :: h2 :: h3 :: h4 :: inner), s, (c :: w').
  rewrite <- app_assoc. repeat split; [by constructor | simpl; lia].
Qed.

Lemma readString_loop_complete q p inner v s : decodes q inner v → ∀ i acc,
  readString_loop q p i acc (inner ++ q :: s) = Ok (acc ++ v, i + length inner + 1).
Proof.
  induction 1 as [| c t w H1 H2 H3 H4 _ IH | e c t w Hq He _ IH | h1 h2 h3 h4 c t w Hq Hh _ IH];
    intros i acc; simpl.
  - rewrite Z.eqb_refl, app_nil_r. do 2 f_equal. lia.
  - rewrite (proj2 (Z.eqb_neq _ _) H1), (proj2 (Z.eqb_neq _ _) H2),
      (proj2 (Z.eqb_neq _ _) H3), (proj2 (Z.eqb_neq _ _) H4). simpl.
    rewrite IH, <- app_assoc. simpl. do 2 f_equal. lia.
  - rewrite (proj2 (Z.eqb_neq _ _) Hq). simpl.
    rewrite He, IH, <- app_assoc. simpl. do 2 f_equal. lia.
  - rewrite (proj2 (Z.eqb_neq _ _) Hq). simpl.
    rewrite Hh, IH, <- app_assoc. simpl. do 2 f_equal. lia.
Qed.

Lemma take_while_take {A} (p : A → bool) l : take (length (take_while p l)) l = take_while p l.
Proof. rewrite <- (take_drop_while p l) at 2. by rewrite take_app_length. Qed.

Lemma drop_take_while {A} (p : A → bool) l : drop (length (take_while p l)) l = drop_while p l.
Proof. rewrite <- (take_drop_while p l) at 2. by rewrite drop_app_length. Qed.

Lemma take_while_all_digits rest : all_digits (take_while is_digit rest).
Proof. apply take_while_Forall. Qed.

Lemma nonempty_length {A} (l : list A) : 0 < length l → l ≠ [].
Proof. destruct l; simpl; [lia | done]. Qed.

#[local] Hint Resolve take_while_all_digits nonempty_length : newapi.

Lemma match_mantissa_sound rest k :
  match_mantissa rest = Some k → 0 < k ≤ length rest ∧ mantissa (take k rest).
Proof.
  unfold match_mantissa. pose proof (take_while_length is_digit rest) as Hl.
  pose proof (take_while_take is_digit rest) as Ht.
  destruct (length (take_while is_digit rest)) as [|n] eqn:En.
  - destruct rest as [|c r]; [done | ].
    destruct ((c =? chr ".")%Z && _) eqn:E; [ | done]. bools; subst.
    intros [= <-]. pose proof (take_while_length is_digit r). simpl.
    rewrite take_while_take. split; [lia | apply man_dot; auto with newapi].
  - assert (Hn : take_while is_digit rest ≠ []) by (apply nonempty_length; lia).
    destruct (drop (S n) rest) as [|c r] eqn:Ed.
    { intros [= <-]. split; [lia | ]. rewrite Ht. constructor; auto with newapi. }
    assert (Hr : length rest = S n + S (length r)).
    { apply (f_equal length) in Ed. rewrite length_drop in Ed. simpl in Ed. lia. }
    destruct (c =? chr ".")%Z eqn:Ec; intros [= <-]; bools.
    2: { split; [lia | rewrite Ht; constructor; auto with newapi]. }
    pose proof (take_while_length is_digit r). split; [lia | ].
    rewrite <- (take_drop (S n) rest), Ed, Ht, Ec.
    replace (S (n + 1 + length (take_while is_digit r))) with (length (take_while is_digit rest) + S (length (take_while is_digit r)))
      by lia.
    rewrite take_app_add. simpl. rewrite take_while_take.
    apply man_frac; auto with newapi.
Qed.

Lemma match_exponent_sound rest :
  match_exponent rest ≤ length rest ∧ exponent (take (match_exponent rest) rest).
Proof.
  unfold match_exponent. destruct rest as [|e r]; [split; [done | constructor] | ].
  destruct ((e =? chr "e")%Z || _) eqn:Ee; [ | split; [simpl; lia | constructor]].
  apply orb_true_iff in Ee. remember (match_sign r) as sign eqn:Hs.
  destruct (0 <? _) eqn:E0; [ | split; [simpl; lia | constructor]]. bools.
  pose proof (take_while_length is_digit (drop sign r)) as Hl. rewrite length_drop in Hl.
  split; [simpl; lia | ]. simpl.
  rewrite <- (take_drop sign r) at 2.
  replace (sign + _) with (length (take sign r) + length (take_while is_digit (drop sign r)))
    by (rewrite length_take; lia).
  rewrite take_app_add, take_while_take. constructor; auto with newapi.
  - destruct Ee; bools; auto.
  - subst sign. destruct r as [|c r']; [set_solver | ]. simpl.
    destruct ((c =? chr "+")%Z || _) eqn:Ec; [ | set_solver].
    apply orb_true_iff in Ec as []; bools; subst; set_solver.
Qed.

Lemma match_number_sound rest k :
  match_number rest = Some k → 0 < k ≤ length rest ∧ number_literal (take k rest).
Proof.
  unfold match_number. destruct (match_mantissa rest) as [m|] eqn:Em; [ | done].
  simpl. intros [= <-]. apply match_mantissa_sound in Em as [Hm Hman].
  destruct (match_exponent_sound (drop m rest)) as [Hx Hexp]. rewrite length_drop in Hx.
  split; [lia | ]. exists (take m rest), (take (match_exponent (drop m rest)) (drop m rest)).
  split; [by rewrite take_take_drop | done].
Qed.

Lemma readNumber_sound p rest t k :
  readNumber p rest = Ok (t, k) →
  0 < k ≤ length rest ∧ position t = p ∧ denotes t (take k rest).
Proof.
  unfold readNumber. destruct (match_number rest) as [n|] eqn:E; [ | done].
  destruct (is_finite _) eqn:Ef; [ | done]. intros [= <- <-].
  apply match_number_sound in E as [? ?]. done.
Qed.

Lemma readString_sound p rest t k :
  readToken p rest = Ok (t, k) → is_quote (hd 0%Z rest) → readString p rest = Ok (t, k) →
  0 < k ≤ length rest ∧ position t = p ∧ denotes t (take k rest).
Proof.
  intros _ Hq. destruct rest as [|q rest1]; [done | ]. simpl in *. intros H. inv_bind.
  destruct a as [v j]. injection H as <- <-.
  apply readString_loop_sound in H0 as (inner & s & w & -> & -> & Hd & ->).
  rewrite length_app. simpl. split; [lia | ]. split; [done | ].
  exists q, inner. replace (_ - p) with (S (length inner + 1)) by lia. simpl.
  by rewrite take_app_add.
Qed.

Lemma readIdentifier_sound p rest t k :
  isIdentifierStart (rest !! 0) = true → readIdentifier p rest = (t, k) →
  0 < k ≤ length rest ∧ position t = p ∧ denotes t (take k rest).
Proof.
  destruct rest as [|c r]; [done | ]. intros Hc [= <- <-]. rewrite drop_0.
  pose proof (take_while_length (fun c => isIdentifierPart (Some c)) r).
  split; [simpl; lia | ]. split; [done | ]. simpl. rewrite take_while_take.
  split; [done | ]. split; [done | ]. constructor; [ | apply take_while_Forall].
  unfold isIdentifierPart. simpl in Hc. simpl. by rewrite Hc.
Qed.

Lemma readSymbol_sound p rest t k :
  readSymbol p rest = Ok (t, k) →
  0 < k ≤ length rest ∧ position t = p ∧ denotes t (take k rest).
Proof.
  unfold readSymbol. destruct (bool_decide (take 2 rest ∈ _)) eqn:E; bools.
  - intros [= <- <-]. unfold twoCharacterSymbols in E.
    assert (length rest ≥ 2).
    { apply (f_equal length) in E || idtac.
      destruct rest as [|a [|b r]]; simpl; try lia; set_unfold in E;
        repeat (destruct E as [E|E]; [by vm_compute in E | ]); done. }
    split; [lia | ]. split; [done | ]. split; [done | by left].
  - destruct rest as [|c r]; [done | ].
    destruct (bool_decide (c ∈ _)) eqn:Ec; [ | done]. bools.
    intros [= <- <-]. split; [simpl; lia | ]. split; [done | ]. simpl.
    split; [done | right; eauto].
Qed.

(** Every reader consumes at least one code unit and its token denotes exactly the
    text it consumed. *)
Lemma readToken_sound p rest t k :
  readToken p rest = Ok (t, k) →
  0 < k ≤ length rest ∧ position t = p ∧ denotes t (take k rest).
Proof.
  intros H. pose proof H as H'. unfold readToken in H.
  destruct (isDigit _ || _); [by apply readNumber_sound | ].
  destruct (bool_decide _ || _) eqn:Eq.
  { apply (readString_sound p rest t k H'); [ | done].
    unfold is_quote. apply orb_true_iff in Eq as [Eq|Eq]; bools;
      destruct rest; simplify_eq/=; auto. }
  destruct (isIdentifierStart _) eqn:Ei; [ | by apply readSymbol_sound].
  destruct (readIdentifier p rest) as [t' k'] eqn:Er. injection H as -> ->.
  by apply readIdentifier_sound.
Qed.

Lemma skipWhitespace_spec rest :
  skipWhitespace rest ≤ length rest ∧
  Forall (fun c => is_space c = true) (take (skipWhitespace rest) rest).
Proof.
  unfold skipWhitespace. split; [apply take_while_length | ].
  rewrite take_while_take. apply take_while_Forall.
Qed.

(** Position reached by one round of the loop from [index]. *)
Lemma round_position source index :
  let p := index + skipWhitespace (drop index source) in
  index ≤ length source →
  p ≤ length source ∧ Forall (fun c => is_space c = true) (slice index p source).
Proof.
  intros p Hi. destruct (skipWhitespace_spec (drop index source)) as [Hl Hf].
  rewrite length_drop in Hl. subst p. split; [lia | by rewrite <- slice_drop].
Qed.

Lemma tokenize_loop_sound fuel source : ∀ index tokens ts,
  index ≤ length source → length tokens ≤ MAX_TOKENS →
  tokenize_loop fuel source index tokens = Ok ts →
  ∃ body, ts = tokens ++ body ++ [mkToken TEof [] (length source)] ∧
          length tokens + length body ≤ MAX_TOKENS ∧ lexed source index body.
Proof.
  induction fuel as [|f IH]; intros index tokens ts Hi Ht H; [done | ].
  simpl in H. destruct (index <? length source) eqn:Elt; bools.
  2: { injection H as <-. exists []. simpl. split; [done | split; [lia | ]].
       constructor. rewrite drop_ge by lia. constructor. }
  destruct (round_position source index Hi) as [Hp Hws].
  set (p := index + skipWhitespace (drop index source)) in *.
  destruct (length source <=? p) eqn:Ele; bools.
  { injection H as <-. exists []. simpl. split; [done | split; [lia | ]]. constructor.
    replace p with (length source) in Hws by lia. unfold slice in Hws.
    by rewrite take_ge in Hws by (rewrite length_drop; lia). }
  inv_bind. destruct a as [t k]. apply readToken_sound in H0 as (Hk & Hpos & Hden).
  rewrite length_drop in Hk.
  destruct (MAX_TOKENS <? _) eqn:Em; [done | ]. destruct (p + k =? p) eqn:Epk; [done | ].
  bools. apply IH in H as (body & -> & Hlen & Hlex); [ | lia | done].
  rewrite length_app in Hlen; simpl in Hlen.
  exists (t :: body). rewrite <- app_assoc. simpl. split; [done | split; [lia | ]].
  apply (lexed_cons source index p k);
    [lia | done | lia | lia | done | by rewrite <- slice_drop | done].
Qed.

(** The errors a tokenizer run can end with: the two internal ones, a read past the
    end and the no-progress throw of the loop are not among them. *)
Definition tokenizer_error (e : expr_error) : bool :=
  match e with
  | ETooComplex | EInvalidNumber _ | EUnterminatedString _ | EInvalidUnicodeEscape _
  | EInvalidStringEscape _ | EUnexpectedCharacter _ _ => true
  | _ => false
  end.

Lemma readString_loop_error q p rest : ∀ i v e,
  readString_loop q p i v rest = Err e → tokenizer_error e = true.
Proof.
  induction rest as [rest IH] using length_ind; intros i v e H.
  destruct rest as [|c rest1]; simpl in H; [by simplify_eq | ].
  repeat (case_match_in H; simplify_eq/=; try done);
    eapply IH in H; simpl; (done || lia).
Qed.

Lemma readToken_error p rest e :
  rest ≠ [] → readToken p rest = Err e → tokenizer_error e = true.
Proof.
  intros Hne. destruct rest as [|c r]; [done | ].
  unfold readToken, readNumber, readSymbol. intros H.
  repeat (case_match_in H; simplify_eq/=; try done).
  apply bind_Err_inv in H as [H | ([v j] & _ & H)]; [ | done].
  by eapply readString_loop_error.
Qed.

Lemma tokenize_loop_error fuel source : ∀ index tokens e,
  index ≤ length source → length source - index < fuel →
  tokenize_loop fuel source index tokens = Err e → tokenizer_error e = true.
Proof.
  induction fuel as [|f IH]; intros index tokens e Hi Hf H; [lia | ].
  simpl in H. destruct (index <? length source) eqn:Elt; [ | done]. bools.
  destruct (round_position source index Hi) as [Hp _].
  set (p := index + skipWhitespace (drop index source)) in *.
  destruct (length source <=? p) eqn:Ele; [done | ]. bools.
  destruct (readToken p (drop p source)) as [[t k]|e'] eqn:Er; simpl in H.
  - apply readToken_sound in Er as (Hk & _ & _). rewrite length_drop in Hk.
    destruct (MAX_TOKENS <? _); [by simplify_eq | ].
    destruct (p + k =? p) eqn:E; bools; [lia | ].
    eapply IH; [ | | exact H]; lia.
  - simplify_eq. apply readToken_error in Er; [done | ].
    apply nonempty_length. rewrite length_drop. lia.
Qed.

(** ** Reading back a rendered token list *)

Definition SPACE : Z := 32.

(** Lexemes with one space after each. *)
Definition spaced (texts : list ustring) : ustring :=
  concat (map (fun t => t ++ [SPACE]) texts).

(** A token without its position, beside a text for it. *)
Abbreviation lexeme := (TokenType * ustring * ustring)%type.

Definition lexeme_ok (l : lexeme) : Prop := denotes (mkToken l.1.1 l.1.2 0) l.2.

Definition token_is (t : Token) (l : lexeme) : Prop := type t = l.1.1 ∧ value t = l.1.2.

(** The rest of the text ends any lexeme before it: it is empty or starts with one of
    these code units. *)
Definition breakers : list Z := [SPACE; chr "("; chr ")"; chr ","; DQUOTE].

Definition breaks (rest : ustring) : Prop :=
  match rest with [] => True | c :: _ => c ∈ breakers end.

(** [glued ls text]: the text is the lexemes in order, with white space or a break
    between them. *)
Inductive glued : list lexeme → ustring → Prop :=
| glued_nil : glued [] []
| glued_cons l ls gap text :
    lexeme_ok l → gap ∈ [[]; [SPACE]] → breaks (gap ++ text) → glued ls text →
    glued (l :: ls) (l.2 ++ gap ++ text).

(** A test that fails on every breaker fails on the first code unit of the rest. *)
Definition fails_first (p : Z → bool) (rest : ustring) : Prop :=
  match rest with [] => True | c :: _ => p c = false end.

Lemma breaks_fails p rest :
  forallb (fun c => negb (p c)) breakers = true → breaks rest → fails_first p rest.
Proof.
  destruct rest as [|c rest]; [done | ]. simpl breaks. intros Hp Hc.
  rewrite forallb_forall in Hp. apply negb_true_iff, Hp. by apply list_elem_of_In.
Qed.

Lemma take_while_stop {A} (p : A → bool) l x s :
  Forall (fun y => p y = true) l → p x = false → take_while p (l ++ x :: s) = l.
Proof. induction 1 as [|y l Hy _ IH]; simpl; intros Hx; [by rewrite Hx | rewrite Hy, IH; done]. Qed.

Lemma take_while_rest (p : Z → bool) l rest :
  Forall (fun y => p y = true) l → fails_first p rest → take_while p (l ++ rest) = l.
Proof.
  destruct rest as [|c rest]; intros Hl Hc; [ | by apply take_while_stop].
  rewrite app_nil_r. induction Hl as [|y l Hy _ IH]; simpl; [done | by rewrite Hy, IH].
Qed.

Lemma match_exponent_complete x rest :
  exponent x → breaks rest → match_exponent (x ++ rest) = length x.
Proof.
  intros Hx Hrest. pose proof (breaks_fails is_digit rest eq_refl Hrest) as Hdigit.
  destruct Hx as [|e sign ds He Hs Hds Hd].
  { destruct rest as [|c rest]; [done | ].
    pose proof (breaks_fails (fun c => (c =? chr "e")%Z || (c =? chr "E")%Z) (c :: rest) eq_refl Hrest) as He.
    simpl in He |- *. by rewrite He. }
  simpl. replace ((e =? chr "e")%Z || (e =? chr "E")%Z) with true by (destruct He; subst; done).
  assert (Hsign : match_sign ((sign ++ ds) ++ rest) = length sign).
  { set_unfold in Hs. destruct Hs as [-> | [-> | [-> | []]]]; [ | done | done].
    destruct Hd as [|d ds Hd _]; [done | ]. simpl. unfold is_digit in Hd. bools.
    destruct ((d =? chr "+")%Z || _) eqn:E; [ | done].
    apply orb_true_iff in E as [E|E]; bools; subst; by vm_compute in H. }
  rewrite Hsign, <- app_assoc, drop_app_length, (take_while_rest is_digit ds) by done.
  destruct ds; [done | ]. simpl. rewrite length_app. simpl. lia.
Qed.

Lemma match_mantissa_complete m rest :
  mantissa m → fails_first (fun c => is_digit c || (c =? chr ".")%Z) rest →
  match_mantissa (m ++ rest) = Some (length m).
Proof.
  intros Hm Hrest. unfold match_mantissa.
  assert (Hdigit : fails_first is_digit rest).
  { destruct rest as [|c rest]; [done | ]. simpl in Hrest |- *. by bools. }
  destruct Hm as [a Ha Hd | a b Ha Hd Hb | b Hb Hd].
  - rewrite take_while_rest, drop_app_length by done.
    destruct rest as [|c rest]; [by destruct a | ].
    simpl in Hrest. bools. rewrite (proj2 (Z.eqb_neq _ _)) by done. by destruct a.
  - rewrite <- app_assoc. simpl. rewrite take_while_stop, drop_app_length by done.
    rewrite Z.eqb_refl, take_while_rest, length_app by done. simpl.
    destruct a; [done | ]. simpl. f_equal. lia.
  - simpl. change (is_digit (chr ".")) with false. simpl.
    rewrite take_while_rest by done. by destruct b.
Qed.

Lemma match_number_complete t rest :
  number_literal t → breaks rest → match_number (t ++ rest) = Some (length t).
Proof.
  intros (m & x & -> & Hm & Hx) Hrest. unfold match_number. rewrite <- app_assoc.
  assert (match_mantissa (m ++ x ++ rest) = Some (length m)) as ->.
  { apply match_mantissa_complete; [done | ].
    destruct Hx as [|e sign ds [-> | ->] _ _ _]; [by apply breaks_fails | done | done]. }
  simpl. rewrite drop_app_length, match_exponent_complete, length_app by done. done.
Qed.

Lemma number_literal_head t : number_literal t →
  ∀ s, isDigit ((t ++ s) !! 0) ||
       (bool_decide ((t ++ s) !! 0 = Some (chr ".")) && isDigit ((t ++ s) !! 1)) = true.
Proof.
  intros (m & x & -> & Hm & _) s. rewrite <- app_assoc.
  destruct Hm as [a Ha Hd | a b Ha Hd _ | b Hb Hd].
  - destruct Hd; [done | ]. simpl. by rewrite H.
  - destruct Hd; [done | ]. simpl. by rewrite H.
  - destruct Hd; [done | ]. simpl. rewrite H. by vm_compute.
Qed.

Lemma identifier_start_only c : isIdentifierStart (Some c) = true →
  is_digit c = false ∧ c ≠ chr "." ∧ c ≠ DQUOTE ∧ c ≠ chr "'" ∧ is_space c = false.
Proof.
  unfold isIdentifierStart, is_digit, is_space, DQUOTE. chr_norm. intros H.
  rewrite !orb_true_iff, !andb_true_iff in H.
  assert (65 ≤ c ≤ 122)%Z by (destruct H as [[[]|[]]|]; bools; lia).
  repeat split; try lia; apply not_true_iff_false; intros E;
    repeat (rewrite ?orb_true_iff, ?andb_true_iff, ?bool_decide_eq_true, ?Z.leb_le, ?Z.eqb_eq in E);
    lia.
Qed.

Lemma readToken_identifier p c t rest :
  isIdentifierStart (Some c) = true → Forall (fun d => isIdentifierPart (Some d) = true) t →
  breaks rest →
  readToken p (c :: t ++ rest) = Ok (mkToken TIdentifier (c :: t) p, S (length t)).
Proof.
  intros Hc Ht Hrest. destruct (identifier_start_only c Hc) as (Hd & Hdot & Hq & Hq' & _).
  unfold readToken, isDigit. simpl lookup. cbn [list_lookup].
  rewrite Hd, !bool_decide_eq_false_2 by congruence. simpl andb. cbn [orb].
  rewrite Hc. unfold readIdentifier. cbn [drop]. rewrite drop_0, take_while_rest;
    [simpl; by rewrite take_app_length | done | by apply breaks_fails].
Qed.

Lemma readToken_symbol p text rest :
  (text ∈ twoCharacterSymbols ∨ ∃ c, text = [c] ∧ c ∈ oneCharacterSymbols) → breaks rest →
  readToken p (text ++ rest) = Ok (mkToken TSymbol text p, length text).
Proof.
  intros [H | (c & -> & H)] Hrest.
  - unfold twoCharacterSymbols in H. set_unfold in H.
    repeat (destruct H as [-> | H]; [vm_compute; reflexivity | ]). done.
  - vm_compute in H. destruct rest as [|b rest].
    + set_unfold in H. repeat (destruct H as [-> | H]; [vm_compute; reflexivity | ]). done.
    + vm_compute in Hrest. set_unfold in Hrest. set_unfold in H.
      repeat (destruct Hrest as [-> | Hrest];
        [repeat (destruct H as [-> | H]; [vm_compute; reflexivity | ]); done | ]).
      done.
Qed.

(** A lexeme before a break is read back as its token. *)
Lemma readToken_complete p (l : lexeme) rest :
  lexeme_ok l → breaks rest → readToken p (l.2 ++ rest) = Ok (mkToken l.1.1 l.1.2 p, length l.2).
Proof.
  destruct l as [[ty v] text]. unfold lexeme_ok, denotes. simpl. intros H Hrest.
  destruct ty; [ | | | | done].
  - destruct H as (-> & Hn & Hf). unfold readToken. rewrite number_literal_head by done.
    unfold readNumber. rewrite match_number_complete, take_app_length, Hf by done. done.
  - destruct H as (q & inner & Hq & -> & Hd). simpl. rewrite <- app_assoc. simpl.
    assert (readString p (q :: inner ++ q :: rest)
            = Ok (mkToken TString v p, S (length (inner ++ [q])))) as <-.
    { simpl. rewrite (readString_loop_complete q p inner v _ Hd). simpl.
      rewrite length_app. simpl. do 3 f_equal. lia. }
    by destruct Hq as [-> | ->].
  - destruct H as (-> & Hs & Hp). destruct text as [|c t]; [done | ].
    apply Forall_cons in Hp as [_ Ht]. by apply readToken_identifier.
  - destruct H as (-> & Hs). by apply readToken_symbol.
Qed.

Lemma digit_not_space c : is_digit c = true → is_space c = false.
Proof.
  unfold is_digit, is_space. chr_norm. intros H. bools.
  apply not_true_iff_false. intros E.
  rewrite !orb_true_iff, !bool_decide_eq_true, !Z.eqb_eq in E. lia.
Qed.

Lemma lexeme_head (l : lexeme) : lexeme_ok l → ∃ c t, l.2 = c :: t ∧ is_space c = false.
Proof.
  destruct l as [[ty v] text]. unfold lexeme_ok, denotes. simpl. intros H.
  destruct ty; [ | | | | done].
  - destruct H as (_ & (m & x & -> & Hm & _) & _).
    destruct Hm as [a Ha Hd | a b Ha Hd _ | b Hb Hd];
      [ | | by eexists (chr "."), _];
      (destruct Hd as [|d a Hd _]; [done | ]; eexists d, _; split; [done | ];
       by apply digit_not_space).
  - destruct H as (q & inner & [-> | ->] & -> & _); eauto.
  - destruct H as (_ & Hs & _). destruct text as [|c t]; [done | ].
    apply identifier_start_only in Hs. eexists c, t. tauto.
  - destruct H as (_ & [H | (c & -> & H)]); vm_compute in H; set_unfold in H;
      repeat (destruct H as [-> | H]; [by eexists _, _ | ]); done.
Qed.

Lemma spaced_cons t ts : spaced (t :: ts) = t ++ SPACE :: spaced ts.
Proof. unfold spaced. simpl. by rewrite <- app_assoc. Qed.

Lemma glued_spaced ls : Forall lexeme_ok ls → glued ls (spaced (map snd ls)).
Proof.
  induction 1 as [|l ls Hl _ IH]; [constructor | ]. simpl map. rewrite spaced_cons.
  apply (glued_cons l ls [SPACE]); [done | set_solver | vm_compute; left | done].
Qed.

Lemma glued_gap_skip gap ls text :
  gap ∈ [[]; [SPACE]] → glued ls text → skipWhitespace (gap ++ text) = length gap.
Proof.
  intros Hgap Ht. unfold skipWhitespace.
  assert (take_while is_space text = []) as H0.
  { destruct Ht as [|l ls gap' text Hl _ _ _]; [done | ].
    destruct (lexeme_head l Hl) as (c & t & -> & Hc). simpl. by rewrite Hc. }
  set_unfold in Hgap. destruct Hgap as [-> | [-> | []]]; simpl; by rewrite H0.
Qed.

Lemma tokenize_loop_glued ls text : glued ls text → ∀ fuel source index gap tokens,
  index ≤ length source → drop index source = gap ++ text → gap ∈ [[]; [SPACE]] →
  length source - index < fuel → length tokens + length ls ≤ MAX_TOKENS →
  ∃ ts, tokenize_loop fuel source index tokens =
          Ok (tokens ++ ts ++ [mkToken TEof [] (length source)]) ∧ Forall2 token_is ts ls.
Proof.
  intros Hg. induction Hg as [|l ls gap' text Hl Hgap' Hbreak Htext IH];
    intros fuel source index gap tokens Hi Hd Hgap Hf Hm;
    (destruct fuel as [|f]; [lia | ]); pose proof (f_equal length Hd) as Hlen;
    rewrite length_drop, length_app in Hlen; simpl.
  - exists []. split; [ | constructor]. destruct (index <? length source) eqn:E; [ | done]. bools.
    rewrite Hd, (glued_gap_skip gap [] []) by (done || constructor).
    destruct (length source <=? index + length gap) eqn:E1; [done | ]. bools. simpl in Hlen. lia.
  - destruct (lexeme_head l Hl) as (c & t & Hc & Hsp). rewrite length_app in Hlen.
    destruct (index <? length source) eqn:E; bools; [ | rewrite Hc in Hlen; simpl in Hlen; lia].
    assert (Hskip : skipWhitespace (drop index source) = length gap).
    { rewrite Hd. apply (glued_gap_skip gap (l :: ls)); [done | by constructor]. }
    rewrite Hskip.
    destruct (length source <=? index + length gap) eqn:E1; bools; [rewrite Hc in Hlen; simpl in Hlen; lia | ].
    rewrite <- drop_drop, Hd, drop_app_length, readToken_complete by done. simpl.
    rewrite length_app. simpl.
    destruct (MAX_TOKENS <? length tokens + 1) eqn:E2; bools; [simpl in Hm; lia | ].
    destruct (_ =? index + length gap) eqn:E3; bools.
    { rewrite Hc in E3. simpl in E3. lia. }
    destruct (IH f source (index + length gap + length l.2) gap'
                (tokens ++ [mkToken l.1.1 l.1.2 (index + length gap)])) as (ts & -> & Hts).
    + lia.
    + rewrite <- drop_drop, <- drop_drop, Hd, drop_app_length, drop_app_length. done.
    + done.
    + rewrite Hc. simpl. lia.
    + rewrite length_app. simpl in *. lia.
    + eexists (_ :: ts). split; [by rewrite <- app_assoc | by constructor].
Qed.

(** A text made of lexemes is tokenized into them. *)
Lemma tokenize_glued ls text :
  glued ls text → length ls ≤ MAX_TOKENS →
  ∃ ts, tokenize text = Ok (ts ++ [mkToken TEof [] (length text)]) ∧ Forall2 token_is ts ls.
Proof.
  intros Hg Hm. unfold tokenize.
  apply (tokenize_loop_glued ls text Hg _ text 0 [] []); simpl; [lia | done | set_solver | lia | lia].
Qed.
