(* ===== verification/ExprParser.v ===== *)
(** * Billing expressions: the parser

    [class BillingExpressionParser].  Its fields [index] and [depth] are the state
    [pstate] that the methods thread; [parser A] is a method returning [A] that may
    throw.  The methods call each other recursively only inside [withDepth], so the
    recursion is cut at [MAX_PARSE_DEPTH]: each method takes the copies of
    [parseConditional] and [parseUnary] that run one depth further, and [levels]
    ties the knot on the remaining depth. *)

From stdpp Require Import base list numbers strings sets.
From Stdlib Require Import Lia.
From S2P Require Import Prelude JsNumber ExprSyntax.

Record pstate := mkState { index : nat; depth : nat }.

Definition parser (A : Type) : Type := pstate → result expr_error (A * pstate).

#[export] Instance parser_ret : MRet parser := fun A a s => Ok (a, s).

#[export] Instance parser_bind : MBind parser := fun A B f m s =>
  match m s with Ok (a, s') => f a s' | Err e => Err e end.

Definition throw {A} (e : expr_error) : parser A := fun _ => Err e.

Section methods.
Variable tokens : list Token.

(** ** Token access *)

Definition current : parser Token := fun s =>
  match tokens !! index s with
  | Some t => Ok (t, s)
  | None => Err ETypeError
  end.

Definition step_index : parser unit := fun s => Ok (tt, mkState (S (index s)) (depth s)).

Definition advance : parser Token :=
  token ← current;
  if decide (type token = TEof) then mret token else (step_index;; mret token).

Definition check (v : ustring) : parser bool :=
  token ← current; mret (ustring_eqb (value token) v).

Definition consume (v : ustring) : parser bool :=
  b ← check v;
  if b : bool then (advance;; mret true) else mret false.

Definition expect (v : ustring) : parser unit :=
  b ← consume v;
  if b : bool then mret tt
  else (token ← current; throw (EExpected v (position token + 1))).

Definition withDepth {A} (parse : parser A) : parser A := fun s =>
  let d := S (depth s) in
  if MAX_PARSE_DEPTH <? d then Err ENestingTooDeep
  else match parse (mkState (index s) d) with
       | Ok (a, s') => Ok (a, mkState (index s') (depth s' - 1))
       | Err e => Err e
       end.

(** The guard of a [while] loop over operators: which operator text the current
    token has. *)
Fixpoint checkOperator {O} (ops : list (ustring * O)) : parser (option O) :=
  match ops with
  | [] => mret None
  | (text, op) :: ops' =>
      b ← check text;
      if b : bool then mret (Some op) else checkOperator ops'
  end.

(** [while (check(op)) { op = advance(); expression = binary(op, expression, sub()) }]. *)
Fixpoint binaryLoop (fuel : nat) (ops : list (ustring * BinaryOperator))
    (sub : parser ExpressionNode) (expression : ExpressionNode) : parser ExpressionNode :=
  match fuel with
  | 0 => throw EFuel
  | S f =>
      o ← checkOperator ops;
      match o with
      | None => mret expression
      | Some op =>
          advance;;
          right ← sub;
          binaryLoop f ops sub (Binary op expression right)
      end
  end.

Definition binary_ops (ops : list BinaryOperator) : list (ustring * BinaryOperator) :=
  map (fun op => (binary_text op, op)) ops.

Definition unary_ops : list (ustring * UnaryOperator) :=
  map (fun op => (unary_text op, op)) [UPlus; UMinus; UNot].

(** ** The grammar levels *)

Section levels.
Variables deeperConditional deeperUnary : parser ExpressionNode.

Fixpoint argumentsLoop (fuel : nat) (acc : list ExpressionNode)
    : parser (list ExpressionNode) :=
  match fuel with
  | 0 => throw EFuel
  | S f =>
      e ← deeperConditional;
      more ← consume (js ",");
      if more : bool then argumentsLoop f (acc ++ [e]) else mret (acc ++ [e])
  end.

Definition parsePrimary : parser ExpressionNode :=
  token ← advance;
  match type token with
  | TNumber => mret (Literal (VNumber (Number (value token))))
  | TString => mret (Literal (VString (value token)))
  | TIdentifier =>
      if ustring_eqb (value token) (js "true") || ustring_eqb (value token) (js "false")
      then mret (Literal (VBoolean (ustring_eqb (value token) (js "true"))))
      else
        b ← consume (js "(");
        if negb b then mret (Identifier (value token))
        else withDepth (
          closed ← check (js ")");
          args ← (if closed : bool then mret [] else argumentsLoop (length tokens) []);
          expect (js ")");;
          mret (Call (value token) args))
  | TSymbol | TEof =>
      if ustring_eqb (value token) (js "(") then
        withDepth (e ← deeperConditional; expect (js ")");; mret e)
      else
        throw (EUnexpectedToken
                 (if decide (type token = TEof) then js "end of expression" else value token)
                 (position token + 1))
  end.

Definition parseExponentiation : parser ExpressionNode :=
  expression ← parsePrimary;
  b ← consume (js "**");
  if negb b then mret expression
  else withDepth (right ← deeperUnary; mret (Binary BPow expression right)).

Definition parseUnary : parser ExpressionNode :=
  o ← checkOperator unary_ops;
  match o with
  | Some operator =>
      advance;;
      withDepth (operand ← deeperUnary; mret (Unary operator operand))
  | None => parseExponentiation
  end.

Definition binaryLevel (ops : list BinaryOperator) (sub : parser ExpressionNode)
    : parser ExpressionNode :=
  expression ← sub;
  binaryLoop (length tokens) (binary_ops ops) sub expression.

Definition parseMultiplicative : parser ExpressionNode :=
  binaryLevel [BMul; BDiv; BRem] parseUnary.

Definition parseAdditive : parser ExpressionNode :=
  binaryLevel [BAdd; BSub] parseMultiplicative.

Definition parseComparison : parser ExpressionNode :=
  binaryLevel [BLt; BLe; BGt; BGe] parseAdditive.

Definition parseEquality : parser ExpressionNode :=
  binaryLevel [BEq; BNe] parseComparison.

Definition parseLogicalAnd : parser ExpressionNode := binaryLevel [BAnd] parseEquality.

Definition parseLogicalOr : parser ExpressionNode := binaryLevel [BOr] parseLogicalAnd.

Definition parseConditional : parser ExpressionNode :=
  condition ← parseLogicalOr;
  b ← consume (js "?");
  if negb b then mret condition
  else withDepth (
    consequent ← deeperConditional;
    expect (js ":");;
    alternate ← deeperConditional;
    mret (Conditional condition consequent alternate)).
End levels.

(** [parseConditional] and [parseUnary] with [n] nested depths left. *)
Fixpoint levels (n : nat) : parser ExpressionNode * parser ExpressionNode :=
  match n with
  | 0 => (throw EFuel, throw EFuel)
  | S n' =>
      let '(c, u) := levels n' in (parseConditional c u, parseUnary c u)
  end.

(** The body of [parse], with the entry [parseConditional] it calls. *)
Definition parseWith (entry : parser ExpressionNode) : result expr_error ExpressionNode :=
  let run : parser ExpressionNode :=
    expression ← entry;
    trailing ← current;
    if decide (type trailing = TEof) then mret expression
    else throw (EUnexpectedToken (value trailing) (position trailing + 1)) in
  match run (mkState 0 0) with Ok (e, _) => Ok e | Err e => Err e end.

Definition parse : result expr_error ExpressionNode :=
  parseWith (fst (levels (S MAX_PARSE_DEPTH))).
End methods.

#[global] Arguments parse : simpl never.
#[global] Arguments MAX_PARSE_DEPTH : simpl never.

(** ** The grammar

    [derives tokens L i e j]: the tokens from [i] up to [j] form the tree [e] at the
    grammar level [L].  As in [check], an operator or a bracket is recognised by the
    value of its token. *)

Inductive level :=
| LConditional | LOr | LAnd | LEquality | LComparison | LAdditive | LMultiplicative
| LUnary | LExponentiation | LPrimary.

Definition tighter (L : level) : level :=
  match L with
  | LConditional => LOr | LOr => LAnd | LAnd => LEquality | LEquality => LComparison
  | LComparison => LAdditive | LAdditive => LMultiplicative | LMultiplicative => LUnary
  | LUnary => LExponentiation | LExponentiation | LPrimary => LPrimary
  end.

(** The left-associative operators of a level. *)
Definition level_operators (L : level) : list BinaryOperator :=
  match L with
  | LOr => [BOr] | LAnd => [BAnd] | LEquality => [BEq; BNe]
  | LComparison => [BLt; BLe; BGt; BGe] | LAdditive => [BAdd; BSub]
  | LMultiplicative => [BMul; BDiv; BRem] | _ => []
  end.

Definition value_at (tokens : list Token) (i : nat) (v : ustring) : Prop :=
  ∃ t, tokens !! i = Some t ∧ value t = v.

Definition is_word (t : Token) (name : ustring) : Prop :=
  type t = TIdentifier ∧ value t = name ∧ name ≠ js "true" ∧ name ≠ js "false".

Inductive derives (tokens : list Token) : level → nat → ExpressionNode → nat → Prop :=
| D_tighter L i e j : derives tokens (tighter L) i e j → derives tokens L i e j
| D_conditional c a b i j k l :
    derives tokens LOr i c j → value_at tokens j (js "?") →
    derives tokens LConditional (S j) a k → value_at tokens k (js ":") →
    derives tokens LConditional (S k) b l →
    derives tokens LConditional i (Conditional c a b) l
| D_binary L op l r i j k :
    op ∈ level_operators L → derives tokens L i l j →
    value_at tokens j (binary_text op) → derives tokens (tighter L) (S j) r k →
    derives tokens L i (Binary op l r) k
| D_unary op e i j :
    value_at tokens i (unary_text op) → derives tokens LUnary (S i) e j →
    derives tokens LUnary i (Unary op e) j
| D_power l r i j k :
    derives tokens LPrimary i l j → value_at tokens j (js "**") →
    derives tokens LUnary (S j) r k →
    derives tokens LExponentiation i (Binary BPow l r) k
| D_number i t :
    tokens !! i = Some t → type t = TNumber →
    derives tokens LPrimary i (Literal (VNumber (Number (value t)))) (S i)
| D_string i t :
    tokens !! i = Some t → type t = TString →
    derives tokens LPrimary i (Literal (VString (value t))) (S i)
| D_boolean i t b :
    tokens !! i = Some t → type t = TIdentifier →
    value t = (if b : bool then js "true" else js "false") →
    derives tokens LPrimary i (Literal (VBoolean b)) (S i)
| D_identifier i t name :
    tokens !! i = Some t → is_word t name →
    derives tokens LPrimary i (Identifier name) (S i)
| D_call i t name args j :
    tokens !! i = Some t → is_word t name → value_at tokens (S i) (js "(") →
    derives_arguments tokens (S (S i)) args j → value_at tokens j (js ")") →
    derives tokens LPrimary i (Call name args) (S j)
| D_parentheses i e j :
    value_at tokens i (js "(") → derives tokens LConditional (S i) e j →
    value_at tokens j (js ")") → derives tokens LPrimary i e (S j)
with derives_arguments (tokens : list Token) : nat → list ExpressionNode → nat → Prop :=
| DA_none i : derives_arguments tokens i [] i
| DA_one i e j : derives tokens LConditional i e j → derives_arguments tokens i [e] j
| DA_more i es j e k :
    es ≠ [] → derives_arguments tokens i es j → value_at tokens j (js ",") →
    derives tokens LConditional (S j) e k → derives_arguments tokens i (es ++ [e]) k.

Scheme derives_ind2 := Minimality for derives Sort Prop
with derives_arguments_ind2 := Minimality for derives_arguments Sort Prop.

Lemma derives_advances tokens L i e j : derives tokens L i e j → i < j.
Proof.
  intros H. induction H using derives_ind2 with (P0 := fun i _ j => i ≤ j); lia.
Qed.

(** ** A weakest-precondition calculus for the methods *)

Definition parser_error (e : expr_error) : bool :=
  match e with
  | EUnexpectedToken _ _ | EExpected _ _ | ENestingTooDeep => true
  | _ => false
  end.

(** [wp m s Q]: from [s], [m] returns into [Q] or throws an error of the parser. *)
Definition wp {A} (m : parser A) (s : pstate) (Q : A → pstate → Prop) : Prop :=
  match m s with Ok (a, s') => Q a s' | Err e => parser_error e = true end.

Lemma wp_bind {A B} (m : parser A) (f : A → parser B) s Q :
  wp m s (fun a s' => wp (f a) s' Q) → wp (m ≫= f) s Q.
Proof. unfold wp, mbind, parser_bind. by destruct (m s) as [[a s']|]. Qed.

Lemma wp_mono {A} (m : parser A) s (Q R : A → pstate → Prop) :
  wp m s Q → (∀ a s', Q a s' → R a s') → wp m s R.
Proof. unfold wp. destruct (m s) as [[a s']|]; auto. Qed.

Lemma wp_ret {A} (a : A) s (Q : A → pstate → Prop) : Q a s → wp (mret a) s Q.
Proof. done. Qed.

Lemma wp_throw {A} e s (Q : A → pstate → Prop) : parser_error e = true → wp (throw e) s Q.
Proof. done. Qed.

(** The tokenizer's output: the only end mark is the last token. *)
Definition well_formed (tokens : list Token) : Prop :=
  ∃ body p, tokens = body ++ [mkToken TEof [] p] ∧ Forall (fun t => type t ≠ TEof) body.

Section soundness.
Variable tokens : list Token.
Hypothesis Htokens : well_formed tokens.

Definition state_ok (s : pstate) : Prop :=
  index s < length tokens ∧ depth s ≤ MAX_PARSE_DEPTH.

Definition next (s : pstate) : pstate := mkState (S (index s)) (depth s).

Lemma not_eof_inside i t : tokens !! i = Some t → type t ≠ TEof → S i < length tokens.
Proof.
  destruct Htokens as (body & p & -> & Hb). rewrite length_app. simpl. intros Hi Ht.
  pose proof (lookup_lt_Some _ _ _ Hi) as Hl. rewrite length_app in Hl. simpl in Hl.
  destruct (decide (i = length body)) as [-> | ]; [ | lia].
  rewrite lookup_app_r, Nat.sub_diag in Hi by lia. simplify_eq/=.
Qed.

Lemma eof_value i t : tokens !! i = Some t → type t = TEof → value t = [].
Proof.
  destruct Htokens as (body & p & -> & Hb). intros Hi Ht.
  apply lookup_app_Some in Hi as [Hi | [_ Hi]].
  - rewrite Forall_lookup in Hb. by apply Hb in Hi.
  - apply list_lookup_singleton_Some in Hi as [_ <-]. done.
Qed.

Lemma wp_current s Q :
  state_ok s → (∀ t, tokens !! index s = Some t → Q t s) → wp (current tokens) s Q.
Proof.
  intros [Hs _] HQ. unfold wp, current.
  destruct (lookup_lt_is_Some_2 tokens (index s) Hs) as [t Ht]. rewrite Ht. auto.
Qed.

Lemma wp_check v s (Q : bool → pstate → Prop) :
  state_ok s →
  (value_at tokens (index s) v → Q true s) → (¬ value_at tokens (index s) v → Q false s) →
  wp (check tokens v) s Q.
Proof.
  intros Hs Ht Hf. apply wp_bind, wp_current; [done | ]. intros t E. apply wp_ret.
  destruct (ustring_eqb (value t) v) eqn:Ev; bools.
  - apply Ht. by exists t.
  - apply Hf. intros (t' & E' & <-). by simplify_eq.
Qed.

Lemma wp_advance s (Q : Token → pstate → Prop) :
  state_ok s →
  (∀ t, tokens !! index s = Some t → type t ≠ TEof → state_ok (next s) → Q t (next s)) →
  (∀ t, tokens !! index s = Some t → type t = TEof → Q t s) →
  wp (advance tokens) s Q.
Proof.
  intros Hs Hn He. apply wp_bind, wp_current; [done | ]. intros t E.
  destruct (decide (type t = TEof)); [by apply He | ].
  unfold wp, mbind, parser_bind, step_index, mret, parser_ret. apply Hn; try done.
  split; [by eapply not_eof_inside | apply Hs].
Qed.

(** Advancing over a token known by a non-empty value. *)
Lemma wp_advance_value v s (Q : Token → pstate → Prop) :
  state_ok s → value_at tokens (index s) v → v ≠ [] →
  (∀ t, state_ok (next s) → Q t (next s)) → wp (advance tokens) s Q.
Proof.
  intros Hs (t & Ht & Hv) Hne HQ. apply wp_advance; [done | auto | ].
  intros t' Ht' He. destruct Hne. rewrite <- Hv. apply (eof_value (index s) t); congruence.
Qed.

Lemma wp_consume v s (Q : bool → pstate → Prop) :
  state_ok s → v ≠ [] →
  (value_at tokens (index s) v → state_ok (next s) → Q true (next s)) →
  (¬ value_at tokens (index s) v → Q false s) →
  wp (consume tokens v) s Q.
Proof.
  intros Hs Hv Ht Hf. apply wp_bind, wp_check; [done | | ].
  - intros Hat. eapply wp_bind, wp_advance_value; eauto. intros t Hok. apply wp_ret. auto.
  - intros Hat. apply wp_ret. auto.
Qed.

Lemma wp_expect v s (Q : unit → pstate → Prop) :
  state_ok s → v ≠ [] →
  (value_at tokens (index s) v → state_ok (next s) → Q tt (next s)) →
  wp (expect tokens v) s Q.
Proof.
  intros Hs Hv Ht. apply wp_bind, wp_consume; try done.
  intros _. apply wp_bind, wp_current; [done | ]. intros t _. by apply wp_throw.
Qed.

Lemma wp_checkOperator {O} (ops : list (ustring * O)) s (Q : option O → pstate → Prop) :
  state_ok s →
  (∀ text op, (text, op) ∈ ops → value_at tokens (index s) text → Q (Some op) s) →
  Q None s → wp (checkOperator tokens ops) s Q.
Proof.
  intros Hs. induction ops as [|[text op] ops IH]; intros HS HN; simpl; [by apply wp_ret | ].
  apply wp_bind, wp_check; [done | | ].
  - intros Hat. apply wp_ret. apply (HS text); [set_solver | done].
  - intros _. apply IH; [ | done]. intros. eapply HS; [ | done]. set_solver.
Qed.

Definition deeper (s : pstate) : pstate := mkState (index s) (S (depth s)).

Lemma wp_withDepth {A} (m : parser A) s (Q : A → pstate → Prop) :
  state_ok s →
  (state_ok (deeper s) →
   wp m (deeper s) (fun a s' => Q a (mkState (index s') (depth s' - 1)))) →
  wp (withDepth m) s Q.
Proof.
  intros Hs Hm. unfold wp, withDepth.
  destruct (MAX_PARSE_DEPTH <? S (depth s)) eqn:E; [done | ]. bools.
  assert (Hok : state_ok (deeper s)) by (split; [apply Hs | simpl; lia]).
  specialize (Hm Hok). unfold wp, deeper in Hm.
  destruct (m (mkState (index s) (S (depth s)))) as [[a s']|]; done.
Qed.

(** ** Soundness of every level

    [spec n L m]: with [n] nested depths left, [m] parses the level [L]. *)

Definition reaches (L : level) (s : pstate) (e : ExpressionNode) (s' : pstate) : Prop :=
  state_ok s' ∧ depth s' = depth s ∧ derives tokens L (index s) e (index s').

Definition spec (n : nat) (L : level) (m : parser ExpressionNode) : Prop :=
  ∀ s, state_ok s → MAX_PARSE_DEPTH < depth s + n → wp m s (reaches L s).

Lemma reaches_tighter L s e s' : reaches (tighter L) s e s' → reaches L s e s'.
Proof. intros (? & ? & ?). split; [done | split; [done | by apply D_tighter]]. Qed.

(** Running a deeper copy from inside [withDepth]. *)
Lemma wp_deeper n L m s (Q : ExpressionNode → pstate → Prop) :
  spec n L m → state_ok s → MAX_PARSE_DEPTH < depth s + n →
  (∀ e s', reaches L s e s' → Q e s') → wp m s Q.
Proof. intros Hm Hs Hn HQ. eapply wp_mono; [by apply Hm | done]. Qed.

Lemma binary_text_nonempty op : binary_text op ≠ [].
Proof. by destruct op. Qed.

Lemma unary_text_nonempty op : unary_text op ≠ [].
Proof. by destruct op. Qed.

Lemma elem_of_binary_ops text op ops :
  (text, op) ∈ binary_ops ops → text = binary_text op ∧ op ∈ ops.
Proof. unfold binary_ops. rewrite list_elem_of_fmap. intros (o & [= -> ->] & ?). done. Qed.

Lemma spec_binaryLoop n L sub s0 :
  spec n (tighter L) sub → MAX_PARSE_DEPTH < depth s0 + n →
  ∀ fuel left s, state_ok s → depth s = depth s0 →
  derives tokens L (index s0) left (index s) → length tokens < fuel + index s →
  wp (binaryLoop tokens fuel (binary_ops (level_operators L)) sub left) s (reaches L s0).
Proof.
  intros Hsub Hn fuel. induction fuel as [|f IH]; intros left s Hs Hd Hl Hf.
  { destruct Hs. lia. }
  simpl. apply wp_bind, wp_checkOperator; [done | | by apply wp_ret].
  intros text op [-> Hop]%elem_of_binary_ops Hat.
  eapply wp_bind, wp_advance_value; eauto using binary_text_nonempty. intros _ Hs1.
  apply wp_bind. eapply wp_deeper; [exact Hsub | done | simpl; lia | ].
  intros r s2 (Hs2 & Hd2 & Hr). simpl in *. pose proof (derives_advances _ _ _ _ _ Hr).
  apply IH; [done | congruence | by eapply D_binary | lia].
Qed.

Lemma spec_binaryLevel n L sub :
  spec n (tighter L) sub → spec n L (binaryLevel tokens (level_operators L) sub).
Proof.
  intros Hsub s Hs Hn. apply wp_bind. eapply wp_mono; [by apply Hsub | ].
  intros e s' (Hs' & Hd & He). pose proof (derives_advances _ _ _ _ _ He).
  eapply spec_binaryLoop; eauto using D_tighter. lia.
Qed.

Section deeper_copies.
Variable n : nat.
Variables c u : parser ExpressionNode.
Hypothesis Hc : spec n LConditional c.
Hypothesis Hu : spec n LUnary u.

Lemma spec_argumentsLoop i fuel : ∀ acc s,
  state_ok s → MAX_PARSE_DEPTH < depth s + n → length tokens < fuel + index s →
  (acc = [] ∧ i = index s) ∨
  (acc ≠ [] ∧ ∃ j, derives_arguments tokens i acc j ∧ value_at tokens j (js ",") ∧ index s = S j) →
  wp (argumentsLoop tokens c fuel acc) s (fun args s' =>
    state_ok s' ∧ depth s' = depth s ∧ derives_arguments tokens i args (index s')).
Proof.
  induction fuel as [|f IH]; intros acc s Hs Hn Hf Hacc; [destruct Hs; lia | ].
  simpl. apply wp_bind. eapply wp_deeper; [exact Hc | done | done | ].
  intros e s1 (Hs1 & Hd1 & He). pose proof (derives_advances _ _ _ _ _ He).
  assert (Hargs : derives_arguments tokens i (acc ++ [e]) (index s1)).
  { destruct Hacc as [[-> ->] | (Hne & j & Hj & Hat & Ei)]; [by constructor | ].
    eapply DA_more; eauto. by rewrite <- Ei. }
  apply wp_bind, wp_consume; [done | done | | ].
  - intros Hat Hs2. eapply wp_mono.
    + apply IH; [done | simpl; lia | simpl; lia | ]. right. split; [by destruct acc | eauto].
    + simpl. intros args s' (? & ? & ?). split; [done | split; [congruence | done]].
  - intros _. apply wp_ret. done.
Qed.

Lemma spec_parsePrimary : spec (S n) LPrimary (parsePrimary tokens c).
Proof.
  intros s Hs Hn. apply wp_bind, wp_advance; [done | | ].
  2: { intros t Ht He. rewrite He, (eof_value _ _ Ht He).
       replace (ustring_eqb [] (js "(")) with false by done. by apply wp_throw. }
  intros t Ht Hne Hs1. destruct (type t) eqn:Ety; [ | | | | done].
  - apply wp_ret. split; [done | split; [done | by constructor]].
  - apply wp_ret. split; [done | split; [done | by constructor]].
  - destruct (_ || _) eqn:Eb.
    { apply wp_ret. split; [done | split; [done | ]]. eapply D_boolean; eauto.
      destruct (ustring_eqb (value t) (js "true")) eqn:E; simpl in Eb; bools; done. }
    bools. assert (Hw : is_word t (value t)) by done.
    apply wp_bind, wp_consume; [done | done | | ].
    2: { intros _. apply wp_ret. split; [done | split; [done | by eapply D_identifier]]. }
    intros Hopen Hs2. apply wp_withDepth; [done | ]. intros Hs3. simpl in Hn.
    apply wp_bind. eapply (wp_mono _ _ (fun _ s' => s' = deeper (next (next s)))).
    { apply wp_check; done. }
    intros closed ? ->. apply wp_bind. eapply wp_mono.
    { instantiate (1 := fun args s' => state_ok s' ∧ depth s' = S (depth s) ∧
        derives_arguments tokens (S (S (index s))) args (index s')).
      destruct closed; [apply wp_ret; split; [done | split; [done | constructor]] | ].
      eapply wp_mono; [apply (spec_argumentsLoop (S (S (index s)))) | ]; simpl; auto; lia. }
    intros args s4 (Hs4 & Hd4 & Hargs). apply wp_bind, wp_expect; [done | done | ].
    intros Hclose Hs5. apply wp_ret. split; [split; simpl; [apply Hs5 | ] | split; simpl].
    + destruct Hs. lia.
    + lia.
    + by eapply D_call.
  - destruct (ustring_eqb (value t) (js "(")) eqn:Eo; bools.
    2: { by apply wp_throw. }
    apply wp_withDepth; [done | ]. intros Hs2. apply wp_bind.
    eapply wp_deeper; [exact Hc | done | simpl; lia | ]. intros e s3 (Hs3 & Hd3 & He).
    apply wp_bind, wp_expect; [done | done | ]. intros Hclose Hs4. apply wp_ret.
    simpl in *. split; [split; simpl; [apply Hs4 | destruct Hs; lia] | split; simpl; [lia | ]].
    eapply D_parentheses; eauto. by exists t.
Qed.

Lemma spec_parseExponentiation : spec (S n) LExponentiation (parseExponentiation tokens c u).
Proof.
  intros s Hs Hn. apply wp_bind. eapply wp_mono; [by apply spec_parsePrimary | ].
  intros e s1 (Hs1 & Hd1 & He). apply wp_bind, wp_consume; [done | done | | ].
  2: { intros _. apply wp_ret. by apply reaches_tighter. }
  intros Hat Hs2. apply wp_withDepth; [done | ]. intros Hs3. apply wp_bind.
  eapply wp_deeper; [exact Hu | done | simpl; lia | ]. intros r s4 (Hs4 & Hd4 & Hr).
  apply wp_ret. simpl in *.
  split; [split; simpl; [apply Hs4 | destruct Hs; lia] | split; simpl; [lia | by eapply D_power]].
Qed.

Lemma spec_parseUnary : spec (S n) LUnary (parseUnary tokens c u).
Proof.
  intros s Hs Hn. apply wp_bind, wp_checkOperator; [done | | ].
  2: { eapply wp_mono; [by apply spec_parseExponentiation | ]. apply (reaches_tighter LUnary). }
  intros text op Hin Hat. unfold unary_ops in Hin. rewrite list_elem_of_fmap in Hin.
  destruct Hin as (o & [= -> ->] & _).
  eapply wp_bind, wp_advance_value; eauto using unary_text_nonempty. intros _ Hs1.
  apply wp_withDepth; [done | ]. intros Hs2. apply wp_bind.
  eapply wp_deeper; [exact Hu | done | simpl; lia | ]. intros r s4 (Hs4 & Hd4 & Hr).
  apply wp_ret. simpl in *.
  split; [split; simpl; [apply Hs4 | destruct Hs; lia] | split; simpl; [lia | by eapply D_unary]].
Qed.

Lemma spec_parseLogicalOr : spec (S n) LOr (parseLogicalOr tokens c u).
Proof.
  do 6 (match goal with |- spec _ ?L _ => apply (spec_binaryLevel (S n) L) end).
  apply spec_parseUnary.
Qed.

Lemma spec_parseConditional : spec (S n) LConditional (parseConditional tokens c u).
Proof.
  intros s Hs Hn. apply wp_bind. eapply wp_mono; [by apply spec_parseLogicalOr | ].
  intros e s1 (Hs1 & Hd1 & He). apply wp_bind, wp_consume; [done | done | | ].
  2: { intros _. apply wp_ret. by apply reaches_tighter. }
  intros Hat Hs2. apply wp_withDepth; [done | ]. intros Hs3. apply wp_bind.
  eapply wp_deeper; [exact Hc | done | simpl; lia | ]. intros a s4 (Hs4 & Hd4 & Ha).
  apply wp_bind, wp_expect; [done | done | ]. intros Hcolon Hs5. apply wp_bind.
  simpl in *. eapply wp_deeper; [exact Hc | done | simpl; lia | ].
  intros b s6 (Hs6 & Hd6 & Hb). apply wp_ret. simpl in *.
  split; [split; simpl; [apply Hs6 | destruct Hs; lia] | split; simpl; [lia | ]].
  by eapply D_conditional.
Qed.
End deeper_copies.

Lemma spec_levels n :
  spec n LConditional (fst (levels tokens n)) ∧ spec n LUnary (snd (levels tokens n)).
Proof.
  induction n as [|n [IHc IHu]].
  - split; intros s [_ Hs] Hn; lia.
  - simpl. destruct (levels tokens n) as [c u]. simpl in *.
    split; [by apply spec_parseConditional | by apply spec_parseUnary].
Qed.

Lemma parseWith_spec n m : MAX_PARSE_DEPTH < n → spec n LConditional m →
  match parseWith tokens m with
  | Ok e => derives tokens LConditional 0 e (length tokens - 1)
  | Err e => parser_error e = true
  end.
Proof.
  intros Hn Hm. pose proof Htokens as (body & p & Hbody & Hne).
  assert (Hlen : length tokens = S (length body)) by (rewrite Hbody, length_app; simpl; lia).
  unfold parseWith. set (run := _ ≫= _).
  assert (H : wp run (mkState 0 0) (fun e s =>
             derives tokens LConditional 0 e (length tokens - 1))).
  { apply wp_bind. eapply wp_mono; [apply Hm; [split | ]; cbn [index depth]; lia | ].
    intros e s (Hs & _ & He). apply wp_bind, wp_current; [done | ]. intros t Ht.
    destruct (decide (type t = TEof)) as [Heof|]; [ | by apply wp_throw]. apply wp_ret.
    replace (length tokens - 1) with (index s); [done | ]. destruct Hs as [Hs _].
    destruct (decide (index s = length body)) as [| Hi]; [lia | ]. exfalso.
    rewrite Hbody, lookup_app_l in Ht by lia. rewrite Forall_lookup in Hne.
    by apply Hne in Ht. }
  unfold wp in H. by destruct (run _) as [[e s]|].
Qed.
End soundness.

(** Parsing succeeds only on a complete derivation of the token list, and otherwise
    throws one of the parser's own errors. *)
Lemma parse_spec tokens : well_formed tokens →
  match parse tokens with
  | Ok e => derives tokens LConditional 0 e (length tokens - 1)
  | Err e => parser_error e = true
  end.
Proof.
  intros Htokens. exact (parseWith_spec tokens Htokens (S MAX_PARSE_DEPTH) _
    (Nat.lt_succ_diag_r _) (proj1 (spec_levels tokens Htokens (S MAX_PARSE_DEPTH)))).
Qed.
