(* ===== verification/ExprRoundTrip.v ===== *)
(** * Billing expressions: printing and reading back

    A printer for syntax trees, written for the specification, and the theorem that
    the tokenizer and the parser together read its output back as the same tree. *)

From stdpp Require Import base list numbers strings sets.
From Stdlib Require Import Lia.
From S2P Require Import Prelude JsNumber ExprSyntax ExprTokenizer ExprParser.

(** ** The printer *)

Definition symbol_values : list ustring :=
  twoCharacterSymbols ++ map (fun c => [c]) oneCharacterSymbols.

Definition escape (c : Z) : ustring :=
  if (c =? DQUOTE)%Z then [chr "\"; DQUOTE]
  else if (c =? chr "\")%Z then [chr "\"; chr "\"]
  else if (c =? 10)%Z then [chr "\"; chr "n"]
  else if (c =? 13)%Z then [chr "\"; chr "r"]
  else [c].

Definition stringText (s : ustring) : ustring := DQUOTE :: concat (map escape s) ++ [DQUOTE].

Definition symbol (v : ustring) : lexeme := (TSymbol, v, v).
Definition word (v : ustring) : lexeme := (TIdentifier, v, v).

Section printer.
(** The decimal text of a number, [String(n)] in the language. *)
Variable numText : number → ustring.

(** Commas between the printed arguments. *)
Fixpoint separated (l : list (list lexeme)) : list lexeme :=
  match l with
  | [] => []
  | [a] => a
  | a :: l' => a ++ symbol (js ",") :: separated l'
  end.

Definition is_primary (e : ExpressionNode) : bool :=
  match e with Literal _ | Identifier _ | Call _ _ => true | _ => false end.

(** [wrap e ls] puts [ls], the print of [e], in brackets unless [e] is primary. *)
Definition wrap (e : ExpressionNode) (ls : list lexeme) : list lexeme :=
  if is_primary e then ls else symbol (js "(") :: ls ++ [symbol (js ")")].

Fixpoint print (e : ExpressionNode) : list lexeme :=
  match e with
  | Literal (VNumber n) => [(TNumber, numText n, numText n)]
  | Literal (VString s) => [(TString, s, stringText s)]
  | Literal (VBoolean b) => [word (if b then js "true" else js "false")]
  | Identifier name => [word name]
  | Unary op e1 => symbol (unary_text op) :: wrap e1 (print e1)
  | Binary op l r =>
      wrap l (print l) ++ symbol (binary_text op) :: wrap r (print r)
  | Conditional c a b =>
      wrap c (print c) ++ symbol (js "?") :: wrap a (print a) ++
      symbol (js ":") :: wrap b (print b)
  | Call name args =>
      word name :: symbol (js "(") :: separated (map print args) ++ [symbol (js ")")]
  end.

(** The nesting of [withDepth] that parsing the print of [e] reaches. *)
Definition wrap_need (e : ExpressionNode) (n : nat) : nat := if is_primary e then n else S n.

Fixpoint need (e : ExpressionNode) : nat :=
  match e with
  | Literal _ | Identifier _ => 0
  | Unary _ e1 => S (wrap_need e1 (need e1))
  | Binary BPow l r => Nat.max (wrap_need l (need l)) (S (wrap_need r (need r)))
  | Binary _ l r => Nat.max (wrap_need l (need l)) (wrap_need r (need r))
  | Conditional c a b =>
      Nat.max (wrap_need c (need c))
        (S (Nat.max (wrap_need a (need a)) (wrap_need b (need b))))
  | Call _ args => S (foldr (fun a m => Nat.max (need a) m) 0 args)
  end.

Definition identifier_name (name : ustring) : Prop :=
  isIdentifierStart (name !! 0) = true ∧
  Forall (fun c => isIdentifierPart (Some c) = true) name ∧
  name ≠ js "true" ∧ name ≠ js "false".

(** Trees whose leaves have a text of their own: numbers that are read back from
    their decimal text, names that are identifiers, and strings that are not the
    text of an operator or a bracket. *)
Fixpoint printable (e : ExpressionNode) : Prop :=
  match e with
  | Literal (VNumber n) =>
      number_literal (numText n) ∧ Number (numText n) = n ∧ is_finite n = true
  | Literal (VString s) => s ∉ symbol_values
  | Literal (VBoolean _) => True
  | Identifier name => identifier_name name
  | Unary _ e1 => printable e1
  | Binary _ l r => printable l ∧ printable r
  | Conditional c a b => printable c ∧ printable a ∧ printable b
  | Call name args => identifier_name name ∧ foldr (fun a P => printable a ∧ P) True args
  end.
End printer.

(** ** Every printed lexeme is a lexeme of the tokenizer *)

Lemma decodes_escape s : decodes DQUOTE (concat (map escape s)) s.
Proof.
  induction s as [|c s IH]; simpl; [constructor | ]. unfold escape at 1.
  destruct (c =? DQUOTE)%Z eqn:E1; bools; [subst; by constructor | ].
  destruct (c =? chr "\")%Z eqn:E2; bools; [subst; by constructor | ].
  destruct (c =? 10)%Z eqn:E3; bools; [subst; by constructor | ].
  destruct (c =? 13)%Z eqn:E4; bools; [subst; by constructor | ].
  by apply dec_plain.
Qed.

Lemma stringText_ok s : lexeme_ok (TString, s, stringText s).
Proof.
  exists DQUOTE, (concat (map escape s)). split; [by left | ].
  split; [done | apply decodes_escape].
Qed.

Lemma symbol_ok v : v ∈ symbol_values → lexeme_ok (symbol v).
Proof.
  unfold symbol_values. rewrite elem_of_app, list_elem_of_fmap. intros H. split; [done | ].
  simpl. destruct H as [H | (c & -> & H)]; eauto.
Qed.

Lemma word_ok v :
  isIdentifierStart (v !! 0) = true → Forall (fun c => isIdentifierPart (Some c) = true) v →
  lexeme_ok (word v).
Proof. done. Qed.

Lemma binary_text_symbol op : binary_text op ∈ symbol_values.
Proof. destruct op; vm_compute; set_solver. Qed.

Lemma unary_text_symbol op : unary_text op ∈ symbol_values.
Proof. destruct op; vm_compute; set_solver. Qed.

Lemma separated_ok P l : Forall (Forall P) l → P (symbol (js ",")) → Forall P (separated l).
Proof.
  intros Hl Hc. induction Hl as [|a l Ha Hl IH]; simpl; [constructor | ].
  destruct l; [done | ]. apply Forall_app. auto.
Qed.

Lemma wrap_ok e ls : Forall lexeme_ok ls → Forall lexeme_ok (wrap e ls).
Proof.
  intros H. unfold wrap. destruct (is_primary e); [done | ].
  constructor; [apply symbol_ok; vm_compute; set_solver | ].
  apply Forall_app. split; [done | ]. constructor; [ | constructor].
  apply symbol_ok; vm_compute; set_solver.
Qed.

Ltac solve_symbol := apply symbol_ok; vm_compute; set_solver.

Lemma print_ok numText e : printable numText e → Forall lexeme_ok (print numText e).
Proof.
  induction e as [v | name | op e IH | op l r IHl IHr | c a b IHc IHa IHb | name args IH]
    using node_induction; simpl; intros H.
  - destruct v as [n | s | b]; simpl in H; (constructor; [ | constructor]).
    + destruct H as (Hl & Hn & Hf). split; [done | ]. simpl. by rewrite Hn.
    + apply stringText_ok.
    + destruct b; apply word_ok; vm_compute; repeat constructor.
  - destruct H as (? & ? & _). constructor; [by apply word_ok | constructor].
  - constructor; [apply symbol_ok, unary_text_symbol | apply wrap_ok; auto].
  - destruct H. apply Forall_app. split; [apply wrap_ok; auto | ].
    constructor; [apply symbol_ok, binary_text_symbol | apply wrap_ok; auto].
  - destruct H as (? & ? & ?). apply Forall_app. split; [apply wrap_ok; auto | ].
    constructor; [solve_symbol | ]. apply Forall_app. split; [apply wrap_ok; auto | ].
    constructor; [solve_symbol | apply wrap_ok; auto].
  - destruct H as [(? & ? & _) Hargs]. constructor; [by apply word_ok | ].
    constructor; [solve_symbol | ]. apply Forall_app.
    split; [ | constructor; [solve_symbol | constructor]].
    apply separated_ok; [ | solve_symbol].
    induction IH as [|x args Hx _ IHargs]; simpl in *; constructor; destruct Hargs; auto.
Qed.

(** ** Parsing a printed tree *)

(** [segment tokens i ls]: the tokens from [i] on are the lexemes [ls]. *)
Definition segment (tokens : list Token) (i : nat) (ls : list lexeme) : Prop :=
  ∀ k l, ls !! k = Some l → ∃ t, tokens !! (i + k) = Some t ∧ token_is t l.

Lemma segment_app tokens i ls ls' :
  segment tokens i (ls ++ ls') ↔ segment tokens i ls ∧ segment tokens (i + length ls) ls'.
Proof.
  split.
  - intros H. split; intros k l Hk.
    + apply H. by apply lookup_app_l_Some.
    + rewrite <- Nat.add_assoc. apply H. rewrite lookup_app_r by lia.
      by replace (length ls + k - length ls) with k by lia.
  - intros [H1 H2] k l Hk. apply lookup_app_Some in Hk as [Hk | [Hge Hk]]; [by apply H1 | ].
    apply H2 in Hk. by replace (i + k) with (i + length ls + (k - length ls)) by lia.
Qed.

Lemma segment_cons tokens i l ls :
  segment tokens i (l :: ls) ↔
  (∃ t, tokens !! i = Some t ∧ token_is t l) ∧ segment tokens (S i) ls.
Proof.
  rewrite (segment_app tokens i [l] ls). simpl. rewrite Nat.add_1_r. split; intros [H1 H2];
    (split; [ | done]).
  - rewrite <- (Nat.add_0_r i). by apply H1.
  - intros k l' Hk. apply list_lookup_singleton_Some in Hk as [-> <-]. by rewrite Nat.add_0_r.
Qed.

Section reading.
Variable numText : number → ustring.
Variable tokens : list Token.

(** The parser reads [e] from [i] to [j] at depth [d]. *)
Definition reads {A} (m : parser A) (i d : nat) (a : A) (j : nat) : Prop :=
  m (mkState i d) = Ok (a, mkState j d).

Lemma reads_bind {A B} (m : parser A) (f : A → parser B) i j k d a b :
  reads m i d a j → reads (f a) j d b k → reads (m ≫= f) i d b k.
Proof. unfold reads, mbind, parser_bind. by intros ->. Qed.

Lemma reads_ret {A} (a : A) i d : reads (mret a) i d a i.
Proof. done. Qed.

Lemma reads_withDepth {A} (m : parser A) i j d a :
  d < MAX_PARSE_DEPTH → reads m i (S d) a j → reads (withDepth m) i d a j.
Proof.
  intros Hd Hm. unfold reads, withDepth. cbn [depth index].
  destruct (MAX_PARSE_DEPTH <? S d) eqn:E; bools; [lia | ]. rewrite Hm. cbn [depth index].
  do 3 f_equal. lia.
Qed.

Lemma reads_check v t i d :
  tokens !! i = Some t → reads (check tokens v) i d (ustring_eqb (value t) v) i.
Proof. intros Ht. unfold reads, check, mbind, parser_bind, current. cbn. by rewrite Ht. Qed.

Lemma reads_advance t i d :
  tokens !! i = Some t → type t ≠ TEof → reads (advance tokens) i d t (S i).
Proof.
  intros Ht Hne. unfold reads, advance, mbind, parser_bind, current. cbn. rewrite Ht.
  by destruct (decide _).
Qed.

Lemma reads_consume_true v t i d :
  tokens !! i = Some t → type t ≠ TEof → value t = v → reads (consume tokens v) i d true (S i).
Proof.
  intros Ht Hne Hv. eapply reads_bind; [by apply reads_check | ].
  unfold ustring_eqb. rewrite bool_decide_eq_true_2 by done.
  eapply reads_bind; [by apply reads_advance | apply reads_ret].
Qed.

Lemma reads_consume_false v t i d :
  tokens !! i = Some t → value t ≠ v → reads (consume tokens v) i d false i.
Proof.
  intros Ht Hv. eapply reads_bind; [by apply reads_check | ].
  unfold ustring_eqb. rewrite bool_decide_eq_false_2 by done. apply reads_ret.
Qed.

Lemma reads_expect v t i d :
  tokens !! i = Some t → type t ≠ TEof → value t = v → reads (expect tokens v) i d tt (S i).
Proof.
  intros Ht Hne Hv. eapply reads_bind; [by eapply reads_consume_true | apply reads_ret].
Qed.

Lemma reads_checkOperator_none {O} (ops : list (ustring * O)) t i d :
  tokens !! i = Some t → value t ∉ map fst ops →
  reads (checkOperator tokens ops) i d None i.
Proof.
  intros Ht. induction ops as [|[text op] ops IH]; simpl; intros Hv; [apply reads_ret | ].
  eapply reads_bind; [by apply reads_check | ].
  unfold ustring_eqb. rewrite bool_decide_eq_false_2 by set_solver. apply IH. set_solver.
Qed.

Lemma reads_checkOperator_some {Op} `{EqDecision Op} (text : Op → ustring) (ops : list Op) op t i d :
  (∀ o o', text o = text o' → o = o') →
  tokens !! i = Some t → value t = text op → op ∈ ops →
  reads (checkOperator tokens (map (fun o => (text o, o)) ops)) i d (Some op) i.
Proof.
  intros Hinj Ht Hv. induction ops as [|o ops IH]; [set_solver | ]. intros Hin. simpl.
  eapply reads_bind; [by apply reads_check | ]. unfold ustring_eqb.
  destruct (decide (o = op)) as [-> | Hne].
  - rewrite bool_decide_eq_true_2 by done. apply reads_ret.
  - rewrite bool_decide_eq_false_2 by (rewrite Hv; naive_solver). apply IH. set_solver.
Qed.

Lemma binary_text_inj o o' : binary_text o = binary_text o' → o = o'.
Proof. by destruct o, o'. Qed.

Lemma unary_text_inj o o' : unary_text o = unary_text o' → o = o'.
Proof. by destruct o, o'. Qed.

(** *** The chain of left-associative levels, loosest first *)

Definition all_levels : list (list BinaryOperator) :=
  [[BOr]; [BAnd]; [BEq; BNe]; [BLt; BLe; BGt; BGe]; [BAdd; BSub]; [BMul; BDiv; BRem]].

Fixpoint chain (oss : list (list BinaryOperator)) (base : parser ExpressionNode)
    : parser ExpressionNode :=
  match oss with
  | [] => base
  | ops :: oss' => binaryLevel tokens ops (chain oss' base)
  end.

Lemma parseLogicalOr_chain c u :
  parseLogicalOr tokens c u = chain all_levels (parseUnary tokens c u).
Proof. reflexivity. Qed.

(** [blocks v ops]: a token with value [v] ends a loop over [ops]. *)
Definition blocks (v : ustring) (ops : list BinaryOperator) : Prop :=
  ∀ op, op ∈ ops → v ≠ binary_text op.

Lemma reads_binaryLoop_stop fuel ops sub e t i d :
  0 < fuel → tokens !! i = Some t → blocks (value t) ops →
  reads (binaryLoop tokens fuel (binary_ops ops) sub e) i d e i.
Proof.
  intros Hf Ht Hv. destruct fuel as [|f]; [lia | ]. simpl.
  eapply reads_bind; [eapply reads_checkOperator_none; [done | ] | apply reads_ret].
  unfold binary_ops. rewrite map_map. simpl. rewrite list_elem_of_fmap.
  intros (op & E & Hin). by apply (Hv op).
Qed.

Lemma reads_chain_stop oss base e t i j d :
  0 < length tokens → reads base i d e j → tokens !! j = Some t →
  blocks (value t) (concat oss) → reads (chain oss base) i d e j.
Proof.
  intros Hlen Hbase Ht. induction oss as [|ops oss IH]; simpl; intros Hb; [done | ].
  eapply reads_bind; [apply IH; intros op Hop; apply Hb; set_solver | ].
  eapply reads_binaryLoop_stop; eauto. intros op Hop. apply Hb. set_solver.
Qed.

Lemma chain_app oss1 oss2 base : chain (oss1 ++ oss2) base = chain oss1 (chain oss2 base).
Proof. induction oss1 as [|ops oss1 IH]; simpl; congruence. Qed.

Lemma reads_chain_binary oss1 ops oss2 base op l r tj tk i j k d :
  1 < length tokens → op ∈ ops → NoDup (concat (ops :: oss2)) →
  reads base i d l j → tokens !! j = Some tj → type tj ≠ TEof → value tj = binary_text op →
  reads base (S j) d r k → tokens !! k = Some tk →
  blocks (value tk) (concat (oss1 ++ ops :: oss2)) →
  reads (chain (oss1 ++ ops :: oss2) base) i d (Binary op l r) k.
Proof.
  intros Hlen Hop Hnd Hl Hj Hne Hv Hr Hk Hb. simpl in Hnd. apply NoDup_app in Hnd as (_ & Hdisj & _).
  assert (Hlj : reads (chain oss2 base) i d l j).
  { eapply reads_chain_stop; eauto; [lia | ]. intros o Ho E. rewrite Hv in E.
    apply binary_text_inj in E as <-. by apply (Hdisj op). }
  assert (Hrk : reads (chain oss2 base) (S j) d r k).
  { eapply reads_chain_stop; eauto; [lia | ]. intros o Ho. apply Hb. rewrite concat_app.
    simpl. set_solver. }
  rewrite chain_app. eapply reads_chain_stop; eauto; [lia | | ].
  2: { intros o Ho. apply Hb. rewrite concat_app. set_solver. }
  simpl. eapply reads_bind; [exact Hlj | ].
  destruct (length tokens) as [|f]; [lia | ]. simpl.
  eapply reads_bind.
  { eapply reads_checkOperator_some; eauto using binary_text_inj. }
  eapply reads_bind; [by apply reads_advance | ].
  eapply reads_bind; [exact Hrk | ].
  eapply reads_binaryLoop_stop; eauto; [lia | ].
  intros o Ho. apply Hb. rewrite concat_app. simpl. set_solver.
Qed.

(** *** The recursive methods on a printed tree *)

Abbreviation C n := (fst (levels tokens n)).
Abbreviation U n := (snd (levels tokens n)).

Lemma C_S n : C (S n) = parseConditional tokens (C n) (U n).
Proof. simpl. by destruct (levels tokens n). Qed.

Lemma U_S n : U (S n) = parseUnary tokens (C n) (U n).
Proof. simpl. by destruct (levels tokens n). Qed.

(** What may follow an expression inside brackets, branches and arguments. *)
Definition stop (v : ustring) : Prop := v ∈ [js ")"; js ":"; js ","; []].

Lemma stop_blocks v :
  stop v → blocks v (concat all_levels) ∧ v ≠ js "**" ∧ v ≠ js "?" ∧ v ≠ js "(".
Proof.
  unfold stop, blocks. intros H. set_unfold in H.
  destruct H as [-> | [-> | [-> | [-> | []]]]]; (split; [by intros [] _ | done]).
Qed.

(** A printed operand starts with a token no prefix operator and no closing bracket
    can be confused with. *)
Lemma number_literal_not_symbol t : number_literal t → t ∉ symbol_values.
Proof.
  intros Hn Hs. pose proof (number_literal_head t Hn []) as H. rewrite app_nil_r in H.
  vm_compute in Hs. set_unfold in Hs.
  repeat (destruct Hs as [-> | Hs]; [by vm_compute in H | ]). done.
Qed.

Lemma identifier_not_symbol t : isIdentifierStart (t !! 0) = true → t ∉ symbol_values.
Proof.
  intros H Hs. vm_compute in Hs. set_unfold in Hs.
  repeat (destruct Hs as [-> | Hs]; [by vm_compute in H | ]). done.
Qed.

Lemma operand_head e i :
  printable numText e → segment tokens i (wrap e (print numText e)) →
  ∃ t, tokens !! i = Some t ∧ (value t ∉ symbol_values ∨ value t = js "(").
Proof.
  unfold wrap. intros Hp Hs. destruct (is_primary e) eqn:E.
  2: { apply segment_cons in Hs as [(t & Ht & _ & Hv) _]. eauto. }
  destruct e as [[n | s | b] | name | | | | name args]; try done; simpl in Hs, Hp;
    apply segment_cons in Hs as [(t & Ht & _ & Hv) _]; simpl in Hv; exists t;
    (split; [done | left]); rewrite Hv.
  - apply number_literal_not_symbol, Hp.
  - done.
  - by destruct b; apply identifier_not_symbol.
  - apply identifier_not_symbol, Hp.
  - apply identifier_not_symbol, Hp.
Qed.

Lemma operand_head_not_unary v : v ∉ symbol_values ∨ v = js "(" → v ∉ map fst unary_ops.
Proof.
  intros [H | ->] Hin; vm_compute in Hin; set_unfold in Hin;
    repeat (destruct Hin as [E | Hin]; [try (by vm_compute in E) | ]); try done;
    apply H; rewrite E; vm_compute; set_solver.
Qed.

Lemma operand_head_not_close v : v ∉ symbol_values ∨ v = js "(" → v ≠ js ")".
Proof. intros [H | ->] E; [ | done]. apply H. rewrite E. vm_compute. set_solver. Qed.

(** Reading an operand as a primary expression. *)
Definition reads_operand (e : ExpressionNode) : Prop :=
  ∀ n i d t, wrap_need e (need e) ≤ n → d + n ≤ MAX_PARSE_DEPTH →
  segment tokens i (wrap e (print numText e)) →
  tokens !! (i + length (wrap e (print numText e))) = Some t → value t ≠ js "(" →
  reads (parsePrimary tokens (C n)) i d e (i + length (wrap e (print numText e))).

Lemma operand_unary e n i d t :
  reads_operand e → printable numText e →
  wrap_need e (need e) ≤ n → d + n ≤ MAX_PARSE_DEPTH →
  segment tokens i (wrap e (print numText e)) →
  tokens !! (i + length (wrap e (print numText e))) = Some t →
  value t ≠ js "(" → value t ≠ js "**" →
  reads (parseUnary tokens (C n) (U n)) i d e (i + length (wrap e (print numText e))).
Proof.
  intros He Hp Hn Hd Hs Ht Hv1 Hv2.
  destruct (operand_head e i Hp Hs) as (t0 & Ht0 & Hv0).
  eapply reads_bind; [eapply reads_checkOperator_none; eauto using operand_head_not_unary | ].
  eapply reads_bind; [by eapply He | ].
  eapply reads_bind; [by eapply reads_consume_false | apply reads_ret].
Qed.

(** Reading an operand where a whole expression is expected. *)
Lemma operand_conditional e n i d t :
  reads_operand e → printable numText e →
  wrap_need e (need e) ≤ n → d + n ≤ MAX_PARSE_DEPTH →
  segment tokens i (wrap e (print numText e)) →
  tokens !! (i + length (wrap e (print numText e))) = Some t → stop (value t) →
  reads (C (S n)) i d e (i + length (wrap e (print numText e))).
Proof.
  intros He Hp Hn Hd Hs Ht Hstop. destruct (stop_blocks _ Hstop) as (Hb & Hpow & Hq & Hopen).
  rewrite C_S. pose proof (lookup_lt_Some _ _ _ Ht).
  eapply reads_bind.
  { rewrite parseLogicalOr_chain. eapply reads_chain_stop; eauto; [lia | ].
    by eapply operand_unary. }
  eapply reads_bind; [by eapply reads_consume_false | apply reads_ret].
Qed.

(** From a unary-level reading of a whole print to the top of the chain. *)
Lemma unary_conditional e n i j d t :
  reads (parseUnary tokens (C n) (U n)) i d e j → tokens !! j = Some t → stop (value t) →
  reads (C (S n)) i d e j.
Proof.
  intros Hu Ht Hstop. destruct (stop_blocks _ Hstop) as (Hb & Hpow & Hq & Hopen).
  rewrite C_S. pose proof (lookup_lt_Some _ _ _ Ht).
  eapply reads_bind.
  { rewrite parseLogicalOr_chain. eapply reads_chain_stop; eauto. lia. }
  eapply reads_bind; [by eapply reads_consume_false | apply reads_ret].
Qed.

(** Reading the print of a tree where a whole expression is expected. *)
Definition reads_print (e : ExpressionNode) : Prop :=
  ∀ n i d t, need e ≤ n → d + n ≤ MAX_PARSE_DEPTH →
  segment tokens i (print numText e) →
  tokens !! (i + length (print numText e)) = Some t → stop (value t) →
  reads (C (S n)) i d e (i + length (print numText e)).

Lemma primary_reads_print e :
  is_primary e = true → printable numText e → reads_operand e → reads_print e.
Proof.
  intros He Hp Hop n i d t Hn Hd Hs Ht Hstop. unfold reads_operand in Hop.
  pose proof (operand_conditional e n i d t Hop Hp) as H.
  unfold wrap, wrap_need in H. rewrite He in H. auto.
Qed.

Lemma wrapped_operand e :
  is_primary e = false → reads_print e → reads_operand e.
Proof.
  intros He Hprint n i d t. unfold wrap, wrap_need. rewrite He. simpl.
  rewrite length_app. simpl. intros Hn Hd Hs Ht Hv.
  apply segment_cons in Hs as [(t0 & Ht0 & Hty0 & Hv0) Hs].
  apply segment_app in Hs as [Hs Hclose].
  apply segment_cons in Hclose as [(t1 & Ht1 & Hty1 & Hv1) _]. simpl in *.
  eapply reads_bind; [apply reads_advance; [done | by rewrite Hty0] | ].
  rewrite Hty0, Hv0. unfold ustring_eqb. rewrite bool_decide_eq_true_2 by done.
  destruct n as [|n]; [lia | ].
  apply reads_withDepth; [lia | ].
  eapply reads_bind; [eapply Hprint; eauto; [lia | lia | ] | ].
  { rewrite Hv1. unfold stop. set_solver. }
  eapply reads_bind; [eapply reads_expect; eauto; by rewrite Hty1 | ].
  replace (i + S (length (print numText e) + 1)) with (S (S i + length (print numText e))) by lia.
  apply reads_ret.
Qed.

Lemma print_nonempty e : 0 < length (print numText e).
Proof. destruct e as [[] | | | | |]; simpl; rewrite ?length_app; simpl; lia. Qed.

Lemma print_head e i :
  printable numText e → segment tokens i (print numText e) →
  ∃ t, tokens !! i = Some t ∧ value t ≠ js ")".
Proof.
  assert (Hop : ∀ e1 ls, printable numText e1 →
            segment tokens i (wrap e1 (print numText e1) ++ ls) →
            ∃ t, tokens !! i = Some t ∧ value t ≠ js ")").
  { intros e1 ls Hp1 [Hs _]%segment_app.
    destruct (operand_head e1 i Hp1 Hs) as (t & Ht & Hv). eauto using operand_head_not_close. }
  destruct e as [v | name | op e1 | op l r | c a b | name args]; intros Hp Hs.
  - apply (Hop (Literal v) []); [done | by rewrite app_nil_r].
  - apply (Hop (Identifier name) []); [done | by rewrite app_nil_r].
  - apply segment_cons in Hs as [(t & Ht & _ & Hv) _]. exists t. split; [done | ].
    rewrite Hv. by destruct op.
  - eapply (Hop l); [apply Hp | exact Hs].
  - eapply (Hop c); [apply Hp | exact Hs].
  - apply (Hop (Call name args) []); [done | by rewrite app_nil_r].
Qed.

Lemma printable_args args :
  foldr (fun a P => printable numText a ∧ P) True args ↔ Forall (printable numText) args.
Proof.
  induction args as [|a args IH]; simpl; [by rewrite Forall_nil | ].
  by rewrite Forall_cons, IH.
Qed.

Lemma need_args args n :
  foldr (fun a m => Nat.max (need a) m) 0 args ≤ n ↔ Forall (fun a => need a ≤ n) args.
Proof.
  induction args as [|a args IH]; simpl; [by rewrite Forall_nil; lia | ].
  rewrite Forall_cons, <- IH. lia.
Qed.

Lemma separated_cons a l : l ≠ [] → separated (a :: l) = a ++ symbol (js ",") :: separated l.
Proof. by destruct l. Qed.

Lemma reads_argumentsLoop n d args : Forall reads_print args →
  Forall (fun a => need a ≤ n) args → d + n ≤ MAX_PARSE_DEPTH → args ≠ [] →
  ∀ fuel acc i t, length args ≤ fuel →
  segment tokens i (separated (map (print numText) args)) →
  tokens !! (i + length (separated (map (print numText) args))) = Some t → value t = js ")" →
  reads (argumentsLoop tokens (C (S n)) fuel acc) i d (acc ++ args)
        (i + length (separated (map (print numText) args))).
Proof.
  induction 1 as [|a args Ha Hargs IH]; [done | ].
  intros Hneed Hd _ fuel acc i t Hf Hs Ht Hv.
  apply Forall_cons in Hneed as [Hna Hneed].
  destruct fuel as [|f]; [simpl in Hf; lia | ]. simpl argumentsLoop.
  destruct (decide (args = [])) as [-> | Hne].
  - simpl in *. eapply reads_bind.
    { apply (Ha n i d t); auto. rewrite Hv. unfold stop. set_solver. }
    eapply reads_bind; [eapply reads_consume_false; [done | by rewrite Hv] | apply reads_ret].
  - rewrite map_cons, separated_cons in * by (by destruct args).
    apply segment_app in Hs as [Hsa Hs].
    apply segment_cons in Hs as [(tc & Htc & Htyc & Hvc) Hs]. simpl in Htyc, Hvc.
    rewrite length_app in *. simpl length in *.
    eapply reads_bind.
    { apply (Ha n i d tc); auto. rewrite Hvc. unfold stop. set_solver. }
    eapply reads_bind; [eapply reads_consume_true; eauto; by rewrite Htyc | ].
    replace (i + (_ + S _)) with
      (S (i + length (print numText a)) + length (separated (map (print numText) args))) in * by lia.
    replace (acc ++ a :: args) with ((acc ++ [a]) ++ args) by (by rewrite <- app_assoc).
    eapply IH; eauto. lia.
Qed.

Lemma separated_length args :
  length args ≤ length (separated (map (print numText) args)).
Proof.
  induction args as [|a args IH]; [simpl; lia | ]. pose proof (print_nonempty a).
  destruct (decide (args = [])) as [-> | Hne]; [simpl; lia | ].
  rewrite map_cons, separated_cons, length_app by (by destruct args). simpl in *. lia.
Qed.

Lemma literal_operand v : printable numText (Literal v) → reads_operand (Literal v).
Proof.
  intros Hp n i d t _ _ Hs Ht Hv.
  destruct v as [x | x | b]; simpl in *; apply segment_cons in Hs as [(t0 & Ht0 & Hty & Hv0) _];
    simpl in Hty, Hv0; rewrite Nat.add_1_r;
    (eapply reads_bind; [apply reads_advance; [done | by rewrite Hty] | ]); rewrite Hty, Hv0.
  - destruct Hp as (_ & -> & _). apply reads_ret.
  - apply reads_ret.
  - by destruct b.
Qed.

Lemma word_not_boolean name :
  identifier_name name →
  ustring_eqb name (js "true") || ustring_eqb name (js "false") = false.
Proof.
  intros (_ & _ & H1 & H2). unfold ustring_eqb. by rewrite !bool_decide_eq_false_2.
Qed.

Lemma identifier_operand name :
  printable numText (Identifier name) → reads_operand (Identifier name).
Proof.
  intros Hp n i d t _ _ Hs Ht Hv. simpl in *.
  apply segment_cons in Hs as [(t0 & Ht0 & Hty & Hv0) _]. simpl in Hty, Hv0.
  rewrite Nat.add_1_r in *.
  eapply reads_bind; [apply reads_advance; [done | by rewrite Hty] | ].
  rewrite Hty, Hv0, word_not_boolean by done.
  eapply reads_bind; [by eapply reads_consume_false | apply reads_ret].
Qed.

Lemma call_operand name args :
  printable numText (Call name args) → Forall reads_print args → reads_operand (Call name args).
Proof.
  intros [Hname Hpargs] Hargs n i d t Hn Hd Hs Ht Hv.
  change (wrap _ _) with (print numText (Call name args)) in *. simpl in Hs.
  apply segment_cons in Hs as [(t0 & Ht0 & Hty0 & Hv0) Hs].
  apply segment_cons in Hs as [(t1 & Ht1 & Hty1 & Hv1) Hs].
  apply segment_app in Hs as [Hs Hclose].
  apply segment_cons in Hclose as [(t2 & Ht2 & Hty2 & Hv2) _]. simpl in Hty0, Hv0, Hty1, Hv1, Hty2, Hv2.
  simpl in Hn. destruct n as [|n]; [unfold wrap_need in Hn; simpl in Hn; lia | ].
  assert (Hneed : Forall (fun a => need a ≤ n) args).
  { apply need_args. unfold wrap_need in Hn. simpl in Hn. lia. }
  pose proof (lookup_lt_Some _ _ _ Ht2) as Hlen. pose proof (separated_length args) as Hsep.
  eapply reads_bind; [apply reads_advance; [done | by rewrite Hty0] | ].
  rewrite Hty0, Hv0, word_not_boolean by done.
  eapply reads_bind; [eapply reads_consume_true; eauto; by rewrite Hty1 | ]. simpl negb.
  apply reads_withDepth; [lia | ].
  set (k := S (S i) + length (separated (map (print numText) args))) in *.
  replace (i + length _) with (S k) by (subst k; simpl; rewrite length_app; simpl; lia).
  assert (Hread : reads
    (closed ← check tokens (js ")");
     if closed : bool then mret [] else argumentsLoop tokens (C (S n)) (length tokens) [])
    (S (S i)) (S d) args k).
  { destruct (decide (args = [])) as [-> | Hne].
    - subst k. simpl in *. rewrite Nat.add_0_r in *.
      eapply reads_bind; [by apply reads_check | ]. rewrite Hv2. apply reads_ret.
    - destruct args as [|a args]; [done | ].
      assert (∃ t3, tokens !! S (S i) = Some t3 ∧ value t3 ≠ js ")") as (t3 & Ht3 & Hv3).
      { apply (print_head a); [apply Hpargs | ]. destruct args; [done | ].
        rewrite map_cons, separated_cons in Hs by done. by apply segment_app in Hs as [? _]. }
      eapply reads_bind; [by apply reads_check | ].
      unfold ustring_eqb. rewrite bool_decide_eq_false_2 by done.
      apply (reads_argumentsLoop n (S d) (a :: args) Hargs Hneed) with (t := t2); auto; lia. }
  unfold reads in Hread |- *. revert Hread. unfold mbind, parser_bind.
  destruct (check tokens (js ")") _) as [[closed s1]|]; [ | done].
  intros ->. by rewrite (reads_expect (js ")") t2 k (S d)) by (done || by rewrite Hty2).
Qed.

Lemma unary_reads_print op e :
  printable numText e → reads_operand e → reads_print (Unary op e).
Proof.
  intros Hp He n i d t Hn Hd Hs Ht Hstop. simpl in *.
  apply segment_cons in Hs as [(t0 & Ht0 & Hty & Hv) Hs]. simpl in Hty, Hv.
  destruct (stop_blocks _ Hstop) as (_ & Hpow & _ & Hopen).
  rewrite Nat.add_succ_r in *. eapply unary_conditional; [ | exact Ht | done].
  destruct n as [|n]; [lia | ].
  eapply reads_bind; [eapply reads_checkOperator_some; eauto using unary_text_inj | ].
  { destruct op; set_solver. }
  eapply reads_bind; [apply reads_advance; [done | by rewrite Hty] | ].
  apply reads_withDepth; [lia | ]. rewrite U_S.
  eapply reads_bind; [eapply (operand_unary e n (S i)); eauto; lia | apply reads_ret].
Qed.

Lemma operator_level op : op ≠ BPow →
  ∃ oss1 ops oss2, all_levels = oss1 ++ ops :: oss2 ∧ op ∈ ops ∧ NoDup (concat (ops :: oss2)).
Proof.
  intros Hop.
  assert (∃ k ops, all_levels !! k = Some ops ∧ op ∈ ops) as (k & ops & Hk & Hin).
  { exists (match op with
            | BOr => 0 | BAnd => 1 | BEq | BNe => 2 | BLt | BLe | BGt | BGe => 3
            | BAdd | BSub => 4 | _ => 5 end).
    destruct op; try done; eexists; (split; [reflexivity | set_solver]). }
  exists (take k all_levels), ops, (drop (S k) all_levels).
  rewrite (take_drop_middle all_levels k ops Hk). split; [done | split; [done | ]].
  rewrite <- (drop_S all_levels ops k Hk).
  apply (NoDup_app (concat (take k all_levels))). rewrite <- concat_app, take_drop.
  apply (bool_decide_unpack _). by vm_compute.
Qed.

Lemma power_reads_print l r :
  printable numText l → printable numText r → reads_operand l → reads_operand r →
  reads_print (Binary BPow l r).
Proof.
  intros Hpl Hpr Hl Hr n i d t Hn Hd Hs Ht Hstop. simpl in Hn, Hs, Ht.
  apply segment_app in Hs as [Hsl Hs].
  apply segment_cons in Hs as [(t0 & Ht0 & Hty & Hv) Hs]. simpl in Hty, Hv.
  destruct (stop_blocks _ Hstop) as (_ & Hpow & _ & Hopen).
  destruct (operand_head l i Hpl Hsl) as (t1 & Ht1 & Hv1).
  simpl. rewrite length_app in *. simpl in *.
  replace (i + (_ + S _)) with
    (S (i + length (wrap l (print numText l))) + length (wrap r (print numText r))) in * by lia.
  eapply unary_conditional; [ | exact Ht | done]. destruct n as [|n]; [lia | ].
  eapply reads_bind; [eapply reads_checkOperator_none; eauto using operand_head_not_unary | ].
  eapply reads_bind; [eapply (Hl (S n)); eauto; [lia | by rewrite Hv] | ].
  eapply reads_bind; [eapply reads_consume_true; eauto; by rewrite Hty | ].
  apply reads_withDepth; [lia | ]. rewrite U_S.
  eapply reads_bind; [eapply (operand_unary r n); eauto; lia | apply reads_ret].
Qed.

Lemma binary_reads_print op l r :
  printable numText l → printable numText r → reads_operand l → reads_operand r →
  op ≠ BPow → reads_print (Binary op l r).
Proof.
  intros Hpl Hpr Hl Hr Hop n i d t Hn Hd Hs Ht Hstop.
  assert (Hneed : wrap_need l (need l) ≤ n ∧ wrap_need r (need r) ≤ n)
    by (destruct op; simpl in Hn; (done || lia)).
  simpl in Hs, Ht. apply segment_app in Hs as [Hsl Hs].
  apply segment_cons in Hs as [(t0 & Ht0 & Hty & Hv) Hs]. simpl in Hty, Hv.
  destruct (stop_blocks _ Hstop) as (Hb & Hpow & Hq & Hopen).
  simpl print. rewrite length_app in *. simpl length in *.
  replace (i + (_ + S _)) with
    (S (i + length (wrap l (print numText l))) + length (wrap r (print numText r))) in * by lia.
  pose proof (lookup_lt_Some _ _ _ Ht).
  destruct (operator_level op Hop) as (oss1 & ops & oss2 & Hall & Hin & Hnd).
  rewrite C_S. eapply reads_bind; [ | eapply reads_bind; [by eapply reads_consume_false | apply reads_ret]].
  rewrite parseLogicalOr_chain, Hall.
  eapply (reads_chain_binary _ _ _ _ _ _ _ t0 t); eauto; [lia | | by rewrite Hty | | by rewrite <- Hall].
  - eapply operand_unary; eauto; try lia; rewrite Hv; by destruct op.
  - eapply operand_unary; eauto; lia.
Qed.

Lemma conditional_reads_print c a b :
  printable numText c → printable numText a → printable numText b →
  reads_operand c → reads_operand a → reads_operand b → reads_print (Conditional c a b).
Proof.
  intros Hpc Hpa Hpb Hc Ha Hb n i d t Hn Hd Hs Ht Hstop. simpl in Hn, Hs, Ht.
  apply segment_app in Hs as [Hsc Hs].
  apply segment_cons in Hs as [(t0 & Ht0 & Hty0 & Hv0) Hs].
  apply segment_app in Hs as [Hsa Hs].
  apply segment_cons in Hs as [(t1 & Ht1 & Hty1 & Hv1) Hsb]. simpl in Hty0, Hv0, Hty1, Hv1.
  simpl print. rewrite length_app in *. simpl length in *. rewrite length_app in *. simpl length in *.
  set (jc := i + length (wrap c (print numText c))) in *.
  set (ja := S jc + length (wrap a (print numText a))) in *.
  replace (i + _) with (S ja + length (wrap b (print numText b))) in * by (subst ja jc; lia).
  pose proof (lookup_lt_Some _ _ _ Ht) as Hlen. destruct n as [|n]; [lia | ].
  rewrite C_S. eapply reads_bind.
  { rewrite parseLogicalOr_chain. eapply reads_chain_stop; [lia | | exact Ht0 | ].
    - eapply (operand_unary c); eauto; try lia; by rewrite Hv0.
    - rewrite Hv0. by intros []. }
  eapply reads_bind; [eapply reads_consume_true; eauto; by rewrite Hty0 | ].
  apply reads_withDepth; [lia | ].
  eapply reads_bind; [eapply (operand_conditional a n (S jc)); eauto; try lia | ].
  { rewrite Hv1. unfold stop. set_solver. }
  eapply reads_bind; [eapply reads_expect; eauto; by rewrite Hty1 | ].
  eapply reads_bind; [eapply (operand_conditional b n (S ja)); eauto; lia | apply reads_ret].
Qed.

Lemma reads_all e : printable numText e → reads_print e ∧ reads_operand e.
Proof.
  induction e as [v | name | op e IH | op l r IHl IHr | c a b IHc IHa IHb | name args IH]
    using node_induction; intros Hp.
  - pose proof (literal_operand v Hp). auto using primary_reads_print.
  - pose proof (identifier_operand name Hp). auto using primary_reads_print.
  - destruct (IH Hp) as [_ He]. pose proof (unary_reads_print op e Hp He).
    auto using wrapped_operand.
  - destruct Hp as [Hpl Hpr]. destruct (IHl Hpl) as [_ Hl], (IHr Hpr) as [_ Hr].
    assert (reads_print (Binary op l r)); [ | auto using wrapped_operand].
    destruct (decide (op = BPow)) as [-> | ];
      [by apply power_reads_print | by apply binary_reads_print].
  - destruct Hp as (Hpc & Hpa & Hpb).
    destruct (IHc Hpc) as [_ Hc], (IHa Hpa) as [_ Ha], (IHb Hpb) as [_ Hb].
    pose proof (conditional_reads_print c a b Hpc Hpa Hpb Hc Ha Hb).
    auto using wrapped_operand.
  - pose proof Hp as [_ Hargs]. apply printable_args in Hargs.
    assert (Forall reads_print args).
    { rewrite Forall_forall in *. intros a Ha. apply (IH a Ha), Hargs, Ha. }
    pose proof (call_operand name args Hp). auto using primary_reads_print.
Qed.
End reading.

Lemma parseWith_reads tokens entry e j t :
  reads entry 0 0 e j → tokens !! j = Some t → type t = TEof →
  parseWith tokens entry = Ok e.
Proof.
  intros Hr Ht Hty. unfold parseWith. cbv zeta.
  unfold mbind, parser_bind. rewrite Hr. unfold current. cbn [index]. rewrite Ht.
  by destruct (decide _).
Qed.

Lemma segment_tokens ts ls rest : Forall2 token_is ts ls → segment (ts ++ rest) 0 ls.
Proof.
  intros Hts k l Hl. destruct (Forall2_lookup_r _ _ _ _ _ Hts Hl) as (t & Ht & Hlt).
  exists t. split; [ | done]. simpl. by apply lookup_app_l_Some.
Qed.

(** Tokens that are read as a whole expression up to the end. *)
Lemma parse_tokens ts ls p e :
  Forall2 token_is ts ls →
  (∀ tokens, segment tokens 0 ls → tokens !! length ls = Some (mkToken TEof [] p) →
     reads (fst (levels tokens (S MAX_PARSE_DEPTH))) 0 0 e (length ls)) →
  parse (ts ++ [mkToken TEof [] p]) = Ok e.
Proof.
  intros Hts Hreads. set (tokens := ts ++ [mkToken TEof [] p]).
  assert (Heof : tokens !! length ls = Some (mkToken TEof [] p)).
  { unfold tokens. rewrite <- (Forall2_length _ _ _ Hts).
    rewrite lookup_app_r, Nat.sub_diag by lia. done. }
  unfold parse. eapply parseWith_reads; [ | exact Heof | done].
  apply Hreads; [by apply segment_tokens | done].
Qed.

Lemma parse_print numText e ts p :
  printable numText e → need e ≤ MAX_PARSE_DEPTH → Forall2 token_is ts (print numText e) →
  parse (ts ++ [mkToken TEof [] p]) = Ok e.
Proof.
  intros Hp Hn Hts. eapply parse_tokens; [exact Hts | ]. intros tokens Hs Heof.
  destruct (reads_all numText tokens e Hp) as [Hread _].
  eapply (Hread _ 0); [exact Hn | lia | exact Hs | exact Heof | ]. unfold stop. set_solver.
Qed.

(** The source text printed for a tree. *)
Definition source_text (numText : number → ustring) (e : ExpressionNode) : ustring :=
  spaced (map snd (print numText e)).

Lemma read_source_text numText e :
  printable numText e → need e ≤ MAX_PARSE_DEPTH → length (print numText e) ≤ MAX_TOKENS →
  (tokenize (source_text numText e) ≫= parse) = Ok e.
Proof.
  intros Hp Hn Hm.
  destruct (tokenize_glued _ _ (glued_spaced _ (print_ok numText e Hp)) Hm) as (ts & Ht & Hts).
  unfold source_text. rewrite Ht. simpl. by eapply parse_print.
Qed.
