(* ===== verification/ExprValidator.v ===== *)
(** * Billing expressions: the static validator

    [class BillingExpressionValidator].  [validateNode] visits every node with the
    depth the evaluator will reach it at; [validateUnary], [validateBinary] and
    [validateCall] are given the types of the operands that the corresponding methods
    compute first. *)

From stdpp Require Import base list numbers strings.
From Stdlib Require Import Lia.
From S2P Require Import Prelude JsNumber ExprSyntax.

(** [Object.hasOwn(environment, name)] and [environment[name]]. *)
Fixpoint lookup_env (env : BillingExpressionEnvironment) (name : ustring) : option number :=
  match env with
  | [] => None
  | (n, v) :: env' => if ustring_eqb n name then Some v else lookup_env env' name
  end.

Definition hasOwn (env : BillingExpressionEnvironment) (name : ustring) : bool :=
  match lookup_env env name with Some _ => true | None => false end.

Definition typeof (v : ExpressionValue) : ExpressionStaticType :=
  match v with VNumber _ => StNumber | VString _ => StString | VBoolean _ => StBoolean end.

(** [t === 'number' || t === 'unknown'] and the like. *)
Definition may_be (t expected : ExpressionStaticType) : bool :=
  bool_decide (t = expected) || bool_decide (t = StUnknown).

Definition validateUnary (op : UnaryOperator) (operand : ExpressionStaticType)
    : result expr_error ExpressionStaticType :=
  match op with
  | UNot => if may_be operand StBoolean then Ok StBoolean else Err EUnaryNotBoolean
  | _ => if may_be operand StNumber then Ok StNumber else Err (EUnaryNotNumber op)
  end.

Definition validateBinary (op : BinaryOperator) (left right : ExpressionStaticType)
    : result expr_error ExpressionStaticType :=
  match op with
  | BAnd | BOr =>
      if negb (may_be left StBoolean) || negb (may_be right StBoolean)
      then Err (EOperatorBooleans op) else Ok StBoolean
  | BEq | BNe =>
      if negb (bool_decide (left = StUnknown)) && negb (bool_decide (right = StUnknown)) &&
         negb (bool_decide (left = right))
      then Err EComparisonTypes else Ok StBoolean
  | BLt | BLe | BGt | BGe =>
      if negb (bool_decide (left = StUnknown)) && negb (bool_decide (right = StUnknown)) &&
         (negb (bool_decide (left = right)) ||
          (negb (bool_decide (left = StNumber)) && negb (bool_decide (left = StString))))
      then Err EComparisonTypes else Ok StBoolean
  | BAdd =>
      if bool_decide (left = right) &&
         (bool_decide (left = StNumber) || bool_decide (left = StString))
      then Ok left
      else if bool_decide (left = StUnknown) || bool_decide (right = StUnknown)
      then Ok StUnknown
      else Err EPlusTypes
  | _ =>
      if negb (may_be left StNumber) || negb (may_be right StNumber)
      then Err (EOperatorNumbers op) else Ok StNumber
  end.

(** The functions an expression may call, by name. *)
Inductive builtin := Tier | Max | Min | Abs | Ceil | Floor.

Definition builtin_of (name : ustring) : option builtin :=
  if ustring_eqb name (js "tier") then Some Tier
  else if ustring_eqb name (js "max") then Some Max
  else if ustring_eqb name (js "min") then Some Min
  else if ustring_eqb name (js "abs") then Some Abs
  else if ustring_eqb name (js "ceil") then Some Ceil
  else if ustring_eqb name (js "floor") then Some Floor
  else None.

Definition requireArgumentCount {A} (name : ustring) (args : list A) (expected : nat)
    : result expr_error unit :=
  guard_ok (length args =? expected) (EArgumentCount name expected).

(** [argumentTypes[i]] once the count has been checked. *)
Definition argument {A} (args : list A) (i : nat) : result expr_error A :=
  match args !! i with Some a => Ok a | None => Err ETypeError end.

Definition validateCall (name : ustring) (argumentTypes : list ExpressionStaticType)
    : result expr_error ExpressionStaticType :=
  match builtin_of name with
  | Some Tier =>
      _ ← requireArgumentCount name argumentTypes 2;
      t0 ← argument argumentTypes 0;
      t1 ← argument argumentTypes 1;
      _ ← guard_ok (may_be t0 StString) ETierName;
      _ ← guard_ok (may_be t1 StNumber) ETierValue;
      Ok StNumber
  | Some Max | Some Min =>
      _ ← requireArgumentCount name argumentTypes 2;
      _ ← guard_ok (forallb (fun t => may_be t StNumber) argumentTypes) (ENumericArguments name);
      Ok StNumber
  | Some Abs | Some Ceil | Some Floor =>
      _ ← requireArgumentCount name argumentTypes 1;
      t0 ← argument argumentTypes 0;
      _ ← guard_ok (may_be t0 StNumber) (ENumericArgument name);
      Ok StNumber
  | None => Err (EUnknownFunction name)
  end.

(** [args.map(f)] for a method [f] that may throw. *)
Definition mapResult {A B} (f : A → result expr_error B) : list A → result expr_error (list B) :=
  fix go l :=
    match l with
    | [] => Ok []
    | a :: l' => b ← f a; bs ← go l'; Ok (b :: bs)
    end.

Fixpoint validateNode (env : BillingExpressionEnvironment) (node : ExpressionNode) (depth : nat)
    {struct node} : result expr_error ExpressionStaticType :=
  if MAX_EVALUATION_DEPTH <? depth then Err ETooComplex
  else match node with
  | Literal v => Ok (typeof v)
  | Identifier name => if hasOwn env name then Ok StNumber else Err (EUnknownVariable name)
  | Unary op operand =>
      t ← validateNode env operand (S depth);
      validateUnary op t
  | Binary op l r =>
      tl ← validateNode env l (S depth);
      tr ← validateNode env r (S depth);
      validateBinary op tl tr
  | Conditional c a b =>
      condition ← validateNode env c (S depth);
      consequent ← validateNode env a (S depth);
      alternate ← validateNode env b (S depth);
      if may_be condition StBoolean
      then Ok (if decide (consequent = alternate) then consequent else StUnknown)
      else Err EConditionNotBoolean
  | Call name args =>
      ts ← mapResult (fun a => validateNode env a (S depth)) args;
      validateCall name ts
  end.

Definition validate (env : BillingExpressionEnvironment) (expression : ExpressionNode)
    : result expr_error unit :=
  t ← validateNode env expression 0;
  guard_ok (may_be t StNumber) EResultNotNumeric.
