(* ===== verification/ExprEvaluator.v ===== *)
(** * Billing expressions: the evaluator

    [class BillingExpressionEvaluator].  The field [matchedTier] is the state that
    [evaluateNode] threads.  The operator [**] on numbers, whose value the language
    leaves to the implementation, is the parameter [js_pow]. *)

From stdpp Require Import base list numbers strings.
From Stdlib Require Import Lia.
From S2P Require Import Prelude JsNumber ExprSyntax ExprValidator.

Definition evaluator (A : Type) : Type := ustring → result expr_error (A * ustring).

#[export] Instance evaluator_ret : MRet evaluator := fun A a m => Ok (a, m).

#[export] Instance evaluator_bind : MBind evaluator := fun A B f x m =>
  match x m with Ok (a, m') => f a m' | Err e => Err e end.

Definition lift {A} (r : result expr_error A) : evaluator A := fun m =>
  match r with Ok a => Ok (a, m) | Err e => Err e end.

Definition set_matchedTier (name : ustring) : evaluator unit := fun _ => Ok (tt, name).

Definition ensureFinite (x : number) : result expr_error number :=
  if is_finite x then Ok x else Err ENonFinite.

Definition expectNumber (v : ExpressionValue) : result expr_error number :=
  match v with VNumber x => ensureFinite x | _ => Err EResultNotNumeric end.

Definition expectBoolean (v : ExpressionValue) : result expr_error bool :=
  match v with VBoolean b => Ok b | _ => Err EConditionNotBoolean end.

(** [left === right]. *)
Definition strictEquals (left right : ExpressionValue) : bool :=
  match left, right with
  | VNumber a, VNumber b => num_eqb a b
  | VString a, VString b => ustring_eqb a b
  | VBoolean a, VBoolean b => Bool.eqb a b
  | _, _ => false
  end.

Definition compareValues (op : BinaryOperator) (left right : ExpressionValue)
    : result expr_error bool :=
  match left, right with
  | VNumber a, VNumber b =>
      Ok match op with
         | BLt => num_ltb a b
         | BLe => num_leb a b
         | BGt => num_ltb b a
         | _ => num_leb b a
         end
  | VString a, VString b =>
      Ok match op with
         | BLt => ustring_ltb a b
         | BLe => negb (ustring_ltb b a)
         | BGt => ustring_ltb b a
         | _ => negb (ustring_ltb a b)
         end
  | _, _ => Err EComparisonTypes
  end.

Definition evaluateUnary (op : UnaryOperator) (operand : ExpressionValue)
    : result expr_error ExpressionValue :=
  match op with
  | UNot => b ← expectBoolean operand; Ok (VBoolean (negb b))
  | UMinus => x ← expectNumber operand; VNumber <$> ensureFinite (num_neg x)
  | UPlus => x ← expectNumber operand; VNumber <$> ensureFinite x
  end.

Section evaluator.
Variable js_pow : number → number → number.
Variable env : BillingExpressionEnvironment.

(** The operators other than [&&] and [||] on two values. *)
Definition evaluateStrict (op : BinaryOperator) (left right : ExpressionValue)
    : result expr_error ExpressionValue :=
  match op with
  | BEq => Ok (VBoolean (strictEquals left right))
  | BNe => Ok (VBoolean (negb (strictEquals left right)))
  | BLt | BLe | BGt | BGe => VBoolean <$> compareValues op left right
  | BAdd =>
      match left, right with
      | VString a, VString b => Ok (VString (a ++ b))
      | VNumber a, VNumber b => VNumber <$> ensureFinite (num_add a b)
      | _, _ => Err EPlusTypes
      end
  | _ =>
      a ← expectNumber left;
      b ← expectNumber right;
      VNumber <$> ensureFinite
        match op with
        | BSub => num_sub a b
        | BMul => num_mul a b
        | BPow => js_pow a b
        | BDiv => num_div a b
        | _ => num_rem a b
        end
  end.

Definition evaluateBuiltin (f : builtin) (name : ustring) (args : list ExpressionValue)
    : evaluator ExpressionValue :=
  match f with
  | Tier =>
      lift (requireArgumentCount name args 2);;
      v0 ← lift (argument args 0);
      label ← lift (match v0 with VString s => Ok s | _ => Err ETierName end);
      v1 ← lift (argument args 1);
      x ← lift (expectNumber v1);
      set_matchedTier label;;
      mret (VNumber x)
  | Max | Min =>
      lift (requireArgumentCount name args 2);;
      v0 ← lift (argument args 0);
      a ← lift (expectNumber v0);
      v1 ← lift (argument args 1);
      b ← lift (expectNumber v1);
      mret (VNumber (match f with Max => num_max a b | _ => num_min a b end))
  | Abs | Ceil | Floor =>
      lift (requireArgumentCount name args 1);;
      v0 ← lift (argument args 0);
      x ← lift (expectNumber v0);
      mret (VNumber (match f with Abs => num_abs x | Ceil => num_ceil x | _ => num_floor x end))
  end.

Definition evaluateCall (name : ustring) (args : list ExpressionValue)
    : evaluator ExpressionValue :=
  match builtin_of name with
  | Some f => evaluateBuiltin f name args
  | None => lift (Err (EUnknownFunction name))
  end.

(** [args.map(f)] for a method [f] that may throw and set [matchedTier]. *)
Definition mapEvaluator {A B} (f : A → evaluator B) : list A → evaluator (list B) :=
  fix go l :=
    match l with
    | [] => mret []
    | a :: l' => b ← f a; bs ← go l'; mret (b :: bs)
    end.

Fixpoint evaluateNode (node : ExpressionNode) (depth : nat) {struct node}
    : evaluator ExpressionValue :=
  if MAX_EVALUATION_DEPTH <? depth then lift (Err ETooComplex)
  else match node with
  | Literal v => mret v
  | Identifier name =>
      match lookup_env env name with
      | Some x => mret (VNumber x)
      | None => lift (Err (EUnknownVariable name))
      end
  | Unary op operand =>
      v ← evaluateNode operand (S depth);
      lift (evaluateUnary op v)
  | Binary BAnd l r =>
      left ← (v ← evaluateNode l (S depth); lift (expectBoolean v));
      if left : bool
      then (v ← evaluateNode r (S depth); b ← lift (expectBoolean v); mret (VBoolean b))
      else mret (VBoolean false)
  | Binary BOr l r =>
      left ← (v ← evaluateNode l (S depth); lift (expectBoolean v));
      if left : bool
      then mret (VBoolean true)
      else (v ← evaluateNode r (S depth); b ← lift (expectBoolean v); mret (VBoolean b))
  | Binary op l r =>
      left ← evaluateNode l (S depth);
      right ← evaluateNode r (S depth);
      lift (evaluateStrict op left right)
  | Conditional c a b =>
      v ← evaluateNode c (S depth);
      condition ← lift (expectBoolean v);
      if condition : bool then evaluateNode a (S depth) else evaluateNode b (S depth)
  | Call name args =>
      vs ← mapEvaluator (fun a => evaluateNode a (S depth)) args;
      evaluateCall name vs
  end.

(** The check of the environment that opens [evaluate]. *)
Fixpoint checkEnvironment (entries : BillingExpressionEnvironment) : result expr_error unit :=
  match entries with
  | [] => Ok tt
  | (name, x) :: entries' =>
      if negb (is_finite x) || num_ltb x zero then Err (EInvalidEstimatorValue name)
      else checkEnvironment entries'
  end.

Definition evaluate (expression : ExpressionNode) : result expr_error BillingExpressionResult :=
  _ ← checkEnvironment env;
  '(v, tier) ← evaluateNode expression 0 [];
  x ← expectNumber v;
  if num_ltb x zero then Err ENegativeCost else Ok (mkResult x tier).
End evaluator.
