(* ===== verification/ExprSoundness.v ===== *)
(** * Billing expressions: what the validator promises the evaluator

    [evaluateBillingExpression] runs the validator before the evaluator; the theorems
    here say what that buys: the evaluator's structural errors cannot happen, values
    have their static type, and without statically unknown subexpressions overflow to
    a non-finite number is the only error left. *)

From stdpp Require Import base list numbers strings.
From Stdlib Require Import Lia.
From S2P Require Import Prelude JsNumber ExprSyntax ExprValidator ExprEvaluator.

(** A value fits a static type. *)
Definition compatible (v : ExpressionValue) (t : ExpressionStaticType) : Prop :=
  t = StUnknown ∨ typeof v = t.

(** The errors a validated expression may still throw. *)
Definition runtime_error (e : expr_error) : bool :=
  match e with
  | ENonFinite | EConditionNotBoolean | EResultNotNumeric | EComparisonTypes | EPlusTypes
  | ETierName => true
  | _ => false
  end.

(** With [strict], only overflow is allowed. *)
Definition allowed (strict : bool) (e : expr_error) : Prop :=
  if strict then e = ENonFinite else runtime_error e = true.

(** A static type that may occur: any type, or any but [StUnknown] with [strict]. *)
Definition known (strict : bool) (t : ExpressionStaticType) : Prop :=
  strict = true → t ≠ StUnknown.

(** ** Outcomes of evaluator runs *)

Definition ends {A} (strict : bool) (r : result expr_error (A * ustring)) (Q : A → Prop) : Prop :=
  match r with Ok (a, _) => Q a | Err e => allowed strict e end.

Lemma ends_bind {A B} strict (x : evaluator A) (f : A → evaluator B) m P Q :
  ends strict (x m) P → (∀ a m', P a → ends strict (f a m') Q) →
  ends strict ((x ≫= f) m) Q.
Proof.
  unfold ends, mbind, evaluator_bind. destruct (x m) as [[a m']|e]; [ | done].
  intros Ha Hf. apply (Hf a m' Ha).
Qed.

Lemma ends_ret {A} strict (a : A) m (Q : A → Prop) : Q a → ends strict ((mret a : evaluator A) m) Q.
Proof. done. Qed.

Definition returns {A} (strict : bool) (r : result expr_error A) (Q : A → Prop) : Prop :=
  match r with Ok a => Q a | Err e => allowed strict e end.

Lemma ends_lift {A} strict (r : result expr_error A) m Q :
  returns strict r Q → ends strict (lift r m) Q.
Proof. by destruct r. Qed.

Lemma allowed_overflow strict : allowed strict ENonFinite.
Proof. by destruct strict. Qed.

Lemma returns_ensureFinite strict x :
  returns strict (ensureFinite x) (fun y => y = x ∧ is_finite x = true).
Proof. unfold ensureFinite. destruct (is_finite x); [done | apply allowed_overflow]. Qed.

Lemma returns_fmap {A B} strict (f : A → B) r P (Q : B → Prop) :
  returns strict r P → (∀ a, P a → Q (f a)) → returns strict (f <$> r) Q.
Proof. destruct r; simpl; auto. Qed.

Lemma returns_bind {A B} strict (r : result expr_error A) (f : A → result expr_error B) P Q :
  returns strict r P → (∀ a, P a → returns strict (f a) Q) → returns strict (r ≫= f) Q.
Proof. destruct r; simpl; auto. Qed.

Lemma may_be_spec t expected : may_be t expected = true ↔ t = expected ∨ t = StUnknown.
Proof. unfold may_be. rewrite orb_true_iff, !bool_decide_eq_true. done. Qed.

(** A value of a type that may be [T] is a [T] when types are known. *)
Lemma compatible_known strict v t T :
  compatible v t → may_be t T = true → known strict t → strict = true → typeof v = T.
Proof.
  rewrite may_be_spec. intros [-> | Hv] Ht Hk Hs; [by specialize (Hk Hs) | ].
  destruct Ht as [-> | ->]; [done | by specialize (Hk Hs)].
Qed.

Lemma returns_expectNumber strict v t :
  compatible v t → may_be t StNumber = true → known strict t →
  returns strict (expectNumber v) (fun x => is_finite x = true).
Proof.
  intros Hv Ht Hk. destruct v as [x | s | b]; simpl.
  - pose proof (returns_ensureFinite strict x) as H. unfold returns in *.
    destruct (ensureFinite x); [by destruct H as [-> ?] | done].
  - destruct strict; [ | done].
    by pose proof (compatible_known true _ t StNumber Hv Ht Hk eq_refl).
  - destruct strict; [ | done].
    by pose proof (compatible_known true _ t StNumber Hv Ht Hk eq_refl).
Qed.

Lemma returns_expectBoolean strict v t :
  compatible v t → may_be t StBoolean = true → known strict t →
  returns strict (expectBoolean v) (fun _ => True).
Proof.
  intros Hv Ht Hk. destruct v as [x | s | b]; simpl; [ | | done];
    (destruct strict; [ | done]);
    by pose proof (compatible_known true _ t StBoolean Hv Ht Hk eq_refl).
Qed.

(** ** One operator *)

Lemma unary_sound strict op v t t' :
  compatible v t → known strict t → validateUnary op t = Ok t' →
  returns strict (evaluateUnary op v) (fun w => compatible w t').
Proof.
  unfold validateUnary, evaluateUnary. intros Hv Hk H.
  destruct op; (destruct (may_be t _) eqn:E; [ | done]); injection H as <-.
  - eapply returns_bind; [by eapply returns_expectNumber | ]. intros x _.
    eapply returns_fmap; [apply returns_ensureFinite | ]. by right.
  - eapply returns_bind; [by eapply returns_expectNumber | ]. intros x _.
    eapply returns_fmap; [apply returns_ensureFinite | ]. by right.
  - eapply returns_bind; [by eapply returns_expectBoolean | ]. intros x _. by right.
Qed.

Lemma arithmetic_sound strict l r tl tr (f : number → number → number) :
  compatible l tl → compatible r tr → known strict tl → known strict tr →
  negb (may_be tl StNumber) || negb (may_be tr StNumber) = false →
  returns strict (a ← expectNumber l; b ← expectNumber r; VNumber <$> ensureFinite (f a b))
    (fun w => compatible w StNumber).
Proof.
  intros Hl Hr Hkl Hkr H. bools.
  eapply returns_bind; [by eapply returns_expectNumber | ]. intros a _.
  eapply returns_bind; [by eapply returns_expectNumber | ]. intros b _.
  eapply returns_fmap; [apply returns_ensureFinite | ]. by right.
Qed.

Lemma comparison_sound strict op l r tl tr :
  compatible l tl → compatible r tr → known strict tl → known strict tr →
  negb (bool_decide (tl = StUnknown)) && negb (bool_decide (tr = StUnknown)) &&
    (negb (bool_decide (tl = tr)) ||
     (negb (bool_decide (tl = StNumber)) && negb (bool_decide (tl = StString)))) = false →
  returns strict (VBoolean <$> compareValues op l r) (fun w => compatible w StBoolean).
Proof.
  intros Hl Hr Hkl Hkr H. eapply (returns_fmap _ _ _ (fun _ => True)); [ | by right].
  destruct strict; [ | by destruct l, r].
  specialize (Hkl eq_refl). specialize (Hkr eq_refl).
  destruct Hl as [? | Hl]; [done | ]. destruct Hr as [? | Hr]; [done | ].
  by destruct l, r; simpl in Hl, Hr; subst.
Qed.

Lemma plus_sound strict l r tl tr t :
  compatible l tl → compatible r tr → known strict tl → known strict tr →
  validateBinary BAdd tl tr = Ok t →
  returns strict (evaluateStrict (fun a _ => a) BAdd l r) (fun w => compatible w t).
Proof.
  intros Hl Hr Hkl Hkr H.
  assert (Hnum : ∀ x T, T = StNumber ∨ T = StUnknown →
            returns strict (VNumber <$> ensureFinite x) (fun w => compatible w T)).
  { intros x T HT. eapply returns_fmap; [apply returns_ensureFinite | ].
    intros y _. destruct HT as [-> | ->]; [by right | by left]. }
  destruct strict.
  - specialize (Hkl eq_refl). specialize (Hkr eq_refl).
    destruct Hl as [? | Hl]; [done | ]. destruct Hr as [? | Hr]; [done | ].
    destruct l, r; simpl in Hl, Hr; subst; vm_compute in H; simplify_eq; simpl;
      [apply Hnum; by left | by right].
  - destruct Hl as [-> | <-], Hr as [-> | <-]; destruct l, r; vm_compute in H; simplify_eq; simpl;
      first [ apply Hnum; auto | by left | by right | done ].
Qed.

Lemma strict_sound strict js_pow op l r tl tr t :
  op ≠ BAnd → op ≠ BOr →
  compatible l tl → compatible r tr → known strict tl → known strict tr →
  validateBinary op tl tr = Ok t →
  returns strict (evaluateStrict js_pow op l r) (fun w => compatible w t).
Proof.
  intros H1 H2 Hl Hr Hkl Hkr H. destruct op; try done.
  1: { by eapply plus_sound. }
  all: simpl in H; case_match_in H; [done | ]; injection H as <-.
  all: try (by eapply arithmetic_sound).
  all: try (by eapply comparison_sound).
  all: by right.
Qed.

(** ** Calls *)

Lemma requireArgumentCount_inv {A} name (args : list A) k u :
  requireArgumentCount name args k = Ok u → length args = k.
Proof. unfold requireArgumentCount, guard_ok. case_match; [ | done]. by bools. Qed.

Lemma tier_sound strict name v0 v1 t0 t1 m :
  compatible v0 t0 → compatible v1 t1 → known strict t0 → known strict t1 →
  may_be t0 StString = true → may_be t1 StNumber = true →
  ends strict (evaluateBuiltin Tier name [v0; v1] m) (fun w => compatible w StNumber).
Proof.
  intros Hv0 Hv1 Hk0 Hk1 H0 H1.
  change (ends strict ((label ← lift (match v0 with VString s => Ok s | _ => Err ETierName end);
    x ← lift (expectNumber v1); set_matchedTier label;; mret (VNumber x)) m)
    (fun w => compatible w StNumber)).
  eapply (ends_bind _ _ _ _ (fun _ => True)).
  { destruct v0; simpl; try done; (destruct strict; [ | done]);
      by pose proof (compatible_known true _ _ StString Hv0 H0 Hk0 eq_refl). }
  intros label m1 _. eapply ends_bind; [apply ends_lift; by eapply returns_expectNumber | ].
  intros x m2 _. by right.
Qed.

Lemma extremum_sound strict f name v0 v1 t0 t1 m :
  f = Max ∨ f = Min →
  compatible v0 t0 → compatible v1 t1 → known strict t0 → known strict t1 →
  may_be t0 StNumber = true → may_be t1 StNumber = true →
  ends strict (evaluateBuiltin f name [v0; v1] m) (fun w => compatible w StNumber).
Proof.
  intros Hf Hv0 Hv1 Hk0 Hk1 H0 H1.
  assert (∃ g : number → number → number, evaluateBuiltin f name [v0; v1] m =
    (a ← lift (expectNumber v0); b ← lift (expectNumber v1); mret (VNumber (g a b)) :
       evaluator ExpressionValue) m) as [g ->].
  { destruct Hf as [-> | ->]; eexists; reflexivity. }
  eapply ends_bind; [apply ends_lift; by eapply returns_expectNumber | ]. intros a m1 _.
  eapply ends_bind; [apply ends_lift; by eapply returns_expectNumber | ]. intros b m2 _.
  by right.
Qed.

Lemma rounding_sound strict f name v0 t0 m :
  f = Abs ∨ f = Ceil ∨ f = Floor →
  compatible v0 t0 → known strict t0 → may_be t0 StNumber = true →
  ends strict (evaluateBuiltin f name [v0] m) (fun w => compatible w StNumber).
Proof.
  intros Hf Hv0 Hk0 H0.
  assert (∃ g : number → number, evaluateBuiltin f name [v0] m =
    (a ← lift (expectNumber v0); mret (VNumber (g a)) : evaluator ExpressionValue) m) as [g ->].
  { destruct Hf as [-> | [-> | ->]]; eexists; reflexivity. }
  eapply ends_bind; [apply ends_lift; by eapply returns_expectNumber | ]. intros a m1 _.
  by right.
Qed.

(** The argument lists the count checks leave. *)
Lemma two_arguments strict vs ts :
  Forall2 compatible vs ts → Forall (known strict) ts → length ts = 2 →
  ∃ v0 v1 t0 t1, vs = [v0; v1] ∧ ts = [t0; t1] ∧ compatible v0 t0 ∧ compatible v1 t1 ∧
                 known strict t0 ∧ known strict t1.
Proof.
  intros Hvs Hk Hlen. destruct ts as [|t0 [|t1 [|]]]; try done.
  apply Forall2_cons_inv_r in Hvs as (v0 & vs' & ? & Hvs & ->).
  apply Forall2_cons_inv_r in Hvs as (v1 & vs'' & ? & Hvs & ->).
  apply Forall2_nil_inv_r in Hvs as ->.
  apply Forall_cons in Hk as [? Hk]. apply Forall_cons in Hk as [? _].
  exists v0, v1, t0, t1. done.
Qed.

Lemma one_argument strict vs ts :
  Forall2 compatible vs ts → Forall (known strict) ts → length ts = 1 →
  ∃ v0 t0, vs = [v0] ∧ ts = [t0] ∧ compatible v0 t0 ∧ known strict t0.
Proof.
  intros Hvs Hk Hlen. destruct ts as [|t0 [|]]; try done.
  apply Forall2_cons_inv_r in Hvs as (v0 & vs' & ? & Hvs & ->).
  apply Forall2_nil_inv_r in Hvs as ->. apply Forall_cons in Hk as [? _]. eauto 6.
Qed.

Lemma call_sound strict name vs ts t m :
  Forall2 compatible vs ts → Forall (known strict) ts → validateCall name ts = Ok t →
  ends strict (evaluateCall name vs m) (fun w => compatible w t).
Proof.
  intros Hvs Hk H. unfold validateCall in H. unfold evaluateCall.
  destruct (builtin_of name) as [f|]; [ | done].
  destruct f; inv_bind;
    match goal with E : requireArgumentCount _ _ _ = Ok _ |- _ =>
      apply requireArgumentCount_inv in E end;
    [ destruct (two_arguments strict vs ts) as (v0 & v1 & t0 & t1 & -> & -> & ? & ? & ? & ?)
    | destruct (two_arguments strict vs ts) as (v0 & v1 & t0 & t1 & -> & -> & ? & ? & ? & ?)
    | destruct (two_arguments strict vs ts) as (v0 & v1 & t0 & t1 & -> & -> & ? & ? & ? & ?)
    | destruct (one_argument strict vs ts) as (v0 & t0 & -> & -> & ? & ?)
    | destruct (one_argument strict vs ts) as (v0 & t0 & -> & -> & ? & ?)
    | destruct (one_argument strict vs ts) as (v0 & t0 & -> & -> & ? & ?) ];
    unfold argument in * |-; simpl in * |-; bools; simplify_eq;
    eauto using tier_sound, extremum_sound, rounding_sound.
Qed.

(** ** Whole expressions *)

(** No subexpression of [e] is statically unknown. *)
Fixpoint definite (env : BillingExpressionEnvironment) (e : ExpressionNode) (d : nat) : Prop :=
  validateNode env e d ≠ Ok StUnknown ∧
  match e with
  | Literal _ | Identifier _ => True
  | Unary _ e1 => definite env e1 (S d)
  | Binary _ l r => definite env l (S d) ∧ definite env r (S d)
  | Conditional c a b => definite env c (S d) ∧ definite env a (S d) ∧ definite env b (S d)
  | Call _ args => foldr (fun a P => definite env a (S d) ∧ P) True args
  end.

Lemma definite_known env e d strict t :
  (strict = true → definite env e d) → validateNode env e d = Ok t → known strict t.
Proof. intros H Ht Hs ->. specialize (H Hs). destruct e, H; done. Qed.

Lemma arguments_sound (env : BillingExpressionEnvironment) strict js_pow d args :
  Forall (fun e => ∀ d t m, (strict = true → definite env e d) →
    validateNode env e d = Ok t →
    ends strict (evaluateNode js_pow env e d m) (fun v => compatible v t)) args →
  ∀ ts m, (strict = true → foldr (fun a P => definite env a d ∧ P) True args) →
  mapResult (fun a => validateNode env a d) args = Ok ts →
  Forall (known strict) ts ∧
  ends strict (mapEvaluator (fun a => evaluateNode js_pow env a d) args m)
    (fun vs => Forall2 compatible vs ts).
Proof.
  induction 1 as [|e args He Hargs IH]; intros ts m Hdef H; simpl in H.
  { injection H as <-. split; [constructor | by apply ends_ret]. }
  inv_bind.
  assert (Hk : known strict a).
  { eapply definite_known; [ | done]. intros Hs. apply (Hdef Hs). }
  split; [constructor; [done | ]; apply (IH _ m); [ | done]; intros Hs; apply (Hdef Hs) | ].
  eapply ends_bind; [apply He; [intros Hs; apply (Hdef Hs) | done] | ]. intros v m1 Hv.
  eapply ends_bind; [apply IH; [intros Hs; apply (Hdef Hs) | done] | ]. intros vs m2 Hvs.
  apply ends_ret. by constructor.
Qed.

(** A logical operator evaluates its operands as booleans, the right one only when
    the left one does not decide. *)
Lemma logical_sound strict (x y : evaluator ExpressionValue) tl tr m
    (k : bool → evaluator ExpressionValue) :
  may_be tl StBoolean = true → may_be tr StBoolean = true → known strict tl → known strict tr →
  ends strict (x m) (fun v => compatible v tl) →
  (∀ m', ends strict (y m') (fun v => compatible v tr)) →
  (∀ b, k b = mret (VBoolean b) ∨
        k b = (v ← y; b' ← lift (expectBoolean v); mret (VBoolean b'))) →
  ends strict ((left ← (v ← x; lift (expectBoolean v)); k left) m)
    (fun v => compatible v StBoolean).
Proof.
  intros Htl Htr Hkl Hkr Hx Hy Hk. eapply (ends_bind _ _ _ _ (fun _ => True)).
  { eapply ends_bind; [exact Hx | ]. intros v m1 Hv. apply ends_lift.
    by apply (returns_expectBoolean strict v tl). }
  intros b m1 _. destruct (Hk b) as [-> | ->]; [by right | ].
  eapply ends_bind; [apply Hy | ]. intros v m2 Hv.
  eapply ends_bind; [apply ends_lift; by apply (returns_expectBoolean strict v tr) | ].
  intros b' m3 _. by right.
Qed.

(** A conditional has the common type of its branches, if they have one. *)
Lemma conditional_sound strict (x y z : evaluator ExpressionValue) tc ta tb m :
  may_be tc StBoolean = true → known strict tc →
  ends strict (x m) (fun v => compatible v tc) →
  (∀ m', ends strict (y m') (fun v => compatible v ta)) →
  (∀ m', ends strict (z m') (fun v => compatible v tb)) →
  ends strict ((v ← x; condition ← lift (expectBoolean v);
                if condition : bool then y else z) m)
    (fun v => compatible v (if decide (ta = tb) then ta else StUnknown)).
Proof.
  intros Hc Hk Hx Hy Hz. eapply ends_bind; [exact Hx | ]. intros v m1 Hv.
  eapply ends_bind; [apply ends_lift; by apply (returns_expectBoolean strict v tc) | ].
  assert (Hweak : ∀ (r : result expr_error (ExpressionValue * ustring)) T,
    T = ta ∨ T = tb → ends strict r (fun v => compatible v T) →
    ends strict r (fun v => compatible v (if decide (ta = tb) then ta else StUnknown))).
  { intros r T HT. unfold ends. destruct r as [[w ?]|]; [ | done].
    destruct (decide (ta = tb)) as [-> | ]; [by destruct HT as [-> | ->] | by left]. }
  intros [] m2 _; [apply (Hweak _ ta) | apply (Hweak _ tb)]; auto.
Qed.

Lemma evaluateNode_sound js_pow env strict e : ∀ d t m,
  (strict = true → definite env e d) → validateNode env e d = Ok t →
  ends strict (evaluateNode js_pow env e d m) (fun v => compatible v t).
Proof.
  induction e as [v | name | op e IH | op l r IHl IHr | c a b IHc IHa IHb | name args IH]
    using node_induction; intros d t m Hdef H; simpl in H |- *;
    (destruct (MAX_EVALUATION_DEPTH <? d) eqn:Edepth; [done | ]).
  - injection H as <-. apply ends_ret. by right.
  - unfold hasOwn in H. destruct (lookup_env env name); [ | done]. injection H as <-. by right.
  - inv_bind. eapply ends_bind; [apply IH; [intros Hs; apply (Hdef Hs) | done] | ].
    intros v m1 Hv. apply ends_lift. apply (unary_sound strict op v a t Hv); [ | done].
    eapply definite_known; [ | done]. intros Hs. apply (Hdef Hs).
  - inv_bind. rename a into tl, a0 into tr.
    assert (Hdl : strict = true → definite env l (S d)) by (intros Hs; apply (Hdef Hs)).
    assert (Hdr : strict = true → definite env r (S d)) by (intros Hs; apply (Hdef Hs)).
    pose proof (definite_known _ _ _ _ _ Hdl H0) as Hkl.
    pose proof (definite_known _ _ _ _ _ Hdr H1) as Hkr.
    destruct (decide (op = BAnd ∨ op = BOr)) as [Hop | Hop].
    + assert (Hb : may_be tl StBoolean = true ∧ may_be tr StBoolean = true ∧ t = StBoolean).
      { destruct Hop as [-> | ->]; simpl in H; case_match_in H; simplify_eq; by bools. }
      destruct Hb as (Htl & Htr & ->).
      destruct Hop as [-> | ->];
        apply (logical_sound strict _ (evaluateNode js_pow env r (S d)) tl tr);
        auto; intros []; auto.
    + assert (ends strict ((left ← evaluateNode js_pow env l (S d);
         right ← evaluateNode js_pow env r (S d);
         lift (evaluateStrict js_pow op left right)) m) (fun v => compatible v t)) as Hgoal.
      { eapply ends_bind; [by apply IHl | ]. intros vl m1 Hvl.
        eapply ends_bind; [by apply IHr | ]. intros vr m2 Hvr. apply ends_lift.
        apply (strict_sound strict js_pow op vl vr tl tr t); auto; intros ->; apply Hop; auto. }
      destruct op; (exact Hgoal || (exfalso; apply Hop; auto)).
  - inv_bind. destruct (may_be a0 StBoolean) eqn:Eb; [ | done]. injection H as <-.
    assert (Hdc : strict = true → definite env c (S d)) by (intros Hs; apply (Hdef Hs)).
    eapply conditional_sound; eauto using definite_known; intros m'.
    + apply IHa; [intros Hs; apply (Hdef Hs) | done].
    + apply IHb; [intros Hs; apply (Hdef Hs) | done].
  - inv_bind. destruct (arguments_sound env strict js_pow (S d) args IH a m) as [Hk Hvs];
      [intros Hs; apply (Hdef Hs) | done | ].
    eapply ends_bind; [exact Hvs | ]. intros vs m1 Hvs'.
    by apply (call_sound strict name vs a t m1).
Qed.
