(* ===== verification/BillingExpr.v ===== *)
(** * Billing expressions: the whole pipeline

    [evaluateBillingExpression] composes the tokenizer, the parser, the validator and
    the evaluator; [evalExprLocally] of [tier-expr.ts] builds the environment of the
    estimator and turns a throw into an error message. *)

From stdpp Require Import base list numbers strings sets.
From Stdlib Require Import SpecFloat Lia.
From S2P Require Import Prelude JsNumber ExprSyntax ExprTokenizer ExprParser ExprRoundTrip.
From S2P Require Import ExprValidator ExprEvaluator ExprSoundness.

Section pipeline.
Variable js_pow : number → number → number.

Definition evaluateBillingExpression (expression : ustring) (env : BillingExpressionEnvironment)
    : result expr_error BillingExpressionResult :=
  if MAX_EXPRESSION_LENGTH <? length expression then Err ETooLong
  else
    let body := if starts_with (js "v1:") expression then drop 3 expression else expression in
    tokens ← tokenize body;
    syntaxTree ← parse tokens;
    _ ← validate env syntaxTree;
    evaluate js_pow env syntaxTree.

(** ** The estimator *)

(** [ExtraTokenValues]: a field may be missing at run time, hence the [??]. *)
Record ExtraTokenValues := mkExtra {
  cacheReadTokens : option number;
  cacheCreateTokens : option number;
  cacheCreate1hTokens : option number;
  imageTokens : option number;
  imageOutputTokens : option number;
  audioInputTokens : option number;
  audioOutputTokens : option number;
}.

Record EvalResult := mkEval {
  eval_cost : number;
  eval_matchedTier : ustring;
  eval_error : option ustring;
}.

Definition ESTIMATOR_VARS : list (ustring * (ExtraTokenValues → option number)) :=
  [(js "cr", cacheReadTokens); (js "cc", cacheCreateTokens); (js "cc1h", cacheCreate1hTokens);
   (js "img", imageTokens); (js "img_o", imageOutputTokens); (js "ai", audioInputTokens);
   (js "ao", audioOutputTokens)].

Definition or_zero (x : option number) : number := default zero x.

Definition estimatorEnv (promptTokens completionTokens : number) (extra : ExtraTokenValues)
    : BillingExpressionEnvironment :=
  let len :=
    num_add (num_add (num_add promptTokens (or_zero (cacheReadTokens extra)))
               (or_zero (cacheCreateTokens extra)))
      (or_zero (cacheCreate1hTokens extra)) in
  [(js "p", promptTokens); (js "c", completionTokens); (js "len", len)] ++
  map (fun f => (fst f, or_zero (snd f extra))) ESTIMATOR_VARS.

Definition evalExprLocally (exprStr : ustring) (promptTokens completionTokens : number)
    (extra : ExtraTokenValues) : EvalResult :=
  if negb (truthy exprStr) || negb (truthy (trim exprStr)) then mkEval zero [] None
  else
    match evaluateBillingExpression exprStr (estimatorEnv promptTokens completionTokens extra) with
    | Ok r => mkEval (cost r) (matchedTier r) None
    | Err e => mkEval zero [] (Some (error_message e))
    end.
End pipeline.

(** ** Outcomes *)

(** The errors of the specification: all but the ones that stand for a bound of the
    model, for a read past the end of an array, and for the tokenizer's unreachable
    no-progress guard. *)
Definition documented_error (e : expr_error) : bool :=
  match e with
  | EFuel | ETypeError | EUnexpectedPosition _ => false
  | _ => true
  end.

Lemma tokenizer_error_documented e : tokenizer_error e = true → documented_error e = true.
Proof. by destruct e. Qed.

Lemma parser_error_documented e : parser_error e = true → documented_error e = true.
Proof. by destruct e. Qed.

Lemma runtime_error_documented e : runtime_error e = true → documented_error e = true.
Proof. by destruct e. Qed.

Lemma tokenize_well_formed source tokens : tokenize source = Ok tokens → well_formed tokens.
Proof.
  intros H. unfold tokenize in H.
  apply tokenize_loop_sound in H as (body & -> & _ & Hlex); [ | lia | simpl; lia].
  exists body, (length source). split; [done | ]. clear -Hlex.
  induction Hlex as [|i p k t ts _ _ _ _ _ Hd _ IH]; constructor; [ | done].
  unfold denotes in Hd. by destruct (type t).
Qed.

Lemma tokenize_error source e : tokenize source = Err e → tokenizer_error e = true.
Proof. intros H. eapply tokenize_loop_error; [ | | exact H]; lia. Qed.

Lemma mapResult_error {A B} (f : A → result expr_error B) (P : expr_error → Prop) l e :
  Forall (fun a => ∀ e, f a = Err e → P e) l → mapResult f l = Err e → P e.
Proof.
  induction 1 as [|a l Ha _ IH]; simpl; [done | ]. intros H.
  apply bind_Err_inv in H as [H | (b & _ & H)]; [eauto | ].
  apply bind_Err_inv in H as [H | (bs & _ & H)]; [eauto | done].
Qed.

Lemma validateCall_documented name ts e :
  validateCall name ts = Err e → documented_error e = true.
Proof.
  unfold validateCall. intros H.
  destruct (builtin_of name) as [[]|]; [ | | | | | | by simplify_eq];
    unfold requireArgumentCount, argument, guard_ok in H;
    repeat (case_match_in H; simplify_eq/=; bools; try done);
    try (by destruct ts as [|? [|]]).
Qed.

Lemma validateNode_documented env node : ∀ d e,
  validateNode env node d = Err e → documented_error e = true.
Proof.
  induction node as [v | name | op n IH | op l r IHl IHr | c a b IHc IHa IHb | name args IH]
    using node_induction; intros d e H; simpl in H;
    (destruct (MAX_EVALUATION_DEPTH <? d); [by simplify_eq | ]).
  - done.
  - case_match_in H; by simplify_eq.
  - apply bind_Err_inv in H as [H | (t & _ & H)]; [eauto | ].
    unfold validateUnary in H. destruct op; case_match_in H; by simplify_eq.
  - apply bind_Err_inv in H as [H | (tl & _ & H)]; [eauto | ].
    apply bind_Err_inv in H as [H | (tr & _ & H)]; [eauto | ].
    unfold validateBinary in H. repeat (case_match_in H; simplify_eq; try done).
  - apply bind_Err_inv in H as [H | (tc & _ & H)]; [eauto | ].
    apply bind_Err_inv in H as [H | (ta & _ & H)]; [eauto | ].
    apply bind_Err_inv in H as [H | (tb & _ & H)]; [eauto | ].
    case_match_in H; by simplify_eq.
  - apply bind_Err_inv in H as [H | (ts & _ & H)]; [ | by eapply validateCall_documented].
    eapply (mapResult_error _ (fun e => documented_error e = true)); [ | exact H].
    eapply Forall_impl; [exact IH | eauto].
Qed.

Lemma checkEnvironment_error env e :
  checkEnvironment env = Err e → ∃ name, e = EInvalidEstimatorValue name.
Proof.
  induction env as [|[n x] env IH]; simpl; [done | ].
  destruct (_ || _); [intros [= <-]; eauto | done].
Qed.

(** After a successful validation, evaluation ends with a finite cost that is not
    negative, or with one of the errors an expression can cause at run time. *)
Lemma evaluate_validated js_pow env node :
  validate env node = Ok tt →
  match evaluate js_pow env node with
  | Ok r => is_finite (cost r) = true ∧ num_ltb (cost r) zero = false
  | Err e => runtime_error e = true ∨ e = ENegativeCost ∨ ∃ name, e = EInvalidEstimatorValue name
  end.
Proof.
  intros Hv. apply bind_Ok_inv in Hv as (t & Ht & _). unfold evaluate.
  destruct (checkEnvironment env) as [[]|e] eqn:Eenv; simpl.
  2: { apply checkEnvironment_error in Eenv. auto. }
  pose proof (evaluateNode_sound js_pow env false node 0 t [] ltac:(done) Ht) as Hs.
  unfold ends in Hs. destruct (evaluateNode js_pow env node 0 []) as [[v m]|e]; simpl; [ | by left].
  unfold expectNumber, ensureFinite. destruct v as [x | |]; simpl; [ | by left | by left].
  destruct (is_finite x) eqn:Ef; simpl; [ | by left].
  destruct (num_ltb x zero) eqn:El; simpl; auto.
Qed.

(** ** Tier ladders

    The shape every tiered price has: [c1 ? tier(l1, b1) : c2 ? tier(l2, b2) : ... :
    tier(l, b)], where a condition is a conjunction of comparisons of a variable with
    a bound. *)

Record tier_condition := mkCond {
  cond_var : ustring;
  cond_op : BinaryOperator;
  cond_bound : number;
}.

Record rung := mkRung {
  rung_conditions : list tier_condition;   (* never empty in a rung *)
  rung_label : ustring;
  rung_body : ExpressionNode;
}.

Definition condition_node (c : tier_condition) : ExpressionNode :=
  Binary (cond_op c) (Identifier (cond_var c)) (Literal (VNumber (cond_bound c))).

Definition conjunction (c : tier_condition) (cs : list tier_condition) : ExpressionNode :=
  fold_left (fun acc c' => Binary BAnd acc (condition_node c')) cs (condition_node c).

Definition conditions_node (cs : list tier_condition) : ExpressionNode :=
  match cs with [] => Literal (VBoolean true) | c :: cs' => conjunction c cs' end.

Definition tier_node (label : ustring) (body : ExpressionNode) : ExpressionNode :=
  Call (js "tier") [Literal (VString label); body].

Fixpoint ladder (rungs : list rung) (label : ustring) (body : ExpressionNode) : ExpressionNode :=
  match rungs with
  | [] => tier_node label body
  | r :: rungs' =>
      Conditional (conditions_node (rung_conditions r))
        (tier_node (rung_label r) (rung_body r)) (ladder rungs' label body)
  end.

(** What a condition means: the comparison of the variable's value with the bound. *)
Definition holds (env : BillingExpressionEnvironment) (c : tier_condition) : bool :=
  match lookup_env env (cond_var c) with
  | Some x =>
      match cond_op c with
      | BLt => num_ltb x (cond_bound c)
      | BLe => num_leb x (cond_bound c)
      | BGt => num_ltb (cond_bound c) x
      | _ => num_leb (cond_bound c) x
      end
  | None => false
  end.

(** The rung a request falls on: its depth in the ladder, its label and its body. *)
Fixpoint selected (env : BillingExpressionEnvironment) (rungs : list rung) (label : ustring)
    (body : ExpressionNode) : nat * ustring * ExpressionNode :=
  match rungs with
  | [] => (0, label, body)
  | r :: rungs' =>
      if forallb (holds env) (rung_conditions r) then (1, rung_label r, rung_body r)
      else let '(k, l, b) := selected env rungs' label body in (S k, l, b)
  end.

Definition condition_ok (env : BillingExpressionEnvironment) (c : tier_condition) : Prop :=
  hasOwn env (cond_var c) = true ∧ cond_op c ∈ [BLt; BLe; BGt; BGe].

(** The evaluator's depth budget covers the ladder. *)
Definition fits (rungs : list rung) (d : nat) : Prop :=
  d + length rungs ≤ MAX_EVALUATION_DEPTH ∧
  Forall (fun r => d + length rungs + length (rung_conditions r) + 1 ≤ MAX_EVALUATION_DEPTH) rungs.

Section ladder.
Variable js_pow : number → number → number.
Variable env : BillingExpressionEnvironment.
Abbreviation eval := (evaluateNode js_pow env).

Lemma depth_ok d : d ≤ MAX_EVALUATION_DEPTH → (MAX_EVALUATION_DEPTH <? d) = false.
Proof. intros H. by apply Nat.ltb_ge. Qed.

Lemma eval_condition c d m :
  condition_ok env c → S d ≤ MAX_EVALUATION_DEPTH →
  eval (condition_node c) d m = Ok (VBoolean (holds env c), m).
Proof.
  intros [Hvar Hop] Hd. unfold hasOwn in Hvar. unfold holds, condition_node.
  destruct (lookup_env env (cond_var c)) as [x|] eqn:Ex; [ | done].
  assert (E : ∀ op, op ∈ [BLt; BLe; BGt; BGe] →
    eval (Binary op (Identifier (cond_var c)) (Literal (VNumber (cond_bound c)))) d m =
    Ok (VBoolean match op with
                 | BLt => num_ltb x (cond_bound c) | BLe => num_leb x (cond_bound c)
                 | BGt => num_ltb (cond_bound c) x | _ => num_leb (cond_bound c) x end, m)).
  { intros op Hin. set_unfold in Hin.
    destruct Hin as [-> | [-> | [-> | [-> | []]]]]; cbn [evaluateNode];
      rewrite !depth_ok by lia; unfold mbind, evaluator_bind; by rewrite Ex. }
  apply E, Hop.
Qed.

Lemma eval_conjunction cs : ∀ c d m,
  Forall (condition_ok env) (c :: cs) → S d + length cs ≤ MAX_EVALUATION_DEPTH →
  eval (conjunction c cs) d m = Ok (VBoolean (forallb (holds env) (c :: cs)), m).
Proof.
  induction cs as [|c' cs IH] using rev_ind; intros c d m Hok Hd.
  { apply Forall_cons in Hok as [Hc _]. simpl. rewrite andb_true_r.
    apply eval_condition; [done | simpl in Hd; lia]. }
  rewrite length_app in Hd. simpl in Hd.
  rewrite (Forall_app _ (c :: cs) [c'] : Forall _ (c :: cs ++ [c']) ↔ _) in Hok.
  destruct Hok as [Hok Hc']. apply Forall_cons in Hc' as [Hc' _].
  unfold conjunction. rewrite fold_left_app. cbn [fold_left]. fold (conjunction c cs).
  change (c :: cs ++ [c']) with ((c :: cs) ++ [c']). rewrite forallb_app.
  cbn [evaluateNode]. rewrite depth_ok by lia. unfold mbind, evaluator_bind.
  rewrite IH by (done || lia). cbn [lift expectBoolean].
  destruct (forallb (holds env) (c :: cs)); [ | done].
  rewrite eval_condition by (done || lia). simpl. by rewrite andb_true_r.
Qed.

Lemma eval_conditions cs d m :
  Forall (condition_ok env) cs → d + length cs ≤ MAX_EVALUATION_DEPTH →
  eval (conditions_node cs) d m = Ok (VBoolean (forallb (holds env) cs), m).
Proof.
  intros Hok Hd. destruct cs as [|c cs]; simpl in Hd.
  - cbn [conditions_node evaluateNode]. by rewrite depth_ok by lia.
  - apply eval_conjunction; [done | lia].
Qed.

(** A ladder evaluates to the tier of the first rung whose conditions all hold. *)
Lemma eval_ladder rungs label body : ∀ d m,
  Forall (fun r => Forall (condition_ok env) (rung_conditions r)) rungs → fits rungs d →
  let '(k, l, b) := selected env rungs label body in
  eval (ladder rungs label body) d m = eval (tier_node l b) (d + k) m.
Proof.
  induction rungs as [|r rungs IH]; intros d m Hok Hfit; [by simpl; rewrite Nat.add_0_r | ].
  apply Forall_cons in Hok as [Hr Hok]. destruct Hfit as [Hd Hfit].
  apply Forall_cons in Hfit as [Hdr Hfit]. simpl in Hd, Hdr, Hfit.
  assert (Heval : eval (ladder (r :: rungs) label body) d m =
    if forallb (holds env) (rung_conditions r)
    then eval (tier_node (rung_label r) (rung_body r)) (S d) m
    else eval (ladder rungs label body) (S d) m).
  { cbn [ladder evaluateNode]. rewrite depth_ok by lia. unfold mbind, evaluator_bind.
    rewrite eval_conditions by (done || lia). cbn [lift expectBoolean].
    by destruct (forallb _ _). }
  cbn [selected]. rewrite Heval. destruct (forallb _ _); [by rewrite Nat.add_1_r | ].
  specialize (IH (S d) m Hok). destruct (selected env rungs label body) as [[k l] b].
  rewrite IH; [by rewrite Nat.add_succ_comm | ].
  split; [lia | ]. eapply Forall_impl; [exact Hfit | ]. simpl. lia.
Qed.

Lemma tier_builtin name l x m :
  evaluateBuiltin Tier name [VString l; VNumber x] m =
  if is_finite x then Ok (VNumber x, l) else Err ENonFinite.
Proof.
  unfold evaluateBuiltin, mbind, evaluator_bind, lift, expectNumber, ensureFinite. simpl.
  by destruct (is_finite x).
Qed.

(** A tier call that returns has recorded its label and returns the value of its body. *)
Lemma eval_tier_node l b d m v m' :
  eval (tier_node l b) d m = Ok (v, m') →
  m' = l ∧ ∃ x m1, v = VNumber x ∧ is_finite x = true ∧ eval b (S d) m = Ok (VNumber x, m1).
Proof.
  unfold tier_node. cbn [evaluateNode]. destruct (MAX_EVALUATION_DEPTH <? d); [done | ].
  unfold mbind, evaluator_bind. cbn [mapEvaluator evaluateNode].
  destruct (MAX_EVALUATION_DEPTH <? S d); [done | ].
  unfold mbind, evaluator_bind, mret, evaluator_ret.
  destruct (eval b (S d) m) as [[w m1]|e] eqn:Eb; [ | done].
  unfold evaluateCall. change (builtin_of (js "tier")) with (Some Tier).
  destruct w as [x | s | c]; [ | done | done].
  rewrite tier_builtin. destruct (is_finite x) eqn:Ef; [ | done].
  intros [= <- <-]. eauto 10.
Qed.
End ladder.

Definition good_outcome (r : result expr_error BillingExpressionResult) : Prop :=
  match r with
  | Ok r => is_finite (cost r) = true ∧ num_ltb (cost r) zero = false
  | Err e => documented_error e = true
  end.

Lemma validated_outcome js_pow env node :
  good_outcome (_ ← validate env node; evaluate js_pow env node).
Proof.
  destruct (validate env node) as [[]|e] eqn:Ev; cbn [mbind result_bind].
  - pose proof (evaluate_validated js_pow env node Ev) as H.
    destruct (evaluate js_pow env node) as [r|e]; [done | ].
    destruct H as [H | [-> | [name ->]]]; [by apply runtime_error_documented | done | done].
  - apply bind_Err_inv in Ev as [Ev | (t & _ & Ev)]; [by eapply validateNode_documented | ].
    unfold guard_ok in Ev. case_match_in Ev; by simplify_eq.
Qed.

Lemma bind_outcome {A} (m : result expr_error A) (f : A → result expr_error BillingExpressionResult) :
  (∀ e, m = Err e → documented_error e = true) → (∀ a, m = Ok a → good_outcome (f a)) →
  good_outcome (m ≫= f).
Proof. intros He Hf. destruct m as [a|e]; [by apply Hf | by apply (He e)]. Qed.

Lemma parse_documented source tokens e :
  tokenize source = Ok tokens → parse tokens = Err e → documented_error e = true.
Proof.
  intros Ht Hp. pose proof (parse_spec tokens (tokenize_well_formed _ _ Ht)) as H.
  rewrite Hp in H. exact (parser_error_documented e H).
Qed.

Lemma evaluateBillingExpression_good js_pow expression env :
  good_outcome (evaluateBillingExpression js_pow expression env).
Proof.
  unfold evaluateBillingExpression. destruct (MAX_EXPRESSION_LENGTH <? _); [reflexivity | ].
  apply bind_outcome; [intros e He; exact (tokenizer_error_documented e (tokenize_error _ _ He)) | ].
  intros tokens Ht. apply bind_outcome; [intros e He; exact (parse_documented _ _ e Ht He) | ].
  intros node _. apply validated_outcome.
Qed.

(** ** Theorems *)

(** C1: evaluating any text in any environment ends, either with a finite cost that is
    not negative, or with one of the errors the source names: the loops of the tokenizer
    and the parser terminate, no array is read out of range, and the tokenizer's guard
    against a round that reads nothing is never reached. *)
Theorem evaluateBillingExpression_outcome js_pow expression env :
  match evaluateBillingExpression js_pow expression env with
  | Ok r => is_finite (cost r) = true ∧ num_ltb (cost r) zero = false
  | Err e => documented_error e = true
  end.
Proof.
  exact (evaluateBillingExpression_good js_pow expression env).
Qed.

(** C2: the tokenizer is lossless: its output is a list of at most [MAX_TOKENS] tokens
    closed by the only end mark, and the source text is exactly their lexemes, each token
    denoting its own piece of text, separated by white space and nothing else. *)
Theorem tokenize_lossless source tokens :
  tokenize source = Ok tokens →
  ∃ body, tokens = body ++ [mkToken TEof [] (length source)] ∧
          length body ≤ MAX_TOKENS ∧ lexed source 0 body.
Proof.
  intros H. unfold tokenize in H.
  apply tokenize_loop_sound in H as (body & -> & Hlen & Hlex); [eauto | lia | simpl; lia].
Qed.

Lemma tokenize_lossless_witness :
  ∃ body, [mkToken TIdentifier (js "p") 0; mkToken TSymbol (js "*") 1;
           mkToken TNumber (js "2") 3; mkToken TEof [] 4]
          = body ++ [mkToken TEof [] (length (js "p* 2"))] ∧
          length body ≤ MAX_TOKENS ∧ lexed (js "p* 2") 0 body.
Proof. apply tokenize_lossless. vm_compute. reflexivity. Defined.

(** C3: the parser only accepts token lists of the expression grammar: when it returns a
    tree, all tokens up to the end mark derive that tree with the precedence and the
    associativity of the grammar. *)
Theorem parse_derives source tokens node :
  tokenize source = Ok tokens → parse tokens = Ok node →
  derives tokens LConditional 0 node (length tokens - 1).
Proof.
  intros Ht Hp. pose proof (parse_spec tokens (tokenize_well_formed _ _ Ht)) as H.
  by rewrite Hp in H.
Qed.

Definition sample_tokens : list Token :=
  [mkToken TIdentifier (js "p") 0; mkToken TSymbol (js "-") 1;
   mkToken TIdentifier (js "c") 2; mkToken TSymbol (js "-") 3;
   mkToken TIdentifier (js "p") 4; mkToken TEof [] 5].

Lemma parse_derives_witness :
  derives sample_tokens LConditional 0
    (Binary BSub (Binary BSub (Identifier (js "p")) (Identifier (js "c"))) (Identifier (js "p")))
    (length sample_tokens - 1).
Proof. apply (parse_derives (js "p-c-p")); vm_compute; reflexivity. Defined.

(** C4: printing and reading back: a tree whose numbers are finite and the numbers of their
    decimal texts, whose names are identifiers and whose string literals are not the text of
    an operator or a bracket (those are misread as one), and which is within the limits of
    128 levels and of the number of tokens, is what the tokenizer and the parser read from
    the text printed for it, brackets included. *)
Theorem source_text_round_trip numText node :
  printable numText node → need node ≤ MAX_PARSE_DEPTH →
  length (print numText node) ≤ MAX_TOKENS →
  (tokenize (source_text numText node) ≫= parse) = Ok node.
Proof. apply read_source_text. Qed.

(** A number text for the sample below. *)
Definition sample_numText (x : number) : ustring :=
  if num_eqb x one then js "1" else js "2.5".

Definition sample_tree : ExpressionNode :=
  Conditional (Binary BLe (Identifier (js "len")) (Literal (VNumber (Number (js "2.5")))))
    (Call (js "tier") [Literal (VString (js "a b")); Binary BPow (Identifier (js "p"))
                         (Unary UMinus (Literal (VNumber (Number (js "1")))))])
    (Binary BMul (Binary BAdd (Identifier (js "p")) (Identifier (js "c")))
       (Literal (VNumber (Number (js "2.5"))))).

Lemma sample_tree_printable : printable sample_numText sample_tree.
Proof.
  assert (Hid : ∀ c, isIdentifierStart (Some c) = true → identifier_name [c]).
  { intros c Hc. split; [done | ]. split; [ | done]. constructor; [ | constructor].
    unfold isIdentifierPart. by rewrite Hc. }
  assert (Hnum : ∀ t, number_literal t → is_finite (Number t) = true →
            sample_numText (Number t) = t → printable sample_numText (Literal (VNumber (Number t)))).
  { intros t Ht Hf E. simpl. by rewrite E. }
  assert (H25 : printable sample_numText (Literal (VNumber (Number (js "2.5"))))).
  { apply Hnum; [ | by vm_compute | by vm_compute]. exists (js "2.5"), [].
    rewrite app_nil_r. split; [done | split; [ | constructor]].
    apply (man_frac (js "2") (js "5")); [done | repeat constructor | repeat constructor]. }
  assert (H1 : printable sample_numText (Literal (VNumber (Number (js "1"))))).
  { apply Hnum; [ | by vm_compute | by vm_compute]. exists (js "1"), [].
    rewrite app_nil_r. split; [done | split; [ | constructor]].
    apply man_int; [done | repeat constructor]. }
  assert (Hp : identifier_name (js "p")) by by apply Hid.
  assert (Hc : identifier_name (js "c")) by by apply Hid.
  assert (Hlen : identifier_name (js "len")).
  { split; [done | split; [repeat constructor | done]]. }
  assert (Htier : identifier_name (js "tier")).
  { split; [done | split; [repeat constructor | done]]. }
  assert (Hab : js "a b" ∉ symbol_values).
  { apply (bool_decide_unpack _). by vm_compute. }
  clear Hid Hnum. unfold sample_tree. cbn [printable foldr] in *. tauto.
Qed.

Lemma source_text_round_trip_witness :
  (tokenize (source_text sample_numText sample_tree) ≫= parse) = Ok sample_tree.
Proof.
  apply source_text_round_trip; [exact sample_tree_printable | | ];
    apply Nat.leb_le; vm_compute; reflexivity.
Defined.

(** C5: static types are respected: if the validator gives a node a type, evaluating it
    at the same depth returns a value of that type (any value if the type is unknown) or
    throws a run-time error; an unknown variable, an unknown function, a wrong argument
    count and an expression that is too deep are excluded. *)
Theorem validated_node_types js_pow env node d t m :
  validateNode env node d = Ok t →
  match evaluateNode js_pow env node d m with
  | Ok (v, _) => compatible v t
  | Err e => runtime_error e = true
  end.
Proof.
  intros H. exact (evaluateNode_sound js_pow env false node d t m ltac:(done) H).
Qed.

(** The environment of the samples. *)
Definition sample_env : BillingExpressionEnvironment :=
  [(js "p", num_of_Z 1000); (js "c", num_of_Z 50); (js "len", num_of_Z 1200)].

(** A power function for the samples: repeated multiplication. *)
Definition sample_pow (x y : number) : number :=
  match y with
  | S754_finite false m e => Nat.iter (Z.to_nat (Z.shiftl (Zpos m) e)) (num_mul x) one
  | _ => one
  end.

Lemma validated_node_types_witness :
  match evaluateNode sample_pow sample_env (Binary BPow (Identifier (js "c")) (Literal (VNumber (num_of_Z 2)))) 0 [] with
  | Ok (v, _) => compatible v StNumber
  | Err e => runtime_error e = true
  end.
Proof. apply validated_node_types. vm_compute. reflexivity. Defined.

(** when moreover no subexpression is statically unknown, the value has exactly the
    static type and the only possible error is overflow to a non-finite number. *)
Theorem definite_node_only_overflows js_pow env node d t m :
  validateNode env node d = Ok t → definite env node d →
  match evaluateNode js_pow env node d m with
  | Ok (v, _) => typeof v = t
  | Err e => e = ENonFinite
  end.
Proof.
  intros H Hdef.
  pose proof (evaluateNode_sound js_pow env true node d t m ltac:(done) H) as Hs.
  unfold ends in Hs. destruct (evaluateNode js_pow env node d m) as [[v m']|e]; [ | done].
  destruct Hs as [-> | Hv]; [ | done]. destruct node, Hdef; done.
Qed.

Lemma definite_node_only_overflows_witness :
  match evaluateNode sample_pow sample_env
          (Conditional (Binary BLt (Identifier (js "len")) (Literal (VNumber (num_of_Z 5000))))
             (Binary BMul (Identifier (js "p")) (Literal (VNumber (num_of_Z 3)))) (Identifier (js "c")))
          0 [] with
  | Ok (v, _) => typeof v = StNumber
  | Err e => e = ENonFinite
  end.
Proof.
  apply definite_node_only_overflows; [vm_compute; reflexivity | ].
  repeat split; vm_compute; discriminate.
Defined.

(** a tiered price charges the first tier that applies: evaluating a ladder of
    conditions and tiers returns the value of the body of the first rung whose
    comparisons all hold (of the last tier when none does), and reports its label. *)
Theorem ladder_charges_first_match js_pow env rungs label body r :
  Forall (fun r => Forall (condition_ok env) (rung_conditions r)) rungs → fits rungs 0 →
  evaluate js_pow env (ladder rungs label body) = Ok r →
  let '(k, l, b) := selected env rungs label body in
  matchedTier r = l ∧
  ∃ m, evaluateNode js_pow env b (S k) [] = Ok (VNumber (cost r), m).
Proof.
  intros Hok Hfit H. unfold evaluate in H. inv_bind. destruct a0 as [v m]. inv_bind.
  pose proof (eval_ladder js_pow env rungs label body 0 [] Hok Hfit) as Hladder.
  destruct (selected env rungs label body) as [[k l] b].
  match goal with E : evaluateNode _ _ (ladder _ _ _) 0 [] = _ |- _ =>
    rewrite Hladder in E; apply eval_tier_node in E as (-> & x & m1 & -> & Hf & Hb) end.
  unfold expectNumber, ensureFinite in *. rewrite Hf in *. simplify_eq.
  case_match_in H; simplify_eq. simpl. eauto.
Qed.

Definition sample_rungs : list rung :=
  [mkRung [mkCond (js "len") BLt (num_of_Z 100)] (js "short") (Identifier (js "c"));
   mkRung [mkCond (js "len") BGe (num_of_Z 1000); mkCond (js "p") BLe (num_of_Z 1000)]
     (js "long") (Binary BMul (Identifier (js "p")) (Literal (VNumber (num_of_Z 2))))].

Lemma ladder_charges_first_match_witness :
  ∃ m, evaluateNode sample_pow sample_env
         (Binary BMul (Identifier (js "p")) (Literal (VNumber (num_of_Z 2)))) 3 []
       = Ok (VNumber (num_of_Z 2000), m).
Proof.
  apply (ladder_charges_first_match sample_pow sample_env sample_rungs (js "base")
           (Identifier (js "p")) (mkResult (num_of_Z 2000) (js "long"))).
  - repeat constructor; vm_compute; auto using list_elem_of_here, list_elem_of_further.
  - split; [apply Nat.leb_le; vm_compute; reflexivity | ].
    repeat constructor; apply Nat.leb_le; vm_compute; reflexivity.
  - vm_compute. reflexivity.
Defined.

(** the estimator never shows a cost that is negative or not finite; when it reports
    an error, or has no expression, the cost is zero and no tier is named. *)
Theorem evalExprLocally_outcome js_pow exprStr p c extra :
  let r := evalExprLocally js_pow exprStr p c extra in
  is_finite (eval_cost r) = true ∧ num_ltb (eval_cost r) zero = false ∧
  (eval_error r ≠ None ∨ trim exprStr = [] → eval_cost r = zero ∧ eval_matchedTier r = []).
Proof.
  unfold evalExprLocally. cbv zeta. destruct (_ || _) eqn:E; [done | ]. bools.
  assert (Ht : trim exprStr ≠ []) by (intros Ht; by rewrite Ht in *).
  pose proof (evaluateBillingExpression_good js_pow exprStr (estimatorEnv p c extra)) as Hg.
  destruct (evaluateBillingExpression _ _ _) as [r|e]; simpl in *.
  - split; [apply Hg | split; [apply Hg | intros [|]; done]].
  - done.
Qed.

Lemma evalExprLocally_outcome_witness :
  let r := evalExprLocally sample_pow (js "p +") (num_of_Z 10) zero (mkExtra None None None None None None None) in
  eval_cost r = zero ∧ eval_matchedTier r = [].
Proof.
  apply (evalExprLocally_outcome sample_pow (js "p +")). left. vm_compute. discriminate.
Defined.

(** an expression prefixed with its version [v1:] is evaluated as without it. *)
Theorem version_prefix_ignored js_pow s env :
  starts_with (js "v1:") s = false → 3 + length s ≤ MAX_EXPRESSION_LENGTH →
  evaluateBillingExpression js_pow (js "v1:" ++ s) env = evaluateBillingExpression js_pow s env.
Proof.
  intros Hs Hlen. unfold evaluateBillingExpression. rewrite starts_with_app, Hs.
  rewrite length_app. change (length (js "v1:")) with 3.
  rewrite !(proj2 (Nat.ltb_ge _ _)) by lia. reflexivity.
Qed.

Lemma version_prefix_ignored_witness :
  evaluateBillingExpression sample_pow (js "v1:" ++ js "p*2") sample_env =
  evaluateBillingExpression sample_pow (js "p*2") sample_env.
Proof.
  apply version_prefix_ignored; [vm_compute; reflexivity | ].
  apply Nat.leb_le; vm_compute; reflexivity.
Defined.

(** the parser recognises operators and brackets by the text of a token and not by
    its kind, so a string literal is taken for an operator: [1 '+' 2] is read as a sum,
    and a tier named [+], [-] or [!] cannot be written at all. *)
Theorem string_literals_taken_for_operators :
  (tokenize (js "1 '+' 2") ≫= parse)
  = Ok (Binary BAdd (Literal (VNumber (num_of_Z 1))) (Literal (VNumber (num_of_Z 2)))) ∧
  ∀ js_pow env,
    Forall (fun name => evaluateBillingExpression js_pow (js "tier('" ++ name ++ js "', 1)") env
                        = Err (EUnexpectedToken (js ",") 9))
      [js "+"; js "-"; js "!"].
Proof.
  split; [vm_compute; reflexivity | ]. intros js_pow env.
  repeat constructor; vm_compute; reflexivity.
Qed.
