(* ===== verification/Json.v ===== *)
(** * Values of the language that come from outside

    The bodies of responses, the messages of other tabs and the texts kept in the
    browser reach the program as values of type [unknown].  They are JSON values; a
    missing property ([undefined]) is [None].  An object is the list of its properties in
    enumeration order, with distinct names. *)

From stdpp Require Import base list numbers strings.
From S2P Require Import Prelude JsNumber.

Inductive json :=
| JNull
| JBool (b : bool)
| JNumber (n : number)
| JString (s : ustring)
| JArray (elements : list json)
| JObject (fields : list (ustring * json)).

Section json_induction.
  Context (P : json → Prop).
  Context (HNull : P JNull) (HBool : ∀ b, P (JBool b)) (HNumber : ∀ n, P (JNumber n))
    (HString : ∀ s, P (JString s))
    (HArray : ∀ l, Forall P l → P (JArray l))
    (HObject : ∀ l, Forall (fun f => P f.2) l → P (JObject l)).

Fixpoint json_induction (v : json) : P v :=
  match v with
  | JNull => HNull
  | JBool b => HBool b
  | JNumber n => HNumber n
  | JString s => HString s
  | JArray l =>
      HArray l ((fix go (l : list json) : Forall P l :=
                   match l with
                   | [] => List.Forall_nil _
                   | x :: l' => List.Forall_cons _ x _ (json_induction x) (go l')
                   end) l)
  | JObject l =>
      HObject l ((fix go (l : list (ustring * json)) : Forall (fun f => P f.2) l :=
                    match l with
                    | [] => List.Forall_nil _
                    | x :: l' => List.Forall_cons _ x _ (json_induction x.2) (go l')
                    end) l)
  end.
End json_induction.

#[export] Instance number_eq_dec : EqDecision number.
Proof. solve_decision. Defined.

(** The property of an object, [o.name] or [o\[name\]]. *)
Fixpoint field (fields : list (ustring * json)) (name : ustring) : option json :=
  match fields with
  | [] => None
  | (k, v) :: rest => if ustring_eqb k name then Some v else field rest name
  end.

(** [value.name] for a name no array and no prototype has. *)
Definition get (value : json) (name : ustring) : option json :=
  match value with JObject fields => field fields name | _ => None end.

(** [value.name] where [value] may be anything; [undefined] when there is none. *)
Definition prop (value : option json) (name : string) : option json :=
  v ← value; get v (js name).

(** [Boolean(value)]. *)
Definition truthy_json (value : option json) : bool :=
  match value with
  | None | Some JNull => false
  | Some (JBool b) => b
  | Some (JNumber n) => negb (num_eqb n zero || is_nan n)
  | Some (JString s) => truthy s
  | Some (JArray _) | Some (JObject _) => true
  end.

(** [a || b]. *)
Definition or_json (a : option json) (b : json) : json :=
  match a with Some v => if truthy_json a then v else b | None => b end.

(** [value?.\[0\]]. *)
Definition first_element (value : option json) : option json :=
  match value with
  | Some (JArray (v :: _)) => Some v
  | Some (JObject fields) => field fields (js "0")
  | Some (JString (c :: _)) => Some (JString [c])
  | _ => None
  end.

(** [value && typeof value === 'object'], the type test of the program's guards. *)
Definition isRecord (value : option json) : bool :=
  match value with Some (JArray _) | Some (JObject _) => true | _ => false end.

Definition isString (value : option json) : bool :=
  match value with Some (JString _) => true | _ => false end.

Definition isNumber (value : option json) : bool :=
  match value with Some (JNumber _) => true | _ => false end.

Definition isBoolean (value : option json) : bool :=
  match value with Some (JBool _) => true | _ => false end.

Definition asString (value : option json) : option ustring :=
  match value with Some (JString s) => Some s | _ => None end.

Definition asNumber (value : option json) : option number :=
  match value with Some (JNumber n) => Some n | _ => None end.

Definition asBoolean (value : option json) : option bool :=
  match value with Some (JBool b) => Some b | _ => None end.

(** [value === true]. *)
Definition isTrue (value : option json) : bool :=
  match value with Some (JBool true) => true | _ => false end.

(** [value === s] for a string [s]. *)
Definition isText (value : option json) (s : ustring) : bool :=
  match value with Some (JString t) => ustring_eqb t s | _ => false end.

(** [typeof value === 'string' && value.length > 0]. *)
Definition isNonEmptyString (value : option json) : bool :=
  match value with Some (JString (_ :: _)) => true | _ => false end.

(** [Number.isInteger] on a number. *)
Definition is_integer (x : number) : bool := is_finite x && num_eqb (num_floor x) x.

(** [Object.keys(value).length] of an object or an array. *)
Definition key_count (value : json) : nat :=
  match value with JObject fields => length fields | JArray l => length l | _ => 0 end.

Lemma field_in fields name v : field fields name = Some v → (name, v) ∈ fields.
Proof.
  induction fields as [|[k w] rest IH]; simpl; [done | ].
  destruct (ustring_eqb k name) eqn:E; intros H; bools; simplify_eq; [left | right; auto].
Qed.

Lemma isString_as v : isString v = true → ∃ s, v = Some (JString s).
Proof. destruct v as [[]|]; try done; eauto. Qed.

Lemma isNonEmptyString_as v : isNonEmptyString v = true → ∃ s, v = Some (JString s) ∧ s ≠ [].
Proof. destruct v as [[| | | [|] | |]|]; try done; eauto. Qed.

Lemma isNumber_as v : isNumber v = true → ∃ n, v = Some (JNumber n).
Proof. destruct v as [[]|]; try done; eauto. Qed.

Lemma isBoolean_as v : isBoolean v = true → ∃ b, v = Some (JBool b).
Proof. destruct v as [[]|]; try done; eauto. Qed.
