(* ===== verification/BrowserStorage.v ===== *)
(** * Local storage and the playground data kept in it

    [localStorage] is an ordered list of items with distinct keys.  The playground keeps
    its conversations under keys with a common prefix; [clearPlaygroundData]
    (features/playground/lib/storage/storage.ts) sweeps them.  The class [PlaygroundStore]
    is what the authentication session relies on, and [localStorage] implements it. *)

From stdpp Require Import base list numbers strings sets gmap.
From S2P Require Import Prelude.

Abbreviation localStorage := (list (ustring * ustring)).

(** [localStorage.getItem(key)]. *)
Fixpoint getItem (st : localStorage) (key : ustring) : option ustring :=
  match st with
  | [] => None
  | (k, v) :: rest => if ustring_eqb k key then Some v else getItem rest key
  end.

(** [localStorage.setItem(key, value)]: an existing item keeps its place. *)
Fixpoint setItem (st : localStorage) (key value : ustring) : localStorage :=
  match st with
  | [] => [(key, value)]
  | (k, v) :: rest =>
      if ustring_eqb k key then (k, value) :: rest else (k, v) :: setItem rest key value
  end.

(** [localStorage.removeItem(key)]. *)
Definition removeItem (st : localStorage) (key : ustring) : localStorage :=
  filter (fun item => item.1 ≠ key) st.

(** [localStorage.key(i)]. *)
Definition storage_key (st : localStorage) (i : nat) : option ustring := fst <$> st !! i.

Definition PLAYGROUND_STORAGE_KEY_PREFIX : ustring := js "playground_".

Definition CONFIG_KEY : ustring := js "playground_config".
Definition MESSAGES_KEY : ustring := js "playground_messages".
Definition PARAMETER_ENABLED_KEY : ustring := js "playground_parameter_enabled".

Definition playground_key (key : ustring) : bool := starts_with PLAYGROUND_STORAGE_KEY_PREFIX key.

(** The first loop of [clearPlaygroundData]: the keys from index [i] on, [n] rounds
    before the end of the storage. *)
Fixpoint collect_keys (st : localStorage) (n i : nat) : list ustring :=
  match n with
  | 0 => []
  | S n =>
      match storage_key st i with
      | Some key =>
          if truthy key && playground_key key then key :: collect_keys st n (S i)
          else collect_keys st n (S i)
      | None => collect_keys st n (S i)
      end
  end.

Definition clearPlaygroundData (st : localStorage) : localStorage :=
  fold_left removeItem (collect_keys st (length st) 0) st.

(** ** What the authentication session relies on *)

Class PlaygroundStore (S : Type) := {
  clear_playground : S → S;
  playground_items : S → list (ustring * ustring);
  other_items : S → list (ustring * ustring);
  clear_removes : ∀ s, playground_items (clear_playground s) = [];
  clear_keeps : ∀ s, other_items (clear_playground s) = other_items s;
}.

(** ** The sweep *)

Lemma collect_keys_spec st n i :
  collect_keys st n i
  = filter (fun key => truthy key && playground_key key = true)
      (fst <$> take n (drop i st)).
Proof.
  revert i; induction n as [|n IH]; intros i; simpl; [done | ].
  unfold storage_key. destruct (st !! i) as [item|] eqn:E; simpl.
  - rewrite (drop_S st item i E). simpl. rewrite IH.
    destruct (truthy item.1 && playground_key item.1) eqn:B;
      [by rewrite filter_cons_True | by rewrite filter_cons_False by congruence].
  - apply lookup_ge_None in E. rewrite IH, !drop_ge by lia. by rewrite !take_nil.
Qed.

Lemma fold_removeItem keys st :
  fold_left removeItem keys st = filter (fun item => item.1 ∉ keys) st.
Proof.
  revert st; induction keys as [|key keys IH]; intros st; simpl.
  - symmetry. apply filter_all. set_solver.
  - rewrite IH. unfold removeItem. rewrite list_filter_filter.
    apply list_filter_iff. intros item. set_solver.
Qed.

Lemma playground_key_truthy key : playground_key key = true → truthy key = true.
Proof. by destruct key. Qed.

Lemma clearPlaygroundData_filter st :
  clearPlaygroundData st = filter (fun item => playground_key item.1 = false) st.
Proof.
  unfold clearPlaygroundData. rewrite fold_removeItem, collect_keys_spec, drop_0, firstn_all.
  apply filter_ext_in. intros item Hin.
  rewrite list_elem_of_filter, list_elem_of_fmap. split.
  - intros Hn. destruct (playground_key item.1) eqn:E; [ | done]. exfalso. apply Hn.
    rewrite (playground_key_truthy _ E). eauto.
  - intros E [Hk _]. rewrite E, andb_false_r in Hk. discriminate.
Qed.

Definition items_with (b : bool) (st : localStorage) : localStorage :=
  filter (fun item => playground_key item.1 = b) st.

#[export] Instance localStorage_playground : PlaygroundStore localStorage.
Proof.
  refine {| clear_playground := clearPlaygroundData;
            playground_items := items_with true;
            other_items := items_with false |};
    intros st; rewrite clearPlaygroundData_filter; unfold items_with;
    rewrite list_filter_filter.
  - apply filter_none. intros item _ [H1 H2]. congruence.
  - apply list_filter_iff. tauto.
Defined.

Lemma getItem_setItem st key value : getItem (setItem st key value) key = Some value.
Proof.
  induction st as [|[k v] st IH]; simpl.
  - unfold ustring_eqb. by rewrite bool_decide_true.
  - destruct (ustring_eqb k key) eqn:E; simpl; by rewrite E.
Qed.

Lemma getItem_setItem_ne st key key' value :
  key ≠ key' → getItem (setItem st key value) key' = getItem st key'.
Proof.
  intros Hne. induction st as [|[k v] st IH]; simpl.
  - unfold ustring_eqb. by rewrite bool_decide_false.
  - destruct (ustring_eqb k key) eqn:E; simpl.
    + bools; subst. unfold ustring_eqb. by rewrite bool_decide_false.
    + by rewrite IH.
Qed.
