(* ===== verification/AuthStore.v ===== *)
(** * The authentication store and its type guards

    The credentials a browser tab holds (stores/auth-store.ts) and the guards that decide
    whether a value received from the server is a session bundle or a token rotation
    (lib/auth-session.ts).  A guard is a predicate on a JSON value; [as_...] reads the
    fields of a value that a guard has accepted. *)

From stdpp Require Import base list numbers strings option.
From S2P Require Import Prelude JsNumber Json.

(** The fields of a user the session code reads; the others are kept with the value. *)
Record AuthUser := mkUser {
  user_id : number;
  username : ustring;
  role : number;
  user_value : json;
}.

Record LoginSession := mkSession {
  sid : ustring;
  is_current : bool;
  login_method : ustring;
  ip : ustring;
  user_agent : ustring;
  created_at : number;
  last_active_at : number;
  expires_at : number;
}.

Record AuthBundle := mkBundle {
  access_token : ustring;
  token_type : ustring;
  access_expires_at : number;
  bundle_user : AuthUser;
  bundle_session : LoginSession;
}.

Record AuthTokenRotation := mkRotation {
  rot_access_token : ustring;
  rot_token_type : ustring;
  rot_access_expires_at : number;
  rot_session : LoginSession;
}.

Inductive AuthBootstrapState := Idle | Checking | Complete.

Record AuthState := mkAuth {
  user : option AuthUser;
  accessToken : option ustring;
  accessExpiresAt : option number;
  session : option LoginSession;
  pending2FAFlowToken : option ustring;
  bootstrapState : AuthBootstrapState;
}.

Definition initial_auth : AuthState := mkAuth None None None None None Idle.

(** ** The actions of the store *)

Definition setBundle (bundle : AuthBundle) (auth : AuthState) : AuthState :=
  mkAuth (Some (bundle_user bundle)) (Some (access_token bundle))
    (Some (access_expires_at bundle)) (Some (bundle_session bundle)) None Complete.

Definition setUser (u : option AuthUser) (auth : AuthState) : AuthState :=
  mkAuth u (accessToken auth) (accessExpiresAt auth) (session auth)
    (pending2FAFlowToken auth) (bootstrapState auth).

Definition setPending2FAFlowToken (flowToken : option ustring) (auth : AuthState) : AuthState :=
  mkAuth (user auth) (accessToken auth) (accessExpiresAt auth) (session auth)
    flowToken (bootstrapState auth).

Definition setBootstrapState (b : AuthBootstrapState) (auth : AuthState) : AuthState :=
  mkAuth (user auth) (accessToken auth) (accessExpiresAt auth) (session auth)
    (pending2FAFlowToken auth) b.

Definition reset (b : AuthBootstrapState) (auth : AuthState) : AuthState :=
  mkAuth None None None None None b.

(** [useAuthStore.getState().auth.session?.sid]. *)
Definition session_sid (auth : AuthState) : option ustring := sid <$> session auth.

(** ** Guards *)

Definition isPositiveInteger (value : option json) : bool :=
  match value with Some (JNumber n) => is_integer n && num_ltb zero n | _ => false end.

Definition isAuthUser (value : option json) : bool :=
  isRecord value &&
  (isPositiveInteger (prop value "id") && isString (prop value "username") &&
   isNumber (prop value "role")).

Definition isLoginSession (value : option json) : bool :=
  isRecord value &&
  (isNonEmptyString (prop value "sid") && isBoolean (prop value "current") &&
   isString (prop value "login_method") && isString (prop value "ip") &&
   isString (prop value "user_agent") && isNumber (prop value "created_at") &&
   isNumber (prop value "last_active_at") && isNumber (prop value "expires_at")).

Definition isPositiveFinite (value : option json) : bool :=
  match value with Some (JNumber n) => is_finite n && num_ltb zero n | _ => false end.

Definition hasValidTokenFields (value : option json) : bool :=
  isNonEmptyString (prop value "access_token") && isNonEmptyString (prop value "token_type") &&
  isPositiveFinite (prop value "access_expires_at").

Definition isAuthBundle (value : option json) : bool :=
  isRecord value &&
  (hasValidTokenFields value && isAuthUser (prop value "user") &&
   isLoginSession (prop value "session")).

Definition isAuthTokenRotation (value : option json) : bool :=
  isRecord value && hasValidTokenFields value && isText (prop value "token_type") (js "Bearer") &&
  isLoginSession (prop value "session") && isTrue (prop (prop value "session") "current").

(** ** Reading a value a guard has accepted *)

Definition as_user (value : option json) : option AuthUser :=
  v ← value; i ← asNumber (prop value "id"); n ← asString (prop value "username");
  r ← asNumber (prop value "role"); Some (mkUser i n r v).

Definition as_session (value : option json) : option LoginSession :=
  s ← asString (prop value "sid"); c ← asBoolean (prop value "current");
  m ← asString (prop value "login_method"); a ← asString (prop value "ip");
  u ← asString (prop value "user_agent"); t1 ← asNumber (prop value "created_at");
  t2 ← asNumber (prop value "last_active_at"); t3 ← asNumber (prop value "expires_at");
  Some (mkSession s c m a u t1 t2 t3).

Definition as_bundle (value : option json) : option AuthBundle :=
  t ← asString (prop value "access_token"); k ← asString (prop value "token_type");
  e ← asNumber (prop value "access_expires_at"); u ← as_user (prop value "user");
  s ← as_session (prop value "session"); Some (mkBundle t k e u s).

Definition as_rotation (value : option json) : option AuthTokenRotation :=
  t ← asString (prop value "access_token"); k ← asString (prop value "token_type");
  e ← asNumber (prop value "access_expires_at"); s ← as_session (prop value "session");
  Some (mkRotation t k e s).

(** [parseBundle] of the refresh runtime. *)
Definition parseBundle (value : option json) : option AuthBundle :=
  if isAuthBundle value then as_bundle value else None.

(** ** What a guard promises *)

Definition valid_user (u : AuthUser) : Prop :=
  is_integer (user_id u) = true ∧ num_ltb zero (user_id u) = true.

Definition valid_session (s : LoginSession) : Prop := sid s ≠ [].

Definition valid_bundle (b : AuthBundle) : Prop :=
  access_token b ≠ [] ∧ token_type b ≠ [] ∧
  is_finite (access_expires_at b) = true ∧ num_ltb zero (access_expires_at b) = true ∧
  valid_user (bundle_user b) ∧ valid_session (bundle_session b).

Lemma isPositiveInteger_as v :
  isPositiveInteger v = true →
  ∃ n, v = Some (JNumber n) ∧ is_integer n = true ∧ num_ltb zero n = true.
Proof. destruct v as [[]|]; try done. intros H. simpl in H. bools. eauto. Qed.

Lemma isPositiveFinite_as v :
  isPositiveFinite v = true →
  ∃ n, v = Some (JNumber n) ∧ is_finite n = true ∧ num_ltb zero n = true.
Proof. destruct v as [[]|]; try done. intros H. simpl in H. bools. eauto. Qed.

(** Turns the tests a guard has passed into the fields they found. *)
Ltac read_fields :=
  repeat match goal with
  | H : isString _ = true |- _ => apply isString_as in H as (? & H)
  | H : isNonEmptyString _ = true |- _ => apply isNonEmptyString_as in H as (? & H & ?)
  | H : isNumber _ = true |- _ => apply isNumber_as in H as (? & H)
  | H : isBoolean _ = true |- _ => apply isBoolean_as in H as (? & H)
  | H : isPositiveInteger _ = true |- _ => apply isPositiveInteger_as in H as (? & H & ? & ?)
  | H : isPositiveFinite _ = true |- _ => apply isPositiveFinite_as in H as (? & H & ? & ?)
  end.

Lemma isAuthUser_reads value :
  isAuthUser value = true → ∃ u, as_user value = Some u ∧ valid_user u.
Proof.
  unfold isAuthUser. intros H. bools. read_fields.
  destruct value as [v|]; [ | done]. unfold as_user. cbn [mbind option_bind].
  repeat match goal with E : prop _ _ = _ |- _ => rewrite E end. simpl.
  eexists. split; [reflexivity | done].
Qed.

Lemma isLoginSession_reads value :
  isLoginSession value = true → ∃ s, as_session value = Some s ∧ valid_session s.
Proof.
  unfold isLoginSession. intros H. bools. read_fields. unfold as_session.
  repeat match goal with E : prop _ _ = _ |- _ => rewrite E; clear E end. simpl.
  eexists. split; [reflexivity | done].
Qed.

Lemma hasValidTokenFields_reads value :
  hasValidTokenFields value = true →
  ∃ t k e, asString (prop value "access_token") = Some t ∧
           asString (prop value "token_type") = Some k ∧
           asNumber (prop value "access_expires_at") = Some e ∧
           t ≠ [] ∧ k ≠ [] ∧ is_finite e = true ∧ num_ltb zero e = true.
Proof.
  unfold hasValidTokenFields. intros H. bools. read_fields.
  repeat match goal with E : prop _ _ = _ |- _ => rewrite E; clear E end. simpl. eauto 12.
Qed.

Lemma isAuthBundle_reads value :
  isAuthBundle value = true → ∃ b, as_bundle value = Some b ∧ valid_bundle b.
Proof.
  unfold isAuthBundle. intros H. bools.
  match goal with H : hasValidTokenFields _ = true |- _ =>
    apply hasValidTokenFields_reads in H as (t & k & e & Ht & Hk & He & ? & ? & ? & ?) end.
  match goal with H : isAuthUser _ = true |- _ => apply isAuthUser_reads in H as (u & Hu & ?) end.
  match goal with H : isLoginSession _ = true |- _ =>
    apply isLoginSession_reads in H as (s & Hs & ?) end.
  unfold as_bundle. rewrite Ht, Hk, He, Hu, Hs. simpl. unfold valid_bundle. eauto 10.
Qed.

Lemma isAuthTokenRotation_reads value :
  isAuthTokenRotation value = true →
  ∃ r, as_rotation value = Some r ∧ rot_access_token r ≠ [] ∧ rot_token_type r = js "Bearer" ∧
       is_finite (rot_access_expires_at r) = true ∧ num_ltb zero (rot_access_expires_at r) = true ∧
       valid_session (rot_session r).
Proof.
  unfold isAuthTokenRotation. intros H. bools.
  match goal with H : hasValidTokenFields _ = true |- _ =>
    apply hasValidTokenFields_reads in H as (t & k & e & Ht & Hk & He & ? & ? & ? & ?) end.
  match goal with H : isLoginSession _ = true |- _ =>
    apply isLoginSession_reads in H as (s & Hs & ?) end.
  assert (k = js "Bearer") as ->.
  { destruct (prop value "token_type") as [[]|]; simpl in *; bools; by simplify_eq. }
  unfold as_rotation. rewrite Ht, Hk, He, Hs. simpl. eexists. split; [reflexivity | ]. simpl. auto.
Qed.

Lemma parseBundle_valid value b : parseBundle value = Some b → valid_bundle b.
Proof.
  unfold parseBundle. destruct (isAuthBundle value) eqn:E; [ | done].
  apply isAuthBundle_reads in E as (b' & -> & Hb). by intros [= ->].
Qed.
