(* ===== verification/AuthSession.v ===== *)
(** * The authentication session of a browser tab

    The state machine of lib/auth-session.ts: the credentials of the store, the epoch that
    every change of session advances, the single refresh in flight, and the events other
    code and other tabs cause between two awaits of the refresh.  The playground data is
    reached through [PlaygroundStore].  A call that awaits is split at its awaits: [run],
    [receive] and [resume] are the pieces of the runner of [createRefreshRunner], and
    [step] is the piece of code one event runs. *)

From stdpp Require Import base list numbers strings option.
From S2P Require Import Prelude JsNumber Json BrowserStorage AuthStore.

Inductive sync_kind := Authenticated | SignedOut.

#[export] Instance sync_kind_eq_dec : EqDecision sync_kind.
Proof. solve_decision. Defined.

(** ** The refresh *)

(** [AuthRefreshHTTPResponse]; the error value of a failed request is not inspected. *)
Record response := mkResponse {
  status : Z;
  data : option json;
}.

Inductive transient_cause :=
| AuthRefreshSupersededError
| AbortedWait
| LockRejected
| FailedResponse (r : response).

Inductive RefreshOutcome :=
| OAuthenticated (bundle : AuthBundle)
| OAnonymous
| OTransientError (error : transient_cause)
| OOutOfSync (code : option ustring).

(** Where the promise of a refresh stands: waiting for the browser lock, for the response
    to a request, for the delay before the next attempt, or settled. *)
Inductive phase :=
| AwaitingLock
| Requesting (raceAttempt : nat) (allowMismatchRetry : bool)
| Waiting (raceAttempt : nat) (allowMismatchRetry : bool)
| Settled (outcome : RefreshOutcome).

(** One call of [performRefreshWithBrowserLock]; [sent] lists the expected session of
    each request made. *)
Record refresh := mkRefresh {
  refreshEpoch : nat;
  aborted : bool;
  job_phase : phase;
  sent : list (option ustring);
}.

Definition in_phase (p : phase) (j : refresh) : refresh :=
  mkRefresh (refreshEpoch j) (aborted j) p (sent j).

Definition refreshRaceDelays : list Z := [80; 200; 500]%Z.

Section session.
Context {S : Type} `{PlaygroundStore S}.

(** ** The tab *)

(** The playground page while it is mounted (usePlaygroundState): the account signed in when it was
    mounted, the accounts whose writes its settings and messages in memory hold, whether the
    stored messages have been read, and the save that its timer will make. *)
Record Page := mkPage {
  openedBy : option number;
  pageAuthors : list number;
  hasLoadedMessages : bool;
  saveTimer : option (S → S);
}.

(** [authors] lists the users whose writes the playground data still holds; [edits] the users
    that the profile saves under way took from the store when they began. *)
Record Tab := mkTab {
  auth : AuthState;
  authEpoch : nat;
  playground : S;
  authors : list number;
  published : list (sync_kind * ustring);
  refreshPromise : option refresh;
  edits : list AuthUser;
  page : option Page;
}.

Definition with_auth (f : AuthState → AuthState) (t : Tab) : Tab :=
  mkTab (f (auth t)) (authEpoch t) (playground t) (authors t) (published t) (refreshPromise t)
    (edits t) (page t).

Definition advance_epoch (t : Tab) : Tab :=
  mkTab (auth t) (Datatypes.S (authEpoch t)) (playground t) (authors t) (published t)
    (refreshPromise t) (edits t) (page t).

Definition clear_data (t : Tab) : Tab :=
  mkTab (auth t) (authEpoch t) (clear_playground (playground t)) [] (published t)
    (refreshPromise t) (edits t) (page t).

Definition with_refresh (r : option refresh) (t : Tab) : Tab :=
  mkTab (auth t) (authEpoch t) (playground t) (authors t) (published t) r (edits t) (page t).

Definition with_edits (l : list AuthUser) (t : Tab) : Tab :=
  mkTab (auth t) (authEpoch t) (playground t) (authors t) (published t) (refreshPromise t) l (page t).

Definition with_page (p : option Page) (t : Tab) : Tab :=
  mkTab (auth t) (authEpoch t) (playground t) (authors t) (published t) (refreshPromise t) (edits t) p.

Definition publishAuthSessionEvent (kind : sync_kind) (s : ustring) (t : Tab) : Tab :=
  if truthy s then
    mkTab (auth t) (authEpoch t) (playground t) (authors t) (published t ++ [(kind, s)])
      (refreshPromise t) (edits t) (page t)
  else t.

Definition applyAuthBundle (bundle : AuthBundle) (synchronizeTabs : bool) (t : Tab) : Tab :=
  let previousSID := session_sid (auth t) in
  let previousUserId := user_id <$> user (auth t) in
  let t := advance_epoch t in
  let t :=
    match previousUserId with
    | Some i => if num_eqb i (user_id (bundle_user bundle)) then t else clear_data t
    | None => t
    end in
  let t := with_auth (setBundle bundle) t in
  if synchronizeTabs && negb (bool_decide (previousSID = Some (sid (bundle_session bundle))))
  then publishAuthSessionEvent Authenticated (sid (bundle_session bundle)) t
  else t.

Definition clearAuthentication (synchronizeTabs : bool) (b : AuthBootstrapState) (t : Tab) : Tab :=
  let previous := session_sid (auth t) in
  let t := clear_data (with_auth (reset b) (advance_epoch t)) in
  match previous with
  | Some s => if synchronizeTabs then publishAuthSessionEvent SignedOut s t else t
  | None => t
  end.

Inductive AuthRotationError :=
| InvalidRotationResponse
| NoActiveSession
| SessionMismatch.

Definition applyAuthRotation (value : option json) (t : Tab) : result AuthRotationError Tab :=
  if isRecord value && (from_option key_count 0 value =? 1) &&
     isTrue (prop value "reauthentication_required")
  then Ok (clearAuthentication true Complete t)
  else
    match (if isAuthTokenRotation value then as_rotation value else None) with
    | None => Err InvalidRotationResponse
    | Some r =>
        match user (auth t), session (auth t) with
        | Some u, Some s =>
            if ustring_eqb (sid (rot_session r)) (sid s) then
              Ok (applyAuthBundle
                    (mkBundle (rot_access_token r) (rot_token_type r) (rot_access_expires_at r) u
                       (rot_session r)) false t)
            else Err SessionMismatch
        | _, _ => Err NoActiveSession
        end
    end.

(** ** The refresh runner *)

(** The runtime's [clear] as [runRefresh] provides it. *)
Definition runtime_clear (synchronizeTabs : bool) (b : AuthBootstrapState) (t : Tab) : Tab :=
  match synchronizeTabs, b with
  | false, Idle => with_auth (reset Idle) t
  | _, _ => clearAuthentication synchronizeTabs b t
  end.

Definition markTransient (t : Tab) : Tab := with_auth (setBootstrapState Idle) t.

Definition isCurrent (t : Tab) (j : refresh) : bool := authEpoch t =? refreshEpoch j.

Definition settle (o : RefreshOutcome) (j : refresh) : refresh := in_phase (Settled o) j.

(** [run] up to its request. *)
Definition run (t : Tab) (j : refresh) (raceAttempt : nat) (allowMismatchRetry : bool)
    : Tab * refresh :=
  if isCurrent t j then
    (t, mkRefresh (refreshEpoch j) (aborted j) (Requesting raceAttempt allowMismatchRetry)
          (sent j ++ [session_sid (auth t)]))
  else (t, settle (OTransientError AuthRefreshSupersededError) j).

(** [run] from the response on. *)
Definition receive (t : Tab) (j : refresh) (raceAttempt : nat) (allowMismatchRetry : bool)
    (r : response) : Tab * refresh :=
  if negb (isCurrent t j) then (t, settle (OTransientError AuthRefreshSupersededError) j)
  else
    let responseData := if isRecord (data r) then data r else None in
    let code := asString (prop responseData "code") in
    let accepted := if isTrue (prop responseData "success")
                    then parseBundle (prop responseData "data") else None in
    match accepted with
    | Some bundle => (applyAuthBundle bundle false t, settle (OAuthenticated bundle) j)
    | None =>
        if (status r =? 409)%Z && bool_decide (code = Some (js "AUTH_REFRESH_RACE")) then
          match refreshRaceDelays !! raceAttempt with
          | Some _ =>
              if aborted j then (markTransient t, settle (OTransientError AbortedWait) j)
              else (t, in_phase (Waiting raceAttempt allowMismatchRetry) j)
          | None => (runtime_clear false Complete t, settle (OOutOfSync code) j)
          end
        else if (status r =? 409)%Z && bool_decide (code = Some (js "AUTH_SESSION_MISMATCH")) then
          if allowMismatchRetry then run (runtime_clear false Idle t) j 0 false
          else (runtime_clear false Complete t, settle (OOutOfSync code) j)
        else if (status r =? 401)%Z then (runtime_clear true Complete t, settle OAnonymous j)
        else if (status r =? 0)%Z || (500 <=? status r)%Z || (status r =? 429)%Z then
          (markTransient t, settle (OTransientError (FailedResponse r)) j)
        else
          (runtime_clear false Complete t,
           settle (OOutOfSync (Some (default (js "AUTH_INVALID_REFRESH_RESPONSE") code))) j)
    end.

(** The end of the delay before the next attempt. *)
Definition resume (t : Tab) (j : refresh) (raceAttempt : nat) (allowMismatchRetry : bool)
    : Tab * refresh :=
  run t j (Datatypes.S raceAttempt) allowMismatchRetry.

(** The deadline of [performRefreshWithBrowserLock] fires: a pending lock request or a
    pending delay rejects, and a pending request will fail with status 0. *)
Definition abort (t : Tab) (j : refresh) : Tab * refresh :=
  let j := mkRefresh (refreshEpoch j) true (job_phase j) (sent j) in
  match job_phase j with
  | AwaitingLock => (markTransient t, settle (OTransientError LockRejected) j)
  | Waiting _ _ => (markTransient t, settle (OTransientError AbortedWait) j)
  | Requesting _ _ | Settled _ => (t, j)
  end.

(** The start of [performRefreshWithBrowserLock]: without browser locks the runner starts
    at once. *)
Definition start_refresh (has_locks : bool) (t : Tab) : Tab * refresh :=
  let j := mkRefresh (authEpoch t) false AwaitingLock [] in
  if has_locks then (t, j) else run t j 0 true.

Definition refreshAuthentication (has_locks : bool) (t : Tab) : Tab :=
  match refreshPromise t with
  | Some _ => t
  | None => let '(t, j) := start_refresh has_locks t in with_refresh (Some j) t
  end.

(** ** Reading the credentials *)

(** [Math.floor(Date.now() / 1000)] for a time in milliseconds. *)
Definition seconds (now : Z) : number := num_floor (num_div (num_of_Z now) (num_of_Z 1000)).

(** JavaScript truthiness of [string | null] and [number | null]. *)
Definition truthy_text (s : option ustring) : option ustring :=
  t ← s; if truthy t then Some t else None.

Definition truthy_number (x : option number) : option number :=
  n ← x; if num_eqb n zero || is_nan n then None else Some n.

Definition currentValidAuthBundle (now : Z) (t : Tab) : option AuthBundle :=
  u ← user (auth t); token ← truthy_text (accessToken (auth t));
  e ← truthy_number (accessExpiresAt (auth t)); s ← session (auth t);
  if num_leb e (seconds now) then None else Some (mkBundle token (js "Bearer") e u s).

(** [bootstrapAuthentication] up to its await: the outcome it returns at once, or [None]
    when it awaits the refresh. *)
Definition bootstrapAuthentication (has_locks : bool) (now : Z) (t : Tab)
    : Tab * option RefreshOutcome :=
  match currentValidAuthBundle now t with
  | Some bundle => (with_auth (setBootstrapState Complete) t, Some (OAuthenticated bundle))
  | None =>
      let hasStaleSession := bool_decide (is_Some (user (auth t)) ∧ is_Some (session (auth t))) in
      match bootstrapState (auth t), hasStaleSession with
      | Complete, false => (t, Some OAnonymous)
      | _, _ => (refreshAuthentication has_locks (with_auth (setBootstrapState Checking) t), None)
      end
  end.

(** [getCommonHeaders]: the value of the Authorization header. *)
Definition getCommonHeaders (t : Tab) : list (ustring * ustring) :=
  (js "Content-Type", js "application/json") ::
  match truthy_text (accessToken (auth t)) with
  | Some token => [(js "Authorization", js "Bearer " ++ token)]
  | None => []
  end.

Definition expires_after (limit : number) (t : Tab) : bool :=
  match truthy_text (accessToken (auth t)), truthy_number (accessExpiresAt (auth t)) with
  | Some _, Some e => num_ltb limit e
  | _, _ => false
  end.

(** [getFreshAuthHeaders] before its await: the headers at once, or [None] when it awaits
    a refresh. *)
Definition getFreshAuthHeaders_start (now : Z) (t : Tab) : option (list (ustring * ustring)) :=
  if expires_after (num_add (seconds now) (num_of_Z 60)) t then Some (getCommonHeaders t) else None.

Inductive headers_error := RequestFailed (cause : transient_cause) | SessionExpired.

(** [getFreshAuthHeaders] after its await. *)
Definition getFreshAuthHeaders_finish (now : Z) (t : Tab) (outcome : RefreshOutcome)
    : result headers_error (list (ustring * ustring)) :=
  match outcome with
  | OAuthenticated _ => Ok (getCommonHeaders t)
  | _ =>
      if expires_after (seconds now) t then Ok (getCommonHeaders t)
      else match outcome with
           | OTransientError cause => Err (RequestFailed cause)
           | _ => Err SessionExpired
           end
  end.

(** ** Profile saves *)

(** [handleSave] of the sidebar card and [handleLanguageChange] of the language card up to the
    await: the user of the store is taken as it is then. *)
Definition begin_profile_save (t : Tab) : Tab :=
  match user (auth t) with
  | Some u => with_edits (edits t ++ [u]) t
  | None => t
  end.

(** The same handlers after the await: a save that succeeded puts the user it took, with the
    changed field, into the store, whatever the store holds by then. *)
Definition end_profile_save (n : nat) (change : option (json → json)) (t : Tab) : Tab :=
  match edits t !! n with
  | Some u =>
      let t := with_edits (take n (edits t) ++ drop (Datatypes.S n) (edits t)) t in
      match change with
      | Some f => with_auth (setUser (Some (mkUser (user_id u) (username u) (role u) (f (user_value u))))) t
      | None => t
      end
  | None => t
  end.

(** ** The playground page *)

Definition current_account (t : Tab) : option number := user_id <$> user (auth t).

Definition mount_playground (t : Tab) : Tab :=
  match page t with
  | Some _ => t
  | None => with_page (Some (mkPage (current_account t) (authors t) false None)) t
  end.

(** The effect that reads the stored messages, after its timer.  Reading writes them again,
    repaired and shortened by [f], also where the page has been left meanwhile. *)
Definition load_messages (f : S → S) (t : Tab) : Tab :=
  let t := mkTab (auth t) (authEpoch t) (f (playground t)) (authors t) (published t) (refreshPromise t)
             (edits t) (page t) in
  match page t with
  | Some p => with_page (Some (mkPage (openedBy p) (authors t ++ pageAuthors p) true (saveTimer p))) t
  | None => t
  end.

(** [f] saves messages or settings that the page holds in memory. *)
Definition write_page (f : S → S) (p : Page) (t : Tab) : Tab :=
  mkTab (auth t) (authEpoch t) (f (playground t)) (pageAuthors p ++ authors t) (published t)
    (refreshPromise t) (edits t) (page t).

(** [updateMessages] with [persistMessages]: the save waits for its timer, and not before the
    stored messages have been read. *)
Definition update_messages (f : S → S) (t : Tab) : Tab :=
  match page t with
  | Some p =>
      with_page (Some (mkPage (openedBy p) (option_list (current_account t) ++ pageAuthors p) (hasLoadedMessages p)
                         (if hasLoadedMessages p then Some f else saveTimer p))) t
  | None => t
  end.

(** [updateConfig], [updateParameterEnabled] and [resetConfig]: saved at once. *)
Definition update_config (f : S → S) (t : Tab) : Tab :=
  match page t with
  | Some p =>
      let p := mkPage (openedBy p) (option_list (current_account t) ++ pageAuthors p) (hasLoadedMessages p) (saveTimer p) in
      with_page (Some p) (write_page f p t)
  | None => t
  end.

(** The timer of [persistMessages]. *)
Definition save_timer_fires (t : Tab) : Tab :=
  match page t with
  | Some p =>
      match saveTimer p with
      | Some f => with_page (Some (mkPage (openedBy p) (pageAuthors p) (hasLoadedMessages p) None)) (write_page f p t)
      | None => t
      end
  | None => t
  end.

(** Leaving the page makes the save that is waiting; neither this nor the timer asks who is
    signed in. *)
Definition unmount_playground (t : Tab) : Tab :=
  match page t with
  | Some p => with_page None (match saveTimer p with Some f => write_page f p t | None => t end)
  | None => t
  end.

(** ** Events *)

(** The listener of the root route for an event of another tab.  A reload starts the tab
    anew with the same local storage. *)
Definition reload (t : Tab) : Tab :=
  mkTab initial_auth 0 (playground t) (authors t) (published t) None [] None.

Definition onRemoteEvent (kind : sync_kind) (s : ustring) (t : Tab) : Tab :=
  let currentSID := session_sid (auth t) in
  match kind with
  | Authenticated =>
      if bool_decide (Some s = currentSID) then t
      else
        reload (match currentSID with
                | Some c => if truthy c then clearAuthentication false Complete t else t
                | None => t
                end)
  | SignedOut =>
      match currentSID with
      | Some c => if truthy c && ustring_eqb s c then clearAuthentication false Complete t else t
      | None => t
      end
  end.

Inductive event :=
| SignIn (bundle : AuthBundle)
| Rotate (value : option json)
| SignOut
| ExpireSession
| Remote (kind : sync_kind) (s : ustring)
| BeginProfileSave
| EndProfileSave (n : nat) (change : option (json → json))
| BeginTwoFA (flowToken : ustring)
| MountPlayground
| LoadMessages (f : S → S)
| UpdateMessages (f : S → S)
| UpdateConfig (f : S → S)
| SaveTimer
| UnmountPlayground
| Bootstrap (now : Z)
| Refresh
| LockGranted
| LockFailed
| Respond (r : response)
| DelayOver
| Deadline
| Finally.

(** Lets the refresh in flight take a step. *)
Definition with_job (f : Tab → refresh → Tab * refresh) (t : Tab) : Tab :=
  match refreshPromise t with
  | Some j => let '(t', j') := f t j in with_refresh (Some j') t'
  | None => t
  end.

Section steps.
Context (has_locks : bool).

Definition step (t : Tab) (e : event) : Tab :=
  match e with
  | SignIn bundle => applyAuthBundle bundle true t
  | Rotate value => match applyAuthRotation value t with Ok t' => t' | Err _ => t end
  | SignOut => clearAuthentication true Complete t
  | ExpireSession => clearAuthentication false Complete t
  | Remote kind s => onRemoteEvent kind s t
  | BeginProfileSave => begin_profile_save t
  | EndProfileSave n change => end_profile_save n change t
  | BeginTwoFA flowToken => with_auth (setPending2FAFlowToken (Some flowToken)) t
  | MountPlayground => mount_playground t
  | LoadMessages f => load_messages f t
  | UpdateMessages f => update_messages f t
  | UpdateConfig f => update_config f t
  | SaveTimer => save_timer_fires t
  | UnmountPlayground => unmount_playground t
  | Bootstrap now => fst (bootstrapAuthentication has_locks now t)
  | Refresh => refreshAuthentication has_locks t
  | LockGranted =>
      with_job (fun t j => match job_phase j with AwaitingLock => run t j 0 true | _ => (t, j) end) t
  | LockFailed =>
      with_job (fun t j => match job_phase j with
                           | AwaitingLock => (markTransient t, settle (OTransientError LockRejected) j)
                           | _ => (t, j) end) t
  | Respond r =>
      with_job (fun t j => match job_phase j with
                           | Requesting a allow => receive t j a allow r
                           | _ => (t, j) end) t
  | DelayOver =>
      with_job (fun t j => match job_phase j with
                           | Waiting a allow => resume t j a allow
                           | _ => (t, j) end) t
  | Deadline => with_job abort t
  | Finally =>
      match refreshPromise t with
      | Some j => match job_phase j with Settled _ => with_refresh None t | _ => t end
      | None => t
      end
  end.

Definition steps (t : Tab) (es : list event) : Tab := fold_left step es t.
End steps.
End session.

Arguments Tab S : clear implicits.
Arguments Page S : clear implicits.
Arguments event S : clear implicits.
