(* ===== verification/AuthSafety.v ===== *)
(** * Safety of the authentication session

    Invariants of the tab over every sequence of events, the end of every refresh, and the
    isolation of one account's playground data from the next account. *)

From stdpp Require Import base numbers strings option sets list.
From Stdlib Require Import Lia SpecFloat.
From S2P Require Import Prelude JsNumber Json BrowserStorage AuthStore AuthSession.

(** ** Account numbers *)

(** Positive numbers are equal as soon as [===] says so. *)
Lemma num_eqb_pos x y : num_ltb zero x = true → num_eqb x y = true → x = y.
Proof.
  unfold num_ltb, num_eqb, SFltb, SFeqb.
  destruct x as [|[]| |[] m e], y as [|[]| |[] m' e']; simpl; try done.
  intros _. destruct (Z.compare e e') eqn:Ee; try done.
  destruct (Pos.compare_cont Eq m m') eqn:Em; try done.
  apply Z.compare_eq in Ee. apply Pos.compare_eq in Em. congruence.
Qed.

Lemma valid_id_refl u : valid_user u → num_eqb (user_id u) (user_id u) = true.
Proof. intros [Hi _]. apply num_eqb_refl. unfold is_integer in Hi. by bools. Qed.

Section safety.
Context {S : Type} `{PlaygroundStore S} (has_locks : bool).
Abbreviation tab := (Tab S).

(** A tab as the page creates it, over the local storage it finds. *)
Definition fresh_tab (st : S) : tab := mkTab initial_auth 0 st [] [] None [] None.

(** ** The credentials *)

(** Signed in with a usable token, or signed out with nothing left. *)
Definition session_ok (a : AuthState) : Prop :=
  match user a, accessToken a, accessExpiresAt a, session a with
  | Some u, Some token, Some e, Some s =>
      valid_user u ∧ token ≠ [] ∧ is_finite e = true ∧ num_ltb zero e = true ∧ valid_session s
  | None, None, None, None => True
  | _, _, _, _ => False
  end.

(** Token, expiry and session all there and usable, with a user, or all gone; the user may be
    left. *)
Definition credentials_ok (a : AuthState) : Prop :=
  (∀ u, user a = Some u → valid_user u) ∧
  match accessToken a, accessExpiresAt a, session a with
  | Some token, Some e, Some s =>
      is_Some (user a) ∧ token ≠ [] ∧ is_finite e = true ∧ num_ltb zero e = true ∧ valid_session s
  | None, None, None => True
  | _, _, _ => False
  end.

Lemma session_ok_iff a : session_ok a ↔ credentials_ok a ∧ (session a = None → user a = None).
Proof.
  unfold session_ok, credentials_ok, is_Some.
  destruct (user a), (accessToken a), (accessExpiresAt a), (session a); naive_solver.
Qed.

(** The callers of [applyAuthBundle] pass bundles of the server's type. *)
Definition event_ok (e : event S) : Prop :=
  match e with SignIn b => valid_bundle b | _ => True end.

Lemma session_ok_setBundle b a : valid_bundle b → session_ok (setBundle b a).
Proof. intros (? & ? & ? & ? & ? & ?). done. Qed.

Lemma publish_auth k s (t : tab) : auth (publishAuthSessionEvent k s t) = auth t.
Proof. unfold publishAuthSessionEvent. by destruct (truthy s). Qed.

Lemma applyAuthBundle_auth b sync (t : tab) :
  auth (applyAuthBundle b sync t) = setBundle b (auth t).
Proof.
  unfold applyAuthBundle. cbv zeta.
  destruct (_ && _); rewrite ?publish_auth; simpl; destruct (user_id <$> _) as [i|]; try done;
    by destruct (num_eqb _ _).
Qed.

Lemma clearAuthentication_auth sync b (t : tab) :
  auth (clearAuthentication sync b t) = reset b (auth t).
Proof.
  unfold clearAuthentication. cbv zeta. destruct (session_sid (auth t)); [ | done].
  destruct sync; by rewrite ?publish_auth.
Qed.

Lemma runtime_clear_auth sync b (t : tab) : auth (runtime_clear sync b t) = reset b (auth t).
Proof.
  unfold runtime_clear. destruct sync, b; rewrite ?clearAuthentication_auth; done.
Qed.

Lemma session_ok_reset b a : session_ok (reset b a).
Proof. done. Qed.

Lemma session_ok_bootstrap b a : session_ok a → session_ok (setBootstrapState b a).
Proof. done. Qed.

Lemma run_auth (t : tab) j a allow : auth (fst (run t j a allow)) = auth t.
Proof. unfold run. by destruct (isCurrent t j). Qed.

(** Every branch of [receive] in one place: what it may do to the tab. *)
Inductive received (t : tab) (j : refresh) (a : nat) (allow : bool) (r : response)
    : tab * refresh → Prop :=
| rc_superseded : isCurrent t j = false →
    received t j a allow r (t, settle (OTransientError AuthRefreshSupersededError) j)
| rc_bundle b : isCurrent t j = true → valid_bundle b →
    received t j a allow r (applyAuthBundle b false t, settle (OAuthenticated b) j)
| rc_wait : isCurrent t j = true → a < 3 →
    received t j a allow r (t, in_phase (Waiting a allow) j)
| rc_retry : isCurrent t j = true → allow = true → status r = 409%Z →
    prop (data r) "code" = Some (JString (js "AUTH_SESSION_MISMATCH")) →
    received t j a allow r (run (with_auth (reset Idle) t) j 0 false)
| rc_transient o : isCurrent t j = true →
    received t j a allow r (markTransient t, settle o j)
| rc_clear sync o : isCurrent t j = true →
    received t j a allow r (clearAuthentication sync Complete t, settle o j).

Lemma receive_received (t : tab) j a allow r : received t j a allow r (receive t j a allow r).
Proof.
  unfold receive. destruct (isCurrent t j) eqn:Ec; [ | by apply rc_superseded]. simpl.
  set (responseData := if isRecord (data r) then data r else None).
  destruct (if isTrue (prop responseData "success") then _ else None) as [b|] eqn:Eb.
  { destruct (isTrue _); [ | done]. apply rc_bundle; [done | by eapply parseBundle_valid]. }
  destruct ((status r =? 409)%Z && bool_decide (_ = Some (js "AUTH_REFRESH_RACE"))).
  { destruct (refreshRaceDelays !! a) eqn:Ed; [ | by apply rc_clear].
    destruct (aborted j); [by apply rc_transient | ]. apply rc_wait; [done | ].
    by apply lookup_lt_Some in Ed. }
  destruct ((status r =? 409)%Z && bool_decide _) eqn:Em.
  { destruct allow eqn:Ea; [ | by apply rc_clear]. bools.
    apply rc_retry; try done. unfold responseData in *.
    destruct (data r) as [v|]; [ | done]. destruct (isRecord (Some v)); [ | done].
    unfold asString in *. by repeat case_match; simplify_eq. }
  destruct (status r =? 401)%Z; [by apply rc_clear | ].
  destruct (_ || _); [by apply rc_transient | by apply rc_clear].
Qed.

Lemma setBundle_credentials b a : valid_bundle b → credentials_ok (setBundle b a).
Proof. intros H'. by apply session_ok_iff, session_ok_setBundle. Qed.

Lemma reset_credentials b a : credentials_ok (reset b a).
Proof. by apply session_ok_iff. Qed.

(** What holds of the credentials after a bundle and after a reset holds after every answer. *)
Lemma receive_auth (P : AuthState → Prop) (t : tab) j a allow r :
  (∀ b a, valid_bundle b → P (setBundle b a)) → (∀ b a, P (reset b a)) → (∀ b a, P a → P (setBootstrapState b a)) →
  P (auth t) → P (auth (fst (receive t j a allow r))).
Proof.
  intros Hb Hr Hs Hok. destruct (receive_received t j a allow r); cbn [fst]; auto.
  - rewrite applyAuthBundle_auth. auto.
  - rewrite run_auth. apply Hr.
  - apply Hs, Hok.
  - rewrite clearAuthentication_auth. auto.
Qed.

Lemma with_job_auth (P : AuthState → Prop) f (t : tab) :
  P (auth t) → (∀ j, P (auth (fst (f t j)))) → P (auth (with_job f t)).
Proof.
  intros Ht Hf. unfold with_job. destruct (refreshPromise t) as [j|]; [ | done].
  specialize (Hf j). by destruct (f t j) as [t' j'].
Qed.

Lemma refreshAuthentication_auth (t : tab) : auth (refreshAuthentication has_locks t) = auth t.
Proof.
  unfold refreshAuthentication. destruct (refreshPromise t); [done | ].
  unfold start_refresh. destruct has_locks; [done | ].
  destruct (run _ _ _ _) as [t' j'] eqn:E. simpl.
  change t' with (fst (t', j')). by rewrite <- E, run_auth.
Qed.

Lemma rotation_valid value (t t' : tab) :
  credentials_ok (auth t) → applyAuthRotation value t = Ok t' →
  t' = clearAuthentication true Complete t ∨ ∃ b, valid_bundle b ∧ t' = applyAuthBundle b false t.
Proof.
  intros [Hu Hok]. unfold applyAuthRotation. destruct (_ && _); [intros [= <-]; by left | ].
  destruct (isAuthTokenRotation value) eqn:E; [ | done].
  apply isAuthTokenRotation_reads in E as (r & -> & Ht & Hb & Hf & Hp & Hs).
  destruct (user (auth t)) as [u|] eqn:Eu; [ | done].
  destruct (session (auth t)) as [s|]; [ | done].
  destruct (ustring_eqb _ _); [ | done]. intros [= <-]. right. eexists. split; [ | done].
  unfold valid_bundle. simpl. rewrite Hb. naive_solver.
Qed.

Lemma rotation_session_ok value (t t' : tab) :
  session_ok (auth t) → applyAuthRotation value t = Ok t' → session_ok (auth t').
Proof.
  intros Hok Ht. apply session_ok_iff in Hok as [Hok _].
  destruct (rotation_valid value t t' Hok Ht) as [-> | (b & Hb & ->)].
  - by rewrite clearAuthentication_auth.
  - rewrite applyAuthBundle_auth. by apply session_ok_setBundle.
Qed.

(** ** Events beside the session *)

(** The profile saves under way and the page of the playground are as they were. *)
Definition beside (t t' : tab) : Prop := edits t' = edits t ∧ page t' = page t.

#[local] Instance beside_refl : Reflexive beside.
Proof. done. Qed.

#[local] Instance beside_trans : Transitive beside.
Proof. unfold beside. intros t1 t2 t3 [-> ->] [-> ->]. done. Qed.

Lemma publish_beside k s (t : tab) : beside t (publishAuthSessionEvent k s t).
Proof. unfold publishAuthSessionEvent. by destruct (truthy s). Qed.

Lemma applyAuthBundle_beside b sync (t : tab) : beside t (applyAuthBundle b sync t).
Proof.
  unfold applyAuthBundle. cbv zeta.
  destruct (_ && _); [etransitivity; [ | apply publish_beside] | ];
    destruct (user_id <$> _) as [i|]; try done; by destruct (num_eqb _ _).
Qed.

Lemma clearAuthentication_beside sync b (t : tab) : beside t (clearAuthentication sync b t).
Proof.
  unfold clearAuthentication. cbv zeta. destruct (session_sid (auth t)); [ | done].
  destruct sync; [ | done]. by etransitivity; [ | apply publish_beside].
Qed.

Lemma run_beside (t : tab) j a allow : beside t (fst (run t j a allow)).
Proof. unfold run. by destruct (isCurrent t j). Qed.

Lemma receive_beside (t : tab) j a allow r : beside t (fst (receive t j a allow r)).
Proof.
  destruct (receive_received t j a allow r); cbn [fst]; try done.
  - apply applyAuthBundle_beside.
  - by etransitivity; [ | apply run_beside].
  - apply clearAuthentication_beside.
Qed.

Lemma with_job_beside f (t : tab) : (∀ j, beside t (fst (f t j))) → beside t (with_job f t).
Proof.
  intros Hf. unfold with_job. destruct (refreshPromise t) as [j|]; [ | done].
  specialize (Hf j). by destruct (f t j) as [t' j'].
Qed.

Lemma refreshAuthentication_beside (t : tab) : beside t (refreshAuthentication has_locks t).
Proof.
  unfold refreshAuthentication. destruct (refreshPromise t); [done | ].
  unfold start_refresh. destruct has_locks; [done | ].
  pose proof (run_beside t (mkRefresh (authEpoch t) false AwaitingLock []) 0 true) as Hr.
  by destruct (run _ _ _ _) as [t' j'].
Qed.

(** The events of the profile page and of the playground page. *)
Definition page_event (e : event S) : bool :=
  match e with
  | BeginProfileSave | EndProfileSave _ _ | MountPlayground | LoadMessages _ | UpdateMessages _
  | UpdateConfig _ | SaveTimer | UnmountPlayground => true
  | _ => false
  end.

(** All other events leave them alone, or reload the tab. *)
Lemma step_beside (t : tab) e :
  page_event e = false →
  beside t (step has_locks t e) ∨ edits (step has_locks t e) = [] ∧ page (step has_locks t e) = None.
Proof.
  intros He. destruct e; try done; cbn [step].
  - left. apply applyAuthBundle_beside.
  - left. unfold applyAuthRotation.
    repeat case_match; simplify_eq; auto using clearAuthentication_beside, applyAuthBundle_beside; done.
  - left. apply clearAuthentication_beside.
  - left. apply clearAuthentication_beside.
  - unfold onRemoteEvent. cbv zeta. destruct kind; repeat case_match; auto using clearAuthentication_beside; by left.
  - by left.
  - left. unfold bootstrapAuthentication. destruct (currentValidAuthBundle now t); [done | ].
    repeat case_match; cbn [fst]; try done; by etransitivity; [ | apply refreshAuthentication_beside].
  - left. apply refreshAuthentication_beside.
  - left. apply with_job_beside. intros j. destruct (job_phase j); auto using run_beside; done.
  - left. apply with_job_beside. intros j. by destruct (job_phase j).
  - left. apply with_job_beside. intros j. destruct (job_phase j); auto using receive_beside; done.
  - left. apply with_job_beside. intros j. destruct (job_phase j); try done. apply run_beside.
  - left. apply with_job_beside. intros j. unfold abort. by destruct (job_phase _).
  - left. by repeat case_match.
Qed.

(** What holds after a bundle and a reset, and does not depend on the bootstrap state or the
    second factor, is kept by the events of the session. *)
Lemma step_auth (P : AuthState → Prop) (t : tab) e :
  (∀ b a, valid_bundle b → P (setBundle b a)) → (∀ b a, P (reset b a)) → (∀ b a, P a → P (setBootstrapState b a)) →
  (∀ f a, P a → P (setPending2FAFlowToken f a)) →
  page_event e = false → event_ok e → credentials_ok (auth t) → P (auth t) → P (auth (step has_locks t e)).
Proof.
  intros Hb Hr Hs Hf Hp He Hok HP. destruct e; try done; cbn [step].
  - rewrite applyAuthBundle_auth. auto.
  - destruct (applyAuthRotation value t) eqn:E; [ | done].
    destruct (rotation_valid value t a Hok E) as [-> | (b & Hv & ->)];
      [rewrite clearAuthentication_auth | rewrite applyAuthBundle_auth]; auto.
  - rewrite clearAuthentication_auth. auto.
  - rewrite clearAuthentication_auth. auto.
  - unfold onRemoteEvent. cbv zeta.
    destruct kind; repeat case_match; rewrite ?clearAuthentication_auth; auto; apply (Hr Idle initial_auth).
  - by apply Hf.
  - unfold bootstrapAuthentication. destruct (currentValidAuthBundle now t); [by apply Hs | ].
    repeat case_match; simpl; rewrite ?refreshAuthentication_auth; try done; by apply Hs.
  - by rewrite refreshAuthentication_auth.
  - apply with_job_auth; [done | ]. intros j. destruct (job_phase j); rewrite ?run_auth; done.
  - apply with_job_auth; [done | ]. intros j. destruct (job_phase j); try done. by apply Hs.
  - apply with_job_auth; [done | ]. intros j. destruct (job_phase j); try done. by apply receive_auth.
  - apply with_job_auth; [done | ]. intros j. destruct (job_phase j); try done.
    unfold resume. by rewrite run_auth.
  - apply with_job_auth; [done | ]. intros j. unfold abort. destruct (job_phase _); try done; by apply Hs.
  - repeat case_match; done.
Qed.

Lemma profile_save_ends (e : event S) : (∃ n change, e = EndProfileSave n change) ∨ ∀ n change, e ≠ EndProfileSave n change.
Proof. destruct e; eauto; by right. Qed.

(** The events of the playground page do not touch the store. *)
Lemma page_event_auth (t : tab) e :
  page_event e = true → (∀ n change, e ≠ EndProfileSave n change) → auth (step has_locks t e) = auth t.
Proof.
  intros He Hn. destruct e; try done; cbn [step];
    unfold begin_profile_save, mount_playground, load_messages, update_messages, update_config, save_timer_fires, unmount_playground;
    [by destruct (user (auth t)) | by destruct (Hn n change) | by destruct (page t) .. | | ];
    destruct (page t) as [p|]; try done; by destruct (saveTimer p).
Qed.

(** ** The credentials over all events *)

Definition tab_ok (t : tab) : Prop := credentials_ok (auth t) ∧ Forall valid_user (edits t).

Lemma end_profile_save_cases n change (t : tab) :
  end_profile_save n change t = t ∨
  (∃ u l, edits t !! n = Some u ∧ (∀ v, v ∈ l → v ∈ edits t) ∧
     (end_profile_save n change t = with_edits l t ∨
      ∃ f, end_profile_save n change t
           = with_auth (setUser (Some (mkUser (user_id u) (username u) (role u) (f (user_value u))))) (with_edits l t))).
Proof.
  unfold end_profile_save. destruct (edits t !! n) as [u|] eqn:Eu; [right | by left].
  exists u, (take n (edits t) ++ drop (Datatypes.S n) (edits t)). split; [done | ]. split.
  - intros v Hv. rewrite <-(take_drop_middle (edits t) n u Eu). set_solver.
  - destruct change as [f|]; [right; by exists f | by left].
Qed.
(** An invariant of single steps holds after every sequence of steps. *)
Lemma steps_invariant (P : tab → Prop) (Q : event S → Prop) (t : tab) es :
  P t → Forall Q es → (∀ t e, Q e → P t → P (step has_locks t e)) → P (steps has_locks t es).
Proof.
  intros HP HQ Hstep. revert t HP. induction HQ as [|e es He _ IH]; intros t HP; [done | ].
  apply IH, Hstep; done.
Qed.

Lemma step_edits (t : tab) e :
  tab_ok t → ∀ u, u ∈ edits (step has_locks t e) → u ∈ edits t ∨ user (auth t) = Some u.
Proof.
  intros Hok u Hin. destruct (page_event e) eqn:Ep.
  - destruct e; try done; cbn [step] in Hin;
      try (unfold mount_playground, load_messages, update_messages, update_config, save_timer_fires, unmount_playground in Hin;
           repeat case_match; by left).
    + unfold begin_profile_save in Hin. destruct (user (auth t)) as [v|]; [ | by left]. set_solver.
    + left. destruct (end_profile_save_cases n change t) as [E | (v & l & _ & Hl & [E | [f E]])];
        rewrite E in Hin; auto.
  - destruct (step_beside t e Ep) as [[E _] | [E _]]; rewrite E in Hin; [by left | set_solver].
Qed.

Lemma step_tab_ok (t : tab) e : event_ok e → tab_ok t → tab_ok (step has_locks t e).
Proof.
  intros He [Hok Hed]. assert (Hed' : Forall valid_user (edits (step has_locks t e))).
  { rewrite Forall_forall in *. intros u Hu. destruct (step_edits t e) with u as [Hin|Hin]; auto.
    - by split; [ | rewrite Forall_forall].
    - by apply (proj1 Hok). }
  split; [ | done]. destruct (page_event e) eqn:Ep.
  - destruct (profile_save_ends e) as [(n & change & ->)|Hn].
    2:{ by rewrite page_event_auth. }
    cbn [step]. destruct (end_profile_save_cases n change t) as [E | (v & l & Hv & _ & [E | [f E]])]; rewrite E; try done.
    assert (Hvv : valid_user v) by (rewrite Forall_forall in Hed; apply Hed; by eapply list_elem_of_lookup_2).
    destruct Hok as [_ Hc]. split; simpl; [by intros u [= <-] | ].
    repeat case_match; try done. destruct Hc as [_ ?]. split; [by eexists | done].
  - apply (step_auth credentials_ok); auto using setBundle_credentials, reset_credentials.
Qed.

Lemma steps_tab_ok (t : tab) es : Forall event_ok es → tab_ok t → tab_ok (steps has_locks t es).
Proof.
  intros Hes Ht. apply (steps_invariant tab_ok event_ok); auto. intros. by apply step_tab_ok.
Qed.

(** ** Work that ends in time *)

(** A condition on every event of a run and the tab it meets. *)
Fixpoint along (P : tab → event S → Prop) (t : tab) (es : list (event S)) : Prop :=
  match es with
  | [] => True
  | e :: es => P t e ∧ along P (step has_locks t e) es
  end.

Lemma along_invariant (I : tab → Prop) (P : tab → event S → Prop) (Q : event S → Prop) (t : tab) es :
  I t → Forall Q es → along P t es → (∀ t e, Q e → P t e → I t → I (step has_locks t e)) → I (steps has_locks t es).
Proof.
  intros HI HQ HP Hstep. revert t HI HP. induction HQ as [|e es He _ IH]; intros t HI HP; [done | ].
  destruct HP as [HP HPs]. apply IH; auto.
Qed.

(** A profile save that succeeds ends while the account that began it is signed in. *)
Definition profile_in_time (t : tab) (e : event S) : Prop :=
  match e with
  | EndProfileSave n (Some _) => ∀ u, edits t !! n = Some u → current_account t = Some (user_id u)
  | _ => True
  end.

Lemma step_session_ok (t : tab) e :
  event_ok e → profile_in_time t e → tab_ok t ∧ session_ok (auth t) →
  tab_ok (step has_locks t e) ∧ session_ok (auth (step has_locks t e)).
Proof.
  intros He Hp [Ht Hok]. pose proof (step_tab_ok t e He Ht) as Ht'. split; [done | ].
  apply session_ok_iff. split; [apply Ht' | ]. apply session_ok_iff in Hok as [_ Hno].
  destruct (page_event e) eqn:Ep.
  - destruct (profile_save_ends e) as [(n & change & ->)|Hn].
    2:{ by rewrite page_event_auth. }
    cbn [step] in *. destruct change as [f|].
    + unfold end_profile_save in *. destruct (edits t !! n) as [u|] eqn:Eu; [ | done]. cbn.
      intros Hs. specialize (Hp u Eu). unfold current_account in Hp. by rewrite Hno in Hp.
    + unfold end_profile_save. by destruct (edits t !! n).
  - apply (step_auth (fun a => session a = None → user a = None)); auto; try done. apply Ht.
Qed.

Lemma steps_session_ok (t : tab) es :
  Forall event_ok es → along profile_in_time t es → tab_ok t → session_ok (auth t) →
  session_ok (auth (steps has_locks t es)).
Proof.
  intros Hes Hp Ht Hok.
  apply (along_invariant (fun t => tab_ok t ∧ session_ok (auth t)) profile_in_time event_ok); auto using step_session_ok.
Qed.
(** ** Epochs *)

(** The refresh in flight is not from the future. *)
Definition epoch_ok (t : tab) : Prop :=
  match refreshPromise t with Some j => refreshEpoch j ≤ authEpoch t | None => True end.

Lemma publish_frame k s (t : tab) :
  authEpoch (publishAuthSessionEvent k s t) = authEpoch t ∧
  refreshPromise (publishAuthSessionEvent k s t) = refreshPromise t ∧
  playground (publishAuthSessionEvent k s t) = playground t ∧
  authors (publishAuthSessionEvent k s t) = authors t.
Proof. unfold publishAuthSessionEvent. by destruct (truthy s). Qed.

Lemma applyAuthBundle_frame b sync (t : tab) :
  authEpoch (applyAuthBundle b sync t) = Datatypes.S (authEpoch t) ∧
  refreshPromise (applyAuthBundle b sync t) = refreshPromise t.
Proof.
  unfold applyAuthBundle. cbv zeta.
  destruct (_ && _); rewrite ?(proj1 (publish_frame _ _ _)), ?(proj1 (proj2 (publish_frame _ _ _)));
    simpl; destruct (user_id <$> _) as [i|]; try done; by destruct (num_eqb _ _).
Qed.

Lemma clearAuthentication_frame sync b (t : tab) :
  authEpoch (clearAuthentication sync b t) = Datatypes.S (authEpoch t) ∧
  refreshPromise (clearAuthentication sync b t) = refreshPromise t ∧
  playground (clearAuthentication sync b t) = clear_playground (playground t) ∧
  authors (clearAuthentication sync b t) = [].
Proof.
  unfold clearAuthentication. cbv zeta. destruct (session_sid (auth t)) as [u|]; [ | done].
  destruct sync; [ | done].
  destruct (publish_frame SignedOut u
              (clear_data (with_auth (reset b) (advance_epoch t)))) as (-> & -> & -> & ->). done.
Qed.

Lemma run_frame (t : tab) j a allow :
  fst (run t j a allow) = t ∧ refreshEpoch (snd (run t j a allow)) = refreshEpoch j.
Proof. unfold run. by destruct (isCurrent t j). Qed.

Lemma receive_epochs (t : tab) j a allow r :
  authEpoch t ≤ authEpoch (fst (receive t j a allow r)) ∧
  refreshEpoch (snd (receive t j a allow r)) = refreshEpoch j.
Proof.
  destruct (receive_received t j a allow r); cbn [fst snd]; try (split; [simpl; lia | done]).
  - rewrite (proj1 (applyAuthBundle_frame _ _ _)). split; [lia | done].
  - destruct (run_frame (with_auth (reset Idle) t) j 0 false) as [-> ->]. simpl. lia.
  - rewrite (proj1 (clearAuthentication_frame _ _ _)). split; [lia | done].
Qed.

(** What a step of the refresh keeps of the epochs. *)
Lemma with_job_epoch_ok f (t : tab) :
  (∀ j, refreshPromise t = Some j →
        authEpoch t ≤ authEpoch (fst (f t j)) ∧ refreshEpoch (snd (f t j)) = refreshEpoch j) →
  epoch_ok t → epoch_ok (with_job f t).
Proof.
  intros Hf Hok. unfold epoch_ok, with_job in *. destruct (refreshPromise t) as [j|] eqn:E.
  - specialize (Hf j eq_refl). destruct (f t j) as [t' j']. simpl in *. lia.
  - by rewrite E.
Qed.

Lemma refreshAuthentication_epoch_ok (t : tab) :
  epoch_ok t → epoch_ok (refreshAuthentication has_locks t).
Proof.
  intros Hok. unfold refreshAuthentication.
  destruct (refreshPromise t) eqn:E; [by unfold epoch_ok in *; rewrite E in * | ].
  unfold start_refresh. destruct has_locks; [simpl; unfold epoch_ok; simpl; lia | ].
  set (j := mkRefresh (authEpoch t) false AwaitingLock []).
  destruct (run_frame t j 0 true) as [Ht Hj]. destruct (run t j 0 true) as [t' j'].
  simpl in *. unfold epoch_ok. simpl. subst t'. rewrite Hj. done.
Qed.

Lemma epoch_ok_change (t t' : tab) :
  authEpoch t ≤ authEpoch t' → refreshPromise t' = refreshPromise t → epoch_ok t → epoch_ok t'.
Proof. unfold epoch_ok. intros Hle ->. destruct (refreshPromise t); [lia | done]. Qed.

Lemma applyAuthBundle_epoch_ok b sync (t : tab) : epoch_ok t → epoch_ok (applyAuthBundle b sync t).
Proof.
  apply epoch_ok_change; destruct (applyAuthBundle_frame b sync t) as [He Hp]; [lia | done].
Qed.

Lemma clearAuthentication_epoch_ok sync b (t : tab) :
  epoch_ok t → epoch_ok (clearAuthentication sync b t).
Proof.
  apply epoch_ok_change; destruct (clearAuthentication_frame sync b t) as (He & Hp & _); [lia | done].
Qed.

Lemma page_event_epoch (t : tab) e :
  page_event e = true →
  authEpoch (step has_locks t e) = authEpoch t ∧ refreshPromise (step has_locks t e) = refreshPromise t.
Proof.
  intros He. destruct e; try done; cbn [step];
    unfold begin_profile_save, end_profile_save, mount_playground, load_messages, update_messages, update_config,
      save_timer_fires, unmount_playground; repeat case_match; done.
Qed.

Lemma step_epoch_ok (t : tab) e : epoch_ok t → epoch_ok (step has_locks t e).
Proof.
  intros Hok. destruct (page_event e) eqn:Ep.
  { destruct (page_event_epoch t e Ep) as [E1 E2]. apply (epoch_ok_change t); [lia | done | done]. }
  destruct e; try done; cbn [step].
  - by apply applyAuthBundle_epoch_ok.
  - unfold applyAuthRotation.
    repeat case_match; simplify_eq; auto using clearAuthentication_epoch_ok, applyAuthBundle_epoch_ok.
  - by apply clearAuthentication_epoch_ok.
  - by apply clearAuthentication_epoch_ok.
  - unfold onRemoteEvent. cbv zeta.
    destruct kind; repeat case_match; auto using clearAuthentication_epoch_ok; done.
  - unfold bootstrapAuthentication. destruct (currentValidAuthBundle now t); [done | ].
    repeat case_match; cbn [fst]; auto using refreshAuthentication_epoch_ok.
  - by apply refreshAuthentication_epoch_ok.
  - apply with_job_epoch_ok; [ | done]. intros j _. destruct (job_phase j); try (split; [simpl; lia | done]).
    destruct (run_frame t j 0 true) as [-> ->]. split; [lia | done].
  - apply with_job_epoch_ok; [ | done]. intros j _. destruct (job_phase j); split; simpl; done || lia.
  - apply with_job_epoch_ok; [ | done]. intros j _.
    destruct (job_phase j); try (split; [simpl; lia | done]). apply receive_epochs.
  - apply with_job_epoch_ok; [ | done]. intros j _.
    destruct (job_phase j) as [ | | a allow | ]; try (split; [simpl; lia | done]).
    destruct (run_frame t j (Datatypes.S a) allow) as [E1 E2]. unfold resume.
    rewrite E1, E2. split; [lia | done].
  - apply with_job_epoch_ok; [ | done]. intros j _. unfold abort.
    destruct (job_phase _); split; simpl; done || lia.
  - unfold epoch_ok. repeat case_match; simplify_eq; try done; simpl in *; unfold epoch_ok in Hok;
      repeat case_match; simplify_eq; done.
Qed.

Lemma steps_epoch_ok (t : tab) es : epoch_ok t → epoch_ok (steps has_locks t es).
Proof.
  intros Ht. apply (steps_invariant epoch_ok (fun _ => True)); auto.
  - by apply Forall_true.
  - intros. by apply step_epoch_ok.
Qed.

(** ** A superseded refresh *)

(** Everything of a tab but the bootstrap state, which only steers the first page load,
    and the refresh itself. *)
Definition same_session (t t' : tab) : Prop :=
  user (auth t') = user (auth t) ∧ accessToken (auth t') = accessToken (auth t) ∧
  accessExpiresAt (auth t') = accessExpiresAt (auth t) ∧ session (auth t') = session (auth t) ∧
  pending2FAFlowToken (auth t') = pending2FAFlowToken (auth t) ∧
  authEpoch t' = authEpoch t ∧ playground t' = playground t ∧ authors t' = authors t ∧
  published t' = published t.

(** No refresh in flight, or one of an earlier epoch. *)
Definition superseded (t : tab) : Prop :=
  match refreshPromise t with Some j => refreshEpoch j < authEpoch t | None => True end.

(** The events of the refresh itself: its lock, its responses, its delays and its end. *)
Definition refresh_event (e : event S) : Prop :=
  match e with
  | LockGranted | LockFailed | Respond _ | DelayOver | Deadline | Finally => True
  | _ => False
  end.

#[local] Instance same_session_refl : Reflexive same_session.
Proof. intros t. unfold same_session. repeat split. Qed.

#[local] Instance same_session_trans : Transitive same_session.
Proof.
  unfold same_session. intros t1 t2 t3.
  intros (-> & -> & -> & -> & -> & -> & -> & -> & ->) (-> & -> & -> & -> & -> & -> & -> & -> & ->). done.
Qed.

Lemma with_job_superseded f (t : tab) :
  superseded t →
  (∀ j, isCurrent t j = false → refreshPromise t = Some j →
        same_session t (fst (f t j)) ∧ refreshEpoch (snd (f t j)) = refreshEpoch j) →
  superseded (with_job f t) ∧ same_session t (with_job f t).
Proof.
  unfold superseded, with_job. intros Hs Hf. destruct (refreshPromise t) as [j|] eqn:E.
  - destruct (Hf j) as [Hsame Hj]; [unfold isCurrent; apply Nat.eqb_neq; lia | done | ].
    destruct (f t j) as [t' j']. simpl in *. rewrite Hj.
    unfold same_session in *. simpl. destruct Hsame as (? & ? & ? & ? & ? & -> & ?). auto 12.
  - rewrite E. done.
Qed.

Lemma run_superseded (t : tab) j a allow :
  isCurrent t j = false →
  same_session t (fst (run t j a allow)) ∧ refreshEpoch (snd (run t j a allow)) = refreshEpoch j.
Proof. intros Hc. destruct (run_frame t j a allow) as [-> ->]. done. Qed.

Lemma refresh_event_superseded (t : tab) e :
  refresh_event e → superseded t →
  superseded (step has_locks t e) ∧ same_session t (step has_locks t e).
Proof.
  intros He Hs. destruct e; try done; cbn [step].
  - apply with_job_superseded; [done | ]. intros j Hc _.
    destruct (job_phase j); try done. by apply run_superseded.
  - apply with_job_superseded; [done | ]. intros j Hc _. by destruct (job_phase j).
  - apply with_job_superseded; [done | ]. intros j Hc _. destruct (job_phase j); try done.
    unfold receive. by rewrite Hc.
  - apply with_job_superseded; [done | ]. intros j Hc _. destruct (job_phase j); try done.
    by apply run_superseded.
  - apply with_job_superseded; [done | ]. intros j Hc _. unfold abort. by destruct (job_phase _).
  - destruct (refreshPromise t) as [j|] eqn:E; [ | done]. destruct (job_phase j); done.
Qed.

Lemma refresh_events_superseded (t : tab) es :
  Forall refresh_event es → superseded t → same_session t (steps has_locks t es).
Proof.
  intros Hes. revert t. induction Hes as [|e es He _ IH]; intros t Hs; [done | ].
  destruct (refresh_event_superseded t e He Hs) as [Hs' Hsame].
  transitivity (step has_locks t e); [done | by apply IH].
Qed.
(** ** The end of a refresh *)

(** A refresh on its own: each round serves what it awaits, the [n]-th from the end with
    the response [responses n]; before that [interfere n] changes the tab in any way. *)
Fixpoint drive (interfere : nat → tab → tab) (responses : nat → response) (n : nat)
    (t : tab) (j : refresh) : tab * refresh :=
  match n with
  | 0 => (t, j)
  | Datatypes.S n =>
      let t := interfere n t in
      let '(t', j') :=
        match job_phase j with
        | AwaitingLock => run t j 0 true
        | Requesting a allow => receive t j a allow (responses n)
        | Waiting a allow => resume t j a allow
        | Settled _ => (t, j)
        end in
      drive interfere responses n t' j'
  end.

(** Rounds and requests a refresh can still take. *)
Definition rounds_left (p : phase) : nat :=
  match p with
  | AwaitingLock => 15
  | Requesting a allow => 1 + 2 * (3 - a) + (if allow then 7 else 0)
  | Waiting a allow => 2 * (3 - a) + (if allow then 7 else 0)
  | Settled _ => 0
  end.

Definition requests_left (p : phase) : nat :=
  match p with
  | AwaitingLock => 8
  | Requesting a allow | Waiting a allow => (3 - a) + (if allow then 4 else 0)
  | Settled _ => 0
  end.

Definition waiting_ok (p : phase) : Prop :=
  match p with Waiting a _ => a < 3 | _ => True end.

(** One round of a refresh that is not settled, from [j] to [j']. *)
Definition advances (j j' : refresh) : Prop :=
  rounds_left (job_phase j') < rounds_left (job_phase j) ∧
  length (sent j') + requests_left (job_phase j') ≤ length (sent j) + requests_left (job_phase j) ∧
  waiting_ok (job_phase j').

(** A request for attempt [a] that leaves at most [rounds] and [requests] after [j]. *)
Lemma run_advances (t : tab) j a allow :
  rounds_left (Requesting a allow) < rounds_left (job_phase j) →
  Datatypes.S (requests_left (Requesting a allow)) ≤ requests_left (job_phase j) →
  advances j (snd (run t j a allow)).
Proof.
  intros Hr Hq. unfold advances, run. destruct (isCurrent t j); simpl in *.
  - rewrite length_app. simpl. repeat split; lia.
  - repeat split; lia.
Qed.

Lemma settle_advances j o : 0 < rounds_left (job_phase j) → advances j (settle o j).
Proof. intros Hr. unfold advances. simpl. repeat split; lia. Qed.

Lemma receive_advances (t : tab) j a allow r :
  job_phase j = Requesting a allow → advances j (snd (receive t j a allow r)).
Proof.
  intros Hp. assert (0 < rounds_left (job_phase j)) as Hr by (rewrite Hp; simpl; lia).
  destruct (receive_received t j a allow r) as [ | | ? Hlt | ? -> | | ]; cbn [snd];
    auto using settle_advances.
  - unfold advances. rewrite Hp. simpl. repeat split; try lia; done.
  - apply run_advances; rewrite Hp; simpl; lia.
Qed.

Lemma drive_settles interfere responses n (t : tab) j :
  waiting_ok (job_phase j) → rounds_left (job_phase j) ≤ n →
  let j' := snd (drive interfere responses n t j) in
  (∃ o, job_phase j' = Settled o) ∧
  length (sent j') ≤ length (sent j) + requests_left (job_phase j).
Proof.
  revert t j. induction n as [|n IH]; intros t j Hw Hn; simpl.
  { destruct (job_phase j) as [ | a [] | a [] | o]; simpl in *; try lia. split; [eauto | lia]. }
  destruct (job_phase j) as [ | a allow | a allow | o] eqn:Ep.
  - assert (Ha : advances j (snd (run (interfere n t) j 0 true)))
      by (apply run_advances; rewrite Ep; simpl; lia).
    destruct (run _ _ _ _) as [t' j']. destruct Ha as (Hr & Hq & Hw'). rewrite Ep in *. simpl in *.
    destruct (IH t' j') as [Ho Hs]; [done | lia | ]. split; [done | lia].
  - assert (Ha : advances j (snd (receive (interfere n t) j a allow (responses n))))
      by (by apply receive_advances).
    destruct (receive _ _ _ _ _) as [t' j']. destruct Ha as (Hr & Hq & Hw'). rewrite Ep in *.
    simpl in *. destruct (IH t' j') as [Ho Hs]; [done | lia | ]. split; [done | lia].
  - assert (Ha : advances j (snd (resume (interfere n t) j a allow))).
    { simpl in Hw. apply run_advances; rewrite Ep; simpl; lia. }
    destruct (resume _ _ _ _) as [t' j']. destruct Ha as (Hr & Hq & Hw'). rewrite Ep in *.
    simpl in *. destruct (IH t' j') as [Ho Hs]; [done | lia | ]. split; [done | lia].
  - destruct (IH (interfere n t) j) as [Ho Hs]; rewrite ?Ep; [done | simpl; lia | ].
    rewrite Ep in Hs. done.
Qed.

(** ** Whose playground data it is *)

(** The playground data was written by the account that is signed in, if any. *)
Definition owned (t : tab) : Prop :=
  match user (auth t) with
  | Some u => Forall (eq (user_id u)) (authors t)
  | None => authors t = []
  end.

(** Not the answer that makes the runner forget the session without clearing. *)
Definition no_mismatch (e : event S) : Prop :=
  match e with
  | Respond r => prop (data r) "code" ≠ Some (JString (js "AUTH_SESSION_MISMATCH"))
  | _ => True
  end.

Lemma applyAuthBundle_authors b sync (t : tab) :
  authors (applyAuthBundle b sync t)
  = match user_id <$> user (auth t) with
    | Some i => if num_eqb i (user_id (bundle_user b)) then authors t else []
    | None => authors t
    end.
Proof.
  unfold applyAuthBundle. cbv zeta.
  destruct (_ && _);
    rewrite ?(proj2 (proj2 (proj2 (publish_frame _ _ _)))); simpl;
    destruct (user_id <$> _) as [i|]; try done; by destruct (num_eqb _ _).
Qed.

Lemma session_ok_user a u : session_ok a → user a = Some u → valid_user u.
Proof. unfold session_ok. intros H1 H2. rewrite H2 in H1. repeat case_match; tauto. Qed.

Lemma applyAuthBundle_owned b sync (t : tab) :
  session_ok (auth t) → owned t → owned (applyAuthBundle b sync t).
Proof.
  intros Hok Hown. unfold owned. rewrite applyAuthBundle_auth, applyAuthBundle_authors. simpl.
  unfold owned in Hown. destruct (user (auth t)) as [u|] eqn:Eu; simpl; [ | by rewrite Hown].
  destruct (num_eqb _ _) eqn:E; [ | done].
  apply num_eqb_pos in E; [by rewrite <- E | ]. by apply (session_ok_user _ _ Hok Eu).
Qed.

Lemma clearAuthentication_owned sync b (t : tab) : owned (clearAuthentication sync b t).
Proof.
  unfold owned. rewrite clearAuthentication_auth. simpl.
  apply (proj2 (proj2 (proj2 (clearAuthentication_frame sync b t)))).
Qed.

Lemma owned_frame (t t' : tab) :
  user (auth t') = user (auth t) → authors t' = authors t → owned t → owned t'.
Proof. unfold owned. by intros -> ->. Qed.

Lemma run_owned (t : tab) j a allow : owned t → owned (fst (run t j a allow)).
Proof. by rewrite (proj1 (run_frame t j a allow)). Qed.

Lemma refreshAuthentication_owned (t : tab) : owned t → owned (refreshAuthentication has_locks t).
Proof.
  intros Hown. unfold refreshAuthentication. destruct (refreshPromise t); [done | ].
  unfold start_refresh. destruct has_locks; [done | ].
  set (j := mkRefresh _ _ _ _). pose proof (run_owned t j 0 true Hown) as Hr.
  by destruct (run t j 0 true) as [t' j'].
Qed.

Lemma with_job_owned f (t : tab) :
  owned t → (∀ j, owned (fst (f t j))) → owned (with_job f t).
Proof.
  intros Ht Hf. unfold with_job. destruct (refreshPromise t) as [j|]; [ | done].
  specialize (Hf j). by destruct (f t j) as [t' j'].
Qed.

Lemma receive_owned (t : tab) j a allow r :
  session_ok (auth t) → no_mismatch (Respond r) → owned t →
  owned (fst (receive t j a allow r)).
Proof.
  intros Hok Hn Hown. destruct (receive_received t j a allow r); cbn [fst]; try done.
  - by apply applyAuthBundle_owned.
  - by apply clearAuthentication_owned.
Qed.

Lemma session_ok_sid a :
  session_ok a →
  match session_sid a with Some c => truthy c = true | None => user a = None end.
Proof.
  unfold session_ok, session_sid.
  destruct (user a), (accessToken a), (accessExpiresAt a), (session a) as [ses|]; try done.
  intros (_ & _ & _ & _ & Hs). unfold valid_session in Hs. simpl. by destruct (sid ses).
Qed.

Lemma onRemoteEvent_owned kind s (t : tab) :
  session_ok (auth t) → owned t → owned (onRemoteEvent kind s t).
Proof.
  intros Hok Hown. pose proof (session_ok_sid _ Hok) as Hsid. unfold onRemoteEvent. cbv zeta.
  destruct kind, (session_sid (auth t)) as [c|]; rewrite ?Hsid.
  - destruct (bool_decide _); [done | ]. unfold owned, reload. simpl.
    apply (proj2 (proj2 (proj2 (clearAuthentication_frame false Complete t)))).
  - rewrite bool_decide_false by done. unfold owned in *. rewrite Hsid in Hown. done.
  - destruct (_ && _); auto using clearAuthentication_owned.
  - done.
Qed.

(** What the page holds in memory was written by the account that mounted it. *)
Definition page_owned (t : tab) : Prop :=
  match page t with Some p => Forall (fun a => openedBy p = Some a) (pageAuthors p) | None => True end.

(** The page reads, changes and saves only while the account that mounted it is signed in. *)
Definition playground_in_time (t : tab) (e : event S) : Prop :=
  match page t with
  | Some p =>
      match e with
      | LoadMessages _ | UpdateMessages _ | UpdateConfig _ => openedBy p = current_account t
      | SaveTimer | UnmountPlayground => is_Some (saveTimer p) → openedBy p = current_account t
      | _ => True
      end
  | None => True
  end.

Lemma owned_iff (t : tab) : owned t ↔ Forall (fun a => current_account t = Some a) (authors t).
Proof.
  unfold owned, current_account. destruct (user (auth t)) as [u|]; simpl.
  - apply Forall_iff. naive_solver.
  - destruct (authors t) as [|a l]; split; intros Hl; try done. apply Forall_cons in Hl as [? _]. done.
Qed.

Lemma write_page_owned f (p : Page S) (t : tab) :
  openedBy p = current_account t → Forall (fun a => openedBy p = Some a) (pageAuthors p) → owned t →
  owned (write_page f p t).
Proof.
  intros Ho Hp Ht. apply owned_iff in Ht. apply owned_iff. unfold write_page, current_account in *. simpl.
  apply Forall_app. split; [ | done]. by rewrite <-Ho.
Qed.

Lemma edited_owned (p : Page S) (t : tab) :
  openedBy p = current_account t → Forall (fun a => openedBy p = Some a) (pageAuthors p) →
  Forall (fun a => openedBy p = Some a) (option_list (current_account t) ++ pageAuthors p).
Proof. intros -> Hp. apply Forall_app. split; [ | done]. destruct (current_account t); by repeat constructor. Qed.

Lemma page_step_owned (t : tab) e :
  page_event e = true → profile_in_time t e → playground_in_time t e → owned t → page_owned t →
  owned (step has_locks t e) ∧ page_owned (step has_locks t e).
Proof.
  intros He Hprof Hin Hown Hpage. destruct e; try done; cbn [step].
  - unfold begin_profile_save. by destruct (user (auth t)).
  - unfold end_profile_save. destruct (edits t !! n) as [u|] eqn:Eu; [ | done]. destruct change as [f|]; [ | done].
    split; [ | done]. specialize (Hprof u Eu). apply owned_iff in Hown. apply owned_iff. by rewrite Hprof in Hown.
  - unfold mount_playground. destruct (page t) eqn:E; [done | ]. split; [done | ]. by apply owned_iff in Hown.
  - unfold load_messages, playground_in_time, page_owned in *. cbn [page authors]. destruct (page t) as [p|]; [ | done].
    split; [done | ]. simpl. apply Forall_app. split; [ | done]. rewrite Hin. by apply owned_iff in Hown.
  - unfold update_messages, playground_in_time, page_owned in *. destruct (page t) as [p|] eqn:E; [ | by rewrite E].
    split; [done | ]. by apply (edited_owned p t).
  - unfold update_config, playground_in_time, page_owned in *. destruct (page t) as [p|] eqn:E; [ | by rewrite E].
    split; [ | by apply (edited_owned p t)]. apply (write_page_owned f (mkPage (openedBy p) _ _ _)); [done | | done].
    by apply (edited_owned p t).
  - unfold save_timer_fires, playground_in_time, page_owned in *. destruct (page t) as [p|] eqn:E; [ | by rewrite E].
    destruct (saveTimer p) as [f|]; [ | by rewrite E]. split; [ | done]. by apply write_page_owned; [apply Hin | | ].
  - unfold unmount_playground, playground_in_time, page_owned in *. destruct (page t) as [p|] eqn:E; [ | by rewrite E].
    split; [ | done]. destruct (saveTimer p) as [f|]; [ | done]. by apply write_page_owned; [apply Hin | | ].
Qed.

Lemma step_owned (t : tab) e :
  page_event e = false → no_mismatch e → session_ok (auth t) → owned t → owned (step has_locks t e).
Proof.
  intros Hp Hn Hok Hown. destruct e; try done; cbn [step].
  - by apply applyAuthBundle_owned.
  - unfold applyAuthRotation. repeat case_match; simplify_eq;
      auto using clearAuthentication_owned, applyAuthBundle_owned.
  - by apply clearAuthentication_owned.
  - by apply clearAuthentication_owned.
  - by apply onRemoteEvent_owned.
  - unfold bootstrapAuthentication. destruct (currentValidAuthBundle now t); [done | ].
    repeat case_match; cbn [fst]; auto using refreshAuthentication_owned.
  - by apply refreshAuthentication_owned.
  - apply with_job_owned; [done | ]. intros j. destruct (job_phase j); auto using run_owned.
  - apply with_job_owned; [done | ]. intros j. by destruct (job_phase j).
  - apply with_job_owned; [done | ]. intros j. destruct (job_phase j); auto using receive_owned.
  - apply with_job_owned; [done | ]. intros j. destruct (job_phase j); try done. by apply run_owned.
  - apply with_job_owned; [done | ]. intros j. unfold abort. by destruct (job_phase _).
  - repeat case_match; done.
Qed.

Definition in_time (t : tab) (e : event S) : Prop := profile_in_time t e ∧ playground_in_time t e.

Lemma steps_owned (t : tab) es :
  Forall event_ok es → Forall no_mismatch es → along in_time t es → tab_ok t → session_ok (auth t) → owned t → page_owned t →
  owned (steps has_locks t es).
Proof.
  intros He Hn Hin Ht Hok Hown Hpage.
  apply (along_invariant (fun t => (tab_ok t ∧ session_ok (auth t)) ∧ owned t ∧ page_owned t) in_time
           (fun e => event_ok e ∧ no_mismatch e) t es); [done | by apply Forall_and | done | ].
  clear -H. intros t e [H1 H2] [H3 H4] [Hok [Hown Hpage]]. split; [by apply step_session_ok | ].
  destruct (page_event e) eqn:Ep; [by apply page_step_owned | ]. split; [by apply step_owned; try apply Hok | ].
  destruct (step_beside t e Ep) as [[_ E] | [_ E]]; unfold page_owned; by rewrite E.
Qed.
End safety.
