(* ===== verification/AuthClient.v ===== *)
(** * Clients of the authentication session

    The messages tabs exchange about the session (lib/auth-session-sync.ts) and the HTTP
    client (lib/http-client.ts): its request and response interceptors, which refresh the
    session once when a request is refused, and the sharing of identical GET requests. *)

From stdpp Require Import base list numbers strings option.
From Stdlib Require Import Lia.
From S2P Require Import Prelude JsNumber Json BrowserStorage AuthStore AuthSession.

(** ** Messages between tabs *)

Record AuthSessionSyncEvent := mkSync {
  sync_kind_of : sync_kind;
  sync_sid : ustring;
  source : ustring;
  nonce : ustring;
  timestamp : number;
}.

Definition kind_text (k : sync_kind) : ustring :=
  match k with Authenticated => js "authenticated" | SignedOut => js "signed_out" end.

(** The event as the value the other tab receives. *)
Definition sync_value (e : AuthSessionSyncEvent) : json :=
  JObject [(js "kind", JString (kind_text (sync_kind_of e))); (js "sid", JString (sync_sid e));
           (js "source", JString (source e)); (js "nonce", JString (nonce e));
           (js "timestamp", JNumber (timestamp e))].

Definition isAuthSessionSyncEvent (value : option json) : bool :=
  isRecord value &&
  ((isText (prop value "kind") (js "authenticated") || isText (prop value "kind") (js "signed_out")) &&
   isNonEmptyString (prop value "sid") && isString (prop value "source") &&
   isString (prop value "nonce") && isNumber (prop value "timestamp")).

Definition as_sync_event (value : option json) : option AuthSessionSyncEvent :=
  s ← asString (prop value "sid"); src ← asString (prop value "source");
  n ← asString (prop value "nonce"); ts ← asNumber (prop value "timestamp");
  Some (mkSync (if isText (prop value "kind") (js "authenticated") then Authenticated else SignedOut)
          s src n ts).

(** The event [publishAuthSessionEvent] posts, if any. *)
Definition sync_event (authSyncSource freshNonce : ustring) (now : Z) (kind : sync_kind)
    (s : ustring) : option AuthSessionSyncEvent :=
  if truthy s then Some (mkSync kind s authSyncSource freshNonce (num_of_Z now)) else None.

(** The event [deliver] of a tab hands to the listener, if any. *)
Definition deliver (authSyncSource : ustring) (now : Z) (value : option json)
    : option AuthSessionSyncEvent :=
  if isAuthSessionSyncEvent value then
    e ← as_sync_event value;
    if negb (ustring_eqb (source e) authSyncSource) &&
       num_ltb (num_abs (num_sub (num_of_Z now) (timestamp e))) (num_of_Z 60000)
    then Some e else None
  else None.

Lemma sync_value_reads e :
  sync_sid e ≠ [] →
  isAuthSessionSyncEvent (Some (sync_value e)) = true ∧ as_sync_event (Some (sync_value e)) = Some e.
Proof. destruct e as [k [|c s] src n ts]; [done | ]. by destruct k. Qed.

(** ** Requests *)

(** The options of the client that the interceptors read, and the header they set. *)
Record ApiRequestConfig := mkConfig {
  skipBusinessError : bool;
  skipErrorHandler : bool;
  skipAuthRefresh : bool;
  authRetry : bool;
  acceptAuthRotation : bool;
  authorization : option ustring;
}.

Definition mark_retry (c : ApiRequestConfig) : ApiRequestConfig :=
  mkConfig (skipBusinessError c) (skipErrorHandler c) (skipAuthRefresh c) true
    (acceptAuthRotation c) (authorization c).

Definition set_authorization (h : ustring) (c : ApiRequestConfig) : ApiRequestConfig :=
  mkConfig (skipBusinessError c) (skipErrorHandler c) (skipAuthRefresh c) (authRetry c)
    (acceptAuthRotation c) (Some h).

(** What the user sees of a request. *)
Inductive ui :=
| ToastBusinessError (body : option json)
| ToastSessionExpired
| ToastRequestError (st : option Z)
| RedirectToSignIn.

(** The answer to a request: a response, or a failure with its status if it has one. *)
Inductive http_answer :=
| Answer (body : option json)
| Refused (st : option Z).

Inductive http_result :=
| Fulfilled (body : option json)
| RejectedRotation (e : AuthRotationError)
| Rejected (st : option Z).

Section client.
Context {S : Type} `{PlaygroundStore S}.
Abbreviation tab := (Tab S).

(** The request interceptor. *)
Definition onRequest (t : tab) (config : ApiRequestConfig) : ApiRequestConfig :=
  match truthy_text (accessToken (auth t)) with
  | Some token => set_authorization (js "Bearer " ++ token) config
  | None => config
  end.

(** The fulfilled response interceptor. *)
Definition onFulfilled (t : tab) (config : ApiRequestConfig) (body : option json)
    : tab * list ui * http_result :=
  let rotated :=
    if acceptAuthRotation config && isTrue (prop body "success")
    then applyAuthRotation (prop body "data") t else Ok t in
  match rotated with
  | Err e => (t, [], RejectedRotation e)
  | Ok t =>
      let failed := match prop body "success" with Some (JBool false) => true | _ => false end in
      (t, if negb (skipBusinessError config) && failed then [ToastBusinessError body] else [],
       Fulfilled body)
  end.

Definition unless (b : bool) (effects : list ui) : list ui := if b then [] else effects.

(** The rejected response interceptor up to its await: either it awaits the refresh with
    the marked configuration, or it ends. *)
Definition onRejected (t : tab) (config : ApiRequestConfig) (st : option Z)
    : tab * list ui * option ApiRequestConfig :=
  if bool_decide (st = Some 401%Z) then
    if negb (skipAuthRefresh config) && negb (authRetry config) then (t, [], Some (mark_retry config))
    else if authRetry config then
      (clearAuthentication false Complete t,
       unless (skipErrorHandler config) [ToastSessionExpired] ++ [RedirectToSignIn], None)
    else (t, unless (skipErrorHandler config) [ToastSessionExpired], None)
  else (t, unless (skipErrorHandler config) [ToastRequestError st], None).

(** The same after the refresh: the request to send again, if any. *)
Definition afterRefresh (t : tab) (config : ApiRequestConfig) (outcome : RefreshOutcome)
    : list ui * option ApiRequestConfig :=
  match outcome with
  | OAuthenticated _ =>
      ([], Some (match truthy_text (accessToken (auth t)) with
                 | Some token => set_authorization (js "Bearer " ++ token) config
                 | None => config
                 end))
  | OAnonymous | OOutOfSync _ =>
      (unless (skipErrorHandler config) [ToastSessionExpired] ++ [RedirectToSignIn], None)
  | OTransientError _ => ([], None)
  end.

(** A request through the interceptors.  [server] answers the [n]-th sending, [refresher]
    is the tab and the outcome when the awaited refresh has ended.  The result is [None]
    when [fuel] sendings are not enough. *)
Fixpoint request (server : nat → ApiRequestConfig → http_answer)
    (refresher : nat → tab → tab * RefreshOutcome) (fuel n : nat) (t : tab)
    (config : ApiRequestConfig)
    : option (tab * list ui * list ApiRequestConfig * http_result) :=
  match fuel with
  | 0 => None
  | Datatypes.S fuel =>
      let config := onRequest t config in
      match server n config with
      | Answer body =>
          let '(t, effects, r) := onFulfilled t config body in Some (t, effects, [config], r)
      | Refused st =>
          let '(t, effects, retry) := onRejected t config st in
          match retry with
          | None => Some (t, effects, [config], Rejected st)
          | Some config' =>
              let '(t, outcome) := refresher n t in
              let '(effects', again) := afterRefresh t config' outcome in
              match again with
              | None => Some (t, effects ++ effects', [config], Rejected st)
              | Some config' =>
                  '(t, effects'', sent_configs, r) ←
                    request server refresher fuel (Datatypes.S n) t config';
                  Some (t, effects ++ effects' ++ effects'', config :: sent_configs, r)
              end
          end
      end
  end.
End client.

(** ** Sharing GET requests *)

(** The pending GET requests by key; promises are numbered as they are made. *)
Record get_state := mkGets {
  inFlightGet : list (ustring * nat);
  nextPromise : nat;
}.

Definition COLON : Z := 58.

(** The key of a request: [params] is the text of its parameters. *)
Definition request_key (currentSID : option ustring) (url params : ustring) : ustring :=
  (match truthy_text currentSID with Some s => s | None => js "anonymous" end) ++
  [COLON] ++ url ++ js "?" ++ params.

Fixpoint pending (m : list (ustring * nat)) (key : ustring) : option nat :=
  match m with
  | [] => None
  | (k, p) :: rest => if ustring_eqb k key then Some p else pending rest key
  end.

(** [api.get]: the promise it returns. *)
Definition api_get (g : get_state) (disableDuplicate : bool) (currentSID : option ustring)
    (url params : ustring) : get_state * nat :=
  if disableDuplicate then (mkGets (inFlightGet g) (S (nextPromise g)), nextPromise g)
  else
    let key := request_key currentSID url params in
    match pending (inFlightGet g) key with
    | Some p => (g, p)
    | None => (mkGets (inFlightGet g ++ [(key, nextPromise g)]) (S (nextPromise g)), nextPromise g)
    end.

(** The [finally] of a shared request. *)
Definition get_settled (g : get_state) (key : ustring) : get_state :=
  mkGets (filter (fun item => item.1 ≠ key) (inFlightGet g)) (nextPromise g).
