(* ===== verification/AuthProperties.v ===== *)
(** * Properties of the authentication session *)

From stdpp Require Import base list numbers strings option sets gmap.
From Stdlib Require Import Lia.
From S2P Require Import Prelude JsNumber Json BrowserStorage AuthStore AuthSession AuthSafety.
From S2P Require Import AuthClient.

(** ** Helpers on the client *)

Section client_lemmas.
Context {S : Type} `{PlaygroundStore S}.
Abbreviation tab := (Tab S).

Lemma onRequest_authRetry (t : tab) c : authRetry (onRequest t c) = authRetry c.
Proof. unfold onRequest. by destruct (truthy_text _). Qed.

(** A request marked as a retry is never sent again. *)
Lemma onRejected_retried (t : tab) c st :
  authRetry c = true → snd (onRejected t c st) = None.
Proof.
  intros Hc. unfold onRejected. rewrite Hc, andb_false_r.
  by destruct (bool_decide _).
Qed.

Lemma onRejected_marks (t : tab) c st c' :
  snd (onRejected t c st) = Some c' → c' = mark_retry c ∧ st = Some 401%Z.
Proof.
  unfold onRejected. destruct (bool_decide _) eqn:E; [ | done]. bools.
  destruct (_ && _); simpl; [by intros [= <-] | by destruct (authRetry c)].
Qed.

Lemma afterRefresh_retry (t : tab) c o c' :
  snd (afterRefresh t c o) = Some c' →
  authRetry c' = authRetry c ∧ ∃ b, o = OAuthenticated b.
Proof.
  destruct o; simpl; try done. intros [= <-]. split; [by destruct (truthy_text _) | eauto].
Qed.

Lemma request_retried server refresher n (t : tab) c :
  authRetry c = true →
  ∃ t' effects r, request server refresher 1 n t c = Some (t', effects, [onRequest t c], r).
Proof.
  intros Hc. cbn [request]. destruct (server n (onRequest t c)) as [body|st].
  - destruct (onFulfilled t (onRequest t c) body) as [[t' effects] r]. eauto.
  - pose proof (onRejected_retried t (onRequest t c) st) as Hn.
    destruct (onRejected t (onRequest t c) st) as [[t' effects] retry]. simpl in Hn.
    rewrite Hn by (by rewrite onRequest_authRetry). eauto.
Qed.

Lemma request_twice server refresher n (t : tab) c :
  ∃ t' effects sent r,
    request server refresher 2 n t c = Some (t', effects, sent, r) ∧ length sent ≤ 2 ∧
    ∀ c1 c2, sent = [c1; c2] → authRetry c2 = true ∧ server n c1 = Refused (Some 401%Z).
Proof.
  change 2 with (Datatypes.S 1). remember 1 as fuel eqn:Hfuel. cbn [request].
  destruct (server n (onRequest t c)) as [body|st] eqn:Es.
  - destruct (onFulfilled t (onRequest t c) body) as [[t' effects] r].
    repeat eexists; [simpl; lia | done | done].
  - pose proof (onRejected_marks t (onRequest t c) st) as Hm.
    destruct (onRejected t (onRequest t c) st) as [[t' effects] [c'|]]; [ | repeat eexists; simpl; done || lia].
    destruct (Hm c' eq_refl) as [-> ->]. destruct (refresher n t') as [t'' o].
    pose proof (afterRefresh_retry t'' (mark_retry (onRequest t c)) o) as Ha.
    destruct (afterRefresh t'' (mark_retry (onRequest t c)) o) as [effects' [c''|]];
      [ | repeat eexists; simpl; done || lia].
    destruct (Ha c'' eq_refl) as [Hr _].
    subst fuel. destruct (request_retried server refresher (Datatypes.S n) t'' c'' Hr)
      as (t3 & effects3 & r3 & ->). cbn [mbind option_bind].
    eexists _, _, _, _. split; [reflexivity | ]. split; [simpl; lia | ].
    intros c1 c2 [= <- <-]. rewrite onRequest_authRetry. done.
Qed.
End client_lemmas.

(** ** Helpers on shared requests *)

(** What a caller of [api.get] does, and the settling of a shared request. *)
Inductive get_call :=
| Get (disableDuplicate : bool) (currentSID : option ustring) (url params : ustring)
| GetSettled (key : ustring).

(** The key and the promise of each call that may share, in order. *)
Fixpoint get_log (g : get_state) (calls : list get_call) : list (ustring * nat) :=
  match calls with
  | [] => []
  | Get disable s url params :: rest =>
      let '(g', p) := api_get g disable s url params in
      if disable then get_log g' rest else (request_key s url params, p) :: get_log g' rest
  | GetSettled key :: rest => get_log (get_settled g key) rest
  end.

Lemma pending_in m key p : pending m key = Some p → (key, p) ∈ m.
Proof.
  induction m as [|[k q] m IH]; simpl; [done | ].
  destruct (ustring_eqb k key) eqn:E; intros ?; bools; simplify_eq; [left | right; auto].
Qed.

(** Promises in use are old, and one promise stands for one key. *)
Definition gets_ok (known : list (ustring * nat)) (g : get_state) : Prop :=
  (∀ k p, (k, p) ∈ known → p < nextPromise g) ∧
  (∀ k p, (k, p) ∈ inFlightGet g → (k, p) ∈ known) ∧
  (∀ k k' p, (k, p) ∈ known → (k', p) ∈ known → k = k').

Lemma gets_ok_settled known g key : gets_ok known g → gets_ok known (get_settled g key).
Proof.
  intros (H1 & H2 & H3). split; [done | ]. split; [ | done].
  intros k p Hin. apply H2. simpl in Hin. by apply list_elem_of_filter in Hin as [_ ?].
Qed.

Lemma gets_ok_fresh known g key m :
  gets_ok known g → (∀ x, x ∈ m → x ∈ inFlightGet g ∨ x = (key, nextPromise g)) →
  gets_ok ((key, nextPromise g) :: known) (mkGets m (S (nextPromise g))).
Proof.
  intros (H1 & H2 & H3) Hm. split; [ | split].
  - intros k p [[= -> ->] | Hin]%elem_of_cons; simpl; [lia | ]. apply H1 in Hin. lia.
  - intros k p Hin. apply elem_of_cons. destruct (Hm _ Hin) as [Hk | ->]; auto.
  - intros k k' p [[= -> ->] | Hin]%elem_of_cons [[= ->] | Hin']%elem_of_cons; eauto; simplify_eq.
    + apply H1 in Hin'. lia.
    + apply H1 in Hin. lia.
Qed.

Lemma get_log_same_key calls known g k k' p :
  gets_ok known g → (k, p) ∈ get_log g calls ++ known → (k', p) ∈ get_log g calls ++ known → k = k'.
Proof.
  revert known g. induction calls as [|[disable s url params | key] calls IH]; intros known g Hok.
  - destruct Hok as (_ & _ & H3). apply H3.
  - cbn [get_log]. unfold api_get. destruct disable.
    + intros Hin Hin'. apply (IH known (mkGets (inFlightGet g) (S (nextPromise g)))); try done.
      destruct Hok as (H1 & H2 & H3). split; [ | done]. intros ?? Hk. simpl. apply H1 in Hk. lia.
    + destruct (pending _ _) as [q|] eqn:Ep.
      * apply pending_in in Ep. assert (Hq : (request_key s url params, q) ∈ known)
          by (by apply Hok).
        intros Hin Hin'. apply (IH known g Hok); set_solver.
      * intros Hin Hin'.
        apply (IH ((request_key s url params, nextPromise g) :: known)
                 (mkGets (inFlightGet g ++ [(request_key s url params, nextPromise g)])
                    (S (nextPromise g)))); [ | set_solver | set_solver].
        apply gets_ok_fresh; [done | ]. intros x Hx. apply elem_of_app in Hx as [|Hx]; [by left | ].
        right. by apply list_elem_of_singleton in Hx.
  - apply IH. by apply gets_ok_settled.
Qed.

Lemma colon_split a b x y : COLON ∉ a → COLON ∉ b → a ++ COLON :: x = b ++ COLON :: y → a = b ∧ x = y.
Proof.
  revert b. induction a as [|c a IH]; intros [|d b] Ha Hb E; simplify_eq/=.
  - done.
  - exfalso. apply Hb. left.
  - exfalso. apply Ha. left.
  - destruct (IH b) as [-> ->]; set_solver.
Qed.

(** ** Samples *)

Definition session_json (s : ustring) : json :=
  JObject [(js "sid", JString s); (js "current", JBool true); (js "login_method", JString (js "password"));
           (js "ip", JString (js "10.0.0.1")); (js "user_agent", JString (js "test"));
           (js "created_at", JNumber (num_of_Z 1)); (js "last_active_at", JNumber (num_of_Z 2));
           (js "expires_at", JNumber (num_of_Z 3))].

Definition rotation_fields (token s : ustring) (expires : Z) : list (ustring * json) :=
  [(js "access_token", JString token); (js "token_type", JString (js "Bearer"));
   (js "access_expires_at", JNumber (num_of_Z expires)); (js "session", session_json s)].

Definition bundle_json (account : Z) (token s : ustring) (expires : Z) : json :=
  JObject (rotation_fields token s expires ++
           [(js "user", JObject [(js "id", JNumber (num_of_Z account)); (js "username", JString (js "u"));
                                 (js "role", JNumber (num_of_Z 1))])]).

Definition sample_session (s : ustring) : LoginSession :=
  mkSession s true (js "password") (js "10.0.0.1") (js "test") (num_of_Z 1) (num_of_Z 2) (num_of_Z 3).

Definition sample_bundle (account : Z) (token s : ustring) (expires : Z) : AuthBundle :=
  mkBundle token (js "Bearer") (num_of_Z expires)
    (mkUser (num_of_Z account) (js "u") (num_of_Z 1)
       (JObject [(js "id", JNumber (num_of_Z account)); (js "username", JString (js "u"));
                 (js "role", JNumber (num_of_Z 1))]))
    (sample_session s).

Definition ok_response (v : json) : response :=
  mkResponse 200 (Some (JObject [(js "success", JBool true); (js "data", v)])).

Definition mismatch_response : response :=
  mkResponse 409 (Some (JObject [(js "success", JBool false);
                                 (js "code", JString (js "AUTH_SESSION_MISMATCH"))])).

Definition alice : AuthBundle := sample_bundle 1 (js "t1") (js "s1") 2000000000.
Definition bob : AuthBundle := sample_bundle 2 (js "t2") (js "s2") 2000000000.
Definition chat : localStorage → localStorage := fun st => setItem st MESSAGES_KEY (js "hello").
Definition empty_tab : Tab localStorage := fresh_tab [].

Lemma alice_valid : valid_bundle alice.
Proof. repeat split; vm_compute; done. Qed.

Lemma bob_valid : valid_bundle bob.
Proof. repeat split; vm_compute; done. Qed.

(** ** The answers of the samples *)

Section answers.
Context {S : Type} `{PlaygroundStore S}.
Abbreviation tab := (Tab S).

Lemma isCurrent_with_auth f (t : tab) j : isCurrent (with_auth f t) j = isCurrent t j.
Proof. done. Qed.

Lemma step_respond has_locks (t : tab) j a allow r :
  refreshPromise t = Some j → job_phase j = Requesting a allow →
  step has_locks t (Respond r)
  = with_refresh (Some (snd (receive t j a allow r))) (fst (receive t j a allow r)).
Proof.
  intros Hj Hp. cbn [step]. unfold with_job. rewrite Hj, Hp.
  by destruct (receive t j a allow r).
Qed.

Lemma receive_mismatch (t : tab) j a :
  isCurrent t j = true →
  receive t j a true mismatch_response = run (with_auth (reset Idle) t) j 0 false.
Proof. intros Hc. unfold receive. by rewrite Hc. Qed.

Lemma receive_bundle (t : tab) j a allow v b :
  isCurrent t j = true → parseBundle (Some v) = Some b →
  receive t j a allow (ok_response v) = (applyAuthBundle b false t, settle (OAuthenticated b) j).
Proof.
  intros Hc Hb. unfold receive. rewrite Hc. cbn [negb].
  change (isRecord (data (ok_response v))) with true. cbn iota.
  change (isTrue (prop (data (ok_response v)) "success")) with true. cbn iota.
  change (prop (data (ok_response v)) "data") with (Some v). by rewrite Hb.
Qed.

Lemma applyAuthBundle_signed_out b (t : tab) :
  user (auth t) = None →
  playground (applyAuthBundle b false t) = playground t ∧
  authors (applyAuthBundle b false t) = authors t.
Proof. intros Hu. unfold applyAuthBundle. cbv zeta. by rewrite Hu. Qed.
End answers.

(** ** Theorems *)

Section theorems.
Context {S : Type} `{PlaygroundStore S}.
Abbreviation tab := (Tab S).

(** C6: every refresh ends: whatever the server answers, and whatever other code does to the
    tab between two awaits, a refresh that has just begun is settled after fifteen rounds
    (its lock, at most eight responses and at most six delays), and has sent at most
    eight requests. *)
Theorem refresh_always_settles (interfere : nat → tab → tab) responses has_locks (t : tab) :
  let j := snd (start_refresh has_locks t) in
  let j' := snd (drive interfere responses 15 t j) in
  (∃ outcome, job_phase j' = Settled outcome) ∧ length (sent j') ≤ 8.
Proof.
  cbv zeta. set (j := snd (start_refresh has_locks t)).
  assert (Hj : waiting_ok (job_phase j) ∧ rounds_left (job_phase j) ≤ 15 ∧
               length (sent j) + requests_left (job_phase j) ≤ 8).
  { subst j. unfold start_refresh, run, isCurrent. simpl. rewrite Nat.eqb_refl.
    destruct has_locks; simpl; repeat split; lia. }
  destruct Hj as (Hw & Hr & Hq).
  destruct (drive_settles interfere responses 15 t j Hw Hr) as [Ho Hs].
  split; [exact Ho | ]. etransitivity; [exact Hs | exact Hq].
Qed.

(** C7: a refresh that was in flight when the user signed in, signed out or lost the
    session cannot touch what came of it: over any further events of that refresh
    (responses, delays, its deadline, its end) the credentials, the epoch, the playground
    data and the messages to other tabs stay as the change left them. *)
Theorem stale_refresh_cannot_change_session has_locks (st : S) es change later :
  change ∈ [SignOut; ExpireSession] ∨ (∃ b, change = SignIn b) → Forall refresh_event later →
  let t := step has_locks (steps has_locks (fresh_tab st) es) change in
  same_session t (steps has_locks t later).
Proof.
  intros Hchange Hlater. cbv zeta. apply refresh_events_superseded; [done | ].
  assert (Hok : epoch_ok (steps has_locks (fresh_tab st) es)) by (by apply steps_epoch_ok).
  set (t0 := steps has_locks (fresh_tab st) es) in *.
  assert (Hs : ∀ t' : tab, authEpoch t' = Datatypes.S (authEpoch t0) →
                           refreshPromise t' = refreshPromise t0 → superseded t').
  { intros t' He Hp. unfold superseded, epoch_ok in *. rewrite Hp, He.
    destruct (refreshPromise t0); [lia | done]. }
  destruct Hchange as [Hin | [b ->]].
  - apply elem_of_cons in Hin as [-> | Hin]; [ | apply list_elem_of_singleton in Hin as ->];
      cbn [step]; apply Hs; apply clearAuthentication_frame.
  - cbn [step]. apply Hs; apply applyAuthBundle_frame.
Qed.



(** signing out does not stop the work that is under way: a profile save that ends afterwards
    puts its user back into the store, without token and session; and a save of the
    playground that was waiting is made afterwards, by its timer or when the page is left, so
    that the chats of the account are in the storage again. *)
Theorem late_work_outlives_sign_out has_locks (t : tab) :
  (∀ n u f, edits t !! n = Some u →
     let t' := steps has_locks t [SignOut; EndProfileSave n (Some f)] in
     user (auth t') = Some (mkUser (user_id u) (username u) (role u) (f (user_value u))) ∧
     accessToken (auth t') = None ∧ session (auth t') = None) ∧
  (∀ p f late, page t = Some p → saveTimer p = Some f → late ∈ [SaveTimer; UnmountPlayground] →
     let t' := steps has_locks t [SignOut; late] in
     user (auth t') = None ∧ playground t' = f (clear_playground (playground t)) ∧ authors t' = pageAuthors p).
Proof.
  set (out := clearAuthentication true Complete t).
  destruct (clearAuthentication_beside true Complete t) as [He Hp]. fold out in He, Hp.
  assert (Ha : auth out = reset Complete (auth t)) by apply clearAuthentication_auth.
  destruct (clearAuthentication_frame true Complete t) as (_ & _ & Hg & Hw). fold out in Hg, Hw. split.
  - intros n u f Hu. cbn [steps fold_left step]. fold out. unfold end_profile_save. rewrite He, Hu. cbn. by rewrite Ha.
  - intros p f late Hpg Hf Hlate. cbv zeta. cbn [steps fold_left]. change (step has_locks t SignOut) with out.
    apply elem_of_cons in Hlate as [-> | ->%list_elem_of_singleton]; cbn [step];
      unfold save_timer_fires, unmount_playground; rewrite Hp, Hpg, Hf; cbn; by rewrite Ha, Hg, Hw, app_nil_r.
Qed.

(** after a session-mismatch answer the guarantee is lost: the runner forgets the user
    without clearing, so when the repeated request brings the bundle of another account,
    that account finds the playground data of the previous one. *)
Theorem mismatch_retry_keeps_previous_chats has_locks (t : tab) j a v next :
  refreshPromise t = Some j → job_phase j = Requesting a true → isCurrent t j = true →
  parseBundle (Some v) = Some next →
  let t' := steps has_locks t [Respond mismatch_response; Respond (ok_response v)] in
  user (auth t') = Some (bundle_user next) ∧ playground t' = playground t ∧ authors t' = authors t.
Proof.
  intros Hj Hp Hc Hv. cbv zeta. cbn [steps fold_left]. rewrite (step_respond has_locks t j a true) by done.
  rewrite receive_mismatch by done. unfold run. rewrite isCurrent_with_auth, Hc.
  erewrite step_respond by (reflexivity || done). rewrite (receive_bundle _ _ _ _ v next); [ | exact Hc | exact Hv].
  cbn [fst snd]. unfold with_refresh. cbn [auth playground authors].
  rewrite applyAuthBundle_auth. split; [done | ].
  match goal with |- context [applyAuthBundle next false ?t1] =>
    exact (applyAuthBundle_signed_out next t1 eq_refl) end.
Qed.

(** C10: ending the session leaves nothing behind: no credentials, no playground item,
    every other stored item unchanged, and any refresh still in flight is out of date. *)
Theorem sign_out_leaves_nothing sync b (t : tab) :
  let t' := clearAuthentication sync b t in
  auth t' = mkAuth None None None None None b ∧
  playground_items (playground t') = [] ∧
  other_items (playground t') = other_items (playground t) ∧
  ∀ j, refreshPromise t = Some j → epoch_ok t → isCurrent t' j = false.
Proof.
  cbv zeta. rewrite clearAuthentication_auth.
  destruct (clearAuthentication_frame sync b t) as (He & _ & Hp & _). rewrite Hp.
  split; [done | ]. split; [apply clear_removes | ]. split; [apply clear_keeps | ].
  intros j Hj Hok. unfold epoch_ok in Hok. rewrite Hj in Hok. unfold isCurrent. rewrite He.
  apply Nat.eqb_neq. lia.
Qed.

(** a token rotation in a usable session either ends the session because the server asks
    for it, or replaces the token and the session data while the user, the session
    identifier, the playground data and the other tabs are untouched; a value that is not
    a rotation, or is for another session, is refused. *)
Theorem rotation_outcome value (t : tab) :
  session_ok (auth t) →
  match applyAuthRotation value t with
  | Ok t' =>
      t' = clearAuthentication true Complete t ∨
      ∃ r, as_rotation value = Some r ∧ accessToken (auth t') = Some (rot_access_token r) ∧
           user (auth t') = user (auth t) ∧ session_sid (auth t') = session_sid (auth t) ∧
           playground t' = playground t ∧ published t' = published t ∧
           session_ok (auth t')
  | Err InvalidRotationResponse => isAuthTokenRotation value = false
  | Err NoActiveSession => user (auth t) = None
  | Err SessionMismatch =>
      ∃ r, as_rotation value = Some r ∧ session_sid (auth t) ≠ Some (sid (rot_session r))
  end.
Proof.
  intros Hok. pose proof (rotation_session_ok value t) as Hrot.
  unfold applyAuthRotation in *. destruct (_ && _); [by left | ].
  destruct (isAuthTokenRotation value) eqn:E; [ | done].
  apply isAuthTokenRotation_reads in E as (r & Er & _). rewrite Er in *.
  pose proof (session_ok_sid _ Hok) as Hsid. unfold session_sid in *.
  destruct (user (auth t)) as [u|] eqn:Eu; [ | by destruct (session (auth t))].
  destruct (session (auth t)) as [s|]; [ | done]. simpl.
  destruct (ustring_eqb _ _) eqn:Es; bools.
  - right. exists r. specialize (Hrot _ Hok eq_refl). rewrite applyAuthBundle_auth in *. simpl.
    rewrite Es. repeat (split; [done | ]).
    unfold applyAuthBundle. cbv zeta. rewrite Eu. cbn [fmap option_fmap option_map andb].
    rewrite (valid_id_refl u) by (by apply (session_ok_user _ _ Hok)). done.
  - exists r. split; [done | congruence].
Qed.

(** a request through the client always ends and is sent at most twice, whatever the
    server and the refresh do; it is sent a second time only after a refusal with status
    401, and the second sending is marked so that it cannot be repeated. *)
Theorem request_sent_at_most_twice server refresher (t : tab) config :
  ∃ t' effects sent_configs r,
    request server refresher 2 0 t config = Some (t', effects, sent_configs, r) ∧
    length sent_configs ≤ 2 ∧
    ∀ c1 c2, sent_configs = [c1; c2] → authRetry c2 = true ∧ server 0 c1 = Refused (Some 401%Z).
Proof. exact (request_twice server refresher 0 t config). Qed.

(** the headers for a direct request carry a token unless a refresh has just succeeded
    and the session was cleared since: without waiting only when the token lasts another
    minute, after a failed refresh only when it has not expired, and else an error. *)
Theorem fresh_headers_are_fresh now (t : tab) outcome :
  (∀ h, getFreshAuthHeaders_start now t = Some h →
        expires_after (num_add (seconds now) (num_of_Z 60)) t = true ∧
        ∃ token, token ≠ [] ∧ h = [(js "Content-Type", js "application/json");
                                   (js "Authorization", js "Bearer " ++ token)]) ∧
  match getFreshAuthHeaders_finish now t outcome with
  | Ok h => h = getCommonHeaders t ∧
            (expires_after (seconds now) t = true ∨ ∃ b, outcome = OAuthenticated b)
  | Err _ => expires_after (seconds now) t = false ∧ ∀ b, outcome ≠ OAuthenticated b
  end.
Proof.
  split.
  - unfold getFreshAuthHeaders_start. destruct (expires_after _ _) eqn:E; [ | done].
    intros h [= <-]. split; [done | ]. unfold expires_after, getCommonHeaders in *.
    destruct (accessToken (auth t)) as [[|c token]|]; try done. by exists (c :: token).
  - unfold getFreshAuthHeaders_finish. destruct outcome; try (split; [done | eauto]).
    all: destruct (expires_after (seconds now) t) eqn:E; eauto.
Qed.
End theorems.

(** a value the guard accepts is a bundle: it reads as one, with a token that is not
    empty, a finite positive expiry, a positive user number and a session identifier. *)
Theorem accepted_bundle_is_valid value :
  isAuthBundle value = true → ∃ b, parseBundle value = Some b ∧ valid_bundle b.
Proof.
  intros Hv. unfold parseBundle. rewrite Hv. by apply isAuthBundle_reads.
Qed.

(** calls of [api.get] that are given the same promise are for the same session and the
    same address and parameters, over any sequence of calls and settlings: data of one
    session is never handed to a caller of another.  Session identifiers have no colon. *)
Theorem shared_get_same_session calls s1 s2 url1 url2 params1 params2 p :
  COLON ∉ default (js "anonymous") (truthy_text s1) →
  COLON ∉ default (js "anonymous") (truthy_text s2) →
  (request_key s1 url1 params1, p) ∈ get_log (mkGets [] 0) calls →
  (request_key s2 url2 params2, p) ∈ get_log (mkGets [] 0) calls →
  default (js "anonymous") (truthy_text s1) = default (js "anonymous") (truthy_text s2) ∧
  url1 ++ js "?" ++ params1 = url2 ++ js "?" ++ params2.
Proof.
  intros Hc1 Hc2 H1 H2. apply colon_split; [done | done | ].
  apply (get_log_same_key calls [] (mkGets [] 0) _ _ p); rewrite ?app_nil_r; try done.
  split; [ | split]; set_solver.
Qed.

(** signing out reaches the other tabs: the message a tab posts when its session ends is
    delivered to every other tab that receives it within a minute, and a tab with the same
    session then has no credentials and no playground data left. *)
Theorem sign_out_reaches_other_tabs {S1 S2} `{PlaygroundStore S1} `{PlaygroundStore S2}
    (t1 : Tab S1) (t2 : Tab S2) s src1 src2 n now now' :
  session_sid (auth t1) = Some s → session_sid (auth t2) = Some s → s ≠ [] → src1 ≠ src2 →
  num_ltb (num_abs (num_sub (num_of_Z now') (num_of_Z now))) (num_of_Z 60000) = true →
  published (clearAuthentication true Complete t1) = published t1 ++ [(SignedOut, s)] ∧
  ∃ e e', sync_event src1 n now SignedOut s = Some e ∧
          deliver src2 now' (Some (sync_value e)) = Some e' ∧
          let t2' := onRemoteEvent (sync_kind_of e') (sync_sid e') t2 in
          session_ok (auth t2') ∧ user (auth t2') = None ∧ playground_items (playground t2') = [].
Proof.
  intros H1 H2 Hs Hsrc Htime. assert (Ht : truthy s = true) by (by destruct s). split.
  { unfold clearAuthentication. cbv zeta. rewrite H1. unfold publishAuthSessionEvent.
    by rewrite Ht. }
  set (e := mkSync SignedOut s src1 n (num_of_Z now)).
  destruct (sync_value_reads e Hs) as [Hg Hr].
  exists e, e. unfold sync_event, deliver. rewrite Ht, Hg, Hr. cbn [mbind option_bind].
  split; [done | ]. change (timestamp e) with (num_of_Z now). rewrite Htime.
  unfold ustring_eqb. rewrite bool_decide_false by done. split; [done | ].
  cbv zeta. change (sync_kind_of e) with SignedOut. change (sync_sid e) with s.
  unfold onRemoteEvent. cbv zeta. rewrite H2, Ht. unfold ustring_eqb.
  rewrite bool_decide_true by done. cbn [andb]. rewrite clearAuthentication_auth.
  destruct (clearAuthentication_frame false Complete t2) as (_ & _ & -> & _).
  split; [done | ]. split; [done | apply clear_removes].
Qed.

(** ** The theorems at work *)

(** Alice signs in, writes to the playground, and a refresh waits for its response. *)
Definition refreshing : list (event localStorage) := [SignIn alice; MountPlayground; LoadMessages id; UpdateMessages chat; SaveTimer; BeginProfileSave; Refresh].

Lemma refreshing_ok : Forall event_ok refreshing.
Proof. repeat constructor; apply alice_valid. Qed.

Lemma stale_refresh_cannot_change_session_witness :
  let t := step false (steps false empty_tab refreshing) SignOut in
  same_session t (steps false t [Respond (ok_response (bundle_json 1 (js "t3") (js "s1") 5)); Finally]).
Proof.
  apply (stale_refresh_cannot_change_session false [] refreshing SignOut).
  - left. left.
  - repeat constructor.
Defined.

Lemma refreshing_session_ok : session_ok (auth (steps false empty_tab refreshing)).
Proof.
  apply steps_session_ok; [apply refreshing_ok | | by split; [split | ] | done]. vm_compute. by repeat split.
Defined.

(** The language of the profile is saved, and Alice signs out. *)
Definition saved_in_time : list (event localStorage) := refreshing ++ [EndProfileSave 0 (Some id); SignOut].

Lemma saved_in_time_ok : Forall event_ok saved_in_time.
Proof. apply Forall_app. split; [apply refreshing_ok | by repeat constructor]. Qed.



Lemma late_work_outlives_sign_out_witness :
  let t := steps false empty_tab [SignIn alice; MountPlayground; LoadMessages id; UpdateMessages chat] in
  authors (steps false t [SignOut; UnmountPlayground]) = [num_of_Z 1].
Proof.
  refine (proj2 (proj2 (proj2 (late_work_outlives_sign_out false
    (steps false empty_tab [SignIn alice; MountPlayground; LoadMessages id; UpdateMessages chat]))
    (mkPage (Some (num_of_Z 1)) [num_of_Z 1] true (Some chat)) chat UnmountPlayground _ _ _))).
  - vm_compute. reflexivity.
  - reflexivity.
  - right. left.
Defined.

Lemma mismatch_retry_keeps_previous_chats_witness :
  let t := steps false empty_tab refreshing in
  let t' := steps false t [Respond mismatch_response;
                           Respond (ok_response (bundle_json 2 (js "t2") (js "s2") 2000000000))] in
  user (auth t') = Some (bundle_user bob) ∧ playground t' = playground t ∧ authors t' = authors t.
Proof.
  apply (mismatch_retry_keeps_previous_chats false (steps false empty_tab refreshing)
           (mkRefresh 1 false (Requesting 0 true) [Some (js "s1")]) 0
           (bundle_json 2 (js "t2") (js "s2") 2000000000) bob);
    vm_compute; reflexivity.
Defined.

Lemma sign_out_leaves_nothing_witness :
  isCurrent (clearAuthentication true Complete (steps false empty_tab refreshing))
    (mkRefresh 1 false (Requesting 0 true) [Some (js "s1")]) = false.
Proof.
  apply (sign_out_leaves_nothing true Complete (steps false empty_tab refreshing)).
  - vm_compute. reflexivity.
  - vm_compute. apply le_n.
Defined.

Lemma rotation_outcome_witness :
  match applyAuthRotation (Some (JObject (rotation_fields (js "t9") (js "s9") 7)))
          (steps false empty_tab refreshing) with
  | Ok _ | Err InvalidRotationResponse | Err NoActiveSession => True
  | Err SessionMismatch =>
      ∃ r, as_rotation (Some (JObject (rotation_fields (js "t9") (js "s9") 7))) = Some r ∧
           session_sid (auth (steps false empty_tab refreshing)) ≠ Some (sid (rot_session r))
  end.
Proof.
  exact (rotation_outcome (Some (JObject (rotation_fields (js "t9") (js "s9") 7)))
           (steps false empty_tab refreshing)
           refreshing_session_ok).
Defined.

Definition plain_config : ApiRequestConfig := mkConfig false false false false false None.

Lemma request_sent_at_most_twice_witness :
  ∃ t' effects sent_configs r,
    request (fun _ _ => Refused (Some 401%Z)) (fun _ t => (t, OAuthenticated alice)) 2 0
      (steps false empty_tab refreshing) plain_config = Some (t', effects, sent_configs, r) ∧
    length sent_configs ≤ 2 ∧
    ∀ c1 c2, sent_configs = [c1; c2] → authRetry c2 = true ∧
      Refused (Some 401%Z) = Refused (Some 401%Z).
Proof.
  exact (request_sent_at_most_twice (fun _ _ => Refused (Some 401%Z))
           (fun _ t => (t, OAuthenticated alice)) (steps false empty_tab refreshing) plain_config).
Defined.

Lemma fresh_headers_are_fresh_witness :
  ∃ token, token ≠ [] ∧
    [(js "Content-Type", js "application/json"); (js "Authorization", js "Bearer t1")]
    = [(js "Content-Type", js "application/json"); (js "Authorization", js "Bearer " ++ token)].
Proof.
  refine (proj2 (proj1 (fresh_headers_are_fresh 1700000000000 (steps false empty_tab [SignIn alice])
                          OAnonymous) _ _)).
  vm_compute. reflexivity.
Defined.

Lemma accepted_bundle_is_valid_witness :
  ∃ b, parseBundle (Some (bundle_json 2 (js "t2") (js "s2") 9)) = Some b ∧ valid_bundle b.
Proof. apply accepted_bundle_is_valid. vm_compute. reflexivity. Defined.

Lemma shared_get_same_session_witness :
  js "s1" = js "s1" ∧ js "/api/x" ++ js "?" ++ js "{}" = js "/api/x" ++ js "?" ++ js "{}".
Proof.
  apply (shared_get_same_session
           [Get false (Some (js "s1")) (js "/api/x") (js "{}");
            Get false (Some (js "s2")) (js "/api/x") (js "{}");
            Get false (Some (js "s1")) (js "/api/x") (js "{}")]
           (Some (js "s1")) (Some (js "s1")) (js "/api/x") (js "/api/x") (js "{}") (js "{}") 0).
  - apply (bool_decide_unpack _). vm_compute. exact I.
  - apply (bool_decide_unpack _). vm_compute. exact I.
  - vm_compute. left.
  - vm_compute. right. right. left.
Defined.

Lemma sign_out_reaches_other_tabs_witness :
  published (clearAuthentication true Complete (steps false empty_tab refreshing))
  = published (steps false empty_tab refreshing) ++ [(SignedOut, js "s1")].
Proof.
  apply (sign_out_reaches_other_tabs (steps false empty_tab refreshing)
           (steps false empty_tab refreshing) (js "s1") (js "tab-a") (js "tab-b") (js "n1")
           1700000000000 1700000000500).
  - vm_compute. reflexivity.
  - vm_compute. reflexivity.
  - discriminate.
  - discriminate.
  - vm_compute. reflexivity.
Defined.
