(* ===== verification/JsonText.v ===== *)
(** * JSON texts

    [JSON.parse] of the language, as far as the program uses it: the grammar of JSON over
    UTF-16 code units, decimal numbers read as binary64 numbers, and objects whose
    properties are in the order the language enumerates them: array indices in ascending
    order, then the other names in the order they first appeared, the last value of a
    repeated name being kept. *)

From Stdlib Require Import Lia.
From stdpp Require Import base numbers strings option list.
From S2P Require Import Prelude JsNumber Json.

(** The outcome of reading from a text: a value and the rest, or a syntax error; running
    out of [fuel] is kept apart. *)
Inductive reading (A : Type) := Read (a : A) (rest : ustring) | SyntaxError | OutOfFuel.
Arguments Read {A} a rest.
Arguments SyntaxError {A}.
Arguments OutOfFuel {A}.

Definition is_json_space (c : Z) : bool :=
  (c =? 32)%Z || (c =? 9)%Z || (c =? 10)%Z || (c =? 13)%Z.

Definition skip_space (s : ustring) : ustring := drop_while is_json_space s.

(** ** Strings *)

Definition escape_value (c : Z) : option Z :=
  if (c =? DQUOTE)%Z then Some DQUOTE
  else if (c =? chr "\")%Z then Some (chr "\")
  else if (c =? chr "/")%Z then Some (chr "/")
  else if (c =? chr "b")%Z then Some 8%Z
  else if (c =? chr "f")%Z then Some 12%Z
  else if (c =? chr "n")%Z then Some 10%Z
  else if (c =? chr "r")%Z then Some 13%Z
  else if (c =? chr "t")%Z then Some 9%Z
  else None.

Definition hex_digit (c : Z) : option Z :=
  if is_digit c then Some (c - chr "0")%Z
  else if (chr "a" <=? c)%Z && (c <=? chr "f")%Z then Some (c - chr "a" + 10)%Z
  else if (chr "A" <=? c)%Z && (c <=? chr "F")%Z then Some (c - chr "A" + 10)%Z
  else None.

Definition hex_unit (h1 h2 h3 h4 : Z) : option Z :=
  a ← hex_digit h1; b ← hex_digit h2; c ← hex_digit h3; d ← hex_digit h4;
  Some (((a * 16 + b) * 16 + c) * 16 + d)%Z.

(** The characters after the opening quote. *)
Fixpoint read_string (s : ustring) (acc : ustring) : reading ustring :=
  match s with
  | [] => SyntaxError
  | c :: s' =>
      if (c =? DQUOTE)%Z then Read (reverse acc) s'
      else if (c =? chr "\")%Z then
        match s' with
        | [] => SyntaxError
        | e :: s'' =>
            if (e =? chr "u")%Z then
              match s'' with
              | h1 :: h2 :: h3 :: h4 :: s3 =>
                  match hex_unit h1 h2 h3 h4 with
                  | Some u => read_string s3 (u :: acc)
                  | None => SyntaxError
                  end
              | _ => SyntaxError
              end
            else match escape_value e with
                 | Some u => read_string s'' (u :: acc)
                 | None => SyntaxError
                 end
        end
      else if (c <? 32)%Z then SyntaxError
      else read_string s' (c :: acc)
  end.

(** ** Numbers *)

(** [0] or digits without a leading zero. *)
Definition read_integer (s : ustring) : option (ustring * ustring) :=
  let ds := take_while is_digit s in
  match ds with
  | [] => None
  | d :: _ => if (d =? chr "0")%Z then Some ([d], drop 1 s) else Some (ds, drop (length ds) s)
  end.

Definition read_fraction (s : ustring) : option (ustring * ustring) :=
  match s with
  | c :: s' =>
      if (c =? chr ".")%Z then
        match take_while is_digit s' with
        | [] => None
        | ds => Some (c :: ds, drop (length ds) s')
        end
      else Some ([], s)
  | [] => Some ([], [])
  end.

Definition read_exponent (s : ustring) : option (ustring * ustring) :=
  match s with
  | c :: s' =>
      if (c =? chr "e")%Z || (c =? chr "E")%Z then
        let '(sign, s'') :=
          match s' with
          | d :: r => if (d =? chr "+")%Z || (d =? chr "-")%Z then ([d], r) else ([], s')
          | [] => ([], [])
          end in
        match take_while is_digit s'' with
        | [] => None
        | ds => Some (c :: sign ++ ds, drop (length ds) s'')
        end
      else Some ([], s)
  | [] => Some ([], [])
  end.

Definition read_unsigned (s : ustring) : option (number * ustring) :=
  '(i, s1) ← read_integer s; '(f, s2) ← read_fraction s1; '(e, s3) ← read_exponent s2;
  Some (Number (i ++ f ++ e), s3).

Definition read_number (s : ustring) : reading json :=
  match s with
  | c :: s' =>
      match (if (c =? chr "-")%Z then '(n, r) ← read_unsigned s'; Some (num_neg n, r)
             else read_unsigned s) with
      | Some (n, r) => Read (JNumber n) r
      | None => SyntaxError
      end
  | [] => SyntaxError
  end.

(** ** Objects *)

(** A name that is an array index: the decimal text of an integer below [2^32 - 1]. *)
Definition array_index (name : ustring) : option Z :=
  match name with
  | [] => None
  | d :: rest =>
      if forallb is_digit name && (negb (d =? chr "0")%Z || bool_decide (rest = [])) &&
         (digits_value name <? 4294967295)%Z
      then Some (digits_value name) else None
  end.

(** Setting a property of an object under construction. *)
Fixpoint set_field (fields : list (ustring * json)) (name : ustring) (v : json)
    : list (ustring * json) :=
  match fields with
  | [] => [(name, v)]
  | (k, w) :: rest =>
      if ustring_eqb k name then (k, v) :: rest else (k, w) :: set_field rest name v
  end.

(** The same, at the place enumeration gives it. *)
Fixpoint insert_index (i : Z) (name : ustring) (v : json) (fields : list (ustring * json))
    : list (ustring * json) :=
  match fields with
  | [] => [(name, v)]
  | (k, w) :: rest =>
      match array_index k with
      | Some j => if (i <? j)%Z then (name, v) :: fields else (k, w) :: insert_index i name v rest
      | None => (name, v) :: fields
      end
  end.

Definition enumeration_order (fields : list (ustring * json)) : list (ustring * json) :=
  foldr (fun f acc => match array_index f.1 with
                      | Some i => insert_index i f.1 f.2 acc
                      | None => acc
                      end)
    (filter (fun f => array_index f.1 = None) fields) fields.

(** ** Values *)

Definition keyword (word : ustring) (v : json) (s : ustring) : reading json :=
  if starts_with word s then Read v (drop (length word) s) else SyntaxError.

Fixpoint read_value (fuel : nat) (s : ustring) {struct fuel} : reading json :=
  match fuel with
  | 0 => OutOfFuel
  | S fuel =>
      match skip_space s with
      | [] => SyntaxError
      | c :: s' =>
          if (c =? chr "{")%Z then
            match skip_space s' with
            | d :: r => if (d =? chr "}")%Z then Read (JObject []) r else read_members fuel s' []
            | [] => SyntaxError
            end
          else if (c =? chr "[")%Z then
            match skip_space s' with
            | d :: r => if (d =? chr "]")%Z then Read (JArray []) r else read_elements fuel s' []
            | [] => SyntaxError
            end
          else if (c =? DQUOTE)%Z then
            match read_string s' [] with
            | Read t r => Read (JString t) r
            | SyntaxError => SyntaxError
            | OutOfFuel => OutOfFuel
            end
          else if (c =? chr "t")%Z then keyword (js "true") (JBool true) (c :: s')
          else if (c =? chr "f")%Z then keyword (js "false") (JBool false) (c :: s')
          else if (c =? chr "n")%Z then keyword (js "null") JNull (c :: s')
          else read_number (c :: s')
      end
  end
with read_elements (fuel : nat) (s : ustring) (acc : list json) {struct fuel} : reading json :=
  match fuel with
  | 0 => OutOfFuel
  | S fuel =>
      match read_value fuel s with
      | Read v r =>
          match skip_space r with
          | c :: r' =>
              if (c =? chr ",")%Z then read_elements fuel r' (acc ++ [v])
              else if (c =? chr "]")%Z then Read (JArray (acc ++ [v])) r'
              else SyntaxError
          | [] => SyntaxError
          end
      | SyntaxError => SyntaxError
      | OutOfFuel => OutOfFuel
      end
  end
with read_members (fuel : nat) (s : ustring) (acc : list (ustring * json)) {struct fuel}
    : reading json :=
  match fuel with
  | 0 => OutOfFuel
  | S fuel =>
      match skip_space s with
      | q :: s1 =>
          if (q =? DQUOTE)%Z then
            match read_string s1 [] with
            | Read name s2 =>
                match skip_space s2 with
                | c :: s3 =>
                    if (c =? chr ":")%Z then
                      match read_value fuel s3 with
                      | Read v r =>
                          match skip_space r with
                          | d :: r' =>
                              if (d =? chr ",")%Z then read_members fuel r' (set_field acc name v)
                              else if (d =? chr "}")%Z then
                                Read (JObject (enumeration_order (set_field acc name v))) r'
                              else SyntaxError
                          | [] => SyntaxError
                          end
                      | SyntaxError => SyntaxError
                      | OutOfFuel => OutOfFuel
                      end
                    else SyntaxError
                | [] => SyntaxError
                end
            | SyntaxError => SyntaxError
            | OutOfFuel => OutOfFuel
            end
          else SyntaxError
      | [] => SyntaxError
      end
  end.

(** [JSON.parse(text)]: [None] is the thrown [SyntaxError].  Each nested reading starts
    after at least one character, so the length of the text bounds the recursion. *)
Definition JSON_parse (text : ustring) : option json :=
  match read_value (2 * length text + 2) text with
  | Read v r => match skip_space r with [] => Some v | _ => None end
  | _ => None
  end.

(** ** Readings get shorter, and the bound is enough *)

Definition shorter {A} (n : nat) (r : reading A) : Prop :=
  match r with Read _ rest => length rest < n | SyntaxError => True | OutOfFuel => False end.

Lemma skip_space_length s : length (skip_space s) ≤ length s.
Proof. apply drop_while_length. Qed.

Lemma read_string_shorter s acc : shorter (S (length s)) (read_string s acc).
Proof.
  revert acc. induction s as [s IH] using length_ind. intros acc.
  destruct s as [|c s]; [done | ]. cbn [read_string length].
  destruct (c =? DQUOTE)%Z; [simpl; lia | ]. destruct (c =? chr "\")%Z.
  - destruct s as [|e s]; [done | ]. destruct (e =? chr "u")%Z.
    + destruct s as [|h1 [|h2 [|h3 [|h4 s]]]]; try done.
      destruct (hex_unit h1 h2 h3 h4) as [u|]; [ | done].
      specialize (IH s ltac:(simpl; lia) (u :: acc)). destruct (read_string s (u :: acc)); simpl in *; [lia | done | done].
    + destruct (escape_value e) as [u|]; [ | done].
      specialize (IH s ltac:(simpl; lia) (u :: acc)). destruct (read_string s (u :: acc)); simpl in *; [lia | done | done].
  - destruct (c <? 32)%Z; [done | ].
    specialize (IH s ltac:(simpl; lia) (c :: acc)). destruct (read_string s (c :: acc)); simpl in *; [lia | done | done].
Qed.

Lemma read_integer_shorter s i r : read_integer s = Some (i, r) → length r < length s.
Proof.
  unfold read_integer. destruct (take_while is_digit s) as [|d ds] eqn:E; [done | ].
  pose proof (take_while_length is_digit s) as Hl. rewrite E in Hl. simpl in Hl.
  destruct (d =? chr "0")%Z; intros [= _ <-]; rewrite length_drop; simpl; lia.
Qed.

Lemma read_fraction_length s f r : read_fraction s = Some (f, r) → length r ≤ length s.
Proof.
  unfold read_fraction. destruct s as [|c s]; [by intros [= _ <-] | ].
  destruct (c =? chr ".")%Z; [ | by intros [= _ <-]].
  destruct (take_while is_digit s) as [|d ds]; [done | ]. intros [= _ <-]. rewrite length_drop. simpl. lia.
Qed.

Lemma read_exponent_length s e r : read_exponent s = Some (e, r) → length r ≤ length s.
Proof.
  unfold read_exponent. destruct s as [|c s]; [by intros [= _ <-] | ].
  destruct (_ || _); [ | by intros [= _ <-]].
  destruct s as [|d s]; [done | ]. destruct ((d =? chr "+")%Z || (d =? chr "-")%Z);
    destruct (take_while is_digit _) as [|x ds]; try done; intros [= _ <-];
    rewrite length_drop; simpl; lia.
Qed.

Lemma read_unsigned_shorter s n r : read_unsigned s = Some (n, r) → length r < length s.
Proof.
  unfold read_unsigned. destruct (read_integer s) as [[i s1]|] eqn:E1; [ | done].
  cbn [mbind option_bind]. destruct (read_fraction s1) as [[f s2]|] eqn:E2; [ | done].
  cbn [mbind option_bind]. destruct (read_exponent s2) as [[e s3]|] eqn:E3; [ | done].
  intros [= _ <-]. apply read_integer_shorter in E1. apply read_fraction_length in E2.
  apply read_exponent_length in E3. lia.
Qed.

Lemma read_number_shorter s : shorter (length s) (read_number s).
Proof.
  unfold read_number. destruct s as [|c s]; [done | ]. destruct (c =? chr "-")%Z.
  - destruct (read_unsigned s) as [[n r]|] eqn:E; [ | done]. simpl.
    apply read_unsigned_shorter in E. lia.
  - destruct (read_unsigned (c :: s)) as [[n r]|] eqn:E; [ | done]. simpl.
    apply read_unsigned_shorter in E. simpl in E. lia.
Qed.

Lemma keyword_shorter w v s : w ≠ [] → shorter (length s) (keyword w v s).
Proof.
  intros Hw. unfold keyword. destruct (starts_with w s) eqn:E; [ | done]. simpl.
  apply starts_with_spec in E. rewrite E at 2. rewrite length_app.
  destruct w; [done | simpl; lia].
Qed.

Lemma shorter_mono {A} n n' (r : reading A) : n ≤ n' → shorter n r → shorter n' r.
Proof. destruct r; simpl; [lia | done | done]. Qed.

(** Shortens a bound through the white space that was skipped. *)
Ltac skipped s E :=
  let H := fresh "Hskip" in pose proof (skip_space_length s) as H; rewrite E in H; simpl in H.

Section enough_fuel.
Context (fuel : nat).
Hypothesis IHvalue : ∀ s, 2 * length s + 1 ≤ fuel → shorter (length s) (read_value fuel s).
Hypothesis IHelements : ∀ s acc, 2 * length s + 2 ≤ fuel → shorter (length s) (read_elements fuel s acc).
Hypothesis IHmembers : ∀ s acc, 2 * length s + 2 ≤ fuel → shorter (length s) (read_members fuel s acc).

Lemma read_value_step s : 2 * length s + 1 ≤ S fuel → shorter (length s) (read_value (S fuel) s).
Proof using IHelements IHmembers.
  intros Hf. cbn [read_value]. destruct (skip_space s) as [|c s'] eqn:Es; [done | ]. skipped s Es.
  destruct (c =? chr "{")%Z.
  { destruct (skip_space s') as [|d r] eqn:Er; [done | ]. skipped s' Er.
    destruct (d =? chr "}")%Z; [simpl; lia | ].
    apply (shorter_mono (length s')); [lia | apply IHmembers; lia]. }
  destruct (c =? chr "[")%Z.
  { destruct (skip_space s') as [|d r] eqn:Er; [done | ]. skipped s' Er.
    destruct (d =? chr "]")%Z; [simpl; lia | ].
    apply (shorter_mono (length s')); [lia | apply IHelements; lia]. }
  destruct (c =? DQUOTE)%Z.
  { pose proof (read_string_shorter s' []) as Hs. destruct (read_string s' []); simpl in *; [lia | done | done]. }
  assert (Hk : ∀ w v, w ≠ [] → shorter (length s) (keyword w v (c :: s'))).
  { intros w v Hw. apply (shorter_mono (length (c :: s'))); [simpl; lia | by apply keyword_shorter]. }
  destruct (c =? chr "t")%Z; [by apply Hk | ]. destruct (c =? chr "f")%Z; [by apply Hk | ].
  destruct (c =? chr "n")%Z; [by apply Hk | ].
  apply (shorter_mono (length (c :: s'))); [simpl; lia | apply read_number_shorter].
Qed.

Lemma read_elements_step s acc :
  2 * length s + 2 ≤ S fuel → shorter (length s) (read_elements (S fuel) s acc).
Proof using IHvalue IHelements.
  intros Hf. cbn [read_elements]. pose proof (IHvalue s ltac:(lia)) as Hv.
  destruct (read_value fuel s) as [v r | | ]; [ | done | done]. simpl in Hv.
  destruct (skip_space r) as [|c r'] eqn:Er; [done | ]. skipped r Er.
  destruct (c =? chr ",")%Z; [apply (shorter_mono (length r')); [lia | apply IHelements; lia] | ].
  destruct (c =? chr "]")%Z; simpl; [lia | done].
Qed.

Lemma read_members_step s acc :
  2 * length s + 2 ≤ S fuel → shorter (length s) (read_members (S fuel) s acc).
Proof using IHvalue IHmembers.
  intros Hf. cbn [read_members]. destruct (skip_space s) as [|q s1] eqn:Es; [done | ]. skipped s Es.
  destruct (q =? DQUOTE)%Z; [ | done]. pose proof (read_string_shorter s1 []) as Hs.
  destruct (read_string s1 []) as [name s2 | | ]; [ | done | done]. simpl in Hs.
  destruct (skip_space s2) as [|c s3] eqn:E2; [done | ]. skipped s2 E2.
  destruct (c =? chr ":")%Z; [ | done]. pose proof (IHvalue s3 ltac:(lia)) as Hv.
  destruct (read_value fuel s3) as [v r | | ]; [ | done | done]. simpl in Hv.
  destruct (skip_space r) as [|d r'] eqn:Er; [done | ]. skipped r Er.
  destruct (d =? chr ",")%Z; [apply (shorter_mono (length r')); [lia | apply IHmembers; lia] | ].
  destruct (d =? chr "}")%Z; simpl; [lia | done].
Qed.
End enough_fuel.

Lemma enough_fuel fuel :
  (∀ s, 2 * length s + 1 ≤ fuel → shorter (length s) (read_value fuel s)) ∧
  (∀ s acc, 2 * length s + 2 ≤ fuel → shorter (length s) (read_elements fuel s acc)) ∧
  (∀ s acc, 2 * length s + 2 ≤ fuel → shorter (length s) (read_members fuel s acc)).
Proof.
  induction fuel as [|fuel (IH1 & IH2 & IH3)]; [repeat split; intros; lia | ].
  split; [ | split]; intros.
  - by apply read_value_step.
  - by apply read_elements_step.
  - by apply read_members_step.
Qed.

Lemma JSON_parse_enough_fuel text : read_value (2 * length text + 2) text ≠ OutOfFuel.
Proof.
  pose proof (proj1 (enough_fuel (2 * length text + 2)) text ltac:(lia)) as H.
  by destruct (read_value _ _).
Qed.

(** ** Fields *)

Lemma field_set_field fields name v name' :
  field (set_field fields name v) name'
  = if ustring_eqb name name' then Some v else field fields name'.
Proof.
  induction fields as [|[k w] fields IH]; simpl; [done | ].
  destruct (ustring_eqb k name) eqn:E; simpl.
  - bools. subst. by destruct (ustring_eqb name name').
  - destruct (ustring_eqb k name') eqn:E'; [ | done]. bools. subst.
    unfold ustring_eqb. by rewrite bool_decide_false.
Qed.

(** A JSON text of the development, with back quotes for the double quotes. *)
Definition json_text (s : string) : ustring :=
  map (fun c => if (c =? chr "`")%Z then DQUOTE else c) (js s).

Example parse_object_sample :
  JSON_parse (json_text "{`b`:1,`2`:true, `b`:[]}")
  = Some (JObject [(js "2", JBool true); (js "b", JArray [])]).
Proof. vm_compute. reflexivity. Qed.

Example parse_number_sample : JSON_parse (js " -12.5e1 ") = Some (JNumber (num_of_Z (-125))).
Proof. vm_compute. reflexivity. Qed.

Example parse_leading_zero : JSON_parse (js "01") = None.
Proof. vm_compute. reflexivity. Qed.
