(* ===== verification/AuthRedirect.v ===== *)
(** * Where to go after signing in

    features/auth/lib/auth-redirect.ts: the target of a redirect is taken from the address
    of the page, so it is checked against the origin of the console, and the address to
    come back to after a lost session leaves out the pages of the sign-in flow.  The
    browser's [URL] and [URLSearchParams] are operations of the class [Addresses]; [new
    URL] throws by returning [None]. *)

From Stdlib Require Import Lia.
From stdpp Require Import base numbers strings option sets list.
From S2P Require Import Prelude Json JsonText.

Record URL := mkURL {
  protocol : ustring;
  origin_of : ustring;
  pathname : ustring;
  search : ustring;
  hash : ustring;
}.

Class Addresses := {
  (** [new URL(text, base)] *)
  new_URL : ustring → option ustring → option URL;
  (** [new URLSearchParams({ name: value }).toString()] *)
  URLSearchParams : ustring → ustring → ustring;
}.

Definition allowedRedirectProtocols : list ustring := [js "http:"; js "https:"].

Definition authFlowPaths : list ustring :=
  [js "/sign-in"; js "/sign-up"; js "/register"; js "/login"; js "/forgot-password"; js "/otp"; js "/reset";
   js "/user/reset"].

(** The language of a user, from the properties [language] and [setting]. *)
Definition getSavedLanguage (language setting : option json) : option ustring :=
  match language with
  | Some (JString l) => Some l
  | _ =>
      match setting with
      | Some (JObject fields) => asString (field fields (js "language"))
      | Some (JArray _) => None
      | Some (JString text) =>
          match JSON_parse text with
          | Some v => asString (get v (js "language"))
          | None => None
          end
      | _ => None
      end
  end.

Definition BACKSLASH : Z := 92.

(** [text.replace(/\/+$/, '')]. *)
Definition drop_slashes (text : ustring) : ustring :=
  reverse (drop_while (fun c => (c =? chr "/")%Z) (reverse text)).

(** [toLowerCase] on a path, whose units are ASCII. *)
Definition lower_unit (c : Z) : Z := if (chr "A" <=? c)%Z && (c <=? chr "Z")%Z then (c + 32)%Z else c.
Definition toLowerCase (text : ustring) : ustring := map lower_unit text.

Section redirect.
  Context {addresses : Addresses}.

Definition allowed (u : URL) : bool := bool_decide (protocol u ∈ allowedRedirectProtocols).

Definition sanitizeAuthRedirect (value : option json) (origin : ustring) : option ustring :=
  match value with
  | Some (JString text) =>
      let target := trim text in
      if negb (truthy target) || includes [BACKSLASH] target || starts_with (js "//") target then None
      else
        match new_URL origin None with
        | None => None
        | Some trustedOrigin =>
            if negb (allowed trustedOrigin) then None
            else
              match (if starts_with (js "/") target then new_URL target (Some (origin_of trustedOrigin))
                     else new_URL target None) with
              | None => None
              | Some redirectURL =>
                  if negb (allowed redirectURL) || negb (ustring_eqb (origin_of redirectURL) (origin_of trustedOrigin))
                  then None
                  else Some (pathname redirectURL ++ search redirectURL ++ hash redirectURL)
              end
        end
  | _ => None
  end.

(** The path of a page, without slashes at its end and in lower case. *)
Definition page_path (u : URL) : ustring :=
  toLowerCase (if ustring_eqb (pathname u) (js "/") then js "/" else drop_slashes (pathname u)).

(** The pages that are not come back to. *)
Definition auth_page (path : ustring) : bool :=
  bool_decide (path ∈ authFlowPaths) || ustring_eqb path (js "/oauth") || starts_with (js "/oauth/") path.

(** [Ok None] is [null]; [Err] is the throw of [new URL]. *)
Definition buildSessionRecoverySignInHref (currentHref : option json) (origin : ustring)
    : result unit (option ustring) :=
  match sanitizeAuthRedirect currentHref origin with
  | None | Some [] => Ok (Some (js "/sign-in"))
  | Some safeRedirect =>
      match new_URL safeRedirect (Some origin) with
      | None => Err tt
      | Some redirectURL =>
          let normalizedPathname := page_path redirectURL in
          if ustring_eqb normalizedPathname (js "/sign-in") then Ok None
          else if auth_page normalizedPathname then Ok (Some (js "/sign-in"))
          else Ok (Some (js "/sign-in?" ++ URLSearchParams (js "redirect") safeRedirect))
      end
  end.

(** ** Theorems *)

(** C25: a redirect that is accepted comes from an address of the console itself: the target is
    a text without a backslash that does not start with two slashes, it resolves to a web
    address with the origin of the console, and what is returned is the path, the query
    and the fragment of that address. *)
Theorem redirect_is_same_origin value origin path :
  sanitizeAuthRedirect value origin = Some path →
  ∃ text trusted url, value = Some (JString text) ∧
    (BACKSLASH ∉ trim text) ∧ starts_with (js "//") (trim text) = false ∧
    new_URL origin None = Some trusted ∧
    new_URL (trim text) (if starts_with (js "/") (trim text) then Some (origin_of trusted) else None) = Some url ∧
    origin_of url = origin_of trusted ∧ protocol url ∈ allowedRedirectProtocols ∧
    path = pathname url ++ search url ++ hash url.
Proof.
  destruct value as [[| | |text| |]|]; try done. unfold sanitizeAuthRedirect. cbv zeta.
  destruct (negb (truthy (trim text)) || _ || _) eqn:E; [done | ].
  apply orb_false_iff in E as [E Hs]. apply orb_false_iff in E as [_ Hb].
  destruct (new_URL origin None) as [trusted|] eqn:Et; [ | done]. destruct (negb (allowed trusted)); [done | ].
  destruct (if starts_with (js "/") (trim text) then _ else _) as [url|] eqn:Eu; [ | done].
  destruct (negb (allowed url) || _) eqn:Ea; [done | ]. intros [= <-]. exists text, trusted, url.
  apply orb_false_iff in Ea as [Ha Ho]. rewrite negb_false_iff in Ha, Ho. unfold allowed, ustring_eqb in *.
  rewrite includes_one in Hb. bools. repeat split; try done. by destruct (starts_with (js "/") (trim text)).
Qed.

(** The page to come back to is never a page of the sign-in flow. *)
Lemma recovery_leaves_out_auth_pages current origin href :
  buildSessionRecoverySignInHref current origin = Ok (Some href) →
  href = js "/sign-in" ∨
  ∃ path url, sanitizeAuthRedirect current origin = Some path ∧ new_URL path (Some origin) = Some url ∧
    auth_page (page_path url) = false ∧ href = js "/sign-in?" ++ URLSearchParams (js "redirect") path.
Proof.
  unfold buildSessionRecoverySignInHref. destruct (sanitizeAuthRedirect current origin) as [[|c path]|] eqn:E;
    [by intros [= <-]; left | | by intros [= <-]; left].
  destruct (new_URL (c :: path) (Some origin)) as [url|] eqn:Eu; [ | done]. cbv zeta.
  destruct (ustring_eqb _ _); [done | ]. destruct (auth_page (page_path url)) eqn:Ea; intros [= <-]; [by left | right].
  by exists (c :: path), url.
Qed.
End redirect.

(** ** A redirect to another host

    What the standard for addresses says of two plain forms: a host and a path of words,
    and a reference that starts with two slashes. *)

(** Units that addresses leave alone. *)
Definition plain_unit (c : Z) : bool := is_digit c || ((chr "a" <=? c)%Z && (c <=? chr "z")%Z).

Definition plain_word (w : ustring) : bool := truthy w && forallb plain_unit w.

Definition https (host path : ustring) : ustring := js "https://" ++ host ++ path.

(** [https://host] and [https://host//word] are what they say, and [//word] is read against
    an address of the console as another host. *)
Record plain_addresses {addresses : Addresses} (host : ustring) : Prop := {
  plain_origin : ∃ path, new_URL (https host []) None = Some (mkURL (js "https:") (https host []) path [] []);
  plain_path : ∀ w, plain_word w = true →
    new_URL (https host (js "//" ++ w)) None = Some (mkURL (js "https:") (https host []) (js "//" ++ w) [] []);
  plain_host : ∀ w, plain_word w = true →
    ∃ u, new_URL (js "//" ++ w) (Some (https host [])) = Some u ∧ origin_of u = https w [];
}.

Lemma plain_unit_spec c : plain_unit c = true → is_space c = false ∧ c ≠ BACKSLASH.
Proof.
  unfold plain_unit, is_digit, is_space, BACKSLASH. chr_norm. intros H.
  assert (48 ≤ c ≤ 57 ∨ 97 ≤ c ≤ 122)%Z as Hc by (apply orb_true_iff in H as [H|H]; bools; lia).
  split; [ | lia]. rewrite !bool_decide_false by lia.
  repeat match goal with |- context [(c =? ?b)%Z] => destruct (Z.eqb_spec c b); [lia | ] end. done.
Qed.

Definition clean (s : ustring) : Prop := Forall (fun c => is_space c = false ∧ c ≠ BACKSLASH) s.

Lemma plain_word_clean w : plain_word w = true → clean w.
Proof.
  unfold plain_word. intros H. bools. apply Forall_forall. intros c Hc. apply plain_unit_spec.
  match goal with H : forallb _ _ = true |- _ => rewrite forallb_forall in H; by apply H, list_elem_of_In end.
Qed.

Lemma clean_app a b : clean a → clean b → clean (a ++ b).
Proof. apply Forall_app_2. Qed.

Lemma clean_https host path : clean host → clean path → clean (https host path).
Proof.
  intros Hh Hp. unfold https. repeat apply clean_app; try done. apply Forall_forall. intros c Hc.
  assert (H : forallb (fun c => negb (is_space c) && negb (c =? BACKSLASH)%Z) (js "https://") = true) by (vm_compute; reflexivity).
  rewrite forallb_forall in H. apply list_elem_of_In, H in Hc. bools. done.
Qed.

Lemma clean_target s : clean s → trim s = s ∧ includes [BACKSLASH] s = false.
Proof.
  intros H. split; [apply trim_none; eapply Forall_impl; [exact H | by intros ? []] | ].
  rewrite includes_one. apply bool_decide_eq_false. intros Hin. unfold clean in H. rewrite Forall_forall in H. by destruct (H _ Hin).
Qed.

(** an accepted redirect can still leave the console: an address of the console whose path
    starts with two slashes is accepted, and the path that is returned, followed from a
    page of the console, names another host. *)
Theorem accepted_redirect_can_leave {addresses : Addresses} host other :
  plain_addresses host → plain_word host = true → plain_word other = true → host ≠ other →
  ∃ path url, sanitizeAuthRedirect (Some (JString (https host (js "//" ++ other)))) (https host []) = Some path ∧
    new_URL path (Some (https host [])) = Some url ∧ origin_of url ≠ https host [].
Proof.
  intros [[p Ho] Hp Hh] Hw Hw' Hne. destruct (Hh other Hw') as (u & Hu & Hou).
  exists (js "//" ++ other), u. split; [ | split; [done | ] ].
  - assert (Hc : clean (https host (js "//" ++ other))).
    { apply clean_https; [by apply plain_word_clean | ]. apply clean_app; [ | by apply plain_word_clean].
      by apply (bool_decide_unpack _); vm_compute. }
    apply clean_target in Hc as [Ht Hb]. unfold sanitizeAuthRedirect. rewrite Ht, Hb. cbv zeta.
    change (starts_with (js "//") (https ?h ?q)) with false. change (truthy (https ?h ?q)) with true. cbn [negb orb].
    rewrite Ho. change (allowed (mkURL (js "https:") ?a ?b ?c ?d)) with true. cbn [negb orb].
    change (starts_with (js "/") (https ?h ?q)) with false. cbn iota. rewrite (Hp other Hw').
    change (allowed (mkURL (js "https:") ?a ?b ?c ?d)) with true. cbn [negb orb origin_of pathname search hash].
    unfold ustring_eqb. rewrite bool_decide_true by done. by rewrite !app_nil_r.
  - rewrite Hou. unfold https. rewrite !app_nil_r. intros Heq. by apply app_inj_1 in Heq as [_ ->].
Qed.

(** An instance with the plain addresses of one host. *)
Definition sample_host : ustring := js "console".

#[local] Definition sample_addresses : Addresses := {|
  new_URL := fun text base =>
    match base with
    | None =>
        if ustring_eqb text (https sample_host []) then Some (mkURL (js "https:") text (js "/") [] [])
        else if starts_with (https sample_host []) text
        then Some (mkURL (js "https:") (https sample_host []) (drop (length (https sample_host [])) text) [] [])
        else None
    | Some _ =>
        if starts_with (js "//") text then Some (mkURL (js "https:") (https (drop 2 text) []) (js "/") [] []) else None
    end;
  URLSearchParams := fun name value => name ++ js "=" ++ value |}.

Lemma accepted_redirect_can_leave_witness :
  ∃ path url, @sanitizeAuthRedirect sample_addresses (Some (JString (https sample_host (js "//attacker")))) (https sample_host [])
      = Some path ∧ @new_URL sample_addresses path (Some (https sample_host [])) = Some url ∧ origin_of url ≠ https sample_host [].
Proof.
  apply (@accepted_redirect_can_leave sample_addresses sample_host (js "attacker")); [ | done | done | done].
  split.
  - by exists (js "/").
  - intros w _. reflexivity.
  - intros w _. eexists. split; reflexivity.
Defined.

Lemma redirect_is_same_origin_witness :
  ∃ url, new_URL (Addresses := sample_addresses) (https sample_host (js "/keys")) None = Some url ∧ js "/keys" = pathname url ++ search url ++ hash url.
Proof.
  destruct (@redirect_is_same_origin sample_addresses (Some (JString (https sample_host (js "/keys")))) (https sample_host []) (js "/keys"))
    as (text & trusted & url & [= <-] & _ & _ & _ & Hu & _ & _ & Hp); [reflexivity | ].
  exists url. split; [exact Hu | exact Hp].
Defined.
