(* ===== verification/ThinkTags.v ===== *)
(** * Reasoning tags in model output

    [parseThinkTags] of features/playground/lib/message/message-reasoning-utils.ts separates
    the text inside [<think>] tags from the text shown to the user. *)

From stdpp Require Import base numbers strings option list.
From Stdlib Require Import Lia.
From S2P Require Import Prelude.

Record ParsedThinkTags := mkThink {
  visibleContent : ustring;
  think_reasoning : ustring;
  hasUnclosedTag : bool;
}.

Definition OPEN_TAG : ustring := js "<think>".
Definition CLOSE_TAG : ustring := js "</think>".
Definition NEWLINE : Z := 10.

(** The loop: the parts found from [currentPos] on, [None] when [fuel] rounds are not
    enough. *)
Fixpoint think_loop (fuel : nat) (content : ustring) (currentPos : nat)
    (visibleParts reasoningParts : list ustring) : option (list ustring * list ustring * bool) :=
  match fuel with
  | 0 => None
  | S fuel =>
      match index_of_from OPEN_TAG content currentPos with
      | None =>
          Some (if currentPos <? length content then visibleParts ++ [drop currentPos content]
                else visibleParts, reasoningParts, false)
      | Some openPos =>
          let visibleParts :=
            if currentPos <? openPos then visibleParts ++ [slice currentPos openPos content]
            else visibleParts in
          match index_of_from CLOSE_TAG content (openPos + 7) with
          | None => Some (visibleParts, reasoningParts ++ [drop (openPos + 7) content], true)
          | Some closePos =>
              think_loop fuel content (closePos + 8) visibleParts
                (reasoningParts ++ [slice (openPos + 7) closePos content])
          end
      end
  end.

Definition parseThinkTags (content : ustring) : ParsedThinkTags :=
  if negb (includes OPEN_TAG content) then mkThink content [] false
  else
    match think_loop (S (length content)) content 0 [] [] with
    | Some (visibleParts, reasoningParts, unclosed) =>
        mkThink (trim (join [] visibleParts)) (trim (join [NEWLINE; NEWLINE] reasoningParts)) unclosed
    | None => mkThink [] [] false
    end.

(** ** Specification *)

Definition part (v : ustring) : list ustring := match v with [] => [] | _ => [v] end.

(** [think_split s vs rs unclosed]: reading [s] from left to right, [vs] are the texts
    outside the tags and [rs] the texts inside them; a tag that is not closed reaches to
    the end of [s]. *)
Inductive think_split : ustring → list ustring → list ustring → bool → Prop :=
| think_plain s : index_of OPEN_TAG s = None → think_split s (part s) [] false
| think_open v r :
    index_of OPEN_TAG (v ++ OPEN_TAG ++ r) = Some (length v) → index_of CLOSE_TAG r = None →
    think_split (v ++ OPEN_TAG ++ r) (part v) [r] true
| think_closed v r s vs rs unclosed :
    index_of OPEN_TAG (v ++ OPEN_TAG ++ r ++ CLOSE_TAG ++ s) = Some (length v) →
    index_of CLOSE_TAG (r ++ CLOSE_TAG ++ s) = Some (length r) →
    think_split s vs rs unclosed →
    think_split (v ++ OPEN_TAG ++ r ++ CLOSE_TAG ++ s) (part v ++ vs) (r :: rs) unclosed.

(** ** Searching *)

Lemma index_of_split p s k :
  index_of p s = Some k → s = take k s ++ p ++ drop (k + length p) s ∧ k ≤ length s.
Proof.
  revert k; induction s as [|c s IH]; intros k; simpl.
  - destruct (starts_with p []) eqn:E; [ | done]. intros [= <-]. destruct p; [done | discriminate].
  - destruct (starts_with p (c :: s)) eqn:E.
    + intros [= <-]. apply starts_with_spec in E. simpl. split; [done | lia].
    + destruct (index_of p s) as [k'|]; [ | done]. simpl. intros [= <-].
      destruct (IH k' eq_refl) as [Hs Hk]. simpl. split; [by f_equal | lia].
Qed.

Lemma index_of_from_split p s i k :
  index_of_from p s i = Some k →
  ∃ j, k = i + j ∧ index_of p (drop i s) = Some j ∧
       drop i s = take j (drop i s) ++ p ++ drop (k + length p) s.
Proof.
  unfold index_of_from. destruct (index_of p (drop i s)) as [j|] eqn:E; [ | done].
  simpl. intros [= <-]. exists j. split; [done | ]. split; [done | ].
  destruct (index_of_split _ _ _ E) as [Hs _]. rewrite drop_drop in Hs.
  by replace (i + j + length p) with (i + (j + length p)) by lia.
Qed.

Lemma index_of_from_None p s i : index_of_from p s i = None → index_of p (drop i s) = None.
Proof. unfold index_of_from. by destruct (index_of p (drop i s)). Qed.

(** A text pushed by the loop when it is not empty. *)
Lemma push_part parts (w : ustring) (b : bool) :
  (b = true ↔ w ≠ []) → (if b then parts ++ [w] else parts) = parts ++ part w.
Proof.
  intros Hb. destruct b, w; simpl; rewrite ?app_nil_r; try done.
  - by destruct (proj1 Hb eq_refl).
  - discriminate (proj2 Hb ltac:(done)).
Qed.

Lemma think_loop_split fuel content pos visible reasoning :
  pos ≤ length content → length content - pos < fuel →
  ∃ vs rs unclosed, think_split (drop pos content) vs rs unclosed ∧
    think_loop fuel content pos visible reasoning = Some (visible ++ vs, reasoning ++ rs, unclosed).
Proof.
  revert pos visible reasoning. induction fuel as [|fuel IH]; intros pos visible reasoning Hpos Hfuel;
    [lia | ]. cbn [think_loop].
  destruct (index_of_from OPEN_TAG content pos) as [openPos|] eqn:Eo.
  - apply index_of_from_split in Eo as (j & -> & Ej & Hsplit). simpl length in Hsplit.
    set (v := take j (drop pos content)) in *.
    assert (Hj : j ≤ length (drop pos content)) by apply (index_of_split _ _ _ Ej).
    assert (Hv : length v = j) by (subst v; rewrite length_take; lia).
    rewrite <- slice_drop. fold v. rewrite (push_part visible v);
      [ | rewrite <- (length_zero_iff_nil v), Hv, Nat.ltb_lt; lia].
    destruct (index_of_from CLOSE_TAG content (pos + j + 7)) as [closePos|] eqn:Ec.
    + apply index_of_from_split in Ec as (i & -> & Ei & Hsplit'). simpl length in Hsplit'.
      set (r := take i (drop (pos + j + 7) content)) in *.
      assert (Hi : i ≤ length (drop (pos + j + 7) content)) by apply (index_of_split _ _ _ Ei).
      assert (Hr : length r = i) by (subst r; rewrite length_take; lia).
      assert (Hlen : pos + j + 7 + i + 8 ≤ length content).
      { apply (f_equal length) in Hsplit'. rewrite !length_app, length_drop in Hsplit'.
        change (length CLOSE_TAG) with 8 in Hsplit'. lia. }
      destruct (IH (pos + j + 7 + i + 8) (visible ++ part v) (reasoning ++ [r]))
        as (vs & rs & unclosed & Hsp & Heq); [lia | lia | ].
      exists (part v ++ vs), (r :: rs), unclosed. split.
      * rewrite Hsplit. change (length OPEN_TAG) with 7 in *. rewrite Hsplit'.
        change (length CLOSE_TAG) with 8 in *.
        apply think_closed; [ | | done].
        -- rewrite <- Hsplit', <- Hsplit, Hv. done.
        -- rewrite <- Hsplit', Hr. done.
      * rewrite <- slice_drop. fold r. rewrite Heq, <- !app_assoc. done.
    + apply index_of_from_None in Ec. exists (part v), [drop (pos + j + 7) content], true. split; [ | done].
      rewrite Hsplit. change (length OPEN_TAG) with 7 in *. apply think_open; [ | done].
      rewrite <- Hsplit, Hv. done.
  - apply index_of_from_None in Eo. exists (part (drop pos content)), [], false.
    split; [by apply think_plain | ]. rewrite app_nil_r.
    rewrite push_part; [done | ]. rewrite Nat.ltb_lt. rewrite <- (length_zero_iff_nil (drop pos content)).
    rewrite length_drop. lia.
Qed.

Lemma parseThinkTags_split content :
  ∃ vs rs unclosed, think_split content vs rs unclosed ∧
    think_reasoning (parseThinkTags content) = trim (join [NEWLINE; NEWLINE] rs) ∧
    hasUnclosedTag (parseThinkTags content) = unclosed ∧
    visibleContent (parseThinkTags content)
    = (if includes OPEN_TAG content then trim (join [] vs) else content).
Proof.
  destruct (think_loop_split (S (length content)) content 0 [] []) as (vs & rs & b & Hs & Hl);
    [lia | lia | ]. rewrite drop_0 in Hs.
  unfold parseThinkTags. destruct (includes OPEN_TAG content) eqn:E; cbn [negb].
  - exists vs, rs, b. rewrite Hl. done.
  - exists (part content), [], false. split; [ | done]. apply think_plain. unfold includes in E.
    by destruct (index_of OPEN_TAG content).
Qed.

(** Without a tag the whole text is visible. *)
Lemma parseThinkTags_plain content :
  includes OPEN_TAG content = false → visibleContent (parseThinkTags content) = content.
Proof. intros E. unfold parseThinkTags. by rewrite E. Qed.
