(* ===== verification/ChatMessages.v ===== *)
(** * Messages of the playground

    The messages of a conversation and the functions on them, from the files under
    features/playground/lib/message and lib/streaming.  Times are numbers of milliseconds;
    a function that reads the clock takes the reading [now], one for the whole call.
    Identifiers made by [nanoid] are arguments. *)

From Stdlib Require Import Lia.
From stdpp Require Import base numbers strings option list.
From S2P Require Import Prelude JsNumber Json ThinkTags.

Inductive MessageRole := RUser | RAssistant | RSystem.
Inductive MessageStatus := SLoading | SStreaming | SComplete | SError.

#[export] Instance MessageRole_eq_dec : EqDecision MessageRole.
Proof. solve_decision. Defined.
#[export] Instance MessageStatus_eq_dec : EqDecision MessageStatus.
Proof. solve_decision. Defined.

Record MessageVersion := mkVersion { version_id : ustring; content : ustring }.

Record Reasoning := mkReasoning {
  reasoning_content : ustring;
  duration : number;
  reasoning_startedAt : option number;
  reasoning_completedAt : option number;
  reasoning_durationMs : option number;
}.

Record Message := mkMessage {
  key : ustring;
  from : MessageRole;
  versions : list MessageVersion;
  createdAt : option number;
  startedAt : option number;
  completedAt : option number;
  durationMs : option number;
  sources : option (list (ustring * ustring));
  reasoning : option Reasoning;
  isReasoningStreaming : option bool;
  isReasoningComplete : option bool;
  isContentComplete : option bool;
  status : option MessageStatus;
  errorCode : option (option ustring);
}.

(** ** Spreading a message with some fields replaced *)

Definition with_versions (v : list MessageVersion) (m : Message) : Message :=
  mkMessage (key m) (from m) v (createdAt m) (startedAt m) (completedAt m) (durationMs m)
    (sources m) (reasoning m) (isReasoningStreaming m) (isReasoningComplete m)
    (isContentComplete m) (status m) (errorCode m).

Definition with_reasoning (r : option Reasoning) (streaming : option bool) (m : Message) : Message :=
  mkMessage (key m) (from m) (versions m) (createdAt m) (startedAt m) (completedAt m) (durationMs m)
    (sources m) r streaming (isReasoningComplete m) (isContentComplete m) (status m) (errorCode m).

Definition with_status (s : MessageStatus) (m : Message) : Message :=
  mkMessage (key m) (from m) (versions m) (createdAt m) (startedAt m) (completedAt m) (durationMs m)
    (sources m) (reasoning m) (isReasoningStreaming m) (isReasoningComplete m)
    (isContentComplete m) (Some s) (errorCode m).

Definition with_timing (started completed dur : number) (m : Message) : Message :=
  mkMessage (key m) (from m) (versions m) (createdAt m) (Some started) (Some completed) (Some dur)
    (sources m) (reasoning m) (isReasoningStreaming m) (isReasoningComplete m)
    (isContentComplete m) (status m) (errorCode m).

Definition with_createdAt (t : option number) (m : Message) : Message :=
  mkMessage (key m) (from m) (versions m) t (startedAt m) (completedAt m) (durationMs m)
    (sources m) (reasoning m) (isReasoningStreaming m) (isReasoningComplete m)
    (isContentComplete m) (status m) (errorCode m).

Definition with_error (code : option ustring) (m : Message) : Message :=
  mkMessage (key m) (from m) (versions m) (createdAt m) (startedAt m) (completedAt m) (durationMs m)
    (sources m) (reasoning m) (Some false) (isReasoningComplete m)
    (isContentComplete m) (Some SError) (Some code).

(** [a || b] on texts. *)
Definition or_text (a : option ustring) (b : ustring) : ustring :=
  match a with Some s => if truthy s then s else b | None => b end.

(** ** message-utils.ts *)

Definition createMessageVersion (id c : ustring) : MessageVersion := mkVersion id c.

Definition getCurrentVersion (m : Message) : MessageVersion :=
  match versions m with v :: _ => v | [] => mkVersion (js "default") [] end.

Definition getMessageContent (m : Message) : ustring := content (getCurrentVersion m).

Definition hasMessageContent (m : Message) : bool := truthy (trim (getMessageContent m)).

Definition updateCurrentVersionContent (m : Message) (c : ustring) : Message :=
  with_versions [mkVersion (version_id (getCurrentVersion m)) c] m.

Definition createUserMessage (k v c : ustring) (created : number) : Message :=
  mkMessage k RUser [createMessageVersion v c] (Some created) None None None None None None None None
    None None.

Definition createLoadingAssistantMessage (k v : ustring) (started : number) : Message :=
  mkMessage k RAssistant [createMessageVersion v []] (Some started) (Some started) None None None None
    (Some false) (Some false) (Some false) (Some SLoading) None.

Inductive ContentPart := TextPart (text : option ustring) | ImagePart (url : ustring).
Inductive MessageContent := PlainContent (text : ustring) | PartsContent (parts : list ContentPart).

Definition buildMessageContent (text : ustring) (imageUrls : list ustring) : MessageContent :=
  match filter (fun url => truthy (trim url) = true) imageUrls with
  | [] => PlainContent text
  | validImages =>
      PartsContent (TextPart (Some text) :: map (fun url => ImagePart (trim url)) validImages)
  end.

Fixpoint first_text (parts : list ContentPart) : ustring :=
  match parts with
  | [] => []
  | TextPart text :: _ => or_text text []
  | ImagePart _ :: rest => first_text rest
  end.

Definition getTextContent (c : MessageContent) : ustring :=
  match c with PlainContent text => text | PartsContent parts => first_text parts end.

Record ChatCompletionMessage := mkChat { chat_role : MessageRole; chat_content : MessageContent }.

Definition formatMessageForAPI (m : Message) : ChatCompletionMessage :=
  mkChat (from m) (PlainContent (content (getCurrentVersion m))).

Definition isAssistant (m : Message) : bool := bool_decide (from m = RAssistant).

Definition isValidMessage (m : Message) : bool :=
  match versions m with
  | [] => false
  | _ => negb (isAssistant m && negb (hasMessageContent m))
  end.

(** ** message-timing-utils.ts *)

(** [Math.max(0, completedAt - startedAt)]. *)
Definition elapsed (completed started : number) : number := num_max zero (num_sub completed started).

Definition completeAssistantTiming (m : Message) (completed : number) : Message :=
  if isAssistant m then
    let started := default (default completed (createdAt m)) (startedAt m) in
    with_timing started completed (elapsed completed started) m
  else m.

Definition startReasoningTiming (m : Message) (started : number) : Reasoning :=
  match reasoning m with
  | Some r =>
      mkReasoning (reasoning_content r) (duration r)
        (Some (default started (reasoning_startedAt r))) (reasoning_completedAt r)
        (reasoning_durationMs r)
  | None => mkReasoning [] zero (Some started) None None
  end.

Definition set_content (c : ustring) (r : Reasoning) : Reasoning :=
  mkReasoning c (duration r) (reasoning_startedAt r) (reasoning_completedAt r)
    (reasoning_durationMs r).

Definition completeReasoningTiming (m : Message) (completed : number) : Message :=
  match reasoning m with
  | Some r =>
      match reasoning_durationMs r with
      | Some _ => m
      | None =>
          let started := default (default completed (startedAt m)) (reasoning_startedAt r) in
          let ms := elapsed completed started in
          with_reasoning
            (Some (mkReasoning (reasoning_content r) (num_ceil (num_div ms (num_of_Z 1000)))
                     (Some started) (Some completed) (Some ms)))
            (isReasoningStreaming m) m
      end
  | None => m
  end.

(** ** message-streaming-utils.ts *)

Definition appendStreamDelta (current delta : ustring) : ustring := current ++ delta.

Definition processStreamingContent (m : Message) (chunk : ustring) (now : number) : Message :=
  let fullContent := appendStreamDelta (content (getCurrentVersion m)) chunk in
  if negb (bool_decide (is_Some (reasoning m))) && negb (includes OPEN_TAG fullContent) then
    with_reasoning (reasoning m) (Some false) (updateCurrentVersionContent m fullContent)
  else
    let parsed := parseThinkTags fullContent in
    let finalReasoning :=
      if truthy (think_reasoning parsed)
      then Some (set_content (think_reasoning parsed) (startReasoningTiming m now))
      else reasoning m in
    with_reasoning finalReasoning (Some (hasUnclosedTag parsed))
      (updateCurrentVersionContent m fullContent).

Inductive StreamChunkType := CReasoning | CContent.

Definition applyStreamingChunk (m : Message) (type : StreamChunkType) (chunk : ustring) (now : number)
    : Message :=
  if bool_decide (status m = Some SError) then m
  else
    match type with
    | CReasoning =>
        let r := startReasoningTiming m now in
        with_status SStreaming
          (with_reasoning (Some (set_content (appendStreamDelta (reasoning_content r) chunk) r))
             (Some true) m)
    | CContent =>
        let contentMessage := processStreamingContent m chunk now in
        with_status SStreaming
          (match isReasoningStreaming contentMessage with
           | Some true => contentMessage
           | _ => completeReasoningTiming contentMessage now
           end)
    end.

Definition finalizeMessage (m : Message) (apiReasoningContent : option ustring) (now : number)
    : Message :=
  let current := content (getCurrentVersion m) in
  let parsed := if includes OPEN_TAG current then Some (parseThinkTags current) else None in
  let visible := default current (visibleContent <$> parsed) in
  let finalReasoning :=
    or_text apiReasoningContent
      (or_text (reasoning_content <$> reasoning m) (or_text (think_reasoning <$> parsed) [])) in
  let finalized :=
    with_reasoning
      (if truthy finalReasoning
       then Some (set_content finalReasoning (startReasoningTiming m now)) else None)
      (Some false) (updateCurrentVersionContent m visible) in
  completeReasoningTiming finalized now.

Definition completeAssistantMessage (m : Message) (now : number) : Message :=
  completeAssistantTiming (with_status SComplete (finalizeMessage m None now)) now.

Definition isAssistantMessageFinal (m : Message) : bool :=
  match status m with Some SComplete | Some SError => true | _ => false end.

Definition isAssistantMessagePending (m : Message) : bool :=
  match status m with Some SLoading | Some SStreaming => true | _ => false end.

Definition isPendingAssistantMessage (m : Message) : bool :=
  isAssistant m && isAssistantMessagePending m.

(** The first choice of a response: its content and its reasoning, each possibly absent. *)
Record ChatCompletionChoice := mkChoice {
  choice_content : option ustring;
  choice_reasoning : option ustring;
}.

Definition applyChatCompletionChoice (m : Message) (c : ChatCompletionChoice) (now : number) : Message :=
  completeAssistantTiming
    (with_status SComplete
       (finalizeMessage (updateCurrentVersionContent m (or_text (choice_content c) []))
          (choice_reasoning c) now)) now.

Definition hasChatCompletionChoice (choices : list ChatCompletionChoice) : bool :=
  match choices with [] => false | _ => true end.

Definition applyChatCompletionResponse (m : Message) (choices : list ChatCompletionChoice) (now : number)
    : option Message :=
  match choices with c :: _ => Some (applyChatCompletionChoice m c now) | [] => None end.

(** The index of the last element that satisfies [p], scanning down from [i - 1]. *)
Fixpoint last_index {A} (p : A → bool) (l : list A) (i : nat) : option nat :=
  match i with
  | 0 => None
  | S i => match l !! i with
           | Some x => if p x then Some i else last_index p l i
           | None => last_index p l i
           end
  end.

Definition has_reasoning_text (m : Message) : bool :=
  match reasoning m with Some r => truthy (trim (reasoning_content r)) | None => false end.

Section sanitize.
(** The translation of a message key. *)
Context (t : ustring → ustring).

Definition API_REQUEST_ERROR : ustring := js "Request error occurred".
Definition INTERRUPTED : ustring := js "Generation was interrupted".

Definition sanitizeMessage (m : Message) (now : number) : Message :=
  let finalized := finalizeMessage m None now in
  if hasMessageContent finalized || has_reasoning_text finalized then
    completeAssistantTiming
      (with_reasoning (reasoning finalized) (Some false) (with_status SComplete finalized)) now
  else
    completeAssistantTiming
      (with_reasoning (reasoning finalized) (Some false)
         (with_status SError
            (updateCurrentVersionContent finalized
               (t API_REQUEST_ERROR ++ js ": " ++ t INTERRUPTED)))) now.

Definition sanitizeMessagesOnLoad (messages : list Message) (now : number) : list Message :=
  match last_index isPendingAssistantMessage messages (length messages) with
  | None => messages
  | Some targetIndex =>
      match messages !! targetIndex with
      | Some m => <[targetIndex := sanitizeMessage m now]> messages
      | None => messages
      end
  end.
End sanitize.

(** ** message-update-utils.ts *)

Definition updateLastAssistantMessage (messages : list Message) (updater : Message → Message)
    : list Message :=
  match last messages with
  | Some m =>
      if isAssistant m then <[length messages - 1 := updater m]> messages else messages
  | None => messages
  end.

Definition updateAssistantMessageWithError (messages : list Message) (errorMessage : ustring)
    (code : option ustring) (title : ustring) (now : number) : list Message :=
  updateLastAssistantMessage messages (fun m =>
    completeAssistantTiming
      (with_error (match code with Some c => if truthy c then Some c else None | None => None end)
         (updateCurrentVersionContent m (title ++ js ": " ++ errorMessage))) now).

(** ** conversation-message-utils.ts *)

Definition has_key (k : ustring) (m : Message) : bool := ustring_eqb (key m) k.

(** [messages.findIndex((message) => message.key === messageKey)]. *)
Fixpoint find_key (k : ustring) (messages : list Message) : option nat :=
  match messages with
  | [] => None
  | m :: rest => if has_key k m then Some 0 else S <$> find_key k rest
  end.

(** The identifiers one operation draws from [nanoid]. *)
Record ids := mkIds {
  user_key : ustring;
  user_version : ustring;
  assistant_key : ustring;
  assistant_version : ustring;
}.

Definition appendUserMessagePair (messages : list Message) (c : ustring) (fresh : ids) (now : number)
    : list Message :=
  messages ++ [createUserMessage (user_key fresh) (user_version fresh) c now;
               createLoadingAssistantMessage (assistant_key fresh) (assistant_version fresh) now].

Definition createRegeneratedMessages (messages : list Message) (messageKey : ustring) (fresh : ids)
    (now : number) : option (list Message) :=
  i ← find_key messageKey messages; m ← messages !! i;
  let loading := createLoadingAssistantMessage (assistant_key fresh) (assistant_version fresh) now in
  Some (if bool_decide (from m = RUser) then slice 0 (i + 1) messages ++ [loading]
        else slice 0 i messages ++ [loading]).

Definition removeMessageByKey (messages : list Message) (messageKey : ustring) : list Message :=
  filter (fun m => key m ≠ messageKey) messages.

Fixpoint getPreviousUserMessage (messages : list Message) (beforeIndex : nat) : option Message :=
  match beforeIndex with
  | 0 => None
  | S i => match messages !! i with
           | Some m => if bool_decide (from m = RUser) then Some m else getPreviousUserMessage messages i
           | None => getPreviousUserMessage messages i
           end
  end.

Record ApplyMessageEditResult := mkEdit { edit_messages : list Message; shouldSend : bool }.

Definition applyMessageEdit (messages : list Message) (messageKey c : ustring) (shouldSubmit : bool)
    (fresh : ids) (now : number) : option ApplyMessageEditResult :=
  i ← find_key messageKey messages;
  let updated :=
    map (fun m => if has_key messageKey m
                  then with_createdAt (if shouldSubmit then Some now else createdAt m)
                         (updateCurrentVersionContent m c)
                  else m) messages in
  m ← updated !! i;
  Some (if negb shouldSubmit || negb (bool_decide (from m = RUser)) then mkEdit updated false
        else mkEdit (slice 0 (i + 1) updated ++
                     [createLoadingAssistantMessage (assistant_key fresh) (assistant_version fresh) now])
               true).

Definition getEditingMessageContent (messages : list Message) (editingKey : option ustring) : ustring :=
  match editingKey with
  | None | Some [] => []
  | Some k => match find (has_key k) messages with Some m => getMessageContent m | None => [] end
  end.

(** ** message-content-utils.ts *)

Definition getDisplayContent (m : Message) (versionContent : ustring) : ustring :=
  if negb (isAssistant m) then versionContent
  else if negb (includes OPEN_TAG versionContent) then versionContent
  else visibleContent (parseThinkTags versionContent).

Definition is_true (b : option bool) : bool := match b with Some true => true | _ => false end.

Definition shouldShowMessageLoader (m : Message) (versionContent : ustring) : bool :=
  isAssistant m && negb (is_true (isReasoningStreaming m)) &&
  (bool_decide (status m = Some SLoading) ||
   bool_decide (status m = Some SStreaming) && negb (truthy versionContent)).

Definition shouldShowMessageContent (m : Message) (versionContent : ustring) : bool :=
  (bool_decide (from m = RUser) || negb (is_true (isReasoningStreaming m))) && truthy versionContent.

Record MessageContentState := mkContentState {
  displayContent : ustring;
  hasSources : bool;
  state_isAssistant : bool;
  showLoader : bool;
  showMessageContent : bool;
  state_sources : list (ustring * ustring);
  reasoningContent : option ustring;
}.

Definition getMessageContentState (m : Message) (versionContent : ustring) : MessageContentState :=
  let shown := default [] (sources m) in
  mkContentState (getDisplayContent m versionContent) (0 <? length shown) (isAssistant m)
    (shouldShowMessageLoader m versionContent) (shouldShowMessageContent m versionContent) shown
    (if isAssistant m then
       match reasoning m with
       | Some r => if truthy (reasoning_content r) then Some (reasoning_content r) else None
       | None => None
       end
     else None).

(** ** payload-builder.ts *)

Record PlaygroundConfig := mkPlayground {
  model : ustring;
  group : ustring;
  temperature : number;
  top_p : number;
  max_tokens : number;
  frequency_penalty : number;
  presence_penalty : number;
  seed : option number;
  stream : bool;
}.

Record ParameterEnabled := mkEnabled {
  temperature_enabled : bool;
  top_p_enabled : bool;
  max_tokens_enabled : bool;
  frequency_penalty_enabled : bool;
  presence_penalty_enabled : bool;
  seed_enabled : bool;
}.

Record ChatCompletionRequest := mkChatRequest {
  req_model : ustring;
  req_group : ustring;
  req_messages : list ChatCompletionMessage;
  req_stream : bool;
  req_temperature : option number;
  req_top_p : option number;
  req_max_tokens : option number;
  req_frequency_penalty : option number;
  req_presence_penalty : option number;
  req_seed : option number;
}.

Definition when {A} (b : bool) (x : A) : option A := if b then Some x else None.

Definition buildChatCompletionPayload (messages : list Message) (config : PlaygroundConfig)
    (enabled : ParameterEnabled) : ChatCompletionRequest :=
  let processedMessages :=
    map formatMessageForAPI (filter (fun m => isValidMessage m = true) messages) in
  mkChatRequest (model config) (group config) processedMessages (stream config)
    (when (temperature_enabled enabled) (temperature config))
    (when (top_p_enabled enabled) (top_p config))
    (when (max_tokens_enabled enabled) (max_tokens config))
    (when (frequency_penalty_enabled enabled) (frequency_penalty config))
    (when (presence_penalty_enabled enabled) (presence_penalty config))
    (s ← seed config; when (seed_enabled enabled) s).
