(* ===== verification/ChatProperties.v ===== *)
(** * Properties of playground messages *)

From Stdlib Require Import Lia.
From stdpp Require Import base numbers strings option relations sets gmap list.
From S2P Require Import Prelude JsNumber Json ThinkTags ChatMessages.

(** ** What the operations on one message keep *)

(** The identity of a message and the texts it holds. *)
Definition same_body (m m' : Message) : Prop :=
  key m' = key m ∧ from m' = from m ∧ versions m' = versions m.

Lemma completeReasoningTiming_body m now :
  same_body m (completeReasoningTiming m now) ∧ status (completeReasoningTiming m now) = status m ∧
  isReasoningStreaming (completeReasoningTiming m now) = isReasoningStreaming m.
Proof.
  unfold completeReasoningTiming. destruct (reasoning m) as [r|]; [ | done].
  by destruct (reasoning_durationMs r).
Qed.

Lemma completeAssistantTiming_body m now :
  same_body m (completeAssistantTiming m now) ∧ status (completeAssistantTiming m now) = status m ∧
  isReasoningStreaming (completeAssistantTiming m now) = isReasoningStreaming m ∧
  reasoning (completeAssistantTiming m now) = reasoning m.
Proof. unfold completeAssistantTiming. by destruct (isAssistant m). Qed.

Lemma processStreamingContent_body m chunk now :
  key (processStreamingContent m chunk now) = key m ∧
  from (processStreamingContent m chunk now) = from m ∧
  versions (processStreamingContent m chunk now)
  = [mkVersion (version_id (getCurrentVersion m)) (getMessageContent m ++ chunk)].
Proof. unfold processStreamingContent. by destruct (_ && _). Qed.

Lemma applyStreamingChunk_content m chunk now :
  status m ≠ Some SError →
  let m' := applyStreamingChunk m CContent chunk now in
  key m' = key m ∧ from m' = from m ∧ status m' = Some SStreaming ∧
  versions m' = [mkVersion (version_id (getCurrentVersion m)) (getMessageContent m ++ chunk)].
Proof.
  intros Hs. cbv zeta. unfold applyStreamingChunk. rewrite bool_decide_false by done.
  destruct (processStreamingContent_body m chunk now) as (Hk & Hf & Hv).
  destruct (completeReasoningTiming_body (processStreamingContent m chunk now) now)
    as ((Hk' & Hf' & Hv') & _). rewrite Hk, Hf, Hv in *.
  destruct (isReasoningStreaming _) as [[]|]; done.
Qed.

Lemma applyStreamingChunk_reasoning m chunk now :
  status m ≠ Some SError →
  let m' := applyStreamingChunk m CReasoning chunk now in
  same_body m m' ∧ status m' = Some SStreaming.
Proof. intros Hs. cbv zeta. unfold applyStreamingChunk. by rewrite bool_decide_false by done. Qed.

Lemma applyStreamingChunk_key m type chunk now :
  key (applyStreamingChunk m type chunk now) = key m ∧
  from (applyStreamingChunk m type chunk now) = from m ∧
  (versions m ≠ [] → versions (applyStreamingChunk m type chunk now) ≠ []).
Proof.
  destruct (decide (status m = Some SError)) as [E | E].
  - unfold applyStreamingChunk. by rewrite bool_decide_true.
  - destruct type.
    + destruct (applyStreamingChunk_reasoning m chunk now E) as ((-> & -> & ->) & _). done.
    + destruct (applyStreamingChunk_content m chunk now E) as (-> & -> & _ & ->). done.
Qed.

Lemma finalizeMessage_body m api now :
  key (finalizeMessage m api now) = key m ∧ from (finalizeMessage m api now) = from m ∧
  status (finalizeMessage m api now) = status m ∧
  isReasoningStreaming (finalizeMessage m api now) = Some false ∧
  versions (finalizeMessage m api now)
  = [mkVersion (version_id (getCurrentVersion m)) (visibleContent (parseThinkTags (getMessageContent m)))].
Proof.
  unfold finalizeMessage. cbv zeta.
  match goal with |- context [completeReasoningTiming ?x now] =>
    destruct (completeReasoningTiming_body x now) as ((-> & -> & ->) & -> & ->) end.
  simpl. repeat split. unfold getMessageContent.
  destruct (includes OPEN_TAG (content (getCurrentVersion m))) eqn:E; simpl; [done | ].
  by rewrite parseThinkTags_plain.
Qed.

Lemma completeAssistantMessage_body m now :
  key (completeAssistantMessage m now) = key m ∧ from (completeAssistantMessage m now) = from m ∧
  status (completeAssistantMessage m now) = Some SComplete ∧
  isReasoningStreaming (completeAssistantMessage m now) = Some false ∧
  versions (completeAssistantMessage m now)
  = [mkVersion (version_id (getCurrentVersion m)) (visibleContent (parseThinkTags (getMessageContent m)))].
Proof.
  unfold completeAssistantMessage.
  destruct (completeAssistantTiming_body (with_status SComplete (finalizeMessage m None now)) now)
    as ((-> & -> & ->) & -> & -> & _).
  destruct (finalizeMessage_body m None now) as (Hk & Hf & _ & Hr & Hv). simpl.
  rewrite Hk, Hf, Hr, Hv. done.
Qed.

Lemma sanitizeMessage_body t m now :
  key (sanitizeMessage t m now) = key m ∧ from (sanitizeMessage t m now) = from m ∧
  versions (sanitizeMessage t m now) ≠ [] ∧ isAssistantMessageFinal (sanitizeMessage t m now) = true ∧
  isReasoningStreaming (sanitizeMessage t m now) = Some false.
Proof.
  unfold sanitizeMessage. cbv zeta.
  destruct (finalizeMessage_body m None now) as (Hk & Hf & _ & Hr & Hv).
  destruct (_ || _); unfold isAssistantMessageFinal;
    match goal with |- context [completeAssistantTiming ?x now] =>
      destruct (completeAssistantTiming_body x now) as ((-> & -> & ->) & -> & -> & _) end;
    simpl; rewrite Hk, Hf; rewrite ?Hv; done.
Qed.

(** ** A streamed answer *)

(** The message after the chunks of a stream, each with the time it arrived. *)
Definition stream_chunks (m : Message) (chunks : list (StreamChunkType * ustring * number)) : Message :=
  fold_left (fun m c => applyStreamingChunk m c.1.1 c.1.2 c.2) chunks m.

Definition content_of (chunks : list (StreamChunkType * ustring * number)) : ustring :=
  mjoin (map (fun c => match c.1.1 with CContent => c.1.2 | CReasoning => [] end) chunks).

Lemma stream_chunks_content chunks m :
  status m ≠ Some SError →
  getMessageContent (stream_chunks m chunks) = getMessageContent m ++ content_of chunks ∧
  key (stream_chunks m chunks) = key m ∧ from (stream_chunks m chunks) = from m.
Proof.
  revert m. induction chunks as [|[[type chunk] now] chunks IH]; intros m Hs.
  { unfold content_of. simpl. by rewrite app_nil_r. }
  unfold stream_chunks, content_of in *. cbn [fold_left map mjoin fst snd].
  destruct type.
  - destruct (applyStreamingChunk_reasoning m chunk now Hs) as ((Hk & Hf & Hv) & Hst).
    destruct (IH (applyStreamingChunk m CReasoning chunk now)) as (-> & -> & ->); [by rewrite Hst | ].
    unfold getMessageContent, getCurrentVersion. by rewrite Hk, Hf, Hv.
  - destruct (applyStreamingChunk_content m chunk now Hs) as (Hk & Hf & Hst & Hv).
    destruct (IH (applyStreamingChunk m CContent chunk now)) as (-> & -> & ->); [by rewrite Hst | ].
    rewrite Hk, Hf. split; [ | done]. unfold getMessageContent at 1, getCurrentVersion. rewrite Hv.
    simpl. by rewrite <- app_assoc.
Qed.

(** ** Pending messages *)

Lemma last_index_spec {A} (p : A → bool) (l : list A) n :
  match last_index p l n with
  | Some i => i < n ∧ (∃ x, l !! i = Some x ∧ p x = true) ∧
              ∀ j x, i < j < n → l !! j = Some x → p x = false
  | None => ∀ j x, j < n → l !! j = Some x → p x = false
  end.
Proof.
  induction n as [|n IH]; simpl; [intros; lia | ].
  destruct (l !! n) as [x|] eqn:Ex.
  - destruct (p x) eqn:Ep.
    + split; [lia | ]. split; [eauto | intros; lia].
    + destruct (last_index p l n) as [i|].
      * destruct IH as (Hi & Hx & Hj). split; [lia | ]. split; [done | ]. intros j y Hlt Hy.
        destruct (decide (j = n)) as [-> | Hne]; [by simplify_eq | apply (Hj j); [lia | done]].
      * intros j y Hlt Hy.
        destruct (decide (j = n)) as [-> | Hne]; [by simplify_eq | apply (IH j); [lia | done]].
  - destruct (last_index p l n) as [i|].
    + destruct IH as (Hi & Hx & Hj). split; [lia | ]. split; [done | ]. intros j y Hlt Hy.
      destruct (decide (j = n)) as [-> | Hne]; [by simplify_eq | apply (Hj j); [lia | done]].
    + intros j y Hlt Hy.
      destruct (decide (j = n)) as [-> | Hne]; [by simplify_eq | apply (IH j); [lia | done]].
Qed.

Lemma sanitizeMessagesOnLoad_cases t ms now :
  (sanitizeMessagesOnLoad t ms now = ms ∧ Forall (fun m => isPendingAssistantMessage m = false) ms) ∨
  ∃ i m, ms !! i = Some m ∧ isPendingAssistantMessage m = true ∧
         (∀ j x, i < j → ms !! j = Some x → isPendingAssistantMessage x = false) ∧
         sanitizeMessagesOnLoad t ms now = <[i := sanitizeMessage t m now]> ms.
Proof.
  unfold sanitizeMessagesOnLoad. pose proof (last_index_spec isPendingAssistantMessage ms (length ms)) as H.
  destruct (last_index _ _ _) as [i|].
  - right. destruct H as (Hi & (m & Hm & Hp) & Hj). exists i, m. rewrite Hm. split; [done | ].
    split; [done | ]. split; [ | done]. intros j x Hlt Hx. apply (Hj j); [ | done].
    apply lookup_lt_Some in Hx. lia.
  - left. split; [done | ]. apply Forall_lookup. intros j x Hx. apply (H j); [ | done].
    by apply lookup_lt_Some in Hx.
Qed.

Lemma isPendingAssistantMessage_final m :
  isAssistantMessageFinal m = true → isPendingAssistantMessage m = false.
Proof.
  unfold isAssistantMessageFinal, isPendingAssistantMessage, isAssistantMessagePending.
  destruct (status m) as [[]|]; try done; by rewrite andb_false_r.
Qed.

(** ** Conversations *)

(** Keys are unique, every message has a version, and only the last message can be an
    answer that is still being generated. *)
Definition conversation_ok (ms : list Message) : Prop :=
  NoDup (key <$> ms) ∧ Forall (fun m => versions m ≠ []) ms ∧
  ∀ i m, ms !! i = Some m → isPendingAssistantMessage m = true → S i = length ms.

Definition fresh_for (ms : list Message) (f : ids) : Prop :=
  (user_key f ∉ (key <$> ms)) ∧ (assistant_key f ∉ (key <$> ms)) ∧ user_key f ≠ assistant_key f.

(** What can happen to a conversation.  A new text is only accepted when no answer is being
    generated. *)
Inductive conversation_step (t : ustring → ustring) : list Message → list Message → Prop :=
| cs_submit ms c f now :
    fresh_for ms f → Forall (fun m => isPendingAssistantMessage m = false) ms →
    conversation_step t ms (appendUserMessagePair ms c f now)
| cs_regenerate ms k f now ms' :
    fresh_for ms f → createRegeneratedMessages ms k f now = Some ms' → conversation_step t ms ms'
| cs_edit ms k c submit f now r :
    fresh_for ms f → applyMessageEdit ms k c submit f now = Some r →
    conversation_step t ms (edit_messages r)
| cs_remove ms k : conversation_step t ms (removeMessageByKey ms k)
| cs_chunk ms type c now :
    conversation_step t ms
      (updateLastAssistantMessage ms (fun m => applyStreamingChunk m type c now))
| cs_complete ms now :
    conversation_step t ms (updateLastAssistantMessage ms (fun m => completeAssistantMessage m now))
| cs_error ms e code title now :
    conversation_step t ms (updateAssistantMessageWithError ms e code title now)
| cs_load ms now : conversation_step t ms (sanitizeMessagesOnLoad t ms now).

Lemma conversation_ok_prefix ms n : conversation_ok ms → conversation_ok (take n ms).
Proof.
  intros (Hk & Hv & Hp). split; [ | split].
  - rewrite fmap_take. by eapply sublist_NoDup; [ | apply sublist_take].
  - by apply Forall_take.
  - intros i m Hi Hpend. apply lookup_take_Some in Hi as [Hi Hlt].
    specialize (Hp i m Hi Hpend). rewrite length_take. lia.
Qed.

(** Ending a conversation without pending answers with a new last message. *)
Lemma conversation_ok_snoc ms m :
  conversation_ok ms → Forall (fun m => isPendingAssistantMessage m = false) ms →
  key m ∉ (key <$> ms) → versions m ≠ [] → conversation_ok (ms ++ [m]).
Proof.
  intros (Hk & Hv & Hp) Hn Hf Hm. split; [ | split].
  - rewrite fmap_app. apply NoDup_app. split; [done | ]. split; [ | apply NoDup_singleton].
    intros k Hin Hin'. apply list_elem_of_singleton in Hin' as ->. done.
  - apply Forall_app. split; [done | by constructor].
  - intros i x Hi Hpend. rewrite length_app. simpl.
    apply lookup_app_Some in Hi as [Hi | [Hi Hx]].
    + rewrite Forall_lookup in Hn. rewrite (Hn i x Hi) in Hpend. discriminate.
    + apply list_lookup_singleton_Some in Hx as [Hx _]. lia.
Qed.

(** Replacing a message by one with the same key that is no more pending, or at the end. *)
Lemma conversation_ok_insert ms i m m' :
  conversation_ok ms → ms !! i = Some m → key m' = key m → versions m' ≠ [] →
  (isPendingAssistantMessage m' = true → S i = length ms) → conversation_ok (<[i := m']> ms).
Proof.
  intros (Hk & Hv & Hp) Hi Hkey Hver Hpend. split; [ | split].
  - rewrite list_fmap_insert. rewrite list_insert_id; [done | ].
    rewrite list_lookup_fmap, Hi. simpl. by rewrite Hkey.
  - by apply Forall_insert.
  - intros j x Hj Hx. rewrite length_insert.
    destruct (decide (i = j)) as [<- | Hne].
    + rewrite list_lookup_insert_eq in Hj by (by eapply lookup_lt_Some). simplify_eq. auto.
    + rewrite list_lookup_insert_ne in Hj by done. eauto.
Qed.

Lemma conversation_ok_update_last ms f :
  conversation_ok ms →
  (∀ m, key (f m) = key m ∧ (versions m ≠ [] → versions (f m) ≠ [])) →
  conversation_ok (updateLastAssistantMessage ms f).
Proof.
  intros Hok Hf. unfold updateLastAssistantMessage. destruct (last ms) as [m|] eqn:El; [ | done].
  destruct (isAssistant m); [ | done]. rewrite last_lookup in El.
  replace (pred (length ms)) with (length ms - 1) in El by lia.
  pose proof (lookup_lt_Some _ _ _ El) as Hlt.
  apply (conversation_ok_insert ms (length ms - 1) m); [done | done | apply Hf | | lia].
  apply Hf. destruct Hok as (_ & Hv & _). rewrite Forall_lookup in Hv. eauto.
Qed.

Lemma find_key_spec k ms i :
  find_key k ms = Some i → ∃ m, ms !! i = Some m ∧ key m = k.
Proof.
  revert i. induction ms as [|m ms IH]; intros i; simpl; [done | ].
  destruct (has_key k m) eqn:E.
  - intros [= <-]. exists m. unfold has_key in E. bools. done.
  - destruct (find_key k ms) as [j|]; [ | done]. intros [= <-]. by apply IH.
Qed.

Lemma pending_free_prefix ms n :
  conversation_ok ms → n < length ms → Forall (fun m => isPendingAssistantMessage m = false) (take n ms).
Proof.
  intros (_ & _ & Hp) Hn. apply Forall_lookup. intros i m Hi.
  apply lookup_take_Some in Hi as [Hi Hlt].
  destruct (isPendingAssistantMessage m) eqn:E; [ | done]. specialize (Hp i m Hi E). lia.
Qed.

Lemma loading_not_user m : from m = RUser → isPendingAssistantMessage m = false.
Proof. intros E. unfold isPendingAssistantMessage, isAssistant. by rewrite E. Qed.

(** A prefix that ends before a pending answer, followed by a new loading answer. *)
Lemma conversation_ok_answer ms n f now :
  conversation_ok ms → Forall (fun m => isPendingAssistantMessage m = false) (take n ms) →
  fresh_for ms f →
  conversation_ok (take n ms ++
    [createLoadingAssistantMessage (assistant_key f) (assistant_version f) now]).
Proof.
  intros Hok Hn (_ & Hf & _). apply conversation_ok_snoc; [by apply conversation_ok_prefix | done | | done].
  simpl. intros Hin. apply Hf. rewrite fmap_take in Hin.
  apply elem_of_take in Hin as (i & Hi & _). by eapply list_elem_of_lookup_2.
Qed.

Lemma pending_free_upto ms i m :
  conversation_ok ms → ms !! i = Some m → isPendingAssistantMessage m = false →
  Forall (fun m => isPendingAssistantMessage m = false) (take (i + 1) ms).
Proof.
  intros Hok Hi Hm. pose proof (lookup_lt_Some _ _ _ Hi) as Hlt.
  replace (i + 1) with (S i) by lia. rewrite (take_S_r ms i m Hi).
  apply Forall_app. split; [by apply pending_free_prefix | by constructor].
Qed.

Lemma regenerate_ok ms k f now ms' :
  conversation_ok ms → fresh_for ms f → createRegeneratedMessages ms k f now = Some ms' →
  conversation_ok ms'.
Proof.
  intros Hok Hf. unfold createRegeneratedMessages.
  destruct (find_key k ms) as [i|] eqn:Ek; [ | done]. cbn [mbind option_bind].
  destruct (ms !! i) as [m|] eqn:Ei; [ | done]. cbn [mbind option_bind]. intros [= <-].
  pose proof (lookup_lt_Some _ _ _ Ei) as Hlt. unfold slice. rewrite drop_0, !Nat.sub_0_r.
  destruct (bool_decide (from m = RUser)) eqn:Eu; bools.
  - apply conversation_ok_answer; [done | | done].
    by eapply pending_free_upto; [ | exact Ei | apply loading_not_user].
  - apply conversation_ok_answer; [done | by apply pending_free_prefix | done].
Qed.

(** The edited messages: same keys and roles, the edited content where the key matches. *)
Definition edited (k c : ustring) (submit : bool) (now : number) (m : Message) : Message :=
  if has_key k m
  then with_createdAt (if submit then Some now else createdAt m) (updateCurrentVersionContent m c)
  else m.

Lemma edited_body k c submit now m :
  key (edited k c submit now m) = key m ∧ from (edited k c submit now m) = from m ∧
  (versions m ≠ [] → versions (edited k c submit now m) ≠ []) ∧
  isPendingAssistantMessage (edited k c submit now m) = isPendingAssistantMessage m.
Proof. unfold edited. by destruct (has_key k m). Qed.

Lemma conversation_ok_edited ms k c submit now :
  conversation_ok ms → conversation_ok (edited k c submit now <$> ms).
Proof.
  intros (Hk & Hv & Hp). split; [ | split].
  - rewrite <- list_fmap_compose. erewrite list_fmap_ext; [exact Hk | ].
    intros i m _. apply edited_body.
  - apply Forall_fmap. eapply Forall_impl; [exact Hv | ]. intros m Hm. by apply edited_body.
  - intros i m Hi Hpend. rewrite list_lookup_fmap in Hi. rewrite length_fmap.
    destruct (ms !! i) as [m0|] eqn:E; [ | done]. simplify_eq/=.
    apply (Hp i m0); [done | ]. by rewrite <- Hpend; symmetry; apply edited_body.
Qed.

Lemma fresh_for_edited ms k c submit now f :
  fresh_for ms f → fresh_for (edited k c submit now <$> ms) f.
Proof.
  unfold fresh_for. rewrite <- list_fmap_compose.
  erewrite (list_fmap_ext (key ∘ edited k c submit now)); [done | ].
  intros i m _. apply edited_body.
Qed.

Lemma edit_ok ms k c submit f now r :
  conversation_ok ms → fresh_for ms f → applyMessageEdit ms k c submit f now = Some r →
  conversation_ok (edit_messages r).
Proof.
  intros Hok Hf. unfold applyMessageEdit.
  destruct (find_key k ms) as [i|] eqn:Ek; [ | done]. cbn [mbind option_bind].
  change (map _ ms) with (edited k c submit now <$> ms).
  pose proof (conversation_ok_edited ms k c submit now Hok) as Hok'.
  destruct ((edited k c submit now <$> ms) !! i) as [m|] eqn:Ei; [ | done].
  cbn [mbind option_bind]. intros [= <-].
  destruct (negb submit || negb (bool_decide (from m = RUser))) eqn:Eb; [done | ]. bools.
  cbn [edit_messages]. unfold slice. rewrite drop_0, Nat.sub_0_r.
  apply conversation_ok_answer; [done | | by apply fresh_for_edited].
  by eapply pending_free_upto; [ | exact Ei | apply loading_not_user].
Qed.

Lemma submit_ok ms c f now :
  conversation_ok ms → fresh_for ms f → Forall (fun m => isPendingAssistantMessage m = false) ms →
  conversation_ok (appendUserMessagePair ms c f now).
Proof.
  intros Hok (Hu & Ha & Hne) Hn. unfold appendUserMessagePair.
  rewrite (cons_middle _ ms [_]), app_assoc.
  assert (Hok1 : conversation_ok (ms ++ [createUserMessage (user_key f) (user_version f) c now])).
  { by apply conversation_ok_snoc. }
  apply conversation_ok_snoc; [done | | | done].
  - apply Forall_app. split; [done | by constructor].
  - rewrite fmap_app. intros Hin. apply elem_of_app in Hin as [Hin | Hin]; [done | ].
    apply list_elem_of_singleton in Hin. simpl in Hin. congruence.
Qed.

Lemma remove_ok ms k : conversation_ok ms → conversation_ok (removeMessageByKey ms k).
Proof.
  intros (Hk & Hv & Hp). unfold removeMessageByKey. split; [ | split].
  - eapply sublist_NoDup; [exact Hk | ]. apply fmap_sublist, sublist_filter.
  - apply Forall_forall. intros m Hin. apply list_elem_of_filter in Hin as [_ Hin].
    by eapply Forall_forall in Hv.
  - revert Hp. clear Hk Hv. induction ms as [|m ms IH]; intros Hp i x Hi Hpend; [done | ].
    assert (Hp' : ∀ j y, ms !! j = Some y → isPendingAssistantMessage y = true → S j = length ms).
    { intros j y Hj Hy. specialize (Hp (S j) y Hj Hy). simpl in Hp. lia. }
    rewrite filter_cons in *. destruct (decide _).
    + destruct i as [|i]; simpl in *.
      * simplify_eq. specialize (Hp 0 x eq_refl Hpend). simpl in Hp.
        destruct ms; [done | simpl in Hp; lia].
      * f_equal. by apply (IH Hp' i x).
    + by apply (IH Hp' i x).
Qed.

Lemma conversation_step_ok t ms ms' :
  conversation_step t ms ms' → conversation_ok ms → conversation_ok ms'.
Proof.
  intros Hstep Hok. destruct Hstep.
  - by apply submit_ok.
  - by eapply regenerate_ok.
  - by eapply edit_ok.
  - by apply remove_ok.
  - apply conversation_ok_update_last; [done | ]. intros m. split; apply applyStreamingChunk_key.
  - apply conversation_ok_update_last; [done | ]. intros m.
    destruct (completeAssistantMessage_body m now) as (-> & _ & _ & _ & ->). done.
  - apply conversation_ok_update_last; [done | ]. intros m.
    match goal with |- context [completeAssistantTiming ?x now] =>
      destruct (completeAssistantTiming_body x now) as ((-> & _ & ->) & _) end. done.
  - destruct (sanitizeMessagesOnLoad_cases t ms now) as [[-> _] | (i & m & Hi & Hp & _ & ->)]; [done | ].
    destruct (sanitizeMessage_body t m now) as (Hk & _ & Hv & Hf & _).
    apply (conversation_ok_insert ms i m); try done.
    by rewrite (isPendingAssistantMessage_final _ Hf).
Qed.

(** Replacing one pending message by a final one. *)
Lemma filter_insert_pending (ms : list Message) i m m' :
  ms !! i = Some m → isPendingAssistantMessage m = true → isPendingAssistantMessage m' = false →
  S (length (filter (fun m => isPendingAssistantMessage m = true) (<[i := m']> ms)))
  = length (filter (fun m => isPendingAssistantMessage m = true) ms).
Proof.
  revert i. induction ms as [|x ms IH]; intros [|i] Hi Hp Hp'; try done; simpl in *.
  - simplify_eq. rewrite (filter_cons_False _ m'), (filter_cons_True _ m) by congruence. done.
  - rewrite !filter_cons. destruct (decide _); simpl; [f_equal | ]; by apply IH.
Qed.

Lemma rtc_preserve {A} (R : relation A) (P : A → Prop) :
  (∀ x y, R x y → P x → P y) → ∀ x y, rtc R x y → P x → P y.
Proof. intros Hstep x y. induction 1; eauto. Qed.

Lemma valid_user_message k v c now : isValidMessage (createUserMessage k v c now) = true.
Proof. done. Qed.

Lemma loading_not_valid k v now : isValidMessage (createLoadingAssistantMessage k v now) = false.
Proof. done. Qed.

(** ** Theorems *)

(** separating reasoning from the answer loses nothing and always ends: the text is cut
    into the parts outside and inside the tags, from left to right, an unclosed tag
    reaching to the end; the answer is the parts outside put together, the reasoning the
    parts inside separated by empty lines, and a text without tags is kept as it is. *)
Theorem think_tags_cover_the_text text :
  ∃ vs rs unclosed, think_split text vs rs unclosed ∧
    think_reasoning (parseThinkTags text) = trim (join [NEWLINE; NEWLINE] rs) ∧
    hasUnclosedTag (parseThinkTags text) = unclosed ∧
    visibleContent (parseThinkTags text)
    = (if includes OPEN_TAG text then trim (join [] vs) else text).
Proof. exact (parseThinkTags_split text). Qed.

(** C11: a streamed answer is complete and does not depend on how it was cut: after any
    sequence of chunks a message that has not failed holds the texts of all content
    chunks in order, and completing it leaves exactly the visible part of that text. *)
Theorem streamed_answer_is_complete m chunks now :
  status m ≠ Some SError →
  let m' := stream_chunks m chunks in
  let text := getMessageContent m ++ content_of chunks in
  getMessageContent m' = text ∧ key m' = key m ∧
  getMessageContent (completeAssistantMessage m' now) = visibleContent (parseThinkTags text) ∧
  status (completeAssistantMessage m' now) = Some SComplete.
Proof.
  intros Hs. cbv zeta. destruct (stream_chunks_content chunks m Hs) as (Hc & Hk & _).
  destruct (completeAssistantMessage_body (stream_chunks m chunks) now) as (_ & _ & Hst & _ & Hv).
  split; [done | ]. split; [done | ]. split; [ | done].
  unfold getMessageContent at 1, getCurrentVersion. rewrite Hv, <- Hc. done.
Qed.

Definition sample_loading : Message := createLoadingAssistantMessage (js "k") (js "v") zero.

Lemma streamed_answer_is_complete_witness :
  let m' := stream_chunks sample_loading
              [(CReasoning, js "why", one); (CContent, js "an", one); (CContent, js "swer", one)] in
  getMessageContent m' = js "answer" ∧ key m' = js "k" ∧
  getMessageContent (completeAssistantMessage m' one) = visibleContent (parseThinkTags (js "answer")) ∧
  status (completeAssistantMessage m' one) = Some SComplete.
Proof. apply (streamed_answer_is_complete sample_loading). discriminate. Defined.

(** the reasoning of a message does depend on how the answer was cut: when a closing tag
    of an empty reasoning arrives in two chunks, the first half of the tag is taken for
    reasoning and kept, although the whole text has none. *)
Theorem reasoning_depends_on_chunking :
  let whole := stream_chunks sample_loading [(CContent, js "<think></think>Hi", one)] in
  let cut := stream_chunks sample_loading
               [(CContent, js "<think></thi", one); (CContent, js "nk>Hi", one)] in
  getMessageContent cut = getMessageContent whole ∧
  reasoning (completeAssistantMessage whole one) = None ∧
  reasoning_content <$> reasoning (completeAssistantMessage cut one) = Some (js "</thi").
Proof. split; [ | split]; vm_compute; reflexivity. Qed.

(** loading repairs one interrupted answer: the latest pending answer becomes a complete
    or failed one under its own key, every other message stays, and the number of pending
    answers drops by one; without pending answers nothing changes. *)
Theorem loading_repairs_one_answer t ms now :
  let pending := filter (fun m => isPendingAssistantMessage m = true) in
  length (pending (sanitizeMessagesOnLoad t ms now)) = length (pending ms) - 1 ∧
  key <$> sanitizeMessagesOnLoad t ms now = key <$> ms ∧
  ∀ i m, ms !! i = Some m → isPendingAssistantMessage m = false →
         sanitizeMessagesOnLoad t ms now !! i = Some m.
Proof.
  cbv zeta.
  destruct (sanitizeMessagesOnLoad_cases t ms now) as [[-> Hn] | (i & m & Hi & Hp & _ & ->)].
  - rewrite filter_none; [done | ]. intros m Hin. rewrite Forall_forall in Hn.
    rewrite (Hn m Hin). done.
  - destruct (sanitizeMessage_body t m now) as (Hk & _ & _ & Hf & _).
    apply isPendingAssistantMessage_final in Hf.
    pose proof (filter_insert_pending ms i m (sanitizeMessage t m now) Hi Hp Hf). split; [lia | ].
    split.
    + rewrite list_fmap_insert. apply list_insert_id. rewrite list_lookup_fmap, Hi. simpl. by rewrite Hk.
    + intros j x Hj Hx. destruct (decide (i = j)) as [<- | Hne]; [congruence | ].
      by rewrite list_lookup_insert_ne.
Qed.

Lemma loading_repairs_one_answer_witness :
  sanitizeMessagesOnLoad (fun s => s)
    [createUserMessage (js "a") (js "b") (js "hello") one; sample_loading] one !! 0
  = Some (createUserMessage (js "a") (js "b") (js "hello") one).
Proof.
  apply (loading_repairs_one_answer (fun s => s)
           [createUserMessage (js "a") (js "b") (js "hello") one; sample_loading] one); reflexivity.
Defined.

(** C12: in every conversation that the operations can build from an empty one, keys are
    unique, every message has a version, and at most the last message is an answer still
    being generated. *)
Theorem conversation_invariant t ms :
  rtc (conversation_step t) [] ms →
  NoDup (key <$> ms) ∧ Forall (fun m => versions m ≠ []) ms ∧
  ∀ i m, ms !! i = Some m → isPendingAssistantMessage m = true → S i = length ms.
Proof.
  intros Hsteps. change (conversation_ok ms).
  apply (rtc_preserve _ conversation_ok (conversation_step_ok t) _ _ Hsteps).
  split; [constructor | ]. split; [constructor | done].
Qed.

Definition sample_ids : ids := mkIds (js "u1") (js "uv1") (js "a1") (js "av1").

Lemma conversation_invariant_witness :
  let ms := appendUserMessagePair [] (js "hello") sample_ids one in
  NoDup (key <$> ms) ∧ Forall (fun m => versions m ≠ []) ms ∧
  ∀ i m, ms !! i = Some m → isPendingAssistantMessage m = true → S i = length ms.
Proof.
  apply (conversation_invariant (fun s => s)). apply rtc_once. apply cs_submit.
  - split; [set_solver | ]. split; [set_solver | discriminate].
  - constructor.
Defined.

(** the request for a new text carries the valid messages before it, in order, and the
    new text last; the placeholder for the answer is never sent, and neither is an
    assistant message without text; a parameter is sent exactly when it is enabled. *)
Theorem submitted_payload ms c f now config enabled :
  let before := buildChatCompletionPayload ms config enabled in
  let payload := buildChatCompletionPayload (appendUserMessagePair ms c f now) config enabled in
  req_messages payload = req_messages before ++ [mkChat RUser (PlainContent c)] ∧
  Forall (fun chat => chat_role chat = RAssistant → truthy (trim (getTextContent (chat_content chat))) = true)
    (req_messages payload) ∧
  req_temperature payload = (if temperature_enabled enabled then Some (temperature config) else None) ∧
  req_seed payload = (if seed_enabled enabled then seed config else None).
Proof.
  cbv zeta. split; [ | split].
  - unfold buildChatCompletionPayload, appendUserMessagePair. cbn [req_messages].
    rewrite filter_app, map_app. f_equal.
  - unfold buildChatCompletionPayload. cbn [req_messages]. apply Forall_map, Forall_forall.
    intros m Hin Hrole. apply list_elem_of_filter in Hin as [Hv _]. simpl in *.
    unfold isValidMessage in Hv. destruct (versions m) eqn:Ever; [done | ]. bools.
    unfold isAssistant in Hv. rewrite bool_decide_true in Hv by done. simpl in Hv. bools. done.
  - split; [done | ]. simpl. unfold when. destruct (seed config), (seed_enabled enabled); done.
Qed.

Lemma submitted_payload_witness :
  Forall (fun chat => chat_role chat = RAssistant → truthy (trim (getTextContent (chat_content chat))) = true)
    (req_messages
       (buildChatCompletionPayload (appendUserMessagePair [sample_loading] (js "hi") sample_ids one)
          (mkPlayground (js "m") (js "g") one one one zero zero None true)
          (mkEnabled true true false true true false))).
Proof. apply submitted_payload. Defined.
