(* ===== verification/StreamController.v ===== *)
(** * The streaming request controller

    [createStreamRequestController] of features/playground/hooks/use-stream-request.ts and
    the helpers of lib/streaming/stream-utils.ts: one server-sent-event source at a time,
    with a generation number that outdates the requests before it.  A request is named by
    its generation, and so is the source it opens.  [send] is split at its await. *)

From Stdlib Require Import Lia.
From stdpp Require Import base numbers strings option sets gmap list.
From S2P Require Import Prelude JsNumber Json JsonText ChatMessages.

(** ** stream-utils.ts *)

Definition STREAM_DONE_MESSAGE : ustring := js "[DONE]".
Definition CONNECTION_CLOSED : ustring := js "Connection closed".
Definition PARSE_ERROR : ustring := js "Error parsing response data".
Definition STREAM_START_ERROR : ustring := js "Error establishing connection".

Definition isStreamDoneMessage (d : ustring) : bool := ustring_eqb d STREAM_DONE_MESSAGE.

Definition isStreamClosedReadyState (readyState : option Z) : bool :=
  bool_decide (readyState = Some 2%Z).

Definition getStreamReadyStateError (readyState sourceStatus : option Z) : option ustring :=
  if negb (isStreamClosedReadyState readyState) then None
  else match sourceStatus with
       | Some st =>
           if (st =? 200)%Z then Some CONNECTION_CLOSED
           else Some (js "HTTP " ++ show_Z st ++ js ": " ++ CONNECTION_CLOSED)
       | None => Some CONNECTION_CLOSED
       end.

(** The updates in a chunk, or [None] when reading the chunk throws. *)
Definition parseStreamMessageUpdates (d : ustring) : option (list (StreamChunkType * json)) :=
  match JSON_parse d with
  | None | Some JNull => None
  | Some chunk =>
      let delta := prop (first_element (prop (Some chunk) "choices")) "delta" in
      let update type name :=
        match prop delta name with
        | Some v => if truthy_json (Some v) then [(type, v)] else []
        | None => []
        end in
      Some (if truthy_json delta
            then update CReasoning "reasoning_content"%string ++ update CContent "content"%string
            else [])
  end.

Record StreamErrorDetails := mkDetails { detail_code : option json; detail_message : json }.

Definition parseStreamErrorDetails (d : option ustring) : StreamErrorDetails :=
  let fallbackMessage := JString (or_text d API_REQUEST_ERROR) in
  match d with
  | None | Some [] => mkDetails None fallbackMessage
  | Some text =>
      match JSON_parse text with
      | Some parsed =>
          let error := prop (Some parsed) "error" in
          if truthy_json error then
            let code := prop error "code" in
            mkDetails (if truthy_json code then code else None)
              (or_json (prop error "message") fallbackMessage)
          else mkDetails None fallbackMessage
      | None => mkDetails None fallbackMessage
      end
  end.

(** ** The controller *)

Inductive callback :=
| OnUpdate (type : StreamChunkType) (chunk : json)
| OnComplete
| OnError (message : json) (code : option json).

Definition terminal (c : callback) : bool :=
  match c with OnUpdate _ _ => false | OnComplete | OnError _ _ => true end.

(** [opened] and [closed] record the calls of [createSource] and [close], [awaiting] the
    requests that await their headers, [completed] those whose flag is set, and [log] the callbacks made, in order. *)
Record controller := mkController {
  source : option nat;
  generation : nat;
  streaming : bool;
  awaiting : list nat;
  opened : list nat;
  closed : list nat;
  completed : list nat;
  log : list (nat * callback);
}.

Definition initial_controller : controller := mkController None 0 false [] [] [] [] [].

Definition close_source (g : option nat) (c : list nat) : list nat :=
  match g with Some g => c ++ [g] | None => c end.

(** [send] up to its await. *)
Definition send (s : controller) : controller :=
  let requestGeneration := generation s + 1 in
  mkController None requestGeneration false (awaiting s ++ [requestGeneration]) (opened s)
    (close_source (source s) (closed s)) (completed s) (log s).

(** [isCurrent() && !completed]. *)
Definition listens (s : controller) (g : nat) : bool :=
  (generation s =? g) && bool_decide (source s = Some g) && bool_decide (g ∉ completed s).

Definition complete (s : controller) (g : nat) : controller :=
  mkController (source s) (generation s) (streaming s) (awaiting s) (opened s) (closed s)
    (completed s ++ [g]) (log s).

Definition closeActiveSource (s : controller) (g : nat) : controller :=
  let drops := bool_decide (source s = Some g) in
  mkController (if drops then None else source s) (generation s)
    (if drops then false else streaming s) (awaiting s) (opened s) (closed s ++ [g]) (completed s)
    (log s).

Definition notify (s : controller) (g : nat) (cs : list callback) : controller :=
  mkController (source s) (generation s) (streaming s) (awaiting s) (opened s) (closed s)
    (completed s) (log s ++ map (pair g) cs).

Definition handleError (s : controller) (g : nat) (message : json) (code : option json) : controller :=
  if listens s g then closeActiveSource (notify (complete s g) g [OnError message code]) g else s.

Definition remove_awaiting (s : controller) (g : nat) : controller :=
  mkController (source s) (generation s) (streaming s) (filter (fun g' => g' ≠ g) (awaiting s))
    (opened s) (closed s) (completed s) (log s).

(** [send] when the headers are there; [streams] tells whether [stream()] returns. *)
Definition headersReady (s : controller) (g : nat) (streams : bool) : controller :=
  let s := remove_awaiting s g in
  if negb (generation s =? g) then s
  else
    let s := mkController (Some g) (generation s) true (awaiting s) (opened s ++ [g]) (closed s)
               (completed s) (log s) in
    if streams then s else handleError s g (JString STREAM_START_ERROR) None.

(** [send] when the headers could not be had. *)
Definition headersFailed (s : controller) (g : nat) (message : json) : controller :=
  let s := remove_awaiting s g in
  if negb (generation s =? g) then s else notify s g [OnError message None].

(** The listener of [message] events. *)
Definition onMessage (s : controller) (g : nat) (d : ustring) : controller :=
  if negb (listens s g) then s
  else if isStreamDoneMessage d then notify (closeActiveSource (complete s g) g) g [OnComplete]
  else match parseStreamMessageUpdates d with
       | Some updates => notify s g (map (fun u => OnUpdate u.1 u.2) updates)
       | None => handleError s g (JString PARSE_ERROR) None
       end.

(** The listener of [error] events. *)
Definition onErrorEvent (s : controller) (g : nat) (readyState st : option Z) (d : option ustring)
    : controller :=
  if negb (listens s g) then s
  else match getStreamReadyStateError readyState st with
       | Some closedError => handleError s g (JString closedError) None
       | None =>
           let details := parseStreamErrorDetails d in
           handleError s g (detail_message details) (detail_code details)
       end.

(** The listener of [readystatechange] events. *)
Definition onReadyState (s : controller) (g : nat) (readyState st : option Z) : controller :=
  if negb (listens s g) then s
  else match getStreamReadyStateError readyState st with
       | Some errorMessage => handleError s g (JString errorMessage) None
       | None => s
       end.

Definition cancel (s : controller) (tell : bool) : controller :=
  mkController None (generation s + 1) (if tell then false else streaming s) (awaiting s) (opened s)
    (close_source (source s) (closed s)) (completed s) (log s).

Inductive stream_event :=
| Send
| HeadersReady (g : nat) (streams : bool)
| HeadersFailed (g : nat) (message : json)
| MessageEvent (g : nat) (d : ustring)
| ErrorEvent (g : nat) (readyState st : option Z) (d : option ustring)
| ReadyStateEvent (g : nat) (readyState st : option Z)
| Stop
| Dispose.

(** The headers of a request arrive once, and a source sends events once it is open. *)
Definition stream_step (s : controller) (e : stream_event) : controller :=
  match e with
  | Send => send s
  | HeadersReady g streams => if bool_decide (g ∈ awaiting s) then headersReady s g streams else s
  | HeadersFailed g message => if bool_decide (g ∈ awaiting s) then headersFailed s g message else s
  | MessageEvent g d => if bool_decide (g ∈ opened s) then onMessage s g d else s
  | ErrorEvent g r st d => if bool_decide (g ∈ opened s) then onErrorEvent s g r st d else s
  | ReadyStateEvent g r st => if bool_decide (g ∈ opened s) then onReadyState s g r st else s
  | Stop => cancel s true
  | Dispose => cancel s false
  end.

Definition stream_steps (s : controller) (es : list stream_event) : controller :=
  fold_left stream_step es s.

(** ** Invariant *)

(** The callbacks of one request: nothing follows its end. *)
Definition log_ok (l : list (nat * callback)) : Prop :=
  ∀ i j g c c', l !! i = Some (g, c) → terminal c = true → l !! j = Some (g, c') → j ≤ i.

Definition ended (l : list (nat * callback)) (g : nat) : Prop :=
  ∃ c, (g, c) ∈ l ∧ terminal c = true.

Record stream_ok (s : controller) : Prop := mkStreamOk {
  so_source : ∀ g, source s = Some g →
    g = generation s ∧ g ∈ opened s ∧ (g ∉ closed s) ∧ (g ∉ completed s) ∧ ¬ ended (log s) g ∧
    streaming s = true;
  so_opened : ∀ g, g ∈ opened s → g ∈ closed s ∨ source s = Some g;
  so_old : ∀ g, g ∈ opened s ∨ g ∈ awaiting s ∨ g ∈ closed s ∨ g ∈ completed s ∨ g ∈ (log s).*1 →
    g ≤ generation s;
  so_awaiting : ∀ g, g ∈ awaiting s →
    (g ∉ opened s) ∧ (g ∉ closed s) ∧ (g ∉ completed s) ∧ (g ∉ (log s).*1);
  so_log : log_ok (log s);
}.

Lemma log_ok_app l g cs :
  log_ok l → ¬ ended l g →
  (∀ c, c ∈ cs → terminal c = false) ∨ (∃ c, cs = [c]) → log_ok (l ++ map (pair g) cs).
Proof.
  intros Hl Hn Hcs i j g' c c' Hi Ht Hj.
  apply lookup_app_Some in Hi as [Hi | [Hle Hi]].
  - apply lookup_app_Some in Hj as [Hj | [Hle Hj]]; [by eapply Hl | ].
    apply list_elem_of_lookup_2, list_elem_of_fmap in Hj as (c0 & [= -> ->] & _).
    exfalso. apply Hn. exists c. split; [by eapply list_elem_of_lookup_2 | done].
  - destruct Hcs as [Hnt | [c1 ->]].
    + apply list_elem_of_lookup_2, list_elem_of_fmap in Hi as (c0 & [= -> ->] & Hin).
      rewrite (Hnt _ Hin) in Ht. discriminate.
    + apply lookup_lt_Some in Hj. rewrite length_app in Hj. simpl in Hj. lia.
Qed.

Lemma ended_app l g cs g' :
  ended (l ++ map (pair g) cs) g' → ended l g' ∨ (g' = g ∧ ∃ c, c ∈ cs ∧ terminal c = true).
Proof.
  intros (c & Hin & Ht). apply elem_of_app in Hin as [Hin | Hin]; [left; by exists c | right].
  apply list_elem_of_fmap in Hin as (c0 & [= -> ->] & Hin). eauto.
Qed.

Lemma fst_notify (l : list (nat * callback)) g (cs : list callback) g' : g' ∈ (l ++ map (pair g) cs).*1 → g' ∈ l.*1 ∨ g' = g.
Proof.
  rewrite fmap_app. intros Hin. apply elem_of_app in Hin as [Hin | Hin]; [by left | right].
  apply list_elem_of_fmap in Hin as ([] & -> & Hin). simpl.
  apply list_elem_of_fmap in Hin as (c0 & [= -> ->] & _). done.
Qed.

Lemma ended_logged (l : list (nat * callback)) g : ended l g → g ∈ l.*1.
Proof. intros (c & Hin & _). apply list_elem_of_fmap. by exists (g, c). Qed.

(** [send] and [cancel]: the source is closed and a later generation begins. *)
Lemma next_generation_ok s stream aw :
  stream_ok s → aw = awaiting s ∨ aw = awaiting s ++ [generation s + 1] →
  stream_ok (mkController None (generation s + 1) stream aw (opened s)
               (close_source (source s) (closed s)) (completed s) (log s)).
Proof.
  intros [H1 H2 H3 H4 H5] Haw.
  assert (Hold : ∀ g, g ∈ close_source (source s) (closed s) → g ∈ closed s ∨ g ∈ opened s).
  { intros g. destruct (source s) as [g0|]; simpl; [ | by left].
    intros [Hin | Hin]%elem_of_app; [by left | right]. apply list_elem_of_singleton in Hin as ->.
    by apply H1. }
  split; cbn [source generation streaming awaiting opened closed completed log]; [done | | | | done].
  - intros g Hg. left. destruct (H2 g Hg) as [Hc | ->]; [destruct (source s) | ]; simpl; set_solver.
  - intros g Hg.
    assert (Hcase : g = generation s + 1 ∨ g ≤ generation s); [ | lia].
    destruct Hg as [Hg | [Hg | [Hg | Hg]]]; [right; auto | | | right; apply H3; tauto].
    + destruct Haw as [-> | ->]; [right; auto | ].
      apply elem_of_app in Hg as [Hg | Hg]; [right; auto | left; by apply list_elem_of_singleton].
    + right. destruct (Hold g Hg); auto.
  - intros g Hg.
    assert (Hcase : g ∈ awaiting s ∨ g = generation s + 1) by (destruct Haw as [-> | ->]; set_solver).
    destruct Hcase as [Hin | ->].
    + destruct (H4 g Hin) as (? & ? & ? & ?). repeat split; try done.
      intros Hc. by destruct (Hold g Hc).
    + assert (Hno : ¬ generation s + 1 ≤ generation s) by lia.
      repeat split; intros Hc; apply Hno, H3; try tauto. destruct (Hold _ Hc); tauto.
Qed.

(** A source is opened for the request of this generation. *)
Lemma open_ok s g :
  stream_ok s → g ∈ awaiting s → generation s = g → source s = None →
  stream_ok (mkController (Some g) (generation s) true (filter (fun g' => g' ≠ g) (awaiting s))
               (opened s ++ [g]) (closed s) (completed s) (log s)).
Proof.
  intros [H1 H2 H3 H4 H5] Hin Hg Hs. destruct (H4 g Hin) as (Ho & Hc & Hd & Hl).
  split; cbn [source generation streaming awaiting opened closed completed log]; [ | | | | done].
  - intros g' [= <-]. repeat split; try done; [set_solver | ]. by intros He%ended_logged.
  - intros g' [Hg' | Hg']%elem_of_app.
    + destruct (H2 g' Hg') as [|E]; [by left | congruence].
    + apply list_elem_of_singleton in Hg' as ->. by right.
  - intros g' [Hg' | [Hg' | Hg']]; [ | | apply H3; tauto].
    + apply elem_of_app in Hg' as [|Hg']; [auto | ]. apply list_elem_of_singleton in Hg' as ->. lia.
    + apply H3. apply list_elem_of_filter in Hg' as [_ ?]. tauto.
  - intros g' [Hne Hg']%list_elem_of_filter. destruct (H4 g' Hg') as (? & ? & ? & ?).
    repeat split; try done. set_solver.
Qed.

(** The request of this generation ends before it has a source. *)
Lemma forget_ok s g :
  stream_ok s →
  stream_ok (mkController (source s) (generation s) (streaming s)
               (filter (fun g' => g' ≠ g) (awaiting s)) (opened s) (closed s) (completed s) (log s)).
Proof.
  intros [H1 H2 H3 H4 H5].
  split; cbn [source generation streaming awaiting opened closed completed log]; try done.
  - intros g' Hg'. apply H3. rewrite list_elem_of_filter in Hg'. tauto.
  - intros g' [_ Hg']%list_elem_of_filter. by apply H4.
Qed.

(** Callbacks of the request that listens. *)
Lemma notify_ok s g cs :
  stream_ok s → g ∉ awaiting s → ¬ ended (log s) g → g ≤ generation s →
  (∀ c, c ∈ cs → terminal c = false) ∨ ((∃ c, cs = [c]) ∧ source s ≠ Some g) →
  stream_ok (notify s g cs).
Proof.
  intros [H1 H2 H3 H4 H5] Ha He Hle Hcs.
  split; cbn [notify source generation streaming awaiting opened closed completed log]; try done.
  - intros g' Hg'. destruct (H1 g' Hg') as (-> & ? & ? & ? & Hn & ?). repeat split; try done.
    intros [Hend | (Eg & c & Hin & Ht)]%ended_app; [done | ].
    destruct Hcs as [Hnt | [_ Hne]]; [ | congruence]. rewrite (Hnt c Hin) in Ht. discriminate.
  - intros g' Hg'. destruct Hg' as [Hg' | [Hg' | [Hg' | [Hg' | Hg']]]]; try (apply H3; tauto).
    apply fst_notify in Hg' as [Hg' | ->]; [apply H3; tauto | done].
  - intros g' Hg'. destruct (H4 g' Hg') as (? & ? & ? & Hl). repeat split; try done.
    intros [Hc | ->]%fst_notify; done.
  - apply log_ok_app; [done | done | ]. destruct Hcs as [|[? _]]; [by left | by right].
Qed.

(** The end of the request that listens: its flag is set and its source is closed. *)
Lemma close_ok s g :
  stream_ok s → source s = Some g →
  stream_ok (closeActiveSource (complete s g) g) ∧
  source (closeActiveSource (complete s g) g) = None.
Proof.
  intros [H1 H2 H3 H4 H5] Hs. destruct (H1 g Hs) as (-> & Ho & _).
  unfold closeActiveSource, complete. cbn [source]. rewrite bool_decide_true by done. split; [ | done].
  split; cbn [source generation streaming awaiting opened closed completed log]; try done.
  - intros g' Hg'. left. destruct (H2 g' Hg') as [|E]; [set_solver | ].
    rewrite Hs in E. injection E as <-. set_solver.
  - intros g' Hg'. destruct Hg' as [Hg' | [Hg' | [Hg' | [Hg' | Hg']]]]; try (apply H3; tauto).
    + apply elem_of_app in Hg' as [Hg' | Hg']; [apply H3; tauto | ].
      apply list_elem_of_singleton in Hg' as ->. done.
    + apply elem_of_app in Hg' as [Hg' | Hg']; [apply H3; tauto | ].
      apply list_elem_of_singleton in Hg' as ->. done.
  - intros g' Hg'. destruct (H4 g' Hg') as (? & ? & ? & ?).
    assert (g' ≠ generation s) by (intros ->; done). repeat split; set_solver.
Qed.

Lemma listens_spec s g :
  stream_ok s → listens s g = true →
  source s = Some g ∧ g = generation s ∧ (g ∉ awaiting s) ∧ ¬ ended (log s) g.
Proof.
  intros [H1 _ _ H4 _] Hl. unfold listens in Hl. bools.
  match goal with E : source s = Some g |- _ => destruct (H1 g E) as (-> & Ho & _ & _ & He & _) end.
  repeat split; try done. intros Ha. by destruct (H4 _ Ha) as (Hn & _).
Qed.

(** The last callback of a request, together with the closing of its source. *)
Lemma finish_ok s g c :
  stream_ok s → listens s g = true →
  stream_ok (notify (closeActiveSource (complete s g) g) g [c]) ∧
  closeActiveSource (notify (complete s g) g [c]) g = notify (closeActiveSource (complete s g) g) g [c].
Proof.
  intros Hok Hl. destruct (listens_spec s g Hok Hl) as (Hs & Hg & Ha & He).
  destruct (close_ok s g Hok Hs) as [Hok' Hnone]. split; [ | done].
  apply notify_ok; [done | done | done | simpl; lia | ]. right. split; [eauto | ]. by rewrite Hnone.
Qed.

Lemma handleError_ok s g m code : stream_ok s → stream_ok (handleError s g m code).
Proof.
  intros Hok. unfold handleError. destruct (listens s g) eqn:E; [ | done].
  destruct (finish_ok s g (OnError m code) Hok E) as [Hf ->]. done.
Qed.

Lemma awaiting_no_source s g :
  stream_ok s → g ∈ awaiting s → generation s = g → source s = None.
Proof.
  intros [H1 _ _ H4 _] Ha Hg. destruct (source s) as [g'|] eqn:E; [ | done].
  destruct (H1 g' eq_refl) as (-> & Ho & _). destruct (H4 g Ha) as [Hn _]. congruence.
Qed.

Lemma stream_step_ok s e : stream_ok s → stream_ok (stream_step s e).
Proof.
  intros Hok. destruct e; cbn [stream_step].
  - apply next_generation_ok; auto.
  - destruct (bool_decide _) eqn:Ea; [ | done]. bools. unfold headersReady. cbv zeta.
    change (generation (remove_awaiting s g)) with (generation s).
    destruct (generation s =? g) eqn:Eg; bools; cbn [negb]; [ | by apply forget_ok].
    assert (Ho : stream_ok (mkController (Some g) (generation s) true
               (filter (fun g' => g' ≠ g) (awaiting s)) (opened s ++ [g]) (closed s) (completed s) (log s))).
    { apply open_ok; try done. by eapply awaiting_no_source. }
    destruct streams; [exact Ho | by apply handleError_ok].
  - destruct (bool_decide _) eqn:Ea; [ | done]. bools. unfold headersFailed. cbv zeta.
    change (generation (remove_awaiting s g)) with (generation s).
    destruct (generation s =? g) eqn:Eg; bools; cbn [negb]; [ | by apply forget_ok].
    destruct (so_awaiting s Hok g Ea) as (_ & _ & _ & Hl).
    apply notify_ok; [by apply forget_ok | | | simpl; lia | right].
    + simpl. rewrite list_elem_of_filter. tauto.
    + by intros He%ended_logged.
    + split; [eauto | ]. simpl. by rewrite (awaiting_no_source s g).
  - destruct (bool_decide _); [ | done]. unfold onMessage.
    destruct (listens s g) eqn:El; cbn [negb]; [ | done].
    destruct (isStreamDoneMessage d); [by apply finish_ok | ].
    destruct (parseStreamMessageUpdates d) as [us|]; [ | by apply handleError_ok].
    destruct (listens_spec s g Hok El) as (Hs & Hg & Ha & He).
    apply notify_ok; [done | done | done | lia | left].
    intros c Hin. apply list_elem_of_fmap in Hin as (u & -> & _). done.
  - destruct (bool_decide _); [ | done]. unfold onErrorEvent.
    destruct (listens s g); cbn [negb]; [ | done].
    destruct (getStreamReadyStateError _ _); by apply handleError_ok.
  - destruct (bool_decide _); [ | done]. unfold onReadyState.
    destruct (listens s g); cbn [negb]; [ | done].
    destruct (getStreamReadyStateError _ _); [by apply handleError_ok | done].
  - apply next_generation_ok; auto.
  - apply next_generation_ok; auto.
Qed.

Lemma initial_ok : stream_ok initial_controller.
Proof.
  split; simpl; try done.
  - intros g Hg. by inversion Hg.
  - intros g Hg. repeat (destruct Hg as [Hg | Hg]; [by inversion Hg | ]). by inversion Hg.
  - intros g Hg. by inversion Hg.
Qed.

Lemma stream_steps_ok s es : stream_ok s → stream_ok (stream_steps s es).
Proof.
  revert s. induction es as [|e es IH]; intros s Hok; [done | ]. apply IH. by apply stream_step_ok.
Qed.

(** ** Who is called back *)

(** A step adds callbacks of the current generation only. *)
Definition extends (s s' : controller) : Prop :=
  generation s ≤ generation s' ∧
  ∃ l, log s' = log s ++ l ∧ Forall (fun x => x.1 = generation s) l.

Lemma extends_same s s' : generation s ≤ generation s' → log s' = log s → extends s s'.
Proof. intros Hg Hl. split; [done | ]. exists []. rewrite app_nil_r. auto. Qed.

Lemma extends_notify s s' cs :
  generation s' = generation s → log s' = log s ++ map (pair (generation s)) cs → extends s s'.
Proof.
  intros Hg Hl. split; [lia | ]. eexists. split; [exact Hl | ].
  apply Forall_forall. intros x Hx. apply list_elem_of_fmap in Hx as (c & -> & _). done.
Qed.

Lemma handleError_extends s g m code : extends s (handleError s g m code).
Proof.
  unfold handleError. destruct (listens s g) eqn:E; [ | by apply extends_same].
  unfold listens in E. bools. subst g. by apply (extends_notify s _ [OnError m code]).
Qed.

Lemma listens_generation s g : listens s g = true → generation s = g.
Proof. unfold listens. intros H. by bools. Qed.

Lemma stream_step_extends s e : extends s (stream_step s e).
Proof.
  destruct e; cbn [stream_step]; try (apply extends_same; simpl; [lia | done]).
  - destruct (bool_decide _); [ | by apply extends_same]. unfold headersReady. cbv zeta.
    change (generation (remove_awaiting s g)) with (generation s).
    destruct (generation s =? g) eqn:Eg; bools; cbn [negb]; [ | by apply extends_same].
    destruct streams; [by apply extends_same | ].
    destruct (handleError_extends (mkController (Some g) (generation s) true
       (awaiting (remove_awaiting s g)) (opened s ++ [g]) (closed s) (completed s) (log s)) g
       (JString STREAM_START_ERROR) None) as (Hg & l & Hl & Hf). split; eauto.
  - destruct (bool_decide _); [ | by apply extends_same]. unfold headersFailed. cbv zeta.
    change (generation (remove_awaiting s g)) with (generation s).
    destruct (generation s =? g) eqn:Eg; bools; cbn [negb]; [ | by apply extends_same].
    subst g. by apply (extends_notify s _ [OnError message None]).
  - destruct (bool_decide _); [ | by apply extends_same]. unfold onMessage.
    destruct (listens s g) eqn:El; cbn [negb]; [ | by apply extends_same].
    apply listens_generation in El as <-.
    destruct (isStreamDoneMessage d); [by apply (extends_notify s _ [OnComplete]) | ].
    destruct (parseStreamMessageUpdates d); [by eapply extends_notify | apply handleError_extends].
  - destruct (bool_decide _); [ | by apply extends_same]. unfold onErrorEvent.
    destruct (listens s g); cbn [negb]; [ | by apply extends_same].
    destruct (getStreamReadyStateError _ _); apply handleError_extends.
  - destruct (bool_decide _); [ | by apply extends_same]. unfold onReadyState.
    destruct (listens s g); cbn [negb]; [ | by apply extends_same].
    destruct (getStreamReadyStateError _ _); [apply handleError_extends | by apply extends_same].
Qed.

(** Requests older than the current generation stay silent. *)
Lemma stream_steps_silent n s es :
  n < generation s →
  filter (fun x => x.1 ≤ n) (log (stream_steps s es)) = filter (fun x => x.1 ≤ n) (log s).
Proof.
  revert s. induction es as [|e es IH]; intros s Hn; [done | ]. unfold stream_steps in *. simpl.
  destruct (stream_step_extends s e) as (Hg & l & Hl & Hf).
  rewrite IH by lia. rewrite Hl, filter_app, (filter_none _ l); [apply app_nil_r | ].
  intros x Hx. rewrite Forall_forall in Hf. rewrite (Hf x Hx). lia.
Qed.

(** ** Theorems *)

(** at most one connection is open at any time: over all events every source that was
    created and not closed is the controller's current source, which belongs to the
    latest request and shows as streaming. *)
Theorem one_open_stream es g :
  let s := stream_steps initial_controller es in
  g ∈ opened s → g ∉ closed s →
  source s = Some g ∧ generation s = g ∧ streaming s = true.
Proof.
  cbv zeta. intros Ho Hc. destruct (stream_steps_ok initial_controller es initial_ok) as [H1 H2 _ _ _].
  destruct (H2 g Ho) as [|Hs]; [done | ]. destruct (H1 g Hs) as (Hg & _ & _ & _ & _ & Hst). done.
Qed.

Lemma one_open_stream_witness :
  let s := stream_steps initial_controller [Send; HeadersReady 1 true; Send; HeadersReady 2 true] in
  source s = Some 2 ∧ generation s = 2 ∧ streaming s = true.
Proof.
  apply one_open_stream.
  - vm_compute. right. left.
  - apply (bool_decide_unpack _). vm_compute. exact I.
Defined.

(** a request ends at most once and nothing follows its end: over all events, after the
    completion or the error of a request no further callback of it is made. *)
Theorem request_ends_once es i j g c c' :
  let l := log (stream_steps initial_controller es) in
  l !! i = Some (g, c) → terminal c = true → l !! j = Some (g, c') → j ≤ i.
Proof.
  cbv zeta. apply (so_log _ (stream_steps_ok initial_controller es initial_ok)).
Qed.

Definition short_stream : list stream_event :=
  [Send; HeadersReady 1 true; MessageEvent 1 (json_text "{`choices`:[{`delta`:{`content`:`a`}}]}");
   MessageEvent 1 (js "[DONE]"); MessageEvent 1 (js "[DONE]")].

Lemma request_ends_once_witness :
  log (stream_steps initial_controller short_stream)
  = [(1, OnUpdate CContent (JString (js "a"))); (1, OnComplete)] ∧ 0 ≤ 1.
Proof.
  split; [vm_compute; reflexivity | ].
  apply (request_ends_once short_stream 1 0 1 OnComplete (OnUpdate CContent (JString (js "a"))));
    vm_compute; reflexivity.
Defined.

(** stopping, leaving the page or sending a new request silences every earlier request:
    whatever arrives for it later, its callbacks stay the ones made before. *)
Theorem superseded_requests_are_silent es change later :
  change ∈ [Send; Stop; Dispose] →
  let s := stream_steps initial_controller es in
  let s' := stream_steps (stream_step s change) later in
  filter (fun x => x.1 ≤ generation s) (log s') = filter (fun x => x.1 ≤ generation s) (log s).
Proof.
  intros Hc. cbv zeta. set (s := stream_steps initial_controller es).
  assert (Hg : generation s < generation (stream_step s change) ∧ log (stream_step s change) = log s).
  { set_unfold in Hc. destruct Hc as [-> | [-> | [-> | []]]]; simpl; split; done || lia. }
  destruct Hg as [Hg Hl]. rewrite stream_steps_silent by done. by rewrite Hl.
Qed.

Lemma superseded_requests_are_silent_witness :
  let s := stream_steps initial_controller [Send; HeadersReady 1 true] in
  let s' := stream_steps (stream_step s Stop) [MessageEvent 1 (js "[DONE]")] in
  filter (fun x => x.1 ≤ generation s) (log s') = filter (fun x => x.1 ≤ generation s) (log s).
Proof. apply superseded_requests_are_silent. right. left. Defined.
