(* ===== verification/StreamRefinement.v ===== *)
(** * One conversation partner at a time

    What the streaming controller of [StreamController] promises to the chat, as an abstract
    machine: there is no request, a request that waits for its connection, or a request
    that is being answered; only the present request is heard, and a request that has
    ended is over.  The controller, with its generations, its sources, its late headers
    and its late events, refines that machine. *)

From Stdlib Require Import Lia.
From stdpp Require Import base numbers strings option sets gmap list relations.
From S2P Require Import Prelude JsNumber Json JsonText ChatMessages StreamController.

(** ** The abstract machine *)

Inductive phase := Idle | Waiting (g : nat) | Answering (g : nat).

(** [latest] bounds the requests made so far, [heard] is what the chat was told. *)
Record session := mkSession { at_phase : phase; latest : nat; heard : list (nat * callback) }.

Definition session0 : session := mkSession Idle 0 [].

Inductive session_step : session → session → Prop :=
| begin_request s g :
    latest s < g → session_step s (mkSession (Waiting g) g (heard s))
| connect s g :
    at_phase s = Waiting g → session_step s (mkSession (Answering g) (latest s) (heard s))
| deliver s g cs :
    at_phase s = Answering g → Forall (fun c => terminal c = false) cs →
    session_step s (mkSession (Answering g) (latest s) (heard s ++ map (pair g) cs))
| finish s g c :
    at_phase s = Waiting g ∨ at_phase s = Answering g → terminal c = true →
    session_step s (mkSession Idle (latest s) (heard s ++ [(g, c)]))
| abandon s n :
    latest s ≤ n → session_step s (mkSession Idle n (heard s)).

(** ** The session a controller is in *)

Definition phase_of (s : controller) : phase :=
  match source s with
  | Some g => Answering g
  | None => if bool_decide (generation s ∈ awaiting s) then Waiting (generation s) else Idle
  end.

Definition session_of (s : controller) : session := mkSession (phase_of s) (generation s) (log s).

Lemma phase_waiting s : stream_ok s → generation s ∈ awaiting s → phase_of s = Waiting (generation s).
Proof.
  intros Hok Ha. unfold phase_of. rewrite (awaiting_no_source s (generation s)) by done. by rewrite bool_decide_true.
Qed.

(** ** Simulation *)

(** The end of the request that listens. *)
Lemma finish_refines s g c :
  stream_ok s → listens s g = true → terminal c = true →
  session_step (session_of s) (session_of (notify (closeActiveSource (complete s g) g) g [c])).
Proof.
  intros Hok Hl Hc. destruct (listens_spec s g Hok Hl) as (Hs & Hg & Ha & _).
  assert (Hend : session_of (notify (closeActiveSource (complete s g) g) g [c])
                 = mkSession Idle (latest (session_of s)) (heard (session_of s) ++ [(g, c)])).
  { unfold session_of, phase_of, notify, closeActiveSource, complete.
    cbn [source generation awaiting log latest heard]. rewrite bool_decide_true by done.
    by rewrite bool_decide_false by congruence. }
  rewrite Hend. apply finish; [ | done]. right. unfold session_of, phase_of. cbn [at_phase]. by rewrite Hs.
Qed.

Lemma handleError_refines s g m code :
  stream_ok s → rtc session_step (session_of s) (session_of (handleError s g m code)).
Proof.
  intros Hok. unfold handleError. destruct (listens s g) eqn:El; [ | done].
  destruct (finish_ok s g (OnError m code) Hok El) as [_ ->]. by apply rtc_once, finish_refines.
Qed.

(** Late headers of another request are not noticed. *)
Lemma forget_refines s g : generation s ≠ g → session_of (remove_awaiting s g) = session_of s.
Proof.
  intros Hne. unfold session_of, phase_of, remove_awaiting. cbn [source generation awaiting log].
  destruct (source s); [done | ]. f_equal.
  rewrite (bool_decide_ext (generation s ∈ filter (fun g' => g' ≠ g) (awaiting s)) (generation s ∈ awaiting s)); [done | ].
  rewrite list_elem_of_filter. tauto.
Qed.

Lemma headersReady_refines s g streams :
  stream_ok s → g ∈ awaiting s → rtc session_step (session_of s) (session_of (headersReady s g streams)).
Proof.
  intros Hok Ha. unfold headersReady. cbv zeta. change (generation (remove_awaiting s g)) with (generation s).
  destruct (generation s =? g) eqn:Eg; bools; cbn [negb]; [ | by rewrite forget_refines].
  set (s1 := mkController (Some g) (generation s) true (awaiting (remove_awaiting s g)) (opened (remove_awaiting s g) ++ [g])
               (closed (remove_awaiting s g)) (completed (remove_awaiting s g)) (log (remove_awaiting s g))).
  assert (Hok1 : stream_ok s1). { apply (open_ok s g); try done. by eapply awaiting_no_source. }
  assert (Hc : session_step (session_of s) (session_of s1)).
  { apply (connect (session_of s)). unfold session_of. cbn [at_phase]. rewrite phase_waiting; by subst. }
  eapply rtc_l; [exact Hc | ]. destruct streams; [done | by apply handleError_refines].
Qed.

Lemma headersFailed_refines s g m :
  stream_ok s → g ∈ awaiting s → rtc session_step (session_of s) (session_of (headersFailed s g m)).
Proof.
  intros Hok Ha. unfold headersFailed. cbv zeta. change (generation (remove_awaiting s g)) with (generation s).
  destruct (generation s =? g) eqn:Eg; bools; cbn [negb]; [ | by rewrite forget_refines].
  assert (Hend : session_of (notify (remove_awaiting s g) g [OnError m None])
                 = mkSession Idle (latest (session_of s)) (heard (session_of s) ++ [(g, OnError m None)])).
  { unfold session_of, phase_of, notify, remove_awaiting. cbn [source generation awaiting log latest heard].
    rewrite (awaiting_no_source s g) by done. rewrite bool_decide_false; [done | ].
    rewrite list_elem_of_filter. intros [Hne _]. congruence. }
  rewrite Hend. apply rtc_once, finish; [ | done]. left. unfold session_of. cbn [at_phase]. rewrite phase_waiting; by subst.
Qed.

Lemma onMessage_refines s g d :
  stream_ok s → rtc session_step (session_of s) (session_of (onMessage s g d)).
Proof.
  intros Hok. unfold onMessage. destruct (listens s g) eqn:El; cbn [negb]; [ | done].
  destruct (isStreamDoneMessage d); [by apply rtc_once, finish_refines | ].
  destruct (parseStreamMessageUpdates d) as [us|]; [ | by apply handleError_refines].
  destruct (listens_spec s g Hok El) as (Hs & _). apply rtc_once.
  assert (Hd : session_of (notify s g (map (fun u => OnUpdate u.1 u.2) us))
    = mkSession (Answering g) (latest (session_of s)) (heard (session_of s) ++ map (pair g) (map (fun u => OnUpdate u.1 u.2) us))).
  { unfold session_of, phase_of. cbn [notify source log generation latest heard]. by rewrite Hs. }
  rewrite Hd. apply deliver; [unfold session_of, phase_of; cbn [at_phase]; by rewrite Hs | ].
  apply Forall_map, Forall_forall. done.
Qed.

(** Both ways to cancel leave no request. *)
Lemma cancel_refines s tell : stream_ok s → session_step (session_of s) (session_of (cancel s tell)).
Proof.
  intros Hok. assert (Hc : session_of (cancel s tell) = mkSession Idle (generation s + 1) (heard (session_of s))).
  { unfold session_of, phase_of, cancel. cbn [source generation awaiting log heard]. rewrite bool_decide_false; [done | ].
    intros Hin. destruct Hok as [_ _ Hold _ _]. assert (generation s + 1 ≤ generation s) by (apply Hold; tauto). lia. }
  rewrite Hc. apply abandon. cbn [session_of latest]. lia.
Qed.

Lemma stream_step_refines s e :
  stream_ok s → rtc session_step (session_of s) (session_of (stream_step s e)).
Proof.
  intros Hok. destruct e; cbn [stream_step].
  - apply rtc_once. unfold session_of at 2, phase_of, send. cbn [source generation awaiting log].
    rewrite bool_decide_true by set_solver. apply (begin_request (session_of s)). cbn [session_of latest]. lia.
  - destruct (bool_decide _) eqn:Ea; [ | done]. bools. by apply headersReady_refines.
  - destruct (bool_decide _) eqn:Ea; [ | done]. bools. by apply headersFailed_refines.
  - destruct (bool_decide _); [ | done]. by apply onMessage_refines.
  - destruct (bool_decide _); [ | done]. unfold onErrorEvent. destruct (listens s g); cbn [negb]; [ | done].
    destruct (getStreamReadyStateError _ _); by apply handleError_refines.
  - destruct (bool_decide _); [ | done]. unfold onReadyState. destruct (listens s g); cbn [negb]; [ | done].
    destruct (getStreamReadyStateError _ _); [by apply handleError_refines | done].
  - by apply rtc_once, cancel_refines.
  - by apply rtc_once, cancel_refines.
Qed.

Lemma stream_steps_refine s es :
  stream_ok s → rtc session_step (session_of s) (session_of (stream_steps s es)).
Proof.
  revert s. induction es as [|e es IH]; intros s Hok; [done | ]. unfold stream_steps. cbn [fold_left].
  etrans; [by apply stream_step_refines | ]. by apply IH, stream_step_ok.
Qed.

(** C13: the controller refines the machine with one request at a time: under all events the
    session it is in is reached by steps of the machine, each event by the steps it
    stands for or by none, and the connections that are open are the one of the request
    that is being answered. *)
Theorem controller_refines_session es es' :
  let s := stream_steps initial_controller es in
  let s' := stream_steps s es' in
  rtc session_step session0 (session_of s) ∧ rtc session_step (session_of s) (session_of s') ∧
  ∀ g, (g ∈ opened s ∧ g ∉ closed s) ↔ at_phase (session_of s) = Answering g.
Proof.
  cbv zeta. assert (Hok := stream_steps_ok initial_controller es initial_ok).
  split; [apply (stream_steps_refine initial_controller), initial_ok | ].
  split; [by apply stream_steps_refine | ]. intros g. set (s := stream_steps initial_controller es) in *.
  unfold session_of, phase_of. cbn [at_phase]. split.
  - intros [Ho Hc]. destruct (so_opened s Hok g Ho) as [|E]; [done | by rewrite E].
  - destruct (source s) as [g'|] eqn:E.
    + intros [= ->]. destruct (so_source s Hok g E) as (_ & Ho & Hc & _). done.
    + by destruct (bool_decide _).
Qed.
