(* ===== verification/ChatHandler.v ===== *)
(** * The chat handler of the playground

    [useChatHandler] of features/playground/hooks/use-chat-handler.ts: it collects the chunks
    of an answer, hands them to the conversation at most every 50 milliseconds, and keeps
    answers of earlier requests away from the conversation by a generation number.  The
    conversation is React state: an update is a function that is queued and runs at the
    next rendering ([Render]); it compares its generation with the current one when it
    runs.  A request is named by its generation. *)

From Stdlib Require Import Lia.
From stdpp Require Import base numbers strings option sets gmap list.
From S2P Require Import Prelude JsNumber Json ThinkTags ChatMessages StreamController ChatProperties.

Record PendingStreamChunks := mkPending {
  pending_generation : nat;
  pending_content : ustring;
  pending_reasoning : ustring;
}.

(** The functions passed to [onMessageUpdate], with what they capture. *)
Inductive update :=
| FlushUpdate (g : nat) (reasoning content : ustring)
| CompleteUpdate (g : nat)
| ErrorUpdate (g : nat) (message : ustring) (code : option ustring) (title : ustring)
| ResponseUpdate (g : nat) (choices : list ChatCompletionChoice)
| StopUpdate (g : nat).

Definition update_generation (u : update) : nat :=
  match u with
  | FlushUpdate g _ _ | CompleteUpdate g | ErrorUpdate g _ _ _ | ResponseUpdate g _ | StopUpdate g => g
  end.

(** What an update does to the last answer when its generation is current. *)
Definition flush_message (r c : ustring) (now : number) (m : Message) : Message :=
  let m := if truthy r then applyStreamingChunk m CReasoning r now else m in
  if truthy c then applyStreamingChunk m CContent c now else m.

Definition run_update (u : update) (now : number) (ms : list Message) : list Message :=
  match u with
  | FlushUpdate _ r c => updateLastAssistantMessage ms (flush_message r c now)
  | CompleteUpdate _ =>
      updateLastAssistantMessage ms
        (fun m => if isAssistantMessageFinal m then m else completeAssistantMessage m now)
  | ErrorUpdate _ message code title => updateAssistantMessageWithError ms message code title now
  | ResponseUpdate _ choices =>
      updateLastAssistantMessage ms (fun m => default m (applyChatCompletionResponse m choices now))
  | StopUpdate _ =>
      updateLastAssistantMessage ms
        (fun m => if isAssistantMessagePending m then completeAssistantMessage m now else m)
  end.

Definition apply_update (current : nat) (now : number) (ms : list Message) (u : update) : list Message :=
  if update_generation u =? current then run_update u now ms else ms.

(** The refs and the state of the hook; [flushTimer] holds the generation its timer was
    started for, and [aborted_requests] the requests whose controller was aborted. *)
Record handler := mkHandler {
  requestGeneration : nat;
  pendingChunks : PendingStreamChunks;
  flushTimer : option nat;
  abortController : option nat;
  aborted_requests : list nat;
  isRequesting : bool;
  messages : list Message;
  queue : list update;
  toasts : list ustring;
}.

Definition set_pending (p : PendingStreamChunks) (timer : option nat) (h : handler) : handler :=
  mkHandler (requestGeneration h) p timer (abortController h) (aborted_requests h) (isRequesting h)
    (messages h) (queue h) (toasts h).

Definition enqueue (u : update) (h : handler) : handler :=
  mkHandler (requestGeneration h) (pendingChunks h) (flushTimer h) (abortController h)
    (aborted_requests h) (isRequesting h) (messages h) (queue h ++ [u]) (toasts h).

Definition set_requesting (b : bool) (h : handler) : handler :=
  mkHandler (requestGeneration h) (pendingChunks h) (flushTimer h) (abortController h)
    (aborted_requests h) b (messages h) (queue h) (toasts h).

Definition set_generation (g : nat) (h : handler) : handler :=
  mkHandler g (pendingChunks h) (flushTimer h) (abortController h) (aborted_requests h)
    (isRequesting h) (messages h) (queue h) (toasts h).

(** [abortControllerRef.current?.abort()] and the new value of the ref. *)
Definition abort_request (next : option nat) (h : handler) : handler :=
  mkHandler (requestGeneration h) (pendingChunks h) (flushTimer h) next
    (aborted_requests h ++ option_list (abortController h)) (isRequesting h) (messages h) (queue h)
    (toasts h).

Definition toast_error (text : ustring) (h : handler) : handler :=
  mkHandler (requestGeneration h) (pendingChunks h) (flushTimer h) (abortController h)
    (aborted_requests h) (isRequesting h) (messages h) (queue h) (toasts h ++ [text]).

Definition discardPendingStreamUpdates (g : nat) (h : handler) : handler :=
  set_pending (mkPending g [] []) None h.

Definition flushStreamUpdates (g : nat) (h : handler) : handler :=
  if negb (g =? requestGeneration h) then h
  else
    let p := pendingChunks h in
    let h := set_pending p None h in
    if negb (pending_generation p =? g) then h
    else if negb (truthy (pending_reasoning p)) && negb (truthy (pending_content p)) then h
    else enqueue (FlushUpdate g (pending_reasoning p) (pending_content p))
           (set_pending (mkPending g [] []) None h).

Definition scheduleStreamFlush (g : nat) (h : handler) : handler :=
  if negb (g =? requestGeneration h) then h
  else match flushTimer h with
       | Some _ => h
       | None => set_pending (pendingChunks h) (Some g) h
       end.

Definition handleStreamUpdate (g : nat) (type : StreamChunkType) (chunk : ustring) (h : handler)
    : handler :=
  if negb (g =? requestGeneration h) then h
  else if negb (pending_generation (pendingChunks h) =? g) then h
  else
    let p := pendingChunks h in
    let p' := match type with
              | CContent => mkPending g (appendStreamDelta (pending_content p) chunk) (pending_reasoning p)
              | CReasoning => mkPending g (pending_content p) (appendStreamDelta (pending_reasoning p) chunk)
              end in
    scheduleStreamFlush g (set_pending p' (flushTimer h) h).

Definition handleStreamComplete (g : nat) (h : handler) : handler :=
  if negb (g =? requestGeneration h) then h
  else enqueue (CompleteUpdate g) (set_requesting false (flushStreamUpdates g h)).

Section handler.
(** The translation of a text. *)
Context (t : ustring → ustring).

Definition NETWORK_ERROR : ustring := js "Network connection failed or server not responding".

Definition KNOWN_ERROR_MESSAGES : list ustring :=
  [API_REQUEST_ERROR; NETWORK_ERROR; PARSE_ERROR; STREAM_START_ERROR; CONNECTION_CLOSED; INTERRUPTED].

Definition ends_with (suffix s : ustring) : bool :=
  bool_decide (length suffix ≤ length s) && ustring_eqb (drop (length s - length suffix) s) suffix.

Definition getDisplayError (error : ustring) : ustring :=
  if bool_decide (error ∈ KNOWN_ERROR_MESSAGES) then t error
  else if ends_with (js ": " ++ CONNECTION_CLOSED) error then
    take (length error - length CONNECTION_CLOSED) error ++ t CONNECTION_CLOSED
  else error.

Definition handleStreamError (g : nat) (error : ustring) (code : option ustring) (h : handler) : handler :=
  if negb (g =? requestGeneration h) then h
  else
    let displayError := getDisplayError error in
    enqueue (ErrorUpdate g displayError code (t API_REQUEST_ERROR))
      (toast_error displayError (set_requesting false (flushStreamUpdates g h))).

Definition sendStreamingChat (h : handler) : handler :=
  let g := requestGeneration h + 1 in
  set_requesting true (discardPendingStreamUpdates g (abort_request None (set_generation g h))).

(** [sendNonStreamingChat] up to its await. *)
Definition sendNonStreamingChat (h : handler) : handler :=
  let g := requestGeneration h + 1 in
  set_requesting true (abort_request (Some g) (discardPendingStreamUpdates g (set_generation g h))).

Definition sendChat (streams : bool) (h : handler) : handler :=
  if streams then sendStreamingChat h else sendNonStreamingChat h.

Definition request_over (g : nat) (h : handler) : handler :=
  if requestGeneration h =? g then
    set_requesting false
      (mkHandler (requestGeneration h) (pendingChunks h) (flushTimer h) None (aborted_requests h)
         (isRequesting h) (messages h) (queue h) (toasts h))
  else h.

Definition outdated (g : nat) (h : handler) : bool :=
  bool_decide (g ∈ aborted_requests h) || negb (requestGeneration h =? g).

(** The same from the response on, and from the error on. *)
Definition onResponse (g : nat) (choices : list ChatCompletionChoice) (h : handler) : handler :=
  request_over g
    (if outdated g h then h
     else if negb (hasChatCompletionChoice choices) then handleStreamError g API_REQUEST_ERROR None h
     else enqueue (ResponseUpdate g choices) h).

Definition onRequestError (g : nat) (error : ustring) (code : option ustring) (h : handler) : handler :=
  request_over g (if outdated g h then h else handleStreamError g error code h).

Definition stopGeneration (h : handler) : handler :=
  let stoppedGeneration := requestGeneration h in
  let h := flushStreamUpdates stoppedGeneration h in
  let idleGeneration := stoppedGeneration + 1 in
  let h := discardPendingStreamUpdates idleGeneration (set_generation idleGeneration h) in
  enqueue (StopUpdate idleGeneration) (set_requesting false (abort_request None h)).

Definition unmount (h : handler) : handler :=
  abort_request None
    (set_pending (pendingChunks h) None (set_generation (requestGeneration h + 1) h)).

Definition render (now : number) (h : handler) : handler :=
  mkHandler (requestGeneration h) (pendingChunks h) (flushTimer h) (abortController h)
    (aborted_requests h) (isRequesting h)
    (fold_left (apply_update (requestGeneration h) now) (queue h) (messages h)) [] (toasts h).

Inductive chat_event :=
| StreamUpdate (g : nat) (type : StreamChunkType) (chunk : ustring)
| StreamComplete (g : nat)
| StreamError (g : nat) (error : ustring) (code : option ustring)
| FlushTimer
| Response (g : nat) (choices : list ChatCompletionChoice)
| RequestError (g : nat) (error : ustring) (code : option ustring)
| SendChat (streams : bool)
| StopGeneration
| Unmount
| Render (now : number).

Definition chat_step (h : handler) (e : chat_event) : handler :=
  match e with
  | StreamUpdate g type chunk => handleStreamUpdate g type chunk h
  | StreamComplete g => handleStreamComplete g h
  | StreamError g error code => handleStreamError g error code h
  | FlushTimer => match flushTimer h with Some g => flushStreamUpdates g h | None => h end
  | Response g choices => onResponse g choices h
  | RequestError g error code => onRequestError g error code h
  | SendChat streams => sendChat streams h
  | StopGeneration => stopGeneration h
  | Unmount => unmount h
  | Render now => render now h
  end.

Definition chat_steps (h : handler) (es : list chat_event) : handler := fold_left chat_step es h.
End handler.

(** ** An answer being received *)

Definition pending_answer (k : ustring) (m : Message) : Prop :=
  key m = k ∧ isAssistant m = true ∧ isAssistantMessagePending m = true.

Lemma pending_not_error m : isAssistantMessagePending m = true → status m ≠ Some SError.
Proof. unfold isAssistantMessagePending. intros H E. by rewrite E in H. Qed.

Lemma streamed_pending m type c now k :
  pending_answer k m → pending_answer k (applyStreamingChunk m type c now) ∧
  getMessageContent (applyStreamingChunk m type c now)
  = getMessageContent m ++ (match type with CContent => c | CReasoning => [] end).
Proof.
  intros (Hk & Ha & Hp). pose proof (pending_not_error m Hp) as Hs.
  unfold pending_answer, isAssistant, isAssistantMessagePending in *. destruct type.
  - destruct (applyStreamingChunk_reasoning m c now Hs) as ((-> & -> & Hv) & ->).
    rewrite app_nil_r. unfold getMessageContent, getCurrentVersion. by rewrite Hv.
  - destruct (applyStreamingChunk_content m c now Hs) as (-> & -> & -> & Hv). split; [done | ].
    unfold getMessageContent at 1, getCurrentVersion. by rewrite Hv.
Qed.

(** The reasoning a message shows. *)
Definition reasoning_text (m : Message) : ustring := default [] (reasoning_content <$> reasoning m).

Lemma includes_app_false p a b : includes p (a ++ b) = false → includes p a = false.
Proof.
  unfold includes. induction a as [|c a IH]; [destruct p; [by destruct b | done] | ].
  cbn [app index_of]. destruct (starts_with p (c :: a)) eqn:E.
  - apply starts_with_spec in E. change (c :: a ++ b) with ((c :: a) ++ b). by rewrite E, <-app_assoc, starts_with_app.
  - destruct (starts_with p (c :: a ++ b)); [done | ]. destruct (index_of p (a ++ b)); [done | ].
    intros _. by destruct (index_of p a); [specialize (IH eq_refl) | ].
Qed.

Lemma completeReasoningTiming_reasoning m now : reasoning_text (completeReasoningTiming m now) = reasoning_text m.
Proof.
  unfold reasoning_text, completeReasoningTiming. destruct (reasoning m) as [r|] eqn:E; [ | by rewrite E].
  destruct (reasoning_durationMs r); [by rewrite E | done].
Qed.

(** A chunk of reasoning is added to the reasoning; a chunk of content leaves it alone as long as
    the content has no reasoning tag. *)
Lemma streamed_reasoning m type c now :
  status m ≠ Some SError → (type = CContent → includes OPEN_TAG (getMessageContent m ++ c) = false) →
  reasoning_text (applyStreamingChunk m type c now)
  = reasoning_text m ++ (match type with CContent => [] | CReasoning => c end).
Proof.
  intros Hs Ht. unfold applyStreamingChunk. rewrite bool_decide_false by done. destruct type.
  - unfold reasoning_text. simpl. unfold startReasoningTiming. by destruct (reasoning m).
  - rewrite app_nil_r. specialize (Ht eq_refl).
    assert (Hp : reasoning_text (processStreamingContent m c now) = reasoning_text m).
    { unfold processStreamingContent. cbv zeta. destruct (_ && _); [done | ].
      unfold parseThinkTags, appendStreamDelta. unfold getMessageContent in Ht. by rewrite Ht. }
    destruct (isReasoningStreaming _) as [[]|]; rewrite <-Hp; try done; apply completeReasoningTiming_reasoning.
Qed.

Lemma completed_reasoning m now :
  includes OPEN_TAG (getMessageContent m) = false → reasoning_text (completeAssistantMessage m now) = reasoning_text m.
Proof.
  intros Ht. unfold completeAssistantMessage, reasoning_text at 1.
  destruct (completeAssistantTiming_body (with_status SComplete (finalizeMessage m None now)) now) as (_ & _ & _ & ->).
  change (reasoning_text (finalizeMessage m None now) = reasoning_text m). unfold finalizeMessage. cbv zeta.
  rewrite completeReasoningTiming_reasoning. unfold getMessageContent in Ht. rewrite Ht. unfold reasoning_text, or_text. cbn.
  destruct (reasoning m) as [r|]; cbn; [ | done]. by destruct (reasoning_content r).
Qed.

Lemma flush_message_pending r c now k m :
  pending_answer k m → pending_answer k (flush_message r c now m) ∧
  getMessageContent (flush_message r c now m) = getMessageContent m ++ c ∧
  (includes OPEN_TAG (getMessageContent m ++ c) = false → reasoning_text (flush_message r c now m) = reasoning_text m ++ r).
Proof.
  intros Hm. unfold flush_message. cbv zeta.
  assert (Hr : ∃ m', (if truthy r then applyStreamingChunk m CReasoning r now else m) = m' ∧
                     pending_answer k m' ∧ getMessageContent m' = getMessageContent m ∧
                     reasoning_text m' = reasoning_text m ++ r).
  { destruct (truthy r) eqn:Er; eexists; (split; [reflexivity | ]).
    - destruct (streamed_pending m CReasoning r now k Hm) as [Hp ->]. rewrite app_nil_r. split; [done | ]. split; [done | ].
      apply (streamed_reasoning m CReasoning r now); [by apply pending_not_error, Hm | done].
    - destruct r; [ | done]. by rewrite app_nil_r. }
  destruct Hr as (m' & -> & Hm' & <- & <-). destruct (truthy c) eqn:Ec.
  - destruct (streamed_pending m' CContent c now k Hm') as [Hp Hc]. split; [done | ]. split; [done | ]. intros Ht.
    rewrite (streamed_reasoning m' CContent c now); [apply app_nil_r | by apply pending_not_error, Hm' | done].
  - destruct c; [ | done]. by rewrite app_nil_r.
Qed.

Lemma updateLast_snoc pre m f :
  updateLastAssistantMessage (pre ++ [m]) f = pre ++ [if isAssistant m then f m else m].
Proof.
  unfold updateLastAssistantMessage. rewrite last_snoc. destruct (isAssistant m); [ | done].
  rewrite length_app. simpl. replace (length pre + 1 - 1) with (length pre + 0) by lia.
  by rewrite insert_app_r.
Qed.

Definition flush_of (g : nat) (rc : ustring * ustring) : update := FlushUpdate g rc.1 rc.2.

(** The handler is receiving the answer with key [k] after [pre] in generation [g], and
    [text] is the content received so far: shown, queued or still collected; so is [why] the
    reasoning, as long as the content has no reasoning tag. *)
Definition receiving (g : nat) (pre : list Message) (k text why : ustring) (h : handler) : Prop :=
  ∃ m flushes,
    messages h = pre ++ [m] ∧ pending_answer k m ∧ requestGeneration h = g ∧
    pending_generation (pendingChunks h) = g ∧ queue h = map (flush_of g) flushes ∧
    text = getMessageContent m ++ mjoin (map snd flushes) ++ pending_content (pendingChunks h) ∧
    (includes OPEN_TAG text = false →
     why = reasoning_text m ++ mjoin (map fst flushes) ++ pending_reasoning (pendingChunks h)).

(** Events while an answer is received: its chunks, the timer and renderings. *)
Definition receive_event (g : nat) (e : chat_event) : Prop :=
  match e with StreamUpdate g' _ _ => g' = g | FlushTimer | Render _ => True | _ => False end.

Definition event_text (e : chat_event) : ustring :=
  match e with StreamUpdate _ CContent c => c | _ => [] end.

Definition event_reasoning (e : chat_event) : ustring :=
  match e with StreamUpdate _ CReasoning c => c | _ => [] end.

Lemma apply_update_current g now ms u :
  update_generation u = g → apply_update g now ms u = run_update u now ms.
Proof. intros E. unfold apply_update. by rewrite E, Nat.eqb_refl. Qed.

Lemma apply_update_stale g now ms u :
  update_generation u ≠ g → apply_update g now ms u = ms.
Proof. intros E. unfold apply_update. by rewrite (proj2 (Nat.eqb_neq _ _)). Qed.

Lemma render_flushes g now pre k m flushes :
  pending_answer k m →
  ∃ m', fold_left (apply_update g now) (map (flush_of g) flushes) (pre ++ [m]) = pre ++ [m'] ∧
        pending_answer k m' ∧ getMessageContent m' = getMessageContent m ++ mjoin (map snd flushes) ∧
        (includes OPEN_TAG (getMessageContent m ++ mjoin (map snd flushes)) = false →
         reasoning_text m' = reasoning_text m ++ mjoin (map fst flushes)).
Proof.
  revert m. induction flushes as [|[r c] flushes IH]; intros m Hm.
  { exists m. simpl. by rewrite !app_nil_r. }
  cbn [map fold_left]. rewrite (apply_update_current g now _ (flush_of g (r, c))) by done.
  cbn [run_update flush_of fst snd]. rewrite updateLast_snoc.
  pose proof Hm as (_ & -> & _). destruct (flush_message_pending r c now k m Hm) as (Hp & Hc & Hw).
  destruct (IH _ Hp) as (m' & -> & Hp' & Hc' & Hw'). exists m'. split; [done | ]. split; [done | ].
  rewrite Hc in *. assert (Hj : ∀ (x : ustring) l, mjoin (x :: l) = x ++ mjoin l) by done.
  rewrite !Hj, !app_assoc. split; [done | ].
  intros Ht. rewrite Hw' by done. by rewrite Hw by (by eapply includes_app_false).
Qed.

Lemma flush_receiving g pre k text why h :
  receiving g pre k text why h → receiving g pre k text why (flushStreamUpdates g h) ∧
  pending_content (pendingChunks (flushStreamUpdates g h)) = [] ∧ pending_reasoning (pendingChunks (flushStreamUpdates g h)) = [].
Proof.
  intros (m & fl & Hms & Hm & Hg & Hp & Hq & -> & Hw). unfold flushStreamUpdates.
  rewrite Hg, Nat.eqb_refl. cbn [negb]. cbv zeta. rewrite Hp, Nat.eqb_refl. cbn [negb].
  destruct (negb (truthy (pending_reasoning (pendingChunks h))) &&
            negb (truthy (pending_content (pendingChunks h)))) eqn:E.
  - bools. assert (Hc : pending_content (pendingChunks h) = [] ∧ pending_reasoning (pendingChunks h) = [])
      by (by destruct (pending_content (pendingChunks h)), (pending_reasoning (pendingChunks h))).
    split; [ | by simpl]. exists m, fl. simpl. done.
  - split; [ | done]. exists m, (fl ++ [(pending_reasoning (pendingChunks h), pending_content (pendingChunks h))]).
    simpl. rewrite Hq, !map_app. split; [done | ]. split; [done | ]. split; [done | ]. split; [done | ].
    split; [done | ]. rewrite !join_app. simpl. rewrite !app_nil_r. split; [done | ]. intros Ht. by apply Hw.
Qed.

Section receiving.
Context (t : ustring → ustring).

Lemma receive_chunk g pre k text why h type c :
  receiving g pre k text why h →
  receiving g pre k (text ++ event_text (StreamUpdate g type c)) (why ++ event_reasoning (StreamUpdate g type c))
    (handleStreamUpdate g type c h).
Proof.
  intros (m & fl & Hms & Hm & Hg & Hp & Hq & -> & Hw).
  unfold handleStreamUpdate. rewrite Hg, Nat.eqb_refl. cbn [negb]. rewrite Hp, Nat.eqb_refl. cbn [negb].
  cbv zeta. unfold scheduleStreamFlush. cbn [set_pending requestGeneration flushTimer].
  rewrite Hg, Nat.eqb_refl. cbn [negb].
  destruct (flushTimer h); exists m, fl; destruct type; simpl; unfold appendStreamDelta;
    rewrite ?app_nil_r, <-?app_assoc; (do 6 (split; [done | ])); intros Ht; rewrite Hw, <-?app_assoc; try done;
    eapply includes_app_false; rewrite <-!app_assoc; exact Ht.
Qed.

Lemma receive_step g pre k text why h e :
  receiving g pre k text why h → receive_event g e →
  receiving g pre k (text ++ event_text e) (why ++ event_reasoning e) (chat_step t h e).
Proof.
  intros Hr He. destruct e as [g' type c | | | | | | | | | now]; try done; cbn [chat_step].
  - simpl in He. subst g'. by apply receive_chunk.
  - cbn [event_text event_reasoning]. rewrite !app_nil_r. destruct (flushTimer h) as [g'|]; [ | done].
    destruct (decide (g' = g)) as [-> | Hne]; [by apply flush_receiving | ].
    unfold flushStreamUpdates. destruct Hr as (m & fl & Hms & Hm & Hg & Hrest).
    rewrite Hg, (proj2 (Nat.eqb_neq g' g)) by done. exists m, fl. done.
  - cbn [event_text event_reasoning]. rewrite !app_nil_r. destruct Hr as (m & fl & Hms & Hm & Hg & Hp & Hq & -> & Hw).
    destruct (render_flushes g now pre k m fl Hm) as (m' & Hf & Hm' & Hc & Hw').
    exists m', []. unfold render. simpl. rewrite Hg, Hq, Hms, Hf. split; [done | ]. split; [done | ]. split; [done | ].
    split; [done | ]. split; [done | ]. split; [by rewrite Hc, <- app_assoc | ].
    intros Ht. rewrite Hw, Hw', <-app_assoc; [done | | done]. eapply includes_app_false. rewrite <-app_assoc. exact Ht.
Qed.

Lemma receive_steps g pre k text why h es :
  receiving g pre k text why h → Forall (receive_event g) es →
  receiving g pre k (text ++ mjoin (map event_text es)) (why ++ mjoin (map event_reasoning es)) (chat_steps t h es).
Proof.
  intros Hr Hes. revert text why h Hr. induction Hes as [|e es He _ IH]; intros text why h Hr.
  { by rewrite !app_nil_r. }
  change (mjoin (map event_text (e :: es))) with (event_text e ++ mjoin (map event_text es)).
  change (mjoin (map event_reasoning (e :: es))) with (event_reasoning e ++ mjoin (map event_reasoning es)).
  rewrite !app_assoc. unfold chat_steps in *. cbn [fold_left]. apply IH.
  by apply receive_step.
Qed.

(** The end of the stream and the rendering after it. *)
Lemma complete_render g pre k text why h now :
  receiving g pre k text why h →
  ∃ m, messages (chat_steps t h [StreamComplete g; Render now]) = pre ++ [m] ∧ key m = k ∧
       getMessageContent m = visibleContent (parseThinkTags text) ∧ status m = Some SComplete ∧
       (includes OPEN_TAG text = false → reasoning_text m = why).
Proof.
  intros Hr. pose proof Hr as (_ & _ & _ & _ & Hg & _).
  destruct (flush_receiving g pre k text why h Hr) as (Hr' & Hnone & Hnone').
  unfold chat_steps. cbn [fold_left chat_step]. unfold handleStreamComplete.
  rewrite Hg, Nat.eqb_refl. cbn [negb].
  destruct Hr' as (m & fl & Hms & Hm & Hg' & _ & Hq & Htext & Hwhy). rewrite Hnone, app_nil_r in Htext.
  rewrite Hnone', app_nil_r in Hwhy. unfold render. cbn [messages enqueue set_requesting requestGeneration queue].
  rewrite Hg', Hms, Hq, fold_left_app.
  destruct (render_flushes g now pre k m fl Hm) as (m' & -> & (Hk & Ha & Hp) & Hc & Hw).
  cbn [fold_left]. rewrite apply_update_current by done. cbn [run_update]. rewrite updateLast_snoc, Ha.
  assert (Hfin : isAssistantMessageFinal m' = false).
  { unfold isAssistantMessageFinal, isAssistantMessagePending in *. by destruct (status m') as [[]|]. }
  rewrite Hfin. destruct (completeAssistantMessage_body m' now) as (Hk' & _ & Hst & _ & Hv).
  eexists. split; [reflexivity | ]. rewrite Hk'. split; [done | ]. rewrite <-Htext in Hc, Hw. split; [ | split; [done | ]].
  - unfold getMessageContent at 1, getCurrentVersion. rewrite Hv. simpl. by rewrite Hc.
  - intros Ht. rewrite completed_reasoning by (by rewrite Hc). rewrite Hw, Hwhy by done. done.
Qed.
End receiving.

(** ** Generations of queued updates *)

Definition initial_handler (ms : list Message) : handler :=
  mkHandler 0 (mkPending 0 [] []) None None [] false ms [] [].

(** No update in the queue is from the future. *)
Definition queue_ok (h : handler) : Prop :=
  Forall (fun u => update_generation u ≤ requestGeneration h) (queue h).

Lemma queue_ok_enqueue h u :
  queue_ok h → update_generation u ≤ requestGeneration h → queue_ok (enqueue u h).
Proof. intros Hq Hu. unfold queue_ok. simpl. apply Forall_app. by repeat constructor. Qed.

Lemma queue_ok_later h h' :
  queue_ok h → queue h' = queue h → requestGeneration h ≤ requestGeneration h' → queue_ok h'.
Proof.
  unfold queue_ok. intros Hq -> Hg. eapply Forall_impl; [exact Hq | ]. simpl. intros. lia.
Qed.

Lemma flush_queue_ok g h :
  queue_ok h → queue_ok (flushStreamUpdates g h) ∧
  requestGeneration (flushStreamUpdates g h) = requestGeneration h.
Proof.
  intros Hq. unfold flushStreamUpdates. destruct (g =? requestGeneration h) eqn:E; [ | done].
  cbn [negb]. cbv zeta. bools. destruct (negb (_ =? g)); [done | ].
  destruct (_ && _); [done | ]. split; [ | done]. apply queue_ok_enqueue; [done | simpl; lia].
Qed.

Lemma flush_enqueue_ok g h h' u :
  queue_ok h → queue h' = queue (flushStreamUpdates g h) →
  requestGeneration h' = requestGeneration h → update_generation u ≤ requestGeneration h →
  queue_ok (enqueue u h').
Proof.
  intros Hq E1 E2 Hu. destruct (flush_queue_ok g h Hq) as [Hf Eg].
  apply queue_ok_enqueue; [ | by rewrite E2]. by apply (queue_ok_later _ h' Hf); [ | lia].
Qed.

Lemma handleStreamError_queue_ok t g e c h : queue_ok h → queue_ok (handleStreamError t g e c h).
Proof.
  intros Hq. unfold handleStreamError. destruct (g =? requestGeneration h) eqn:E; [ | done].
  cbn [negb]. cbv zeta. bools. eapply (flush_enqueue_ok g h); try done; [ | simpl; lia].
  simpl. by destruct (flush_queue_ok g h Hq).
Qed.

Lemma request_over_queue_ok g h : queue_ok h → queue_ok (request_over g h).
Proof. intros Hq. unfold request_over. by destruct (requestGeneration h =? g). Qed.

Lemma chat_step_queue_ok t h e : queue_ok h → queue_ok (chat_step t h e).
Proof.
  intros Hq. destruct e; cbn [chat_step].
  - unfold handleStreamUpdate, scheduleStreamFlush.
    cbv zeta. repeat case_match; done.
  - unfold handleStreamComplete. destruct (g =? requestGeneration h) eqn:E; [ | done].
    cbn [negb]. bools. eapply (flush_enqueue_ok g h); try done; [ | simpl; lia].
    simpl. by destruct (flush_queue_ok g h Hq).
  - by apply handleStreamError_queue_ok.
  - destruct (flushTimer h); [by apply flush_queue_ok | done].
  - unfold onResponse. apply request_over_queue_ok. destruct (outdated g h) eqn:E; [done | ].
    destruct (negb _); [by apply handleStreamError_queue_ok | ].
    apply queue_ok_enqueue; [done | ]. unfold outdated in E. bools. simpl. lia.
  - unfold onRequestError. apply request_over_queue_ok.
    destruct (outdated g h); [done | by apply handleStreamError_queue_ok].
  - destruct streams; (apply (queue_ok_later h); [done | done | simpl; lia]).
  - unfold stopGeneration. cbv zeta. destruct (flush_queue_ok (requestGeneration h) h Hq) as [Hf Eg].
    apply queue_ok_enqueue; [ | simpl; lia].
    apply (queue_ok_later (flushStreamUpdates (requestGeneration h) h)); [done | done | simpl; lia].
  - apply (queue_ok_later h); [done | done | simpl; lia].
  - constructor.
Qed.

Lemma chat_steps_queue_ok t h es : queue_ok h → queue_ok (chat_steps t h es).
Proof.
  revert h. induction es as [|e es IH]; intros h Hq; [done | ]. apply IH. by apply chat_step_queue_ok.
Qed.

(** Events of requests up to generation [n], and renderings. *)
Definition stale_event (n : nat) (e : chat_event) : Prop :=
  match e with
  | StreamUpdate g _ _ | StreamComplete g | StreamError g _ _ | Response g _ | RequestError g _ _ => g ≤ n
  | FlushTimer | Render _ => True
  | _ => False
  end.

(** Nothing of the current generation is pending. *)
Definition quiet (n : nat) (ms : list Message) (h : handler) : Prop :=
  n < requestGeneration h ∧ messages h = ms ∧ flushTimer h = None ∧
  Forall (fun u => update_generation u ≤ n) (queue h).

Lemma stale_updates g now ms us :
  Forall (fun u => update_generation u < g) us → fold_left (apply_update g now) us ms = ms.
Proof.
  induction 1 as [|u us Hu _ IH]; [done | ]. cbn [fold_left].
  rewrite apply_update_stale by lia. exact IH.
Qed.

Lemma stale_step t n ms h e :
  stale_event n e → quiet n ms h → quiet n ms (chat_step t h e).
Proof.
  intros He (Hg & Hm & Hf & Hq).
  assert (Hne : ∀ g, g ≤ n → (g =? requestGeneration h) = false).
  { intros g Hle. apply Nat.eqb_neq. lia. }
  assert (Hne' : ∀ g, g ≤ n → (requestGeneration h =? g) = false).
  { intros g Hle. apply Nat.eqb_neq. lia. }
  destruct e; try done; cbn [chat_step]; simpl in He.
  - unfold handleStreamUpdate. by rewrite (Hne g He).
  - unfold handleStreamComplete. by rewrite (Hne g He).
  - unfold handleStreamError. by rewrite (Hne g He).
  - by rewrite Hf.
  - unfold onResponse, outdated, request_over. rewrite (Hne' g He), orb_true_r. by rewrite (Hne' g He).
  - unfold onRequestError, outdated, request_over. rewrite (Hne' g He), orb_true_r.
    by rewrite (Hne' g He).
  - unfold quiet, render. simpl. split; [done | ]. split; [ | split; [done | constructor]].
    rewrite stale_updates; [done | ]. eapply Forall_impl; [exact Hq | ]. simpl. intros. lia.
Qed.

(** ** Theorems *)

(** C14: no chunk of a streamed answer is lost, repeated or reordered: from the sending of a
    request on, whatever chunks arrive and whenever the timer fires and React renders in
    between, after the end of the stream the answer is complete and shows the visible part of
    all content chunks in order, and the messages before it are untouched.  Where the content
    has no reasoning tag, its reasoning is that of all reasoning chunks in order. *)
Theorem all_chunks_reach_the_answer t h pre m k es now :
  messages h = pre ++ [m] → queue h = [] → pending_answer k m →
  Forall (receive_event (requestGeneration h + 1)) es →
  let g := requestGeneration h + 1 in
  let text := getMessageContent m ++ mjoin (map event_text es) in
  ∃ m', messages (chat_steps t (sendStreamingChat h) (es ++ [StreamComplete g; Render now])) = pre ++ [m'] ∧
        key m' = k ∧ status m' = Some SComplete ∧
        getMessageContent m' = visibleContent (parseThinkTags text) ∧
        (includes OPEN_TAG text = false →
         reasoning_text m' = reasoning_text m ++ mjoin (map event_reasoning es)).
Proof.
  intros Hms Hq Hm Hes. cbv zeta. set (g := requestGeneration h + 1) in *.
  assert (Hr : receiving g pre k (getMessageContent m) (reasoning_text m) (sendStreamingChat h)).
  { exists m, []. simpl. rewrite Hms, Hq, !app_nil_r. done. }
  apply (receive_steps t g pre k _ _ _ es) in Hr; [ | done].
  destruct (complete_render t g pre k _ _ _ now Hr) as (m' & Hm' & Hk & Hc & Hst & Hw).
  exists m'. unfold chat_steps in *. rewrite fold_left_app. done.
Qed.

Definition sample_handler : handler := initial_handler [sample_loading].

Definition sample_chunks : list chat_event :=
  [StreamUpdate 1 CReasoning (js "be "); StreamUpdate 1 CContent (js "Hel"); Render one; FlushTimer;
   StreamUpdate 1 CReasoning (js "polite"); StreamUpdate 1 CContent (js "lo")].

Lemma all_chunks_reach_the_answer_witness :
  ∃ m', messages (chat_steps (fun s => s) (sendStreamingChat sample_handler)
          (sample_chunks ++ [StreamComplete 1; Render one])) = [] ++ [m'] ∧
        key m' = js "k" ∧ status m' = Some SComplete ∧
        getMessageContent m' = visibleContent (parseThinkTags (js "Hello")) ∧
        reasoning_text m' = js "be polite".
Proof.
  destruct (all_chunks_reach_the_answer (fun s => s) sample_handler [] sample_loading (js "k") sample_chunks one)
    as (m' & H1 & H2 & H3 & H4 & H5); try reflexivity.
  - repeat split.
  - repeat constructor.
  - exists m'. split; [exact H1 | ]. split; [exact H2 | ]. split; [exact H3 | ]. split; [exact H4 | ].
    apply H5. vm_compute. reflexivity.
Defined.

(** answers to earlier requests never change the conversation of the current one: after
    a new request, whatever arrives for earlier requests (chunks, ends, errors, responses,
    timers, updates still queued for rendering), the messages stay as they were. *)
Theorem earlier_answers_are_ignored t ms0 es e later :
  e ∈ [SendChat true; SendChat false; Unmount] →
  let h := chat_steps t (initial_handler ms0) es in
  Forall (stale_event (requestGeneration h)) later →
  messages (chat_steps t (chat_step t h e) later) = messages h.
Proof.
  intros He. cbv zeta. set (h := chat_steps t (initial_handler ms0) es). intros Hlater.
  assert (Hq : queue_ok h) by (apply chat_steps_queue_ok; constructor).
  assert (Hquiet : quiet (requestGeneration h) (messages h) (chat_step t h e)).
  { set_unfold in He. destruct He as [-> | [-> | [-> | []]]]; cbn [chat_step];
      (split; [simpl; lia | split; [done | split; [done | exact Hq]]]). }
  clearbody h. revert Hquiet. generalize (chat_step t h e). clear He Hq.
  induction Hlater as [|e' later He' _ IH]; intros h' Hquiet; [apply Hquiet | ].
  apply IH. by apply stale_step.
Qed.

Lemma earlier_answers_are_ignored_witness :
  let h := chat_steps (fun s => s) (initial_handler [sample_loading])
             [SendChat true; StreamUpdate 1 CContent (js "old"); FlushTimer] in
  messages (chat_steps (fun s => s) (chat_step (fun s => s) h (SendChat true))
              [StreamUpdate 1 CContent (js "late"); StreamComplete 1; Render one]) = messages h.
Proof.
  apply (earlier_answers_are_ignored (fun s => s) [sample_loading]
           [SendChat true; StreamUpdate 1 CContent (js "old"); FlushTimer] (SendChat true)).
  - left.
  - repeat constructor.
Defined.

(** stopping loses what was received but not yet rendered: the update that is to hand
    over the collected chunks runs after stopping has advanced the generation, finds
    itself out of date and does nothing, so the answer ends with the text rendered last. *)
Theorem stop_drops_unrendered_chunks t h pre m k text why now :
  messages h = pre ++ [m] → receiving (requestGeneration h) pre k text why h →
  messages (chat_steps t h [StopGeneration; Render now]) = pre ++ [completeAssistantMessage m now].
Proof.
  intros Hms Hr. set (g := requestGeneration h) in *.
  destruct (flush_receiving g pre k text why h Hr) as [(m' & fl & Hms' & Hm & Hg & _ & Hq & _) _].
  unfold chat_steps. cbn [fold_left chat_step]. unfold stopGeneration. cbv zeta. fold g.
  unfold render. cbn [messages enqueue set_requesting abort_request discardPendingStreamUpdates
    set_pending set_generation requestGeneration queue].
  rewrite Hq, fold_left_app, (stale_updates (g + 1) now _ (map (flush_of g) fl)).
  - cbn [fold_left]. rewrite apply_update_current by done. cbn [run_update]. rewrite Hms', updateLast_snoc.
    assert (E : pre ++ [m'] = pre ++ [m]).
    { rewrite <- Hms, <- Hms'. unfold flushStreamUpdates.
      destruct (negb _); [done | ]. cbv zeta. destruct (negb _); [done | ]. by destruct (_ && _). }
    apply app_inj_2 in E as [_ [= ->]]; [ | done]. destruct Hm as (_ & -> & Hp). by rewrite Hp.
  - apply Forall_forall. intros u Hu. apply list_elem_of_fmap in Hu as (rc & -> & _). simpl. lia.
Qed.

Lemma stop_drops_unrendered_chunks_witness :
  messages (chat_steps (fun s => s)
              (chat_steps (fun s => s) (sendStreamingChat sample_handler) [StreamUpdate 1 CContent (js "lost")])
              [StopGeneration; Render one])
  = [] ++ [completeAssistantMessage sample_loading one].
Proof.
  apply (stop_drops_unrendered_chunks (fun s => s)
           (chat_steps (fun s => s) (sendStreamingChat sample_handler) [StreamUpdate 1 CContent (js "lost")])
           [] sample_loading (js "k") (js "lost") []).
  - reflexivity.
  - exists sample_loading, []. repeat split.
Defined.
