(* ===== verification/StatusCodes.v ===== *)
(** * HTTP status code rules and status code mappings

    [parseHttpStatusCodeRules] (lib/http-status-code-rules.ts) reads lists such as
    [401,500-505] and merges them; the guard of features/channels/lib/status-code-risk-guard.ts
    finds the risky entries of a status code mapping written as JSON. *)

From Stdlib Require Import Lia.
From stdpp Require Import base numbers strings option sets gmap list sorting.
From S2P Require Import Prelude ArraySort JsNumber Json JsonText.

(** ** Rules *)

Record StatusCodeRange := mkRange { range_start : Z; range_end : Z }.

Record ParsedHttpStatusCodeRules := mkRules {
  rules_ok : bool;
  ranges : list StatusCodeRange;
  rule_tokens : list ustring;
  normalized : ustring;
  invalidTokens : list ustring;
}.

Definition COMMA : Z := 44.
Definition DASH : Z := 45.
Definition FULLWIDTH_COMMA : Z := 65292.

(** [/^\d+$/.test(s)]. *)
Definition isNumberText (s : ustring) : bool := truthy s && forallb is_digit s.

Definition isValidCode (code : Z) : bool := (100 <=? code)%Z && (code <=? 599)%Z.

Definition parseToken (token : ustring) : option StatusCodeRange :=
  let cleaned := filter (fun c => is_space c = false) (trim token) in
  if negb (truthy cleaned) then None
  else if includes [DASH] cleaned then
    match split_on DASH cleaned with
    | a :: b :: _ =>
        if isNumberText a && isNumberText b then
          let start := digits_value a in
          let last := digits_value b in
          if isValidCode start && isValidCode last && (start <=? last)%Z
          then Some (mkRange start last) else None
        else None
    | _ => None
    end
  else if isNumberText cleaned then
    let code := digits_value cleaned in
    if isValidCode code then Some (mkRange code code) else None
  else None.

(** The order of [sort]: by start, then by end. *)
Definition range_le (a b : StatusCodeRange) : bool :=
  if (range_start a =? range_start b)%Z then (range_end a <=? range_end b)%Z
  else (range_start a <? range_start b)%Z.

(** The reduction of [mergeRanges]; [merged] is kept with its last element first. *)
Definition merge_step (merged : list StatusCodeRange) (current : StatusCodeRange) : list StatusCodeRange :=
  match merged with
  | [] => [current]
  | last :: rest =>
      if (range_end last + 1 <? range_start current)%Z then current :: merged
      else mkRange (range_start last) (Z.max (range_end last) (range_end current)) :: rest
  end.

Definition mergeRanges (rs : list StatusCodeRange) : list StatusCodeRange :=
  reverse (fold_left merge_step (sort_by range_le rs) []).

Definition range_text (r : StatusCodeRange) : ustring :=
  if (range_start r =? range_end r)%Z then show_Z (range_start r)
  else show_Z (range_start r) ++ [DASH] ++ show_Z (range_end r).

(** The non-empty trimmed segments of the input. *)
Definition rule_segments (raw : ustring) : list ustring :=
  filter (fun s => truthy s = true)
    (map trim (split_on COMMA (map (fun c => if (c =? FULLWIDTH_COMMA)%Z then COMMA else c) raw))).

Definition parseHttpStatusCodeRules (input : ustring) : ParsedHttpStatusCodeRules :=
  let raw := trim input in
  match raw with
  | [] => mkRules true [] [] [] []
  | _ =>
      let segments := rule_segments raw in
      let invalid := filter (fun s => parseToken s = None) segments in
      match invalid with
      | _ :: _ => mkRules false [] [] raw invalid
      | [] =>
          let merged := mergeRanges (omap parseToken segments) in
          let tokens := map range_text merged in
          mkRules true merged tokens (join [COMMA] tokens) []
      end
  end.

(** ** Mappings *)

Definition NON_REDIRECTABLE_STATUS_CODES : list Z := [504; 524]%Z.

(** [/^[1-5]\d{2}$/] on a trimmed text, and its value. *)
Definition parseStatusCodeKey (rawKey : ustring) : option Z :=
  match trim rawKey with
  | [a; b; c] =>
      if (chr "1" <=? a)%Z && (a <=? chr "5")%Z && is_digit b && is_digit c
      then Some (digits_value [a; b; c]) else None
  | _ => None
  end.

(** The value of a number that is an integer. *)
Definition integer_value (x : number) : option Z :=
  match x with
  | SpecFloat.S754_zero _ => Some 0%Z
  | SpecFloat.S754_finite s m e =>
      let v := SpecFloat.cond_Zopp s (Zpos m) in
      if (0 <=? e)%Z then Some (Z.shiftl v e)
      else if (v mod 2 ^ (- e) =? 0)%Z then Some (v / 2 ^ (- e))%Z else None
  | _ => None
  end.

Definition parseStatusCodeMappingTarget (rawValue : json) : option Z :=
  match rawValue with
  | JNumber n => v ← integer_value n; if isValidCode v then Some v else None
  | JString s => v ← parseStatusCodeKey s; if isValidCode v then Some v else None
  | _ => None
  end.

(** The entries of a mapping text, [\[\]] when it is not the text of an object. *)
Definition mapping_entries (text : ustring) : list (ustring * json) :=
  if truthy (trim text) then
    match JSON_parse text with Some (JObject fields) => fields | _ => [] end
  else [].

(** The invalid entries, which the program renders as [key → value]. *)
Definition collectInvalidStatusCodeEntries (text : ustring) : list (ustring * json) :=
  filter (fun f => parseStatusCodeKey f.1 = None ∨ parseStatusCodeMappingTarget f.2 = None)
    (mapping_entries text).

Definition redirect_text (a b : Z) : ustring := show_Z a ++ js " -> " ++ show_Z b.

Definition risky_redirect (f : ustring * json) : option ustring :=
  fromCode ← parseStatusCodeKey f.1; toCode ← parseStatusCodeMappingTarget f.2;
  if bool_decide (fromCode ∈ NON_REDIRECTABLE_STATUS_CODES) && negb (fromCode =? toCode)%Z
  then Some (redirect_text fromCode toCode) else None.

(** Code-unit order, the order of [sort] without a comparison. *)
Definition text_le (a b : ustring) : bool := negb (ustring_ltb b a).

Definition collectDisallowedStatusCodeRedirects (text : ustring) : list ustring :=
  sort_by text_le (uniq (omap risky_redirect (mapping_entries text))).

Definition collectNewDisallowedStatusCodeRedirects (original current : ustring) : list ustring :=
  let originalRisky := collectDisallowedStatusCodeRedirects original in
  filter (fun m => m ∉ originalRisky) (collectDisallowedStatusCodeRedirects current).

(** ** Sorting *)

(** Sorted by start, which is all the merge relies on. *)
Definition by_start (l : list StatusCodeRange) : Prop :=
  StronglySorted (fun a b => (range_start a ≤ range_start b)%Z) l.

Lemma range_le_start a b : range_le a b = true → (range_start a ≤ range_start b)%Z.
Proof. unfold range_le. destruct (_ =? _)%Z eqn:E; intros; bools; lia. Qed.

Lemma range_le_total a b : range_le a b = false → (range_start b ≤ range_start a)%Z.
Proof. unfold range_le. destruct (_ =? _)%Z eqn:E; intros; bools; lia. Qed.

Lemma insert_by_start r l : by_start l → by_start (insert_sorted range_le r l).
Proof.
  intros Hl. induction Hl as [|y l Hs IH Hy]; simpl; [repeat constructor | ].
  destruct (range_le r y) eqn:E.
  - constructor; [by constructor | ]. apply range_le_start in E. constructor; [done | ].
    eapply Forall_impl; [exact Hy | ]. simpl. intros. lia.
  - constructor; [done | ]. rewrite insert_sorted_perm. constructor; [by apply range_le_total | done].
Qed.

Lemma sort_by_start l : by_start (sort_by range_le l).
Proof. induction l as [|r l IH]; simpl; [constructor | by apply insert_by_start]. Qed.

(** ** Merging *)

Definition in_range (c : Z) (r : StatusCodeRange) : Prop := (range_start r ≤ c ≤ range_end r)%Z.

Definition covers (rs : list StatusCodeRange) (c : Z) : Prop := Exists (in_range c) rs.

(** Ranges in order with a gap between neighbours. *)
Fixpoint separated (rs : list StatusCodeRange) : Prop :=
  match rs with
  | a :: (b :: _) as rest => (range_end a + 1 < range_start b)%Z ∧ separated rest
  | _ => True
  end.

Definition proper (r : StatusCodeRange) : Prop := (range_start r ≤ range_end r)%Z.

(** The same for a list kept with its last element first. *)
Fixpoint separated_down (rs : list StatusCodeRange) : Prop :=
  match rs with
  | b :: (a :: _) as rest => (range_end a + 1 < range_start b)%Z ∧ separated_down rest
  | _ => True
  end.

(** What a round of the reduction keeps: the merged ranges are apart, start before what is
    left, and cover what they and the current range covered. *)
Lemma merge_step_spec merged r :
  separated_down merged → Forall proper merged → proper r →
  Forall (fun m => (range_start m ≤ range_start r)%Z) merged →
  separated_down (merge_step merged r) ∧ Forall proper (merge_step merged r) ∧
  (∀ s, (range_start r ≤ s)%Z → Forall (fun m => (range_start m ≤ s)%Z) (merge_step merged r)) ∧
  ∀ c, covers (merge_step merged r) c ↔ covers merged c ∨ in_range c r.
Proof.
  intros Hsep Hprop Hr Hle. unfold merge_step, covers. destruct merged as [|l rest].
  { repeat split; try done; [by constructor | intros; by repeat constructor | ..];
      rewrite Exists_cons, !Exists_nil; tauto. }
  apply Forall_cons in Hprop as [Hl Hrest]. apply Forall_cons in Hle as [Hs Hle'].
  destruct (range_end l + 1 <? range_start r)%Z eqn:E; bools.
  - repeat split; try done; [by repeat constructor | | ..].
    + intros s Hrs. constructor; [lia | ]. constructor; [lia | ].
      eapply Forall_impl; [exact Hle' | ]. simpl. intros. lia.
    + rewrite Exists_cons. tauto.
    + rewrite (Exists_cons _ r). tauto.
  - unfold proper, in_range in *. repeat split.
    + destruct rest as [|a rest]; [done | ]. simpl in *. tauto.
    + constructor; simpl; [lia | done].
    + intros s Hrs. constructor; simpl; [lia | ]. eapply Forall_impl; [exact Hle' | ]. simpl. intros. lia.
    + rewrite !Exists_cons. simpl. intros [Hc | Hc]; [ | tauto].
      destruct (decide (c ≤ range_end l)%Z); [left; left; lia | right; lia].
    + rewrite !Exists_cons. simpl. intros [[Hc | Hc] | Hc]; [left; lia | tauto | left; lia].
Qed.

Lemma merge_fold rs merged :
  by_start rs → Forall proper rs → separated_down merged → Forall proper merged →
  (∀ r, r ∈ rs → Forall (fun m => (range_start m ≤ range_start r)%Z) merged) →
  let out := fold_left merge_step rs merged in
  separated_down out ∧ Forall proper out ∧ ∀ c, covers out c ↔ covers merged c ∨ covers rs c.
Proof.
  revert merged. induction rs as [|r rs IH]; intros merged Hs Hp Hsep Hpm Hle; cbv zeta; simpl.
  { repeat split; try done; unfold covers; rewrite Exists_nil; tauto. }
  apply StronglySorted_inv in Hs as [Hs Hr]. apply Forall_cons in Hp as [Hpr Hp].
  destruct (merge_step_spec merged r Hsep Hpm Hpr (Hle r ltac:(left))) as (H1 & H2 & H3 & H4).
  destruct (IH (merge_step merged r)) as (H5 & H6 & H7); try done.
  { intros r' Hin. apply H3. rewrite Forall_forall in Hr. by apply Hr. }
  split; [done | ]. split; [done | ]. intros c. rewrite H7, H4. unfold covers. rewrite Exists_cons. tauto.
Qed.

Lemma separated_snoc rs a :
  separated (rs ++ [a]) ↔ separated rs ∧ (∀ b, last rs = Some b → (range_end b + 1 < range_start a)%Z).
Proof.
  induction rs as [|x [|y rs] IH]; [simpl; naive_solver | simpl; naive_solver | ].
  change ((x :: y :: rs) ++ [a]) with (x :: (y :: rs) ++ [a]).
  cbn [separated app] in *. rewrite IH. change (last (x :: y :: rs)) with (last (y :: rs)). tauto.
Qed.

Lemma separated_reverse rs : separated_down rs → separated (reverse rs).
Proof.
  induction rs as [|b [|a rs] IH]; intros Hs; [done | done | ].
  rewrite reverse_cons, separated_snoc. simpl in Hs. destruct Hs as [Hab Hs]. split; [by apply IH | ].
  rewrite reverse_cons, last_snoc. by intros b' [= <-].
Qed.

Lemma mergeRanges_spec rs :
  Forall proper rs →
  separated (mergeRanges rs) ∧ Forall proper (mergeRanges rs) ∧
  ∀ c, covers (mergeRanges rs) c ↔ covers rs c.
Proof.
  intros Hp. unfold mergeRanges.
  destruct (merge_fold (sort_by range_le rs) []) as (H1 & H2 & H3);
    [apply sort_by_start | by rewrite sort_by_perm | done | done | intros; constructor | ].
  split; [by apply separated_reverse | ]. split; [by apply Forall_reverse | ].
  intros c. unfold covers in *. rewrite reverse_Permutation, H3, Exists_nil, sort_by_perm. tauto.
Qed.

(** ** Reading back the normal form *)

Definition valid_range (r : StatusCodeRange) : Prop :=
  isValidCode (range_start r) = true ∧ isValidCode (range_end r) = true ∧ proper r.

(** The decimal text of a code: three digits. *)
Definition three_digits (c : Z) (t : ustring) : Prop :=
  ∃ a b d, t = [a; b; d] ∧ Forall (fun x => is_digit x = true) t ∧ digits_value t = c.

Definition code_text_ok (c : Z) : bool :=
  match show_Z c with
  | [a; b; d] => forallb is_digit [a; b; d] && (digits_value [a; b; d] =? c)%Z
  | _ => false
  end.

Lemma codes_text_ok : forallb code_text_ok (seqZ 100 500) = true.
Proof. vm_compute. reflexivity. Qed.

Lemma show_code c : isValidCode c = true → three_digits c (show_Z c).
Proof.
  intros Hc. unfold isValidCode in Hc. bools.
  assert (Hin : In c (seqZ 100 500)).
  { apply list_elem_of_In, elem_of_seqZ. lia. }
  pose proof (proj1 (forallb_forall _ _) codes_text_ok c Hin) as Hok. unfold code_text_ok in Hok.
  destruct (show_Z c) as [|a [|b [|d [|]]]]; try done. bools. exists a, b, d. split; [done | ].
  split; [ | done]. simpl in *. bools. repeat constructor; done.
Qed.

Lemma digit_is_not_space c : is_digit c = true → is_space c = false.
Proof.
  unfold is_digit, is_space. chr_norm. intros H. bools.
  repeat (apply orb_false_iff; split); first [apply Z.eqb_neq; lia | apply bool_decide_eq_false; lia].
Qed.

Lemma digit_range c : is_digit c = true → (48 ≤ c ≤ 57)%Z.
Proof. unfold is_digit. chr_norm. intros H. bools. lia. Qed.

(** Texts made of digits and dashes: without white space and commas. *)
Definition plain_text (s : ustring) : Prop := Forall (fun c => is_digit c = true ∨ c = DASH) s.

Lemma plain_no_space s : plain_text s → Forall (fun c => is_space c = false) s.
Proof.
  intros Hs. eapply Forall_impl; [exact Hs | ]. intros c [Hc | ->]; [by apply digit_is_not_space | done].
Qed.

Lemma plain_no_comma s c : plain_text s → c ∈ s → c ≠ COMMA ∧ c ≠ FULLWIDTH_COMMA.
Proof.
  intros Hs Hin. unfold plain_text in Hs. rewrite Forall_forall in Hs.
  destruct (Hs c Hin) as [Hd | ->]; [ | done]. apply digit_range in Hd.
  unfold COMMA, FULLWIDTH_COMMA. lia.
Qed.

Lemma plain_digits c t : three_digits c t → plain_text t ∧ (DASH ∉ t) ∧ isNumberText t = true.
Proof.
  intros (a & b & d & -> & Hd & _). split; [ | split].
  - eapply Forall_impl; [exact Hd | ]. auto.
  - intros Hin. rewrite Forall_forall in Hd. apply Hd in Hin. by vm_compute in Hin.
  - unfold isNumberText. simpl. inversion Hd as [|? ? H1 Hd1]; subst. inversion Hd1 as [|? ? H2 Hd2]; subst.
    inversion Hd2 as [|? ? H3 _]; subst. by rewrite H1, H2, H3.
Qed.

Lemma range_text_plain r : valid_range r → plain_text (range_text r) ∧ range_text r ≠ [].
Proof.
  intros (Hs & He & _). apply show_code in Hs, He.
  destruct (plain_digits _ _ Hs) as (Hp & _), (plain_digits _ _ He) as (Hp' & _).
  unfold range_text. destruct (_ =? _)%Z.
  - split; [done | ]. destruct Hs as (a & b & d & -> & _). done.
  - split; [ | by destruct (show_Z (range_start r))].
    apply Forall_app. split; [done | ]. constructor; [by right | done].
Qed.

Lemma parseToken_range_text r : valid_range r → parseToken (range_text r) = Some r.
Proof.
  intros Hr. destruct (range_text_plain r Hr) as [Hp Hne]. pose proof (plain_no_space _ Hp) as Hns.
  destruct Hr as (Hs & He & Hle). pose proof (show_code _ Hs) as Hts. pose proof (show_code _ He) as Hte.
  destruct (plain_digits _ _ Hts) as (_ & Hd1 & Hn1), (plain_digits _ _ Hte) as (_ & Hd2 & Hn2).
  destruct Hts as (? & ? & ? & _ & _ & Hv1), Hte as (? & ? & ? & _ & _ & Hv2).
  unfold parseToken. rewrite (trim_none _ Hns). cbv zeta.
  rewrite filter_all by (intros; by eapply Forall_forall in Hns). rewrite includes_one.
  replace (truthy (range_text r)) with true by (by destruct (range_text r)). cbn [negb].
  unfold range_text. destruct (range_start r =? range_end r)%Z eqn:E; bools.
  - rewrite bool_decide_false by done. rewrite Hn1, Hv1, Hs. destruct r. simpl in *. by subst.
  - rewrite bool_decide_true by set_solver. simpl app. rewrite split_on_app by done.
    rewrite split_on_none by done. rewrite Hn1, Hn2, Hv1, Hv2, Hs, He. simpl.
    unfold proper in Hle. rewrite (proj2 (Z.leb_le _ _)) by done. by destruct r.
Qed.

Lemma separated_cons_inv a rs : separated (a :: rs) → separated rs.
Proof. destruct rs; [done | by intros [_ ?]]. Qed.

(** A list that is already merged is left as it is. *)
Lemma sort_separated rs : separated rs → Forall proper rs → sort_by range_le rs = rs.
Proof.
  induction rs as [|a rs IH]; intros Hs Hp; [done | ]. simpl. apply Forall_cons in Hp as [Ha Hp].
  rewrite IH by (done || by eapply separated_cons_inv). destruct rs as [|b rs]; [done | ]. simpl.
  destruct Hs as [Hab _]. unfold proper in Ha.
  assert (range_le a b = true) as ->; [ | done]. unfold range_le.
  rewrite (proj2 (Z.eqb_neq _ _)) by lia. apply Z.ltb_lt. lia.
Qed.

Lemma merge_separated rs merged :
  separated rs → (∀ l r, head merged = Some l → head rs = Some r → (range_end l + 1 < range_start r)%Z) →
  fold_left merge_step rs merged = reverse rs ++ merged.
Proof.
  revert merged. induction rs as [|r rs IH]; intros merged Hs Hh; [done | ]. simpl.
  assert (merge_step merged r = r :: merged) as ->.
  { unfold merge_step. destruct merged as [|l merged]; [done | ].
    by rewrite (proj2 (Z.ltb_lt _ _)) by (by apply Hh). }
  rewrite IH; [by rewrite reverse_cons, <- app_assoc | by eapply separated_cons_inv | ].
  intros l r' [= <-] Hr'. destruct rs as [|b rs]; [done | ]. simplify_eq/=. apply Hs.
Qed.

Lemma mergeRanges_separated rs : separated rs → Forall proper rs → mergeRanges rs = rs.
Proof.
  intros Hs Hp. unfold mergeRanges. rewrite sort_separated, merge_separated by done.
  by rewrite app_nil_r, reverse_involutive.
Qed.

Lemma parseToken_valid s r : parseToken s = Some r → valid_range r.
Proof.
  unfold parseToken. cbv zeta. intros H. repeat case_match; simplify_eq; bools; repeat split; simpl; try done.
Qed.

Lemma covers_bounds rs : Forall valid_range rs → ∀ c, covers rs c → isValidCode c = true.
Proof.
  intros Hv c Hc. apply Exists_exists in Hc as (r & Hin & Hr). rewrite Forall_forall in Hv.
  destruct (Hv r Hin) as (Hs & He & _). unfold isValidCode, in_range in *. bools.
  apply andb_true_intro. split; apply Z.leb_le; lia.
Qed.

Lemma mergeRanges_valid rs : Forall valid_range rs → Forall valid_range (mergeRanges rs).
Proof.
  intros Hv. assert (Hp : Forall proper rs) by (eapply Forall_impl; [exact Hv | by intros r (_ & _ & ?)]).
  destruct (mergeRanges_spec rs Hp) as (_ & Hpm & Hc).
  apply Forall_forall. intros r Hin. rewrite Forall_forall in Hpm. pose proof (Hpm r Hin) as Hr.
  assert (Hcov : ∀ c, in_range c r → isValidCode c = true).
  { intros c Hcr. apply (covers_bounds rs Hv), Hc. apply Exists_exists. eauto. }
  unfold proper in Hr. split; [apply Hcov; split; lia | ]. split; [apply Hcov; split; lia | done].
Qed.

Lemma omap_parse_tokens rs :
  Forall valid_range rs → omap parseToken (map range_text rs) = rs.
Proof.
  induction 1 as [|r rs Hr _ IH]; [done | ].
  change (match parseToken (range_text r) with
          | Some y => y :: omap parseToken (map range_text rs)
          | None => omap parseToken (map range_text rs)
          end = r :: rs).
  rewrite parseToken_range_text by done. by rewrite IH.
Qed.

Lemma parsed_segments_valid segs : Forall valid_range (omap parseToken segs).
Proof.
  apply Forall_forall. intros r Hin. apply list_elem_of_omap in Hin as (s & _ & Hs).
  by eapply parseToken_valid.
Qed.

Lemma join_plain ws : Forall plain_text ws → Forall (fun c => is_digit c = true ∨ c = DASH ∨ c = COMMA) (join [COMMA] ws).
Proof.
  intros Hws. induction Hws as [|w [|w' ws] Hw Hws IH]; [constructor | | ].
  - simpl. eapply Forall_impl; [exact Hw | ]. intros c [|]; auto.
  - change (join [COMMA] (w :: w' :: ws)) with (w ++ COMMA :: join [COMMA] (w' :: ws)).
    apply Forall_app. split; [eapply Forall_impl; [exact Hw | ]; intros c [|]; auto | ].
    constructor; [auto | exact IH].
Qed.

Lemma segments_of_tokens rs :
  Forall valid_range rs → rs ≠ [] →
  let text := join [COMMA] (map range_text rs) in
  trim text = text ∧ text ≠ [] ∧ rule_segments text = map range_text rs.
Proof.
  intros Hv Hne. cbv zeta.
  assert (Hplain : Forall plain_text (map range_text rs)).
  { apply Forall_map. eapply Forall_impl; [exact Hv | ]. intros r Hr. by apply range_text_plain. }
  pose proof (join_plain _ Hplain) as Hj.
  split; [ | split].
  - apply trim_none. eapply Forall_impl; [exact Hj | ].
    intros c [Hc | [-> | ->]]; [by apply digit_is_not_space | done | done].
  - destruct rs as [|r rs]; [done | ]. apply Forall_cons in Hv as [Hr _].
    destruct (range_text_plain r Hr) as [_ Ht]. cbn [map]. destruct (map range_text rs); simpl;
      by destruct (range_text r).
  - unfold rule_segments.
    assert (map (fun c => if (c =? FULLWIDTH_COMMA)%Z then COMMA else c) (join [COMMA] (map range_text rs))
            = join [COMMA] (map range_text rs)) as ->.
    { rewrite <- (map_id (join [COMMA] (map range_text rs))) at 2. apply map_ext_in. intros c Hin.
      apply list_elem_of_In in Hin. rewrite Forall_forall in Hj. rewrite (proj2 (Z.eqb_neq _ _)); [done | ].
      unfold FULLWIDTH_COMMA. destruct (Hj c Hin) as [Hd | [-> | ->]]; [apply digit_range in Hd; lia | done | done]. }
    rewrite split_on_join; [ | by destruct rs | ].
    + assert (map trim (map range_text rs) = map range_text rs) as ->.
      { rewrite map_map. apply map_ext_in. intros r Hin. apply list_elem_of_In in Hin.
        apply trim_none, plain_no_space, range_text_plain. by eapply Forall_forall in Hv. }
      apply filter_all. intros s Hin. apply list_elem_of_fmap in Hin as (r & -> & Hin).
      destruct (range_text_plain r) as [_ Ht]; [by eapply Forall_forall in Hv | ]. by destruct (range_text r).
    + eapply Forall_impl; [exact Hplain | ]. intros w Hw Hin. by destruct (plain_no_comma w _ Hw Hin).
Qed.

Lemma no_invalid rs : Forall valid_range rs → filter (fun s => parseToken s = None) (map range_text rs) = [].
Proof.
  intros Hv. apply filter_none. intros s Hin. apply list_elem_of_fmap in Hin as (r & -> & Hin).
  rewrite parseToken_range_text; [done | ]. by eapply Forall_forall in Hv.
Qed.

(** The result for a list in normal form. *)
Lemma parse_normal rs :
  Forall valid_range rs → separated rs →
  parseHttpStatusCodeRules (join [COMMA] (map range_text rs))
  = mkRules true rs (map range_text rs) (join [COMMA] (map range_text rs)) [].
Proof.
  intros Hv Hs. destruct (decide (rs = [])) as [-> | Hne]; [done | ].
  destruct (segments_of_tokens rs Hv Hne) as (Ht & Hn & Hseg).
  unfold parseHttpStatusCodeRules. cbv zeta. rewrite Ht, Hseg, no_invalid by done.
  rewrite omap_parse_tokens, mergeRanges_separated; try done.
  - by destruct (join [COMMA] (map range_text rs)).
  - eapply Forall_impl; [exact Hv | by intros r (_ & _ & ?)].
Qed.

(** A list that was read is in normal form. *)
Lemma parse_ok_normal input :
  rules_ok (parseHttpStatusCodeRules input) = true →
  let rs := ranges (parseHttpStatusCodeRules input) in
  Forall valid_range rs ∧ separated rs ∧
  parseHttpStatusCodeRules input = mkRules true rs (map range_text rs) (join [COMMA] (map range_text rs)) [] ∧
  ∀ c, covers rs c ↔ ∃ s r, s ∈ rule_segments (trim input) ∧ parseToken s = Some r ∧ in_range c r.
Proof.
  cbv zeta. unfold parseHttpStatusCodeRules. cbv zeta.
  destruct (trim input) as [|c0 raw] eqn:Et.
  { intros _. simpl. repeat split; try done; unfold covers; rewrite Exists_nil; [done | ].
    intros (s & r & Hin & _). by apply not_elem_of_nil in Hin. }
  rewrite <- Et. destruct (filter (fun s => parseToken s = None) (rule_segments (trim input))); [ | done].
  intros _. cbn [ranges].
  pose proof (parsed_segments_valid (rule_segments (trim input))) as Hv.
  assert (Hp : Forall proper (omap parseToken (rule_segments (trim input))))
    by (eapply Forall_impl; [exact Hv | by intros r (_ & _ & ?)]).
  destruct (mergeRanges_spec _ Hp) as (Hs & _ & Hc).
  split; [by apply mergeRanges_valid | ]. split; [done | ]. split; [done | ].
  intros c. rewrite Hc. unfold covers. rewrite Exists_exists. setoid_rewrite list_elem_of_omap. naive_solver.
Qed.

(** A token with three parts is read as its first two. *)
Example triple_range_accepted : parseToken (js "200-300-400") = Some (mkRange 200 300).
Proof. vm_compute. reflexivity. Qed.

(** ** Risky redirects *)

Lemma parseStatusCodeKey_valid k c : parseStatusCodeKey k = Some c → isValidCode c = true.
Proof.
  unfold parseStatusCodeKey. destruct (trim k) as [|a [|b [|d [|]]]]; try done.
  destruct (_ && _) eqn:E; [ | done]. bools. intros [= <-]. unfold is_digit in *. bools.
  unfold digits_value, isValidCode. cbn [fold_left]. chr_norm.
  apply andb_true_intro. split; apply Z.leb_le; lia.
Qed.

Lemma parseStatusCodeMappingTarget_valid v c :
  parseStatusCodeMappingTarget v = Some c → isValidCode c = true.
Proof.
  unfold parseStatusCodeMappingTarget. destruct v as [| |n|s| |]; try done.
  - destruct (integer_value n) as [z|]; [ | done]. simpl. destruct (isValidCode z) eqn:E; [ | done].
    by intros [= <-].
  - destruct (parseStatusCodeKey s) as [z|]; [ | done]. simpl. destruct (isValidCode z) eqn:E; [ | done].
    by intros [= <-].
Qed.

Lemma redirect_text_inj a b a' b' :
  isValidCode a = true → isValidCode b = true → isValidCode a' = true → isValidCode b' = true →
  redirect_text a b = redirect_text a' b' → a = a' ∧ b = b'.
Proof.
  intros Ha Hb Ha' Hb' E. apply show_code in Ha, Hb, Ha', Hb'. unfold redirect_text in E.
  destruct Ha as (? & ? & ? & Ea & _ & Va), Hb as (? & ? & ? & Eb & _ & Vb),
    Ha' as (? & ? & ? & Ea' & _ & Va'), Hb' as (? & ? & ? & Eb' & _ & Vb').
  assert (H : show_Z a = show_Z a' ∧ show_Z b = show_Z b').
  { rewrite Ea, Eb, Ea', Eb' in *. simpl in E. by simplify_eq. }
  destruct H as [H1 H2]. rewrite H1 in Va. rewrite H2 in Vb. split; congruence.
Qed.

(** ** Theorems *)

(** the rules mean what is written: when the input is accepted, a status code is covered
    by the resulting ranges exactly when some segment of the input covers it, and the
    ranges are in increasing order, apart from each other, and within 100 and 599. *)
Theorem status_rules_meaning input :
  rules_ok (parseHttpStatusCodeRules input) = true →
  let rs := ranges (parseHttpStatusCodeRules input) in
  separated rs ∧ Forall valid_range rs ∧
  ∀ c, covers rs c ↔ ∃ s r, s ∈ rule_segments (trim input) ∧ parseToken s = Some r ∧ in_range c r.
Proof. intros Hok. cbv zeta. by destruct (parse_ok_normal input Hok) as (? & ? & _ & ?). Qed.

Definition sample_rules : ustring := js " 500-505, 504 ,401,403,402 ".

Lemma status_rules_meaning_witness :
  let rs := ranges (parseHttpStatusCodeRules sample_rules) in
  rs = [mkRange 401 403; mkRange 500 505] ∧ separated rs.
Proof.
  cbv zeta. split; [vm_compute; reflexivity | ]. apply (status_rules_meaning sample_rules).
  vm_compute. reflexivity.
Defined.

(** the normal form of accepted rules is a fixed point: reading it back gives the same
    ranges, tokens and text. *)
Theorem normalized_rules_round_trip input :
  rules_ok (parseHttpStatusCodeRules input) = true →
  parseHttpStatusCodeRules (normalized (parseHttpStatusCodeRules input)) = parseHttpStatusCodeRules input.
Proof.
  intros Hok. destruct (parse_ok_normal input Hok) as (Hv & Hs & Heq & _).
  rewrite Heq at 1 2. cbn [normalized]. by apply parse_normal.
Qed.

Lemma normalized_rules_round_trip_witness :
  parseHttpStatusCodeRules (normalized (parseHttpStatusCodeRules sample_rules))
  = parseHttpStatusCodeRules sample_rules.
Proof. apply normalized_rules_round_trip. vm_compute. reflexivity. Defined.

(** the guard finds exactly the risky redirects: a redirect is listed when the mapping
    has an entry that turns 504 or 524 into another valid code, each once; and a redirect
    is reported as new exactly when the current mapping has it and the original had not. *)
Theorem risky_redirects_found text original a b :
  isValidCode a = true → isValidCode b = true →
  (redirect_text a b ∈ collectDisallowedStatusCodeRedirects text ↔
   (a = 504 ∨ a = 524)%Z ∧ a ≠ b ∧
   ∃ k v, (k, v) ∈ mapping_entries text ∧ parseStatusCodeKey k = Some a ∧
          parseStatusCodeMappingTarget v = Some b) ∧
  NoDup (collectDisallowedStatusCodeRedirects text) ∧
  (redirect_text a b ∈ collectNewDisallowedStatusCodeRedirects original text ↔
   redirect_text a b ∈ collectDisallowedStatusCodeRedirects text ∧
   redirect_text a b ∉ collectDisallowedStatusCodeRedirects original).
Proof.
  intros Ha Hb. split; [ | split].
  - unfold collectDisallowedStatusCodeRedirects. rewrite sort_by_perm, elem_of_uniq, list_elem_of_omap.
    split.
    + intros ([k v] & Hin & Hr). unfold risky_redirect in Hr. cbn [fst snd] in Hr.
      destruct (parseStatusCodeKey k) as [x|] eqn:Ek; [ | done]. cbn [mbind option_bind] in Hr.
      destruct (parseStatusCodeMappingTarget v) as [y|] eqn:Ev; [ | done]. cbn [mbind option_bind] in Hr.
      destruct (_ && _) eqn:E; [ | done]. bools. injection Hr as Hr.
      apply redirect_text_inj in Hr as [-> ->];
        eauto using parseStatusCodeKey_valid, parseStatusCodeMappingTarget_valid.
      split; [unfold NON_REDIRECTABLE_STATUS_CODES in *; set_solver | ]. eauto 10.
    + intros (Hcode & Hne & k & v & Hin & Hk & Hv). exists (k, v). split; [done | ].
      unfold risky_redirect. cbn [fst snd]. rewrite Hk, Hv. cbn [mbind option_bind].
      rewrite bool_decide_true by (unfold NON_REDIRECTABLE_STATUS_CODES; set_solver).
      by rewrite (proj2 (Z.eqb_neq a b)).
  - unfold collectDisallowedStatusCodeRedirects. rewrite sort_by_perm. apply NoDup_uniq.
  - unfold collectNewDisallowedStatusCodeRedirects. cbv zeta. rewrite list_elem_of_filter. tauto.
Qed.

Lemma risky_redirects_found_witness :
  redirect_text 504 200 ∈ collectDisallowedStatusCodeRedirects (json_text "{`504`: `200`, `500`: 400}").
Proof.
  apply (proj1 (risky_redirects_found (json_text "{`504`: `200`, `500`: 400}") [] 504 200
                  ltac:(reflexivity) ltac:(reflexivity))).
  split; [by left | ]. split; [discriminate | ]. exists (js "504"), (JString (js "200")).
  split; [vm_compute; right; left | split; vm_compute; reflexivity].
Defined.
