(* ===== verification/ModelMapping.v ===== *)
(** * Model lists and model mappings of a channel

    features/channels/lib/model-mapping-validation.ts: the models of a channel are a
    comma-separated text, and its model mapping is the JSON text of an object from the
    models that are renamed to the models they are sent as. *)

From Stdlib Require Import Lia.
From stdpp Require Import base numbers strings option sets gmap list.
From S2P Require Import Prelude JsNumber Json JsonText StatusCodes.

Definition is_truthy (s : ustring) : Prop := truthy s = true.

Definition parseModelsString (modelsStr : ustring) : list ustring :=
  if truthy modelsStr then filter is_truthy (map trim (split_on COMMA modelsStr)) else [].

Definition formatModelsArray (models : list ustring) : ustring := join [COMMA] (uniq models).

Definition normalizeModelName (model : ustring) : ustring := trim model.

(** The object a mapping text stands for. *)
Definition parse_object (text : ustring) : option (list (ustring * json)) :=
  match JSON_parse text with Some (JObject fields) => Some fields | _ => None end.

Definition extractMappingSourceModels (modelMapping : ustring) : list ustring :=
  let trimmed := trim modelMapping in
  if negb (truthy trimmed) then []
  else match parse_object trimmed with
       | Some fields => uniq (filter is_truthy (map trim (map fst fields)))
       | None => []
       end.

(** [typeof value === 'string' ? value.trim() : undefined], when truthy. *)
Definition redirect_target (v : json) : option ustring :=
  match v with JString s => if truthy (trim s) then Some (trim s) else None | _ => None end.

Definition extractRedirectModels (modelMapping : ustring) : list ustring :=
  let trimmed := trim modelMapping in
  if negb (truthy trimmed) then []
  else match parse_object trimmed with
       | Some fields => uniq (omap redirect_target (map snd fields))
       | None => []
       end.

Definition hasModelConfigChanged (currentModels : list ustring) (currentModelMapping : ustring)
    (initialModels : list ustring) (initialModelMapping : ustring) : bool :=
  if bool_decide (initialModels = []) && negb (truthy initialModelMapping) then true
  else if negb (length currentModels =? length initialModels) then true
  else if negb (forallb (fun p => ustring_eqb p.1 p.2) (zip currentModels initialModels)) then true
  else negb (ustring_eqb (trim currentModelMapping) (trim initialModelMapping)).

Definition findMissingModelsInMapping (modelMapping : ustring) (currentModels : list ustring)
    : list ustring :=
  if negb (truthy modelMapping) || negb (truthy (trim modelMapping)) then []
  else match parse_object modelMapping with
       | None => []
       | Some fields =>
           let modelSet := map normalizeModelName currentModels in
           uniq (filter (fun k => is_truthy k ∧ k ∉ modelSet) (map normalizeModelName (map fst fields)))
       end.

Inductive mapping_error := NotAnObject | ValuesNotStrings | NotJson.

Definition is_string_value (v : json) : bool := match v with JString _ => true | _ => false end.

(** [None] is a valid mapping. *)
Definition validateModelMappingJson (modelMapping : ustring) : option mapping_error :=
  if negb (truthy modelMapping) || negb (truthy (trim modelMapping)) then None
  else match JSON_parse modelMapping with
       | None => Some NotJson
       | Some (JObject fields) =>
           if forallb is_string_value (map snd fields) then None else Some ValuesNotStrings
       | Some _ => Some NotAnObject
       end.

Definition findExposedTargetModels (modelMapping : ustring) (currentModels : list ustring)
    : list ustring :=
  let redirectModels := extractRedirectModels modelMapping in
  let modelSet := map normalizeModelName currentModels in
  filter (fun m => normalizeModelName m ∈ modelSet) redirectModels.

Record ModelCategories := mkCategories {
  normalizedCurrentModels : list ustring;
  normalizedRedirectModels : list ustring;
  classificationSet : list ustring;
  redirectOnlySet : list ustring;
}.

Definition categorizeModelsWithRedirect (currentModels redirectModels : list ustring) : ModelCategories :=
  let current := uniq (filter is_truthy (map normalizeModelName currentModels)) in
  let redirect := uniq (filter is_truthy (map normalizeModelName redirectModels)) in
  mkCategories current redirect (uniq (current ++ redirect)) (filter (fun m => m ∉ current) redirect).

(** ** Facts *)

(** A model name as it can stand in a list: trimmed, not empty, without a comma. *)
Definition list_name (m : ustring) : Prop := trim m = m ∧ m ≠ [] ∧ COMMA ∉ m.

Lemma drop_while_idem {A} (p : A → bool) l : drop_while p (drop_while p l) = drop_while p l.
Proof.
  induction l as [|x l IH]; simpl; [done | ]. destruct (p x) eqn:E; [done | ]. simpl. by rewrite E.
Qed.

(** The first unit of a text is kept by trimming its end unless all is white space. *)
Lemma drop_while_app_stop {A} (p : A → bool) l x :
  p x = false → drop_while p (l ++ [x]) = drop_while p l ++ [x].
Proof. intros Hx. induction l as [|y l IH]; simpl; [by rewrite Hx | by destruct (p y)]. Qed.

Lemma trim_end_start s : trim_start s = s → trim_start (trim_end s) = trim_end s.
Proof.
  unfold trim_start, trim_end. destruct s as [|c s]; [done | ]. simpl.
  destruct (is_space c) eqn:Ec.
  - intros E. apply (f_equal length) in E. pose proof (drop_while_length is_space s). simpl in E. lia.
  - intros _. rewrite reverse_cons, drop_while_app_stop by done.
    rewrite reverse_app. simpl. by rewrite Ec.
Qed.

Lemma trim_idem s : trim (trim s) = trim s.
Proof.
  unfold trim. rewrite (trim_end_start (trim_start s)) by (apply drop_while_idem).
  unfold trim_end. by rewrite reverse_involutive, drop_while_idem.
Qed.

Lemma uniq_nil {A} `{EqDecision A} (l : list A) : uniq l = [] → l = [].
Proof.
  intros E. destruct l as [|x l]; [done | ]. assert (Hx : x ∈ uniq (x :: l)) by (apply elem_of_uniq; left).
  rewrite E in Hx. by apply not_elem_of_nil in Hx.
Qed.

(** ** Theorems *)

(** a model list survives being written and read: the text made from names that can
    stand in a list is read back as the same names, each once and in order. *)
Theorem models_list_round_trip models :
  Forall list_name models → parseModelsString (formatModelsArray models) = uniq models.
Proof.
  intros Hm. unfold formatModelsArray.
  assert (Hu : Forall list_name (uniq models)).
  { apply Forall_forall. intros m Hin. rewrite elem_of_uniq in Hin.
    rewrite Forall_forall in Hm. exact (Hm m Hin). }
  destruct (uniq models) as [|w ws] eqn:Eu; [done | ]. rewrite <- Eu in *.
  unfold parseModelsString.
  assert (truthy (join [COMMA] (uniq models)) = true) as ->.
  { rewrite Eu in Hu |- *. apply Forall_cons in Hu as [(_ & Hw & _) _].
    destruct ws; simpl; by destruct w. }
  rewrite split_on_join; [ | by rewrite Eu | eapply Forall_impl; [exact Hu | by intros m (_ & _ & ?)]].
  assert (map trim (uniq models) = uniq models) as ->.
  { rewrite <- (map_id (uniq models)) at 2. apply map_ext_in. intros m Hin. apply list_elem_of_In in Hin.
    rewrite Forall_forall in Hu. destruct (Hu m Hin) as (E & _). exact E. }
  apply filter_all. intros m Hin. rewrite Forall_forall in Hu. destruct (Hu m Hin) as (_ & Hne & _).
  unfold is_truthy. by destruct m.
Qed.

Lemma models_list_round_trip_witness :
  parseModelsString (formatModelsArray [js "gpt-4o"; js "claude 3"; js "gpt-4o"])
  = uniq [js "gpt-4o"; js "claude 3"; js "gpt-4o"].
Proof.
  apply models_list_round_trip.
  repeat constructor; try discriminate; apply (bool_decide_unpack _); vm_compute; exact I.
Defined.

(** the checks of a mapping against the model list are exact: a model is reported missing
    when it is the trimmed name of a mapping entry and not in the list, a target is
    reported exposed when it is the trimmed text of a mapping value and in the list, each
    once; and after removing the exposed targets no target of the mapping is listed. *)
Theorem mapping_checks_are_exact mapping models m :
  (m ∈ findMissingModelsInMapping mapping models ↔
   trim mapping ≠ [] ∧ m ≠ [] ∧ (m ∉ map trim models) ∧
   ∃ fields k v, parse_object mapping = Some fields ∧ (k, v) ∈ fields ∧ trim k = m) ∧
  (m ∈ findExposedTargetModels mapping models ↔
   m ∈ extractRedirectModels mapping ∧ m ∈ map trim models) ∧
  NoDup (findMissingModelsInMapping mapping models) ∧
  (m ∈ extractRedirectModels mapping →
   m ∉ map trim (filter (fun x => trim x ∉ findExposedTargetModels mapping models) models)).
Proof.
  assert (Htrimmed : ∀ x, x ∈ extractRedirectModels mapping → trim x = x).
  { intros x. unfold extractRedirectModels. cbv zeta. destruct (negb _); [set_solver | ].
    destruct (parse_object _) as [fields|]; [ | set_solver]. rewrite elem_of_uniq, list_elem_of_omap.
    intros (v & _ & Hv). destruct v; try done. simpl in Hv. destruct (truthy (trim s)); [ | done].
    simplify_eq. apply trim_idem. }
  assert (Hexp : ∀ x, x ∈ findExposedTargetModels mapping models ↔
                      x ∈ extractRedirectModels mapping ∧ x ∈ map trim models).
  { intros x. unfold findExposedTargetModels. cbv zeta. rewrite list_elem_of_filter.
    unfold normalizeModelName. split; intros [H1 H2]; (rewrite (Htrimmed x) in * by done); done. }
  split; [ | split; [ | split]].
  - unfold findMissingModelsInMapping. destruct (trim mapping) as [|c t] eqn:Et.
    { rewrite orb_true_r. split; [intros H; by apply not_elem_of_nil in H | by intros [? _]]. }
    assert (truthy mapping = true) as ->; [by destruct mapping | ]. cbn [negb orb truthy].
    destruct (parse_object mapping) as [fields|]; [ | split; [intros H; by apply not_elem_of_nil in H | naive_solver]].
    cbv zeta. rewrite elem_of_uniq, list_elem_of_filter, map_map.
    unfold normalizeModelName, is_truthy. split.
    + intros [[Ht Hn] Hin]. apply list_elem_of_fmap in Hin as ([k v] & -> & Hin).
      cbn [fst] in *. split; [done | ]. split; [by destruct (trim k) | ]. eauto 10.
    + intros (_ & Hne & Hn & fs & k & v & [= <-] & Hin & <-). split; [split; [by destruct (trim k) | done] | ].
      apply list_elem_of_fmap. by exists (k, v).
  - apply Hexp.
  - unfold findMissingModelsInMapping. destruct (_ || _); [constructor | ].
    destruct (parse_object mapping); [apply NoDup_uniq | constructor].
  - intros Hin Hm. apply list_elem_of_fmap in Hm as (x & -> & Hx).
    apply list_elem_of_filter in Hx as [Hn Hx]. apply Hn, Hexp. split; [done | ].
    apply list_elem_of_fmap. eauto.
Qed.

Definition sample_mapping : ustring := json_text "{`a`: `gpt-4o`, ` b `: `x`}".

Lemma mapping_checks_are_exact_witness :
  js "gpt-4o" ∉ map trim (filter (fun x => trim x ∉ findExposedTargetModels sample_mapping [js " gpt-4o "; js "c"])
                           [js " gpt-4o "; js "c"]).
Proof. apply mapping_checks_are_exact. vm_compute. left. Defined.
