(* ===== verification/EntityDialog.v ===== *)
(** * Dialog sessions

    [lib/entity-dialog-session.ts]: the coordinator that tells a dialog which of its
    sessions and which of its requests is still the current one.

    Sessions, requests and abort controllers are objects compared by identity; an object
    is kept with the number of its allocation.  A signal is aborted when the number of
    its controller is in [aborted]. *)

From stdpp Require Import base numbers option sets list.
From Stdlib Require Import Lia.
From S2P Require Import Prelude.

Section coordinator.
  Context {TEntity : Type} `{!EqDecision TEntity}.

Record EntityDialogSession := {
  session_ref : nat;
  session_entity : TEntity;
  session_generation : nat
}.

Record EntityDialogRequest := {
  request_ref : nat;
  request_session : EntityDialogSession;
  request_generation : nat;
  request_signal : nat
}.

Record EntityDialogLiveOwner := { owner_open : bool; owner_entity : option TEntity }.

Definition isEntityDialogOwnerCurrent (liveOwner : EntityDialogLiveOwner) (capturedEntity : TEntity)
    : bool :=
  owner_open liveOwner && bool_decide (owner_entity liveOwner = Some capturedEntity).

Record Coordinator := {
  sessionGeneration : nat;
  requestGeneration : nat;
  currentSession : option EntityDialogSession;
  currentRequest : option EntityDialogRequest;
  currentController : option nat;
  allocated : nat;
  aborted : list nat
}.

Definition new_coordinator : Coordinator :=
  {| sessionGeneration := 0; requestGeneration := 0; currentSession := None;
     currentRequest := None; currentController := None; allocated := 0; aborted := [] |}.

(** [a === b] on objects. *)
Definition same_session (current : option EntityDialogSession) (s : EntityDialogSession) : bool :=
  match current with Some c => session_ref c =? session_ref s | None => false end.

Definition same_request (current : option EntityDialogRequest) (r : EntityDialogRequest) : bool :=
  match current with Some c => request_ref c =? request_ref r | None => false end.

Definition isCurrentSession (st : Coordinator) (session : EntityDialogSession)
    (entity : option TEntity) : bool :=
  same_session (currentSession st) session &&
  (session_generation session =? sessionGeneration st) &&
  match entity with None => true | Some e => bool_decide (session_entity session = e) end.

(** [currentController?.abort()]. *)
Definition abort_current (st : Coordinator) : list nat :=
  match currentController st with Some c => c :: aborted st | None => aborted st end.

Definition open (entity : TEntity) (st : Coordinator) : Coordinator * EntityDialogSession :=
  let session := {| session_ref := allocated st; session_entity := entity;
                    session_generation := S (sessionGeneration st) |} in
  ({| sessionGeneration := S (sessionGeneration st); requestGeneration := requestGeneration st;
      currentSession := Some session; currentRequest := None; currentController := None;
      allocated := S (allocated st); aborted := abort_current st |}, session).

Definition startRequest (session : EntityDialogSession) (st : Coordinator)
    : Coordinator * option EntityDialogRequest :=
  if negb (isCurrentSession st session None) then (st, None)
  else
    let controller := allocated st in
    let request := {| request_ref := S (allocated st); request_session := session;
                      request_generation := S (requestGeneration st);
                      request_signal := controller |} in
    ({| sessionGeneration := sessionGeneration st; requestGeneration := S (requestGeneration st);
        currentSession := currentSession st; currentRequest := Some request;
        currentController := Some controller; allocated := S (S (allocated st));
        aborted := abort_current st |}, Some request).

Definition isCurrentRequest (st : Coordinator) (request : EntityDialogRequest) : bool :=
  same_request (currentRequest st) request &&
  (request_generation request =? requestGeneration st) &&
  isCurrentSession st (request_session request) None &&
  negb (bool_decide (request_signal request ∈ aborted st)).

Definition close (session : EntityDialogSession) (st : Coordinator) : Coordinator :=
  if negb (isCurrentSession st session None) then st
  else
    {| sessionGeneration := S (sessionGeneration st); requestGeneration := requestGeneration st;
       currentSession := None; currentRequest := None; currentController := None;
       allocated := allocated st; aborted := abort_current st |}.

(** ** Runs: the users hold the sessions and requests they were given *)

Record World := {
  coordinator : Coordinator;
  sessions : list EntityDialogSession;   (* latest first *)
  requests : list EntityDialogRequest    (* latest first *)
}.

Inductive Event :=
| Open (entity : TEntity)
| StartRequest (i : nat)    (* with the [i]-th session the users hold *)
| CloseSession (i : nat).

Definition step (w : World) (e : Event) : World :=
  match e with
  | Open entity =>
      let '(st, s) := open entity (coordinator w) in
      {| coordinator := st; sessions := s :: sessions w; requests := requests w |}
  | StartRequest i =>
      match sessions w !! i with
      | None => w
      | Some s =>
          let '(st, r) := startRequest s (coordinator w) in
          {| coordinator := st; sessions := sessions w;
             requests := match r with Some r => r :: requests w | None => requests w end |}
      end
  | CloseSession i =>
      match sessions w !! i with
      | None => w
      | Some s =>
          {| coordinator := close s (coordinator w); sessions := sessions w; requests := requests w |}
      end
  end.

Definition new_world : World := {| coordinator := new_coordinator; sessions := []; requests := [] |}.

Definition run (es : list Event) : World := foldl step new_world es.

(** ** The invariant *)

Record coherent (w : World) : Prop := {
  session_bound : ∀ s, s ∈ sessions w → session_ref s < allocated (coordinator w);
  request_bound : ∀ r, r ∈ requests w →
    request_ref r < allocated (coordinator w) ∧ request_signal r < allocated (coordinator w);
  aborted_bound : ∀ c, c ∈ aborted (coordinator w) → c < allocated (coordinator w);
  current_session : ∀ c, currentSession (coordinator w) = Some c →
    head (sessions w) = Some c ∧ session_generation c = sessionGeneration (coordinator w) ∧
    ∀ s, s ∈ sessions w → session_ref s = session_ref c → s = c;
  current_request : ∀ c, currentRequest (coordinator w) = Some c →
    head (requests w) = Some c ∧ request_generation c = requestGeneration (coordinator w) ∧
    currentSession (coordinator w) = Some (request_session c) ∧
    (request_signal c ∉ aborted (coordinator w)) ∧
    ∀ r, r ∈ requests w → request_ref r = request_ref c → r = c;
  current_controller : currentController (coordinator w) = request_signal <$> currentRequest (coordinator w);
  others_aborted : ∀ r, r ∈ requests w → currentRequest (coordinator w) ≠ Some r →
    request_signal r ∈ aborted (coordinator w)
}.

Lemma head_in {A} (l : list A) x : head l = Some x → x ∈ l.
Proof. destruct l; [done | intros [= ->]; left]. Qed.

Lemma current_session_is w s :
  coherent w → s ∈ sessions w →
  isCurrentSession (coordinator w) s None = true ↔ currentSession (coordinator w) = Some s.
Proof.
  intros Hw Hin. unfold isCurrentSession, same_session.
  destruct (currentSession (coordinator w)) as [c|] eqn:Hc; [ | done].
  destruct (current_session w Hw c Hc) as (_ & Hg & Hu). split.
  - intros H. bools. f_equal. symmetry. by apply Hu.
  - intros [= ->]. by rewrite Nat.eqb_refl, Hg, Nat.eqb_refl.
Qed.

(** After [currentController?.abort()] every request given out so far is aborted. *)
Lemma all_aborted w r : coherent w → r ∈ requests w → request_signal r ∈ abort_current (coordinator w).
Proof.
  intros Hw Hin. unfold abort_current. rewrite (current_controller w Hw).
  destruct (currentRequest (coordinator w)) as [c|] eqn:Hc; simpl.
  - destruct (current_request w Hw c Hc) as (Hhead & _ & _ & _ & Hu).
    destruct (decide (request_ref r = request_ref c)) as [E|E].
    + rewrite (Hu r Hin E). left.
    + right. apply (others_aborted w Hw r Hin). rewrite Hc. congruence.
  - apply (others_aborted w Hw r Hin). by rewrite Hc.
Qed.

Lemma abort_current_bound w c :
  coherent w → c ∈ abort_current (coordinator w) → c < allocated (coordinator w).
Proof.
  intros Hw. unfold abort_current. rewrite (current_controller w Hw).
  destruct (currentRequest (coordinator w)) as [r|] eqn:Hr; simpl; [ | apply (aborted_bound w Hw)].
  intros [-> | Hc]%elem_of_cons; [ | by apply (aborted_bound w Hw)].
  destruct (current_request w Hw r Hr) as (Hhead & _).
  apply (request_bound w Hw r), head_in, Hhead.
Qed.

Lemma coherent_open w entity : coherent w → coherent (step w (Open entity)).
Proof.
  intros Hw. split; simpl; try done.
  - intros s [-> | Hs]%elem_of_cons; simpl; [lia | ]. pose proof (session_bound w Hw s Hs). lia.
  - intros r Hr. destruct (request_bound w Hw r Hr). lia.
  - intros c Hc. pose proof (abort_current_bound w c Hw Hc). lia.
  - intros c [= <-]. simpl. split_and!; try done.
    intros s [-> | Hs]%elem_of_cons; simpl; [done | ]. pose proof (session_bound w Hw s Hs). lia.
  - intros r Hr _. by apply all_aborted.
Qed.

Lemma coherent_start w i : coherent w → coherent (step w (StartRequest i)).
Proof.
  intros Hw. simpl. destruct (sessions w !! i) as [s|] eqn:Hi; [ | done].
  apply list_elem_of_lookup_2 in Hi. unfold startRequest.
  destruct (isCurrentSession (coordinator w) s None) eqn:Hs; simpl; [ | by destruct w].
  apply (current_session_is w s Hw Hi) in Hs. split; simpl.
  - intros s' Hs'. pose proof (session_bound w Hw s' Hs'). lia.
  - intros r [-> | Hr]%elem_of_cons; simpl; [lia | ]. destruct (request_bound w Hw r Hr). lia.
  - intros c Hc. pose proof (abort_current_bound w c Hw Hc). lia.
  - apply (current_session w Hw).
  - intros c [= <-]. simpl. split_and!; try done.
    + intros Hc. pose proof (abort_current_bound w _ Hw Hc). lia.
    + intros r [-> | Hr]%elem_of_cons; simpl; [done | ]. destruct (request_bound w Hw r Hr). lia.
  - done.
  - intros r [-> | Hr]%elem_of_cons Hne; [done | by apply all_aborted].
Qed.

Lemma coherent_close w i : coherent w → coherent (step w (CloseSession i)).
Proof.
  intros Hw. simpl. destruct (sessions w !! i) as [s|] eqn:Hi; [ | done]. unfold close.
  destruct (isCurrentSession (coordinator w) s None) eqn:Hs; simpl; [ | by destruct w].
  split; simpl; try done.
  - apply (session_bound w Hw).
  - apply (request_bound w Hw).
  - intros c Hc. by apply (abort_current_bound w).
  - intros r Hr _. by apply all_aborted.
Qed.

Lemma coherent_run es : coherent (run es).
Proof.
  unfold run. induction es as [|e es IH] using rev_ind.
  - split; simpl; try done; set_solver.
  - rewrite foldl_app. simpl.
    destruct e; [by apply coherent_open | by apply coherent_start | by apply coherent_close].
Qed.

(** Of all requests a dialog has started, at most one is current: the last one, and
    only while its session is the current one, which is the last one opened; and a
    request is current exactly while its signal is not aborted, so every request the
    dialog no longer waits for has been cancelled. *)
Theorem only_the_last_request_is_current (es : list Event) (r : EntityDialogRequest) :
  r ∈ requests (run es) →
  isCurrentRequest (coordinator (run es)) r =
    negb (bool_decide (request_signal r ∈ aborted (coordinator (run es)))) ∧
  (isCurrentRequest (coordinator (run es)) r = true →
     head (requests (run es)) = Some r ∧
     head (sessions (run es)) = Some (request_session r) ∧
     isCurrentSession (coordinator (run es)) (request_session r) None = true).
Proof.
  intros Hin. pose proof (coherent_run es) as Hw. set (w := run es) in *.
  unfold isCurrentRequest, same_request.
  destruct (currentRequest (coordinator w)) as [c|] eqn:Hc.
  2: { simpl. rewrite bool_decide_true; [done | ]. apply (others_aborted w Hw); [done | by rewrite Hc]. }
  destruct (current_request w Hw c Hc) as (Hh & Hg & Hs & Hlive & Hu).
  destruct (current_session w Hw _ Hs) as (Hhs & _ & _).
  assert (Hcur : isCurrentSession (coordinator w) (request_session c) None = true)
    by (apply current_session_is; [done | by apply head_in | done]).
  destruct (request_ref c =? request_ref r) eqn:E; bools; simpl.
  - rewrite (Hu r Hin (eq_sym E)). rewrite Hg, Nat.eqb_refl, Hcur. simpl. auto.
  - rewrite bool_decide_true; [done | ]. apply (others_aborted w Hw); [done | ]. rewrite Hc. congruence.
Qed.
End coordinator.

Arguments Event : clear implicits.

(** A dialog reopened for another entity while a request is in flight. *)
Definition reopened : list (Event nat) := [Open 7; StartRequest 0; Open 8; StartRequest 1; StartRequest 0].

Lemma only_the_last_request_is_current_witness :
  ∃ r, head (requests (run reopened)) = Some r ∧ session_entity (request_session r) = 8 ∧
    isCurrentRequest (coordinator (run reopened)) r =
      negb (bool_decide (request_signal r ∈ aborted (coordinator (run reopened)))) ∧
    (isCurrentRequest (coordinator (run reopened)) r = true →
       head (requests (run reopened)) = Some r ∧
       head (sessions (run reopened)) = Some (request_session r) ∧
       isCurrentSession (coordinator (run reopened)) (request_session r) None = true).
Proof.
  eexists. split; [vm_compute; reflexivity | ]. split; [vm_compute; reflexivity | ].
  apply (only_the_last_request_is_current reopened). vm_compute. left.
Defined.
