(* ===== verification/AdminPermissions.v ===== *)
(** * Administrator permissions

    [lib/admin-permissions.ts]: the question the components ask about the signed-in
    user, and the full matrix the permission editor works on.  A matrix is a map from
    resources to maps from actions to booleans; the catalog comes from the server. *)

From stdpp Require Import base numbers strings option gmap list.
From Stdlib Require Import SpecFloat ZArith Lia.
From S2P Require Import Prelude JsNumber Json AuthStore.

Definition SUPER_ADMIN : number := num_of_Z 100.
Definition ADMIN_ROLE_KEY : ustring := js "admin".

Abbreviation AdminPermissionMatrix := (gmap ustring (gmap ustring bool)).

Record PermissionResourceDef := { resource : ustring; actions : list ustring }.

Record PermissionRoleDef := { role_key : ustring; grants : AdminPermissionMatrix }.

Record PermissionCatalog := {
  catalog_resources : list PermissionResourceDef;
  catalog_roles : list PermissionRoleDef
}.

Definition hasPermission (user : option AuthUser) (resource action : ustring) : bool :=
  match user with
  | None => false
  | Some u =>
      if num_eqb (role u) SUPER_ADMIN then true
      else isTrue (matrix ← prop (prop (Some (user_value u)) "permissions") "admin_permissions";
                   row ← get matrix resource; get row action)
  end.

Definition roleGrants (catalog : PermissionCatalog) (roleKey : ustring) : AdminPermissionMatrix :=
  match list_find (fun r => role_key r = roleKey) (catalog_roles catalog) with
  | Some (_, r) => grants r
  | None => ∅
  end.

(** [matrix\[r\]?.\[a\]]. *)
Definition cell (matrix : AdminPermissionMatrix) (r a : ustring) : option bool :=
  row ← matrix !! r; row !! a.

(** The value of one cell: the user's own, else the baseline's, else [false]. *)
Definition normalized_cell (value : option AdminPermissionMatrix) (baseline : AdminPermissionMatrix)
    (r a : ustring) : bool :=
  match (m ← value; cell m r a) with
  | Some b => b
  | None => default false (cell baseline r a)
  end.

Definition normalized_row (value : option AdminPermissionMatrix) (baseline : AdminPermissionMatrix)
    (r : PermissionResourceDef) : gmap ustring bool :=
  foldl (fun row a => <[a := normalized_cell value baseline (resource r) a]> row) ∅ (actions r).

Definition normalizeAdminPermissions (value : option AdminPermissionMatrix)
    (catalog : PermissionCatalog) : AdminPermissionMatrix :=
  let baseline := roleGrants catalog ADMIN_ROLE_KEY in
  foldl (fun normalized r => <[resource r := normalized_row value baseline r]> normalized) ∅
    (catalog_resources catalog).

(** ** Lemmas *)

(** A loop that assigns [f x] to the key of each element: the last one wins. *)
Lemma foldl_insert_lookup {A B} (key : A → ustring) (f : A → B) (l : list A) (m : gmap ustring B) k :
  foldl (fun m x => <[key x := f x]> m) m l !! k =
    match last (filter (fun x => key x = k) l) with
    | Some x => Some (f x)
    | None => m !! k
    end.
Proof.
  induction l as [|x l IH] using rev_ind; [done | ]. rewrite foldl_app. simpl.
  rewrite filter_app. destruct (decide (key x = k)) as [<- | Hne].
  - rewrite lookup_insert_eq. rewrite filter_cons_True by done. by rewrite filter_nil, last_snoc.
  - rewrite lookup_insert_ne by done. rewrite filter_cons_False by done. by rewrite filter_nil, app_nil_r.
Qed.

(** The definition of a resource that counts: the last of its name. *)
Definition resource_def (catalog : PermissionCatalog) (r : ustring) : option PermissionResourceDef :=
  last (filter (fun d => resource d = r) (catalog_resources catalog)).

Lemma last_filter_in {A} (P : A → Prop) `{∀ x, Decision (P x)} (l : list A) x :
  last (filter P l) = Some x → P x ∧ x ∈ l.
Proof. intros Hx%last_Some_elem_of. by rewrite list_elem_of_filter in Hx. Qed.

Lemma normalized_row_lookup value baseline d a :
  normalized_row value baseline d !! a =
    if bool_decide (a ∈ actions d) then Some (normalized_cell value baseline (resource d) a) else None.
Proof.
  unfold normalized_row. rewrite (foldl_insert_lookup (fun a => a)).
  destruct (last (filter (fun x => x = a) (actions d))) as [x|] eqn:E.
  - apply last_filter_in in E as [-> Hin]. by rewrite bool_decide_true.
  - apply last_None in E. rewrite bool_decide_false; [done | ]. intros Hin.
    assert (Ha : a ∈ filter (fun x => x = a) (actions d)) by (by apply list_elem_of_filter).
    rewrite E in Ha. by apply not_elem_of_nil in Ha.
Qed.

Lemma normalized_lookup value catalog r :
  normalizeAdminPermissions value catalog !! r =
    normalized_row value (roleGrants catalog ADMIN_ROLE_KEY) <$> resource_def catalog r.
Proof.
  unfold normalizeAdminPermissions, resource_def. rewrite foldl_insert_lookup.
  by destruct (last _).
Qed.

(** Every cell of the result. *)
Lemma normalized_cells value catalog r a :
  cell (normalizeAdminPermissions value catalog) r a =
    d ← resource_def catalog r;
    if bool_decide (a ∈ actions d)
    then Some (normalized_cell value (roleGrants catalog ADMIN_ROLE_KEY) r a) else None.
Proof.
  unfold cell. rewrite normalized_lookup.
  destruct (resource_def catalog r) as [d|] eqn:E; simpl; [ | done].
  rewrite normalized_row_lookup. apply last_filter_in in E as [-> _]. done.
Qed.

Lemma normalized_row_ext value value' baseline d :
  (∀ a, a ∈ actions d →
     normalized_cell value baseline (resource d) a = normalized_cell value' baseline (resource d) a) →
  normalized_row value baseline d = normalized_row value' baseline d.
Proof.
  intros Hext. apply map_eq. intros a. rewrite !normalized_row_lookup.
  case_bool_decide; [by rewrite Hext | done].
Qed.

(** The matrix the permission editor shows has exactly the cells of the catalog; a
    cell is the user's own value when there is one and the administrator baseline
    otherwise, so a permission is shown as granted only when it was granted explicitly
    or comes from the baseline and was not denied; and normalising again changes nothing. *)
Theorem permission_matrix_is_complete (value : option AdminPermissionMatrix)
    (catalog : PermissionCatalog) :
  let normalized := normalizeAdminPermissions value catalog in
  let baseline := roleGrants catalog (js "admin") in
  (∀ r a, is_Some (cell normalized r a) ↔
     ∃ d, resource_def catalog r = Some d ∧ a ∈ actions d) ∧
  (∀ r a, cell normalized r a = Some true →
     (m ← value; cell m r a) = Some true ∨
     ((m ← value; cell m r a) = None ∧ cell baseline r a = Some true)) ∧
  (∀ r a b, (m ← value; cell m r a) = Some b → is_Some (cell normalized r a) →
     cell normalized r a = Some b) ∧
  normalizeAdminPermissions (Some normalized) catalog = normalized.
Proof.
  intros normalized baseline. split_and!.
  - intros r a. unfold normalized. rewrite normalized_cells.
    destruct (resource_def catalog r) as [d|]; simpl; [ | split; [by intros [] | by intros (? & ? & _)]].
    case_bool_decide; split; eauto; [by intros [] | by intros (d' & [= <-] & ?)].
  - intros r a. unfold normalized. rewrite normalized_cells.
    destruct (resource_def catalog r) as [d|]; simpl; [ | done].
    case_bool_decide; [ | done]. intros [= Hc]. unfold normalized_cell in Hc.
    destruct (m ← value; cell m r a) as [b|]; [left; by subst | right].
    destruct (cell (roleGrants catalog ADMIN_ROLE_KEY) r a) as [[]|] eqn:E; done.
  - intros r a b Hb. unfold normalized. rewrite normalized_cells.
    destruct (resource_def catalog r) as [d|]; simpl; [ | by intros []].
    case_bool_decide; [ | by intros []]. intros _. f_equal. unfold normalized_cell. by rewrite Hb.
  - apply map_eq. intros r. unfold normalized. rewrite !normalized_lookup.
    destruct (resource_def catalog r) as [d|] eqn:E; simpl; [ | done]. f_equal.
    apply normalized_row_ext. intros a Ha. pose proof (last_filter_in _ _ _ E) as [Hr _].
    unfold normalized_cell at 1. simpl. rewrite normalized_cells, Hr, E. simpl.
    by rewrite bool_decide_true.
Qed.

(** ** A sample catalog *)

Definition sample_catalog : PermissionCatalog :=
  {| catalog_resources := [{| resource := js "channel"; actions := [js "read"; js "write"; js "secret_view"] |}];
     catalog_roles := [{| role_key := js "admin";
                          grants := {[ js "channel" := {[ js "read" := true; js "write" := true ]} ]} |}] |}.

Example denied_cell_stays_denied :
  normalizeAdminPermissions (Some {[ js "channel" := {[ js "write" := false ]} ]}) sample_catalog =
  {[ js "channel" := {[ js "read" := true; js "write" := false; js "secret_view" := false ]} ]}.
Proof. vm_compute. reflexivity. Qed.
