(* ===== verification/NumberText.v ===== *)
(** * Numbers as text

    [String(n)] as the language defines it: the shortest decimal digits that read back
    as the number, laid out with or without an exponent by its size.  The digits are
    found by trying one to seventeen of them, and each attempt is checked by reading it. *)

From stdpp Require Import base numbers strings sets list.
From Stdlib Require Import SpecFloat ZArith Lia.
From S2P Require Import Prelude JsNumber Json ExprSyntax ExprTokenizer.

Definition zeros (n : Z) : ustring := replicate (Z.to_nat n) (chr "0").

(** The layout of the digits [ds] of the value [0.ds * 10^n]. *)
Definition layout (ds : ustring) (n : Z) : ustring :=
  let k := Z.of_nat (length ds) in
  if (k <=? n)%Z && (n <=? 21)%Z then ds ++ zeros (n - k)
  else if (0 <? n)%Z && (n <=? 21)%Z then take (Z.to_nat n) ds ++ chr "." :: drop (Z.to_nat n) ds
  else if (-6 <? n)%Z && (n <=? 0)%Z then chr "0" :: chr "." :: zeros (- n) ++ ds
  else
    let e := (n - 1)%Z in
    let exponent := chr "e" :: (if (e <? 0)%Z then chr "-" else chr "+") :: show_Z (Z.abs e) in
    match ds with
    | [d] => d :: exponent
    | d :: rest => d :: chr "." :: rest ++ exponent
    | [] => exponent
    end.

(** [m * 2^e] as a fraction. *)
Definition fraction (m : positive) (e : Z) : Z * Z :=
  if (0 <=? e)%Z then (Z.shiftl (Zpos m) e, 1%Z) else (Zpos m, Z.shiftl 1 (- e)).

(** [floor (a / b / 10^j)]. *)
Definition scaled_floor (a b j : Z) : Z :=
  if (0 <=? j)%Z then (a / (b * 10 ^ j))%Z else (a * 10 ^ (- j) / b)%Z.

(** The number [n] with [10^(n-1) <= a/b < 10^n], from an estimate by the binary logarithm. *)
Definition decimal_point (a b : Z) (log2 : Z) : Z :=
  let n := (log2 * 30103 / 100000)%Z in
  if (1 <=? scaled_floor a b (n + 1))%Z then (n + 2)%Z
  else if (1 <=? scaled_floor a b n)%Z then (n + 1)%Z
  else n.

(** The digits [ds] stand for the number at the point [n]. *)
Definition stands_for (x : number) (ds : ustring) (n : Z) : bool :=
  truthy ds && forallb is_digit ds &&
  bool_decide (num_of_decimal (digits_value ds) (n - Z.of_nat (length ds)) = x).

(** The attempts with [k] digits: the two decimals around the number, nearest first. *)
Definition attempts (a b n k : Z) : list (ustring * Z) :=
  let j := (n - k)%Z in
  let s := scaled_floor a b j in
  let twice := scaled_floor (2 * a) b j in
  let up := if (s + 1 =? 10 ^ k)%Z then (js "1", n + 1)%Z else (show_Z (s + 1), n) in
  let down := (show_Z s, n) in
  if (2 * s + 1 <=? twice)%Z then [up; down] else [down; up].

Definition shortest (m : positive) (e : Z) : option (ustring * Z) :=
  let '(a, b) := fraction m e in
  let n := decimal_point a b (Z.log2 (Zpos m) + e) in
  head (filter (fun c => stands_for (S754_finite false m e) c.1 c.2 = true)
          (k ← seqZ 1 17; attempts a b n k)).

Definition Number_toString (x : number) : ustring :=
  match x with
  | S754_nan => js "NaN"
  | S754_infinity s => if s then js "-Infinity" else js "Infinity"
  | S754_zero _ => js "0"
  | S754_finite s m e =>
      (if s then [chr "-"] else []) ++
      match shortest m e with Some (ds, n) => layout ds n | None => [] end
  end.

Example text_integer : Number_toString (num_of_Z 2000) = js "2000".
Proof. vm_compute. reflexivity. Qed.
Example text_tenth : Number_toString (Number (js "0.1")) = js "0.1".
Proof. vm_compute. reflexivity. Qed.
Example text_sum : Number_toString (num_add (Number (js "0.1")) (Number (js "0.2"))) = js "0.30000000000000004".
Proof. vm_compute. reflexivity. Qed.
Example text_third : Number_toString (num_div one (num_of_Z 3)) = js "0.3333333333333333".
Proof. vm_compute. reflexivity. Qed.
Example text_small : Number_toString (Number (js "0.00000125")) = js "0.00000125".
Proof. vm_compute. reflexivity. Qed.
Example text_smaller : Number_toString (Number (js "0.000000125")) = js "1.25e-7".
Proof. vm_compute. reflexivity. Qed.
Example text_large : Number_toString (Number (js "1e23")) = js "1e+23".
Proof. vm_compute. reflexivity. Qed.
Example text_point : Number_toString (Number (js "12.5")) = js "12.5".
Proof. vm_compute. reflexivity. Qed.
Example text_least : Number_toString (S754_finite false 1 (-1074)) = js "5e-324".
Proof. vm_compute. reflexivity. Qed.
Example text_greatest : Number_toString (S754_finite false 9007199254740991 971) = js "1.7976931348623157e+308".
Proof. vm_compute. reflexivity. Qed.

(** ** Decimal digits *)

Lemma digits_value_snoc s c : digits_value (s ++ [c]) = (digits_value s * 10 + (c - chr "0"))%Z.
Proof. unfold digits_value. by rewrite fold_left_app. Qed.

Lemma digits_value_app a b :
  digits_value (a ++ b) = (digits_value a * 10 ^ Z.of_nat (length b) + digits_value b)%Z.
Proof.
  induction b as [|c b IH] using rev_ind; [rewrite app_nil_r; simpl; unfold digits_value; simpl; lia | ].
  rewrite app_assoc, !digits_value_snoc, IH, length_app. simpl length.
  rewrite Nat2Z.inj_add, Z.pow_add_r by lia. change (10 ^ Z.of_nat 1)%Z with 10%Z. lia.
Qed.

Lemma digits_value_zeros n : digits_value (zeros n) = 0%Z.
Proof.
  unfold zeros. induction (Z.to_nat n) as [|k IH]; [done | ].
  change (replicate (S k) (chr "0")) with ([chr "0"] ++ replicate k (chr "0")).
  rewrite digits_value_app, IH. done.
Qed.

Lemma zeros_digits n : all_digits (zeros n).
Proof. unfold zeros, all_digits. induction (Z.to_nat n); constructor; done. Qed.

Lemma zeros_length n : (0 ≤ n)%Z → Z.of_nat (length (zeros n)) = n.
Proof. intros Hn. unfold zeros. rewrite length_replicate. lia. Qed.

Lemma digit_of n : is_digit (chr "0" + n mod 10)%Z = true.
Proof.
  pose proof (Z.mod_pos_bound n 10 ltac:(lia)). unfold is_digit. chr_norm.
  apply andb_true_iff. rewrite !Z.leb_le. lia.
Qed.

Lemma dec_digits_spec fuel : ∀ n acc, (0 ≤ n < 2 ^ Z.of_nat fuel)%Z → 0 < fuel →
  ∃ ds, dec_digits fuel n acc = ds ++ acc ∧ ds ≠ [] ∧ all_digits ds ∧ digits_value ds = n.
Proof.
  induction fuel as [|f IH]; intros n acc Hn Hf; [lia | ]. cbn [dec_digits].
  pose proof (digit_of n) as Hd. pose proof (Z.div_mod n 10 ltac:(lia)) as Hdm.
  pose proof (Z.mod_pos_bound n 10 ltac:(lia)) as Hmod.
  destruct (n / 10 =? 0)%Z eqn:E; bools.
  - exists [(chr "0" + n mod 10)%Z]. split_and!; [done | done | by repeat constructor | ].
    unfold digits_value. simpl. lia.
  - assert (0 ≤ n / 10)%Z by (apply Z.div_pos; lia).
    assert (n / 10 < 2 ^ Z.of_nat f)%Z.
    { rewrite Nat2Z.inj_succ, Z.pow_succ_r in Hn by lia. lia. }
    destruct (IH (n / 10)%Z ((chr "0" + n mod 10)%Z :: acc)) as (ds & -> & Hne & Hds & Hv); [lia | | ].
    { destruct f; [simpl in *; lia | lia]. }
    exists (ds ++ [(chr "0" + n mod 10)%Z]). split_and!.
    + by rewrite <- app_assoc.
    + by destruct ds.
    + apply Forall_app. split; [done | by repeat constructor].
    + rewrite digits_value_snoc, Hv. lia.
Qed.

Lemma show_Z_spec n : (0 ≤ n)%Z →
  show_Z n ≠ [] ∧ all_digits (show_Z n) ∧ digits_value (show_Z n) = n.
Proof.
  intros Hn. unfold show_Z. rewrite (proj2 (Z.ltb_ge n 0)) by done.
  destruct (dec_digits_spec (S (Z.to_nat (Z.log2 n))) n []) as (ds & -> & ? & ? & ?); [ | lia | ].
  - pose proof (Z.log2_nonneg n). rewrite Nat2Z.inj_succ, Z2Nat.id by lia.
    destruct (decide (n = 0)%Z) as [-> | ]; [done | ].
    pose proof (Z.log2_spec n ltac:(lia)). lia.
  - by rewrite app_nil_r.
Qed.

(** ** Reading a layout *)

(** The value of a mantissa without and with a point, and an exponent. *)
Definition mantissa_value (mant : ustring) (e : Z) : number :=
  let int := take_while is_digit mant in
  let frac := drop (S (length int)) mant in
  num_of_decimal (digits_value (int ++ frac)) (e - Z.of_nat (length frac)).

Lemma take_while_all {A} (p : A → bool) l : Forall (fun x => p x = true) l → take_while p l = l.
Proof. induction 1 as [|x l Hx _ IH]; simpl; [done | by rewrite Hx, IH]. Qed.

Lemma mantissa_value_int a e : all_digits a → mantissa_value a e = num_of_decimal (digits_value a) e.
Proof.
  intros Ha. unfold mantissa_value. rewrite take_while_all, drop_ge, app_nil_r by (done || lia).
  simpl. by rewrite Z.sub_0_r.
Qed.

Lemma mantissa_value_point a b e :
  all_digits a →
  mantissa_value (a ++ chr "." :: b) e =
    num_of_decimal (digits_value (a ++ b)) (e - Z.of_nat (length b)).
Proof.
  intros Ha. unfold mantissa_value. rewrite take_while_stop by done.
  replace (drop (S (length a)) (a ++ chr "." :: b)) with b; [done | ].
  rewrite (cons_middle (chr ".")), app_assoc, drop_app_length'; [done | ]. rewrite length_app. simpl. lia.
Qed.

(** Code units of a mantissa are not the letter of an exponent. *)
Definition no_letter (s : ustring) : Prop :=
  Forall (fun c => negb ((c =? chr "e")%Z || (c =? chr "E")%Z) = true) s.

Lemma digits_no_letter s : all_digits s → no_letter s.
Proof.
  intros Hs. eapply Forall_impl; [exact Hs | ]. intros c Hc. apply negb_true_iff, orb_false_iff.
  unfold is_digit in Hc. chr_norm. bools. rewrite !Z.eqb_neq. lia.
Qed.

Lemma point_no_letter a b : all_digits a → all_digits b → no_letter (a ++ chr "." :: b).
Proof.
  intros Ha Hb. apply Forall_app. split; [by apply digits_no_letter | ].
  constructor; [done | by apply digits_no_letter].
Qed.

Lemma Number_no_exponent s : no_letter s → Number s = mantissa_value s 0.
Proof.
  intros Hs. unfold Number, split_exponent. rewrite take_while_all by done.
  by rewrite drop_ge by lia.
Qed.

Lemma Number_exponent s (neg : bool) ds :
  no_letter s →
  Number (s ++ chr "e" :: (if neg then chr "-" else chr "+") :: ds) =
    mantissa_value s (if neg then - digits_value ds else digits_value ds)%Z.
Proof.
  intros Hs. unfold Number, split_exponent. rewrite take_while_stop by done.
  rewrite drop_app_length. by destruct neg.
Qed.

Lemma decimal_shift m z : (0 < m)%Z → (0 ≤ z)%Z → num_of_decimal (m * 10 ^ z) 0 = num_of_decimal m z.
Proof.
  intros Hm Hz. assert (0 < m * 10 ^ z)%Z by (apply Z.mul_pos_pos; [done | apply Z.pow_pos_nonneg; lia]).
  unfold num_of_decimal. destruct m as [|m|m]; try lia.
  destruct (Z.pos m * 10 ^ z)%Z eqn:E; try lia.
  rewrite (proj2 (Z.leb_le 0 z)) by done. simpl (0 <=? 0)%Z. rewrite <- E. by rewrite Z.mul_1_r.
Qed.

Lemma all_digits_app a b : all_digits a → all_digits b → all_digits (a ++ b).
Proof. intros Ha Hb. by apply Forall_app. Qed.

Lemma all_digits_take k s : all_digits s → all_digits (take k s).
Proof. apply Forall_take. Qed.

Lemma all_digits_drop k s : all_digits s → all_digits (drop k s).
Proof. apply Forall_drop. Qed.

(** The layout reads back as the value of its digits. *)
Lemma layout_reads ds n :
  ds ≠ [] → all_digits ds → (0 < digits_value ds)%Z →
  Number (layout ds n) = num_of_decimal (digits_value ds) (n - Z.of_nat (length ds)).
Proof.
  intros Hne Hds Hpos. unfold layout. set (k := Z.of_nat (length ds)).
  destruct ((k <=? n)%Z && (n <=? 21)%Z) eqn:E1.
  { bools. assert (Hall : all_digits (ds ++ zeros (n - k))) by (auto using all_digits_app, zeros_digits).
    rewrite Number_no_exponent, mantissa_value_int by auto using digits_no_letter.
    rewrite digits_value_app, digits_value_zeros, Z.add_0_r, zeros_length by lia.
    apply decimal_shift; lia. }
  destruct ((0 <? n)%Z && (n <=? 21)%Z) eqn:E2.
  { bools. rewrite Number_no_exponent
      by auto using point_no_letter, all_digits_take, all_digits_drop.
    rewrite mantissa_value_point by auto using all_digits_take.
    rewrite take_drop. f_equal. rewrite length_drop. subst k.
    apply andb_false_iff in E1 as [E1 | E1]; bools; lia. }
  destruct ((-6 <? n)%Z && (n <=? 0)%Z) eqn:E3.
  { bools. change (chr "0" :: chr "." :: zeros (- n) ++ ds) with ([chr "0"] ++ chr "." :: (zeros (- n) ++ ds)).
    assert (Hz : all_digits (zeros (- n) ++ ds)) by (auto using all_digits_app, zeros_digits).
    assert (Hzero : all_digits [chr "0"]) by (by repeat constructor).
    rewrite Number_no_exponent, mantissa_value_point by auto using point_no_letter.
    rewrite digits_value_app. replace (digits_value [chr "0"]) with 0%Z by done.
    rewrite digits_value_app, digits_value_zeros, length_app, Nat2Z.inj_add, zeros_length by lia.
    f_equal; lia. }
  assert (He : (if (n - 1 <? 0)%Z then - digits_value (show_Z (Z.abs (n - 1)))
                else digits_value (show_Z (Z.abs (n - 1))))%Z = (n - 1)%Z).
  { destruct (show_Z_spec (Z.abs (n - 1)) ltac:(lia)) as (_ & _ & ->).
    destruct (n - 1 <? 0)%Z eqn:E; bools; lia. }
  destruct ds as [|d [|d' rest]]; [done | | ].
  - change (d :: chr "e" :: ?x) with ([d] ++ chr "e" :: x).
    rewrite Number_exponent, He, mantissa_value_int by auto using digits_no_letter.
    f_equal; subst k; simpl; lia.
  - set (rest' := d' :: rest) in *. apply Forall_cons in Hds as [Hd Hrest].
    assert (H1 : all_digits [d]) by (by repeat constructor).
    change (d :: chr "." :: rest' ++ chr "e" :: ?x) with (([d] ++ chr "." :: rest') ++ chr "e" :: x).
    rewrite Number_exponent, He, mantissa_value_point by auto using point_no_letter.
    f_equal; subst k; simpl; lia.
Qed.

(** The layout is a literal of the language of billing expressions. *)
Lemma layout_literal ds n : ds ≠ [] → all_digits ds → number_literal (layout ds n).
Proof.
  intros Hne Hds. unfold layout. set (k := Z.of_nat (length ds)).
  destruct ((k <=? n)%Z && (n <=? 21)%Z) eqn:E1.
  { exists (ds ++ zeros (n - k)), []. rewrite app_nil_r. split_and!; [done | | constructor].
    apply man_int; [by destruct ds | ]. auto using all_digits_app, zeros_digits. }
  destruct ((0 <? n)%Z && (n <=? 21)%Z) eqn:E2.
  { bools. eexists _, []. rewrite app_nil_r. split_and!; [done | | constructor].
    apply man_frac; auto using all_digits_take, all_digits_drop.
    destruct (Z.to_nat n) eqn:En; [lia | ]. by destruct ds. }
  destruct ((-6 <? n)%Z && (n <=? 0)%Z) eqn:E3.
  { eexists _, []. rewrite app_nil_r. split_and!; [done | | constructor].
    apply (man_frac [chr "0"]); [done | by repeat constructor | ].
    auto using all_digits_app, zeros_digits. }
  destruct (show_Z_spec (Z.abs (n - 1)) ltac:(lia)) as (Hne' & Hds' & _).
  assert (Hexp : exponent (chr "e" :: (if (n - 1 <? 0)%Z then chr "-" else chr "+") :: show_Z (Z.abs (n - 1)))).
  { apply (exp_some (chr "e") [if (n - 1 <? 0)%Z then chr "-" else chr "+"]); auto.
    destruct (n - 1 <? 0)%Z; set_solver. }
  destruct ds as [|d [|d' rest]]; [done | | ]; apply Forall_cons in Hds as [Hd Hrest].
  - exists [d]. eexists. split_and!; [done | | exact Hexp]. apply man_int; [done | by repeat constructor].
  - exists ([d] ++ chr "." :: d' :: rest). eexists. split_and!; [done | | exact Hexp].
    apply man_frac; [done | by repeat constructor | done].
Qed.

Lemma digits_of_forallb s : forallb is_digit s = true → all_digits s.
Proof. rewrite forallb_forall. intros H. apply Forall_forall. intros c Hc. by apply H, list_elem_of_In. Qed.

(** A number that is written without a sign and whose text has been found. *)
Definition has_text (x : number) : bool :=
  match x with
  | S754_zero s => negb s
  | S754_finite false m e => match shortest m e with Some _ => true | None => false end
  | _ => false
  end.

Lemma shortest_stands_for m e ds n :
  shortest m e = Some (ds, n) → stands_for (S754_finite false m e) ds n = true.
Proof.
  unfold shortest. destruct (fraction m e) as [a b]. intros H.
  set (l := filter _ _) in H. assert (Hin : (ds, n) ∈ l) by (destruct l; [done | injection H as ->; left]).
  unfold l in Hin. by apply list_elem_of_filter in Hin as [? _].
Qed.

Lemma Number_toString_literal x : has_text x = true → number_literal (Number_toString x).
Proof.
  destruct x as [[] | | | [] m e]; try done; simpl; intros H.
  - exists (js "0"), []. split_and!; [done | | constructor]. apply man_int; [done | by repeat constructor].
  - destruct (shortest m e) as [[ds n]|] eqn:E; [ | done]. apply shortest_stands_for in E.
    unfold stands_for in E. bools. apply layout_literal; [by destruct ds | ].
    by apply digits_of_forallb.
Qed.

(** [Number(String(x)) === x]. *)
Lemma Number_toString_reads x : has_text x = true → Number (Number_toString x) = x.
Proof.
  destruct x as [[] | | | [] m e]; try done; simpl; intros H.
  destruct (shortest m e) as [[ds n]|] eqn:E; [ | done]. apply shortest_stands_for in E.
  unfold stands_for in E. bools. simpl.
  assert (Hall : all_digits ds) by (by apply digits_of_forallb).
  assert (Hne : ds ≠ []) by (by destruct ds).
  assert (Hpos : (0 < digits_value ds)%Z).
  { destruct (digits_value ds) eqn:Ev; [done | lia | done]. }
  by rewrite layout_reads.
Qed.
