(* ===== verification/NumberExact.v ===== *)
(** * Whole numbers are exact

    Sums of whole numbers below 2^53 are computed without rounding, so counts that are added
    up in any order give the same number. *)

From Stdlib Require Import SpecFloat ZArith Lia.
From stdpp Require Import base numbers list.
From S2P Require Import Prelude JsNumber.

Local Open Scope Z_scope.

Definition exact_limit : Z := 2 ^ 53.

Lemma digits2_log2 m : Z.pos (digits2_pos m) = Z.log2 (Z.pos m) + 1.
Proof.
  induction m as [m IH|m IH|]; [ | | done]; cbn [digits2_pos]; rewrite Pos2Z.inj_succ, IH.
  - rewrite Pos2Z.inj_xI, Z.log2_succ_double by lia. lia.
  - rewrite Pos2Z.inj_xO, Z.log2_double by lia. lia.
Qed.

(** The mantissa and the exponent of a whole number [n] with [0 < n < 2^53]. *)
Definition mantissa (n : Z) : positive := Z.to_pos (n * 2 ^ (52 - Z.log2 n)).
Definition exponent (n : Z) : Z := Z.log2 n - 52.
Definition whole (n : Z) : number := S754_finite false (mantissa n) (exponent n).

Lemma log2_range n : 0 < n < exact_limit → 0 ≤ Z.log2 n ≤ 52.
Proof.
  intros [Hp Hl]. split; [apply Z.log2_nonneg | ].
  assert (Z.log2 n < 53); [ | lia]. apply Z.log2_lt_pow2; [done | exact Hl].
Qed.

Lemma iter_shr (p : positive) : ∀ x, 0 < x →
  SpecFloat.iter_pos shr_1 p {| shr_m := x * 2 ^ Z.pos p; shr_r := false; shr_s := false |}
  = {| shr_m := x; shr_r := false; shr_s := false |}.
Proof.
  assert (Hone : ∀ y, 0 < y → shr_1 {| shr_m := y * 2; shr_r := false; shr_s := false |}
                              = {| shr_m := y; shr_r := false; shr_s := false |}).
  { intros y Hy. destruct y as [|q|q]; [lia | | lia]. rewrite Z.mul_comm. done. }
  induction p as [p IH|p IH|]; intros x Hx; cbn [SpecFloat.iter_pos].
  - replace (x * 2 ^ Z.pos p~1) with (x * 2 ^ Z.pos p * 2 ^ Z.pos p * 2)
      by (replace (Z.pos p~1) with (Z.pos p + Z.pos p + 1) by lia; rewrite !Z.pow_add_r by lia; lia).
    rewrite Hone by (apply Z.mul_pos_pos; [apply Z.mul_pos_pos | ]; lia). rewrite IH by lia. by apply IH.
  - replace (x * 2 ^ Z.pos p~0) with (x * 2 ^ Z.pos p * 2 ^ Z.pos p)
      by (replace (Z.pos p~0) with (Z.pos p + Z.pos p) by lia; rewrite !Z.pow_add_r by lia; lia).
    rewrite IH by lia. by apply IH.
  - rewrite Z.pow_1_r. by apply Hone.
Qed.

Lemma iter_xO m d : Z.pos (Pos.iter xO m d) = Z.pos m * 2 ^ Z.pos d.
Proof.
  induction d as [|d IH] using Pos.peano_ind; [simpl; lia | ].
  rewrite Pos.iter_succ, Pos2Z.inj_xO, IH, Pos2Z.inj_succ, Z.pow_succ_r by lia. lia.
Qed.

(** A multiple of a power of two is rounded to the whole number it stands for. *)
Lemma binary_round_exact n m k :
  0 < n < exact_limit → 0 ≤ k → Z.pos m = n * 2 ^ k → binary_round prec emax false m (- k) = whole n.
Proof.
  intros Hn Hk Hm. pose proof (log2_range n Hn) as Hd. set (d := Z.log2 n) in *.
  assert (Hlog : Z.log2 (Z.pos m) = d + k) by (rewrite Hm, Z.log2_mul_pow2 by lia; unfold d; lia).
  assert (Hfexp : ∀ x, x = d + 1 → fexp prec emax x = exponent n).
  { intros x ->. unfold fexp, exponent, emin, prec, emax. fold d. lia. }
  assert (Hmant : Z.pos (mantissa n) = n * 2 ^ (52 - d)).
  { unfold mantissa. fold d. rewrite Z2Pos.id; [done | ]. apply Z.mul_pos_pos; lia. }
  assert (Hmlog : Z.log2 (Z.pos (mantissa n)) = 52).
  { rewrite Hmant, Z.log2_mul_pow2 by lia. fold d. lia. }
  assert (Hfin : (exponent n <=? emax - prec) = true).
  { apply Z.leb_le. unfold exponent, emax, prec. fold d. lia. }
  (* Rounding the mantissa itself changes nothing. *)
  assert (Hstay : shr_fexp prec emax (Z.pos (mantissa n)) (exponent n) loc_Exact
    = ({| shr_m := Z.pos (mantissa n); shr_r := false; shr_s := false |}, exponent n)).
  { unfold shr_fexp. cbn [Zdigits2]. rewrite digits2_log2, Hmlog, Hfexp by (unfold exponent; fold d; lia).
    rewrite Z.sub_diag. done. }
  unfold binary_round. rewrite digits2_log2, Hlog, Hfexp by lia. unfold shl_align.
  destruct (exponent n - - k) as [|q|q] eqn:Eq.
  - assert (m = mantissa n) as -> by (apply Pos2Z.inj; rewrite Hm, Hmant; f_equal; f_equal; unfold exponent in Eq; fold d in Eq; lia).
    replace (- k) with (exponent n) by lia. unfold binary_round_aux. rewrite Hstay. cbn [shr_m loc_of_shr_record round_nearest_even].
    rewrite Hstay. cbn [shr_m]. by rewrite Hfin.
  - unfold binary_round_aux, shr_fexp at 1. cbn [Zdigits2 shr_record_of_loc]. rewrite digits2_log2, Hlog, Hfexp by lia.
    rewrite Eq. unfold shr. assert (Hmq : Z.pos m = Z.pos (mantissa n) * 2 ^ Z.pos q).
    { rewrite Hm, Hmant, <- Z.mul_assoc, <- Z.pow_add_r by lia. do 2 f_equal. unfold exponent in Eq; fold d in Eq; lia. }
    rewrite Hmq, iter_shr by lia. cbn [shr_m loc_of_shr_record round_nearest_even].
    replace (- k + Z.pos q) with (exponent n) by lia. rewrite Hstay. cbn [shr_m]. by rewrite Hfin.
  - assert (Hz : Z.pos (Pos.iter xO m q) = Z.pos (mantissa n)).
    { rewrite iter_xO, Hm, Hmant, <- Z.mul_assoc, <- Z.pow_add_r by lia. do 2 f_equal. unfold exponent in Eq; fold d in Eq; lia. }
    apply (inj Z.pos) in Hz. rewrite Hz. unfold binary_round_aux. rewrite Hstay.
    cbn [shr_m loc_of_shr_record round_nearest_even]. rewrite Hstay. cbn [shr_m]. by rewrite Hfin.
Qed.

Lemma num_of_Z_whole n : 0 < n < exact_limit → num_of_Z n = whole n.
Proof.
  intros Hn. unfold num_of_Z, binary_normalize. destruct n as [|p|p]; [lia | | lia].
  apply (binary_round_exact (Z.pos p) p 0 Hn); lia.
Qed.

Lemma shl_align_whole n e : 0 < n < exact_limit → e ≤ exponent n →
  Z.pos (fst (shl_align (mantissa n) (exponent n) e)) = n * 2 ^ (- e).
Proof.
  intros Hn He. pose proof (log2_range n Hn) as Hd.
  assert (Hmant : Z.pos (mantissa n) = n * 2 ^ (- exponent n)).
  { unfold mantissa, exponent. rewrite Z2Pos.id; [do 2 f_equal; lia | ]. apply Z.mul_pos_pos; lia. }
  unfold shl_align. destruct (e - exponent n) as [|q|q] eqn:E; cbn [fst].
  - rewrite Hmant. do 2 f_equal. lia.
  - lia.
  - rewrite iter_xO, Hmant, <- Z.mul_assoc, <- Z.pow_add_r by (unfold exponent in *; lia). do 2 f_equal. lia.
Qed.

(** Adding whole numbers. *)
Lemma num_add_exact a b : 0 ≤ a → 0 ≤ b → a + b < exact_limit → num_add (num_of_Z a) (num_of_Z b) = num_of_Z (a + b).
Proof.
  intros Ha Hb Hab. destruct (decide (a = 0)) as [->|Ha0].
  { rewrite Z.add_0_l. destruct (decide (b = 0)) as [->|]; [done | ]. by rewrite (num_of_Z_whole b) by lia. }
  destruct (decide (b = 0)) as [->|Hb0]; [rewrite Z.add_0_r; by rewrite (num_of_Z_whole a) by lia | ].
  rewrite !num_of_Z_whole by lia. unfold num_add, whole, SFadd. cbv zeta. cbn [cond_Zopp].
  set (e := Z.min (exponent a) (exponent b)). rewrite !shl_align_whole by (unfold e; lia).
  rewrite <- Z.mul_add_distr_r. assert (Hpos : 0 < (a + b) * 2 ^ (- e)).
  { apply Z.mul_pos_pos; [lia | ]. apply Z.pow_pos_nonneg; [lia | ]. pose proof (log2_range a). unfold e, exponent. lia. }
  destruct ((a + b) * 2 ^ (- e)) as [|m|m] eqn:E; [lia | | lia]. unfold binary_normalize.
  rewrite <- (Z.opp_involutive e). apply binary_round_exact; [lia | | by rewrite E].
  pose proof (log2_range a). unfold e, exponent. lia.
Qed.

(** Subtracting whole numbers. *)
Lemma num_sub_exact a b : 0 ≤ b ≤ a → a < exact_limit → num_sub (num_of_Z a) (num_of_Z b) = num_of_Z (a - b).
Proof.
  intros Hb Ha. destruct (decide (b = 0)) as [->|Hb0].
  { rewrite Z.sub_0_r. destruct (decide (a = 0)) as [->|]; [done | ]. by rewrite (num_of_Z_whole a) by lia. }
  destruct (decide (a = b)) as [->|Hne].
  { rewrite Z.sub_diag, (num_of_Z_whole b) by lia. unfold num_sub, whole, SFsub. cbv zeta. cbn [negb cond_Zopp]. by rewrite Z.sub_diag. }
  rewrite (num_of_Z_whole a), (num_of_Z_whole b), (num_of_Z_whole (a - b)) by lia. unfold num_sub, whole, SFsub. cbv zeta. cbn [negb cond_Zopp].
  set (e := Z.min (exponent a) (exponent b)). rewrite !shl_align_whole by (unfold e; lia).
  rewrite <- Z.mul_sub_distr_r. assert (Hpow : 0 < 2 ^ (- e)).
  { apply Z.pow_pos_nonneg; [lia | ]. pose proof (log2_range a). unfold e, exponent. lia. }
  assert (Hpos : 0 < (a - b) * 2 ^ (- e)) by (apply Z.mul_pos_pos; lia).
  destruct ((a - b) * 2 ^ (- e)) as [|m|m] eqn:E; [lia | | lia]. unfold binary_normalize.
  rewrite <- (Z.opp_involutive e). apply binary_round_exact; [lia | | by rewrite E].
  pose proof (log2_range a). unfold e, exponent. lia.
Qed.

Lemma num_of_Z_finite n : 0 ≤ n < exact_limit → is_finite (num_of_Z n) = true.
Proof. intros Hn. destruct (decide (n = 0)) as [->|]; [done | ]. by rewrite num_of_Z_whole by lia. Qed.

Lemma num_positive n : 0 < n < exact_limit → num_ltb zero (num_of_Z n) = true.
Proof. intros Hn. by rewrite num_of_Z_whole. Qed.
