(* ===== verification/TierExpr.v ===== *)
(** * The visual editor of tiered prices: from tiers to a billing expression

    The part of [features/pricing/lib/tier-expr.ts] that normalises the tiers of the editor
    and writes them as the text of a billing expression, with the registry of variables
    of [features/pricing/lib/billing-expr.ts] it uses. *)

From stdpp Require Import base numbers strings option sets list.
From Stdlib Require Import SpecFloat ZArith Lia.
From S2P Require Import Prelude JsNumber Json NumberText.

Inductive CacheMode := CACHE_MODE_TIMED | CACHE_MODE_GENERIC.

(** The value of a condition is a number or the text of an input field, or missing. *)
Inductive ConditionValue :=
| ValueNumber (n : number)
| ValueText (s : ustring)
| ValueMissing.

Record TierConditionInput := mkConditionInput {
  condition_var : ustring;
  condition_op : ustring;
  condition_value : ConditionValue
}.

Record VisualTier := {
  label : ustring;
  conditions : list TierConditionInput;
  input_unit_cost : number;
  output_unit_cost : number;
  cache_mode : CacheMode;
  cache_read_unit_cost : option number;
  cache_create_unit_cost : option number;
  cache_create_1h_unit_cost : option number;
  image_unit_cost : option number;
  image_output_unit_cost : option number;
  audio_input_unit_cost : option number;
  audio_output_unit_cost : option number
}.

(** [Partial<VisualTier>]: every property may be missing. *)
Record PartialTier := {
  partial_label : option ustring;
  partial_conditions : option (list TierConditionInput);
  partial_input : option number;
  partial_output : option number;
  partial_mode : option CacheMode;
  partial_cache_read : option number;
  partial_cache_create : option number;
  partial_cache_create_1h : option number;
  partial_image : option number;
  partial_image_output : option number;
  partial_audio_input : option number;
  partial_audio_output : option number
}.

Abbreviation VisualConfig := (list VisualTier).

(** [Number(x) || 0] on a number that may be missing. *)
Definition cost_or_zero (x : option number) : number :=
  match x with
  | Some n => if num_eqb n zero || is_nan n then zero else n
  | None => zero
  end.

Definition getTierCacheMode (tier : PartialTier) : CacheMode :=
  match partial_mode tier with
  | Some m => m
  | None =>
      match partial_cache_create_1h tier with
      | Some n => if num_ltb zero n then CACHE_MODE_TIMED else CACHE_MODE_GENERIC
      | None => CACHE_MODE_GENERIC
      end
  end.

(** The spread of the tier keeps its own input and output cost as they are. *)
Definition normalizeVisualTier (tier : PartialTier) : VisualTier :=
  {| label := default [] (partial_label tier);
     conditions := default [] (partial_conditions tier);
     input_unit_cost := default zero (partial_input tier);
     output_unit_cost := default zero (partial_output tier);
     cache_mode := getTierCacheMode tier;
     cache_read_unit_cost := Some (cost_or_zero (partial_cache_read tier));
     cache_create_unit_cost := Some (cost_or_zero (partial_cache_create tier));
     cache_create_1h_unit_cost := Some (cost_or_zero (partial_cache_create_1h tier));
     image_unit_cost := Some (cost_or_zero (partial_image tier));
     image_output_unit_cost := Some (cost_or_zero (partial_image_output tier));
     audio_input_unit_cost := Some (cost_or_zero (partial_audio_input tier));
     audio_output_unit_cost := Some (cost_or_zero (partial_audio_output tier)) |}.

Definition createDefaultVisualConfig : VisualConfig :=
  [normalizeVisualTier
     {| partial_label := Some (js "base"); partial_conditions := Some [];
        partial_input := Some zero; partial_output := Some zero;
        partial_mode := Some CACHE_MODE_GENERIC;
        partial_cache_read := None; partial_cache_create := None; partial_cache_create_1h := None;
        partial_image := None; partial_image_output := None;
        partial_audio_input := None; partial_audio_output := None |}].

(** A full tier seen as a partial one. *)
Definition as_partial (t : VisualTier) : PartialTier :=
  {| partial_label := Some (label t); partial_conditions := Some (conditions t);
     partial_input := Some (input_unit_cost t); partial_output := Some (output_unit_cost t);
     partial_mode := Some (cache_mode t);
     partial_cache_read := cache_read_unit_cost t;
     partial_cache_create := cache_create_unit_cost t;
     partial_cache_create_1h := cache_create_1h_unit_cost t;
     partial_image := image_unit_cost t; partial_image_output := image_output_unit_cost t;
     partial_audio_input := audio_input_unit_cost t;
     partial_audio_output := audio_output_unit_cost t |}.

Definition normalizeVisualConfig (config : option VisualConfig) : VisualConfig :=
  match config with
  | None | Some [] => createDefaultVisualConfig
  | Some tiers => (fun t => normalizeVisualTier (as_partial t)) <$> tiers
  end.

(** The registry of billing variables; its display texts are left out. *)
Record BillingVar := mkVar {
  key : ustring;
  price_field : option ustring;
  tierField : option ustring;
  isBase : bool;
  isConditionOnly : bool
}.

Definition BILLING_VARS : list BillingVar :=
  [mkVar (js "p") (Some (js "inputPrice")) (Some (js "input_unit_cost")) true false;
   mkVar (js "c") (Some (js "outputPrice")) (Some (js "output_unit_cost")) true false;
   mkVar (js "len") None None false true;
   mkVar (js "cr") (Some (js "cacheReadPrice")) (Some (js "cache_read_unit_cost")) false false;
   mkVar (js "cc") (Some (js "cacheCreatePrice")) (Some (js "cache_create_unit_cost")) false false;
   mkVar (js "cc1h") (Some (js "cacheCreate1hPrice")) (Some (js "cache_create_1h_unit_cost")) false false;
   mkVar (js "img") (Some (js "imagePrice")) (Some (js "image_unit_cost")) false false;
   mkVar (js "img_o") (Some (js "imageOutputPrice")) (Some (js "image_output_unit_cost")) false false;
   mkVar (js "ai") (Some (js "audioInputPrice")) (Some (js "audio_input_unit_cost")) false false;
   mkVar (js "ao") (Some (js "audioOutputPrice")) (Some (js "audio_output_unit_cost")) false false].

Definition BILLING_PRICING_VARS : list BillingVar :=
  filter (fun v => isConditionOnly v = false) BILLING_VARS.

Definition BILLING_CONDITION_VARS : list ustring :=
  key <$> filter (fun v => isBase v || isConditionOnly v = true) BILLING_VARS.

Definition BILLING_EXTRA_VARS : list BillingVar :=
  filter (fun v => isBase v || isConditionOnly v = false) BILLING_VARS.

(** [tier\[field\]] for the names of the registry. *)
Definition tier_field (tier : VisualTier) (field : ustring) : option number :=
  if ustring_eqb field (js "input_unit_cost") then Some (input_unit_cost tier)
  else if ustring_eqb field (js "output_unit_cost") then Some (output_unit_cost tier)
  else if ustring_eqb field (js "cache_read_unit_cost") then cache_read_unit_cost tier
  else if ustring_eqb field (js "cache_create_unit_cost") then cache_create_unit_cost tier
  else if ustring_eqb field (js "cache_create_1h_unit_cost") then cache_create_1h_unit_cost tier
  else if ustring_eqb field (js "image_unit_cost") then image_unit_cost tier
  else if ustring_eqb field (js "image_output_unit_cost") then image_output_unit_cost tier
  else if ustring_eqb field (js "audio_input_unit_cost") then audio_input_unit_cost tier
  else if ustring_eqb field (js "audio_output_unit_cost") then audio_output_unit_cost tier
  else None.

(** The variable and the tier field of the optional prices, in the order of the registry. *)
Definition BILLING_CACHE_VAR_MAP : list (ustring * ustring) :=
  (fun v => (key v, default [] (tierField v))) <$> BILLING_EXTRA_VARS.

(** ** The text *)

(** [`${value}`]. *)
Definition condition_value_text (v : ConditionValue) : ustring :=
  match v with
  | ValueNumber n => Number_toString n
  | ValueText s => s
  | ValueMissing => js "null"
  end.

(** [c.var && c.op && c.value != null && c.value !== '']. *)
Definition condition_kept (c : TierConditionInput) : bool :=
  truthy (condition_var c) && truthy (condition_op c) &&
  match condition_value c with
  | ValueNumber _ => true
  | ValueText s => truthy s
  | ValueMissing => false
  end.

Definition condition_text (c : TierConditionInput) : ustring :=
  condition_var c ++ js " " ++ condition_op c ++ js " " ++ condition_value_text (condition_value c).

Definition buildConditionStr (cs : list TierConditionInput) : ustring :=
  join (js " && ") (condition_text <$> filter (fun c => condition_kept c = true) cs).

(** The products of a tier: the two base prices, and the optional ones that are not 0. *)
Definition tier_terms (tier : VisualTier) : list (ustring * number) :=
  (js "p", cost_or_zero (Some (input_unit_cost tier))) ::
  (js "c", cost_or_zero (Some (output_unit_cost tier))) ::
  filter (fun t => num_eqb t.2 zero = false)
    ((fun cv : ustring * ustring => (cv.1, cost_or_zero (tier_field tier cv.2)))
       <$> BILLING_CACHE_VAR_MAP).

Definition term_text (t : ustring * number) : ustring := t.1 ++ js " * " ++ Number_toString t.2.

Definition buildTierBodyExpr (tier : VisualTier) : ustring :=
  join (js " + ") (term_text <$> tier_terms tier).

(** [`tier("${label}", ${buildTierBodyExpr(tier)})`]. *)
Definition tier_text (name : ustring) (tier : VisualTier) : ustring :=
  js "tier(" ++ [DQUOTE] ++ name ++ [DQUOTE] ++ js ", " ++ buildTierBodyExpr tier ++ js ")".

Definition label_or (name fallback : ustring) : ustring := if truthy name then name else fallback.

(** The loop over several tiers: a condition counts on every tier but the last. *)
Fixpoint tier_parts (i : nat) (tiers : VisualConfig) : list ustring :=
  match tiers with
  | [] => []
  | tier :: rest =>
      let name := label_or (label tier) (js "tier_" ++ show_nat (i + 1)) in
      let body := tier_text name tier in
      let cond := buildConditionStr (conditions tier) in
      let part := if negb (bool_decide (rest = [])) && truthy cond then cond ++ js " ? " ++ body else body in
      part :: tier_parts (S i) rest
  end.

Definition EMPTY_EXPR : ustring := js "p * 0 + c * 0".

Definition generateExprFromVisualConfig (config : option VisualConfig) : ustring :=
  match config with
  | None | Some [] => EMPTY_EXPR
  | Some [tier] =>
      let body := tier_text (label_or (label tier) (js "default")) tier in
      let cond := buildConditionStr (conditions tier) in
      if truthy cond then cond ++ js " ? " ++ body ++ js " : " ++ EMPTY_EXPR else body
  | Some tiers => join (js " : ") (tier_parts 0 tiers)
  end.

(** ** Samples *)

Definition plain_tier (name : string) (cs : list TierConditionInput) (input output : string) : VisualTier :=
  {| label := js name; conditions := cs; input_unit_cost := Number (js input);
     output_unit_cost := Number (js output); cache_mode := CACHE_MODE_GENERIC;
     cache_read_unit_cost := Some (Number (js "0.25")); cache_create_unit_cost := None;
     cache_create_1h_unit_cost := None; image_unit_cost := None; image_output_unit_cost := None;
     audio_input_unit_cost := None; audio_output_unit_cost := None |}.

Definition sample_config : VisualConfig :=
  [plain_tier "short" [mkConditionInput (js "len") (js "<=") (ValueNumber (num_of_Z 200000));
                       mkConditionInput (js "c") (js "<") (ValueText (js "1e3"))] "2.5" "10";
   plain_tier "" [] "5" "22.5"].

Example generated_text :
  generateExprFromVisualConfig (Some sample_config) =
  js "len <= 200000 && c < 1e3 ? tier(" ++ [DQUOTE] ++ js "short" ++ [DQUOTE] ++
  js ", p * 2.5 + c * 10 + cr * 0.25) : tier(" ++ [DQUOTE] ++ js "tier_2" ++ [DQUOTE] ++
  js ", p * 5 + c * 22.5 + cr * 0.25)".
Proof. vm_compute. reflexivity. Qed.
