(* ===== verification/TierExprReading.v ===== *)
(** * The visual editor of tiered prices: its text means its tiers

    The text the editor writes is tokenized and parsed into the ladder of its tiers:
    first the text as lexemes, then the parser on expressions without brackets, then the
    evaluation of the ladder. *)

From stdpp Require Import base numbers strings option sets list.
From Stdlib Require Import SpecFloat ZArith Lia.
From S2P Require Import Prelude JsNumber Json ExprSyntax ExprTokenizer ExprParser ExprRoundTrip.
From S2P Require Import ExprValidator ExprEvaluator ExprSoundness BillingExpr NumberText TierExpr.

(** Membership in a closed list, by evaluation. *)
Ltac listed := apply (bool_decide_unpack _); vm_compute; exact I.

(** ** Texts as lexemes *)

(** [renders ls t]: wherever the text [t] is followed by a break, it gives the lexemes [ls]. *)
Definition renders (ls : list lexeme) (t : ustring) : Prop :=
  ∀ gap ls' text, gap ∈ [[]; [SPACE]] → breaks (gap ++ text) → glued ls' text →
  glued (ls ++ ls') (t ++ gap ++ text).

Lemma renders_one l : lexeme_ok l → renders [l] l.2.
Proof. intros Hl gap ls' text Hgap Hbreak Hg. by apply glued_cons. Qed.

Lemma renders_space a b ta tb :
  renders a ta → renders b tb → renders (a ++ b) (ta ++ SPACE :: tb).
Proof.
  intros Ha Hb gap ls' text Hgap Hbreak Hg. rewrite <- !app_assoc. simpl.
  apply (Ha [SPACE]); [set_solver | vm_compute; left | by apply Hb].
Qed.

Lemma renders_tight a b ta c tb :
  renders a ta → renders b (c :: tb) → c ∈ breakers → renders (a ++ b) (ta ++ c :: tb).
Proof.
  intros Ha Hb Hc gap ls' text Hgap Hbreak Hg. rewrite <- !app_assoc. simpl.
  apply (Ha []); [set_solver | done | by apply (Hb gap)].
Qed.

Lemma renders_glued ls t : renders ls t → glued ls t.
Proof.
  intros H. specialize (H [] [] [] ltac:(set_solver) I glued_nil).
  by rewrite !app_nil_r in H.
Qed.

(** Several texts joined by a symbol with a space on each side. *)
Fixpoint joined (sym : ustring) (ls : list (list lexeme)) : list lexeme :=
  match ls with
  | [] => []
  | [a] => a
  | a :: ls' => a ++ symbol sym :: joined sym ls'
  end.

Lemma joined_cons sym a ls : ls ≠ [] → joined sym (a :: ls) = a ++ symbol sym :: joined sym ls.
Proof. by destruct ls. Qed.

Lemma join_cons sep w ws : ws ≠ [] → join sep (w :: ws) = w ++ sep ++ join sep ws.
Proof. by destruct ws. Qed.

Lemma renders_symbol a b ta tb sym :
  sym ∈ symbol_values → renders a ta → renders b tb →
  renders (a ++ symbol sym :: b) (ta ++ (SPACE :: sym ++ [SPACE]) ++ tb).
Proof.
  intros Hsym Ha Hb.
  pose proof (renders_space _ _ _ _ (renders_one _ (symbol_ok sym Hsym)) Hb) as H.
  pose proof (renders_space _ _ _ _ Ha H) as H'. simpl in H' |- *. by rewrite <- app_assoc.
Qed.

Lemma renders_join {A} (lex : A → list lexeme) (text : A → ustring) sym sep (l : list A) :
  sym ∈ symbol_values → sep = SPACE :: sym ++ [SPACE] → l ≠ [] →
  Forall (fun x => renders (lex x) (text x)) l →
  renders (joined sym (lex <$> l)) (join sep (text <$> l)).
Proof.
  intros Hsym -> Hne Hl. induction Hl as [|x l Hx Hl IH]; [done | ].
  destruct l as [|y l]; [done | ]. rewrite !fmap_cons, joined_cons, join_cons by done.
  apply renders_symbol; [done | done | by apply IH].
Qed.

(** A number with a text, and the products of a tier. *)
Definition number_lexeme (text : ustring) : lexeme := (TNumber, text, text).

Lemma number_lexeme_ok text :
  number_literal text → is_finite (Number text) = true → lexeme_ok (number_lexeme text).
Proof. done. Qed.

Lemma has_text_finite x : has_text x = true → is_finite x = true.
Proof. by destruct x as [[] | | | [] m e]. Qed.

Lemma number_text_ok x : has_text x = true → lexeme_ok (number_lexeme (Number_toString x)).
Proof.
  intros Hx. apply number_lexeme_ok; [by apply Number_toString_literal | ].
  rewrite Number_toString_reads by done. by apply has_text_finite.
Qed.

(** A name that can stand for a variable. *)
Definition variable_name (v : ustring) : bool :=
  isIdentifierStart (v !! 0) && forallb (fun c => isIdentifierPart (Some c)) v &&
  negb (ustring_eqb v (js "true")) && negb (ustring_eqb v (js "false")).

Lemma variable_identifier v : variable_name v = true → identifier_name v.
Proof.
  unfold variable_name. intros H. bools. split_and!; try done.
  apply Forall_forall. intros c Hc. rewrite forallb_forall in *.
  match goal with Hf : ∀ x, In x v → _ |- _ => by apply Hf, list_elem_of_In end.
Qed.

Lemma variable_lexeme_ok v : variable_name v = true → lexeme_ok (word v).
Proof. intros (H1 & H2 & _)%variable_identifier. by apply word_ok. Qed.

Definition term_ok (t : ustring * number) : bool := variable_name t.1 && has_text t.2.

Definition term_lexemes (t : ustring * number) : list lexeme :=
  [word t.1; symbol (js "*"); number_lexeme (Number_toString t.2)].

Lemma term_renders t : term_ok t = true → renders (term_lexemes t) (term_text t).
Proof.
  unfold term_ok. intros H. bools. unfold term_text.
  change (js " * ") with (SPACE :: js "*" ++ [SPACE]).
  apply (renders_symbol [word t.1] [number_lexeme (Number_toString t.2)]).
  - listed.
  - apply (renders_one (word t.1)). by apply variable_lexeme_ok.
  - apply (renders_one (number_lexeme _)). by apply number_text_ok.
Qed.

Definition body_lexemes (ts : list (ustring * number)) : list lexeme :=
  joined (js "+") (term_lexemes <$> ts).

Lemma body_renders ts :
  ts ≠ [] → forallb term_ok ts = true →
  renders (body_lexemes ts) (join (js " + ") (term_text <$> ts)).
Proof.
  intros Hne Hts. apply renders_join; [listed | done | done | ].
  apply Forall_forall. intros t Ht. apply term_renders.
  rewrite forallb_forall in Hts. by apply Hts, list_elem_of_In.
Qed.

(** ** Tiers, conditions and whole configurations *)

(** A label that the text can hold between quotes and that the parser does not take for
    an operator. *)
Definition plain_label (name : ustring) : bool :=
  forallb (fun c => negb ((c =? DQUOTE)%Z || (c =? chr "\")%Z || (c =? 10)%Z || (c =? 13)%Z)) name &&
  negb (bool_decide (name ∈ symbol_values)).

Definition string_lexeme (name : ustring) : lexeme := (TString, name, DQUOTE :: name ++ [DQUOTE]).

Lemma string_lexeme_ok name : plain_label name = true → lexeme_ok (string_lexeme name).
Proof.
  unfold plain_label. intros [H _]%andb_true_iff. exists DQUOTE, name.
  split; [by left | ]. split; [done | ].
  simpl. induction name as [|c name IH]; [constructor | ]. simpl in H. bools.
  constructor; auto.
Qed.

Definition tier_lexemes (name : ustring) (ts : list (ustring * number)) : list lexeme :=
  [word (js "tier")] ++ [symbol (js "(")] ++ [string_lexeme name] ++ [symbol (js ",")] ++
  body_lexemes ts ++ [symbol (js ")")].

Lemma tier_terms_nonempty tier : tier_terms tier ≠ [].
Proof. done. Qed.

Lemma tier_terms_length tier : length (tier_terms tier) ≤ 9.
Proof.
  unfold tier_terms. cbn [length].
  match goal with |- context [filter ?P ?l] => pose proof (length_filter P l) end.
  rewrite length_fmap in *. simpl in *. lia.
Qed.

(** The names an expression may use. *)
Definition billing_variables : list ustring := key <$> BILLING_VARS.

Lemma term_variables tier t : t ∈ tier_terms tier → t.1 ∈ billing_variables.
Proof.
  unfold tier_terms. rewrite !elem_of_cons. intros [-> | [-> | Ht]]; [listed | listed | ].
  apply list_elem_of_filter in Ht as [_ Ht]. apply list_elem_of_fmap in Ht as (cv & -> & Hcv). simpl.
  assert (Hall : forallb (fun cv => bool_decide (cv.1 ∈ billing_variables)) BILLING_CACHE_VAR_MAP = true)
    by (vm_compute; reflexivity).
  rewrite forallb_forall in Hall. apply (bool_decide_eq_true_1 _). by apply Hall, list_elem_of_In.
Qed.

#[global] Opaque tier_terms.

Lemma tier_renders name tier :
  plain_label name = true → forallb term_ok (tier_terms tier) = true →
  renders (tier_lexemes name (tier_terms tier)) (tier_text name tier).
Proof.
  intros Hname Hts. unfold tier_text, tier_lexemes, buildTierBodyExpr.
  assert (Hsym : ∀ c, [c] ∈ symbol_values → renders [symbol [c]] [c]).
  { intros c Hc. apply (renders_one (symbol [c])). by apply symbol_ok. }
  pose proof (body_renders _ (tier_terms_nonempty tier) Hts) as Hbody.
  pose proof (renders_tight _ _ _ _ [] Hbody (Hsym (chr ")") ltac:(listed))
                ltac:(listed)) as H1.
  pose proof (renders_space _ _ _ _ (Hsym (chr ",") ltac:(listed)) H1) as H2.
  set (B := join (js " + ") (term_text <$> tier_terms tier)) in *.
  assert (H3 : renders ([string_lexeme name] ++ [symbol (js ",")] ++ body_lexemes (tier_terms tier) ++ [symbol (js ")")])
                 (DQUOTE :: (name ++ [DQUOTE]) ++ chr "," :: SPACE :: B ++ [chr ")"])).
  { exact (renders_tight _ _ _ _ _ (renders_one _ (string_lexeme_ok name Hname)) H2 ltac:(listed)). }
  pose proof (renders_tight _ _ _ DQUOTE _ (Hsym (chr "(") ltac:(listed)) H3 ltac:(listed)) as H4.
  pose proof (renders_tight _ _ _ (chr "(") _
                (renders_one _ (variable_lexeme_ok (js "tier") eq_refl)) H4 ltac:(listed)) as H5.
  replace (js "tier(" ++ _) with
    (js "tier" ++ chr "(" :: DQUOTE :: (name ++ [DQUOTE]) ++ chr "," :: SPACE :: B ++ [chr ")"]);
    [exact H5 | ].
  change (js "tier(") with (js "tier" ++ [chr "("]). by rewrite <- !app_assoc.
Qed.

Definition op_of (op : ustring) : option BinaryOperator :=
  if ustring_eqb op (js "<") then Some BLt
  else if ustring_eqb op (js "<=") then Some BLe
  else if ustring_eqb op (js ">") then Some BGt
  else if ustring_eqb op (js ">=") then Some BGe
  else None.

Lemma op_of_text op o : op_of op = Some o → op = binary_text o ∧ o ∈ [BLt; BLe; BGt; BGe].
Proof.
  unfold op_of. intros H.
  repeat (case_match_in H; bools; [injection H as <-; split; [done | set_solver] | ]). done.
Qed.

(** A condition with a known variable, a comparison and a bound that is a number. *)
Definition condition_valid (c : TierConditionInput) : bool :=
  variable_name (condition_var c) && bool_decide (condition_var c ∈ [js "p"; js "c"; js "len"]) && bool_decide (is_Some (op_of (condition_op c))) &&
  match condition_value c with
  | ValueNumber n => has_text n
  | ValueText s => bool_decide (match_number s = Some (length s)) && is_finite (Number s)
  | ValueMissing => false
  end.

Definition condition_lexemes (c : TierConditionInput) : list lexeme :=
  [word (condition_var c); symbol (condition_op c);
   number_lexeme (condition_value_text (condition_value c))].

Lemma condition_number_ok c :
  condition_valid c = true → lexeme_ok (number_lexeme (condition_value_text (condition_value c))).
Proof.
  unfold condition_valid. intros H. bools.
  destruct (condition_value c) as [n | s | ]; simpl; [by apply number_text_ok | | done].
  bools. apply number_lexeme_ok; [ | done].
  destruct (match_number_sound s (length s)) as [_ Hlit]; [done | ]. by rewrite firstn_all in Hlit.
Qed.

Lemma condition_renders c :
  condition_valid c = true → renders (condition_lexemes c) (condition_text c).
Proof.
  intros Hc. pose proof (condition_number_ok c Hc) as Hnum.
  unfold condition_valid in Hc. bools.
  match goal with H : is_Some _ |- _ => destruct H as [o Ho] end.
  apply op_of_text in Ho as [Ho _]. unfold condition_text, condition_lexemes. rewrite Ho.
  change (js " ") with [SPACE].
  replace (condition_var c ++ [SPACE] ++ binary_text o ++ [SPACE] ++ condition_value_text (condition_value c))
    with (condition_var c ++ (SPACE :: binary_text o ++ [SPACE]) ++ condition_value_text (condition_value c))
    by (simpl; by rewrite <- app_assoc).
  apply (renders_symbol [word _] [number_lexeme _]); [apply binary_text_symbol | | ].
  - apply (renders_one (word _)). by apply variable_lexeme_ok.
  - by apply (renders_one (number_lexeme _)).
Qed.

Definition kept (tier : VisualTier) : list TierConditionInput :=
  filter (fun c => condition_kept c = true) (conditions tier).

Definition conditions_lexemes (cs : list TierConditionInput) : list lexeme :=
  joined (js "&&") (condition_lexemes <$> cs).

Lemma conditions_renders tier :
  kept tier ≠ [] → forallb condition_valid (kept tier) = true →
  renders (conditions_lexemes (kept tier)) (buildConditionStr (conditions tier)).
Proof.
  intros Hne Hcs. apply renders_join; [listed | done | done | ].
  apply Forall_forall. intros c Hc. apply condition_renders.
  rewrite forallb_forall in Hcs. by apply Hcs, list_elem_of_In.
Qed.

(** The label a tier gets at position [i] of several. *)
Definition tier_name (i : nat) (tier : VisualTier) : ustring :=
  label_or (label tier) (js "tier_" ++ show_nat (i + 1)).

Fixpoint ladder_lexemes (i : nat) (tiers : VisualConfig) : list lexeme :=
  match tiers with
  | [] => []
  | [tier] => tier_lexemes (tier_name i tier) (tier_terms tier)
  | tier :: rest =>
      conditions_lexemes (kept tier) ++ symbol (js "?") ::
      tier_lexemes (tier_name i tier) (tier_terms tier) ++ symbol (js ":") ::
      ladder_lexemes (S i) rest
  end.

(** The tiers the editor can write: every label plain, every price a number with a text,
    and on every tier but the last at least one condition, all valid. *)
Definition tier_valid (name : ustring) (tier : VisualTier) : bool :=
  plain_label name && forallb term_ok (tier_terms tier).

Definition rung_valid (tier : VisualTier) : bool :=
  negb (bool_decide (kept tier = [])) && forallb condition_valid (kept tier).

Fixpoint ladder_valid (i : nat) (tiers : VisualConfig) : bool :=
  match tiers with
  | [] => false
  | [tier] => tier_valid (tier_name i tier) tier
  | tier :: rest => tier_valid (tier_name i tier) tier && rung_valid tier && ladder_valid (S i) rest
  end.

Lemma rung_condition tier :
  rung_valid tier = true → truthy (buildConditionStr (conditions tier)) = true.
Proof.
  unfold rung_valid, buildConditionStr. fold (kept tier). intros H. bools.
  destruct (kept tier) as [|c cs]; [done | ]. simpl in H0. bools.
  unfold condition_valid in *. bools. rewrite fmap_cons.
  assert (Hc : ∃ x t, condition_text c = x :: t).
  { unfold condition_text. destruct (condition_var c) as [|x t] eqn:E; [ | simpl; eauto].
    unfold variable_name in *. by bools. }
  destruct Hc as (x & t & Hc). destruct cs as [|c' cs]; simpl; by rewrite Hc.
Qed.

Lemma ladder_renders i tiers :
  ladder_valid i tiers = true → renders (ladder_lexemes i tiers) (join (js " : ") (tier_parts i tiers)).
Proof.
  revert i; induction tiers as [|tier rest IH]; intros i Hv; [done | ].
  destruct rest as [|tier' rest].
  - simpl in *. unfold tier_valid in Hv. bools. by apply tier_renders.
  - change (tier_valid (tier_name i tier) tier && rung_valid tier && ladder_valid (S i) (tier' :: rest) = true) in Hv.
    apply andb_true_iff in Hv as [Hv Hrest]. apply andb_true_iff in Hv as [Htier Hrung].
    unfold tier_valid in Htier. apply andb_true_iff in Htier as [Hname Hts].
    specialize (IH (S i) Hrest). cbn [tier_parts ladder_lexemes].
    rewrite bool_decide_eq_false_2 by done. rewrite (rung_condition tier Hrung). cbn [negb andb].
    unfold rung_valid in Hrung. bools. fold (tier_parts (S i) (tier' :: rest)).
    rewrite join_cons by done.
    pose proof (renders_symbol _ _ _ _ (js "?") ltac:(listed) (conditions_renders tier ltac:(done) ltac:(done))
                  (tier_renders (tier_name i tier) tier Hname Hts)) as Hpart.
    pose proof (renders_symbol _ _ _ _ (js ":") ltac:(listed) Hpart IH) as Hall.
    by rewrite <- app_assoc in Hall.
Qed.

(** ** Reading expressions without brackets *)

Section reading.
Variable tokens : list Token.
Abbreviation C n := (fst (levels tokens n)).
Abbreviation U n := (snd (levels tokens n)).

(** The operators and right operands of a left-associative chain, from [j] to [l]. *)
Inductive tail_reads (ops : list BinaryOperator) (sub : parser ExpressionNode) (d : nat)
    : nat → list (BinaryOperator * ExpressionNode) → nat → Prop :=
| tail_nil j : tail_reads ops sub d j [] j
| tail_cons j k l t op e rest :
    tokens !! j = Some t → type t ≠ TEof → value t = binary_text op → op ∈ ops →
    reads sub (S j) d e k → j < k → tail_reads ops sub d k rest l →
    tail_reads ops sub d j ((op, e) :: rest) l.

Definition left_fold (rest : list (BinaryOperator * ExpressionNode)) (acc : ExpressionNode) :=
  fold_left (fun acc oe => Binary oe.1 acc oe.2) rest acc.

Lemma tail_length ops sub d j rest l : tail_reads ops sub d j rest l → j + length rest ≤ l.
Proof. induction 1; simpl; lia. Qed.

Lemma reads_binaryLoop ops sub d j rest l t acc fuel :
  tail_reads ops sub d j rest l → tokens !! l = Some t → blocks (value t) ops →
  length rest < fuel →
  reads (binaryLoop tokens fuel (binary_ops ops) sub acc) j d (left_fold rest acc) l.
Proof.
  intros Htail Ht Hb. revert acc fuel.
  induction Htail as [j | j k l t0 op e rest Ht0 Hty Hv Hop Hsub Hjk Htail IH]; intros acc fuel Hf.
  - eapply reads_binaryLoop_stop; eauto.
  - destruct fuel as [|fuel]; [simpl in Hf; lia | ]. simpl.
    eapply reads_bind; [by eapply (reads_checkOperator_some tokens binary_text ops op); eauto using binary_text_inj | ].
    eapply reads_bind; [by apply reads_advance | ].
    eapply reads_bind; [exact Hsub | ]. apply IH; [done | simpl in Hf; lia].
Qed.

Lemma reads_binaryLevel ops sub d i j rest l t e0 :
  reads sub i d e0 j → tail_reads ops sub d j rest l → tokens !! l = Some t →
  blocks (value t) ops → reads (binaryLevel tokens ops sub) i d (left_fold rest e0) l.
Proof.
  intros H0 Htail Ht Hb. eapply reads_bind; [exact H0 | ]. eapply reads_binaryLoop; eauto.
  pose proof (lookup_lt_Some _ _ _ Ht). pose proof (tail_length _ _ _ _ _ _ Htail). lia.
Qed.

(** A variable and a number as operands. *)
Lemma reads_word n i d v t :
  segment tokens i [word v] → identifier_name v → tokens !! S i = Some t →
  value t ≠ js "(" → value t ≠ js "**" →
  reads (parseUnary tokens (C n) (U n)) i d (Identifier v) (S i).
Proof.
  intros Hs Hv Ht Hopen Hpow. apply segment_cons in Hs as [(t0 & Ht0 & Hty & Hv0) _]. simpl in Hty, Hv0.
  eapply reads_bind.
  { eapply reads_checkOperator_none; [done | ]. apply operand_head_not_unary. left.
    rewrite Hv0. apply identifier_not_symbol, Hv. }
  eapply reads_bind; [ | eapply reads_bind; [by eapply reads_consume_false | apply reads_ret]].
  eapply reads_bind; [apply reads_advance; [done | by rewrite Hty] | ].
  rewrite Hty, Hv0, word_not_boolean by done.
  eapply reads_bind; [by eapply reads_consume_false | apply reads_ret].
Qed.

Lemma reads_number n i d s t :
  segment tokens i [number_lexeme s] → number_literal s → tokens !! S i = Some t →
  value t ≠ js "**" →
  reads (parseUnary tokens (C n) (U n)) i d (Literal (VNumber (Number s))) (S i).
Proof.
  intros Hs Hn Ht Hpow. apply segment_cons in Hs as [(t0 & Ht0 & Hty & Hv0) _]. simpl in Hty, Hv0.
  eapply reads_bind.
  { eapply reads_checkOperator_none; [done | ]. apply operand_head_not_unary. left.
    rewrite Hv0. by apply number_literal_not_symbol. }
  eapply reads_bind; [ | eapply reads_bind; [by eapply reads_consume_false | apply reads_ret]].
  eapply reads_bind; [apply reads_advance; [done | by rewrite Hty] | ].
  rewrite Hty, Hv0. apply reads_ret.
Qed.

Lemma blocks_listed v ops :
  forallb (fun op => negb (ustring_eqb v (binary_text op))) ops = true → blocks v ops.
Proof.
  rewrite forallb_forall. intros H op Hop E. specialize (H op ltac:(by apply list_elem_of_In)).
  by bools.
Qed.

(** The tokens after which a product, a sum or a comparison is over. *)
Definition after_product (v : ustring) : Prop := v ∈ [js "+"; js ")"; js "&&"; js "?"; []].

Definition term_node (t : ustring * number) : ExpressionNode :=
  Binary BMul (Identifier t.1) (Literal (VNumber t.2)).

Lemma reads_term n i d tm t :
  term_ok tm = true → segment tokens i (term_lexemes tm) → tokens !! (i + 3) = Some t →
  after_product (value t) →
  reads (parseMultiplicative tokens (C n) (U n)) i d (term_node tm) (i + 3).
Proof.
  unfold term_ok. intros Hok Hs Ht Hv. bools.
  apply (segment_app tokens i [word tm.1]) in Hs as [Hw Hs]. simpl in Hs. rewrite Nat.add_1_r in Hs.
  apply segment_cons in Hs as [(t1 & Ht1 & Hty1 & Hv1) Hs]. simpl in Hty1, Hv1.
  assert (Hlit := Number_toString_literal tm.2 ltac:(done)).
  replace (i + 3) with (S (S (S i))) in * by lia.
  assert (Hvs : value t ≠ js "**" ∧ blocks (value t) [BMul; BDiv; BRem]).
  { unfold after_product in Hv. unfold blocks. set_unfold in Hv.
    destruct Hv as [-> | [-> | [-> | [-> | [-> | []]]]]]; (split; [listed | by apply blocks_listed]). }
  apply (reads_binaryLevel [BMul; BDiv; BRem] (parseUnary tokens (C n) (U n)) d i (S i)
           [(BMul, Literal (VNumber tm.2))] (S (S (S i))) t (Identifier tm.1)).
  - eapply reads_word; [done | by apply variable_identifier | exact Ht1 | rewrite Hv1; listed | rewrite Hv1; listed].
  - eapply tail_cons with (t := t1); [done | by rewrite Hty1 | by rewrite Hv1 | set_solver | | | constructor]; [ | lia].
    rewrite <- (Number_toString_reads tm.2) by done.
    eapply reads_number; [exact Hs | done | exact Ht | apply Hvs].
  - done.
  - apply Hvs.
Qed.

(** A sum of products. *)
Definition sum_node (ts : list (ustring * number)) : ExpressionNode :=
  match ts with
  | [] => Literal (VNumber zero)
  | t :: ts' => left_fold ((fun t => (BAdd, term_node t)) <$> ts') (term_node t)
  end.

Lemma term_lexemes_length t : length (term_lexemes t) = 3.
Proof. done. Qed.

(** The rest of a joined list of pieces, each with its own reading. *)
Lemma joined_tail {A} (lex : A → list lexeme) (node : A → ExpressionNode) op ops sub d
    (stop : ustring → Prop) (l : list A) :
  op ∈ ops → stop (binary_text op) →
  (∀ x i t, x ∈ l → segment tokens i (lex x) → tokens !! (i + length (lex x)) = Some t →
     stop (value t) → reads sub i d (node x) (i + length (lex x))) →
  ∀ x0 i t, segment tokens i (joined (binary_text op) (lex <$> x0 :: l)) →
  tokens !! (i + length (joined (binary_text op) (lex <$> x0 :: l))) = Some t → stop (value t) →
  ∃ t0, tokens !! (i + length (lex x0)) = Some t0 ∧ stop (value t0) ∧
    tail_reads ops sub d (i + length (lex x0)) ((fun x => (op, node x)) <$> l)
      (i + length (joined (binary_text op) (lex <$> x0 :: l))).
Proof.
  intros Hop Hstop. induction l as [|x l IH]; intros Hl x0 i t Hs Ht Hv.
  - exists t. split_and!; [done | done | constructor].
  - change (lex <$> x0 :: x :: l) with (lex x0 :: (lex <$> x :: l)) in *.
    rewrite joined_cons in Hs, Ht |- * by done.
    apply segment_app in Hs as [_ Hs].
    apply segment_cons in Hs as [(t0 & Ht0 & Hty0 & Hv0) Hs]. simpl in Hty0, Hv0.
    exists t0. split_and!; [done | by rewrite Hv0 | ].
    set (J := joined (binary_text op) (lex <$> x :: l)) in *. set (k := S (i + length (lex x0))) in *.
    assert (Hk : i + length (lex x0 ++ symbol (binary_text op) :: J) = k + length J)
      by (rewrite length_app; simpl; subst k; lia).
    rewrite Hk in Ht |- *.
    destruct (IH ltac:(intros; eapply Hl; eauto; by right) x k t Hs Ht Hv) as (t1 & Ht1 & Hv1 & Htail).
    eapply tail_cons; [exact Ht0 | by rewrite Hty0 | done | done | | | exact Htail]; [ | lia].
    eapply Hl; [left | | exact Ht1 | done].
    subst J. destruct l as [|y l]; [done | ].
    change (lex <$> x :: y :: l) with (lex x :: (lex <$> y :: l)) in Hs. rewrite joined_cons in Hs by done.
    by apply segment_app in Hs as [? _].
Qed.

Lemma joined_head sym (a : list lexeme) ls i :
  segment tokens i (joined sym (a :: ls)) → segment tokens i a.
Proof.
  destruct ls as [|b ls]; [done | ]. rewrite joined_cons by done. intros Hs.
  by apply segment_app in Hs as [? _].
Qed.

Definition after_sum (v : ustring) : Prop := v ∈ [js ")"; []].

Lemma reads_sum n i d ts t :
  ts ≠ [] → forallb term_ok ts = true → segment tokens i (body_lexemes ts) →
  tokens !! (i + length (body_lexemes ts)) = Some t → after_sum (value t) →
  reads (parseAdditive tokens (C n) (U n)) i d (sum_node ts) (i + length (body_lexemes ts)).
Proof.
  intros Hne Hok Hs Ht Hv. destruct ts as [|t0 ts]; [done | ]. simpl in Hok. bools.
  assert (Hterm : ∀ tm i t, tm ∈ ts → segment tokens i (term_lexemes tm) →
    tokens !! (i + length (term_lexemes tm)) = Some t → after_product (value t) →
    reads (parseMultiplicative tokens (C n) (U n)) i d (term_node tm) (i + length (term_lexemes tm))).
  { intros tm j u Hin. rewrite term_lexemes_length. apply reads_term.
    rewrite forallb_forall in *. match goal with Hf : ∀ x, In x ts → _ |- _ => by apply Hf, list_elem_of_In end. }
  assert (Hprod : after_product (value t))
    by (unfold after_product, after_sum in *; set_solver).
  destruct (joined_tail term_lexemes term_node BAdd [BAdd; BSub] _ d after_product ts
              ltac:(set_solver) ltac:(unfold after_product; listed) Hterm t0 i t Hs Ht Hprod)
    as (t1 & Ht1 & Hv1 & Htail).
  apply (reads_binaryLevel _ _ d i _ _ _ t (term_node t0)) with (2 := Htail); [ | done | ].
  - rewrite term_lexemes_length in *. apply reads_term with (t := t1); [done | | done | done].
    by apply (joined_head (js "+") _ (term_lexemes <$> ts)).
  - unfold after_sum in Hv. set_unfold in Hv. destruct Hv as [-> | [-> | []]]; by apply blocks_listed.
Qed.

(** From a sum to a whole expression. *)
Lemma sum_conditional n i d e j t :
  reads (parseAdditive tokens (C n) (U n)) i d e j → tokens !! j = Some t → stop (value t) →
  reads (C (S n)) i d e j.
Proof.
  intros Hsum Ht Hstop. destruct (stop_blocks _ Hstop) as (Hb & _ & Hq & _). rewrite C_S.
  pose proof (lookup_lt_Some _ _ _ Ht).
  eapply reads_bind; [ | eapply reads_bind; [by eapply reads_consume_false | apply reads_ret]].
  apply (reads_chain_stop tokens [[BOr]; [BAnd]; [BEq; BNe]; [BLt; BLe; BGt; BGe]] _ _ t);
    [lia | done | done | ].
  intros op Hop. apply Hb. simpl in *. set_solver.
Qed.

Lemma after_sum_stop v : after_sum v → stop v.
Proof. unfold after_sum, stop. set_solver. Qed.

Lemma reads_string n i d name t :
  plain_label name = true → segment tokens i [string_lexeme name] → tokens !! S i = Some t →
  value t ≠ js "**" →
  reads (parseUnary tokens (C n) (U n)) i d (Literal (VString name)) (S i).
Proof.
  intros Hn Hs Ht Hpow. apply segment_cons in Hs as [(t0 & Ht0 & Hty & Hv0) _]. simpl in Hty, Hv0.
  unfold plain_label in Hn. bools.
  eapply reads_bind.
  { eapply reads_checkOperator_none; [done | ]. apply operand_head_not_unary. left. by rewrite Hv0. }
  eapply reads_bind; [ | eapply reads_bind; [by eapply reads_consume_false | apply reads_ret]].
  eapply reads_bind; [apply reads_advance; [done | by rewrite Hty] | ].
  rewrite Hty, Hv0. apply reads_ret.
Qed.

(** The two arguments of a tier call, after its bracket. *)
Lemma reads_tier_arguments n i d name ts :
  plain_label name = true → ts ≠ [] → forallb term_ok ts = true →
  segment tokens i ([string_lexeme name] ++ [symbol (js ",")] ++ body_lexemes ts ++ [symbol (js ")")]) →
  reads (argumentsLoop tokens (C (S n)) (length tokens) []) i d
    [Literal (VString name); sum_node ts] (i + 2 + length (body_lexemes ts)).
Proof.
  intros Hname Hne Hts Hs.
  apply segment_app in Hs as [Hstr Hs]. simpl in Hs. rewrite Nat.add_1_r in Hs.
  apply segment_cons in Hs as [(t1 & Ht1 & Hty1 & Hv1) Hs]. simpl in Hty1, Hv1.
  apply segment_app in Hs as [Hbody Hs].
  apply segment_cons in Hs as [(t2 & Ht2 & Hty2 & Hv2) _]. simpl in Hty2, Hv2.
  pose proof (lookup_lt_Some _ _ _ Ht2).
  destruct (length tokens) as [|[|f]]; [lia | lia | ]. simpl argumentsLoop.
  eapply reads_bind.
  { eapply unary_conditional; [ | exact Ht1 | rewrite Hv1; unfold stop; listed].
    eapply reads_string; [done | done | exact Ht1 | rewrite Hv1; listed]. }
  eapply reads_bind; [eapply reads_consume_true; [exact Ht1 | by rewrite Hty1 | done] | ].
  replace (i + 2 + length (body_lexemes ts)) with (S (S i) + length (body_lexemes ts)) by lia.
  assert (Hv : after_sum (value t2)) by (rewrite Hv2; unfold after_sum; listed).
  eapply reads_bind.
  { eapply sum_conditional; [by eapply reads_sum | exact Ht2 | by apply after_sum_stop]. }
  eapply reads_bind; [eapply reads_consume_false; [exact Ht2 | rewrite Hv2; listed] | ].
  apply reads_ret.
Qed.

(** A tier call where a whole expression is expected. *)
Lemma reads_tier n i d name ts t :
  plain_label name = true → ts ≠ [] → forallb term_ok ts = true → d < MAX_PARSE_DEPTH →
  segment tokens i (tier_lexemes name ts) →
  tokens !! (i + length (tier_lexemes name ts)) = Some t → stop (value t) →
  reads (C (S (S n))) i d (tier_node name (sum_node ts)) (i + length (tier_lexemes name ts)).
Proof.
  intros Hname Hne Hts Hd Hs Ht Hstop. destruct (stop_blocks _ Hstop) as (_ & Hpow & _ & _).
  eapply unary_conditional; [ | exact Ht | done]. unfold tier_lexemes in Hs.
  apply segment_cons in Hs as [(t0 & Ht0 & Hty0 & Hv0) Hs]. simpl in Hty0, Hv0, Hs.
  apply segment_cons in Hs as [(t1 & Ht1 & Hty1 & Hv1) Hs]. simpl in Hty1, Hv1.
  pose proof (reads_tier_arguments n (S (S i)) (S d) name ts Hname Hne Hts Hs) as Hargs.
  pose proof Hs as Hs'.
  apply segment_cons in Hs' as [(t2 & Ht2 & _ & Hv2) Hs']. simpl in Hv2.
  apply segment_cons in Hs' as [_ Hs']. apply segment_app in Hs' as [_ Hs'].
  apply segment_cons in Hs' as [(t3 & Ht3 & Hty3 & Hv3) _]. simpl in Hty3, Hv3.
  eapply reads_bind.
  { eapply reads_checkOperator_none; [done | ]. rewrite Hv0. listed. }
  eapply reads_bind; [ | eapply reads_bind; [eapply reads_consume_false; [exact Ht | exact Hpow] | apply reads_ret]].
  eapply reads_bind; [apply reads_advance; [done | by rewrite Hty0] | ]. rewrite Hty0, Hv0.
  change (ustring_eqb (js "tier") (js "true") || ustring_eqb (js "tier") (js "false")) with false. cbv iota.
  eapply reads_bind; [eapply reads_consume_true; [exact Ht1 | by rewrite Hty1 | done] | ]. simpl negb.
  apply reads_withDepth; [done | ].
  eapply reads_bind; [by apply reads_check | ].
  assert (Hclose : ustring_eqb (value t2) (js ")") = false).
  { apply bool_decide_eq_false. rewrite Hv2. intros ->. by vm_compute in Hname. }
  rewrite Hclose. eapply reads_bind; [exact Hargs | ].
  replace (i + length (tier_lexemes name ts)) with (S (S (S i) + 2 + length (body_lexemes ts)))
    by (unfold tier_lexemes; rewrite !length_app; simpl; lia).
  eapply reads_bind; [eapply reads_expect; [ | | exact Hv3]; [ | by rewrite Hty3] | apply reads_ret].
  rewrite <- Ht3. f_equal. lia.
Qed.

(** A comparison, and a conjunction of comparisons. *)
Definition condition_of (c : TierConditionInput) : tier_condition :=
  mkCond (condition_var c) (default BLt (op_of (condition_op c)))
    (Number (condition_value_text (condition_value c))).

Definition after_comparison (v : ustring) : Prop := v ∈ [js "&&"; js "?"].

Lemma condition_lexemes_length c : length (condition_lexemes c) = 3.
Proof. done. Qed.

Lemma reads_comparison n i d c t :
  condition_valid c = true → segment tokens i (condition_lexemes c) → tokens !! (i + 3) = Some t →
  after_comparison (value t) →
  reads (parseEquality tokens (C n) (U n)) i d (condition_node (condition_of c)) (i + 3).
Proof.
  intros Hc Hs Ht Hv. pose proof (condition_number_ok c Hc) as (_ & Hlit & _).
  unfold condition_valid in Hc. bools.
  match goal with H : is_Some _ |- _ => destruct H as [o Ho] end.
  destruct (op_of_text _ _ Ho) as [Hop Hin].
  apply (segment_app tokens i [word _]) in Hs as [Hw Hs]. simpl in Hs. rewrite Nat.add_1_r in Hs.
  apply segment_cons in Hs as [(t1 & Ht1 & Hty1 & Hv1) Hs]. simpl in Hty1, Hv1.
  replace (i + 3) with (S (S (S i))) in * by lia. pose proof (lookup_lt_Some _ _ _ Ht).
  assert (Hb : value t ≠ js "**" ∧ blocks (value t) [BEq; BNe] ∧
    blocks (value t) [BLt; BLe; BGt; BGe] ∧ blocks (value t) (concat [[BAdd; BSub]; [BMul; BDiv; BRem]])).
  { unfold after_comparison in Hv. set_unfold in Hv.
    destruct Hv as [-> | [-> | []]]; (split; [listed | by split_and!; apply blocks_listed]). }
  destruct Hb as (Hpow & Hb1 & Hb2 & Hb3).
  assert (Hb1' : value t1 ≠ js "(" ∧ value t1 ≠ js "**" ∧
    blocks (value t1) (concat [[BAdd; BSub]; [BMul; BDiv; BRem]])).
  { rewrite Hv1, Hop. set_unfold in Hin.
    destruct Hin as [-> | [-> | [-> | [-> | []]]]];
      (split; [listed | split; [listed | by apply blocks_listed]]). }
  destruct Hb1' as (Hopen & Hpow1 & Hblock1).
  unfold condition_node, condition_of. simpl. rewrite Ho. simpl.
  apply (reads_chain_stop tokens [[BEq; BNe]] _ _ t); [lia | | done | done].
  apply (reads_binaryLevel [BLt; BLe; BGt; BGe] _ d i (S i)
           [(o, Literal (VNumber (Number (condition_value_text (condition_value c)))))]
           (S (S (S i))) t (Identifier (condition_var c))); [ | | done | done].
  - apply (reads_chain_stop tokens [[BAdd; BSub]; [BMul; BDiv; BRem]] _ _ t1); [lia | | done | done].
    eapply reads_word; [done | by apply variable_identifier | exact Ht1 | done | done].
  - eapply tail_cons with (t := t1); [done | by rewrite Hty1 | by rewrite Hv1 | done | | | constructor]; [ | lia].
    apply (reads_chain_stop tokens [[BAdd; BSub]; [BMul; BDiv; BRem]] _ _ t); [lia | | done | done].
    eapply reads_number; [exact Hs | done | exact Ht | done].
Qed.

Lemma conjunction_fold c cs :
  left_fold ((fun c => (BAnd, condition_node (condition_of c))) <$> cs) (condition_node (condition_of c)) =
  conditions_node (condition_of <$> c :: cs).
Proof.
  simpl. unfold conjunction. generalize (condition_node (condition_of c)) as acc.
  induction cs as [|c' cs IH]; intros acc; simpl; [done | apply IH].
Qed.

Lemma reads_conditions n i d cs t :
  cs ≠ [] → forallb condition_valid cs = true → segment tokens i (conditions_lexemes cs) →
  tokens !! (i + length (conditions_lexemes cs)) = Some t → value t = js "?" →
  reads (parseLogicalOr tokens (C n) (U n)) i d (conditions_node (condition_of <$> cs))
    (i + length (conditions_lexemes cs)).
Proof.
  intros Hne Hok Hs Ht Hv. destruct cs as [|c cs]; [done | ]. cbn [forallb] in Hok. bools.
  assert (Hcmp : ∀ x i t, x ∈ cs → segment tokens i (condition_lexemes x) →
    tokens !! (i + length (condition_lexemes x)) = Some t → after_comparison (value t) →
    reads (parseEquality tokens (C n) (U n)) i d (condition_node (condition_of x))
      (i + length (condition_lexemes x))).
  { intros x j u Hin. rewrite condition_lexemes_length. apply reads_comparison.
    rewrite forallb_forall in *. match goal with Hf : ∀ x, In x cs → _ |- _ => by apply Hf, list_elem_of_In end. }
  assert (Hafter : after_comparison (value t)) by (rewrite Hv; unfold after_comparison; listed).
  destruct (joined_tail condition_lexemes (fun c => condition_node (condition_of c)) BAnd [BAnd] _ d
              after_comparison cs ltac:(set_solver) ltac:(unfold after_comparison; listed) Hcmp c i t Hs Ht Hafter)
    as (t1 & Ht1 & Hv1 & Htail).
  pose proof (lookup_lt_Some _ _ _ Ht). rewrite <- conjunction_fold.
  apply (reads_chain_stop tokens [[BOr]] _ _ t); [lia | | done | rewrite Hv; by apply blocks_listed].
  apply (reads_binaryLevel _ _ d i _ _ _ t (condition_node (condition_of c))) with (2 := Htail);
    [ | done | rewrite Hv; by apply blocks_listed].
  rewrite condition_lexemes_length in *. apply reads_comparison with (t := t1); [done | | done | done].
  by apply (joined_head (js "&&") _ (condition_lexemes <$> cs)).
Qed.

(** The tree of a configuration. *)
Fixpoint config_node (k : nat) (tiers : VisualConfig) : ExpressionNode :=
  match tiers with
  | [] => Literal (VNumber zero)
  | [tier] => tier_node (tier_name k tier) (sum_node (tier_terms tier))
  | tier :: rest =>
      Conditional (conditions_node (condition_of <$> kept tier))
        (tier_node (tier_name k tier) (sum_node (tier_terms tier))) (config_node (S k) rest)
  end.

(** A condition, a tier and the rest of the ladder. *)
Lemma reads_rung n i d tier name rest_lexemes rest_node t :
  tier_valid name tier = true → rung_valid tier = true → S d < MAX_PARSE_DEPTH →
  (∀ j, segment tokens j rest_lexemes → tokens !! (j + length rest_lexemes) = Some t →
     reads (C (S (S n))) j (S d) rest_node (j + length rest_lexemes)) →
  let lexemes := conditions_lexemes (kept tier) ++ symbol (js "?") ::
                 tier_lexemes name (tier_terms tier) ++ symbol (js ":") :: rest_lexemes in
  segment tokens i lexemes → tokens !! (i + length lexemes) = Some t →
  reads (C (S (S (S n)))) i d
    (Conditional (conditions_node (condition_of <$> kept tier))
       (tier_node name (sum_node (tier_terms tier))) rest_node) (i + length lexemes).
Proof.
  intros Htier Hrung Hd Hrest lexemes Hs Ht. unfold tier_valid in Htier. unfold rung_valid in Hrung. bools.
  apply segment_app in Hs as [Hcond Hs]. apply segment_cons in Hs as [(t0 & Ht0 & Hty0 & Hv0) Hs].
  apply segment_app in Hs as [Hcall Hs]. apply segment_cons in Hs as [(t1 & Ht1 & Hty1 & Hv1) Hs].
  simpl in Hty0, Hv0, Hty1, Hv1.
  set (j0 := i + length (conditions_lexemes (kept tier))) in *.
  set (j1 := S j0 + length (tier_lexemes name (tier_terms tier))) in *.
  assert (Hend : i + length lexemes = S j1 + length rest_lexemes)
    by (unfold lexemes, j1, j0; rewrite length_app; simpl; rewrite length_app; simpl; lia).
  rewrite Hend in *. rewrite C_S. eapply reads_bind; [by eapply reads_conditions | ].
  eapply reads_bind; [eapply reads_consume_true; [exact Ht0 | by rewrite Hty0 | done] | ].
  apply reads_withDepth; [lia | ].
  eapply reads_bind; [eapply reads_tier; [done | apply tier_terms_nonempty | done | done | exact Hcall | exact Ht1 | ] | ].
  { rewrite Hv1. unfold stop. listed. }
  eapply reads_bind; [eapply reads_expect; [exact Ht1 | by rewrite Hty1 | done] | ].
  eapply reads_bind; [by apply Hrest | apply reads_ret].
Qed.

Lemma reads_ladder tiers : ∀ k n i d t,
  ladder_valid k tiers = true → length tiers + 1 ≤ n → d + length tiers ≤ MAX_PARSE_DEPTH →
  segment tokens i (ladder_lexemes k tiers) →
  tokens !! (i + length (ladder_lexemes k tiers)) = Some t → stop (value t) →
  reads (C n) i d (config_node k tiers) (i + length (ladder_lexemes k tiers)).
Proof.
  induction tiers as [|tier rest IH]; intros k n i d t Hv Hn Hd Hs Ht Hstop; [done | ].
  destruct rest as [|tier' rest].
  - destruct n as [|[|n]]; [simpl in Hn; lia | simpl in Hn; lia | ].
    cbn [ladder_valid] in Hv. unfold tier_valid in Hv. bools.
    eapply reads_tier; eauto using tier_terms_nonempty. simpl in Hd. lia.
  - change (tier_valid (tier_name k tier) tier && rung_valid tier && ladder_valid (S k) (tier' :: rest) = true) in Hv.
    apply andb_true_iff in Hv as [Hv Hrest]. apply andb_true_iff in Hv as [Htier Hrung].
    destruct n as [|[|[|n]]]; [simpl in Hn; lia .. | ].
    eapply reads_rung with (t := t); [done | done | simpl in Hd; lia | | exact Hs | exact Ht].
    intros j Hsj Htj. eapply IH; [done | simpl in *; lia | simpl in *; lia | done | done | done].
Qed.
End reading.
