(* ===== verification/TierExprPricing.v ===== *)
(** * The visual editor of tiered prices: what its text charges

    The text of a valid configuration is read as its tree, and evaluating the text is
    the same as choosing the first tier whose conditions hold and adding its products. *)

From stdpp Require Import base numbers strings option sets list.
From Stdlib Require Import SpecFloat ZArith Lia.
From S2P Require Import Prelude JsNumber Json ExprSyntax ExprTokenizer ExprParser ExprRoundTrip.
From S2P Require Import ExprValidator ExprEvaluator ExprSoundness BillingExpr NumberText TierExpr.
From S2P Require Import TierExprReading.

(** ** The text of a configuration as a tree *)

Definition empty_terms : list (ustring * number) := [(js "p", zero); (js "c", zero)].

Definition single_name (tier : VisualTier) : ustring := label_or (label tier) (js "default").

(** Configurations whose text means what they show. *)
Definition config_valid (config : VisualConfig) : bool :=
  match config with
  | [] => true
  | [tier] =>
      tier_valid (single_name tier) tier &&
      (bool_decide (kept tier = []) || rung_valid tier)
  | tiers => ladder_valid 0 tiers
  end.

Definition config_lexemes (config : VisualConfig) : list lexeme :=
  match config with
  | [] => body_lexemes empty_terms
  | [tier] =>
      let call := tier_lexemes (single_name tier) (tier_terms tier) in
      if bool_decide (kept tier = []) then call
      else conditions_lexemes (kept tier) ++ symbol (js "?") :: call ++ symbol (js ":") ::
           body_lexemes empty_terms
  | tiers => ladder_lexemes 0 tiers
  end.

Definition visual_node (config : VisualConfig) : ExpressionNode :=
  match config with
  | [] => sum_node empty_terms
  | [tier] =>
      let call := tier_node (single_name tier) (sum_node (tier_terms tier)) in
      if bool_decide (kept tier = []) then call
      else Conditional (conditions_node (condition_of <$> kept tier)) call (sum_node empty_terms)
  | tiers => config_node 0 tiers
  end.

Lemma empty_renders : renders (body_lexemes empty_terms) EMPTY_EXPR.
Proof. apply (body_renders empty_terms); [done | by vm_compute]. Qed.

Lemma no_condition tier : kept tier = [] → truthy (buildConditionStr (conditions tier)) = false.
Proof. intros H. unfold buildConditionStr. fold (kept tier). by rewrite H. Qed.

Lemma config_renders config :
  config_valid config = true →
  renders (config_lexemes config) (generateExprFromVisualConfig (Some config)).
Proof.
  destruct config as [|tier [|tier' rest]]; intros Hv.
  - apply empty_renders.
  - cbn [config_valid] in Hv. apply andb_true_iff in Hv as [Htier Hcond].
    unfold tier_valid in Htier. apply andb_true_iff in Htier as [Hname Hts].
    pose proof (tier_renders _ _ Hname Hts) as Hcall.
    unfold config_lexemes, generateExprFromVisualConfig. fold (single_name tier).
    destruct (decide (kept tier = [])) as [Hk | Hk].
    + rewrite bool_decide_eq_true_2, no_condition by done. done.
    + rewrite bool_decide_eq_false_2 in Hcond |- * by done. simpl in Hcond.
      rewrite rung_condition by done. unfold rung_valid in Hcond. bools.
      pose proof (renders_symbol _ _ _ _ (js "?") ltac:(listed)
                    (conditions_renders tier ltac:(done) ltac:(done)) Hcall) as H1.
      pose proof (renders_symbol _ _ _ _ (js ":") ltac:(listed) H1 empty_renders) as H2.
      by rewrite <- !app_assoc in H2.
  - by apply ladder_renders.
Qed.

(** The limits of the expression language, on the length, the tokens, the nesting of the
    parser and the nesting of the evaluator. *)
Definition config_fits (config : VisualConfig) : bool :=
  (length (generateExprFromVisualConfig (Some config)) <=? MAX_EXPRESSION_LENGTH) &&
  (length (config_lexemes config) <=? MAX_TOKENS) &&
  (length config <=? 100) && forallb (fun t => length (kept t) <=? 100) config.

Lemma reads_empty tokens n i d t :
  segment tokens i (body_lexemes empty_terms) →
  tokens !! (i + length (body_lexemes empty_terms)) = Some t → value t = [] →
  reads (fst (levels tokens (S n))) i d (sum_node empty_terms) (i + length (body_lexemes empty_terms)).
Proof.
  intros Hs Ht Hv. assert (Ha : after_sum (value t)) by (rewrite Hv; unfold after_sum; listed).
  eapply sum_conditional; [ | exact Ht | by apply after_sum_stop].
  eapply reads_sum; [done | by vm_compute | done | exact Ht | done].
Qed.

Lemma reads_config tokens config p :
  config_valid config = true → length config ≤ 100 →
  segment tokens 0 (config_lexemes config) →
  tokens !! length (config_lexemes config) = Some (mkToken TEof [] p) →
  reads (fst (levels tokens (S MAX_PARSE_DEPTH))) 0 0 (visual_node config) (length (config_lexemes config)).
Proof.
  intros Hv Hl Hs Ht. assert (Hstop : stop []) by (unfold stop; listed).
  assert (Hmax : MAX_PARSE_DEPTH = 128) by done.
  destruct config as [|tier [|tier' rest]].
  - by eapply (reads_empty tokens _ 0 0).
  - cbn [config_valid] in Hv. apply andb_true_iff in Hv as [Htier Hcond].
    unfold config_lexemes, visual_node in *. destruct (decide (kept tier = [])) as [Hk | Hk].
    + rewrite bool_decide_eq_true_2 in * by done. unfold tier_valid in Htier. bools.
      rewrite Hmax in *. eapply (reads_tier tokens _ 0 0); eauto using tier_terms_nonempty. lia.
    + rewrite bool_decide_eq_false_2 in * by done. simpl in Hcond. rewrite Hmax in *.
      eapply (reads_rung tokens _ 0 0); [done | done | lia | | exact Hs | exact Ht].
      intros j Hsj Htj. by eapply reads_empty.
  - eapply (reads_ladder tokens _ 0 _ 0 0); [done | | | done | exact Ht | done]; lia.
Qed.

Lemma read_config config :
  config_valid config = true → config_fits config = true →
  (tokenize (generateExprFromVisualConfig (Some config)) ≫= parse) = Ok (visual_node config).
Proof.
  unfold config_fits. intros Hv Hf. bools.
  destruct (tokenize_glued _ _ (renders_glued _ _ (config_renders config Hv))) as (ts & -> & Hts); [done | ].
  simpl. eapply parse_tokens; [exact Hts | ]. intros tokens Hs Heof. by eapply reads_config.
Qed.

(** ** The reference: what a configuration charges *)

Section pricing.
  Context (js_pow : number → number → number) (env : BillingExpressionEnvironment).
  Abbreviation eval := (evaluateNode js_pow env).

(** A number, unless it overflowed. *)
Definition finite (x : number) : option number := if is_finite x then Some x else None.

(** The product of a term and the sum of several, from left to right. *)
Definition term_price (t : ustring * number) : option number :=
  x ← lookup_env env t.1; finite (num_mul x t.2).

Definition terms_price (ts : list (ustring * number)) : option number :=
  match ts with
  | [] => Some zero
  | t :: ts' => fold_left (fun acc t => a ← acc; x ← term_price t; finite (num_add a x)) ts' (term_price t)
  end.

(** Whether all the conditions of a tier hold for the request. *)
Definition applies (tier : VisualTier) : bool :=
  forallb (fun c => holds env (condition_of c)) (kept tier).

(** The first tier that applies; the last one applies always. *)
Fixpoint chosen (k : nat) (tiers : VisualConfig) : ustring * list (ustring * number) :=
  match tiers with
  | [] => ([], [])
  | [tier] => (tier_name k tier, tier_terms tier)
  | tier :: rest =>
      if applies tier then (tier_name k tier, tier_terms tier) else chosen (S k) rest
  end.

Definition chosen_tier (config : VisualConfig) : ustring * list (ustring * number) :=
  match config with
  | [] => ([], empty_terms)
  | [tier] => if applies tier then (single_name tier, tier_terms tier) else ([], empty_terms)
  | tiers => chosen 0 tiers
  end.

Definition charge (config : VisualConfig) : result expr_error BillingExpressionResult :=
  let '(name, ts) := chosen_tier config in
  match terms_price ts with
  | Some x => if num_ltb x zero then Err ENegativeCost else Ok (mkResult x name)
  | None => Err ENonFinite
  end.

(** ** Evaluating the tree *)

Definition of_price (p : option number) (m : ustring) : result expr_error (ExpressionValue * ustring) :=
  match p with Some x => Ok (VNumber x, m) | None => Err ENonFinite end.

(** The variables of the terms have a value. *)
Definition has_variable (v : ustring) : Prop := hasOwn env v = true.

Lemma eval_term t d m :
  has_variable t.1 → has_text t.2 = true → S d ≤ MAX_EVALUATION_DEPTH →
  (∀ v x, lookup_env env v = Some x → is_finite x = true) →
  eval (term_node t) d m = of_price (term_price t) m.
Proof.
  intros Hv Ht Hd Henv. unfold has_variable, hasOwn in Hv. unfold term_price, term_node.
  destruct (lookup_env env t.1) as [x|] eqn:Ex; [ | done]. cbn [evaluateNode].
  rewrite !depth_ok by lia. unfold mbind, evaluator_bind, option_bind. rewrite Ex. simpl.
  unfold expectNumber, ensureFinite. rewrite (Henv _ _ Ex), (has_text_finite _ Ht). simpl.
  unfold finite. by destruct (is_finite _).
Qed.

Definition terms_ok (ts : list (ustring * number)) : Prop :=
  Forall (fun t => has_variable t.1 ∧ has_text t.2 = true) ts.

Lemma left_fold_snoc rest oe acc : left_fold (rest ++ [oe]) acc = Binary oe.1 (left_fold rest acc) oe.2.
Proof. unfold left_fold. by rewrite fold_left_app. Qed.

Lemma terms_price_snoc t ts t' :
  terms_price (t :: ts ++ [t']) =
    (a ← terms_price (t :: ts); x ← term_price t'; finite (num_add a x)).
Proof. unfold terms_price. by rewrite fold_left_app. Qed.

Lemma sum_node_snoc t ts t' : sum_node (t :: ts ++ [t']) = Binary BAdd (sum_node (t :: ts)) (term_node t').
Proof. unfold sum_node. rewrite fmap_app. apply left_fold_snoc. Qed.

Context (Henv : ∀ v x, lookup_env env v = Some x → is_finite x = true).

Lemma eval_sum ts d m :
  terms_ok ts → d + length ts ≤ MAX_EVALUATION_DEPTH →
  eval (sum_node ts) d m = of_price (terms_price ts) m.
Proof.
  destruct ts as [|t ts]; [intros _ Hd; cbn [sum_node evaluateNode]; by rewrite depth_ok by (simpl in Hd; lia) | ].
  revert d; induction ts as [|t' ts IH] using rev_ind; intros d Hok Hd.
  - apply Forall_cons in Hok as [[Hv Ht] _]. simpl in Hd. apply eval_term; auto; lia.
  - rewrite app_comm_cons in Hok. apply Forall_app in Hok as [Hok Ht'].
    apply Forall_singleton in Ht' as [Hv' Ht'].
    simpl in Hd. rewrite length_app in Hd. simpl in Hd.
    rewrite sum_node_snoc, terms_price_snoc. cbn [evaluateNode]. rewrite depth_ok by lia.
    unfold mbind at 1, evaluator_bind at 1. rewrite (IH (S d)) by (done || simpl; lia).
    destruct (terms_price (t :: ts)) as [a|]; [ | done]. cbn [of_price mbind option_bind].
    unfold mbind at 1, evaluator_bind at 1. rewrite eval_term by (done || lia).
    destruct (term_price t') as [x|]; [ | done]. cbn [of_price mbind option_bind].
    cbn [evaluateStrict lift]. unfold lift, finite, ensureFinite. by destruct (is_finite (num_add a x)).
Qed.

Lemma finite_finite x y : finite x = Some y → is_finite y = true.
Proof. unfold finite. destruct (is_finite x) eqn:E; [by intros [= <-] | done]. Qed.

Lemma terms_price_finite ts x : terms_price ts = Some x → is_finite x = true.
Proof.
  destruct ts as [|t ts]; [by intros [= <-] | ].
  induction ts as [|t' ts _] using rev_ind.
  - simpl. unfold term_price. destruct (lookup_env env t.1); [apply finite_finite | done].
  - rewrite terms_price_snoc. destruct (terms_price (t :: ts)) as [a|]; [ | done]. simpl.
    destruct (term_price t'); [apply finite_finite | done].
Qed.

Lemma eval_tier name ts d m :
  terms_ok ts → d + 1 + length ts ≤ MAX_EVALUATION_DEPTH →
  eval (tier_node name (sum_node ts)) d m = of_price (terms_price ts) name.
Proof.
  intros Hok Hd. unfold tier_node. cbn [evaluateNode mapEvaluator].
  rewrite !depth_ok by lia. unfold mbind, evaluator_bind, mret, evaluator_ret.
  rewrite eval_sum by (done || lia).
  destruct (terms_price ts) as [x|] eqn:Ex; [ | done]. cbn [of_price].
  change (evaluateBuiltin Tier (js "tier") [VString name; VNumber x] m = Ok (VNumber x, name)).
  by rewrite tier_builtin, (terms_price_finite _ _ Ex).
Qed.

(** A tier whose terms and valid conditions have their variables in the environment. *)
Definition tier_known (tier : VisualTier) : Prop :=
  terms_ok (tier_terms tier) ∧
  (rung_valid tier = true → Forall (fun c => condition_ok env (condition_of c)) (kept tier)).

Lemma forallb_fmap {A B} (f : A → B) (p : B → bool) l :
  forallb p (f <$> l) = forallb (fun x => p (f x)) l.
Proof. induction l as [|x l IH]; [done | ]. rewrite fmap_cons. cbn [forallb]. by rewrite IH. Qed.

Lemma eval_rung tier name rest d m :
  tier_known tier → rung_valid tier = true → d + 1 + length (kept tier) ≤ MAX_EVALUATION_DEPTH →
  d + 2 + length (tier_terms tier) ≤ MAX_EVALUATION_DEPTH →
  eval (Conditional (conditions_node (condition_of <$> kept tier))
          (tier_node name (sum_node (tier_terms tier))) rest) d m =
    if applies tier then of_price (terms_price (tier_terms tier)) name else eval rest (S d) m.
Proof.
  intros [Hts Hcs] Hvalid Hd1 Hd2. cbn [evaluateNode]. rewrite depth_ok by lia.
  unfold mbind, evaluator_bind. rewrite eval_conditions.
  - unfold applies. rewrite forallb_fmap. cbn [lift expectBoolean].
    destruct (forallb _ _); [ | done]. rewrite eval_tier by (done || lia). done.
  - by apply Forall_fmap, Hcs.
  - rewrite length_fmap. lia.
Qed.

Definition small (tiers : VisualConfig) : Prop :=
  length tiers ≤ 100 ∧ Forall (fun t => length (kept t) ≤ 100) tiers.

Lemma eval_ladder_config tiers : ∀ k d m,
  ladder_valid k tiers = true → Forall tier_known tiers → Forall (fun t => length (kept t) ≤ 100) tiers →
  d + length tiers ≤ 101 →
  eval (config_node k tiers) d m =
    of_price (terms_price (chosen k tiers).2) (chosen k tiers).1.
Proof.
  assert (Hmax : MAX_EVALUATION_DEPTH = 256) by done.
  induction tiers as [|tier rest IH]; intros k d m Hv Hknown Hsmall Hd; [done | ].
  apply Forall_cons in Hknown as [Htier Hknown]. apply Forall_cons in Hsmall as [Hcs Hsmall].
  pose proof (tier_terms_length tier). simpl in Hd.
  destruct rest as [|tier' rest]; [apply (eval_tier _ (tier_terms tier)); [apply Htier | lia] | ].
  change (tier_valid (tier_name k tier) tier && rung_valid tier && ladder_valid (S k) (tier' :: rest) = true) in Hv.
  apply andb_true_iff in Hv as [Hv Hrest]. apply andb_true_iff in Hv as [_ Hrung].
  change (config_node k (tier :: tier' :: rest)) with
    (Conditional (conditions_node (condition_of <$> kept tier))
       (tier_node (tier_name k tier) (sum_node (tier_terms tier))) (config_node (S k) (tier' :: rest))).
  change (chosen k (tier :: tier' :: rest)) with
    (if applies tier then (tier_name k tier, tier_terms tier) else chosen (S k) (tier' :: rest)).
  rewrite eval_rung by (done || lia). destruct (applies tier); [done | ].
  apply IH; [done | done | done | simpl in *; lia].
Qed.

Lemma eval_config config m :
  config_valid config = true → Forall tier_known config → terms_ok empty_terms → small config →
  eval (visual_node config) 0 m =
    of_price (terms_price (chosen_tier config).2)
      (match config with [] => m | [tier] => if applies tier then single_name tier else m | _ => (chosen 0 config).1 end).
Proof.
  assert (Hmax : MAX_EVALUATION_DEPTH = 256) by done.
  intros Hv Hknown Hempty [Hl Hcs]. destruct config as [|tier [|tier' rest]].
  - apply eval_sum; [done | simpl; lia].
  - rewrite Forall_singleton in Hknown. rewrite Forall_singleton in Hcs.
    pose proof (tier_terms_length tier). unfold visual_node, chosen_tier.
    destruct (decide (kept tier = [])) as [Hk | Hk].
    + assert (Happ : applies tier = true) by (unfold applies; by rewrite Hk).
      rewrite bool_decide_eq_true_2, Happ by done. apply (eval_tier _ (tier_terms tier)); [apply Hknown | lia].
    + cbn [config_valid] in Hv. apply andb_true_iff in Hv as [_ Hv].
      rewrite bool_decide_eq_false_2 in Hv |- * by done. rewrite eval_rung by (done || lia).
      destruct (applies tier); [done | ]. apply eval_sum; [done | simpl; lia].
  - apply eval_ladder_config; [done | done | done | lia].
Qed.

(** ** The tree passes the validator *)

Abbreviation static_type e d := (validateNode env e d).

Lemma check_term t d :
  has_variable t.1 → S d ≤ MAX_EVALUATION_DEPTH → static_type (term_node t) d = Ok StNumber.
Proof.
  intros Hv Hd. unfold term_node. cbn [validateNode]. rewrite !depth_ok by lia.
  unfold has_variable in Hv. by rewrite Hv.
Qed.

Lemma check_sum ts d :
  terms_ok ts → d + length ts ≤ MAX_EVALUATION_DEPTH → static_type (sum_node ts) d = Ok StNumber.
Proof.
  destruct ts as [|t ts]; [intros _ Hd; cbn [sum_node validateNode]; by rewrite depth_ok by (simpl in Hd; lia) | ].
  revert d; induction ts as [|t' ts IH] using rev_ind; intros d Hok Hd.
  - apply Forall_cons in Hok as [[Hv _] _]. simpl in Hd. apply check_term; [done | lia].
  - rewrite app_comm_cons in Hok. apply Forall_app in Hok as [Hok Ht'].
    rewrite Forall_singleton in Ht'. simpl in Hd. rewrite length_app in Hd. simpl in Hd.
    rewrite sum_node_snoc. cbn [validateNode]. rewrite depth_ok by lia.
    rewrite IH by (done || simpl; lia). rewrite check_term by (apply Ht' || lia). done.
Qed.

Lemma check_tier name ts d :
  terms_ok ts → d + 1 + length ts ≤ MAX_EVALUATION_DEPTH →
  static_type (tier_node name (sum_node ts)) d = Ok StNumber.
Proof.
  intros Hok Hd. unfold tier_node. cbn [validateNode mapResult]. rewrite !depth_ok by lia.
  by rewrite check_sum by (done || lia).
Qed.

Lemma check_condition c d :
  condition_ok env c → S d ≤ MAX_EVALUATION_DEPTH → static_type (condition_node c) d = Ok StBoolean.
Proof.
  intros [Hv Hop] Hd. unfold condition_node. cbn [validateNode]. rewrite !depth_ok by lia. rewrite Hv.
  set_unfold in Hop. by destruct Hop as [-> | [-> | [-> | [-> | []]]]].
Qed.

Lemma check_conditions cs d :
  Forall (condition_ok env) cs → d + length cs ≤ MAX_EVALUATION_DEPTH →
  static_type (conditions_node cs) d = Ok StBoolean.
Proof.
  destruct cs as [|c cs]; [intros _ Hd; cbn [conditions_node validateNode]; by rewrite depth_ok by (simpl in Hd; lia) | ].
  cbn [conditions_node]. revert d; induction cs as [|c' cs IH] using rev_ind; intros d Hok Hd.
  - apply Forall_cons in Hok as [Hc _]. simpl in Hd. apply check_condition; [done | lia].
  - rewrite app_comm_cons in Hok. apply Forall_app in Hok as [Hok Hc'].
    rewrite Forall_singleton in Hc'. simpl in Hd. rewrite length_app in Hd. simpl in Hd.
    unfold conjunction. rewrite fold_left_app. cbn [fold_left]. fold (conjunction c cs).
    cbn [validateNode]. rewrite depth_ok by lia.
    rewrite IH by (done || simpl; lia). by rewrite check_condition by (done || lia).
Qed.

Lemma check_rung tier name rest d :
  tier_known tier → rung_valid tier = true → d + 1 + length (kept tier) ≤ MAX_EVALUATION_DEPTH →
  d + 2 + length (tier_terms tier) ≤ MAX_EVALUATION_DEPTH → static_type rest (S d) = Ok StNumber →
  static_type (Conditional (conditions_node (condition_of <$> kept tier))
           (tier_node name (sum_node (tier_terms tier))) rest) d = Ok StNumber.
Proof.
  intros [Hts Hcs] Hvalid Hd1 Hd2 Hrest. cbn [validateNode]. rewrite depth_ok by lia.
  rewrite check_conditions; [ | by apply Forall_fmap, Hcs | rewrite length_fmap; lia].
  rewrite check_tier by (done || lia). by rewrite Hrest.
Qed.

Lemma check_ladder tiers : ∀ k d,
  ladder_valid k tiers = true → Forall tier_known tiers → Forall (fun t => length (kept t) ≤ 100) tiers →
  d + length tiers ≤ 101 → static_type (config_node k tiers) d = Ok StNumber.
Proof.
  assert (Hmax : MAX_EVALUATION_DEPTH = 256) by done.
  induction tiers as [|tier rest IH]; intros k d Hv Hknown Hsmall Hd; [done | ].
  apply Forall_cons in Hknown as [Htier Hknown]. apply Forall_cons in Hsmall as [Hcs Hsmall].
  pose proof (tier_terms_length tier). simpl in Hd.
  destruct rest as [|tier' rest]; [apply check_tier; [apply Htier | lia] | ].
  change (tier_valid (tier_name k tier) tier && rung_valid tier && ladder_valid (S k) (tier' :: rest) = true) in Hv.
  apply andb_true_iff in Hv as [Hv Hrest]. apply andb_true_iff in Hv as [_ Hrung].
  apply check_rung; [done | done | lia | lia | ]. apply IH; [done | done | done | simpl in *; lia].
Qed.

Lemma check_config config :
  config_valid config = true → Forall tier_known config → terms_ok empty_terms → small config →
  static_type (visual_node config) 0 = Ok StNumber.
Proof.
  assert (Hmax : MAX_EVALUATION_DEPTH = 256) by done.
  intros Hv Hknown Hempty [Hl Hcs]. destruct config as [|tier [|tier' rest]].
  - apply check_sum; [done | simpl; lia].
  - rewrite Forall_singleton in Hknown. rewrite Forall_singleton in Hcs.
    pose proof (tier_terms_length tier). unfold visual_node.
    cbn [config_valid] in Hv. apply andb_true_iff in Hv as [_ Hv]. destruct (bool_decide (kept tier = [])).
    + apply check_tier; [apply Hknown | lia].
    + apply check_rung; [done | done | lia | lia | ]. apply check_sum; [done | simpl; lia].
  - apply check_ladder; [done | done | done | lia].
Qed.
End pricing.

(** ** The theorems *)

(** The text never looks like a version prefix. *)
Definition no_version (s : ustring) : Prop := ∃ c t, s = c :: t ∧ c ≠ chr "v".

Lemma no_version_app s s' : no_version s → no_version (s ++ s').
Proof. intros (c & t & -> & Hc). by exists c, (t ++ s'). Qed.

Lemma no_version_prefix s : no_version s → starts_with (js "v1:") s = false.
Proof.
  intros (c & t & -> & Hc). change (js "v1:") with (chr "v" :: js "1:"). cbn [starts_with].
  by rewrite (proj2 (Z.eqb_neq (chr "v") c)) by congruence.
Qed.

Lemma tier_no_version name tier : no_version (tier_text name tier).
Proof. apply (no_version_app (js "tier(")). by exists (chr "t"), (js "ier("). Qed.

Lemma conditions_no_version tier :
  rung_valid tier = true → no_version (buildConditionStr (conditions tier)).
Proof.
  unfold rung_valid, buildConditionStr. fold (kept tier). intros H. bools.
  destruct (kept tier) as [|c cs]; [done | ]. cbn [forallb] in H0.
  apply andb_true_iff in H0 as [Hc _]. unfold condition_valid in Hc. bools.
  assert (Hv : no_version (condition_text c)).
  { apply no_version_app.
    match goal with Hv : condition_var c ∈ _ |- _ => set_unfold in Hv; destruct Hv as [-> | [-> | [-> | []]]] end;
      by eexists _, _. }
  rewrite fmap_cons. destruct cs as [|c' cs]; [done | ].
  rewrite fmap_cons, join_cons by done. by apply no_version_app.
Qed.

Lemma generated_no_version config :
  config_valid config = true → no_version (generateExprFromVisualConfig (Some config)).
Proof.
  destruct config as [|tier [|tier' rest]]; intros Hv.
  - by exists (chr "p"), (js " * 0 + c * 0").
  - cbn [config_valid] in Hv. apply andb_true_iff in Hv as [_ Hv].
    unfold generateExprFromVisualConfig. destruct (decide (kept tier = [])) as [Hk | Hk].
    + rewrite no_condition by done. apply tier_no_version.
    + rewrite bool_decide_eq_false_2 in Hv by done. simpl in Hv. rewrite rung_condition by done.
      by apply no_version_app, conditions_no_version.
  - change (tier_valid (tier_name 0 tier) tier && rung_valid tier && ladder_valid 1 (tier' :: rest) = true) in Hv.
    apply andb_true_iff in Hv as [Hv _]. apply andb_true_iff in Hv as [_ Hrung].
    unfold generateExprFromVisualConfig. cbn [tier_parts]. rewrite bool_decide_eq_false_2 by done.
    rewrite rung_condition by done. cbn [negb andb]. rewrite join_cons by done.
    by apply no_version_app, no_version_app, conditions_no_version.
Qed.

Section charging.
  Context (js_pow : number → number → number) (env : BillingExpressionEnvironment).
  Context (Hvars : ∀ v, v ∈ billing_variables → hasOwn env v = true).
  Context (Hcheck : checkEnvironment env = Ok tt).

Lemma environment_finite v x : lookup_env env v = Some x → is_finite x = true.
Proof.
  revert Hcheck. clear Hvars. induction env as [|[name y] env' IH]; [done | ]. simpl.
  destruct (negb (is_finite y) || num_ltb y zero) eqn:E; [done | ]. bools. intros Hc.
  branch; [by intros [= <-] | by apply IH].
Qed.

Lemma tier_terms_ok tier : forallb term_ok (tier_terms tier) = true → terms_ok env (tier_terms tier).
Proof.
  intros H. apply Forall_forall. intros t Ht. rewrite forallb_forall in H.
  specialize (H t ltac:(by apply list_elem_of_In)). unfold term_ok in H. bools.
  split; [ | done]. apply Hvars. by eapply term_variables.
Qed.

Lemma tier_valid_known name tier : tier_valid name tier = true → tier_known env tier.
Proof.
  unfold tier_valid. intros H. bools. split; [by apply tier_terms_ok | ].
  unfold rung_valid. intros Hr. bools. apply Forall_forall. intros c Hc. rewrite forallb_forall in *.
  match goal with Hf : ∀ x, In x (kept tier) → _ |- _ =>
    specialize (Hf c ltac:(by apply list_elem_of_In)); unfold condition_valid in Hf end.
  bools. match goal with H : is_Some _ |- _ => destruct H as [o Ho] end.
  split; simpl.
  - apply Hvars. unfold billing_variables. set_solver.
  - rewrite Ho. by apply op_of_text in Ho as [_ ?].
Qed.

Lemma ladder_valid_known k tiers : ladder_valid k tiers = true → Forall (tier_known env) tiers.
Proof.
  revert k; induction tiers as [|tier rest IH]; intros k Hv; [done | ].
  destruct rest as [|tier' rest]; [constructor; [by eapply tier_valid_known | constructor] | ].
  change (tier_valid (tier_name k tier) tier && rung_valid tier && ladder_valid (S k) (tier' :: rest) = true) in Hv.
  apply andb_true_iff in Hv as [Hv Hrest]. apply andb_true_iff in Hv as [Ht _].
  constructor; [by eapply tier_valid_known | by eapply IH].
Qed.

Lemma config_valid_known config : config_valid config = true → Forall (tier_known env) config.
Proof.
  destruct config as [|tier [|tier' rest]]; intros Hv; [constructor | | by eapply ladder_valid_known].
  cbn [config_valid] in Hv. apply andb_true_iff in Hv as [Hv _].
  constructor; [by eapply tier_valid_known | constructor].
Qed.

Lemma empty_terms_ok : terms_ok env empty_terms.
Proof. repeat constructor; apply Hvars; listed. Qed.

Lemma config_fits_small config : config_fits config = true → small config.
Proof.
  unfold config_fits. intros H. bools. split; [done | ]. apply Forall_forall. intros t Ht.
  rewrite forallb_forall in *. apply Nat.leb_le. by match goal with Hf : ∀ x, In x config → _ |- _ => apply Hf, list_elem_of_In end.
Qed.

Lemma evaluate_config config :
  config_valid config = true → config_fits config = true →
  (_ ← validate env (visual_node config); evaluate js_pow env (visual_node config)) = charge env config.
Proof.
  intros Hv Hf. pose proof (config_valid_known config Hv) as Hknown.
  pose proof (config_fits_small config Hf) as Hsmall.
  unfold validate, evaluate. rewrite check_config by auto using empty_terms_ok. simpl.
  rewrite Hcheck. simpl.
  rewrite (eval_config js_pow env environment_finite) by auto using empty_terms_ok.
  unfold charge. destruct (chosen_tier env config) as [name ts] eqn:Ec. simpl.
  destruct (terms_price env ts) as [x|] eqn:Ex; [ | done]. simpl.
  unfold ensureFinite. rewrite (terms_price_finite env ts x Ex). simpl.
  destruct (num_ltb x zero); [done | ]. do 2 f_equal.
  destruct config as [|tier [|tier' rest]]; simpl in Ec |- *; [by injection Ec | | ].
  - by destruct (applies env tier); injection Ec.
  - by rewrite Ec.
Qed.
End charging.

Lemma bind_Ok {E A B} (a : A) (f : A → result E B) : (Ok a ≫= f) = f a.
Proof. done. Qed.

Lemma evaluate_text js_pow text env node :
  length text ≤ MAX_EXPRESSION_LENGTH → starts_with (js "v1:") text = false →
  (tokenize text ≫= parse) = Ok node →
  evaluateBillingExpression js_pow text env = (_ ← validate env node; evaluate js_pow env node).
Proof.
  intros Hlen Hversion Hread.
  assert (H : evaluateBillingExpression js_pow text env =
    (tokenize text ≫= (fun tokens => parse tokens ≫= (fun node =>
       validate env node ≫= (fun _ => evaluate js_pow env node))))).
  { unfold evaluateBillingExpression. rewrite Hversion.
    rewrite (proj2 (Nat.ltb_ge _ _)) by exact Hlen. reflexivity. }
  rewrite H. apply bind_Ok_inv in Hread as (tokens & -> & Hread).
  by rewrite bind_Ok, Hread, bind_Ok.
Qed.

(** The text the visual editor writes for a valid configuration is read back as
    exactly the tree of its tiers: each condition a conjunction of comparisons, each
    tier a call with its label and its sum of products, nested in the order shown. *)
Theorem visual_text_reads_back (config : VisualConfig) :
  config_valid config = true → config_fits config = true →
  (tokenize (generateExprFromVisualConfig (Some config)) ≫= parse) = Ok (visual_node config).
Proof. apply read_config. Qed.

(** C18: Evaluating the text of a valid configuration is the same as the reference
    [charge]: take the first tier whose conditions all hold (the last one when none
    does), add its products from left to right, and report its label; the only errors are
    an overflow and a negative total.  This holds for every request that gives the
    billing variables non-negative finite values. *)
Theorem visual_config_charges js_pow env (config : VisualConfig) :
  config_valid config = true → config_fits config = true →
  (∀ v, v ∈ billing_variables → hasOwn env v = true) → checkEnvironment env = Ok tt →
  evaluateBillingExpression js_pow (generateExprFromVisualConfig (Some config)) env = charge env config.
Proof.
  intros Hv Hf Hvars Hcheck.
  rewrite (evaluate_text js_pow _ env (visual_node config)).
  - by apply evaluate_config.
  - unfold config_fits in Hf. by bools.
  - by apply no_version_prefix, generated_no_version.
  - by apply read_config.
Qed.

(** ** Samples *)

Definition sample_request : BillingExpressionEnvironment :=
  estimatorEnv (num_of_Z 1000) (num_of_Z 500)
    (mkExtra (Some (num_of_Z 40)) None None None None None None).

Lemma visual_text_reads_back_witness :
  (tokenize (generateExprFromVisualConfig (Some sample_config)) ≫= parse) = Ok (visual_node sample_config).
Proof. apply visual_text_reads_back; vm_compute; reflexivity. Defined.

Lemma visual_config_charges_witness :
  evaluateBillingExpression num_mul (generateExprFromVisualConfig (Some sample_config)) sample_request =
    charge sample_request sample_config.
Proof.
  apply visual_config_charges; [vm_compute; reflexivity | vm_compute; reflexivity | | vm_compute; reflexivity].
  assert (Hall : forallb (hasOwn sample_request) billing_variables = true) by (vm_compute; reflexivity).
  rewrite forallb_forall in Hall. intros v Hv. by apply Hall, list_elem_of_In.
Defined.

Example sample_charge :
  charge sample_request sample_config = Ok (mkResult (num_of_Z 7510) (js "short")).
Proof. vm_compute. reflexivity. Qed.

(** What the conditions of validity exclude: a label with a quote, a label that is an
    operator, and a tier before the last one without a condition give texts that the
    expression language refuses. *)
Definition refused (config : VisualConfig) : bool :=
  match evaluateBillingExpression num_mul (generateExprFromVisualConfig (Some config)) sample_request with
  | Ok _ => false
  | Err _ => true
  end.

Definition quoted_tier : VisualTier :=
  normalizeVisualTier
    {| partial_label := Some (js "a" ++ [DQUOTE] ++ js "b"); partial_conditions := None;
       partial_input := Some one; partial_output := Some one; partial_mode := None;
       partial_cache_read := None; partial_cache_create := None; partial_cache_create_1h := None;
       partial_image := None; partial_image_output := None;
       partial_audio_input := None; partial_audio_output := None |}.

Example quoted_label_refused : refused [quoted_tier] = true.
Proof. vm_compute. reflexivity. Qed.

Example operator_label_refused : refused [plain_tier "+" [] "1" "2"] = true.
Proof. vm_compute. reflexivity. Qed.

Example unconditional_tier_refused : refused [plain_tier "a" [] "1" "2"; plain_tier "b" [] "1" "2"] = true.
Proof. vm_compute. reflexivity. Qed.
