(* ===== verification/Regex.v ===== *)
(** * Regular expressions of the language

    A matcher with the order of the language: alternatives from left to right, repetition
    as long as possible first, and backtracking into both.  A match continues with what
    follows it, so [matches r text caps k] is the first way to match [r] at the front of
    [text] after which [k] succeeds.  Groups are captured by number. *)

From stdpp Require Import base numbers strings option sets list.
From Stdlib Require Import ZArith Lia.
From S2P Require Import Prelude.

Inductive regex :=
| REmpty
| RChar (p : Z → bool)
| RSeq (r1 r2 : regex)
| RAlt (r1 r2 : regex)
| RStar (r : regex)
| RGroup (n : nat) (r : regex)
| RBackref (n : nat).

Abbreviation captures := (list (nat * ustring)).

Fixpoint captured (n : nat) (caps : captures) : option ustring :=
  match caps with
  | [] => None
  | (i, s) :: caps' => if i =? n then Some s else captured n caps'
  end.

(** The text of a group, empty when the group took no part. *)
Definition group (n : nat) (caps : captures) : ustring := default [] (captured n caps).

Section matcher.
  Context {A : Type}.

(** The rounds of a repetition; a round that consumes nothing ends it. *)
Fixpoint star_loop (round : ustring → captures → (ustring → captures → option A) → option A)
    (fuel : nat) (text : ustring) (caps : captures) (k : ustring → captures → option A) : option A :=
  match fuel with
  | 0 => k text caps
  | S f =>
      match round text caps (fun rest caps' =>
              if length rest <? length text then star_loop round f rest caps' k else None) with
      | Some a => Some a
      | None => k text caps
      end
  end.

Fixpoint matches (r : regex) (text : ustring) (caps : captures)
    (k : ustring → captures → option A) {struct r} : option A :=
  match r with
  | REmpty => k text caps
  | RChar p =>
      match text with
      | c :: rest => if p c then k rest caps else None
      | [] => None
      end
  | RSeq r1 r2 => matches r1 text caps (fun rest caps' => matches r2 rest caps' k)
  | RAlt r1 r2 =>
      match matches r1 text caps k with Some a => Some a | None => matches r2 text caps k end
  | RStar r1 => star_loop (matches r1) (length text) text caps k
  | RGroup n r1 =>
      matches r1 text caps (fun rest caps' => k rest ((n, take (length text - length rest) text) :: caps'))
  | RBackref n =>
      let s := group n caps in
      if starts_with s text then k (drop (length s) text) caps else None
  end.
End matcher.

(** [$]: nothing follows. *)
Definition at_end (rest : ustring) (caps : captures) : option captures :=
  match rest with [] => Some caps | _ => None end.

(** [text.match(/^r$/)]: the captures of the first match of the whole text. *)
Definition match_all (r : regex) (text : ustring) : option captures := matches r text [] at_end.

(** [/^r$/.test(text)]. *)
Definition test_all (r : regex) (text : ustring) : bool :=
  match match_all r text with Some _ => true | None => false end.

(** [r.exec] at a place: the rest of the text and the captures. *)
Definition match_here (r : regex) (text : ustring) : option (ustring * captures) :=
  matches r text [] (fun rest caps => Some (rest, caps)).

(** The successive matches of a global expression that never matches the empty text.
    [starts prev text] tells whether a match may start there. *)
Fixpoint exec_from (starts : option Z → ustring → bool) (r : regex) (fuel : nat)
    (prev : option Z) (text : ustring) : list captures :=
  match fuel with
  | 0 => []
  | S f =>
      match (if starts prev text then match_here r text else None) with
      | Some (rest, caps) =>
          caps :: exec_from starts r f (last (take (length text - length rest) text)) rest
      | None => match text with [] => [] | c :: text' => exec_from starts r f (Some c) text' end
      end
  end.

Definition exec_all (r : regex) (text : ustring) : list captures :=
  exec_from (fun _ _ => true) r (S (length text)) None text.

(** [text.split(r)] for such an expression. *)
Fixpoint split_from (r : regex) (fuel : nat) (current text : ustring) : list ustring :=
  match fuel with
  | 0 => [reverse current ++ text]
  | S f =>
      match match_here r text with
      | Some (rest, _) => reverse current :: split_from r f [] rest
      | None =>
          match text with
          | [] => [reverse current]
          | c :: text' => split_from r f (c :: current) text'
          end
      end
  end.

Definition split_regex (r : regex) (text : ustring) : list ustring :=
  split_from r (S (length text)) [] text.

(** ** Notation of the source *)

Definition is_char (c : Z) : Z → bool := fun d => (d =? c)%Z.

(** A fixed text. *)
Definition rtext (s : ustring) : regex := foldr (fun c r => RSeq (RChar (is_char c)) r) REmpty s.
Definition rlit (s : string) : regex := rtext (js s).

(** [r?], [r+] and alternatives of fixed texts. *)
Definition ropt (r : regex) : regex := RAlt r REmpty.
Definition rplus (r : regex) : regex := RSeq r (RStar r).
Fixpoint rwords (ws : list ustring) : regex :=
  match ws with
  | [] => RChar (fun _ => false)
  | [w] => rtext w
  | w :: ws' => RAlt (rtext w) (rwords ws')
  end.
Definition rseq (rs : list regex) : regex := foldr RSeq REmpty rs.

Definition one_of (s : string) : Z → bool := fun c => bool_decide (c ∈ js s).

(** The units [.] does not match. *)
Definition is_line_end (c : Z) : bool := bool_decide (c ∈ [10; 13; 8232; 8233]%Z).

(** The captured run of a class: [(\[...\]+)]. *)
Definition rrun (n : nat) (p : Z → bool) : regex := RGroup n (rplus (RChar p)).

(** One of several words, captured: [(a|b|...)]. *)
Definition rchoice (n : nat) (ws : list ustring) : regex := RGroup n (rwords ws).

(** ** The texts an expression describes, whatever the order of the attempts *)

Fixpoint lang (r : regex) (u : ustring) : Prop :=
  match r with
  | REmpty => u = []
  | RChar p => ∃ c, u = [c] ∧ p c = true
  | RSeq r1 r2 => ∃ u1 u2, u = u1 ++ u2 ∧ lang r1 u1 ∧ lang r2 u2
  | RAlt r1 r2 => lang r1 u ∨ lang r2 u
  | RStar r1 => ∃ us, u = concat us ∧ Forall (lang r1) us
  | RGroup _ r1 => lang r1 u
  | RBackref _ => True
  end.

(** ** Lemmas *)

Section lemmas.
  Context {A : Type}.
  Implicit Types k : ustring → captures → option A.

Lemma matches_text s text caps k :
  matches (rtext s) text caps k =
    if starts_with s text then k (drop (length s) text) caps else None.
Proof.
  revert text; induction s as [|c s IH]; intros text; simpl; [by rewrite drop_0 | ].
  destruct text as [|d text]; [done | ]. unfold is_char. rewrite Z.eqb_sym.
  destruct (c =? d)%Z; simpl; [apply IH | done].
Qed.

Lemma matches_text_app s text caps k : matches (rtext s) (s ++ text) caps k = k text caps.
Proof. by rewrite matches_text, starts_with_app, drop_app_length. Qed.

Lemma rseq_cons r rs text caps k :
  matches (rseq (r :: rs)) text caps k = matches r text caps (fun t c => matches (rseq rs) t c k).
Proof. done. Qed.

(** What follows refuses every text that starts with a unit of the class. *)
Definition refuses (p : Z → bool) k : Prop :=
  ∀ c rest caps, p c = true → k (c :: rest) caps = None.

Lemma star_class_loop p run rest caps k fuel :
  Forall (fun c => p c = true) run → match rest with [] => True | c :: _ => p c = false end →
  refuses p k → length (run ++ rest) ≤ fuel →
  star_loop (matches (RChar p)) fuel (run ++ rest) caps k = k rest caps.
Proof.
  intros Hrun Hrest Hk. revert fuel.
  induction Hrun as [|c run Hc Hrun IH]; intros fuel Hf; simpl app in *.
  - destruct fuel as [|f]; [done | ]. simpl. destruct rest as [|c rest]; [done | ]. by rewrite Hrest.
  - destruct fuel as [|f]; [simpl in Hf; lia | ]. simpl. rewrite Hc.
    rewrite (proj2 (Nat.ltb_lt (length (run ++ rest)) (S (length (run ++ rest))))) by lia.
    rewrite IH by (simpl in Hf; lia). rewrite (Hk c) by done. by destruct (k rest caps).
Qed.

(** A repeated class takes its whole run when what follows refuses the class. *)
Lemma matches_star_class p run rest caps k :
  Forall (fun c => p c = true) run → match rest with [] => True | c :: _ => p c = false end →
  refuses p k → matches (RStar (RChar p)) (run ++ rest) caps k = k rest caps.
Proof. intros Hrun Hrest Hk. by apply star_class_loop. Qed.

Lemma matches_star_none p rest caps k :
  match rest with [] => True | c :: _ => p c = false end → refuses p k →
  matches (RStar (RChar p)) rest caps k = k rest caps.
Proof. intros Hrest Hk. by apply (matches_star_class p []). Qed.

Lemma matches_plus_class p run rest caps k :
  Forall (fun c => p c = true) run → match rest with [] => True | c :: _ => p c = false end →
  refuses p k →
  matches (rplus (RChar p)) (run ++ rest) caps k = match run with [] => None | _ => k rest caps end.
Proof.
  intros Hrun Hrest Hk. unfold rplus. destruct Hrun as [|c run Hc Hrun]; simpl.
  - destruct rest as [|c rest]; [done | ]. by rewrite Hrest.
  - rewrite Hc. by apply matches_star_class.
Qed.

Lemma take_run {B} (run rest : list B) : take (length (run ++ rest) - length rest) (run ++ rest) = run.
Proof. rewrite length_app, Nat.add_sub. apply take_app_length. Qed.

(** The same, captured. *)
Lemma matches_group_plus n p run rest caps k :
  Forall (fun c => p c = true) run → match rest with [] => True | c :: _ => p c = false end →
  (∀ caps', refuses p (fun t _ => k t caps')) →
  matches (RGroup n (rplus (RChar p))) (run ++ rest) caps k =
    match run with [] => None | _ => k rest ((n, run) :: caps) end.
Proof.
  intros Hrun Hrest Hk. cbn [matches].
  rewrite (matches_plus_class p run rest caps) by
    (done || (intros c t caps' Hc; exact (Hk ((n, take (length (run ++ rest) - length (c :: t)) (run ++ rest)) :: caps') c t caps' Hc))).
  by rewrite take_run.
Qed.

Lemma matches_run n p run rest caps k :
  Forall (fun c => p c = true) run → match rest with [] => True | c :: _ => p c = false end →
  (∀ caps', refuses p (fun t _ => k t caps')) → run ≠ [] →
  matches (rrun n p) (run ++ rest) caps k = k rest ((n, run) :: caps).
Proof. intros Hrun Hrest Hk Hne. unfold rrun. rewrite matches_group_plus by done. by destruct run. Qed.

(** A repeated class gives back units until what follows succeeds: here at the latest place
    where it does. *)
Lemma star_class_last p run rest caps k a fuel :
  Forall (fun c => p c = true) run → k rest caps = Some a →
  (∀ u v, rest = u ++ v → u ≠ [] → k v caps = None) → length (run ++ rest) ≤ fuel →
  star_loop (matches (RChar p)) fuel (run ++ rest) caps k = Some a.
Proof.
  intros Hrun Ha Hlater. revert fuel.
  assert (Hback : ∀ v fuel, (∃ u, rest = u ++ v ∧ u ≠ []) →
            star_loop (matches (RChar p)) fuel v caps k = None).
  { induction v as [|c v IH]; intros fuel (u & Eu & Hu).
    - destruct fuel; simpl; by apply (Hlater u).
    - destruct fuel as [|f]; simpl; [by apply (Hlater u) | ].
      rewrite (proj2 (Nat.ltb_lt (length v) (S (length v)))) by lia.
      rewrite (Hlater u (c :: v)) by done. destruct (p c); [ | done]. rewrite IH; [done | ].
      exists (u ++ [c]). rewrite <- app_assoc. split; [done | by destruct u]. }
  induction Hrun as [|c run Hc Hrun IH]; intros fuel Hf; simpl app in *.
  - destruct fuel as [|f]; [done | ]. destruct rest as [|c rest]; [done | ]. simpl.
    rewrite (proj2 (Nat.ltb_lt (length rest) (S (length rest)))) by lia.
    destruct (p c); [ | done]. rewrite Hback by (by exists [c]). done.
  - destruct fuel as [|f]; [simpl in Hf; lia | ]. simpl. rewrite Hc.
    rewrite (proj2 (Nat.ltb_lt (length (run ++ rest)) (S (length (run ++ rest))))) by lia.
    rewrite IH by (simpl in Hf; lia). done.
Qed.

Lemma matches_run_last n p run rest caps k a :
  Forall (fun c => p c = true) run → run ≠ [] → k rest ((n, run) :: caps) = Some a →
  (∀ u v caps', rest = u ++ v → u ≠ [] → k v caps' = None) →
  matches (rrun n p) (run ++ rest) caps k = Some a.
Proof.
  intros Hrun Hne Ha Hlater. unfold rrun, rplus. destruct Hrun as [|c run Hc Hrun]; [done | ].
  cbn [matches app]. rewrite Hc.
  apply star_class_last; [done | | intros u v Eu Hu; by apply (Hlater u) | done].
  change (c :: run ++ rest) with ((c :: run) ++ rest). by rewrite take_run.
Qed.

(** A repetition goes on with the rounds that succeed first. *)
Lemma star_first r chunk rest caps k a fuel :
  chunk ≠ [] →
  (∀ k' b, k' rest caps = Some b → matches r (chunk ++ rest) caps k' = Some b) →
  star_loop (matches r) fuel rest caps k = Some a →
  star_loop (matches r) (S fuel) (chunk ++ rest) caps k = Some a.
Proof.
  intros Hne Hround Ha. cbn [star_loop].
  assert (Hlt : (length rest <? length (chunk ++ rest)) = true).
  { apply Nat.ltb_lt. rewrite length_app. destruct chunk; [done | simpl; lia]. }
  by rewrite (Hround _ a) by (by rewrite Hlt).
Qed.

Lemma matches_words_cons w w' ws text caps k :
  matches (rwords (w :: w' :: ws)) text caps k =
    match matches (rtext w) text caps k with Some a => Some a | None => matches (rwords (w' :: ws)) text caps k end.
Proof. done. Qed.

Lemma matches_words_none ws text caps k :
  (∀ w, w ∈ ws → starts_with w text = false) → matches (rwords ws) text caps k = None.
Proof.
  induction ws as [|w ws IH]; intros Hws; [by destruct text | ].
  assert (Hw : matches (rtext w) text caps k = None) by (by rewrite matches_text, Hws by left).
  destruct ws as [|w' ws]; [done | ]. rewrite matches_words_cons, Hw. apply IH. intros v Hv. apply Hws. by right.
Qed.

Lemma matches_words ws w rest caps k :
  w ∈ ws → (∀ w', w' ∈ ws → w' ≠ w → starts_with w' (w ++ rest) = false) →
  matches (rwords ws) (w ++ rest) caps k = k rest caps.
Proof.
  intros Hw Hother. induction ws as [|v ws IH]; [by apply not_elem_of_nil in Hw | ].
  assert (Hall : ∀ w', w' ∈ ws → w' ≠ w → starts_with w' (w ++ rest) = false)
    by (intros w' Hw'; apply Hother; by right).
  destruct (decide (v = w)) as [->|Hv].
  - destruct ws as [|v' ws]; [apply matches_text_app | ]. rewrite matches_words_cons, matches_text_app.
    destruct (k rest caps) as [a|] eqn:Ek; [done | ].
    destruct (decide (w ∈ v' :: ws)) as [Hin|Hnot]; [by rewrite IH | ].
    apply matches_words_none. intros u Hu. apply Hall; [done | ]. by intros ->.
  - apply elem_of_cons in Hw as [->|Hw]; [done | ].
    destruct ws as [|v' ws]; [by apply not_elem_of_nil in Hw | ].
    rewrite matches_words_cons, matches_text, (Hother v) by (done || left). by apply IH.
Qed.

Lemma matches_choice n ws w rest caps k :
  w ∈ ws → (∀ w', w' ∈ ws → w' ≠ w → starts_with w' (w ++ rest) = false) →
  matches (rchoice n ws) (w ++ rest) caps k = k rest ((n, w) :: caps).
Proof. intros Hw Ho. unfold rchoice. cbn [matches]. rewrite matches_words by done. by rewrite take_run. Qed.

Lemma matches_choice_none n ws text caps k :
  (∀ w, w ∈ ws → starts_with w text = false) → matches (rchoice n ws) text caps k = None.
Proof. intros Hws. unfold rchoice. cbn [matches]. by apply matches_words_none. Qed.

Lemma refuses_text p c s k :
  p c = false → refuses p (fun t caps => matches (rtext (c :: s)) t caps k).
Proof.
  intros Hp d rest caps Hd. simpl. unfold is_char. destruct (d =? c)%Z eqn:E; [ | done].
  apply Z.eqb_eq in E. congruence.
Qed.

Lemma star_sound r fuel text caps k (a : A) :
  (∀ text' caps' k', matches r text' caps' k' = Some a →
     ∃ u rest caps'', text' = u ++ rest ∧ lang r u ∧ k' rest caps'' = Some a) →
  star_loop (matches r) fuel text caps k = Some a →
  ∃ u rest caps', text = u ++ rest ∧ lang (RStar r) u ∧ k rest caps' = Some a.
Proof.
  intros Hr. revert text caps.
  induction fuel as [|f IH]; intros text caps; simpl; [exists [], text, caps; repeat split; [by exists [] | done] | ].
  destruct (matches r text caps _) as [b|] eqn:E; intros H.
  - injection H as ->. apply Hr in E as (u & rest & caps' & -> & Hu & E).
    destruct (_ <? _); [ | done]. apply IH in E as (u' & rest' & caps'' & -> & (us & -> & Hus) & E).
    exists (u ++ concat us), rest', caps''. rewrite app_assoc. repeat split; [ | done].
    exists (u :: us). split; [done | by constructor].
  - exists [], text, caps. repeat split; [by exists [] | done].
Qed.

(** A match is a text the expression describes. *)
Lemma matches_sound r text caps k (a : A) :
  matches r text caps k = Some a →
  ∃ u rest caps', text = u ++ rest ∧ lang r u ∧ k rest caps' = Some a.
Proof.
  revert text caps k.
  induction r as [|p|r1 IH1 r2 IH2|r1 IH1 r2 IH2|r IH|n r IH|n]; intros text caps k; cbn [matches lang].
  - intros H. by exists [], text, caps.
  - destruct text as [|c text]; [done | ]. destruct (p c) eqn:E; [ | done]. intros H.
    exists [c], text, caps. repeat split; [by exists c | done].
  - intros H. apply IH1 in H as (u1 & rest1 & caps1 & -> & Hu1 & H).
    apply IH2 in H as (u2 & rest2 & caps2 & -> & Hu2 & H).
    exists (u1 ++ u2), rest2, caps2. rewrite <- app_assoc. repeat split; [by exists u1, u2 | done].
  - destruct (matches r1 text caps k) as [b|] eqn:E; intros H.
    + injection H as ->. apply IH1 in E as (u & rest & caps' & ? & ? & ?). exists u, rest, caps'. auto.
    + apply IH2 in H as (u & rest & caps' & ? & ? & ?). exists u, rest, caps'. auto.
  - intros H. by eapply star_sound in H; [ | apply IH].
  - intros H. apply IH in H as (u & rest & caps' & ? & ? & ?). by eexists u, rest, _.
  - destruct (starts_with _ _) eqn:E; [ | done]. intros H. apply starts_with_spec in E.
    eexists _, _, _. split; [exact E | done].
Qed.
End lemmas.

Lemma match_all_sound r text caps : match_all r text = Some caps → lang r text.
Proof.
  unfold match_all. intros H. apply matches_sound in H as (u & rest & caps' & -> & Hu & H).
  destruct rest; [ | done]. by rewrite app_nil_r.
Qed.

Lemma test_all_sound r text : test_all r text = true → lang r text.
Proof. unfold test_all. destruct (match_all r text) eqn:E; [ | done]. intros _. by eapply match_all_sound. Qed.

(** Every unit of a described text is one the expression names. *)
Fixpoint units_of (P : Z → Prop) (r : regex) : Prop :=
  match r with
  | REmpty => True
  | RChar p => ∀ c, p c = true → P c
  | RSeq r1 r2 | RAlt r1 r2 => units_of P r1 ∧ units_of P r2
  | RStar r1 | RGroup _ r1 => units_of P r1
  | RBackref _ => False
  end.

Lemma lang_units P r u : units_of P r → lang r u → Forall P u.
Proof.
  revert u. induction r as [|p|r1 IH1 r2 IH2|r1 IH1 r2 IH2|r IH|n r IH|n]; intros u Hp; simpl in *.
  - by intros ->.
  - intros (c & -> & Hc). auto.
  - intros (u1 & u2 & -> & H1 & H2). destruct Hp. apply Forall_app_2; auto.
  - destruct Hp as [Hp1 Hp2]. intros [Hu|Hu]; auto.
  - intros (us & -> & Hus). induction Hus as [|v us Hv Hus IHus]; [done | ]. apply Forall_app_2; auto.
  - auto.
  - done.
Qed.

Lemma lang_text s u : lang (rtext s) u ↔ u = s.
Proof.
  revert u. induction s as [|c s IH]; intros u; simpl; [done | ]. split.
  - intros (u1 & u2 & -> & (d & -> & Hd) & H2). apply IH in H2 as ->. unfold is_char in Hd. by bools; subst.
  - intros ->. exists [c], s. split; [done | ]. split; [exists c; split; [done | apply Z.eqb_refl] | by apply IH].
Qed.

(** ** Paths of a match

    [eats r t caps t' caps'] : the expression prefers to go from [t] to [t'] whenever what
    follows succeeds there.  [fails r t caps] : it matches nowhere. *)

Definition eats (r : regex) (t : ustring) (caps : captures) (t' : ustring) (caps' : captures) : Prop :=
  ∀ A (k : ustring → captures → option A) a, k t' caps' = Some a → matches r t caps k = Some a.

Definition fails (r : regex) (t : ustring) (caps : captures) : Prop :=
  ∀ A (k : ustring → captures → option A), matches r t caps k = None.

(** The same for the rounds of a repetition. *)
Definition loops (r : regex) (t : ustring) (caps : captures) (t' : ustring) (caps' : captures) : Prop :=
  ∀ A (k : ustring → captures → option A) a fuel,
    length t ≤ fuel → k t' caps' = Some a → star_loop (matches r) fuel t caps k = Some a.

Lemma eats_nil t caps : eats (rseq []) t caps t caps.
Proof. by intros A k a Hk. Qed.

Lemma eats_cons r rs t caps t1 caps1 t2 caps2 :
  eats r t caps t1 caps1 → eats (rseq rs) t1 caps1 t2 caps2 → eats (rseq (r :: rs)) t caps t2 caps2.
Proof. intros H1 H2 A k a Hk. rewrite rseq_cons. apply H1. by apply H2. Qed.

Lemma eats_text s t caps : eats (rtext s) (s ++ t) caps t caps.
Proof. intros A k a Hk. by rewrite matches_text_app. Qed.

Lemma eats_one r t caps t' caps' : eats r t caps t' caps' → eats (rseq [r]) t caps t' caps'.
Proof. intros H. eapply eats_cons; [exact H | apply eats_nil]. Qed.

Lemma eats_star r t caps t' caps' : loops r t caps t' caps' → eats (RStar r) t caps t' caps'.
Proof. intros H A k a Hk. by apply H. Qed.

Lemma loops_stop r t caps : fails r t caps → loops r t caps t caps.
Proof.
  intros Hf A k a fuel Hl Hk. destruct fuel as [|f]; [done | ]. cbn [star_loop]. by rewrite Hf.
Qed.

Lemma loops_step r t caps t1 caps1 t2 caps2 :
  eats r t caps t1 caps1 → length t1 < length t → loops r t1 caps1 t2 caps2 → loops r t caps t2 caps2.
Proof.
  intros H1 Hlt H2 A k a fuel Hl Hk. destruct fuel as [|f]; [lia | ]. cbn [star_loop].
  erewrite H1; [done | ]. cbv beta. rewrite (proj2 (Nat.ltb_lt _ _)) by done. apply H2; [lia | done].
Qed.

(** A run of a class up to a unit that is not in it. *)
Lemma loops_class p run rest caps :
  Forall (fun c => p c = true) run → match rest with [] => True | c :: _ => p c = false end →
  loops (RChar p) (run ++ rest) caps rest caps.
Proof.
  intros Hrun Hrest. induction Hrun as [|c run Hc Hrun IH]; simpl app.
  - apply loops_stop. intros A k. cbn [matches]. destruct rest; [done | by rewrite Hrest].
  - eapply loops_step; [ | | exact IH]; [ | simpl; lia]. intros A k a Hk. cbn [matches]. by rewrite Hc.
Qed.

Lemma eats_class p run rest caps :
  Forall (fun c => p c = true) run → match rest with [] => True | c :: _ => p c = false end →
  eats (RStar (RChar p)) (run ++ rest) caps rest caps.
Proof. intros. by apply eats_star, loops_class. Qed.

Lemma eats_plus p run rest caps :
  run ≠ [] → Forall (fun c => p c = true) run → match rest with [] => True | c :: _ => p c = false end →
  eats (rplus (RChar p)) (run ++ rest) caps rest caps.
Proof.
  intros Hne Hrun Hrest A k a Hk. destruct Hrun as [|c run Hc Hrun]; [done | ].
  unfold rplus. cbn [matches app]. rewrite Hc. by apply loops_class.
Qed.

Lemma eats_group n r u t' caps caps' :
  eats r (u ++ t') caps t' caps' → eats (RGroup n r) (u ++ t') caps t' ((n, u) :: caps').
Proof. intros H A k a Hk. cbn [matches]. apply H. by rewrite take_run. Qed.

Lemma eats_run n p run rest caps :
  run ≠ [] → Forall (fun c => p c = true) run → match rest with [] => True | c :: _ => p c = false end →
  eats (rrun n p) (run ++ rest) caps rest ((n, run) :: caps).
Proof. intros. by apply eats_group, eats_plus. Qed.

Lemma eats_opt r t caps t' caps' : eats r t caps t' caps' → eats (ropt r) t caps t' caps'.
Proof. intros H A k a Hk. unfold ropt. cbn [matches]. by rewrite (H A k a). Qed.

Lemma eats_skip r t caps : fails r t caps → eats (ropt r) t caps t caps.
Proof. intros H A k a Hk. unfold ropt. cbn [matches]. by rewrite H. Qed.

Lemma eats_seq r1 r2 t caps t1 caps1 t2 caps2 :
  eats r1 t caps t1 caps1 → eats r2 t1 caps1 t2 caps2 → eats (RSeq r1 r2) t caps t2 caps2.
Proof. intros H1 H2 A k a Hk. cbn [matches]. apply H1. by apply H2. Qed.

Lemma fails_first r rs t caps : fails r t caps → fails (rseq (r :: rs)) t caps.
Proof. intros H A k. rewrite rseq_cons. apply H. Qed.

Lemma eats_here r t t' caps' : eats r t [] t' caps' → match_here r t = Some (t', caps').
Proof. intros H. by apply H. Qed.

Lemma fails_here r t : fails r t [] → match_here r t = None.
Proof. intros H. apply H. Qed.

Lemma eats_all r t caps' : eats r t [] [] caps' → match_all r t = Some caps'.
Proof. intros H. by apply H. Qed.

Lemma fails_all r t : fails r t [] → match_all r t = None.
Proof. intros H. apply H. Qed.
