(* ===== verification/JsonPrint.v ===== *)
(** * Printing JSON

    [JSON.stringify] on strings and [String] on the values [JSON.parse] gives.  A printed
    string is read back by [JSON.parse] as the string itself. *)

From Stdlib Require Import Lia.
From stdpp Require Import base numbers strings option sets list.
From S2P Require Import Prelude JsNumber Json JsonText NumberText.

(** ** Strings *)

Definition is_high_surrogate (c : Z) : bool := (55296 <=? c)%Z && (c <=? 56319)%Z.
Definition is_low_surrogate (c : Z) : bool := (56320 <=? c)%Z && (c <=? 57343)%Z.

Definition hex_char (d : Z) : Z := if (d <? 10)%Z then (chr "0" + d)%Z else (chr "a" + (d - 10))%Z.

(** The escape of a code unit by its number. *)
Definition unicode_escape (c : Z) : ustring :=
  [chr "\"; chr "u"; hex_char (c / 4096 mod 16); hex_char (c / 256 mod 16);
   hex_char (c / 16 mod 16); hex_char (c mod 16)]%Z.

Definition escape_unit (c : Z) : ustring :=
  if (c =? DQUOTE)%Z then [chr "\"; DQUOTE]
  else if (c =? chr "\")%Z then [chr "\"; chr "\"]
  else if (c =? 8)%Z then [chr "\"; chr "b"]
  else if (c =? 12)%Z then [chr "\"; chr "f"]
  else if (c =? 10)%Z then [chr "\"; chr "n"]
  else if (c =? 13)%Z then [chr "\"; chr "r"]
  else if (c =? 9)%Z then [chr "\"; chr "t"]
  else if (c <? 32)%Z then unicode_escape c
  else [c].

(** The text between the quotes: a pair of surrogates is kept, one that stands alone is
    escaped. *)
Fixpoint json_escape (s : ustring) : ustring :=
  match s with
  | [] => []
  | c :: s' =>
      if is_high_surrogate c then
        match s' with
        | d :: s'' => if is_low_surrogate d then c :: d :: json_escape s''
                      else unicode_escape c ++ json_escape s'
        | [] => unicode_escape c
        end
      else if is_low_surrogate c then unicode_escape c ++ json_escape s'
      else escape_unit c ++ json_escape s'
  end.

(** [JSON.stringify(s)]. *)
Definition JSON_stringify_string (s : ustring) : ustring := DQUOTE :: json_escape s ++ [DQUOTE].

(** [String(value)] on a parsed value. *)
Fixpoint String_json (v : json) : ustring :=
  match v with
  | JNull => js "null"
  | JBool b => if b then js "true" else js "false"
  | JNumber n => Number_toString n
  | JString s => s
  | JArray vs =>
      join (js ",") ((fix elements (vs : list json) : list ustring :=
                        match vs with
                        | [] => []
                        | JNull :: vs' => [] :: elements vs'
                        | w :: vs' => String_json w :: elements vs'
                        end) vs)
  | JObject _ => js "[object Object]"
  end.

(** ** What is printed is read back *)

Definition code_unit (c : Z) : Prop := (0 ≤ c < 65536)%Z.

Lemma hex_digit_char d : (0 ≤ d < 16)%Z → hex_digit (hex_char d) = Some d.
Proof.
  intros Hd. unfold hex_char, hex_digit, is_digit. chr_norm. destruct (d <? 10)%Z eqn:E; bools.
  - rewrite (proj2 (Z.leb_le 48 _)), (proj2 (Z.leb_le (48 + d) 57)) by lia. simpl. f_equal. lia.
  - rewrite (proj2 (Z.leb_le 48 _)), (proj2 (Z.leb_gt (97 + (d - 10)) 57)) by lia. simpl.
    rewrite (proj2 (Z.leb_le 97 _)), (proj2 (Z.leb_le _ 102)) by lia. simpl. f_equal. lia.
Qed.

Lemma unicode_escape_reads c rest acc :
  code_unit c → read_string (unicode_escape c ++ rest) acc = read_string rest (c :: acc).
Proof.
  intros Hc. unfold code_unit in Hc. cbn [unicode_escape app read_string].
  change (chr "\" =? DQUOTE)%Z with false. rewrite !Z.eqb_refl. unfold hex_unit.
  rewrite !hex_digit_char by (apply Z.mod_pos_bound; lia). cbn [mbind option_bind]. do 2 f_equal.
  pose proof (Z.div_mod c 16 ltac:(lia)). pose proof (Z.div_mod (c / 16) 16 ltac:(lia)) as H2.
  pose proof (Z.div_mod (c / 256) 16 ltac:(lia)) as H3.
  rewrite Z.div_div in H2 by lia. rewrite Z.div_div in H3 by lia. change (16 * 16)%Z with 256%Z in H2. change (256 * 16)%Z with 4096%Z in H3.
  rewrite (Z.mod_small (c / 4096)) by (split; [apply Z.div_pos; lia | apply Z.div_lt_upper_bound; lia]).
  lia.
Qed.

Lemma escape_unit_reads c rest acc :
  code_unit c → read_string (escape_unit c ++ rest) acc = read_string rest (c :: acc).
Proof.
  intros Hc. unfold escape_unit.
  destruct (c =? DQUOTE)%Z eqn:E1; [by bools; subst | ].
  destruct (c =? chr "\")%Z eqn:E2; [by bools; subst | ].
  destruct (c =? 8)%Z eqn:E3; [by bools; subst | ].
  destruct (c =? 12)%Z eqn:E4; [by bools; subst | ].
  destruct (c =? 10)%Z eqn:E5; [by bools; subst | ].
  destruct (c =? 13)%Z eqn:E6; [by bools; subst | ].
  destruct (c =? 9)%Z eqn:E7; [by bools; subst | ].
  destruct (c <? 32)%Z eqn:E8; [by apply unicode_escape_reads | ].
  cbn [app read_string]. by rewrite E1, E2, E8.
Qed.

Lemma surrogate_reads c rest acc :
  (55296 ≤ c ≤ 57343)%Z → read_string (c :: rest) acc = read_string rest (c :: acc).
Proof.
  intros Hc. cbn [read_string]. unfold DQUOTE. chr_norm.
  rewrite (proj2 (Z.eqb_neq c 34)), (proj2 (Z.eqb_neq c 92)), (proj2 (Z.ltb_ge c 32)) by lia. done.
Qed.

Lemma json_escape_reads s rest acc :
  Forall code_unit s →
  read_string (json_escape s ++ DQUOTE :: rest) acc = Read (reverse acc ++ s) rest.
Proof.
  revert acc. induction s as [s IH] using length_ind. intros acc Hs.
  destruct s as [|c s]; [by rewrite app_nil_r | ]. inversion_clear Hs as [|? ? Hc Hs'].
  assert (Hstep : read_string (json_escape s ++ DQUOTE :: rest) (c :: acc) = Read (reverse acc ++ c :: s) rest).
  { rewrite IH by (done || (simpl; lia)). by rewrite reverse_cons, <- app_assoc. }
  cbn [json_escape]. destruct (is_high_surrogate c) eqn:Eh.
  - destruct s as [|d s]; [rewrite unicode_escape_reads by done; exact Hstep | ].
    destruct (is_low_surrogate d) eqn:El.
    + unfold is_high_surrogate, is_low_surrogate in *. bools. cbn [app].
      rewrite !surrogate_reads by lia. inversion_clear Hs'.
      rewrite IH by (done || (simpl; lia)). by rewrite !reverse_cons, <- !app_assoc.
    + rewrite <- app_assoc, unicode_escape_reads by done. exact Hstep.
  - destruct (is_low_surrogate c).
    + rewrite <- app_assoc, unicode_escape_reads by done. exact Hstep.
    + rewrite <- app_assoc, escape_unit_reads by done. exact Hstep.
Qed.

Lemma JSON_parse_string s :
  Forall code_unit s → JSON_parse (JSON_stringify_string s) = Some (JString s).
Proof.
  intros Hs. unfold JSON_parse, JSON_stringify_string.
  replace (2 * length (DQUOTE :: json_escape s ++ [DQUOTE]) + 2)
    with (S (2 * length (json_escape s ++ [DQUOTE]) + 3)) by (simpl; lia).
  cbn [read_value]. change (skip_space (DQUOTE :: json_escape s ++ [DQUOTE]))
    with (DQUOTE :: json_escape s ++ [DQUOTE]). cbn iota beta.
  change (DQUOTE =? chr "{")%Z with false. change (DQUOTE =? chr "[")%Z with false.
  change (DQUOTE =? DQUOTE)%Z with true. cbn iota. by rewrite json_escape_reads.
Qed.

(** ** Shapes of printed texts *)

(** Units that are printed as they are. *)
Definition plain_unit (c : Z) : bool :=
  (32 <=? c)%Z && (c <? 65536)%Z && negb (c =? DQUOTE)%Z && negb (c =? chr "\")%Z &&
  negb (is_high_surrogate c) && negb (is_low_surrogate c).

Lemma escape_unit_plain c : plain_unit c = true → escape_unit c = [c].
Proof.
  unfold plain_unit, escape_unit. intros Hc. bools. unfold DQUOTE in *. chr_norm.
  repeat match goal with |- context [(?a =? ?b)%Z] => destruct (Z.eqb_spec a b); [lia | ] end.
  by rewrite (proj2 (Z.ltb_ge c 32)) by lia.
Qed.

Lemma json_escape_plain s : Forall (fun c => plain_unit c = true) s → json_escape s = s.
Proof.
  induction 1 as [|c s Hc Hs IH]; [done | ]. cbn [json_escape]. rewrite escape_unit_plain by done.
  unfold plain_unit in Hc. bools.
  repeat match goal with H : _ = false |- _ => rewrite H; clear H end. by rewrite IH.
Qed.

Definition escapes : list Z := [DQUOTE; chr "\"; chr "b"; chr "f"; chr "n"; chr "r"; chr "t"; chr "u"].

Lemma escape_unit_cases c :
  escape_unit c = unicode_escape c ∨
  (∃ e, e ∈ escapes ∧ escape_unit c = [chr "\"; e]) ∨
  (escape_unit c = [c] ∧ (32 ≤ c)%Z ∧ c ≠ DQUOTE ∧ c ≠ chr "\").
Proof.
  unfold escape_unit.
  destruct (c =? DQUOTE)%Z eqn:E1; [right; left; by eexists; split; [ | done]; apply (bool_decide_unpack _) | ].
  destruct (c =? chr "\")%Z eqn:E2; [right; left; by eexists; split; [ | done]; apply (bool_decide_unpack _) | ].
  do 5 (branch; [right; left; by eexists; split; [ | done]; apply (bool_decide_unpack _) | ]).
  destruct (c <? 32)%Z eqn:E8; [by left | ]. right; right. by bools.
Qed.

(** A property of every printed unit that is one of a text: control units are escaped. *)
Lemma json_escape_Forall (P : Z → Prop) s :
  (∀ c, c ∈ escapes → P c) →
  (∀ d, (0 ≤ d < 16)%Z → P (hex_char d)) →
  Forall (fun c => (32 ≤ c)%Z → P c) s → Forall P (json_escape s).
Proof.
  intros Hfix Hhex. assert (Hu : ∀ c, Forall P (unicode_escape c)).
  { intros c. unfold unicode_escape.
    do 2 (constructor; [apply Hfix; by apply (bool_decide_unpack _) | ]).
    repeat (constructor; [apply Hhex; apply Z.mod_pos_bound; lia | ]). constructor. }
  induction s as [s IH] using length_ind. intros Hs. destruct s as [|c s]; [constructor | ].
  inversion_clear Hs as [|? ? Hc Hs'].
  assert (Hrest : Forall P (json_escape s)) by (apply IH; [simpl; lia | done]).
  cbn [json_escape]. destruct (is_high_surrogate c) eqn:Eh.
  - destruct s as [|d s]; [apply Hu | ]. destruct (is_low_surrogate d) eqn:El; [ | by apply Forall_app_2].
    inversion_clear Hs' as [|? ? Hd Hs'']. unfold is_high_surrogate, is_low_surrogate in *. bools.
    constructor; [apply Hc; lia | ]. constructor; [apply Hd; lia | ]. apply IH; [simpl; lia | done].
  - destruct (is_low_surrogate c); [by apply Forall_app_2 | ]. apply Forall_app_2; [ | done].
    destruct (escape_unit_cases c) as [-> | [(e & He & ->) | (-> & Hge & _)]]; [apply Hu | | auto].
    constructor; [apply Hfix; by apply (bool_decide_unpack _) | ]. auto.
Qed.

(** The printed text as a sequence of single units and of escapes of two units. *)
Definition chunk (u : ustring) : Prop :=
  match u with
  | [c] => c ≠ DQUOTE ∧ c ≠ chr "\"
  | [b; c] => b = chr "\" ∧ c ∈ escapes
  | _ => False
  end.

Lemma hex_char_range d : (0 ≤ d < 16)%Z → (48 ≤ hex_char d ≤ 57 ∨ 97 ≤ hex_char d ≤ 102)%Z.
Proof. intros Hd. unfold hex_char. chr_norm. destruct (d <? 10)%Z eqn:E; bools; lia. Qed.

Lemma unicode_escape_chunks c : ∃ us, unicode_escape c = concat us ∧ Forall chunk us.
Proof.
  exists [[chr "\"; chr "u"]; [hex_char (c / 4096 mod 16)]; [hex_char (c / 256 mod 16)];
     [hex_char (c / 16 mod 16)]; [hex_char (c mod 16)]]%Z. split; [done | ].
  assert (Hh : ∀ x, chunk [hex_char (x mod 16)]%Z).
  { intros x. pose proof (hex_char_range (x mod 16) (Z.mod_pos_bound x 16 ltac:(lia))). unfold chunk, DQUOTE. chr_norm. lia. }
  constructor; [split; [done | by apply (bool_decide_unpack _)] | ]. repeat (constructor; [apply Hh | ]). constructor.
Qed.

Lemma escape_unit_chunks c : ∃ us, escape_unit c = concat us ∧ Forall chunk us.
Proof.
  destruct (escape_unit_cases c) as [-> | [(e & He & ->) | (-> & _ & Hq & Hb)]].
  - apply unicode_escape_chunks.
  - by exists [[chr "\"; e]]; split; [ | constructor].
  - by exists [[c]]; split; [ | constructor].
Qed.

Lemma json_escape_chunks s : ∃ us, json_escape s = concat us ∧ Forall chunk us.
Proof.
  assert (Happ : ∀ a b, (∃ us, a = concat us ∧ Forall chunk us) → (∃ us, b = concat us ∧ Forall chunk us) →
            ∃ us, a ++ b = concat us ∧ Forall chunk us).
  { intros a b (us & -> & Hus) (vs & -> & Hvs). exists (us ++ vs). rewrite concat_app. split; [done | by apply Forall_app_2]. }
  induction s as [s IH] using length_ind. destruct s as [|c s]; [by exists [] | ].
  cbn [json_escape]. destruct (is_high_surrogate c) eqn:Eh.
  - destruct s as [|d s]; [apply unicode_escape_chunks | ]. destruct (is_low_surrogate d) eqn:El.
    + destruct (IH s ltac:(simpl; lia)) as (us & -> & Hus). exists ([c] :: [d] :: us). split; [done | ].
      unfold is_high_surrogate, is_low_surrogate in *. bools.
      repeat (constructor; [unfold chunk, DQUOTE; chr_norm; lia | ]). done.
    + apply Happ; [apply unicode_escape_chunks | apply IH; simpl; lia].
  - destruct (is_low_surrogate c); (apply Happ; [ | apply IH; simpl; lia]);
      [apply unicode_escape_chunks | apply escape_unit_chunks].
Qed.
