(* ===== verification/JsonStringify.v ===== *)
(** * Printing JSON values

    [JSON.stringify] on JSON values, and the values [JSON.parse] reads back from what it
    prints. *)

From Stdlib Require Import Lia.
From stdpp Require Import base numbers strings option sets list.
From S2P Require Import Prelude JsNumber Json JsonText NumberText JsonPrint.

(** [JSON.stringify(value, null, gap)], [ind] the indentation of the line: without a gap
    everything is on one line, with a gap each element has a line of its own.  A number that
    is not finite is printed as [null]. *)
Definition line (gap ind : ustring) : ustring := match gap with [] => [] | _ => 10%Z :: ind end.

Definition colon (gap : ustring) : ustring := match gap with [] => js ":" | _ => js ": " end.

Definition bracket (opening closing : string) (gap ind : ustring) (parts : list ustring) : ustring :=
  match parts with
  | [] => js opening ++ js closing
  | _ => js opening ++ line gap (ind ++ gap) ++ join (js "," ++ line gap (ind ++ gap)) parts ++ line gap ind ++ js closing
  end.

Fixpoint JSON_print (gap ind : ustring) (v : json) : ustring :=
  match v with
  | JNull => js "null"
  | JBool b => if b then js "true" else js "false"
  | JNumber n => if is_finite n then Number_toString n else js "null"
  | JString s => JSON_stringify_string s
  | JArray vs => bracket "[" "]" gap ind (map (JSON_print gap (ind ++ gap)) vs)
  | JObject fields =>
      bracket "{" "}" gap ind
        (map (fun f => JSON_stringify_string f.1 ++ colon gap ++ JSON_print gap (ind ++ gap) f.2) fields)
  end.

(** [JSON.stringify(value)]. *)
Definition JSON_stringify (v : json) : ustring := JSON_print [] [] v.

(** ** Values that keep their text *)

Definition is_code_unit (c : Z) : bool := (0 <=? c)%Z && (c <? 65536)%Z.

(** A number whose text JSON reads as the number. *)
Definition printable_number (n : number) : bool :=
  is_finite n &&
  match read_number (Number_toString n) with
  | Read (JNumber m) [] => bool_decide (m = n)
  | _ => false
  end.

Definition printable_name (name : ustring) : bool :=
  forallb is_code_unit name && bool_decide (array_index name = None).

Fixpoint printable (v : json) : bool :=
  match v with
  | JNull | JBool _ => true
  | JNumber n => printable_number n
  | JString s => forallb is_code_unit s
  | JArray vs => forallb printable vs
  | JObject fields =>
      forallb printable_name (map fst fields) && bool_decide (NoDup (map fst fields)) &&
      forallb (fun f => printable f.2) fields
  end.

(** ** Numbers before other text *)

(** What may follow a number. *)
Definition number_ends (rest : ustring) : Prop :=
  match rest with
  | [] => True
  | c :: _ => is_digit c = false ∧ c ≠ chr "." ∧ c ≠ chr "e" ∧ c ≠ chr "E"
  end.

Lemma take_while_app {A} (p : A → bool) a b :
  match b with [] => True | x :: _ => p x = false end →
  take_while p (a ++ b) = take_while p a ∧
  (drop (length (take_while p a)) (a ++ b) = drop (length (take_while p a)) a ++ b).
Proof.
  intros Hb. assert (H : take_while p (a ++ b) = take_while p a).
  { induction a as [|x a IH]; simpl; [ | destruct (p x); [by rewrite IH | done]].
    destruct b as [|y b]; [done | ]. simpl. by rewrite Hb. }
  split; [exact H | ]. rewrite drop_app_le; [done | apply take_while_length].
Qed.

Lemma ends_digit rest : number_ends rest → match rest with [] => True | x :: _ => is_digit x = false end.
Proof. destruct rest; [done | ]. by intros [? _]. Qed.

Lemma read_integer_app s rest i r :
  number_ends rest → read_integer s = Some (i, r) → read_integer (s ++ rest) = Some (i, r ++ rest).
Proof.
  intros He. apply ends_digit in He. unfold read_integer. destruct (take_while_app is_digit s rest He) as [-> Hd].
  destruct (take_while is_digit s) as [|d ds] eqn:E; [done | ]. destruct s as [|c s]; [done | ].
  destruct (d =? chr "0")%Z; intros [= <- <-]; [done | ]. by rewrite Hd.
Qed.

Lemma read_fraction_app s rest f r :
  number_ends rest → read_fraction s = Some (f, r) → read_fraction (s ++ rest) = Some (f, r ++ rest).
Proof.
  intros He. unfold read_fraction. destruct s as [|c s]; simpl.
  - intros [= <- <-]. destruct rest as [|d rest]; [done | ]. destruct He as (_ & Hp & _).
    by rewrite (proj2 (Z.eqb_neq _ _) Hp).
  - destruct (c =? chr ".")%Z; [ | by intros [= <- <-]]. apply ends_digit in He.
    destruct (take_while_app is_digit s rest He) as [-> Hd]. destruct (take_while is_digit s); [done | ].
    intros [= <- <-]. cbn [length] in Hd |- *. by rewrite Hd.
Qed.

Lemma read_exponent_app s rest x r :
  number_ends rest → read_exponent s = Some (x, r) → read_exponent (s ++ rest) = Some (x, r ++ rest).
Proof.
  intros He. unfold read_exponent. destruct s as [|c s]; simpl.
  - intros [= <- <-]. destruct rest as [|d rest]; [done | ]. destruct He as (_ & _ & H1 & H2).
    by rewrite (proj2 (Z.eqb_neq _ _) H1), (proj2 (Z.eqb_neq _ _) H2).
  - destruct (_ || _); [ | by intros [= <- <-]]. apply ends_digit in He. destruct s as [|d s]; simpl; [done | ].
    destruct ((d =? chr "+")%Z || (d =? chr "-")%Z).
    + destruct (take_while_app is_digit s rest He) as [-> Hd]. destruct (take_while is_digit s); [done | ].
      intros [= <- <-]. cbn [length] in Hd |- *. by rewrite Hd.
    + change (d :: s ++ rest) with ((d :: s) ++ rest). destruct (take_while_app is_digit (d :: s) rest He) as [-> Hd].
      destruct (take_while is_digit (d :: s)); [done | ]. intros [= <- <-]. cbn [length] in Hd |- *. by rewrite Hd.
Qed.

Lemma read_unsigned_app s rest n r :
  number_ends rest → read_unsigned s = Some (n, r) → read_unsigned (s ++ rest) = Some (n, r ++ rest).
Proof.
  intros He. unfold read_unsigned. destruct (read_integer s) as [[i s1]|] eqn:E1; [ | done]. cbn [mbind option_bind].
  destruct (read_fraction s1) as [[f s2]|] eqn:E2; [ | done]. cbn [mbind option_bind].
  destruct (read_exponent s2) as [[e s3]|] eqn:E3; [ | done]. cbn [mbind option_bind]. intros [= <- <-].
  rewrite (read_integer_app _ _ _ _ He E1). cbn [mbind option_bind].
  rewrite (read_fraction_app _ _ _ _ He E2). cbn [mbind option_bind].
  by rewrite (read_exponent_app _ _ _ _ He E3).
Qed.

Lemma read_number_app s rest v r :
  number_ends rest → read_number s = Read v r → read_number (s ++ rest) = Read v (r ++ rest).
Proof.
  intros He. unfold read_number. destruct s as [|c s]; [done | ]. cbn [app]. destruct (c =? chr "-")%Z.
  - destruct (read_unsigned s) as [[n q]|] eqn:E; [ | done]. cbn [mbind option_bind]. intros [= <- <-].
    by rewrite (read_unsigned_app _ _ _ _ He E).
  - destruct (read_unsigned (c :: s)) as [[n q]|] eqn:E; [ | done]. intros [= <- <-].
    change (c :: s ++ rest) with ((c :: s) ++ rest). by rewrite (read_unsigned_app _ _ _ _ He E).
Qed.

(** ** White space *)

Definition blank (w : ustring) : Prop := forallb is_json_space w = true.

Lemma skip_blank w text : blank w → skip_space (w ++ text) = skip_space text.
Proof.
  unfold blank, skip_space. induction w as [|c w IH]; [done | ]. cbn [forallb app drop_while]. intros H. bools.
  match goal with H : is_json_space c = true |- _ => rewrite H end. by apply IH.
Qed.

Lemma read_value_blank w text fuel : blank w → read_value fuel (w ++ text) = read_value fuel text.
Proof. intros H. destruct fuel as [|fuel]; [done | ]. cbn [read_value]. by rewrite skip_blank. Qed.

Lemma read_members_blank w text acc fuel : blank w → read_members fuel (w ++ text) acc = read_members fuel text acc.
Proof. intros H. destruct fuel as [|fuel]; [done | ]. cbn [read_members]. by rewrite skip_blank. Qed.

Lemma read_elements_blank w text acc fuel : blank w → read_elements fuel (w ++ text) acc = read_elements fuel text acc.
Proof. intros H. destruct fuel as [|fuel]; [done | ]. cbn [read_elements]. by rewrite read_value_blank. Qed.

Lemma number_ends_blank w text : blank w → number_ends text → number_ends (w ++ text).
Proof.
  unfold blank. destruct w as [|c w]; [done | ]. cbn [forallb app]. intros H _. bools.
  match goal with H : is_json_space c = true |- _ => unfold is_json_space in H; revert H end. unfold is_digit. chr_norm.
  intros H. repeat (apply orb_true_iff in H as [H|H]); bools; subst; repeat split; done.
Qed.

Lemma blank_app a b : blank a → blank b → blank (a ++ b).
Proof. unfold blank. rewrite forallb_app. intros -> ->. done. Qed.

Lemma blank_line gap ind : blank gap → blank ind → blank (line gap ind).
Proof. destruct gap; [done | ]. intros _ H. exact H. Qed.

(** ** Reading what is printed *)

(** How a printed value starts. *)
Definition value_front (text : ustring) : Prop :=
  match text with [] => False | c :: _ => is_json_space c = false ∧ c ≠ chr "]" ∧ c ≠ chr "}" end.

Lemma skip_front text rest : value_front text → skip_space (text ++ rest) = text ++ rest.
Proof. destruct text as [|c text]; [done | ]. intros (Hc & _). unfold skip_space. cbn [app drop_while]. by rewrite Hc. Qed.

Lemma number_front s v r : read_number s = Read v r →
  match s with [] => False | c :: _ => c = chr "-" ∨ is_digit c = true end.
Proof.
  unfold read_number. destruct s as [|c s]; [done | ]. destruct (Z.eqb_spec c (chr "-")) as [->|]; [by left | ].
  unfold read_unsigned, read_integer. simpl. destruct (is_digit c) eqn:E; [by right | done].
Qed.

Lemma number_unit_front c : c = chr "-" ∨ is_digit c = true →
  is_json_space c = false ∧
  ((c =? chr "{") = false ∧ (c =? chr "[") = false ∧ (c =? DQUOTE) = false ∧ (c =? chr "t") = false ∧
   (c =? chr "f") = false ∧ (c =? chr "n") = false ∧ (c =? chr "]") = false ∧ (c =? chr "}") = false)%Z.
Proof.
  unfold is_digit, is_json_space, DQUOTE. intros H. chr_norm.
  assert (c = 45 ∨ 48 ≤ c ≤ 57)%Z as Hc by (destruct H as [|H]; [lia | ]; bools; lia).
  repeat match goal with |- context [(c =? ?b)%Z] => destruct (Z.eqb_spec c b); [lia | ] end. done.
Qed.

Lemma printable_number_read n rest :
  printable_number n = true → number_ends rest → read_number (Number_toString n ++ rest) = Read (JNumber n) rest.
Proof.
  unfold printable_number. intros [_ H]%andb_true_iff He.
  destruct (read_number (Number_toString n)) as [v r| | ] eqn:E; [ | done | done]. destruct v as [| |m| | |]; try done.
  destruct r; [ | done]. bools. subst m. by rewrite (read_number_app _ rest _ _ He E).
Qed.

Lemma print_front gap ind v : printable v = true → value_front (JSON_print gap ind v).
Proof.
  destruct v as [| [] | n | s | [|v vs] | [|f fields]]; try done. cbn [printable JSON_print]. unfold printable_number.
  intros [Hf H]%andb_true_iff. rewrite Hf.
  destruct (read_number (Number_toString n)) as [v r| | ] eqn:E; [ | done | done]. apply number_front in E.
  destruct (Number_toString n) as [|c s]; [done | ]. apply number_unit_front in E as (Hs & H1).
  unfold value_front. split; [done | ]. rewrite <- !Z.eqb_neq. tauto.
Qed.

Lemma code_units s : forallb is_code_unit s = true → Forall code_unit s.
Proof.
  intros H. apply Forall_forall. intros c Hc. rewrite forallb_forall in H. apply list_elem_of_In, H in Hc.
  unfold is_code_unit in Hc. unfold code_unit. bools. lia.
Qed.

Lemma read_string_printed s rest :
  forallb is_code_unit s = true →
  JSON_stringify_string s ++ rest = DQUOTE :: (json_escape s ++ DQUOTE :: rest) ∧
  read_string (json_escape s ++ DQUOTE :: rest) [] = Read s rest.
Proof.
  intros Hs. split; [unfold JSON_stringify_string; cbn [app]; by rewrite <- app_assoc | ].
  by apply json_escape_reads, code_units.
Qed.

(** [t] is a text of the value [v]. *)
Definition reads (v : json) (t : ustring) : Prop :=
  ∀ rest fuel, number_ends rest → 2 * length t ≤ fuel → read_value fuel (t ++ rest) = Read v rest.

(** The elements of an array and its bracket. *)
Lemma read_elements_printed vs ts pre post acc rest : ∀ fuel,
  vs ≠ [] → Forall2 reads vs ts → blank pre → blank post →
  2 * length (join (js "," ++ pre) ts ++ js "]") ≤ fuel →
  read_elements fuel (join (js "," ++ pre) ts ++ post ++ js "]" ++ rest) acc = Read (JArray (acc ++ vs)) rest.
Proof.
  intros fuel Hne Hr Hpre Hpost. revert acc fuel Hne. induction Hr as [|v t vs ts Hv Hr IH]; intros acc fuel Hne Hf; [done | ].
  destruct fuel as [|fuel]; [rewrite length_app in Hf; change (length (js "]")) with 1 in Hf; lia | ].
  destruct ts as [|t' ts].
  - inversion Hr; subst. cbn [join] in *. cbn [read_elements]. rewrite length_app in Hf. change (length (js "]")) with 1 in Hf.
    rewrite Hv; [ | by apply number_ends_blank | lia]. by rewrite skip_blank.
  - change (join (js "," ++ pre) (t :: t' :: ts)) with (t ++ js "," ++ pre ++ join (js "," ++ pre) (t' :: ts)) in *.
    cbn [read_elements]. rewrite <- !app_assoc in *. rewrite length_app in Hf.
    change (length (js "," ++ ?t)) with (S (length t)) in Hf. rewrite Hv by (done || lia).
    change (js "," ++ ?t) with (chr "," :: t). change (skip_space (chr "," :: ?t)) with (chr "," :: t). cbn iota.
    rewrite Z.eqb_refl. cbn iota. rewrite read_elements_blank by done. rewrite length_app in Hf.
    rewrite IH; [by rewrite <- app_assoc | by destruct vs; [inversion Hr | ] | lia].
Qed.

Lemma set_field_new fields name v :
  name ∉ map fst fields → set_field fields name v = fields ++ [(name, v)].
Proof.
  induction fields as [|[k w] fields IH]; intros Hn; [done | ]. cbn [set_field app]. cbn [map fst] in Hn.
  unfold ustring_eqb. rewrite bool_decide_false by set_solver. rewrite IH by set_solver. done.
Qed.

Lemma enumeration_plain fields :
  Forall (fun f => array_index f.1 = None) fields → enumeration_order fields = fields.
Proof.
  intros Hf. unfold enumeration_order. rewrite Forall_forall in Hf. rewrite filter_all by auto.
  assert (H : ∀ l base, (∀ f, f ∈ l → array_index f.1 = None) →
    foldr (fun f acc => match array_index f.1 with Some i => insert_index i f.1 f.2 acc | None => acc end) base l = base).
  { induction l as [|f l IH]; intros base Hl; [done | ]. simpl. rewrite (Hl f) by left. apply IH.
    intros g Hg. apply Hl. by right. }
  apply H. auto.
Qed.

(** The text of a property: its name, a colon, and a text of its value. *)
Definition reads_field (sep : ustring) (f : ustring * json) (t : ustring) : Prop :=
  ∃ u, t = JSON_stringify_string f.1 ++ js ":" ++ sep ++ u ∧ reads f.2 u.

Lemma read_members_printed fields ts sep pre post acc rest : ∀ fuel,
  fields ≠ [] → Forall2 (reads_field sep) fields ts → blank sep → blank pre → blank post →
  forallb printable_name (map fst fields) = true → NoDup (map fst (acc ++ fields)) →
  2 * length (join (js "," ++ pre) ts ++ js "}") ≤ fuel →
  read_members fuel (join (js "," ++ pre) ts ++ post ++ js "}" ++ rest) acc =
    Read (JObject (enumeration_order (acc ++ fields))) rest.
Proof.
  intros fuel Hne Hr Hsep Hpre Hpost. revert acc fuel Hne.
  induction Hr as [|[name v] t fields ts (u & -> & Hv) Hr IH]; intros acc fuel Hne Hp Hd Hf; [done | ].
  cbn [map forallb fst snd] in *. unfold printable_name at 1 in Hp. bools.
  assert (Hname : name ∉ map fst acc).
  { rewrite map_app in Hd. cbn [map fst] in Hd. apply NoDup_app in Hd as (_ & Hd & _). intros Hin. apply (Hd name Hin). left. }
  destruct fuel as [|fuel]; [rewrite length_app in Hf; change (length (js "}")) with 1 in Hf; lia | ].
  assert (Hset : set_field acc name v = acc ++ [(name, v)]) by (by apply set_field_new).
  (* Reading the name and the value leaves what follows the value. *)
  assert (Hstep : ∀ tail, number_ends tail → 2 * length u ≤ fuel →
    read_members (S fuel) ((JSON_stringify_string name ++ js ":" ++ sep ++ u) ++ tail) acc =
    match skip_space tail with
    | d :: r' => if (d =? chr ",")%Z then read_members fuel r' (acc ++ [(name, v)])
                 else if (d =? chr "}")%Z then Read (JObject (enumeration_order (acc ++ [(name, v)]))) r' else SyntaxError
    | [] => SyntaxError
    end).
  { intros tail He Hu. cbn [read_members]. rewrite <- !app_assoc.
    destruct (read_string_printed name (js ":" ++ sep ++ u ++ tail)) as [-> Hread]; [done | ].
    change (skip_space (DQUOTE :: ?t)) with (DQUOTE :: t). cbn iota. rewrite Z.eqb_refl, Hread. cbn iota.
    change (js ":" ++ ?t) with (chr ":" :: t). change (skip_space (chr ":" :: ?t)) with (chr ":" :: t). cbn iota.
    rewrite Z.eqb_refl, read_value_blank, Hv by done. by rewrite Hset. }
  assert (Hlen : ∀ t, length u ≤ length ((JSON_stringify_string name ++ js ":" ++ sep ++ u) ++ t)).
  { intros t. rewrite !length_app. lia. }
  destruct ts as [|t' ts].
  - inversion Hr; subst. cbn [join] in *. specialize (Hlen []). rewrite app_nil_r in Hlen.
    rewrite length_app in Hf. change (length (js "}")) with 1 in Hf.
    rewrite Hstep; [ | by apply number_ends_blank | lia]. by rewrite skip_blank.
  - change (join (js "," ++ pre) (?t :: t' :: ts)) with (t ++ js "," ++ pre ++ join (js "," ++ pre) (t' :: ts)) in *.
    set (front := JSON_stringify_string name ++ js ":" ++ sep ++ u) in *. specialize (Hlen []). rewrite app_nil_r in Hlen.
    rewrite <- !app_assoc in *. rewrite length_app in Hf. change (length (js "," ++ ?t)) with (S (length t)) in Hf.
    rewrite length_app in Hf. rewrite Hstep by (done || lia). change (js "," ++ ?t) with (chr "," :: t).
    change (skip_space (chr "," :: ?t)) with (chr "," :: t). cbn iota. rewrite Z.eqb_refl, read_members_blank by done.
    rewrite IH; [by rewrite <- app_assoc | by destruct fields; [inversion Hr | ] | done | by rewrite <- app_assoc | lia].
Qed.

(** The first unit of printed elements is neither white space nor a bracket. *)
Lemma join_front sep t ts : value_front t → value_front (join sep (t :: ts)).
Proof. destruct t as [|c t]; [done | ]. by destruct ts. Qed.

Lemma read_array_printed gap ind vs ts :
  blank gap → blank ind → Forall2 reads vs ts → Forall value_front ts → reads (JArray vs) (bracket "[" "]" gap ind ts).
Proof.
  intros Hg Hi Hr Hfront rest fuel He Hf. destruct Hr as [|v t vs ts Hv Hr].
  { destruct fuel as [|fuel]; [simpl in Hf; lia | ]. done. }
  unfold bracket in *. rewrite !length_app in Hf. change (length (js "[")) with 1 in Hf. change (length (js "]")) with 1 in Hf.
  destruct fuel as [|fuel]; [lia | ]. rewrite <- !app_assoc. change (js "[" ++ ?t) with (chr "[" :: t). cbn [read_value].
  change (skip_space (chr "[" :: ?t)) with (chr "[" :: t). cbn iota. change (chr "[" =? chr "{")%Z with false.
  rewrite Z.eqb_refl. cbn iota. assert (Hl : blank (line gap (ind ++ gap))) by (by apply blank_line, blank_app).
  inversion_clear Hfront as [|? ? Ht Hts]. rewrite skip_blank, skip_front by (done || by apply join_front).
  pose proof (join_front (js "," ++ line gap (ind ++ gap)) t ts Ht) as Hj.
  destruct (join (js "," ++ line gap (ind ++ gap)) (t :: ts)) as [|c tt] eqn:E; [done | ]. destruct Hj as (_ & Hc & _).
  cbn [app]. rewrite (proj2 (Z.eqb_neq _ _) Hc). change (c :: tt ++ ?r) with ((c :: tt) ++ r).
  rewrite <- E, read_elements_blank by done.
  rewrite (read_elements_printed (v :: vs) (t :: ts) _ _ []); [done | done | by constructor | done | by apply blank_line | ].
  rewrite E, length_app. change (length (js "]")) with 1. lia.
Qed.

Lemma read_object_printed gap ind sep fields ts :
  blank gap → blank ind → blank sep → printable (JObject fields) = true →
  Forall2 (reads_field sep) fields ts → reads (JObject fields) (bracket "{" "}" gap ind ts).
Proof.
  intros Hg Hi Hsep Hp Hr rest fuel He Hf. destruct fields as [|f fields].
  { inversion Hr; subst. destruct fuel as [|fuel]; [simpl in Hf; lia | ]. done. }
  assert (Hplain : Forall (fun f => array_index f.1 = None) (f :: fields)).
  { cbn [printable] in Hp. bools. apply Forall_forall. intros g Hg'. match goal with H : forallb printable_name _ = true |- _ =>
      rewrite forallb_forall in H; specialize (H g.1 (in_map fst _ _ (proj1 (list_elem_of_In _ _) Hg'))) end.
    unfold printable_name in *. by bools. }
  cbn [printable] in Hp. apply andb_true_iff in Hp as [Hp _]. apply andb_true_iff in Hp as [Hn Hd]. bools.
  destruct ts as [|t ts]; [inversion Hr | ].
  assert (Ht : value_front t). { inversion Hr as [|? ? ? ? (u & -> & _) _]; subst. done. }
  unfold bracket in *. rewrite !length_app in Hf. change (length (js "{")) with 1 in Hf. change (length (js "}")) with 1 in Hf.
  destruct fuel as [|fuel]; [lia | ]. rewrite <- !app_assoc. change (js "{" ++ ?t) with (chr "{" :: t). cbn [read_value].
  change (skip_space (chr "{" :: ?t)) with (chr "{" :: t). cbn iota. rewrite Z.eqb_refl.
  assert (Hl : blank (line gap (ind ++ gap))) by (by apply blank_line, blank_app).
  rewrite skip_blank, skip_front by (done || by apply join_front).
  pose proof (join_front (js "," ++ line gap (ind ++ gap)) t ts Ht) as Hj.
  destruct (join (js "," ++ line gap (ind ++ gap)) (t :: ts)) as [|c tt] eqn:E; [done | ]. destruct Hj as (_ & _ & Hc).
  cbn [app]. rewrite (proj2 (Z.eqb_neq _ _) Hc). change (c :: tt ++ ?r) with ((c :: tt) ++ r).
  rewrite <- E, read_members_blank by done.
  rewrite (read_members_printed (f :: fields) (t :: ts) sep _ _ []); try done; [by rewrite enumeration_plain | by apply blank_line | ].
  rewrite E, length_app. change (length (js "}")) with 1. lia.
Qed.

Lemma read_number_printed n : printable_number n = true → reads (JNumber n) (Number_toString n).
Proof.
  intros Hp rest fuel He Hf. pose proof (printable_number_read n rest Hp He) as Hread.
  assert (Hfr : value_front (Number_toString n)).
  { pose proof (print_front [] [] (JNumber n) Hp) as H. cbn [JSON_print] in H. unfold printable_number in Hp.
    apply andb_true_iff in Hp as [Hfin _]. by rewrite Hfin in H. }
  destruct fuel as [|fuel]; [destruct (Number_toString n); [done | simpl in Hf; lia] | ]. cbn [read_value].
  rewrite skip_front by done. pose proof Hread as Hc. apply number_front in Hc.
  destruct (Number_toString n ++ rest) as [|c t]; [done | ].
  apply number_unit_front in Hc as (_ & -> & -> & -> & -> & -> & -> & _). exact Hread.
Qed.

Lemma Forall2_map {A B} (R : A → B → Prop) (f : A → B) l : (∀ x, x ∈ l → R x (f x)) → Forall2 R l (map f l).
Proof.
  induction l as [|x l IH]; intros H; [constructor | ]. constructor; [apply H; left | ]. apply IH. intros y Hy. apply H. by right.
Qed.

(** Every printed value is read back, with any white gap. *)
Lemma read_printed gap v : ∀ ind, blank gap → blank ind → printable v = true → reads v (JSON_print gap ind v).
Proof.
  induction v as [| b | n | s | vs IH | fields IH] using json_induction; intros ind Hg Hi Hp.
  - intros rest fuel He Hf. destruct fuel; [simpl in Hf; lia | ]. done.
  - intros rest fuel He Hf. destruct b; (destruct fuel; [simpl in Hf; lia | ]); done.
  - cbn [JSON_print printable] in *. assert (Hfin := Hp). unfold printable_number in Hfin.
    apply andb_true_iff in Hfin as [Hfin _]. rewrite Hfin. by apply read_number_printed.
  - intros rest fuel He Hf. cbn [JSON_print printable] in *. destruct (read_string_printed s rest Hp) as [Hopen Hread].
    destruct fuel as [|fuel]; [simpl in Hf; lia | ]. rewrite Hopen. cbn [read_value].
    change (skip_space (DQUOTE :: ?t)) with (DQUOTE :: t). cbn iota.
    change (DQUOTE =? chr "{")%Z with false. change (DQUOTE =? chr "[")%Z with false. rewrite Z.eqb_refl. cbn iota.
    by rewrite Hread.
  - cbn [printable] in Hp. rewrite forallb_forall in Hp. rewrite Forall_forall in IH.
    cbn [JSON_print]. apply read_array_printed; [done | done | | ].
    + apply Forall2_map. intros v Hv. apply IH; [done | done | by apply blank_app | ]. by apply Hp, list_elem_of_In.
    + apply Forall_map, Forall_forall. intros v Hv. apply print_front. by apply Hp, list_elem_of_In.
  - rewrite Forall_forall in IH. cbn [JSON_print].
    apply (read_object_printed gap ind (match gap with [] => [] | _ => js " " end)); [done | done | by destruct gap | done | ].
    apply Forall2_map. intros f Hf. exists (JSON_print gap (ind ++ gap) f.2). split; [by destruct gap | ].
    apply IH; [done | done | by apply blank_app | ]. cbn [printable] in Hp. bools.
    match goal with H : forallb (fun f => printable f.2) _ = true |- _ => rewrite forallb_forall in H; by apply H, list_elem_of_In end.
Qed.

(** [JSON.parse(JSON.stringify(v, null, gap))] is [v]. *)
Lemma JSON_print_round_trip gap v : blank gap → printable v = true → JSON_parse (JSON_print gap [] v) = Some v.
Proof.
  intros Hg Hp. unfold JSON_parse. rewrite <- (app_nil_r (JSON_print gap [] v)) at 2.
  by rewrite (read_printed gap v [] Hg ltac:(done) Hp []) by (done || lia).
Qed.

(** [JSON.parse(JSON.stringify(v))] is [v]. *)
Lemma JSON_round_trip v : printable v = true → JSON_parse (JSON_stringify v) = Some v.
Proof. by apply JSON_print_round_trip. Qed.
