(* ===== verification/RequestRules.v ===== *)
(** * Request rules of billing expressions

    The second half of [features/pricing/lib/billing-expr.ts]: the multipliers that depend
    on the request or on the time, written by the rule editor as a product of factors
    [(conditions ? multiplier : 1)] and read back from the text by regular expressions.
    Reading can throw: two of the regular expressions accept strings [JSON.parse] refuses,
    outside of any [try]. *)

From Stdlib Require Import Lia.
From stdpp Require Import base numbers strings option sets list.
From S2P Require Import Prelude JsNumber Json JsonText NumberText JsonPrint Regex.

(** ** Data *)

Inductive ConditionSource := SOURCE_PARAM | SOURCE_HEADER.

#[export] Instance ConditionSource_eq : EqDecision ConditionSource.
Proof. solve_decision. Defined.

Definition MATCH_EQ : ustring := js "eq".
Definition MATCH_CONTAINS : ustring := js "contains".
Definition MATCH_GT : ustring := js "gt".
Definition MATCH_GTE : ustring := js "gte".
Definition MATCH_LT : ustring := js "lt".
Definition MATCH_LTE : ustring := js "lte".
Definition MATCH_EXISTS : ustring := js "exists".
Definition MATCH_RANGE : ustring := js "range".

Definition TIME_FUNCS : list ustring :=
  [js "hour"; js "minute"; js "weekday"; js "month"; js "day"].

Record ParamHeaderCondition := mkParamHeader {
  source : ConditionSource;
  path : ustring;
  mode : ustring;
  value : ustring
}.

Record TimeCondition := mkTime {
  timeFunc : ustring;
  timezone : ustring;
  time_mode : ustring;
  time_value : ustring;
  rangeStart : ustring;
  rangeEnd : ustring
}.

Inductive RequestCondition :=
| Time (c : TimeCondition)
| ParamHeader (c : ParamHeaderCondition).

Record RequestRuleGroup := mkGroup {
  rule_conditions : list RequestCondition;
  multiplier : ustring
}.

(** [Partial<RequestCondition>]: a field that is absent or [null] is [None]. *)
Record PartialCondition := mkPartial {
  p_source : option ustring;
  p_timeFunc : option ustring;
  p_timezone : option ustring;
  p_path : option ustring;
  p_mode : option ustring;
  p_value : option ustring;
  p_rangeStart : option ustring;
  p_rangeEnd : option ustring
}.

Definition of_condition (cond : RequestCondition) : PartialCondition :=
  match cond with
  | Time c => mkPartial (Some (js "time")) (Some (timeFunc c)) (Some (timezone c)) None
                (Some (time_mode c)) (Some (time_value c)) (Some (rangeStart c)) (Some (rangeEnd c))
  | ParamHeader c =>
      mkPartial (Some (match source c with SOURCE_PARAM => js "param" | SOURCE_HEADER => js "header" end))
        None None (Some (path c)) (Some (mode c)) (Some (value c)) None None
  end.

(** ** Empty rules *)

Definition createEmptyCondition : ParamHeaderCondition := mkParamHeader SOURCE_PARAM [] MATCH_EQ [].

Definition createEmptyTimeCondition : TimeCondition :=
  mkTime (js "hour") (js "Asia/Shanghai") MATCH_GTE [] [] [].

Definition createEmptyRuleGroup : RequestRuleGroup := mkGroup [ParamHeader createEmptyCondition] [].

Definition createEmptyTimeRuleGroup : RequestRuleGroup := mkGroup [Time createEmptyTimeCondition] [].

(** ** Modes of comparison *)

Record MatchOption := mkOption { option_value : ustring; labelKey : ustring }.

Definition getRequestRuleMatchOptions (src : ustring) : list MatchOption :=
  if ustring_eqb src (js "time") then
    [mkOption MATCH_EQ (js "Equals"); mkOption MATCH_GTE (js "Greater than or equal");
     mkOption MATCH_LT (js "Less than"); mkOption MATCH_RANGE (js "Overnight range")]
  else
    let base := [mkOption MATCH_EQ (js "Equals"); mkOption MATCH_CONTAINS (js "Contains");
                 mkOption MATCH_EXISTS (js "Exists")] in
    if ustring_eqb src (js "header") then base
    else base ++ [mkOption MATCH_GT (js "Greater than"); mkOption MATCH_GTE (js "Greater than or equal");
                  mkOption MATCH_LT (js "Less than"); mkOption MATCH_LTE (js "Less than or equal")].

Definition isTimeFunc (v : option ustring) : bool :=
  match v with Some f => bool_decide (f ∈ TIME_FUNCS) | None => false end.

(** [options.some((item) => item.value === mode) ? mode : fallback]. *)
Definition known_mode (options : list MatchOption) (m : option ustring) (fallback : ustring) : ustring :=
  match m with
  | Some x => if existsb (fun item => ustring_eqb (option_value item) x) options then x else fallback
  | None => fallback
  end.

(** [text || fallback]. *)
Definition or_text (text : option ustring) (fallback : ustring) : ustring :=
  match text with Some s => if truthy s then s else fallback | None => fallback end.

Definition normalizeCondition (cond : option PartialCondition) : RequestCondition :=
  let field f := cond ≫= f in
  let src :=
    if bool_decide (field p_source = Some (js "time")) then js "time"
    else if bool_decide (field p_source = Some (js "header")) then js "header"
    else js "param" in
  if ustring_eqb src (js "time") then
    Time (mkTime
      (if isTimeFunc (field p_timeFunc) then default [] (field p_timeFunc) else js "hour")
      (or_text (field p_timezone) (js "Asia/Shanghai"))
      (known_mode (getRequestRuleMatchOptions (js "time")) (field p_mode) MATCH_GTE)
      (default [] (field p_value)) (default [] (field p_rangeStart)) (default [] (field p_rangeEnd)))
  else
    ParamHeader (mkParamHeader
      (if ustring_eqb src (js "header") then SOURCE_HEADER else SOURCE_PARAM)
      (or_text (field p_path) [])
      (known_mode (getRequestRuleMatchOptions src) (field p_mode) MATCH_EQ)
      (default [] (field p_value))).

(** ** Regular expressions *)

Definition numeric_unit (c : Z) : bool := is_digit c || one_of ".eE+-" c.
Definition rq : regex := rtext [DQUOTE].
Definition not_quote (c : Z) : bool := negb (c =? DQUOTE)%Z.
Definition any_but_line_end (c : Z) : bool := negb (is_line_end c).

(** [/^-?(?:\d+\.?\d*|\.\d+)(?:[eE][+-]?\d+)?$/]. *)
Definition NUMERIC_LITERAL_REGEX : regex :=
  rseq [ropt (rlit "-");
        RAlt (rseq [rplus (RChar is_digit); ropt (rlit "."); RStar (RChar is_digit)])
             (rseq [rlit "."; rplus (RChar is_digit)]);
        ropt (rseq [RChar (one_of "eE"); ropt (RChar (one_of "+-")); rplus (RChar is_digit)])].

Definition is_numeric (text : ustring) : bool := test_all NUMERIC_LITERAL_REGEX text.

(** A call of a time function on a quoted name: the groups 1 and 2. *)
Definition TIME_CALL : regex :=
  rseq [rchoice 1 TIME_FUNCS; rlit "("; rq; rrun 2 not_quote; rq; rlit ")"].

(** [<call> >= s || <the same call> < e]. *)
Definition TIME_RANGE : regex :=
  rseq [TIME_CALL; rlit " >= "; rrun 3 numeric_unit; rlit " || "; RBackref 1; rlit "("; rq;
        RBackref 2; rq; rlit ")"; rlit " < "; rrun 4 numeric_unit].

Definition TIME_RANGE_PARENS : regex := rseq [rlit "("; TIME_RANGE; rlit ")"].

Definition TIME_COMPARE : regex :=
  rseq [TIME_CALL; rlit " "; rchoice 3 [js "=="; js ">="; js "<"]; rlit " "; rrun 4 numeric_unit].

(** A call of [name] on a quoted text, captured as group [n]. *)
Definition call_of (name : string) (n : nat) : regex :=
  rseq [rlit name; rlit "("; rq; rrun n not_quote; rq; rlit ")"].

(** A quoted string with escapes, captured as group [n]. *)
Definition STRING_LITERAL (n : nat) : regex :=
  RGroup n (rseq [rq;
    RStar (RAlt (RChar (fun c => not_quote c && negb (c =? chr "\")%Z))
                (RSeq (RChar (is_char (chr "\"))) (RChar any_but_line_end)));
    rq]).

Definition HEADER_EXISTS : regex := rseq [call_of "header" 1; rlit " != "; rq; rq].
Definition PARAM_EXISTS : regex := rseq [call_of "param" 1; rlit " != nil"].
Definition HEADER_CONTAINS : regex :=
  rseq [rlit "has("; call_of "header" 1; rlit ", "; STRING_LITERAL 2; rlit ")"].
Definition PARAM_CONTAINS : regex :=
  rseq [call_of "param" 1; rlit " != nil && has("; call_of "param" 2; rlit ", "; STRING_LITERAL 3; rlit ")"].
Definition PARAM_COMPARE : regex :=
  rseq [call_of "param" 1; rlit " != nil && "; call_of "param" 2; rlit " ";
        rchoice 3 [js ">"; js ">="; js "<"; js "<="]; rlit " "; rrun 4 numeric_unit].
Definition SOURCE_EQ : regex :=
  rseq [rchoice 1 [js "param"; js "header"]; rlit "("; rq; rrun 2 not_quote; rq; rlit ")";
        rlit " == "; rrun 3 any_but_line_end].

(** [/^\((.+) \? ([\d.eE+-]+) : 1\)$/s]. *)
Definition RULE_FACTOR : regex :=
  rseq [rlit "("; rrun 1 (fun _ => true); rlit " ? "; rrun 2 numeric_unit; rlit " : 1)"].

(** ** Building the text *)

Definition buildExprLiteral (m v : ustring) : ustring :=
  let text := trim v in
  if ustring_eqb m MATCH_CONTAINS then JSON_stringify_string text
  else if ustring_eqb text (js "true") || ustring_eqb text (js "false") then text
  else if is_numeric text then text
  else JSON_stringify_string text.

(** [opMap\[mode\] || '==']. *)
Definition time_op (m : ustring) : ustring :=
  if ustring_eqb m MATCH_EQ then js "=="
  else if ustring_eqb m MATCH_GTE then js ">="
  else if ustring_eqb m MATCH_LT then js "<"
  else js "==".

Definition call_text (name : ustring) (arg : ustring) : ustring :=
  name ++ js "(" ++ JSON_stringify_string arg ++ js ")".

(** The text of a normalized time condition. *)
Definition time_condition_text (c : TimeCondition) : ustring :=
  let fn := call_text (timeFunc c) (timezone c) in
  if ustring_eqb (time_mode c) MATCH_RANGE then
    let s := trim (rangeStart c) in
    let e := trim (rangeEnd c) in
    if negb (is_numeric s) || negb (is_numeric e) then []
    else fn ++ js " >= " ++ s ++ js " || " ++ fn ++ js " < " ++ e
  else
    let v := trim (time_value c) in
    if negb (is_numeric v) then []
    else fn ++ js " " ++ time_op (time_mode c) ++ js " " ++ v.

Definition buildTimeConditionExpr (cond : TimeCondition) : ustring :=
  match normalizeCondition (Some (of_condition (Time cond))) with
  | Time c => time_condition_text c
  | ParamHeader _ => []
  end.

Definition compare_op (m : ustring) : option ustring :=
  if ustring_eqb m MATCH_GT then Some (js ">")
  else if ustring_eqb m MATCH_GTE then Some (js ">=")
  else if ustring_eqb m MATCH_LT then Some (js "<")
  else if ustring_eqb m MATCH_LTE then Some (js "<=")
  else None.

(** The text of a normalized condition on a parameter or a header. *)
Definition param_header_text (c : ParamHeaderCondition) : ustring :=
  let p := trim (path c) in
  if negb (truthy p) then []
  else
    let sourceExpr :=
      call_text (match source c with SOURCE_HEADER => js "header" | SOURCE_PARAM => js "param" end) p in
    if ustring_eqb (mode c) MATCH_EXISTS then
      match source c with
      | SOURCE_HEADER => sourceExpr ++ js " != " ++ [DQUOTE; DQUOTE]
      | SOURCE_PARAM => sourceExpr ++ js " != nil"
      end
    else if ustring_eqb (mode c) MATCH_CONTAINS then
      let has := js "has(" ++ sourceExpr ++ js ", " ++ buildExprLiteral (mode c) (value c) ++ js ")" in
      match source c with
      | SOURCE_HEADER => has
      | SOURCE_PARAM => sourceExpr ++ js " != nil && " ++ has
      end
    else match compare_op (mode c) with
    | Some op =>
        let numText := trim (value c) in
        if negb (is_numeric numText) then []
        else sourceExpr ++ js " != nil && " ++ sourceExpr ++ js " " ++ op ++ js " " ++ numText
    | None => sourceExpr ++ js " == " ++ buildExprLiteral (mode c) (value c)
    end.

Definition buildRequestConditionExpr (cond : RequestCondition) : ustring :=
  match cond with
  | Time c => buildTimeConditionExpr c
  | ParamHeader c =>
      match normalizeCondition (Some (of_condition cond)) with
      | ParamHeader n => param_header_text n
      | Time _ => []
      end
  end.

Definition is_truthy_text (s : ustring) : Prop := truthy s = true.
#[export] Instance is_truthy_text_dec s : Decision (is_truthy_text s) := decide (truthy s = true).

(** A range is put in parentheses beside other conditions. *)
Definition wrap_or (e : ustring) : ustring :=
  if includes (js " || ") e then js "(" ++ e ++ js ")" else e.

Definition buildRuleGroupFactor (group : RequestRuleGroup) : ustring :=
  let m := trim (multiplier group) in
  if negb (is_numeric m) then []
  else
    let condExprs := filter is_truthy_text (buildRequestConditionExpr <$> rule_conditions group) in
    match condExprs with
    | [] => []
    | _ =>
        let combined :=
          match condExprs with
          | [e] => e
          | _ => join (js " && ") (wrap_or <$> condExprs)
          end in
        js "(" ++ combined ++ js " ? " ++ m ++ js " : 1)"
    end.

Definition buildRequestRuleExpr (groups : list RequestRuleGroup) : ustring :=
  join (js " * ") (filter is_truthy_text (buildRuleGroupFactor <$> groups)).

(** ** Splitting at the top level *)

(** The loop of both splitters: [skip] units still belong to the separator, [current] is
    the part since the last one, backwards. *)
Fixpoint split_loop (sep : ustring) (skip : nat) (depth : Z) (current : ustring) (expr : ustring)
    : list ustring :=
  match expr with
  | [] => [trim (reverse current)]
  | c :: rest =>
      match skip with
      | S k => split_loop sep k depth current rest
      | 0 =>
          let depth1 := if (c =? chr "(")%Z then (depth + 1)%Z else depth in
          let depth2 := if (c =? chr ")")%Z then (depth1 - 1)%Z else depth1 in
          if (depth2 =? 0)%Z && starts_with sep expr then
            trim (reverse current) :: split_loop sep (length sep - 1) depth2 [] rest
          else split_loop sep 0 depth2 (c :: current) rest
      end
  end.

Definition split_top (sep : ustring) (expr : ustring) : list ustring :=
  filter is_truthy_text (split_loop sep 0 0 [] expr).

Definition splitTopLevelMultiply (expr : ustring) : list ustring := split_top (js " * ") expr.

Definition splitTopLevelAnd (expr : ustring) : list ustring := split_top (js " && ") expr.

(** ** Reading the text *)

(** The exception of [JSON.parse] where nothing catches it. *)
Inductive thrown := SyntaxErrorThrown.

Abbreviation reads A := (result thrown (option A)).

(** [None] is [null]; the value is text or, by [JSON.parse], any JSON value. *)
Definition parseExprLiteral (raw : ustring) : option json :=
  let text := trim raw in
  if ustring_eqb text (js "true") || ustring_eqb text (js "false") then Some (JString text)
  else if is_numeric text then Some (JString text)
  else match JSON_parse text with
       | Some JNull | None => None
       | Some v => Some v
       end.

Definition range_condition (caps : captures) : RequestCondition :=
  Time (mkTime (group 1 caps) (group 2 caps) MATCH_RANGE [] (group 3 caps) (group 4 caps)).

Definition time_mode_of (op : ustring) : ustring :=
  if ustring_eqb op (js "==") then MATCH_EQ
  else if ustring_eqb op (js ">=") then MATCH_GTE
  else if ustring_eqb op (js "<") then MATCH_LT
  else MATCH_EQ.

Definition tryParseTimeCondition (expr : ustring) : option RequestCondition :=
  match match_all TIME_RANGE expr with
  | Some m => Some (range_condition m)
  | None =>
  match match_all TIME_RANGE_PARENS expr with
  | Some m => Some (range_condition m)
  | None =>
  match match_all TIME_COMPARE expr with
  | Some m =>
      Some (Time (mkTime (group 1 m) (group 2 m) (time_mode_of (group 3 m)) (group 4 m) [] []))
  | None => None
  end end end.

(** [JSON.parse(m\[n\]) as string], not inside a [try]. *)
Definition parse_or_throw (text : ustring) : result thrown ustring :=
  match JSON_parse text with Some v => Ok (String_json v) | None => Err SyntaxErrorThrown end.

Definition param_mode_of (op : ustring) : ustring :=
  if ustring_eqb op (js ">") then MATCH_GT
  else if ustring_eqb op (js ">=") then MATCH_GTE
  else if ustring_eqb op (js "<") then MATCH_LT
  else MATCH_LTE.

(** [m && m\[1\] === m\[2\]]. *)
Definition same_path (m : option captures) : option captures :=
  caps ← m; if ustring_eqb (group 1 caps) (group 2 caps) then Some caps else None.

Definition found (src : ConditionSource) (p m v : ustring) : reads RequestCondition :=
  Ok (Some (ParamHeader (mkParamHeader src p m v))).

Definition tryParseRequestCondition (expr : ustring) : reads RequestCondition :=
  match tryParseTimeCondition expr with
  | Some tc => Ok (Some tc)
  | None =>
  match match_all HEADER_EXISTS expr with
  | Some m => found SOURCE_HEADER (group 1 m) MATCH_EXISTS []
  | None =>
  match match_all PARAM_EXISTS expr with
  | Some m => found SOURCE_PARAM (group 1 m) MATCH_EXISTS []
  | None =>
  match match_all HEADER_CONTAINS expr with
  | Some m => v ← parse_or_throw (group 2 m); found SOURCE_HEADER (group 1 m) MATCH_CONTAINS v
  | None =>
  match same_path (match_all PARAM_CONTAINS expr) with
  | Some m => v ← parse_or_throw (group 3 m); found SOURCE_PARAM (group 1 m) MATCH_CONTAINS v
  | None =>
  match same_path (match_all PARAM_COMPARE expr) with
  | Some m => found SOURCE_PARAM (group 1 m) (param_mode_of (group 3 m)) (group 4 m)
  | None =>
  match match_all SOURCE_EQ expr with
  | Some m =>
      match parseExprLiteral (group 3 m) with
      | None => Ok None
      | Some v =>
          found (if ustring_eqb (group 1 m) (js "header") then SOURCE_HEADER else SOURCE_PARAM)
            (group 2 m) MATCH_EQ (String_json v)
      end
  | None => Ok None
  end end end end end end end.

(** The loop that gives up at the first item it cannot read. *)
Fixpoint read_all {A} (f : ustring → reads A) (texts : list ustring) : reads (list A) :=
  match texts with
  | [] => Ok (Some [])
  | t :: rest =>
      r ← f t;
      match r with
      | None => Ok None
      | Some a =>
          rs ← read_all f rest;
          Ok (match rs with Some l => Some (a :: l) | None => None end)
      end
  end.

Definition tryParseRuleGroupFactor (part : ustring) : reads RequestRuleGroup :=
  match match_all RULE_FACTOR part with
  | None => Ok None
  | Some m =>
      cs ← read_all (fun ap => tryParseRequestCondition (trim ap)) (splitTopLevelAnd (group 1 m));
      Ok (match cs with
          | None | Some [] => None
          | Some conditions => Some (mkGroup conditions (group 2 m))
          end)
  end.

Definition tryParseRequestRuleExpr (expr : ustring) : reads (list RequestRuleGroup) :=
  let trimmed := trim expr in
  if negb (truthy trimmed) then Ok (Some [])
  else read_all tryParseRuleGroupFactor (splitTopLevelMultiply trimmed).

(** ** Joining and separating the price and the rules *)

(** The scan of [hasFullOuterParens]: the depth is 0 only after the last unit. *)
Fixpoint outer_scan (depth : Z) (expr : ustring) : bool :=
  match expr with
  | [] => (depth =? 0)%Z
  | c :: rest =>
      let depth1 := if (c =? chr "(")%Z then (depth + 1)%Z else depth in
      let depth2 := if (c =? chr ")")%Z then (depth1 - 1)%Z else depth1 in
      if (depth2 =? 0)%Z && negb (bool_decide (rest = [])) then false else outer_scan depth2 rest
  end.

Definition hasFullOuterParens (expr : ustring) : bool :=
  if negb (starts_with (js "(") expr) || negb (bool_decide (last expr = Some (chr ")"))) then false
  else outer_scan 0 expr.

(** [current.slice(1, -1)]. *)
Definition slice_inner (s : ustring) : ustring := slice 1 (length s - 1) s.

(** Each round removes at least two units, so the length bounds the rounds. *)
Fixpoint unwrap_loop (fuel : nat) (current : ustring) : ustring :=
  match fuel with
  | 0 => current
  | S f => if hasFullOuterParens current then unwrap_loop f (trim (slice_inner current)) else current
  end.

Definition unwrapOuterParens (expr : ustring) : ustring := unwrap_loop (length expr) (trim expr).

Record SplitExpr := mkSplit { billingExpr : ustring; requestRuleExpr : ustring }.

(** [parsed && parsed.length > 0]. *)
Definition is_rule (part : ustring) : result thrown bool :=
  r ← tryParseRequestRuleExpr part;
  Ok (match r with Some (_ :: _) => true | _ => false end).

(** The rules and the other parts, in order. *)
Fixpoint sort_parts (parts : list ustring) : result thrown (list ustring * list ustring) :=
  match parts with
  | [] => Ok ([], [])
  | part :: rest =>
      rule ← is_rule part;
      '(rules, bases) ← sort_parts rest;
      Ok (if rule : bool then (part :: rules, bases) else (rules, part :: bases))
  end.

Definition splitBillingExprAndRequestRules (expr : ustring) : result thrown SplitExpr :=
  let trimmed := trim expr in
  if negb (truthy trimmed) then Ok (mkSplit [] [])
  else
    let parts := splitTopLevelMultiply trimmed in
    if length parts <=? 1 then Ok (mkSplit trimmed [])
    else
      '(ruleParts, baseParts) ← sort_parts parts;
      Ok (match ruleParts, baseParts with
          | _ :: _, [base] => mkSplit (unwrapOuterParens base) (join (js " * ") ruleParts)
          | _, _ => mkSplit trimmed []
          end).

Definition combineBillingExpr (baseExpr rules : ustring) : ustring :=
  let base := trim baseExpr in
  let rs := trim rules in
  if negb (truthy base) then []
  else if negb (truthy rs) then base
  else js "(" ++ base ++ js ") * " ++ rs.
