(* ===== verification/RequestRulesText.v ===== *)
(** * Texts with parentheses

    What the splitters and the unwrapping of [features/pricing/lib/billing-expr.ts] do on
    texts with balanced parentheses, and the shapes of the literals in rule texts. *)

From Stdlib Require Import Lia.
From stdpp Require Import base numbers strings option sets list.
From S2P Require Import Prelude JsNumber Json JsonText NumberText JsonPrint Regex RequestRules.

(** ** Balanced parentheses *)

Definition paren (c : Z) : Z :=
  if (c =? chr "(")%Z then 1 else if (c =? chr ")")%Z then -1 else 0.

Definition nesting (s : ustring) : Z := foldr (fun c n => (paren c + n)%Z) 0%Z s.

Lemma nesting_app a b : nesting (a ++ b) = (nesting a + nesting b)%Z.
Proof. unfold nesting. induction a as [|c a IH]; simpl; lia. Qed.

(** No prefix closes more than it opened. *)
Definition balanced (s : ustring) : Prop :=
  nesting s = 0%Z ∧ ∀ u v, s = u ++ v → (0 ≤ nesting u)%Z.

Lemma balanced_nil : balanced [].
Proof. split; [done | ]. intros u v E. symmetry in E. by apply app_nil in E as [-> ->]. Qed.

Lemma balanced_app a b : balanced a → balanced b → balanced (a ++ b).
Proof.
  intros [Ha Ha'] [Hb Hb']. split; [rewrite nesting_app; lia | ].
  intros u v E. apply app_eq_inv in E as [(k & -> & ->)|(k & -> & ->)].
  - by eapply Ha'.
  - rewrite nesting_app. specialize (Hb' k v eq_refl). lia.
Qed.

Lemma balanced_flat s : Forall (fun c => paren c = 0%Z) s → balanced s.
Proof.
  intros Hs. assert (Hz : ∀ u, Forall (fun c => paren c = 0%Z) u → nesting u = 0%Z).
  { induction 1 as [|c u Hc Hu IH]; [done | ]. change (paren c + nesting u = 0)%Z. lia. }
  split; [by apply Hz | ]. intros u v ->. apply Forall_app in Hs as [Hu _]. rewrite Hz by done. lia.
Qed.

Lemma balanced_parens s : balanced s → balanced (js "(" ++ s ++ js ")").
Proof.
  intros [Hs Hs']. split; [rewrite !nesting_app, Hs; done | ]. intros u v E.
  destruct u as [|c u]; [done | ]. injection E as <- E. change (0 ≤ 1 + nesting u)%Z.
  destruct (decide (v = [])) as [-> | Hv].
  - rewrite app_nil_r in E. subst u. rewrite nesting_app, Hs. done.
  - destruct v as [|d v] using rev_ind; [done | ]. rewrite app_assoc in E.
    apply app_inj_2 in E as [E _]; [ | done]. specialize (Hs' u v E). lia.
Qed.

Definition flat (s : ustring) : bool := forallb (fun c => (paren c =? 0)%Z) s.

Lemma balanced_lit s : flat s = true → balanced s.
Proof.
  intros Hs. apply balanced_flat. apply Forall_forall. intros c Hc.
  apply list_elem_of_In in Hc. unfold flat in Hs. rewrite forallb_forall in Hs.
  apply Z.eqb_eq. by apply Hs.
Qed.

(** ** Splitting *)

Definition deeper (depth : Z) (c : Z) : Z :=
  let depth1 := if (c =? chr "(")%Z then (depth + 1)%Z else depth in
  if (c =? chr ")")%Z then (depth1 - 1)%Z else depth1.

Lemma deeper_paren depth c : deeper depth c = (depth + paren c)%Z.
Proof.
  unfold deeper, paren. destruct (c =? chr "(")%Z eqn:E1, (c =? chr ")")%Z eqn:E2; chr_norm; bools; lia.
Qed.

(** The scan of [s] at [depth] sees no separator when [rest] follows. *)
Definition unbroken (sep : ustring) (depth : Z) (s rest : ustring) : Prop :=
  ∀ u c v, s = u ++ c :: v →
    (depth + nesting (u ++ [c]))%Z ≠ 0%Z ∨ starts_with sep (c :: v ++ rest) = false.

Lemma split_loop_unbroken sep depth current s rest :
  unbroken sep depth s rest →
  split_loop sep 0 depth current (s ++ rest) =
  split_loop sep 0 (depth + nesting s) (reverse s ++ current) rest.
Proof.
  revert depth current. induction s as [|c s IH]; intros depth current Hs; simpl app.
  { by rewrite Z.add_0_r. }
  cbn [split_loop]. fold (deeper depth c). rewrite deeper_paren.
  assert (Hc : ((depth + paren c =? 0)%Z && starts_with sep (c :: s ++ rest)) = false).
  { destruct (Hs [] c s eq_refl) as [H|H].
    - cbn in H. rewrite (proj2 (Z.eqb_neq _ 0)) by lia. done.
    - rewrite H. apply andb_false_r. }
  rewrite Hc, IH.
  - rewrite reverse_cons, <- app_assoc. f_equal. change (nesting (c :: s)) with (paren c + nesting s)%Z. lia.
  - intros u d v ->. destruct (Hs (c :: u) d v eq_refl) as [H|H]; [left | by right].
    change (nesting ((c :: u) ++ [d])) with (paren c + nesting (u ++ [d]))%Z in H. lia.
Qed.

Lemma split_loop_skip sep s depth current rest :
  split_loop sep (length s) depth current (s ++ rest) = split_loop sep 0 depth current rest.
Proof. induction s as [|c s IH]; simpl; [done | exact IH]. Qed.

Lemma split_loop_sep sep current rest :
  match sep with c :: _ => paren c = 0%Z | [] => False end →
  split_loop sep 0 0 current (sep ++ rest) = trim (reverse current) :: split_loop sep 0 0 [] rest.
Proof.
  destruct sep as [|c sep]; [done | ]. intros Hc. cbn [app split_loop]. fold (deeper 0 c).
  rewrite deeper_paren, Hc. change (starts_with (c :: sep) (c :: sep ++ rest))
    with (starts_with (c :: sep) ((c :: sep) ++ rest)). rewrite starts_with_app.
  cbn [andb length]. rewrite Nat.sub_succ, Nat.sub_0_r. f_equal. apply split_loop_skip.
Qed.

(** A part before a separator or the end. *)
Definition part_of (sep s : ustring) : Prop :=
  solid s ∧ nesting s = 0%Z ∧ ∀ rest, rest = [] ∨ starts_with sep rest = true → unbroken sep 0 s rest.

Lemma split_loop_join sep parts :
  match sep with c :: _ => paren c = 0%Z | [] => False end →
  Forall (part_of sep) parts → parts ≠ [] → split_loop sep 0 0 [] (join sep parts) = parts.
Proof.
  intros Hsep Hparts Hne. induction Hparts as [|s parts (Hs & Hn & Hu) Hparts IH]; [done | ].
  destruct parts as [|s' parts].
  - cbn [join]. rewrite <- (app_nil_r s) at 1. rewrite split_loop_unbroken by auto.
    cbn [split_loop]. by rewrite app_nil_r, reverse_involutive, solid_trim.
  - change (join sep (s :: s' :: parts)) with (s ++ sep ++ join sep (s' :: parts)).
    rewrite split_loop_unbroken by (apply Hu; right; apply starts_with_app).
    rewrite Hn, app_nil_r, Z.add_0_r, split_loop_sep, reverse_involutive, solid_trim by done.
    f_equal. by apply IH.
Qed.

Lemma filter_solid parts : Forall solid parts → filter is_truthy_text parts = parts.
Proof. intros H. apply filter_all. rewrite Forall_forall in H. intros s Hs. by apply solid_truthy, H. Qed.

Lemma split_top_join sep parts :
  match sep with c :: _ => paren c = 0%Z | [] => False end →
  Forall (part_of sep) parts → parts ≠ [] → split_top sep (join sep parts) = parts.
Proof.
  intros Hsep Hparts Hne. unfold split_top. rewrite split_loop_join by done.
  apply filter_solid. eapply Forall_impl; [exact Hparts | ]. by intros s (Hs & _).
Qed.

(** No product is seen inside parentheses. *)
Lemma unbroken_parens s rest : balanced s → unbroken (js " * ") 0 (js "(" ++ s ++ js ")") rest.
Proof.
  intros Hs u c v E. destruct v as [|d v'] eqn:Ev.
  - right. rewrite app_assoc in E. change (js ")") with [41%Z] in E.
    apply app_inj_2 in E as [_ E]; [ | done]. by injection E as <-.
  - left. destruct u as [|e u]; [by injection E as <- E | ]. injection E as <- E.
    rewrite <- Ev in *. assert (Hv : v ≠ []) by (by subst).
    destruct v as [|f v0] using rev_ind; [done | ]. change (js ")") with [41%Z] in E.
    change (c :: v0 ++ [f]) with ((c :: v0) ++ [f]) in E. rewrite app_assoc in E.
    apply app_inj_2 in E as [E _]; [ | done].
    destruct Hs as [_ Hs]. specialize (Hs (u ++ [c]) v0). rewrite <- app_assoc in Hs. specialize (Hs E).
    change (0 + (1 + nesting (u ++ [c])) ≠ 0)%Z. lia.
Qed.

(** Text in parentheses is one factor. *)
Lemma factor_part s : balanced s → part_of (js " * ") (js "(" ++ s ++ js ")").
Proof.
  intros Hs. split; [by apply solid_app | split; [by apply balanced_parens | ]].
  intros rest _. by apply unbroken_parens.
Qed.

(** Pieces of a text one after the other. *)
Lemma unbroken_app sep a b rest :
  nesting a = 0%Z → unbroken sep 0 a (b ++ rest) → unbroken sep 0 b rest → unbroken sep 0 (a ++ b) rest.
Proof.
  intros Hn Ha Hb u c v E. apply app_eq_inv in E as [(k & E1 & E2)|(k & E1 & E2)].
  - destruct k as [|d k].
    + rewrite app_nil_r in E1. subst u. simpl in E2.
      destruct (Hb [] c v (eq_sym E2)) as [H|H]; [left | by right]. rewrite nesting_app. cbn in H |- *. lia.
    + injection E2 as <- ->. destruct (Ha u c k E1) as [H|H]; [by left | right]. by rewrite <- app_assoc.
  - destruct (Hb k c v E2) as [H|H]; [left | by right]. rewrite E1, <- app_assoc, nesting_app. lia.
Qed.

Lemma unbroken_flat s rest :
  chr "*" ∉ s → match rest with [] => True | c :: _ => c ≠ chr "*" end → unbroken (js " * ") 0 s rest.
Proof.
  intros Hs Hrest u c v ->. right. change (js " * ") with [32; 42; 32]%Z. cbn [starts_with].
  destruct (32 =? c)%Z; [ | done]. cbn [andb]. destruct v as [|d v].
  - destruct rest as [|d rest]; [done | ]. cbn [app starts_with].
    rewrite (proj2 (Z.eqb_neq 42 d)) by (chr_norm; congruence). done.
  - cbn [app starts_with]. destruct (Z.eqb_spec 42 d) as [<-|]; [ | done]. exfalso. apply Hs. set_solver.
Qed.

(** Balanced text without an ampersand is one condition. *)
Lemma condition_part s : solid s → balanced s → chr "&" ∉ s → part_of (js " && ") s.
Proof.
  intros Hs [Hn Hb] Hamp. split; [done | split; [done | ]]. intros rest Hrest u c v ->. right.
  change (js " && ") with ([32; 38; 38; 32])%Z. cbn [starts_with].
  destruct (32 =? c)%Z eqn:Ec; [ | done]. bools; subst. simpl.
  destruct v as [|d v]; simpl.
  - unfold solid in Hs. rewrite last_snoc in Hs. destruct (head _); [by destruct Hs | done].
  - destruct (38 =? d)%Z eqn:Ed; [ | done]. bools; subst. exfalso. apply Hamp. set_solver.
Qed.

(** ** Outer parentheses *)

Lemma outer_scan_inner depth s :
  (∀ u v, s = u ++ v → (0 < depth + nesting u)%Z) → outer_scan depth (s ++ [41%Z]) = (depth + nesting s =? 1)%Z.
Proof.
  revert depth. induction s as [|c s IH]; intros depth Hs; cbn [app outer_scan].
  - fold (deeper depth 41). rewrite deeper_paren. change (paren 41) with (-1)%Z.
    rewrite bool_decide_true by done. rewrite andb_false_r. change (nesting []) with 0%Z.
    destruct (Z.eqb_spec (depth + -1) 0), (Z.eqb_spec (depth + 0) 1); lia || done.
  - fold (deeper depth c). rewrite deeper_paren.
    pose proof (Hs [c] s eq_refl) as Hc. cbn in Hc. rewrite Z.add_0_r in Hc.
    rewrite (proj2 (Z.eqb_neq _ 0)) by lia. rewrite andb_false_l, IH.
    + f_equal. change (nesting (c :: s)) with (paren c + nesting s)%Z. lia.
    + intros u v ->. specialize (Hs (c :: u) v eq_refl).
      change (nesting (c :: u)) with (paren c + nesting u)%Z in Hs. lia.
Qed.

Lemma hasFullOuterParens_parens s : balanced s → hasFullOuterParens (js "(" ++ s ++ js ")") = true.
Proof.
  intros [Hn Hb]. unfold hasFullOuterParens. rewrite starts_with_app.
  rewrite (bool_decide_true (last _ = _)) by (rewrite app_assoc; exact (last_snoc _ _)). cbn [negb orb].
  change (js "(" ++ s ++ js ")") with (40%Z :: s ++ [41%Z]). cbn [outer_scan]. fold (deeper 0 40).
  change (deeper 0 40) with 1%Z. change (1 =? 0)%Z with false. rewrite andb_false_l, outer_scan_inner.
  - rewrite Hn. done.
  - intros u v ->. specialize (Hb u v eq_refl). lia.
Qed.

Lemma hasFullOuterParens_length s : hasFullOuterParens s = true → 2 ≤ length s.
Proof.
  unfold hasFullOuterParens. destruct s as [|c [|d s]]; [done | | simpl; lia].
  change (js "(") with [40%Z]. cbn [starts_with last]. rewrite andb_true_r.
  destruct (Z.eqb_spec 40 c) as [<-|]; [ | done]. done.
Qed.

Lemma slice_inner_shorter s : hasFullOuterParens s = true → length (trim (slice_inner s)) < length s.
Proof.
  intros H. apply hasFullOuterParens_length in H. eapply Nat.le_lt_trans; [apply trim_length | ].
  unfold slice_inner, slice. rewrite length_take, length_drop. lia.
Qed.

(** More rounds change nothing. *)
Lemma unwrap_loop_enough f s : length s ≤ f → unwrap_loop f s = unwrap_loop (length s) s.
Proof.
  assert (H : ∀ n s f g, length s ≤ n → length s ≤ f → length s ≤ g → unwrap_loop f s = unwrap_loop g s).
  { clear. induction n as [|n IH]; intros s f g Hn Hf Hg.
    - destruct s; [ | simpl in Hn; lia]. by destruct f, g.
    - destruct s as [|c s]; [by destruct f, g | ]. destruct f as [|f], g as [|g]; [simpl in *; lia.. | ].
      cbn [unwrap_loop]. destruct (hasFullOuterParens (c :: s)) eqn:E; [ | done].
      apply slice_inner_shorter in E. apply IH; lia. }
  intros Hf. by apply (H (length s)).
Qed.

Lemma slice_inner_parens s : slice_inner (js "(" ++ s ++ js ")") = s.
Proof.
  change (js "(" ++ s ++ js ")") with (40%Z :: s ++ [41%Z]). unfold slice_inner, slice.
  change (drop 1 (40%Z :: s ++ [41%Z])) with (s ++ [41%Z]).
  replace (length (40%Z :: s ++ [41%Z]) - 1 - 1) with (length s) by (simpl; rewrite length_app; simpl; lia).
  apply take_app_length.
Qed.

Lemma unwrap_parens s : solid s → balanced s → unwrapOuterParens (js "(" ++ s ++ js ")") = unwrapOuterParens s.
Proof.
  intros Hsol Hs. unfold unwrapOuterParens. rewrite !solid_trim by (done || by apply solid_app).
  rewrite !length_app. change (length (js "(")) with 1. change (length (js ")")) with 1.
  cbn [Nat.add unwrap_loop]. rewrite hasFullOuterParens_parens, slice_inner_parens, solid_trim by done.
  apply unwrap_loop_enough. lia.
Qed.

(** ** Numeric literals *)

Lemma numeric_units text : is_numeric text = true → text ≠ [] ∧ Forall (fun c => numeric_unit c = true) text.
Proof.
  intros H. split; [by intros -> | ]. apply test_all_sound in H. eapply lang_units; [ | exact H].
  assert (Hd : ∀ c, is_digit c = true → numeric_unit c = true) by (unfold numeric_unit; intros c ->; done).
  assert (Ho : ∀ l, forallb (one_of ".eE+-") (js l) = true → ∀ c, one_of l c = true → numeric_unit c = true).
  { intros l Hl c Hc. unfold one_of in Hc. bools. rewrite forallb_forall in Hl. unfold numeric_unit.
    rewrite Hl by (by apply list_elem_of_In). apply orb_true_r. }
  assert (Hi : ∀ d, numeric_unit d = true → ∀ c, is_char d c = true → numeric_unit c = true).
  { intros d Hd' c Hc. unfold is_char in Hc. by bools; subst. }
  simpl. repeat split; first [exact Hd | apply Hi; reflexivity | apply Ho; reflexivity].
Qed.

Lemma numeric_unit_cases c : numeric_unit c = true →
  (48 ≤ c ≤ 57)%Z ∨ c = 46%Z ∨ c = 101%Z ∨ c = 69%Z ∨ c = 43%Z ∨ c = 45%Z.
Proof.
  unfold numeric_unit, is_digit, one_of. chr_norm. intros H. apply orb_true_iff in H as [H|H]; bools; [lia | ].
  change (js ".eE+-") with [46; 101; 69; 43; 45]%Z in H. set_solver.
Qed.
