(* ===== verification/RequestRulesReading.v ===== *)
(** * Reading the conditions of request rules

    What each regular expression of [features/pricing/lib/billing-expr.ts] makes of the
    texts the rule editor writes. *)

From Stdlib Require Import Lia.
From stdpp Require Import base numbers strings option sets list.
From S2P Require Import Prelude JsNumber Json JsonText NumberText JsonPrint Regex RequestRules RequestRulesText.

(** ** Units that stay clear of the syntax *)

Definition quiet (c : Z) : bool :=
  negb (c =? chr "(")%Z && negb (c =? chr ")")%Z && negb (c =? chr "&")%Z && negb (c =? chr "|")%Z.

(** Names of headers, parameters and time zones. *)
Definition name_unit (c : Z) : bool := plain_unit c && quiet c.

(** Values compared with. *)
Definition value_unit (c : Z) : bool :=
  (0 <=? c)%Z && (c <? 65536)%Z && quiet c && negb (c =? 8232)%Z && negb (c =? 8233)%Z.

Abbreviation all p s := (Forall (fun c : Z => p c = true) s).

(** Case analysis on an element of a list that is written out. *)
Ltac one_in H := repeat (apply elem_of_cons in H as [->|H]; [ | ]); [.. | by apply not_elem_of_nil in H].

(** ** Calls *)

Definition quoted_call (name p : ustring) : ustring := name ++ 40%Z :: 34%Z :: p ++ [34; 41]%Z.

Lemma quoted_call_app name p rest :
  quoted_call name p ++ rest = name ++ js "(" ++ [DQUOTE] ++ p ++ [DQUOTE] ++ js ")" ++ rest.
Proof.
  unfold quoted_call. rewrite <- app_assoc. f_equal. change (js "(") with [40%Z]. cbn [app].
  rewrite <- app_assoc. done.
Qed.

Lemma call_text_plain name p : all name_unit p → call_text name p = quoted_call name p.
Proof.
  intros Hp. unfold call_text, JSON_stringify_string, quoted_call. rewrite json_escape_plain.
  - change (js "(") with [40%Z]. change (js ")") with [41%Z]. cbn [app]. by rewrite <- app_assoc.
  - eapply Forall_impl; [exact Hp | ]. intros c Hc. unfold name_unit in Hc. by bools.
Qed.

Lemma name_not_quote p : all name_unit p → all not_quote p.
Proof.
  intros Hp. eapply Forall_impl; [exact Hp | ]. intros c Hc. unfold name_unit, plain_unit in Hc.
  unfold not_quote. bools. apply negb_true_iff. by apply Z.eqb_neq.
Qed.

Section calls.
  Context {A : Type} (k : ustring → captures → option A).

Lemma quote_refuses rs caps' : refuses not_quote (fun t _ => matches (rseq (rq :: rs)) t caps' k).
Proof.
  intros c rest caps Hc. unfold not_quote in Hc. rewrite rseq_cons. unfold rq. rewrite matches_text.
  cbn [starts_with]. rewrite Z.eqb_sym, andb_true_r. apply negb_true_iff in Hc. by rewrite Hc.
Qed.

Lemma quoted_name n p rs rest caps :
  p ≠ [] → all not_quote p →
  matches (rseq (rlit "(" :: rq :: rrun n not_quote :: rq :: rlit ")" :: rs))
    (40%Z :: 34%Z :: p ++ [34; 41]%Z ++ rest) caps k = matches (rseq rs) rest ((n, p) :: caps) k.
Proof.
  intros Hne Hp. rewrite !rseq_cons. unfold rlit, rq. rewrite matches_text. cbn [starts_with].
  change (starts_with (js "(") (40%Z :: 34%Z :: p ++ [34; 41]%Z ++ rest)) with true.
  change (drop (length (js "(")) (40%Z :: 34%Z :: p ++ [34; 41]%Z ++ rest)) with (34%Z :: p ++ [34; 41]%Z ++ rest).
  cbn iota. rewrite rseq_cons, matches_text.
  change (starts_with [DQUOTE] (34%Z :: p ++ [34; 41]%Z ++ rest)) with true.
  change (drop (length [DQUOTE]) (34%Z :: p ++ [34; 41]%Z ++ rest)) with (p ++ [34; 41]%Z ++ rest).
  cbn iota. rewrite rseq_cons, matches_run; [ | done | done | intros; apply quote_refuses | done].
  cbn [app]. rewrite rseq_cons. by rewrite matches_text, rseq_cons, matches_text.
Qed.

Lemma matches_call name n p rest caps :
  p ≠ [] → all not_quote p →
  matches (call_of name n) (quoted_call (js name) p ++ rest) caps k = k rest ((n, p) :: caps).
Proof.
  intros Hne Hp. unfold call_of, quoted_call. rewrite <- app_assoc. cbn [app]. rewrite <- app_assoc.
  rewrite rseq_cons. unfold rlit at 1. rewrite matches_text_app. by rewrite quoted_name.
Qed.

Lemma matches_call_none name n text caps :
  starts_with (js name) text = false → matches (call_of name n) text caps k = None.
Proof. intros Ht. unfold call_of. rewrite rseq_cons. unfold rlit at 1. by rewrite matches_text, Ht. Qed.

Lemma matches_time_call f p rest caps :
  f ∈ TIME_FUNCS → p ≠ [] → all not_quote p →
  matches TIME_CALL (quoted_call f p ++ rest) caps k = k rest ((2, p) :: (1, f) :: caps).
Proof.
  intros Hf Hne Hp. unfold TIME_CALL, quoted_call. rewrite <- app_assoc. cbn [app]. rewrite <- app_assoc.
  rewrite rseq_cons, matches_choice; [by rewrite quoted_name | done | ].
  unfold TIME_FUNCS in *. intros w Hw.
  one_in Hf; one_in Hw; done.
Qed.

Lemma matches_time_call_none text caps :
  forallb (fun f => negb (starts_with f text)) TIME_FUNCS = true → matches TIME_CALL text caps k = None.
Proof.
  intros Hf. unfold TIME_CALL. rewrite rseq_cons. apply matches_choice_none. intros w Hw.
  rewrite forallb_forall in Hf. apply negb_true_iff, Hf. by apply list_elem_of_In.
Qed.

Lemma matches_number n v rest caps :
  is_numeric v = true → match rest with [] => True | c :: _ => numeric_unit c = false end →
  (∀ caps', refuses numeric_unit (fun t _ => k t caps')) →
  matches (rrun n numeric_unit) (v ++ rest) caps k = k rest ((n, v) :: caps).
Proof. intros Hv Hrest Hk. apply numeric_units in Hv as [Hne Hv]. by apply matches_run. Qed.
End calls.

Lemma at_end_refuses p caps' : refuses p (fun t _ => at_end t caps').
Proof. by intros c rest caps Hc. Qed.

Lemma lit_refuses {A} p s (k : ustring → captures → option A) rs caps' :
  match js s with [] => False | c :: _ => p c = false end →
  refuses p (fun t _ => matches (rseq (rlit s :: rs)) t caps' k).
Proof.
  intros Hs c rest caps Hc. rewrite rseq_cons. unfold rlit. destruct (js s) as [|d s'] eqn:E; [done | ].
  exact (refuses_text p d s' _ Hs c rest caps' Hc).
Qed.

(** Evaluates [starts_with] and [drop] on a text whose front is known. *)
Lemma matches_lit_yes {A} s text rest caps (k : ustring → captures → option A) :
  text = js s ++ rest → matches (rlit s) text caps k = k rest caps.
Proof. intros ->. apply matches_text_app. Qed.

Lemma matches_lit_no {A} s text caps (k : ustring → captures → option A) :
  starts_with (js s) text = false → matches (rlit s) text caps k = None.
Proof. intros H. unfold rlit. by rewrite matches_text, H. Qed.

(** ** Time conditions *)

Lemma time_func_front f tz rest : f ∈ TIME_FUNCS → starts_with (js "(") (quoted_call f tz ++ rest) = false.
Proof. intros Hf. rewrite quoted_call_app. unfold TIME_FUNCS in Hf. one_in Hf; done. Qed.

Section time.
  Context (f tz : ustring) (Hf : f ∈ TIME_FUNCS) (Hne : tz ≠ []) (Htz : all name_unit tz).

Let fn : ustring := quoted_call f tz.

Lemma range_matches s e rest caps (k : ustring → captures → option captures) :
  is_numeric s = true → is_numeric e = true →
  match rest with [] => True | c :: _ => numeric_unit c = false end →
  (∀ caps', refuses numeric_unit (fun t _ => k t caps')) →
  matches TIME_RANGE (fn ++ js " >= " ++ s ++ js " || " ++ fn ++ js " < " ++ e ++ rest) caps k =
  k rest ((4, e) :: (3, s) :: (2, tz) :: (1, f) :: caps).
Proof using Hf Hne Htz.
  intros Hs He Hrest Hk. unfold TIME_RANGE, fn. apply name_not_quote in Htz as Hq.
  rewrite rseq_cons, matches_time_call by done.
  rewrite rseq_cons, (matches_lit_yes _ _ _ _ _ eq_refl).
  rewrite rseq_cons, matches_number by (done || (intros; by apply lit_refuses)).
  rewrite rseq_cons, (matches_lit_yes _ _ _ _ _ eq_refl).
  rewrite rseq_cons. cbn [matches]. change (group 1 ((3, s) :: (2, tz) :: (1, f) :: caps)) with f.
  rewrite (quoted_call_app f), starts_with_app, drop_app_length.
  rewrite rseq_cons, (matches_lit_yes _ _ _ _ _ eq_refl).
  rewrite rseq_cons. unfold rq. rewrite matches_text_app, rseq_cons. cbn [matches].
  change (group 2 ((3, s) :: (2, tz) :: (1, f) :: caps)) with tz.
  rewrite starts_with_app, drop_app_length, rseq_cons, matches_text_app.
  rewrite rseq_cons, (matches_lit_yes _ _ _ _ _ eq_refl).
  rewrite rseq_cons, (matches_lit_yes _ _ _ _ _ eq_refl).
  by rewrite rseq_cons, matches_number.
Qed.

Definition range_read (s e : ustring) : RequestCondition := Time (mkTime f tz MATCH_RANGE [] s e).

Lemma parse_range s e :
  is_numeric s = true → is_numeric e = true →
  tryParseTimeCondition (fn ++ js " >= " ++ s ++ js " || " ++ fn ++ js " < " ++ e) = Some (range_read s e).
Proof using Hf Hne Htz.
  intros Hs He. unfold tryParseTimeCondition, match_all. rewrite <- (app_nil_r e) at 1.
  rewrite range_matches by (done || (intros; apply at_end_refuses)). done.
Qed.

Lemma parse_range_parens s e :
  is_numeric s = true → is_numeric e = true →
  tryParseTimeCondition (js "(" ++ (fn ++ js " >= " ++ s ++ js " || " ++ fn ++ js " < " ++ e) ++ js ")") =
  Some (range_read s e).
Proof using Hf Hne Htz.
  intros Hs He. unfold tryParseTimeCondition, match_all. unfold TIME_RANGE at 1.
  rewrite rseq_cons, matches_time_call_none by done. unfold TIME_RANGE_PARENS.
  rewrite rseq_cons, (matches_lit_yes _ _ _ _ _ eq_refl), rseq_cons, <- !app_assoc.
  rewrite range_matches by (done || (intros; by apply lit_refuses)). done.
Qed.

Lemma parse_time_compare m v :
  m ∈ [MATCH_EQ; MATCH_GTE; MATCH_LT] → is_numeric v = true →
  tryParseTimeCondition (fn ++ js " " ++ time_op m ++ js " " ++ v) = Some (Time (mkTime f tz m v [] [])).
Proof using Hf Hne Htz.
  intros Hm Hv. apply name_not_quote in Htz as Hq. unfold tryParseTimeCondition, match_all.
  assert (Hr : matches TIME_RANGE (fn ++ js " " ++ time_op m ++ js " " ++ v) [] at_end = None).
  { unfold TIME_RANGE, fn. rewrite rseq_cons, matches_time_call, rseq_cons by done.
    one_in Hm; [by rewrite matches_lit_no | | by rewrite matches_lit_no].
    erewrite (matches_lit_yes " >= ") by reflexivity. rewrite <- (app_nil_r v), rseq_cons.
    by rewrite matches_number by (done || (intros; by apply lit_refuses)). }
  rewrite Hr. unfold TIME_RANGE_PARENS. rewrite rseq_cons, matches_lit_no by (by apply time_func_front).
  unfold TIME_COMPARE, fn. rewrite rseq_cons, matches_time_call by done.
  rewrite rseq_cons, (matches_lit_yes _ _ _ _ _ eq_refl), rseq_cons.
  rewrite matches_choice.
  - rewrite rseq_cons, (matches_lit_yes _ _ _ _ _ eq_refl), <- (app_nil_r v), rseq_cons.
    rewrite matches_number by (done || (intros; apply at_end_refuses)).
    one_in Hm; by rewrite app_nil_r.
  - one_in Hm; apply (bool_decide_unpack _); done.
  - intros w Hw. one_in Hm; one_in Hw; done.
Qed.
End time.

(** No time condition starts with another word. *)
Lemma not_time text :
  forallb (fun f => negb (starts_with f text)) TIME_FUNCS = true → starts_with (js "(") text = false →
  tryParseTimeCondition text = None.
Proof.
  intros Ht Hp. unfold tryParseTimeCondition, match_all, TIME_RANGE_PARENS, TIME_COMPARE. unfold TIME_RANGE at 1.
  rewrite !rseq_cons, !matches_time_call_none by done. by rewrite matches_lit_no.
Qed.

(** ** Literals *)

Lemma value_code_units v : all value_unit v → Forall code_unit v.
Proof.
  intros Hv. eapply Forall_impl; [exact Hv | ]. intros c Hc. unfold value_unit in Hc. unfold code_unit. bools. lia.
Qed.

Lemma escapes_units P :
  forallb P escapes = true → (∀ c, c ∈ escapes → P c = true).
Proof. intros H c Hc. rewrite forallb_forall in H. apply H. by apply list_elem_of_In. Qed.

Lemma value_text_units (P : Z → bool) v :
  forallb P escapes = true → (∀ c, (48 ≤ c ≤ 57 ∨ 97 ≤ c ≤ 102)%Z → P c = true) →
  (∀ c, value_unit c = true → (32 ≤ c)%Z → P c = true) →
  all value_unit v → all P (JSON_stringify_string v).
Proof.
  intros Hesc Hhex Hval Hv. pose proof (escapes_units P Hesc) as He. unfold JSON_stringify_string.
  assert (Hq : P DQUOTE = true) by (apply He; by apply (bool_decide_unpack _)).
  constructor; [done | ]. apply Forall_app_2; [ | by constructor].
  apply json_escape_Forall; [exact He | | ].
  - intros d Hd. apply Hhex. by apply hex_char_range.
  - eapply Forall_impl; [exact Hv | ]. intros c Hc Hge. by apply Hval.
Qed.

Lemma string_solid v : solid (JSON_stringify_string v).
Proof.
  unfold solid, JSON_stringify_string. cbn [head].
  change (DQUOTE :: json_escape v ++ [DQUOTE]) with ((DQUOTE :: json_escape v) ++ [DQUOTE]).
  by rewrite last_snoc.
Qed.

Lemma parse_literal v :
  all value_unit (trim v) → parseExprLiteral (buildExprLiteral MATCH_EQ v) = Some (JString (trim v)).
Proof.
  intros Hv. unfold buildExprLiteral. change (ustring_eqb MATCH_EQ MATCH_CONTAINS) with false. cbn iota.
  destruct (ustring_eqb (trim v) (js "true") || ustring_eqb (trim v) (js "false")) eqn:Eb.
  { unfold parseExprLiteral. assert (Hs : trim v ≠ []) by (intros E; by rewrite E in Eb).
    apply trim_solid in Hs. by rewrite (solid_trim (trim v)), Eb. }
  destruct (is_numeric (trim v)) eqn:En.
  { unfold parseExprLiteral. assert (Hs : trim v ≠ []) by (by apply numeric_units in En as [? _]).
    apply trim_solid in Hs. by rewrite (solid_trim (trim v)), Eb, En. }
  unfold parseExprLiteral. rewrite solid_trim by apply string_solid.
  destruct (_ || _) eqn:E1.
  { apply orb_true_iff in E1 as [E1|E1]; by bools. }
  destruct (is_numeric _) eqn:E2.
  { apply numeric_units in E2 as [_ E2]. by inversion_clear E2. }
  by rewrite JSON_parse_string by (by apply value_code_units).
Qed.

Lemma string_literal_star us rest caps (k : ustring → captures → option captures) a fuel :
  Forall chunk us → k (DQUOTE :: rest) caps = Some a → length us ≤ fuel →
  star_loop (matches (RAlt (RChar (fun c => not_quote c && negb (c =? chr "\")%Z))
                (RSeq (RChar (is_char (chr "\"))) (RChar any_but_line_end))))
    fuel (concat us ++ DQUOTE :: rest) caps k = Some a.
Proof.
  intros Hus Hk. revert fuel. induction Hus as [|u us Hu Hus IH]; intros fuel Hf.
  - destruct fuel; [done | ]. simpl. by rewrite Hk.
  - destruct fuel as [|fuel]; [simpl in Hf; lia | ]. cbn [concat]. rewrite <- app_assoc.
    apply star_first; [by destruct u | | apply IH; simpl in Hf; lia].
    intros k' b Hb. destruct u as [|c [|d [|]]]; try done; cbn [app matches].
    + destruct Hu as [Hq Hbs]. unfold not_quote.
      rewrite (proj2 (Z.eqb_neq _ _) Hq), (proj2 (Z.eqb_neq _ _) Hbs). simpl. by rewrite Hb.
    + destruct Hu as [-> He]. change (not_quote (chr "\") && negb (chr "\" =? chr "\")%Z) with false.
      change (is_char (chr "\") (chr "\")) with true. cbn iota.
      by rewrite (escapes_units any_but_line_end eq_refl d He).
Qed.

Lemma matches_string_literal n v rest caps (k : ustring → captures → option captures) a :
  k rest ((n, JSON_stringify_string v) :: caps) = Some a →
  matches (STRING_LITERAL n) (JSON_stringify_string v ++ rest) caps k = Some a.
Proof.
  intros Hk. unfold STRING_LITERAL. cbn [matches]. rewrite rseq_cons. unfold rq.
  set (whole := JSON_stringify_string v ++ rest).
  assert (Ew : whole = [DQUOTE] ++ json_escape v ++ DQUOTE :: rest).
  { unfold whole, JSON_stringify_string. cbn [app]. by rewrite <- app_assoc. }
  rewrite Ew at 1. rewrite matches_text_app, rseq_cons.
  destruct (json_escape_chunks v) as (us & E & Hus). rewrite E. cbn [matches].
  apply string_literal_star; [done | | ].
  - rewrite rseq_cons. change (DQUOTE :: rest) with ([DQUOTE] ++ rest). rewrite matches_text_app.
    change (matches (rseq []) rest caps ?f) with (f rest caps). cbv beta.
    unfold whole. by rewrite take_run.
  - rewrite length_app. clear -Hus. induction Hus as [|u us Hu Hus IH]; simpl; [lia | ].
    simpl in IH. rewrite length_app. destruct u; [done | simpl; lia].
Qed.

(** ** Conditions on headers and parameters *)

Section sources.
  Context (p : ustring) (Hne : p ≠ []) (Hp : all name_unit p).

Abbreviation header_call := (quoted_call (js "header") p).
Abbreviation param_call := (quoted_call (js "param") p).

(** The first expressions of the chain refuse what does not start as they do. *)
Ltac refuse_call :=
  rewrite rseq_cons, matches_call_none by reflexivity.
Ltac pass_call :=
  rewrite rseq_cons, matches_call by (done || by apply name_not_quote).
Ltac pass_lit := rewrite rseq_cons, (matches_lit_yes _ _ _ _ _ eq_refl).
Ltac refuse_lit := rewrite rseq_cons, matches_lit_no by reflexivity.

Lemma parse_header_exists :
  tryParseRequestCondition (header_call ++ js " != " ++ [DQUOTE; DQUOTE]) = found SOURCE_HEADER p MATCH_EXISTS [].
Proof using Hne Hp.
  unfold tryParseRequestCondition. rewrite not_time by reflexivity.
  unfold match_all, HEADER_EXISTS. pass_call. pass_lit. done.
Qed.

Lemma parse_param_exists :
  tryParseRequestCondition (param_call ++ js " != nil") = found SOURCE_PARAM p MATCH_EXISTS [].
Proof using Hne Hp.
  unfold tryParseRequestCondition. rewrite not_time by reflexivity.
  unfold match_all, HEADER_EXISTS, PARAM_EXISTS. refuse_call. pass_call.
  rewrite rseq_cons. erewrite matches_lit_yes by (symmetry; apply app_nil_r). done.
Qed.

Lemma parse_header_contains v :
  all value_unit (trim v) →
  tryParseRequestCondition (js "has(" ++ header_call ++ js ", " ++ buildExprLiteral MATCH_CONTAINS v ++ js ")") =
  found SOURCE_HEADER p MATCH_CONTAINS (trim v).
Proof using Hne Hp.
  intros Hv. change (buildExprLiteral MATCH_CONTAINS v) with (JSON_stringify_string (trim v)).
  unfold tryParseRequestCondition. rewrite not_time by reflexivity.
  unfold match_all, HEADER_EXISTS, PARAM_EXISTS, HEADER_CONTAINS. refuse_call. refuse_call.
  pass_lit. pass_call. pass_lit. rewrite rseq_cons.
  erewrite matches_string_literal by reflexivity. cbv iota.
  change (group 2 _) with (JSON_stringify_string (trim v)). change (group 1 _) with p.
  unfold parse_or_throw. by rewrite JSON_parse_string by (by apply value_code_units).
Qed.

Lemma parse_param_has rest : tryParseRequestCondition (js "has(" ++ param_call ++ rest) = Ok None.
Proof.
  unfold tryParseRequestCondition. rewrite not_time by reflexivity.
  unfold match_all, HEADER_EXISTS, PARAM_EXISTS, HEADER_CONTAINS, PARAM_CONTAINS, PARAM_COMPARE, SOURCE_EQ.
  refuse_call. refuse_call. pass_lit. refuse_call. refuse_call. refuse_call.
  rewrite rseq_cons, matches_choice_none; [done | ]. intros w Hw. one_in Hw; done.
Qed.

Lemma parse_param_compare op v :
  op ∈ [js ">"; js ">="; js "<"; js "<="] →
  tryParseRequestCondition (param_call ++ js " " ++ op ++ js " " ++ v) = Ok None.
Proof using Hne Hp.
  intros Hop. unfold tryParseRequestCondition. rewrite not_time by reflexivity.
  unfold match_all, HEADER_EXISTS, PARAM_EXISTS, HEADER_CONTAINS, PARAM_CONTAINS, PARAM_COMPARE, SOURCE_EQ.
  refuse_call. pass_call. rewrite rseq_cons, matches_lit_no by (by one_in Hop).
  refuse_lit. pass_call. rewrite rseq_cons, matches_lit_no by (by one_in Hop).
  pass_call. rewrite rseq_cons, matches_lit_no by (by one_in Hop). cbn [same_path mbind option_bind].
  rewrite quoted_call_app, rseq_cons, matches_choice; [ | set_solver | ].
  - change (js "(" ++ [DQUOTE] ++ p ++ [DQUOTE] ++ js ")" ++ js " " ++ op ++ js " " ++ v)
      with (40%Z :: 34%Z :: p ++ [34; 41]%Z ++ js " " ++ op ++ js " " ++ v).
    rewrite quoted_name by (done || by apply name_not_quote).
    by rewrite rseq_cons, matches_lit_no by (by one_in Hop).
  - intros w Hw. by one_in Hw.
Qed.

Definition source_word (src : ConditionSource) : ustring :=
  match src with SOURCE_HEADER => js "header" | SOURCE_PARAM => js "param" end.

Lemma literal_no_line_end v : all value_unit (trim v) → all any_but_line_end (buildExprLiteral MATCH_EQ v).
Proof.
  intros Hv. unfold buildExprLiteral. change (ustring_eqb MATCH_EQ MATCH_CONTAINS) with false. cbn iota.
  destruct (_ || _) eqn:Eb.
  { apply orb_true_iff in Eb as [Eb|Eb]; bools; rewrite Eb; repeat constructor. }
  destruct (is_numeric (trim v)) eqn:En.
  { apply numeric_units in En as [_ En]. eapply Forall_impl; [exact En | ]. intros c Hc.
    apply numeric_unit_cases in Hc. unfold any_but_line_end, is_line_end.
    rewrite bool_decide_false; [done | ]. intros Hin. one_in Hin; lia. }
  apply value_text_units; [done | | | done].
  - intros c Hc. unfold any_but_line_end, is_line_end. rewrite bool_decide_false; [done | ].
    intros Hin. one_in Hin; lia.
  - intros c Hc Hge. unfold any_but_line_end, is_line_end, value_unit in *. bools.
    rewrite bool_decide_false; [done | ]. intros Hin. one_in Hin; lia.
Qed.

Lemma literal_nonempty v : buildExprLiteral MATCH_EQ v ≠ [].
Proof.
  unfold buildExprLiteral. change (ustring_eqb MATCH_EQ MATCH_CONTAINS) with false. cbn iota.
  destruct (_ || _) eqn:Eb; [by intros E; rewrite E in Eb | ].
  destruct (is_numeric (trim v)) eqn:En; [by apply numeric_units in En as [? _] | done].
Qed.

Lemma matches_to_end n (q : Z → bool) text caps :
  text ≠ [] → all q text → matches (rseq [rrun n q]) text caps at_end = Some ((n, text) :: caps).
Proof.
  intros Hne' Ht. rewrite rseq_cons. rewrite <- (app_nil_r text) at 1.
  apply matches_run_last; [done | done | done | ]. intros u v caps' E Hu. symmetry in E.
  by apply app_nil in E as [-> _].
Qed.

Lemma parse_source_eq src v :
  all value_unit (trim v) →
  tryParseRequestCondition (quoted_call (source_word src) p ++ js " == " ++ buildExprLiteral MATCH_EQ v) =
  found src p MATCH_EQ (trim v).
Proof using Hne Hp.
  intros Hv. unfold tryParseRequestCondition. rewrite not_time by (by destruct src).
  assert (Hchain : ∀ m, m ∈ [HEADER_EXISTS; PARAM_EXISTS; HEADER_CONTAINS; PARAM_CONTAINS; PARAM_COMPARE] →
    match_all m (quoted_call (source_word src) p ++ js " == " ++ buildExprLiteral MATCH_EQ v) = None).
  { intros m Hm. unfold match_all, HEADER_EXISTS, PARAM_EXISTS, HEADER_CONTAINS, PARAM_CONTAINS, PARAM_COMPARE in *.
    one_in Hm; destruct src; cbn [source_word];
      first [by refuse_lit | by refuse_call | by pass_call; refuse_lit]. }
  rewrite !Hchain by (repeat first [left | right]). cbn [same_path mbind option_bind].
  unfold match_all, SOURCE_EQ. rewrite quoted_call_app, rseq_cons, matches_choice;
    [ | destruct src; set_solver | intros w Hw; destruct src; by one_in Hw].
  change (js "(" ++ [DQUOTE] ++ p ++ [DQUOTE] ++ js ")" ++ js " == " ++ buildExprLiteral MATCH_EQ v)
    with (40%Z :: 34%Z :: p ++ [34; 41]%Z ++ js " == " ++ buildExprLiteral MATCH_EQ v).
  rewrite quoted_name by (done || by apply name_not_quote). pass_lit.
  rewrite matches_to_end by (apply literal_nonempty || by apply literal_no_line_end).
  change (group 3 _) with (buildExprLiteral MATCH_EQ v). rewrite parse_literal by done.
  by destruct src.
Qed.
End sources.
