(* ===== verification/RequestRulesRoundTrip.v ===== *)
(** * Request rules read back

    The rules the editor of [features/pricing/lib/billing-expr.ts] writes are the rules it
    reads, except that a rule with a guarded condition on a parameter is never read; and a
    price joined with rules is separated from them again. *)

From Stdlib Require Import Lia.
From stdpp Require Import base numbers strings option sets list.
From S2P Require Import Prelude JsNumber Json JsonText NumberText JsonPrint Regex RequestRules RequestRulesText RequestRulesReading.

(** ** Texts that keep their place in a condition *)

Definition calm (s : ustring) : Prop := balanced s ∧ chr "&" ∉ s.

Definition tame (s : ustring) : Prop := calm s ∧ chr "|" ∉ s.

Lemma calm_app a b : calm a → calm b → calm (a ++ b).
Proof. intros [Ha Ha'] [Hb Hb']. split; [by apply balanced_app | set_solver]. Qed.

Lemma calm_parens s : calm s → calm (js "(" ++ s ++ js ")").
Proof.
  intros [Hs Hs']. split; [by apply balanced_parens | ]. rewrite !elem_of_app. intros [H|[H|H]]; [ | done | ];
    apply list_elem_of_singleton in H; done.
Qed.

Lemma tame_app a b : tame a → tame b → tame (a ++ b).
Proof. intros [Ha Ha'] [Hb Hb']. split; [by apply calm_app | set_solver]. Qed.

Lemma tame_parens s : tame s → tame (js "(" ++ s ++ js ")").
Proof.
  intros [Hs Hs']. split; [by apply calm_parens | ]. rewrite !elem_of_app. intros [H|[H|H]]; [ | done | ];
    apply list_elem_of_singleton in H; done.
Qed.

Lemma tame_quiet s : all quiet s → tame s.
Proof.
  intros Hs. rewrite Forall_forall in Hs.
  assert (Hc : ∀ c, c ∈ s → paren c = 0%Z ∧ c ≠ chr "&" ∧ c ≠ chr "|").
  { intros c Hc. specialize (Hs c Hc). unfold quiet in Hs. unfold paren. bools. chr_norm.
    destruct (Z.eqb_spec c 40); [lia | ]. destruct (Z.eqb_spec c 41); [lia | ]. lia. }
  repeat split.
  - apply balanced_flat. apply Forall_forall. intros c Hin. by apply Hc.
  - apply balanced_flat. apply Forall_forall. intros c Hin. by apply Hc.
  - intros Hin. by destruct (Hc _ Hin) as (_ & ? & _).
  - intros Hin. by destruct (Hc _ Hin) as (_ & _ & ?).
Qed.

Lemma tame_lit s : forallb quiet s = true → tame s.
Proof.
  intros Hs. apply tame_quiet, Forall_forall. intros c Hc. rewrite forallb_forall in Hs.
  apply Hs. by apply list_elem_of_In.
Qed.

Lemma tame_numeric v : is_numeric v = true → tame v.
Proof.
  intros Hv. apply numeric_units in Hv as [_ Hv]. apply tame_quiet. eapply Forall_impl; [exact Hv | ].
  intros c Hc. apply numeric_unit_cases in Hc. unfold quiet. chr_norm.
  repeat match goal with |- context [(?a =? ?b)%Z] => destruct (Z.eqb_spec a b); [lia | ] end. done.
Qed.

Lemma tame_string v : all value_unit v → tame (JSON_stringify_string v).
Proof.
  intros Hv. apply tame_quiet. apply value_text_units; [done | | | done].
  - intros c Hc. unfold quiet. chr_norm.
    repeat match goal with |- context [(?a =? ?b)%Z] => destruct (Z.eqb_spec a b); [lia | ] end. done.
  - intros c Hc _. unfold value_unit in Hc. by bools.
Qed.

Lemma tame_literal m v : all value_unit (trim v) → tame (buildExprLiteral m v).
Proof.
  intros Hv. unfold buildExprLiteral. branch; [by apply tame_string | ].
  destruct (_ || _) eqn:Eb; [apply orb_true_iff in Eb as [Eb|Eb]; bools; rewrite Eb; by apply tame_lit | ].
  destruct (is_numeric _) eqn:En; [by apply tame_numeric | by apply tame_string].
Qed.

Lemma tame_call name p : tame name → all name_unit p → tame (quoted_call name p).
Proof.
  intros Hn Hp. replace (quoted_call name p) with (name ++ js "(" ++ ([DQUOTE] ++ p ++ [DQUOTE]) ++ js ")").
  - apply tame_app; [done | ]. apply tame_parens. repeat apply tame_app; [by apply tame_lit | | by apply tame_lit].
    apply tame_quiet. eapply Forall_impl; [exact Hp | ]. intros c Hc. unfold name_unit in Hc. by bools.
  - rewrite <- (app_nil_r (quoted_call name p)), quoted_call_app. by rewrite <- !app_assoc.
Qed.

Create HintDb tame.
#[local] Hint Resolve tame_numeric tame_literal tame_call : tame.
#[local] Hint Extern 2 (tame (js _)) => by apply tame_lit : tame.
#[local] Hint Extern 2 (tame [_; _]) => by apply tame_lit : tame.

(** The pieces of a text, one by one. *)
Ltac tamed := repeat match goal with |- tame (_ ++ _) => apply tame_app end; auto with tame.

(** ** What the editor means by a condition *)

Definition normalized (cond : RequestCondition) : RequestCondition :=
  normalizeCondition (Some (of_condition cond)).

(** Conditions whose names and values stay clear of the syntax of rules. *)
Definition readable (cond : RequestCondition) : bool :=
  match normalized cond with
  | Time c => forallb name_unit (timezone c)
  | ParamHeader c => forallb name_unit (trim (path c)) && forallb value_unit (trim (value c))
  end.

(** Conditions written as [param(...) != nil && ...]. *)
Definition guarded (cond : RequestCondition) : bool :=
  match normalized cond with
  | ParamHeader c =>
      bool_decide (source c = SOURCE_PARAM) &&
      (ustring_eqb (mode c) MATCH_CONTAINS || match compare_op (mode c) with Some _ => true | None => false end)
  | Time _ => false
  end.

(** The condition that stands in the text: trimmed, without the fields its mode ignores. *)
Definition shown (cond : RequestCondition) : RequestCondition :=
  match normalized cond with
  | Time c =>
      Time (if ustring_eqb (time_mode c) MATCH_RANGE
            then mkTime (timeFunc c) (timezone c) MATCH_RANGE [] (trim (rangeStart c)) (trim (rangeEnd c))
            else mkTime (timeFunc c) (timezone c) (time_mode c) (trim (time_value c)) [] [])
  | ParamHeader c =>
      ParamHeader (mkParamHeader (source c) (trim (path c)) (mode c)
        (if ustring_eqb (mode c) MATCH_EXISTS then [] else trim (value c)))
  end.

Definition written (cond : RequestCondition) : bool := truthy (buildRequestConditionExpr cond).

(** ** Normal conditions *)

Lemma known_mode_in options m fallback :
  fallback ∈ (option_value <$> options) → known_mode options m fallback ∈ (option_value <$> options).
Proof.
  intros Hf. unfold known_mode. destruct m as [x|]; [ | done]. destruct (existsb _ _) eqn:E; [ | done].
  apply existsb_exists in E as (o & Ho & Eo). bools. subst x. apply list_elem_of_fmap_2.
  by apply list_elem_of_In.
Qed.

Lemma normalized_time c : ∃ n, normalized (Time c) = Time n ∧ timeFunc n ∈ TIME_FUNCS ∧ timezone n ≠ [] ∧
  time_mode n ∈ [MATCH_EQ; MATCH_GTE; MATCH_LT; MATCH_RANGE].
Proof.
  eexists. split; [reflexivity | ]. cbn [timeFunc timezone time_mode]. split; [ | split].
  - simpl. destruct (bool_decide (timeFunc c ∈ TIME_FUNCS)) eqn:E; [by bools | by apply (bool_decide_unpack _)].
  - simpl. by destruct (timezone c).
  - apply (known_mode_in (getRequestRuleMatchOptions (js "time")) (Some (time_mode c)) MATCH_GTE).
    by apply (bool_decide_unpack _).
Qed.

Lemma normalized_source c : ∃ n, normalized (ParamHeader c) = ParamHeader n ∧ source n = source c ∧
  mode n ∈ match source n with
           | SOURCE_HEADER => [MATCH_EQ; MATCH_CONTAINS; MATCH_EXISTS]
           | SOURCE_PARAM => [MATCH_EQ; MATCH_CONTAINS; MATCH_EXISTS; MATCH_GT; MATCH_GTE; MATCH_LT; MATCH_LTE]
           end.
Proof.
  destruct c as [src p m v]. destruct src; (eexists; split; [reflexivity | ]; split; [reflexivity | ]);
    cbn [source mode].
  - apply (known_mode_in (getRequestRuleMatchOptions (js "param")) (Some m) MATCH_EQ). by apply (bool_decide_unpack _).
  - apply (known_mode_in (getRequestRuleMatchOptions (js "header")) (Some m) MATCH_EQ). by apply (bool_decide_unpack _).
Qed.

(** ** The parts of a condition *)

Definition read_part (part : ustring) : reads RequestCondition := tryParseRequestCondition (trim part).

(** The text of a condition, beside others when [many], is a conjunction of parts that
    are read as [outcome]. *)
Definition reads_as (many : bool) (text : ustring) (outcome : option RequestCondition) : Prop :=
  ∃ parts, (if many then wrap_or text else text) = join (js " && ") parts ∧ parts ≠ [] ∧
    Forall (part_of (js " && ")) parts ∧ Forall balanced parts ∧
    read_all read_part parts = Ok (match outcome with Some c => Some [c] | None => None end).

Lemma includes_elem p s : includes p s = true → ∀ c, c ∈ p → c ∈ s.
Proof.
  unfold includes. induction s as [|x s IH]; cbn [index_of].
  - destruct (starts_with p []) eqn:E; [ | done]. intros _ c Hc. apply starts_with_spec in E.
    symmetry in E. apply app_nil in E as [-> _]. done.
  - destruct (starts_with p (x :: s)) eqn:E.
    + intros _ c Hc. apply starts_with_spec in E. rewrite E. set_solver.
    + destruct (index_of p s); [ | done]. intros _ c Hc. right. by apply IH.
Qed.

Lemma wrap_or_none s : chr "|" ∉ s → wrap_or s = s.
Proof.
  intros Hs. unfold wrap_or. destruct (includes _ _) eqn:E; [ | done]. exfalso. apply Hs.
  apply (includes_elem _ _ E). by apply (bool_decide_unpack _).
Qed.

(** One part. *)
Lemma reads_as_one many s c :
  solid s → tame s → tryParseRequestCondition s = Ok (Some c) → reads_as many s (Some c).
Proof.
  intros Hs [[Hb Ha] Hbar] Hread. exists [s]. split; [destruct many; [by rewrite wrap_or_none | done] | ].
  split; [done | ]. split; [constructor; [by apply condition_part | done] | ]. split; [by constructor | ].
  cbn [read_all]. unfold read_part. by rewrite solid_trim, Hread.
Qed.

(** A guard and what it guards, which is not read. *)
Lemma reads_as_guarded many g s c :
  solid g → tame g → tryParseRequestCondition g = Ok (Some c) →
  solid s → tame s → tryParseRequestCondition s = Ok None →
  reads_as many (g ++ js " && " ++ s) None.
Proof.
  intros Hgs [[Hgb Hga] Hgbar] Hg Hss [[Hsb Hsa] Hsbar] Hs. exists [g; s]. split; [ | split; [done | ]].
  - assert (Hw : chr "|" ∉ g ++ js " && " ++ s).
    { rewrite !elem_of_app. intros [H|[H|H]]; [done | | done]. by pose proof (bool_decide_eq_true_2 _ H). }
    destruct many; [by rewrite wrap_or_none | done].
  - split; [do 2 (constructor; [by apply condition_part | ]); done | ]. split.
    + do 2 (constructor; [done | ]). constructor.
    + cbn [read_all]. unfold read_part. rewrite !solid_trim by done. by rewrite Hg, Hs.
Qed.

(** ** Ends of the texts *)

Lemma solid_numeric v : is_numeric v = true → solid v.
Proof.
  intros Hv. apply numeric_units in Hv as [Hne Hv]. apply solid_Forall; [done | ].
  eapply Forall_impl; [exact Hv | ]. intros c Hc. apply numeric_unit_cases in Hc. unfold is_space.
  rewrite !(bool_decide_false) by lia.
  repeat match goal with |- context [(?a =? ?b)%Z] => destruct (Z.eqb_spec a b); [lia | ] end. done.
Qed.

Lemma solid_literal m v : solid (buildExprLiteral m v).
Proof.
  unfold buildExprLiteral. branch; [apply string_solid | ].
  destruct (_ || _) eqn:Eb; [apply orb_true_iff in Eb as [Eb|Eb]; bools; by rewrite Eb | ].
  destruct (is_numeric _) eqn:En; [by apply solid_numeric | apply string_solid].
Qed.

Lemma solid_call name p : solid name → solid (quoted_call name p).
Proof.
  intros Hn. rewrite <- (app_nil_r (quoted_call name p)), quoted_call_app, app_nil_r.
  change (js "(" ++ [DQUOTE] ++ p ++ [DQUOTE] ++ js ")") with ((js "(" ++ [DQUOTE]) ++ p ++ ([DQUOTE] ++ js ")")).
  apply solid_app2; [done | by apply solid_app].
Qed.

Lemma includes_mid p a b : includes p (a ++ p ++ b) = true.
Proof.
  unfold includes. induction a as [|c a IH]; simpl app.
  - assert (H : index_of p (p ++ b) = Some 0); [ | by rewrite H].
    pose proof (starts_with_app p b) as H. destruct (p ++ b); cbn [index_of]; by rewrite H.
  - cbn [index_of]. destruct (starts_with p (c :: a ++ p ++ b)); [done | ].
    by destruct (index_of p (a ++ p ++ b)).
Qed.

Lemma time_func_solid f : f ∈ TIME_FUNCS → solid f.
Proof. unfold TIME_FUNCS. intros Hf. by one_in Hf. Qed.

Lemma time_func_tame f : f ∈ TIME_FUNCS → tame f.
Proof. unfold TIME_FUNCS. intros Hf. one_in Hf; by apply tame_lit. Qed.

Lemma forallb_all (q : Z → bool) s : forallb q s = true → all q s.
Proof. intros H. apply Forall_forall. intros c Hc. rewrite forallb_forall in H. apply H. by apply list_elem_of_In. Qed.

#[local] Hint Resolve time_func_tame : tame.

(** ** Every kind of condition *)

Lemma range_reads many f tz s e :
  f ∈ TIME_FUNCS → tz ≠ [] → all name_unit tz → is_numeric s = true → is_numeric e = true →
  let fn := quoted_call f tz in
  reads_as many (fn ++ js " >= " ++ s ++ js " || " ++ fn ++ js " < " ++ e) (Some (range_read f tz s e)).
Proof.
  intros Hf Hne Htz Hs He fn. set (text := fn ++ _).
  assert (Hsol : solid text).
  { unfold text. rewrite !app_assoc. rewrite <- app_assoc, <- !app_assoc.
    assert (Hfn : solid fn) by (by apply solid_call, time_func_solid).
    pose proof (solid_app fn e Hfn (solid_numeric e He) (js " >= " ++ s ++ js " || " ++ fn ++ js " < ")) as H.
    by rewrite <- !app_assoc in H. }
  assert (Hcalm : calm text).
  { assert (Hbar : calm (js " || ")) by (split; [by apply balanced_lit | by apply (bool_decide_unpack _)]).
    assert (Hfn : tame fn) by (unfold fn; auto with tame). unfold text.
    apply calm_app; [apply Hfn | ]. apply calm_app; [by apply tame_lit | ]. apply calm_app; [by apply tame_numeric | ].
    apply calm_app; [done | ]. apply calm_app; [apply Hfn | ]. apply calm_app; [by apply tame_lit | by apply tame_numeric]. }
  assert (Hparse : tryParseRequestCondition text = Ok (Some (range_read f tz s e))).
  { unfold tryParseRequestCondition, text, fn. by rewrite parse_range. }
  destruct many.
  - assert (Hwrap : wrap_or text = js "(" ++ text ++ js ")").
    { unfold wrap_or, text. rewrite (app_assoc (js " >= ")), (app_assoc fn), includes_mid. done. }
    exists [js "(" ++ text ++ js ")"]. rewrite Hwrap. split; [done | split; [done | ]].
    apply calm_parens in Hcalm as Hc'. assert (Hs' : solid (js "(" ++ text ++ js ")")) by (by apply solid_app).
    split; [constructor; [apply condition_part; [done | apply Hc' | apply Hc'] | done] | split; [constructor; [apply Hc' | done] | ]].
    cbn [read_all]. unfold read_part, tryParseRequestCondition. rewrite solid_trim by done.
    unfold text, fn. by rewrite parse_range_parens.
  - exists [text]. split; [done | split; [done | ]].
    split; [constructor; [apply condition_part; [done | apply Hcalm | apply Hcalm] | done] | split; [constructor; [apply Hcalm | done] | ]].
    cbn [read_all]. unfold read_part. by rewrite solid_trim, Hparse.
Qed.

Lemma time_compare_reads many f tz m v :
  f ∈ TIME_FUNCS → tz ≠ [] → all name_unit tz → m ∈ [MATCH_EQ; MATCH_GTE; MATCH_LT] → is_numeric v = true →
  reads_as many (quoted_call f tz ++ js " " ++ time_op m ++ js " " ++ v) (Some (Time (mkTime f tz m v [] []))).
Proof.
  intros Hf Hne Htz Hm Hv. apply reads_as_one.
  - pose proof (solid_app (quoted_call f tz) v (solid_call f tz (time_func_solid f Hf)) (solid_numeric v Hv)
      (js " " ++ time_op m ++ js " ")) as H. by rewrite <- !app_assoc in H.
  - assert (tame (time_op m)) by (one_in Hm; by apply tame_lit). tamed.
  - unfold tryParseRequestCondition. by rewrite parse_time_compare.
Qed.

Lemma time_reads many c :
  readable (Time c) = true → written (Time c) = true →
  reads_as many (buildRequestConditionExpr (Time c)) (Some (shown (Time c))).
Proof.
  destruct (normalized_time c) as (n & En & Hf & Hne & Hm).
  unfold readable, written, shown. cbn [buildRequestConditionExpr]. unfold buildTimeConditionExpr.
  change (normalizeCondition (Some (of_condition (Time c)))) with (normalized (Time c)). rewrite En.
  intros Htz Hw. apply forallb_all in Htz. unfold time_condition_text in *. rewrite call_text_plain in * by done.
  destruct (ustring_eqb (time_mode n) MATCH_RANGE) eqn:Er.
  - destruct (is_numeric (trim (rangeStart n))) eqn:Es; [ | done].
    destruct (is_numeric (trim (rangeEnd n))) eqn:Ee; [ | done]. by apply range_reads.
  - destruct (is_numeric (trim (time_value n))) eqn:Ev; [ | done].
    assert (Hm' : time_mode n ∈ [MATCH_EQ; MATCH_GTE; MATCH_LT]) by (bools; rewrite !elem_of_cons, elem_of_nil in *; tauto).
    by apply time_compare_reads.
Qed.

Lemma source_word_tame src : tame (source_word src).
Proof. destruct src; by apply tame_lit. Qed.

Lemma source_word_solid src : solid (source_word src).
Proof. by destruct src. Qed.

#[local] Hint Resolve source_word_tame : tame.

Lemma source_text c :
  truthy (trim (path c)) = true → all name_unit (trim (path c)) →
  param_header_text c =
    let call := quoted_call (source_word (source c)) (trim (path c)) in
    if ustring_eqb (mode c) MATCH_EXISTS then
      match source c with
      | SOURCE_HEADER => call ++ js " != " ++ [DQUOTE; DQUOTE]
      | SOURCE_PARAM => call ++ js " != nil"
      end
    else if ustring_eqb (mode c) MATCH_CONTAINS then
      let has := js "has(" ++ call ++ js ", " ++ buildExprLiteral (mode c) (value c) ++ js ")" in
      match source c with SOURCE_HEADER => has | SOURCE_PARAM => call ++ js " != nil && " ++ has end
    else match compare_op (mode c) with
    | Some op =>
        if negb (is_numeric (trim (value c))) then []
        else call ++ js " != nil && " ++ call ++ js " " ++ op ++ js " " ++ trim (value c)
    | None => call ++ js " == " ++ buildExprLiteral (mode c) (value c)
    end.
Proof.
  intros Ht Hp. unfold param_header_text. rewrite Ht. cbn [negb]. cbv zeta.
  change (match source c with SOURCE_HEADER => js "header" | SOURCE_PARAM => js "param" end)
    with (source_word (source c)). by rewrite call_text_plain.
Qed.

Section sources.
  Context (src : ConditionSource) (p v : ustring).
  Context (Hne : p ≠ []) (Hp : all name_unit p) (Hv : all value_unit (trim v)).
  Abbreviation call := (quoted_call (source_word src) p).

Lemma exists_reads many :
  reads_as many (match src with
                 | SOURCE_HEADER => call ++ js " != " ++ [DQUOTE; DQUOTE]
                 | SOURCE_PARAM => call ++ js " != nil"
                 end) (Some (ParamHeader (mkParamHeader src p MATCH_EXISTS []))).
Proof using Hne Hp.
  pose proof (solid_call (source_word src) p (source_word_solid src)) as Hs.
  destruct src; apply reads_as_one; [ | by tamed | by apply parse_param_exists | | by tamed | by apply parse_header_exists].
  - exact (solid_app _ (js "nil") Hs ltac:(done) (js " != ")).
  - exact (solid_app _ [DQUOTE; DQUOTE] Hs ltac:(done) (js " != ")).
Qed.

Lemma equals_reads many :
  reads_as many (call ++ js " == " ++ buildExprLiteral MATCH_EQ v)
    (Some (ParamHeader (mkParamHeader src p MATCH_EQ (trim v)))).
Proof using Hne Hp Hv.
  apply reads_as_one; [ | by tamed | by apply parse_source_eq].
  apply solid_app; [apply solid_call, source_word_solid | apply solid_literal].
Qed.

Lemma has_reads :
  let has := js "has(" ++ call ++ js ", " ++ buildExprLiteral MATCH_CONTAINS v ++ js ")" in
  solid has ∧ tame has ∧
  tryParseRequestCondition has =
    match src with
    | SOURCE_HEADER => Ok (Some (ParamHeader (mkParamHeader src p MATCH_CONTAINS (trim v))))
    | SOURCE_PARAM => Ok None
    end.
Proof using Hne Hp Hv.
  cbv zeta. split; [ | split].
  - rewrite (app_assoc (js ", ")), (app_assoc call). by apply (solid_app (js "has(") (js ")")).
  - change (js "has(") with (js "has" ++ js "("). rewrite (app_assoc (js ", ")), (app_assoc call), <- app_assoc.
    apply tame_app; [by apply tame_lit | ]. apply tame_parens. tamed.
  - destruct src; [by apply parse_param_has | by apply parse_header_contains].
Qed.

Lemma compared_part op :
  op ∈ [js ">"; js ">="; js "<"; js "<="] → is_numeric (trim v) = true →
  let text := quoted_call (js "param") p ++ js " " ++ op ++ js " " ++ trim v in
  solid text ∧ tame text ∧ tryParseRequestCondition text = Ok None.
Proof using Hne Hp.
  intros Hop Hnum. cbv zeta. split; [ | split].
  - rewrite (app_assoc op), (app_assoc (js " ")). apply solid_app; [by apply solid_call | by apply solid_numeric].
  - assert (tame op) by (one_in Hop; by apply tame_lit). tamed; by apply (source_word_tame SOURCE_PARAM).
  - by apply parse_param_compare.
Qed.
End sources.

Lemma compare_op_in m op : compare_op m = Some op → op ∈ [js ">"; js ">="; js "<"; js "<="].
Proof.
  unfold compare_op. do 4 (branch; [intros [= <-]; by apply (bool_decide_unpack _) | ]). done.
Qed.

Lemma source_reads many c :
  readable (ParamHeader c) = true → written (ParamHeader c) = true →
  reads_as many (buildRequestConditionExpr (ParamHeader c))
    (if guarded (ParamHeader c) then None else Some (shown (ParamHeader c))).
Proof.
  destruct (normalized_source c) as (n & En & Hsrc & Hm).
  unfold readable, written, shown, guarded. cbn [buildRequestConditionExpr].
  change (normalizeCondition (Some (of_condition (ParamHeader c)))) with (normalized (ParamHeader c)). rewrite En.
  intros Hr Hw. apply andb_true_iff in Hr as [Hp Hv]. apply forallb_all in Hp, Hv.
  destruct (truthy (trim (path n))) eqn:Ht; [ | unfold param_header_text in Hw; by rewrite Ht in Hw].
  assert (Hne : trim (path n) ≠ []) by (by destruct (trim (path n))).
  rewrite source_text in * by done. cbv zeta in *. clear En Hsrc Ht. destruct n as [src q m v]. cbn [source path mode value] in *.
  destruct (ustring_eqb m MATCH_EXISTS) eqn:Ee; bools.
  { subst m. change (ustring_eqb MATCH_EXISTS MATCH_CONTAINS) with false. rewrite andb_false_r. by apply exists_reads. }
  destruct (ustring_eqb m MATCH_CONTAINS) eqn:Ec; bools.
  { subst m. destruct (has_reads src (trim q) v Hne Hp Hv) as (Hs & Htm & Hread). destruct src; [ | by apply reads_as_one].
    cbn [orb andb]. rewrite bool_decide_true by done. 
    change (js " != nil && ") with (js " != nil" ++ js " && "). rewrite <- app_assoc, app_assoc.
    eapply reads_as_guarded; [ | | by apply parse_param_exists | done | done | done].
    - exact (solid_app _ (js "nil") (solid_call _ _ (source_word_solid SOURCE_PARAM)) ltac:(done) (js " != ")).
    - tamed. }
  destruct (compare_op m) as [op|] eqn:Eo.
  - destruct (is_numeric (trim v)) eqn:Enum; [ | done]. cbn [negb] in *. apply compare_op_in in Eo as Hop.
    destruct src; [ | by one_in Hm].
    rewrite bool_decide_true by done. cbn [orb andb].
    destruct (compared_part (trim q) v Hne Hp op Hop Enum) as (Hs & Htm & Hread).
    change (js " != nil && ") with (js " != nil" ++ js " && "). rewrite <- app_assoc, app_assoc.
    eapply reads_as_guarded; [ | | by apply parse_param_exists | done | done | done].
    + exact (solid_app _ (js "nil") (solid_call _ _ (source_word_solid SOURCE_PARAM)) ltac:(done) (js " != ")).
    + tamed.
  - rewrite andb_false_r. assert (m = MATCH_EQ) as ->; [ | by apply equals_reads].
    destruct src; one_in Hm; done.
Qed.

Lemma condition_reads many cond :
  readable cond = true → written cond = true →
  reads_as many (buildRequestConditionExpr cond) (if guarded cond then None else Some (shown cond)).
Proof. destruct cond as [c|c]; [apply time_reads | apply source_reads]. Qed.

(** ** Conjunctions *)

Lemma read_all_app {A} (f : ustring → reads A) a b :
  read_all f (a ++ b) =
    (r ← read_all f a;
     match r with
     | None => Ok None
     | Some la => rs ← read_all f b; Ok (match rs with Some lb => Some (la ++ lb) | None => None end)
     end).
Proof.
  induction a as [|t a IH]; cbn [app read_all].
  - unfold mbind, result_bind. destruct (read_all f b) as [[l|]|e]; done.
  - unfold mbind, result_bind in *. destruct (f t) as [[x|]|e]; [ | done | done]. rewrite IH.
    destruct (read_all f a) as [[l|]|e]; [ | done | done]. by destruct (read_all f b) as [[l'|]|e].
Qed.

Lemma join_app sep a b : a ≠ [] → b ≠ [] → join sep (a ++ b) = join sep a ++ sep ++ join sep b.
Proof.
  intros Ha Hb. induction a as [|w a IH]; [done | ]. destruct a as [|w' a].
  - by destruct b.
  - change (join sep ((w :: w' :: a) ++ b)) with (w ++ sep ++ join sep ((w' :: a) ++ b)).
    rewrite IH by done. change (join sep (w :: w' :: a)) with (w ++ sep ++ join sep (w' :: a)).
    by rewrite <- !app_assoc.
Qed.

Lemma join_concat sep (ls : list (list ustring)) :
  Forall (fun l => l ≠ []) ls → join sep (join sep <$> ls) = join sep (concat ls).
Proof.
  intros Hls. induction Hls as [|l ls Hl Hls IH]; [done | ]. destruct ls as [|l' ls].
  - cbn. by rewrite app_nil_r.
  - change (join sep (join sep <$> l :: l' :: ls)) with (join sep l ++ sep ++ join sep (join sep <$> l' :: ls)).
    cbn [concat]. rewrite join_app; [by rewrite IH | done | ]. inversion_clear Hls. by destruct l'.
Qed.

Lemma balanced_join sep ws : balanced sep → Forall balanced ws → balanced (join sep ws).
Proof.
  intros Hsep Hws. induction Hws as [|w [|w' ws] Hw Hws IH]; [apply balanced_nil | done | ].
  change (join sep (w :: w' :: ws)) with (w ++ sep ++ join sep (w' :: ws)). by repeat apply balanced_app.
Qed.

(** All the conditions of a group, each beside the others when [many]. *)
Lemma conjunction_reads (many : bool) conds :
  Forall (fun c => readable c = true ∧ written c = true) conds →
  ∃ partss : list (list ustring), ((fun e : ustring => if many then wrap_or e else e) <$> (buildRequestConditionExpr <$> conds)) =
              (join (js " && ") <$> partss) ∧
    Forall (fun l => l ≠ []) partss ∧ Forall (part_of (js " && ")) (concat partss) ∧
    Forall balanced (concat partss) ∧
    read_all read_part (concat partss) =
      Ok (if existsb guarded conds then None else Some (shown <$> conds)).
Proof.
  induction 1 as [|c conds [Hr Hw] Hconds IH]; [by exists [] | ].
  destruct IH as (partss & E & Hne & Hparts & Hbal & Hread).
  destruct (condition_reads many c Hr Hw) as (parts & Ec & Hne' & Hparts' & Hbal' & Hread').
  exists (parts :: partss). split; [by rewrite !fmap_cons, Ec, E | ]. split; [by constructor | ].
  cbn [concat existsb]. split; [by apply Forall_app_2 | ]. split; [by apply Forall_app_2 | ].
  rewrite read_all_app, Hread', Hread.
  destruct (guarded c); [done | ]. cbn. by destruct (existsb guarded conds).
Qed.

(** ** Factors *)

Definition written_conditions (g : RequestRuleGroup) : list RequestCondition :=
  filter (fun c => written c = true) (rule_conditions g).

Definition readable_group (g : RequestRuleGroup) : bool := forallb readable (rule_conditions g).
Definition guarded_group (g : RequestRuleGroup) : bool := existsb guarded (written_conditions g).
Definition shown_group (g : RequestRuleGroup) : RequestRuleGroup :=
  mkGroup (shown <$> written_conditions g) (trim (multiplier g)).
Definition written_group (g : RequestRuleGroup) : bool := truthy (buildRuleGroupFactor g).

Definition combined_text (conds : list RequestCondition) : ustring :=
  match conds with
  | [c] => buildRequestConditionExpr c
  | _ => join (js " && ") (wrap_or <$> (buildRequestConditionExpr <$> conds))
  end.

Lemma filter_written (conds : list RequestCondition) :
  filter is_truthy_text (buildRequestConditionExpr <$> conds) =
  buildRequestConditionExpr <$> filter (fun c => written c = true) conds.
Proof.
  induction conds as [|c conds IH]; [done | ]. rewrite fmap_cons, !filter_cons.
  unfold is_truthy_text in *. unfold written. rewrite IH. by destruct (decide _).
Qed.

Lemma factor_text g :
  written_group g = true →
  buildRuleGroupFactor g = js "(" ++ (combined_text (written_conditions g) ++ js " ? " ++ trim (multiplier g) ++ js " : 1") ++ js ")" ∧
  is_numeric (trim (multiplier g)) = true ∧ written_conditions g ≠ [].
Proof.
  unfold written_group, buildRuleGroupFactor. destruct (is_numeric (trim (multiplier g))) eqn:En; [ | done].
  cbn [negb]. cbv zeta. rewrite filter_written. fold (written_conditions g).
  destruct (written_conditions g) as [|c conds] eqn:E; [done | ]. intros _. split; [ | done].
  rewrite fmap_cons at 1. cbn [combined_text]. change (js " : 1)") with (js " : 1" ++ js ")").
  destruct conds as [|c' conds]; by rewrite <- !app_assoc.
Qed.

Lemma combined_reads conds :
  conds ≠ [] → Forall (fun c => readable c = true ∧ written c = true) conds →
  balanced (combined_text conds) ∧
  read_all read_part (splitTopLevelAnd (combined_text conds)) =
    Ok (if existsb guarded conds then None else Some (shown <$> conds)).
Proof.
  intros Hne Hconds. set (many := match conds with [_] => false | _ => true end).
  destruct (conjunction_reads many conds Hconds) as (partss & E & Hne' & Hparts & Hbal & Hread).
  assert (Etext : combined_text conds = join (js " && ") (concat partss)).
  { rewrite <- join_concat by done. rewrite <- E. unfold combined_text, many.
    by destruct conds as [|c [|c' conds]]. }
  assert (Hpne : concat partss ≠ []).
  { destruct partss as [|l ls]; [by destruct conds | ]. inversion_clear Hne'. by destruct l. }
  rewrite Etext. split; [by apply balanced_join; [apply balanced_lit | ] | ].
  unfold splitTopLevelAnd. by rewrite split_top_join.
Qed.

Lemma question_not_later m u v :
  is_numeric m = true → js " ? " ++ m ++ js " : 1)" = u ++ v → u ≠ [] → starts_with (js " ? ") v = false.
Proof.
  intros Hm E Hu. destruct (starts_with (js " ? ") v) eqn:Ev; [exfalso | done].
  apply starts_with_spec in Ev. rewrite Ev in E. destruct u as [|c u]; [done | ]. injection E as _ E.
  assert (Hin : 63%Z ∈ (js " " ++ m ++ js " : 1)")).
  { destruct u as [|d u]; [by injection E | ]. injection E as _ E.
    assert (E' : js " " ++ m ++ js " : 1)" = u ++ js " ? " ++ drop (length (js " ? ")) v) by exact E.
    rewrite E'. apply elem_of_app. right. right. left. }
  rewrite !elem_of_app in Hin. destruct Hin as [H|[H|H]].
  - by pose proof (bool_decide_eq_true_2 _ H).
  - apply numeric_units in Hm as [_ Hm]. rewrite Forall_forall in Hm. apply Hm, numeric_unit_cases in H. lia.
  - by pose proof (bool_decide_eq_true_2 _ H).
Qed.

Lemma matches_factor cond m :
  cond ≠ [] → is_numeric m = true →
  match_all RULE_FACTOR (js "(" ++ (cond ++ js " ? " ++ m ++ js " : 1") ++ js ")") = Some [(2, m); (1, cond)].
Proof.
  intros Hc Hm. unfold match_all, RULE_FACTOR. rewrite rseq_cons, (matches_lit_yes _ _ _ _ _ eq_refl), rseq_cons.
  rewrite <- !app_assoc. change (js " : 1" ++ js ")") with (js " : 1)").
  apply matches_run_last; [by apply Forall_true | done | | ].
  - rewrite rseq_cons, (matches_lit_yes _ _ _ _ _ eq_refl), rseq_cons.
    by rewrite matches_number by (done || (intros; by apply lit_refuses)).
  - intros u v caps E Hu. by rewrite rseq_cons, matches_lit_no by (by eapply question_not_later).
Qed.

Lemma combined_nonempty conds :
  conds ≠ [] → Forall (fun c => readable c = true ∧ written c = true) conds → combined_text conds ≠ [].
Proof.
  intros Hne Hconds E. destruct (combined_reads conds Hne Hconds) as [_ H]. rewrite E in H.
  change (splitTopLevelAnd []) with (@nil ustring) in H. injection H as H. destruct (existsb guarded conds); [done | ].
  destruct conds; [done | by injection H].
Qed.

Lemma factor_reads g :
  readable_group g = true → written_group g = true →
  part_of (js " * ") (buildRuleGroupFactor g) ∧
  tryParseRuleGroupFactor (buildRuleGroupFactor g) =
    Ok (if guarded_group g then None else Some (shown_group g)).
Proof.
  intros Hr Hw. destruct (factor_text g Hw) as (-> & Hm & Hne).
  assert (Hconds : Forall (fun c => readable c = true ∧ written c = true) (written_conditions g)).
  { apply Forall_forall. intros c Hc. apply list_elem_of_filter in Hc as [Hcw Hc]. split; [ | done].
    unfold readable_group in Hr. rewrite forallb_forall in Hr. apply Hr. by apply list_elem_of_In. }
  destruct (combined_reads _ Hne Hconds) as [Hbal Hread]. split.
  - apply factor_part. apply balanced_app; [done | ]. repeat apply balanced_app; try (by apply balanced_lit).
    apply (tame_numeric _ Hm).
  - unfold tryParseRuleGroupFactor. rewrite matches_factor by (done || by apply combined_nonempty).
    change (group 1 _) with (combined_text (written_conditions g)).
    change (fun ap => tryParseRequestCondition (trim ap)) with read_part. rewrite Hread. cbn.
    unfold guarded_group. destruct (existsb _ _); [done | ].
    destruct (written_conditions g) eqn:E; [done | ]. unfold shown_group. by rewrite E.
Qed.

(** ** Products *)

Lemma solid_join sep ws : ws ≠ [] → Forall solid ws → solid (join sep ws).
Proof.
  intros Hne Hws. induction Hws as [|w ws Hw Hws IH]; [done | ]. destruct ws as [|w' ws]; [done | ].
  change (join sep (w :: w' :: ws)) with (w ++ sep ++ join sep (w' :: ws)). apply solid_app; [done | by apply IH].
Qed.

Lemma filter_written_groups (gs : list RequestRuleGroup) :
  filter is_truthy_text (buildRuleGroupFactor <$> gs) =
  buildRuleGroupFactor <$> filter (fun g => written_group g = true) gs.
Proof.
  induction gs as [|g gs IH]; [done | ]. rewrite fmap_cons, !filter_cons.
  unfold is_truthy_text in *. unfold written_group. rewrite IH. by destruct (decide _).
Qed.

(** The groups that are written and can be read. *)
Definition kept_groups (gs : list RequestRuleGroup) : list RequestRuleGroup :=
  filter (fun g => written_group g = true) gs.

Lemma kept_reads gs : forallb readable_group gs = true →
  Forall (fun g => readable_group g = true ∧ written_group g = true) (kept_groups gs).
Proof.
  intros Hr. apply Forall_forall. intros g Hg. apply list_elem_of_filter in Hg as [Hw Hg]. split; [ | done].
  rewrite forallb_forall in Hr. apply Hr. by apply list_elem_of_In.
Qed.

Lemma kept_parts gs : forallb readable_group gs = true →
  Forall (part_of (js " * ")) (buildRuleGroupFactor <$> kept_groups gs).
Proof.
  intros Hr. apply Forall_fmap. eapply Forall_impl; [by apply kept_reads | ].
  intros g [Hg Hw]. by apply factor_reads.
Qed.

Lemma read_factors gs :
  Forall (fun g => readable_group g = true ∧ written_group g = true) gs →
  read_all tryParseRuleGroupFactor (buildRuleGroupFactor <$> gs) =
    Ok (if existsb guarded_group gs then None else Some (shown_group <$> gs)).
Proof.
  induction 1 as [|g gs [Hr Hw] Hgs IH]; [done | ]. rewrite fmap_cons. cbn [read_all existsb].
  destruct (factor_reads g Hr Hw) as [_ ->]. unfold mbind, result_bind in *. rewrite IH.
  destruct (guarded_group g); [done | ]. cbn [orb]. by destruct (existsb guarded_group gs).
Qed.

Lemma read_product (parts : list ustring) :
  Forall (part_of (js " * ")) parts → parts ≠ [] →
  tryParseRequestRuleExpr (join (js " * ") parts) = read_all tryParseRuleGroupFactor parts.
Proof.
  intros Hparts Hne. unfold tryParseRequestRuleExpr, splitTopLevelMultiply.
  assert (Hs : solid (join (js " * ") parts)).
  { apply solid_join; [done | ]. eapply Forall_impl; [exact Hparts | ]. by intros s (? & _). }
  rewrite solid_trim, solid_truthy by done. cbn [negb]. by rewrite split_top_join.
Qed.

Lemma rules_read gs :
  forallb readable_group gs = true →
  tryParseRequestRuleExpr (buildRequestRuleExpr gs) =
    Ok (if existsb guarded_group (kept_groups gs) then None else Some (shown_group <$> kept_groups gs)).
Proof.
  intros Hr. unfold buildRequestRuleExpr. rewrite filter_written_groups. fold (kept_groups gs).
  rewrite <- read_factors by (by apply kept_reads).
  destruct (kept_groups gs) as [|g gs'] eqn:E; [done | ].
  rewrite <- E. apply read_product; [by apply kept_parts | by rewrite E].
Qed.

(** C19: rules written by the editor are read back, where the names and the values of their
    conditions stay clear of the syntax of rules (quotes, parentheses, ampersands, bars and
    the like): the groups and conditions that can be written, each trimmed and without the
    fields its mode ignores, in their order; and nothing at all when one of them is a guarded
    condition on a parameter (contains, or a comparison by size), whose text is split apart
    before it is read. *)
Theorem request_rules_read_back gs :
  forallb readable_group gs = true →
  tryParseRequestRuleExpr (buildRequestRuleExpr gs) =
    Ok (if existsb guarded_group (kept_groups gs) then None else Some (shown_group <$> kept_groups gs)).
Proof. apply rules_read. Qed.

(** ** The price and the rules *)

Definition ends_with (p s : ustring) : bool := starts_with (reverse p) (reverse s).

Lemma ends_with_app p s : ends_with p (s ++ p) = true.
Proof. unfold ends_with. rewrite reverse_app. apply starts_with_app. Qed.

Lemma not_a_factor base :
  ends_with (js " : 1") base = false → match_all RULE_FACTOR (js "(" ++ base ++ js ")") = None.
Proof.
  intros Hb. destruct (match_all RULE_FACTOR _) as [caps|] eqn:E; [exfalso | done].
  apply match_all_sound in E. unfold RULE_FACTOR, rlit in E. cbn [rseq foldr lang] in E.
  destruct E as (u1 & u2 & E & H1 & u3 & u4 & -> & _ & u5 & u6 & -> & _ & u7 & u8 & -> & _ & u9 & u10 & -> & H9 & ->).
  apply lang_text in H1, H9. subst u1 u9. rewrite app_nil_r in E. apply app_inv_head in E.
  change (js " : 1)") with (js " : 1" ++ js ")") in E. rewrite !app_assoc in E.
  apply app_inv_tail in E. rewrite E, ends_with_app in Hb. done.
Qed.

Lemma base_part base :
  balanced base → ends_with (js " : 1") base = false → is_rule (js "(" ++ base ++ js ")") = Ok false.
Proof.
  intros Hbal Hend. unfold is_rule. change (js "(" ++ base ++ js ")") with (join (js " * ") [js "(" ++ base ++ js ")"]).
  rewrite read_product by (done || by apply Forall_singleton, factor_part). cbn [read_all].
  unfold tryParseRuleGroupFactor. by rewrite not_a_factor.
Qed.

Lemma rule_part g :
  readable_group g = true → written_group g = true → is_rule (buildRuleGroupFactor g) = Ok (negb (guarded_group g)).
Proof.
  intros Hr Hw. destruct (factor_reads g Hr Hw) as [Hpart Hread]. unfold is_rule.
  change (buildRuleGroupFactor g) with (join (js " * ") [buildRuleGroupFactor g]).
  rewrite read_product by (done || by apply Forall_singleton). cbn [read_all]. rewrite Hread. by destruct (guarded_group g).
Qed.

Lemma sort_base base rest : is_rule base = Ok false →
  sort_parts (base :: rest) = ('(rules, bases) ← sort_parts rest; Ok (rules, base :: bases)).
Proof. intros H. cbn [sort_parts]. by rewrite H. Qed.

Lemma sort_factors gs :
  Forall (fun g => readable_group g = true ∧ written_group g = true) gs →
  sort_parts (buildRuleGroupFactor <$> gs) =
    Ok (buildRuleGroupFactor <$> filter (fun g => guarded_group g = false) gs,
        buildRuleGroupFactor <$> filter (fun g => guarded_group g = true) gs).
Proof.
  induction 1 as [|g gs [Hr Hw] Hgs IH]; [done | ]. rewrite fmap_cons. cbn [sort_parts].
  rewrite rule_part, IH by done. unfold mbind, result_bind. rewrite !filter_cons.
  by destruct (guarded_group g).
Qed.

Lemma filter_guarded gs :
  (existsb guarded_group gs = false → filter (fun g => guarded_group g = false) gs = gs ∧
                                      filter (fun g => guarded_group g = true) gs = []) ∧
  (existsb guarded_group gs = true → filter (fun g => guarded_group g = true) gs ≠ []).
Proof.
  induction gs as [|g gs [IH1 IH2]]; [done | ]. cbn [existsb]. rewrite !filter_cons.
  destruct (guarded_group g); cbn [orb]; [done | ]. split; [ | done]. intros H. by destruct (IH1 H) as [-> ->].
Qed.

Lemma parts_solid parts : parts ≠ [] → Forall (part_of (js " * ")) parts → solid (join (js " * ") parts).
Proof.
  intros Hne Hparts. apply solid_join; [done | ]. eapply Forall_impl; [exact Hparts | ]. by intros s (? & _).
Qed.

Lemma combined_product base (factors : list ustring) :
  truthy (trim base) = true → factors ≠ [] → Forall (part_of (js " * ")) factors →
  combineBillingExpr base (join (js " * ") factors) = join (js " * ") ((js "(" ++ trim base ++ js ")") :: factors).
Proof.
  intros Ht Hne Hf. pose proof (parts_solid factors Hne Hf) as Hs. unfold combineBillingExpr.
  rewrite Ht, (solid_trim _ Hs), (solid_truthy _ Hs). cbn [negb].
  change (js ") * ") with (js ")" ++ js " * "). destruct factors as [|w ws]; [done | ].
  change (join (js " * ") ((js "(" ++ trim base ++ js ")") :: w :: ws))
    with ((js "(" ++ trim base ++ js ")") ++ js " * " ++ join (js " * ") (w :: ws)). by rewrite <- !app_assoc.
Qed.

Lemma unwrap_trim base : unwrapOuterParens (trim base) = unwrapOuterParens base.
Proof.
  unfold unwrapOuterParens. destruct (trim base) as [|c t] eqn:E.
  - by destruct (length base).
  - rewrite solid_trim by (rewrite <- E; apply trim_solid; by rewrite E). rewrite <- E.
    symmetry. apply unwrap_loop_enough, trim_length.
Qed.

Lemma rules_separated base gs :
  balanced (trim base) → ends_with (js " : 1") (trim base) = false → truthy (trim base) = true →
  forallb readable_group gs = true → kept_groups gs ≠ [] →
  let combined := combineBillingExpr base (buildRequestRuleExpr gs) in
  splitBillingExprAndRequestRules combined =
    Ok (if existsb guarded_group (kept_groups gs) then mkSplit combined []
        else mkSplit (unwrapOuterParens base) (buildRequestRuleExpr gs)).
Proof.
  intros Hbal Hend Ht Hr Hkept. unfold buildRequestRuleExpr. rewrite filter_written_groups. fold (kept_groups gs).
  pose proof (kept_parts gs Hr) as Hparts. cbv zeta.
  rewrite combined_product by (done || by destruct (kept_groups gs)).
  set (parts := (js "(" ++ trim base ++ js ")") :: (buildRuleGroupFactor <$> kept_groups gs)).
  assert (Hall : Forall (part_of (js " * ")) parts) by (constructor; [by apply factor_part | done]).
  pose proof (parts_solid parts ltac:(done) Hall) as Hs. unfold splitBillingExprAndRequestRules, splitTopLevelMultiply.
  rewrite (solid_trim _ Hs), (solid_truthy _ Hs). cbn [negb]. cbv zeta. rewrite split_top_join by done.
  assert (Hlen : (length parts <=? 1) = false) by (unfold parts; by destruct (kept_groups gs)).
  assert (Hsort := sort_base _ (buildRuleGroupFactor <$> kept_groups gs) (base_part _ Hbal Hend)).
  rewrite sort_factors in Hsort by (by apply kept_reads). fold parts in Hsort. rewrite Hlen, Hsort.
  unfold mbind, result_bind. cbv beta iota.
  destruct (filter_guarded (kept_groups gs)) as [Hno Hyes].
  destruct (existsb guarded_group (kept_groups gs)).
  - specialize (Hyes eq_refl). destruct (filter _ (kept_groups gs)) eqn:E1 in |- *;
      destruct (filter (fun g => guarded_group g = true) (kept_groups gs)); done.
  - destruct (Hno eq_refl) as [-> ->]. rewrite unwrap_parens, unwrap_trim by (done || (apply trim_solid; by destruct (trim base))).
    by destruct (kept_groups gs).
Qed.

(** a price joined with rules is separated again into the price without its outer
    parentheses and the rules; with a guarded condition among the rules the whole text is
    taken for the price and no rule is found. *)
Theorem price_and_rules_are_separated base gs :
  balanced (trim base) → ends_with (js " : 1") (trim base) = false → truthy (trim base) = true →
  forallb readable_group gs = true → kept_groups gs ≠ [] →
  let combined := combineBillingExpr base (buildRequestRuleExpr gs) in
  splitBillingExprAndRequestRules combined =
    Ok (if existsb guarded_group (kept_groups gs) then mkSplit combined []
        else mkSplit (unwrapOuterParens base) (buildRequestRuleExpr gs)).
Proof. apply rules_separated. Qed.

(** ** What is read is written the same way *)

Lemma known_mode_id options m fallback :
  m ∈ (option_value <$> options) → known_mode options (Some m) fallback = m.
Proof.
  intros Hm. unfold known_mode. assert (He : existsb (fun item => ustring_eqb (option_value item) m) options = true).
  { apply list_elem_of_fmap_1 in Hm as (o & -> & Ho). apply existsb_exists. exists o.
    split; [by apply list_elem_of_In | by apply bool_decide_eq_true_2]. }
  by rewrite He.
Qed.

Lemma normalized_time_id c :
  timeFunc c ∈ TIME_FUNCS → timezone c ≠ [] → time_mode c ∈ [MATCH_EQ; MATCH_GTE; MATCH_LT; MATCH_RANGE] →
  normalized (Time c) = Time c.
Proof.
  intros Hf Htz Hm. destruct c as [f tz m v rs re]. cbn [timeFunc timezone time_mode] in *.
  change (normalized (Time (mkTime f tz m v rs re))) with
    (Time (mkTime (if bool_decide (f ∈ TIME_FUNCS) then f else js "hour") (or_text (Some tz) (js "Asia/Shanghai"))
       (known_mode (getRequestRuleMatchOptions (js "time")) (Some m) MATCH_GTE) v rs re)).
  rewrite bool_decide_true by done. rewrite (known_mode_id (getRequestRuleMatchOptions (js "time"))) by done.
  by destruct tz.
Qed.

Lemma normalized_source_id c :
  mode c ∈ match source c with
           | SOURCE_HEADER => [MATCH_EQ; MATCH_CONTAINS; MATCH_EXISTS]
           | SOURCE_PARAM => [MATCH_EQ; MATCH_CONTAINS; MATCH_EXISTS; MATCH_GT; MATCH_GTE; MATCH_LT; MATCH_LTE]
           end → normalized (ParamHeader c) = ParamHeader c.
Proof.
  destruct c as [src p m v]. cbn [source mode]. intros Hm. destruct src.
  - change (normalized (ParamHeader (mkParamHeader SOURCE_PARAM p m v))) with
      (ParamHeader (mkParamHeader SOURCE_PARAM (or_text (Some p) [])
         (known_mode (getRequestRuleMatchOptions (js "param")) (Some m) MATCH_EQ) v)).
    rewrite (known_mode_id (getRequestRuleMatchOptions (js "param"))) by done. by destruct p.
  - change (normalized (ParamHeader (mkParamHeader SOURCE_HEADER p m v))) with
      (ParamHeader (mkParamHeader SOURCE_HEADER (or_text (Some p) [])
         (known_mode (getRequestRuleMatchOptions (js "header")) (Some m) MATCH_EQ) v)).
    rewrite (known_mode_id (getRequestRuleMatchOptions (js "header"))) by done. by destruct p.
Qed.

Lemma build_normalized cond :
  buildRequestConditionExpr cond =
    match normalized cond with Time c => time_condition_text c | ParamHeader c => param_header_text c end.
Proof.
  destruct cond as [c|c].
  - destruct (normalized_time c) as (n & En & _). cbn [buildRequestConditionExpr]. unfold buildTimeConditionExpr.
    change (normalizeCondition (Some (of_condition (Time c)))) with (normalized (Time c)). by rewrite En.
  - destruct (normalized_source c) as (n & En & _). cbn [buildRequestConditionExpr].
    change (normalizeCondition (Some (of_condition (ParamHeader c)))) with (normalized (ParamHeader c)). by rewrite En.
Qed.

Lemma literal_trim m v : buildExprLiteral m (trim v) = buildExprLiteral m v.
Proof. unfold buildExprLiteral. by rewrite trim_idempotent. Qed.

Lemma build_shown cond : buildRequestConditionExpr (shown cond) = buildRequestConditionExpr cond.
Proof.
  rewrite (build_normalized cond), (build_normalized (shown cond)). unfold shown. destruct cond as [c|c].
  - destruct (normalized_time c) as (n & -> & Hf & Htz & Hm).
    destruct (ustring_eqb (time_mode n) MATCH_RANGE) eqn:Er.
    + rewrite normalized_time_id by (done || by apply (bool_decide_unpack _)). unfold time_condition_text.
      rewrite Er. cbn [time_mode timeFunc timezone rangeStart rangeEnd]. by rewrite !trim_idempotent.
    + rewrite normalized_time_id by done. unfold time_condition_text. cbn [time_mode timeFunc timezone time_value].
      by rewrite Er, trim_idempotent.
  - destruct (normalized_source c) as (n & -> & _ & Hm). rewrite normalized_source_id by done.
    unfold param_header_text. cbn [source path mode value]. rewrite trim_idempotent.
    destruct (negb _); [done | ]. destruct (ustring_eqb (mode n) MATCH_EXISTS); [done | ].
    by rewrite literal_trim, trim_idempotent.
Qed.

Lemma factor_shown g : buildRuleGroupFactor (shown_group g) = buildRuleGroupFactor g.
Proof.
  unfold buildRuleGroupFactor, shown_group. cbn [multiplier rule_conditions]. rewrite trim_idempotent.
  destruct (negb _); [done | ]. cbv zeta. rewrite !filter_written. fold (written_conditions g).
  assert (E : buildRequestConditionExpr <$> filter (fun c => written c = true) (shown <$> written_conditions g) =
              buildRequestConditionExpr <$> written_conditions g); [ | by rewrite E].
  rewrite filter_all.
  - rewrite <- list_fmap_compose. apply list_fmap_ext. intros i c _. apply build_shown.
  - intros c Hc. apply list_elem_of_fmap_1 in Hc as (c' & -> & Hc'). apply list_elem_of_filter in Hc' as [Hw _].
    unfold written. by rewrite build_shown.
Qed.

Lemma rules_shown gs :
  buildRequestRuleExpr (shown_group <$> kept_groups gs) = buildRequestRuleExpr gs.
Proof.
  unfold buildRequestRuleExpr. f_equal. rewrite (filter_written_groups gs). fold (kept_groups gs).
  assert (Hw : Forall (fun g => written_group g = true) (kept_groups gs)).
  { apply Forall_forall. intros g Hg. by apply list_elem_of_filter in Hg as [? _]. }
  induction Hw as [|g gs' Hg Hgs IH]; [done | ]. rewrite !fmap_cons, factor_shown.
  rewrite filter_cons_True by done. by rewrite IH.
Qed.

(** ** Samples *)

Definition night_rule : RequestRuleGroup :=
  mkGroup [Time (mkTime (js "hour") (js "UTC") MATCH_RANGE [] (js " 21 ") (js "6"));
           ParamHeader (mkParamHeader SOURCE_HEADER (js " x-tier ") MATCH_CONTAINS (js "a b\c"))] (js "0.5").

Definition fast_rule : RequestRuleGroup :=
  mkGroup [ParamHeader (mkParamHeader SOURCE_PARAM (js "service_tier") MATCH_EQ (js "fast"));
           ParamHeader (mkParamHeader SOURCE_PARAM [] MATCH_EQ (js "dropped"))] (js "2").

Definition size_rule : RequestRuleGroup :=
  mkGroup [ParamHeader (mkParamHeader SOURCE_PARAM (js "n") MATCH_GT (js "3"))] (js "2").

Lemma request_rules_read_back_witness :
  forallb readable_group [night_rule; fast_rule] = true ∧ forallb readable_group [size_rule] = true ∧
  tryParseRequestRuleExpr (buildRequestRuleExpr [night_rule; fast_rule]) =
    Ok (Some [shown_group night_rule; shown_group fast_rule]) ∧
  tryParseRequestRuleExpr (buildRequestRuleExpr [size_rule]) = Ok None.
Proof.
  split; [vm_compute; reflexivity | ]. split; [vm_compute; reflexivity | ]. split.
  - rewrite (request_rules_read_back [night_rule; fast_rule]) by (vm_compute; reflexivity). vm_compute. reflexivity.
  - rewrite (request_rules_read_back [size_rule]) by (vm_compute; reflexivity). vm_compute. reflexivity.
Defined.

Lemma price_and_rules_are_separated_witness :
  splitBillingExprAndRequestRules (combineBillingExpr (js "(p * 2 + c * 3)") (buildRequestRuleExpr [fast_rule])) =
    Ok (mkSplit (js "p * 2 + c * 3") (buildRequestRuleExpr [fast_rule])) ∧
  splitBillingExprAndRequestRules (combineBillingExpr (js "p * 2") (buildRequestRuleExpr [size_rule])) =
    Ok (mkSplit (combineBillingExpr (js "p * 2") (buildRequestRuleExpr [size_rule])) []).
Proof.
  split.
  - rewrite (price_and_rules_are_separated (js "(p * 2 + c * 3)") [fast_rule]);
      [vm_compute; reflexivity | | vm_compute; reflexivity | vm_compute; reflexivity | vm_compute; reflexivity | done].
    change (trim (js "(p * 2 + c * 3)")) with (js "(" ++ js "p * 2 + c * 3" ++ js ")").
    apply balanced_parens, balanced_lit. reflexivity.
  - rewrite (price_and_rules_are_separated (js "p * 2") [size_rule]);
      [vm_compute; reflexivity | | vm_compute; reflexivity | vm_compute; reflexivity | vm_compute; reflexivity | done].
    apply balanced_lit. reflexivity.
Defined.

(** A rule text whose string has an escape JSON does not know makes the reader throw. *)
Example unknown_escape_throws :
  tryParseRequestRuleExpr (js "(has(header(" ++ [DQUOTE] ++ js "x" ++ [DQUOTE] ++ js "), " ++ [DQUOTE] ++ js "\q" ++
    [DQUOTE] ++ js ") ? 2 : 1)") = Err SyntaxErrorThrown.
Proof. vm_compute. reflexivity. Qed.

(** A parenthesis inside a value unbalances the scan, and the rule is not read. *)
Example parenthesis_in_value_is_not_read :
  tryParseRequestRuleExpr (buildRequestRuleExpr
    [mkGroup [ParamHeader (mkParamHeader SOURCE_PARAM (js "m") MATCH_EQ (js "a)"));
              ParamHeader (mkParamHeader SOURCE_HEADER (js "h") MATCH_EXISTS [])] (js "2")]) = Ok None.
Proof. vm_compute. reflexivity. Qed.
