(* ===== verification/TierExprParse.v ===== *)
(** * The visual editor of tiered prices: from a billing expression to tiers

    The readers of [features/pricing/lib/tier-expr.ts] and
    [features/pricing/lib/billing-expr.ts] that recognise tiers in the text of an
    expression by regular expressions: the one of the visual editor, which compares the
    text with what it would write itself, and the one of the price display. *)

From stdpp Require Import base numbers strings option sets list.
From Stdlib Require Import SpecFloat ZArith Lia.
From S2P Require Import Prelude JsNumber Json ExprTokenizer NumberText Regex TierExpr.

(** ** Regular expressions *)

Definition rspaces : regex := RStar (RChar is_space).

(** [\[\d.eE+-\]] and [\[\d.eE+\]]. *)
Definition signed_unit (c : Z) : bool := is_digit c || one_of ".eE+-" c.
Definition bound_unit (c : Z) : bool := is_digit c || one_of ".eE+" c.

Definition not_dquote (c : Z) : bool := negb (c =? DQUOTE)%Z.

Definition CONDITION_VARS : list ustring := [js "p"; js "c"; js "len"].
Definition CONDITION_OPS : list ustring := [js "<"; js "<="; js ">"; js ">="].

(** [(?:p|c|len)\s*(?:<|<=|>|>=)\s*\[\d.eE+\]+]. *)
Definition CONDITION : regex :=
  rseq [rwords CONDITION_VARS; rspaces; rwords CONDITION_OPS; rspaces; rplus (RChar bound_unit)].

Definition AND : regex := rseq [rspaces; rlit "&&"; rspaces].

(** Several conditions, captured as group [n]. *)
Definition CONDITION_GROUP (n : nat) : regex :=
  RGroup n (rseq [CONDITION; RStar (rseq [AND; CONDITION])]).

(** The same condition, with its parts captured. *)
Definition CONDITION_PARTS : regex :=
  rseq [rchoice 1 CONDITION_VARS; rspaces; rchoice 2 CONDITION_OPS; rspaces; rrun 3 bound_unit].

(** [v\s*\*\s*(\[\d.eE+-\]+)], the number captured as group [n]. *)
Definition TERM (v : ustring) (n : nat) : regex :=
  rseq [rtext v; rspaces; rlit "*"; rspaces; rrun n signed_unit].

Definition PLUS : regex := rseq [rspaces; rlit "+"; rspaces].

(** The optional terms, in the order of the registry, captured from group [n] on. *)
Fixpoint OPTIONAL_TERMS (vars : list ustring) (n : nat) : regex :=
  match vars with
  | [] => REmpty
  | v :: vars' => RSeq (ropt (rseq [PLUS; TERM v n])) (OPTIONAL_TERMS vars' (S n))
  end.

Definition BODY (n : nat) : regex :=
  rseq [TERM (js "p") n; PLUS; TERM (js "c") (S n); OPTIONAL_TERMS (BILLING_CACHE_VAR_MAP.*1) (S (S n))].

(** A call of [tier] whose label is group [n] and whose body is [body]. *)
Definition TIER_CALL (n : nat) (body : regex) : regex :=
  rseq [rlit "tier("; rtext [DQUOTE]; RGroup n (RStar (RChar not_dquote)); rtext [DQUOTE]; rlit ",";
        rspaces; body; rlit ")"].

Definition SINGLE_TIER : regex := TIER_CALL 1 (BODY 2).

(** The same after optional conditions and a question mark. *)
Definition CONDITIONAL_TIER (body : regex) : regex :=
  rseq [ropt (rseq [CONDITION_GROUP 1; rspaces; rlit "?"; rspaces]); TIER_CALL 2 body].

(** A version, a colon and the rest. *)
Definition VERSION : regex :=
  rseq [rlit "v"; rrun 1 is_digit; rlit ":"; RGroup 2 (RStar (RChar (fun _ => true)))].

(** ** Numbers *)

(** [Number(text)] for a text of digits, points, signs and exponent letters. *)
Definition Number_of_run (s : ustring) : number :=
  let unsigned s := if bool_decide (match_number s = Some (length s)) then Number s else S754_nan in
  match s with
  | [] => zero
  | c :: s' =>
      if (c =? chr "-")%Z then num_neg (unsigned s')
      else if (c =? chr "+")%Z then unsigned s'
      else unsigned s
  end.

(** ** Reading *)

(** The conditions of a captured group; a part that is not one is left out. *)
Definition read_condition (part : ustring) : option TierConditionInput :=
  cm ← match_all CONDITION_PARTS (trim part);
  Some (mkConditionInput (group 1 cm) (group 2 cm) (ValueNumber (Number_of_run (group 3 cm)))).

Definition read_conditions (condStr : ustring) : list TierConditionInput :=
  if truthy condStr then omap read_condition (split_regex AND condStr) else [].

(** The optional price [field], captured from group [first] on. *)
Fixpoint optional_price (vars : list (ustring * ustring)) (n : nat) (field : ustring) (m : captures)
    : option number :=
  match vars with
  | [] => None
  | cv :: vars' =>
      if ustring_eqb cv.2 field then Number_of_run <$> captured n m
      else optional_price vars' (S n) field m
  end.

(** A tier whose label is group [n] and whose prices follow. *)
Definition read_tier (conds : list TierConditionInput) (n : nat) (m : captures) : VisualTier :=
  let price field := optional_price BILLING_CACHE_VAR_MAP (n + 3) (js field) m in
  normalizeVisualTier
    {| partial_label := Some (group n m);
       partial_conditions := Some conds;
       partial_input := Some (Number_of_run (group (n + 1) m));
       partial_output := Some (Number_of_run (group (n + 2) m));
       partial_mode := None;
       partial_cache_read := price "cache_read_unit_cost";
       partial_cache_create := price "cache_create_unit_cost";
       partial_cache_create_1h := price "cache_create_1h_unit_cost";
       partial_image := price "image_unit_cost";
       partial_image_output := price "image_output_unit_cost";
       partial_audio_input := price "audio_input_unit_cost";
       partial_audio_output := price "audio_output_unit_cost" |}.

(** [text.replaceAll(/\s+/g, '')]. *)
Definition without_spaces (text : ustring) : ustring := filter (fun c => is_space c = false) text.

Definition strip_version (text : ustring) : ustring :=
  match match_all VERSION text with Some m => group 2 m | None => text end.

Definition tryParseVisualConfig (exprStr : option ustring) : option VisualConfig :=
  match exprStr with
  | None | Some [] => None
  | Some text =>
      let body := strip_version text in
      match match_all SINGLE_TIER body with
      | Some simple => Some (normalizeVisualConfig (Some [read_tier [] 1 simple]))
      | None =>
          let tiers := (fun m => read_tier (read_conditions (group 1 m)) 2 m)
                         <$> exec_all (CONDITIONAL_TIER (BODY 3)) body in
          match tiers with
          | [] => None
          | _ =>
              let cfg := normalizeVisualConfig (Some tiers) in
              let regenerated := generateExprFromVisualConfig (Some cfg) in
              if ustring_eqb (without_spaces regenerated) (without_spaces body) then Some cfg else None
          end
      end
  end.

(** ** Tiers for display *)

Record ParsedTier := mkParsedTier {
  parsed_label : ustring;
  parsed_conditions : list TierConditionInput;
  prices : list (ustring * number)
}.

Definition stripExprVersion (exprStr : ustring) : number * ustring :=
  match exprStr with
  | [] => (one, [])
  | _ =>
      match match_all VERSION exprStr with
      | Some m => (Number_of_run (group 1 m), group 2 m)
      | None => (one, exprStr)
      end
  end.

Definition is_word_unit (c : Z) : bool :=
  is_digit c || ((chr "a" <=? c)%Z && (c <=? chr "z")%Z) || ((chr "A" <=? c)%Z && (c <=? chr "Z")%Z) || (c =? chr "_")%Z.

(** [\b] before [text]. *)
Definition word_boundary (prev : option Z) (text : ustring) : bool :=
  xorb (from_option is_word_unit false prev) (from_option is_word_unit false (head text)).

Definition BILLING_VAR_REGEX : regex :=
  rseq [rchoice 1 (key <$> BILLING_PRICING_VARS); rspaces; rlit "*"; rspaces; rrun 2 signed_unit].

(** The first coefficient of every variable. *)
Fixpoint coefficient (ms : list captures) (v : ustring) : option number :=
  match ms with
  | [] => None
  | m :: ms' => if ustring_eqb (group 1 m) v then Some (Number_of_run (group 2 m)) else coefficient ms' v
  end.

Definition parseTierBody (bodyStr : ustring) : list (ustring * number) :=
  let ms := exec_from word_boundary BILLING_VAR_REGEX (S (length bodyStr)) None bodyStr in
  (fun v => (default [] (price_field v), cost_or_zero (coefficient ms (key v)))) <$> BILLING_PRICING_VARS.

Definition parseTiersFromExpr (exprStr : ustring) : list ParsedTier :=
  match exprStr with
  | [] => []
  | _ =>
      let body := (stripExprVersion exprStr).2 in
      (fun m => mkParsedTier (group 2 m) (read_conditions (group 1 m)) (parseTierBody (group 3 m)))
        <$> exec_all (CONDITIONAL_TIER (rrun 3 (fun c => negb (c =? chr ")")%Z))) body
  end.
