(* ===== verification/TierExprParsing.v ===== *)
(** * The visual editor of tiered prices: its readers on the texts it writes

    What each regular expression of [features/pricing/lib/tier-expr.ts] takes from the
    text of a tier or of its conditions. *)

From stdpp Require Import base numbers strings option sets list.
From Stdlib Require Import SpecFloat ZArith Lia.
From S2P Require Import Prelude JsNumber Json ExprSyntax ExprTokenizer NumberText Regex TierExpr TierExprParse.
From S2P Require Import TierExprReading.

(** ** Numbers *)

Abbreviation all p s := (Forall (fun c : Z => p c = true) s).

Lemma digits_signed s : all_digits s → all signed_unit s.
Proof. intros Hs. eapply Forall_impl; [exact Hs | ]. intros c Hc. unfold signed_unit. by rewrite Hc. Qed.

Lemma mantissa_signed m : mantissa m → m ≠ [] ∧ all signed_unit m.
Proof.
  destruct 1 as [a Hne Ha | a b Hne Ha Hb | b Hne Hb].
  - split; [done | by apply digits_signed].
  - split; [by destruct a | ]. apply Forall_app_2; [by apply digits_signed | ].
    constructor; [done | by apply digits_signed].
  - split; [done | ]. constructor; [done | by apply digits_signed].
Qed.

Lemma exponent_signed x : exponent x → all signed_unit x.
Proof.
  destruct 1 as [|e sign ds He Hsign Hne Hds]; [constructor | ]. constructor; [by destruct He as [->| ->] | ].
  apply Forall_app_2; [ | by apply digits_signed].
  repeat (apply elem_of_cons in Hsign as [->|Hsign]; [by repeat constructor | ]). by apply not_elem_of_nil in Hsign.
Qed.

Lemma literal_signed s : number_literal s → s ≠ [] ∧ all signed_unit s.
Proof.
  intros (m & x & -> & Hm & Hx). apply mantissa_signed in Hm as [Hne Hm]. split; [by destruct m | ].
  apply Forall_app_2; [done | by apply exponent_signed].
Qed.

Lemma literal_front s : number_literal s →
  match s with [] => False | c :: _ => c ≠ chr "-" ∧ c ≠ chr "+" end.
Proof.
  assert (Hd : ∀ c a, all_digits (c :: a) → c ≠ chr "-" ∧ c ≠ chr "+").
  { intros c a Ha. inversion_clear Ha as [|? ? Hc _]. unfold is_digit in Hc. bools. chr_norm. lia. }
  intros (m & x & -> & Hm & _). destruct Hm as [a Hne Ha | a b Hne Ha Hb | b Hne Hb].
  - destruct a; [done | ]. by eapply Hd.
  - destruct a; [done | ]. by eapply Hd.
  - done.
Qed.

Lemma run_of_literal s : number_literal s → Number_of_run s = Number s.
Proof.
  intros Hs. assert (Hm : match_number s = Some (length s)).
  { rewrite <- (app_nil_r s) at 1. by apply match_number_complete. }
  pose proof (literal_front s Hs) as Hf. unfold Number_of_run. destruct s as [|c s]; [done | ].
  destruct Hf as [H1 H2]. rewrite (proj2 (Z.eqb_neq _ _) H1), (proj2 (Z.eqb_neq _ _) H2).
  by rewrite bool_decide_true.
Qed.

(** ** Terms *)

Definition next_not (p : Z → bool) (rest : ustring) : Prop :=
  match rest with [] => True | c :: _ => p c = false end.

Lemma eats_space_then (s : ustring) rest caps :
  next_not is_space (s ++ rest) → eats rspaces (js " " ++ s ++ rest) caps (s ++ rest) caps.
Proof. intros H. apply (eats_class is_space (js " ")); [by repeat constructor | done]. Qed.

Lemma eats_no_space rest caps : next_not is_space rest → eats rspaces rest caps rest caps.
Proof. intros H. by apply (eats_class is_space []). Qed.

Lemma term_eats v n x rest caps :
  has_text x = true → next_not signed_unit rest →
  eats (TERM v n) (v ++ js " * " ++ Number_toString x ++ rest) caps rest ((n, Number_toString x) :: caps).
Proof.
  intros Hx Hrest. destruct (literal_signed _ (Number_toString_literal x Hx)) as [Hne Hs]. unfold TERM.
  eapply eats_cons; [apply eats_text | ].
  change (js " * ") with (js " " ++ js "*" ++ js " "). rewrite <- !app_assoc.
  eapply eats_cons; [by apply eats_space_then | ]. eapply eats_cons; [apply eats_text | ].
  eapply eats_cons; [apply eats_space_then | apply eats_one; by apply eats_run].
  destruct (Number_toString x) as [|c s]; [done | ]. inversion_clear Hs as [|? ? Hc _].
  unfold next_not. cbn [app]. unfold signed_unit, is_digit, one_of in Hc. unfold is_space.
  apply orb_true_iff in Hc as [Hc|Hc]; bools; chr_norm.
  - rewrite !bool_decide_false by lia.
    repeat match goal with |- context [(?a =? ?b)%Z] => destruct (Z.eqb_spec a b); [lia | ] end. done.
  - change (js ".eE+-") with [46; 101; 69; 43; 45]%Z in Hc.
    repeat (apply elem_of_cons in Hc as [->|Hc]; [done | ]). by apply not_elem_of_nil in Hc.
Qed.

Lemma plus_eats v n x rest caps :
  has_text x = true → next_not signed_unit rest → next_not is_space v → v ≠ [] →
  eats (rseq [PLUS; TERM v n]) (js " + " ++ v ++ js " * " ++ Number_toString x ++ rest) caps rest
    ((n, Number_toString x) :: caps).
Proof.
  intros Hx Hrest Hv Hne. eapply eats_cons; [ | by apply eats_one, term_eats]. unfold PLUS.
  change (js " + ") with (js " " ++ js "+" ++ js " "). rewrite <- !app_assoc.
  eapply eats_cons; [by apply eats_space_then | ]. eapply eats_cons; [apply eats_text | ].
  apply eats_one, eats_space_then. by destruct v.
Qed.

(** A term of another variable is not taken for one of [v]: the texts differ, or the other
    name goes on. *)
Definition clash (v w : ustring) : bool :=
  match v, w with
  | a :: _, b :: _ => negb (is_space a) && negb (is_space b)
  | _, _ => false
  end &&
  if starts_with v w then
    match drop (length v) w with [] => false | c :: _ => negb (is_space c) && negb (c =? chr "*")%Z end
  else (length v <=? length w) || negb (starts_with w v).

Lemma starts_with_longer v w rest :
  starts_with v w = false → (length v <=? length w) || negb (starts_with w v) = true →
  starts_with v (w ++ rest) = false.
Proof.
  revert w. induction v as [|a v IH]; intros [|b w]; [done | done | done | ]. cbn [starts_with app length].
  rewrite (Z.eqb_sym b a). destruct (a =? b)%Z; [ | done]. cbn [andb]. intros H1 H2. by apply IH.
Qed.

Lemma clash_fails v w n rest caps :
  clash v w = true → fails (rseq [PLUS; TERM v n]) (js " + " ++ w ++ js " * " ++ rest) caps.
Proof.
  unfold clash. destruct v as [|a v'] eqn:Ev; [done | ]. destruct w as [|b w'] eqn:Ew; [done | ].
  rewrite <- Ev, <- Ew. intros H A k. bools. rewrite rseq_cons. unfold PLUS. rewrite rseq_cons.
  change (js " + " ++ w ++ js " * " ++ rest) with (js " " ++ (js "+" ++ js " " ++ w ++ js " * " ++ rest)).
  unfold rspaces at 1. rewrite matches_star_class; [ | by repeat constructor | done | by apply refuses_text].
  rewrite rseq_cons. unfold rlit. rewrite matches_text_app, rseq_cons. unfold rspaces at 1.
  assert (Hsp : refuses is_space (fun t caps => matches (rseq []) t caps (fun t0 c => matches (rseq [TERM v n]) t0 c k))).
  { intros c t caps' Hc. change (matches (rseq [TERM v n]) (c :: t) caps' k = None). rewrite rseq_cons.
    unfold TERM. rewrite rseq_cons, Ev. by rewrite (refuses_text is_space a v'). }
  rewrite matches_star_class; [ | by repeat constructor | by rewrite Ew | exact Hsp].
  change (matches (rseq [TERM v n]) (w ++ js " * " ++ rest) caps k = None).
  rewrite rseq_cons. unfold TERM. rewrite rseq_cons, matches_text.
  destruct (starts_with v w) eqn:Es.
  - apply starts_with_spec in Es. destruct (drop (length v) w) as [|c u]; [done | ]. bools. rewrite Es.
    rewrite <- app_assoc, starts_with_app, drop_app_length, rseq_cons. cbn [app].
    unfold rspaces. rewrite matches_star_none; [ | done | by apply refuses_text].
    rewrite rseq_cons. unfold rlit. rewrite matches_text. change (js "*") with [42%Z]. cbn [starts_with].
    rewrite (proj2 (Z.eqb_neq 42 c)) by (chr_norm; lia). done.
  - by rewrite starts_with_longer.
Qed.

Lemma no_term v n rest caps : fails (rseq [PLUS; TERM v n]) (js ")" ++ rest) caps.
Proof. intros A k. reflexivity. Qed.

Definition cache_vars : list ustring := BILLING_CACHE_VAR_MAP.*1.

Fixpoint clash_all (vars : list ustring) : bool :=
  match vars with [] => true | v :: vars' => forallb (clash v) vars' && clash_all vars' end.

Lemma cache_vars_clash : clash_all cache_vars = true.
Proof. vm_compute. reflexivity. Qed.

(** ** Bodies *)

Abbreviation priced := (fun t : ustring * number => num_eqb t.2 zero = false).

Definition terms_tail (vps : list (ustring * number)) : ustring :=
  concat ((fun t => js " + " ++ term_text t) <$> filter priced vps).

(** The captures of the optional terms that are present. *)
Fixpoint optional_caps (vps : list (ustring * number)) (n : nat) (caps : captures) : captures :=
  match vps with
  | [] => caps
  | t :: vps' =>
      optional_caps vps' (S n)
        (if num_eqb t.2 zero then caps else (n, Number_toString t.2) :: caps)
  end.

Definition variable_front (v : ustring) : bool :=
  match v with [] => false | c :: _ => negb (is_space c) end.

Lemma tail_next vps rest : next_not signed_unit (terms_tail vps ++ js ")" ++ rest).
Proof. unfold terms_tail. by destruct (filter priced vps). Qed.

Lemma tail_fails v vps n rest caps :
  forallb (clash v) (vps.*1) = true → fails (rseq [PLUS; TERM v n]) (terms_tail vps ++ js ")" ++ rest) caps.
Proof.
  intros Hv. unfold terms_tail. destruct (filter priced vps) as [|t ts] eqn:E; [apply no_term | ].
  rewrite fmap_cons. cbn [concat]. unfold term_text. rewrite <- !app_assoc. apply clash_fails.
  assert (Ht : t ∈ vps) by (assert (t ∈ filter priced vps) as H by (rewrite E; left); by apply list_elem_of_filter in H as [_ H]).
  rewrite forallb_forall in Hv. apply Hv, list_elem_of_In. by apply list_elem_of_fmap_2.
Qed.

Lemma optional_eats vps n rest caps :
  clash_all (vps.*1) = true → forallb variable_front (vps.*1) = true →
  Forall (fun t => num_eqb t.2 zero = false → has_text t.2 = true) vps →
  eats (OPTIONAL_TERMS (vps.*1) n) (terms_tail vps ++ js ")" ++ rest) caps (js ")" ++ rest) (optional_caps vps n caps).
Proof.
  revert n caps. induction vps as [|[v x] vps IH]; intros n caps Hc Hv Hx; [by intros A k a Hk | ].
  rewrite fmap_cons in *. cbn [clash_all forallb fst OPTIONAL_TERMS] in *. bools. inversion_clear Hx as [|? ? Hx1 Hx2].
  cbn [snd] in Hx1. cbn [optional_caps snd]. destruct (num_eqb x zero) eqn:Ez.
  - assert (Et : terms_tail ((v, x) :: vps) = terms_tail vps).
    { unfold terms_tail. rewrite filter_cons_False; [done | ]. simpl. by rewrite Ez. }
    rewrite Et. eapply eats_seq; [by apply eats_skip, tail_fails | by apply IH].
  - assert (Et : terms_tail ((v, x) :: vps) = js " + " ++ v ++ js " * " ++ Number_toString x ++ terms_tail vps).
    { unfold terms_tail. rewrite filter_cons_True by done. rewrite fmap_cons. cbn [concat]. unfold term_text.
      cbn [fst snd]. by rewrite <- !app_assoc. }
    rewrite Et, <- !app_assoc. eapply eats_seq; [ | by apply IH].
    apply eats_opt, plus_eats; [auto | apply tail_next | | ]; destruct v as [|c v]; try done.
    cbn [variable_front] in *. simpl. by bools.
Qed.

(** What a tier captures from group [n] on: the two base prices and the optional ones. *)
Definition cache_prices (tier : VisualTier) : list (ustring * number) :=
  (fun cv : ustring * ustring => (cv.1, cost_or_zero (tier_field tier cv.2))) <$> BILLING_CACHE_VAR_MAP.

Definition body_caps (tier : VisualTier) (n : nat) (caps : captures) : captures :=
  optional_caps (cache_prices tier) (S (S n))
    ((S n, Number_toString (cost_or_zero (Some (output_unit_cost tier)))) ::
     (n, Number_toString (cost_or_zero (Some (input_unit_cost tier)))) :: caps).

Lemma join_concat_tail sep w ws : join sep (w :: ws) = w ++ concat ((fun x => sep ++ x) <$> ws).
Proof.
  revert w. induction ws as [|w' ws IH]; intros w; [by rewrite app_nil_r | ].
  change (join sep (w :: w' :: ws)) with (w ++ sep ++ join sep (w' :: ws)). rewrite IH, fmap_cons. cbn [concat].
  by rewrite <- app_assoc.
Qed.

Lemma body_text tier :
  buildTierBodyExpr tier =
    js "p" ++ js " * " ++ Number_toString (cost_or_zero (Some (input_unit_cost tier))) ++
    js " + " ++ js "c" ++ js " * " ++ Number_toString (cost_or_zero (Some (output_unit_cost tier))) ++
    terms_tail (cache_prices tier).
Proof.
  unfold buildTierBodyExpr. with_strategy transparent [tier_terms] unfold tier_terms.
  rewrite !fmap_cons, join_concat_tail, fmap_cons. cbn [concat]. unfold terms_tail, term_text. cbn [fst snd].
  rewrite <- list_fmap_compose. rewrite <- !app_assoc. done.
Qed.

Lemma prices_have_text tier t :
  forallb term_ok (tier_terms tier) = true → t ∈ tier_terms tier → has_text t.2 = true.
Proof.
  intros H Ht. rewrite forallb_forall in H. apply list_elem_of_In in Ht. apply H in Ht. unfold term_ok in Ht. by bools.
Qed.

Lemma body_eats tier n rest caps :
  forallb term_ok (tier_terms tier) = true →
  eats (BODY n) (buildTierBodyExpr tier ++ js ")" ++ rest) caps (js ")" ++ rest) (body_caps tier n caps).
Proof.
  intros Hok. rewrite body_text, <- !app_assoc. unfold BODY, body_caps.
  assert (Hin : ∀ t, t ∈ tier_terms tier → has_text t.2 = true) by (intros t; by apply prices_have_text).
  with_strategy transparent [tier_terms] unfold tier_terms in Hin.
  pose proof (Hin (js "p", cost_or_zero (Some (input_unit_cost tier))) ltac:(left)) as Hp.
  pose proof (Hin (js "c", cost_or_zero (Some (output_unit_cost tier))) ltac:(right; left)) as Hc.
  eapply eats_cons; [by apply term_eats | ].
  eapply eats_cons; [ | eapply eats_cons; [apply (term_eats _ _ _ _ _ Hc), tail_next | ]].
  - unfold PLUS. change (js " + ") with (js " " ++ js "+" ++ js " "). rewrite <- !app_assoc.
    eapply eats_cons; [by apply eats_space_then | ]. eapply eats_cons; [apply eats_text | ].
    apply eats_one. by apply (eats_space_then (js "c")).
  - apply eats_one. assert (Ek : BILLING_CACHE_VAR_MAP.*1 = (cache_prices tier).*1) by done. rewrite Ek.
    apply optional_eats; [exact cache_vars_clash | vm_compute; reflexivity | ].
    apply Forall_forall. intros t Ht Hz. apply Hin. right. right. by apply list_elem_of_filter.
Qed.

(** ** Calls *)

Lemma label_units name : plain_label name = true → all not_dquote name.
Proof.
  unfold plain_label. intros [H _]%andb_true_iff. apply Forall_forall. intros c Hc. rewrite forallb_forall in H.
  apply list_elem_of_In in Hc. apply H in Hc. unfold not_dquote. bools. by apply negb_true_iff, Z.eqb_neq.
Qed.

Lemma call_eats n name tier rest caps :
  plain_label name = true → forallb term_ok (tier_terms tier) = true →
  eats (TIER_CALL n (BODY (S n))) (tier_text name tier ++ rest) caps rest (body_caps tier (S n) ((n, name) :: caps)).
Proof.
  intros Hn Hok. apply label_units in Hn. unfold TIER_CALL, tier_text. rewrite <- !app_assoc.
  eapply eats_cons; [apply eats_text | ]. eapply eats_cons; [apply eats_text | ].
  eapply eats_cons; [by apply eats_group, eats_class | ]. eapply eats_cons; [apply eats_text | ].
  change (js ", ") with (js "," ++ js " "). rewrite <- !app_assoc. eapply eats_cons; [apply eats_text | ].
  eapply eats_cons; [apply eats_space_then | ].
  - by rewrite body_text.
  - eapply eats_cons; [by apply body_eats | ]. apply eats_one, eats_text.
Qed.

(** ** Conditions *)

Definition bound_text (c : TierConditionInput) : ustring := condition_value_text (condition_value c).

(** A condition the editor reads back as it is: its bound is written the way numbers are
    printed, and has no minus sign. *)
Definition condition_canonical (c : TierConditionInput) : bool :=
  condition_valid c && ustring_eqb (Number_toString (Number (bound_text c))) (bound_text c) &&
  negb (bool_decide (chr "-" ∈ bound_text c)).

Lemma condition_literal c : condition_valid c = true → number_literal (bound_text c).
Proof.
  unfold condition_valid, bound_text. intros [_ H]%andb_true_iff. destruct (condition_value c) as [x|s|]; [ | | done].
  - by apply Number_toString_literal.
  - bools. destruct (match_number_sound s (length s)) as [_ Hl]; [done | ]. by rewrite firstn_all in Hl.
Qed.

Lemma condition_words c :
  condition_valid c = true → condition_var c ∈ CONDITION_VARS ∧ condition_op c ∈ CONDITION_OPS.
Proof.
  unfold condition_valid. intros [H _]%andb_true_iff. bools. split; [done | ].
  match goal with H : is_Some _ |- _ => destruct H as [o Ho] end. apply op_of_text in Ho as [-> Ho].
  repeat (apply elem_of_cons in Ho as [->|Ho]; [by apply (bool_decide_unpack _) | ]). by apply not_elem_of_nil in Ho.
Qed.

Lemma bound_units s : number_literal s → chr "-" ∉ s → s ≠ [] ∧ all bound_unit s.
Proof.
  intros Hs Hm. destruct (literal_signed s Hs) as [Hne Hsig]. split; [done | ].
  apply Forall_forall. intros d Hd. rewrite Forall_forall in Hsig. specialize (Hsig d Hd).
  unfold signed_unit, bound_unit, one_of in *. apply orb_true_iff in Hsig as [-> | Hsig]; [done | ]. bools.
  rewrite bool_decide_true; [apply orb_true_r | ].
  change (js ".eE+-") with ([46; 101; 69; 43] ++ [45])%Z in Hsig. apply elem_of_app in Hsig as [Hin|Hin]; [done | ].
  apply list_elem_of_singleton in Hin. by subst d.
Qed.

Lemma canonical_valid c :
  condition_canonical c = true →
  condition_valid c = true ∧ Number_toString (Number (bound_text c)) = bound_text c ∧ chr "-" ∉ bound_text c.
Proof. unfold condition_canonical. intros H. bools. tauto. Qed.

(** The front of what follows an operator. *)
Lemma op_words op rest caps {A} (k : ustring → captures → option A) :
  op ∈ CONDITION_OPS → (∀ t caps, k (61%Z :: t) caps = None) →
  matches (rwords CONDITION_OPS) (op ++ js " " ++ rest) caps k = k (js " " ++ rest) caps.
Proof.
  intros Hop Hk. unfold CONDITION_OPS in *.
  set (after := js " " ++ rest).
  assert (Hone : match k after caps with Some a => Some a | None => None end = k after caps) by (by destruct (k after caps)).
  assert (Htwo : match k (61%Z :: after) caps with Some a => Some a | None =>
                   match k after caps with Some a => Some a | None => None end end = k after caps) by (by rewrite Hk).
  assert (Hlast : match k (61%Z :: after) caps with Some a => Some a | None => k after caps end = k after caps)
    by (by rewrite Hk).
  repeat (apply elem_of_cons in Hop as [->|Hop]; [ | ]); [.. | by apply not_elem_of_nil in Hop];
    rewrite !matches_words_cons; cbn [rwords]; rewrite !matches_text;
    [exact Hone | exact Htwo | exact Hone | exact Hlast].
Qed.

Lemma var_words w rest : w ∈ CONDITION_VARS →
  ∀ w', w' ∈ CONDITION_VARS → w' ≠ w → starts_with w' (w ++ js " " ++ rest) = false.
Proof.
  unfold CONDITION_VARS. intros Hw w' Hw'.
  repeat (apply elem_of_cons in Hw as [->|Hw]; [repeat (apply elem_of_cons in Hw' as [->|Hw']; [done | ]); by apply not_elem_of_nil in Hw' | ]).
  by apply not_elem_of_nil in Hw.
Qed.

Lemma condition_text_parts c rest :
  condition_text c ++ rest = condition_var c ++ js " " ++ condition_op c ++ js " " ++ bound_text c ++ rest.
Proof. unfold condition_text, bound_text. by rewrite <- !app_assoc. Qed.

Lemma op_front op rest : op ∈ CONDITION_OPS → next_not is_space (op ++ rest).
Proof.
  unfold CONDITION_OPS. intros Hop. repeat (apply elem_of_cons in Hop as [->|Hop]; [done | ]). by apply not_elem_of_nil in Hop.
Qed.

Lemma bound_not_space c : bound_unit c = true → is_space c = false.
Proof.
  unfold bound_unit, is_digit, one_of, is_space. intros Hc. apply orb_true_iff in Hc as [Hc|Hc]; bools; chr_norm.
  - rewrite !bool_decide_false by lia.
    repeat match goal with |- context [(?a =? ?b)%Z] => destruct (Z.eqb_spec a b); [lia | ] end. done.
  - change (js ".eE+") with [46; 101; 69; 43]%Z in Hc.
    repeat (apply elem_of_cons in Hc as [->|Hc]; [done | ]). by apply not_elem_of_nil in Hc.
Qed.

Lemma bound_front s rest : s ≠ [] → all bound_unit s → next_not is_space (s ++ rest).
Proof. intros Hne Hs. destruct Hs as [|c s Hc _]; [done | ]. by apply bound_not_space. Qed.

Section condition.
  Context (c : TierConditionInput) (Hc : condition_canonical c = true).

Lemma condition_eats rest caps : next_not bound_unit rest → eats CONDITION (condition_text c ++ rest) caps rest caps.
Proof using Hc.
  intros Hrest A k a Hk. destruct (canonical_valid c Hc) as (Hv & _ & Hm). destruct (condition_words c Hv) as [Hvar Hop].
  destruct (bound_units _ (condition_literal c Hv) Hm) as [Hne Hb].
  rewrite condition_text_parts. unfold CONDITION. rewrite rseq_cons.
  rewrite matches_words by (done || by apply var_words). rewrite rseq_cons.
  apply eats_space_then; [by apply op_front | ]. rewrite rseq_cons, op_words; [ | done | by intros].
  rewrite rseq_cons. apply eats_space_then; [by apply bound_front | ]. rewrite rseq_cons. by apply eats_plus.
Qed.

Lemma condition_parts_eats :
  match_all CONDITION_PARTS (condition_text c) =
    Some [(3, bound_text c); (2, condition_op c); (1, condition_var c)].
Proof using Hc.
  destruct (canonical_valid c Hc) as (Hv & _ & Hm). destruct (condition_words c Hv) as [Hvar Hop].
  destruct (bound_units _ (condition_literal c Hv) Hm) as [Hne Hb].
  rewrite <- (app_nil_r (condition_text c)), condition_text_parts. unfold match_all, CONDITION_PARTS. rewrite rseq_cons.
  rewrite matches_choice by (done || by apply var_words). rewrite rseq_cons.
  apply eats_space_then; [by apply op_front | ]. rewrite rseq_cons. unfold rchoice. cbn [matches].
  rewrite op_words; [ | done | by intros]. rewrite take_run.
  rewrite rseq_cons. apply eats_space_then; [by apply bound_front | ]. rewrite rseq_cons. by apply eats_run.
Qed.
End condition.

(** ** Several conditions *)

Definition conditions_text (cs : list TierConditionInput) : ustring := join (js " && ") (condition_text <$> cs).

Lemma var_front w rest : w ∈ CONDITION_VARS → next_not is_space (w ++ rest).
Proof.
  unfold CONDITION_VARS. intros Hw. repeat (apply elem_of_cons in Hw as [->|Hw]; [done | ]). by apply not_elem_of_nil in Hw.
Qed.

Lemma condition_front c rest : condition_canonical c = true → next_not is_space (condition_text c ++ rest).
Proof.
  intros Hc. destruct (canonical_valid c Hc) as (Hv & _). destruct (condition_words c Hv) as [Hvar _].
  rewrite condition_text_parts. by apply var_front.
Qed.

Lemma and_eats c rest caps :
  condition_canonical c = true → eats AND (js " && " ++ condition_text c ++ rest) caps (condition_text c ++ rest) caps.
Proof.
  intros Hc. unfold AND. change (js " && ") with (js " " ++ js "&&" ++ js " "). rewrite <- !app_assoc.
  eapply eats_cons; [by apply eats_space_then | ]. eapply eats_cons; [apply eats_text | ].
  apply eats_one, eats_space_then. by apply condition_front.
Qed.

Lemma and_tail_next (texts : list ustring) rest :
  next_not bound_unit (concat ((fun x => js " && " ++ x) <$> texts) ++ js " ? " ++ rest).
Proof. by destruct texts. Qed.

Lemma and_loops cs rest caps :
  forallb condition_canonical cs = true →
  loops (rseq [AND; CONDITION])
    (concat ((fun x => js " && " ++ x) <$> (condition_text <$> cs)) ++ js " ? " ++ rest) caps (js " ? " ++ rest) caps.
Proof.
  induction cs as [|c cs IH]; intros Hcs.
  - apply loops_stop. intros A k. rewrite rseq_cons. unfold AND. rewrite rseq_cons. unfold rspaces.
    cbn [fmap list_fmap concat app]. change (js " ? " ++ rest) with (js " " ++ (js "? " ++ rest)).
    rewrite matches_star_class; [done | by repeat constructor | done | by apply refuses_text].
  - cbn [forallb] in Hcs. bools. rewrite !fmap_cons. cbn [concat]. rewrite <- !app_assoc.
    eapply loops_step; [ | | by apply IH].
    + eapply eats_cons; [by apply and_eats | ]. apply eats_one. apply condition_eats; [done | apply and_tail_next].
    + rewrite (length_app (js " && ")), (length_app (condition_text c)). change (length (js " && ")) with 4. lia.
Qed.

Lemma group_eats n cs rest caps :
  cs ≠ [] → forallb condition_canonical cs = true →
  eats (CONDITION_GROUP n) (conditions_text cs ++ js " ? " ++ rest) caps (js " ? " ++ rest) ((n, conditions_text cs) :: caps).
Proof.
  intros Hne Hcs. apply eats_group. unfold conditions_text. destruct cs as [|c cs]; [done | ].
  cbn [forallb] in Hcs. bools. rewrite fmap_cons, join_concat_tail, <- app_assoc.
  eapply eats_cons; [apply condition_eats; [done | apply and_tail_next] | ].
  by apply eats_one, eats_star, and_loops.
Qed.

(** ** Splitting the conditions *)

Lemma and_fails v rest :
  chr "&" ∉ v → (∃ d, last v = Some d ∧ is_space d = false) → match_here AND (v ++ rest) = None.
Proof.
  intros Hamp (d & Hlast & Hd). apply fails_here. intros A k.
  assert (Hsplit : v = take_while is_space v ++ drop_while is_space v) by (symmetry; apply take_drop_while).
  destruct (drop_while is_space v) as [|e w] eqn:E.
  { exfalso. rewrite app_nil_r in Hsplit. pose proof (take_while_Forall is_space v) as Ht. rewrite <- Hsplit in Ht.
    apply last_Some in Hlast as [v' ->]. rewrite Forall_app in Ht. destruct Ht as [_ Ht]. inversion Ht. congruence. }
  assert (He : is_space e = false).
  { clear -E. revert E. induction v as [|c v IH]; simpl; [done | ]. destruct (is_space c) eqn:Ec; [exact IH | ].
    by intros [= -> _]. }
  rewrite Hsplit, <- app_assoc. unfold AND. rewrite rseq_cons. unfold rspaces.
  rewrite matches_star_class; [ | apply take_while_Forall | done | by apply refuses_text].
  rewrite rseq_cons. unfold rlit. rewrite matches_text. change (js "&&") with [38; 38]%Z. cbn [app starts_with].
  destruct (Z.eqb_spec 38 e) as [<-|]; [ | done]. exfalso. apply Hamp. rewrite Hsplit. apply elem_of_app. right. left.
Qed.

Lemma split_run u rest cur fuel :
  chr "&" ∉ u → (∃ d, last u = Some d ∧ is_space d = false) ∨ u = [] →
  split_from AND (length u + fuel) cur (u ++ rest) = split_from AND fuel (reverse u ++ cur) rest.
Proof.
  revert cur. induction u as [|c u IH]; intros cur Hamp Hlast; [done | ].
  cbn [length Nat.add split_from app]. destruct Hlast as [Hlast | ]; [ | done].
  assert (Hf : match_here AND (c :: u ++ rest) = None) by (by apply (and_fails (c :: u) rest)). rewrite Hf, IH.
  - by rewrite reverse_cons, <- app_assoc.
  - set_solver.
  - destruct u as [|c' u]; [by right | left]. exact Hlast.
Qed.

Lemma condition_clean c :
  condition_canonical c = true → (chr "&" ∉ condition_text c) ∧ (∃ d, last (condition_text c) = Some d ∧ is_space d = false).
Proof.
  intros Hc. destruct (canonical_valid c Hc) as (Hv & _ & Hm). destruct (condition_words c Hv) as [Hvar Hop].
  destruct (bound_units _ (condition_literal c Hv) Hm) as [Hne Hb].
  rewrite <- (app_nil_r (condition_text c)), condition_text_parts, app_nil_r. split.
  - rewrite !elem_of_app. intros [H|[H|[H|[H|H]]]].
    + unfold CONDITION_VARS in Hvar.
      repeat (apply elem_of_cons in Hvar as [Hvar|Hvar]; [rewrite Hvar in H; by pose proof (bool_decide_eq_true_2 _ H) | ]).
      by apply not_elem_of_nil in Hvar.
    + by pose proof (bool_decide_eq_true_2 _ H).
    + unfold CONDITION_OPS in Hop.
      repeat (apply elem_of_cons in Hop as [Hop|Hop]; [rewrite Hop in H; by pose proof (bool_decide_eq_true_2 _ H) | ]).
      by apply not_elem_of_nil in Hop.
    + by pose proof (bool_decide_eq_true_2 _ H).
    + rewrite Forall_forall in Hb. by apply Hb in H.
  - destruct (last (bound_text c)) as [d|] eqn:El; [ | by apply last_None in El]. exists d.
    rewrite !app_assoc, last_app, El. split; [done | ]. apply bound_not_space.
    apply last_Some in El as [s' E]. rewrite E, Forall_app in Hb. destruct Hb as [_ Hb]. by inversion Hb.
Qed.

Lemma split_conditions cs :
  cs ≠ [] → forallb condition_canonical cs = true → split_regex AND (conditions_text cs) = condition_text <$> cs.
Proof.
  intros Hne Hcs. unfold split_regex, conditions_text.
  assert (H : ∀ fuel, length (join (js " && ") (condition_text <$> cs)) < fuel →
            split_from AND fuel [] (join (js " && ") (condition_text <$> cs)) = condition_text <$> cs);
    [ | apply H; lia].
  induction cs as [|c cs IH]; [done | ]. intros fuel Hf. cbn [forallb] in Hcs. bools.
  destruct (condition_clean c) as [Hamp Hlast]; [done | ]. destruct cs as [|c' cs].
  - cbn [fmap list_fmap join] in *. replace fuel with (length (condition_text c) + (fuel - length (condition_text c))) by lia.
    pose proof (split_run (condition_text c) [] [] (fuel - length (condition_text c)) Hamp (or_introl Hlast)) as Hr.
    rewrite !app_nil_r in Hr. rewrite Hr. destruct (fuel - length (condition_text c)) as [|f] eqn:Ef; [lia | ].
    cbn [split_from]. change (match_here AND []) with (@None (ustring * captures)). by rewrite reverse_involutive.
  - rewrite !fmap_cons in *. set (tail := join (js " && ") (condition_text c' :: (condition_text <$> cs))) in *.
    change (join (js " && ") (condition_text c :: condition_text c' :: (condition_text <$> cs)))
      with (condition_text c ++ js " && " ++ tail) in *.
    rewrite !length_app in Hf. change (length (js " && ")) with 4 in Hf.
    replace fuel with (length (condition_text c) + (fuel - length (condition_text c))) by lia.
    rewrite split_run by auto. destruct (fuel - length (condition_text c)) as [|f] eqn:Ef; [lia | ].
    cbn [split_from]. assert (Hand : match_here AND (js " && " ++ tail) = Some (tail, [])).
    { apply eats_here. unfold tail. rewrite join_concat_tail. apply and_eats. cbn [forallb] in *. by bools. }
    rewrite Hand, app_nil_r, reverse_involutive. f_equal. apply IH; [done | done | lia].
Qed.
