(* ===== verification/TierExprRoundTrip.v ===== *)
(** * The visual editor of tiered prices: its text is read back

    A configuration written by the editor of [features/pricing/lib/tier-expr.ts] is the one
    its reader shows again, and what the reader accepts it would write the same way. *)

From stdpp Require Import base numbers strings option sets list.
From Stdlib Require Import SpecFloat ZArith Lia.
From S2P Require Import Prelude JsNumber Json ExprSyntax ExprTokenizer NumberText Regex TierExpr TierExprParse.
From S2P Require Import TierExprReading TierExprParsing TierExprPricing.

(** ** Prices *)

Lemma cost_idempotent x : cost_or_zero (Some (cost_or_zero x)) = cost_or_zero x.
Proof.
  destruct x as [n|]; [ | done]. unfold cost_or_zero. destruct (num_eqb n zero || is_nan n) eqn:E; [done | ]. by rewrite E.
Qed.

Lemma captured_below vps n i caps : i < n → captured i (optional_caps vps n caps) = captured i caps.
Proof.
  revert n caps. induction vps as [|t vps IH]; intros n caps Hi; [done | ]. cbn [optional_caps]. rewrite IH by lia.
  destruct (num_eqb t.2 zero); [done | ]. cbn [captured]. by rewrite (proj2 (Nat.eqb_neq n i)) by lia.
Qed.

Lemma price_read x : has_text x = true → Number_of_run (Number_toString x) = x.
Proof. intros Hx. rewrite run_of_literal by (by apply Number_toString_literal). by apply Number_toString_reads. Qed.

(** The optional price of a field is read as the price of the tier. *)
Lemma optional_price_read tier (vars : list (ustring * ustring)) n field caps :
  (∀ i, n ≤ i → captured i caps = None) → field ∈ vars.*2 →
  (∀ cv, cv ∈ vars → num_eqb (cost_or_zero (tier_field tier cv.2)) zero = false →
         has_text (cost_or_zero (tier_field tier cv.2)) = true) →
  cost_or_zero (optional_price vars n field
    (optional_caps ((fun cv : ustring * ustring => (cv.1, cost_or_zero (tier_field tier cv.2))) <$> vars) n caps)) =
  cost_or_zero (tier_field tier field).
Proof.
  revert n caps. induction vars as [|cv vars IH]; intros n caps Hcaps Hin Hx; [by apply not_elem_of_nil in Hin | ].
  rewrite fmap_cons. cbn [optional_price optional_caps snd].
  assert (Hcaps' : ∀ i, S n ≤ i → captured i (if num_eqb (cost_or_zero (tier_field tier cv.2)) zero then caps
             else (n, Number_toString (cost_or_zero (tier_field tier cv.2))) :: caps) = None).
  { intros i Hi. destruct (num_eqb _ _); [apply Hcaps; lia | ]. cbn [captured].
    rewrite (proj2 (Nat.eqb_neq n i)) by lia. apply Hcaps. lia. }
  destruct (ustring_eqb cv.2 field) eqn:Ef.
  - apply bool_decide_eq_true in Ef. subst field. rewrite captured_below by lia.
    destruct (num_eqb (cost_or_zero (tier_field tier cv.2)) zero) eqn:Ez.
    + rewrite (Hcaps n) by lia. unfold cost_or_zero in *. destruct (tier_field tier cv.2) as [x|]; [ | done].
      destruct (num_eqb x zero || is_nan x) eqn:E; [done | ]. by rewrite Ez in E.
    + cbn [captured]. rewrite Nat.eqb_refl. cbn [fmap option_fmap option_map].
      rewrite price_read by (apply Hx; [left | exact Ez]). apply cost_idempotent.
  - apply IH; [exact Hcaps' | | intros cv' Hcv'; apply Hx; by right].
    rewrite fmap_cons in Hin. apply elem_of_cons in Hin as [->|Hin]; [ | done].
    apply bool_decide_eq_false in Ef. done.
Qed.

(** ** What the reader shows *)

Definition shown_condition (c : TierConditionInput) : TierConditionInput :=
  mkConditionInput (condition_var c) (condition_op c) (ValueNumber (Number (bound_text c))).

Definition shown_tier (name : ustring) (conds : list TierConditionInput) (tier : VisualTier) : VisualTier :=
  let price x := Some (cost_or_zero x) in
  {| label := name; conditions := conds;
     input_unit_cost := cost_or_zero (Some (input_unit_cost tier));
     output_unit_cost := cost_or_zero (Some (output_unit_cost tier));
     cache_mode := if num_ltb zero (cost_or_zero (cache_create_1h_unit_cost tier))
                   then CACHE_MODE_TIMED else CACHE_MODE_GENERIC;
     cache_read_unit_cost := price (cache_read_unit_cost tier);
     cache_create_unit_cost := price (cache_create_unit_cost tier);
     cache_create_1h_unit_cost := price (cache_create_1h_unit_cost tier);
     image_unit_cost := price (image_unit_cost tier);
     image_output_unit_cost := price (image_output_unit_cost tier);
     audio_input_unit_cost := price (audio_input_unit_cost tier);
     audio_output_unit_cost := price (audio_output_unit_cost tier) |}.

Lemma mode_of_price (p : option number) (q : number) :
  cost_or_zero p = q →
  match p with Some n => if num_ltb zero n then CACHE_MODE_TIMED else CACHE_MODE_GENERIC | None => CACHE_MODE_GENERIC end =
  if num_ltb zero q then CACHE_MODE_TIMED else CACHE_MODE_GENERIC.
Proof.
  intros <-. destruct p as [n|]; [ | done]. unfold cost_or_zero.
  destruct (num_eqb n zero) eqn:Ez; cbn [orb].
  - assert (Hz : num_ltb zero n = false); [ | by rewrite Hz].
    destruct n as [s|s| |s m e]; [done | by destruct s | done | by destruct s].
  - destruct (is_nan n) eqn:En; [ | done]. by destruct n.
Qed.

Lemma read_tier_shown n conds name tier caps :
  forallb term_ok (tier_terms tier) = true → (∀ i, n ≤ i → captured i caps = None) →
  read_tier conds n (body_caps tier (S n) ((n, name) :: caps)) = shown_tier name conds tier.
Proof.
  intros Hok Hcaps. unfold body_caps. set (base := (_, _) :: _).
  assert (Hin : ∀ t, t ∈ tier_terms tier → has_text t.2 = true) by (intros t; by apply prices_have_text).
  with_strategy transparent [tier_terms] unfold tier_terms in Hin.
  assert (Hg : ∀ i, i < S (S (S n)) → group i (optional_caps (cache_prices tier) (S (S (S n))) base) = group i base).
  { intros i Hi. unfold group. by rewrite captured_below. }
  assert (Hp : ∀ field, field ∈ (BILLING_CACHE_VAR_MAP).*2 →
     cost_or_zero (optional_price BILLING_CACHE_VAR_MAP (S (S (S n))) field
       (optional_caps (cache_prices tier) (S (S (S n))) base)) = cost_or_zero (tier_field tier field)).
  { intros field Hf. apply optional_price_read; [ | done | ].
    - intros i Hi. unfold base. cbn [captured]. rewrite !(proj2 (Nat.eqb_neq _ i)) by lia. apply Hcaps. lia.
    - intros cv Hcv Hz. apply (Hin (cv.1, cost_or_zero (tier_field tier cv.2))). right. right.
      apply list_elem_of_filter. split; [done | ].
      by apply (list_elem_of_fmap_2 (fun cv : ustring * ustring => (cv.1, cost_or_zero (tier_field tier cv.2)))). }
  assert (H0 : group n base = name) by (unfold base, group; cbn [captured]; rewrite !(proj2 (Nat.eqb_neq _ n)), Nat.eqb_refl by lia; done).
  assert (H1 : group (S n) base = Number_toString (cost_or_zero (Some (input_unit_cost tier)))).
  { unfold base, group. cbn [captured]. rewrite (proj2 (Nat.eqb_neq _ (S n))), Nat.eqb_refl by lia. done. }
  assert (H2 : group (S (S n)) base = Number_toString (cost_or_zero (Some (output_unit_cost tier)))).
  { unfold base, group. cbn [captured]. by rewrite Nat.eqb_refl. }
  unfold read_tier. rewrite !Nat.add_1_r, Nat.add_comm, (Nat.add_comm n 3). cbn [Nat.add].
  rewrite !Hg, H0, H1, H2 by lia.
  rewrite (price_read (cost_or_zero (Some (input_unit_cost tier)))) by (apply (Hin (js "p", _)); left).
  rewrite (price_read (cost_or_zero (Some (output_unit_cost tier)))) by (apply (Hin (js "c", _)); right; left).
  unfold normalizeVisualTier, getTierCacheMode, shown_tier.
  cbn [partial_label partial_conditions partial_input partial_output partial_mode partial_cache_read
    partial_cache_create partial_cache_create_1h partial_image partial_image_output partial_audio_input
    partial_audio_output default].
  rewrite (mode_of_price _ _ (Hp (js "cache_create_1h_unit_cost") ltac:(listed))).
  rewrite !Hp by listed. done.
Qed.

(** ** What is shown is written the same way *)

Lemma shown_field name conds tier field :
  field ∈ (BILLING_CACHE_VAR_MAP).*2 →
  cost_or_zero (tier_field (shown_tier name conds tier) field) = cost_or_zero (tier_field tier field).
Proof.
  change ((BILLING_CACHE_VAR_MAP).*2) with
    [js "cache_read_unit_cost"; js "cache_create_unit_cost"; js "cache_create_1h_unit_cost"; js "image_unit_cost";
     js "image_output_unit_cost"; js "audio_input_unit_cost"; js "audio_output_unit_cost"].
  intros H. repeat (apply elem_of_cons in H as [->|H]; [apply cost_idempotent | ]). by apply not_elem_of_nil in H.
Qed.

Lemma shown_terms name conds tier : tier_terms (shown_tier name conds tier) = tier_terms tier.
Proof.
  with_strategy transparent [tier_terms] unfold tier_terms.
  change (input_unit_cost (shown_tier name conds tier)) with (cost_or_zero (Some (input_unit_cost tier))).
  change (output_unit_cost (shown_tier name conds tier)) with (cost_or_zero (Some (output_unit_cost tier))).
  rewrite !cost_idempotent. do 3 f_equal. apply list_fmap_ext. intros i cv Hcv. f_equal.
  apply shown_field. apply list_elem_of_fmap_2. by eapply list_elem_of_lookup_2.
Qed.

Lemma shown_text name label conds tier : tier_text name (shown_tier label conds tier) = tier_text name tier.
Proof. unfold tier_text, buildTierBodyExpr. by rewrite shown_terms. Qed.

Lemma normalize_shown name conds tier :
  normalizeVisualTier (as_partial (shown_tier name conds tier)) = shown_tier name conds tier.
Proof.
  unfold normalizeVisualTier, getTierCacheMode, as_partial, shown_tier.
  cbn [partial_label partial_conditions partial_input partial_output partial_mode partial_cache_read
    partial_cache_create partial_cache_create_1h partial_image partial_image_output partial_audio_input
    partial_audio_output label conditions input_unit_cost output_unit_cost cache_mode cache_read_unit_cost
    cache_create_unit_cost cache_create_1h_unit_cost image_unit_cost image_output_unit_cost audio_input_unit_cost
    audio_output_unit_cost default].
  by rewrite !cost_idempotent.
Qed.

Lemma shown_condition_text c :
  condition_canonical c = true → condition_text (shown_condition c) = condition_text c.
Proof.
  intros Hc. destruct (canonical_valid c Hc) as (_ & Ht & _). unfold condition_text at 1, shown_condition.
  cbn [condition_var condition_op condition_value condition_value_text]. rewrite Ht. reflexivity.
Qed.

Lemma shown_conditions_text cs :
  forallb condition_canonical cs = true →
  buildConditionStr (shown_condition <$> cs) = conditions_text cs.
Proof.
  intros Hcs. rewrite forallb_forall in Hcs. unfold buildConditionStr, conditions_text. f_equal.
  rewrite filter_all.
  - rewrite <- list_fmap_compose. apply list_fmap_ext. intros i c Hc. apply shown_condition_text, Hcs.
    apply list_elem_of_In. by eapply list_elem_of_lookup_2.
  - intros c Hc. apply list_elem_of_fmap_1 in Hc as (c' & -> & Hc'). apply list_elem_of_In, Hcs in Hc'.
    destruct (canonical_valid c' Hc') as (Hv & _). destruct (condition_words c' Hv) as [Hvar Hop].
    unfold condition_kept, shown_condition. cbn [condition_var condition_op condition_value]. rewrite andb_true_r.
    unfold CONDITION_VARS, CONDITION_OPS in *.
    repeat (apply elem_of_cons in Hvar as [Hvar|Hvar];
      [rewrite Hvar; repeat (apply elem_of_cons in Hop as [Hop|Hop]; [by rewrite Hop | ]); by apply not_elem_of_nil in Hop | ]).
    by apply not_elem_of_nil in Hvar.
Qed.

(** ** Reading the tiers of a text *)

Lemma read_condition_text c : condition_canonical c = true → read_condition (condition_text c) = Some (shown_condition c).
Proof.
  intros Hc. destruct (canonical_valid c Hc) as (Hv & _). unfold read_condition.
  assert (Hsol : solid (condition_text c)).
  { destruct (condition_clean c Hc) as (_ & d & Hl & Hd). pose proof (condition_front c [] Hc) as Hf.
    rewrite app_nil_r in Hf. unfold solid. rewrite Hl. by destruct (condition_text c). }
  rewrite solid_trim, condition_parts_eats by done. cbn [mbind option_bind].
  change (group 3 _) with (bound_text c). rewrite run_of_literal by (by apply condition_literal). reflexivity.
Qed.

Lemma read_conditions_text cs :
  cs ≠ [] → forallb condition_canonical cs = true → read_conditions (conditions_text cs) = shown_condition <$> cs.
Proof.
  intros Hne Hcs. unfold read_conditions.
  assert (Ht : truthy (conditions_text cs) = true).
  { destruct cs as [|c cs]; [done | ]. cbn [forallb] in Hcs. bools. destruct (condition_clean c) as (_ & d & Hl & _); [done | ].
    unfold conditions_text. rewrite fmap_cons, join_concat_tail. by destruct (condition_text c). }
  rewrite Ht, split_conditions by done. clear Hne Ht.
  induction cs as [|c cs IH]; [done | ]. cbn [forallb] in Hcs. bools. rewrite fmap_cons. cbn [omap list_omap].
  rewrite read_condition_text by done. by rewrite fmap_cons, <- IH.
Qed.

Definition TIERS : regex := CONDITIONAL_TIER (BODY 3).

Lemma plain_tier_eats name tier rest :
  plain_label name = true → forallb term_ok (tier_terms tier) = true →
  eats TIERS (tier_text name tier ++ rest) [] rest (body_caps tier 3 [(2, name)]).
Proof.
  intros Hn Hok. unfold TIERS, CONDITIONAL_TIER. eapply eats_cons; [ | by apply eats_one, call_eats].
  apply eats_skip. intros A k. reflexivity.
Qed.

Lemma rung_eats cs name tier rest :
  cs ≠ [] → forallb condition_canonical cs = true → plain_label name = true → forallb term_ok (tier_terms tier) = true →
  eats TIERS (conditions_text cs ++ js " ? " ++ tier_text name tier ++ rest) [] rest
    (body_caps tier 3 [(2, name); (1, conditions_text cs)]).
Proof.
  intros Hne Hcs Hn Hok. unfold TIERS, CONDITIONAL_TIER. eapply eats_cons; [ | by apply eats_one, call_eats].
  apply eats_opt. eapply eats_cons; [by apply group_eats | ].
  change (js " ? ") with (js " " ++ js "?" ++ js " "). rewrite <- !app_assoc.
  eapply eats_cons; [by apply eats_space_then | ]. eapply eats_cons; [apply eats_text | ].
  by apply eats_one, eats_space_then.
Qed.

(** The tier of one match. *)
Definition tier_of_match (m : captures) : VisualTier := read_tier (read_conditions (group 1 m)) 2 m.

Lemma plain_tier_read name tier :
  forallb term_ok (tier_terms tier) = true → tier_of_match (body_caps tier 3 [(2, name)]) = shown_tier name [] tier.
Proof.
  intros Hok. unfold tier_of_match. unfold body_caps at 1, group. rewrite captured_below by lia.
  change (read_conditions _) with (@nil TierConditionInput). by apply read_tier_shown.
Qed.

Lemma rung_read cs name tier :
  cs ≠ [] → forallb condition_canonical cs = true → forallb term_ok (tier_terms tier) = true →
  tier_of_match (body_caps tier 3 [(2, name); (1, conditions_text cs)]) = shown_tier name (shown_condition <$> cs) tier.
Proof.
  intros Hne Hcs Hok. unfold tier_of_match. unfold body_caps at 1, group. rewrite captured_below by lia.
  change (default [] _) with (conditions_text cs). rewrite read_conditions_text by done.
  apply read_tier_shown; [done | ]. intros i Hi. cbn [captured]. by rewrite (proj2 (Nat.eqb_neq 1 i)) by lia.
Qed.

(** ** All the tiers *)

Abbreviation exec := (exec_from (fun _ _ => true) TIERS).

Lemma exec_match fuel prev text rest caps :
  eats TIERS text [] rest caps → ∃ prev', exec (S fuel) prev text = caps :: exec fuel prev' rest.
Proof. intros H. eexists. cbn [exec_from]. by rewrite (eats_here _ _ _ _ H). Qed.

Lemma exec_skip fuel prev rest : ∃ prev', exec (3 + fuel) prev (js " : " ++ rest) = exec fuel prev' rest.
Proof. eexists. reflexivity. Qed.

Lemma exec_nil fuel prev : exec fuel prev [] = [].
Proof. by destruct fuel. Qed.

Fixpoint shown_ladder (k : nat) (tiers : VisualConfig) : VisualConfig :=
  match tiers with
  | [] => []
  | [t] => [shown_tier (tier_name k t) [] t]
  | t :: rest => shown_tier (tier_name k t) (shown_condition <$> kept t) t :: shown_ladder (S k) rest
  end.

Fixpoint ladder_canonical (tiers : VisualConfig) : bool :=
  match tiers with
  | [] | [_] => true
  | t :: rest => forallb condition_canonical (kept t) && ladder_canonical rest
  end.

Lemma kept_text tier : buildConditionStr (conditions tier) = conditions_text (kept tier).
Proof. done. Qed.

Lemma ladder_text k t t' rest :
  rung_valid t = true →
  join (js " : ") (tier_parts k (t :: t' :: rest)) =
    conditions_text (kept t) ++ js " ? " ++ tier_text (tier_name k t) t ++ js " : " ++ join (js " : ") (tier_parts (S k) (t' :: rest)).
Proof.
  intros Hr. apply rung_condition in Hr as Ht.
  change (tier_parts k (t :: t' :: rest)) with
    ((if truthy (buildConditionStr (conditions t)) then buildConditionStr (conditions t) ++ js " ? " ++ tier_text (tier_name k t) t
      else tier_text (tier_name k t) t) :: tier_parts (S k) (t' :: rest)).
  rewrite Ht, kept_text. rewrite join_cons by done. by rewrite <- !app_assoc.
Qed.

Lemma ladder_read tiers : ∀ k fuel prev,
  ladder_valid k tiers = true → ladder_canonical tiers = true →
  length (join (js " : ") (tier_parts k tiers)) < fuel →
  tier_of_match <$> exec fuel prev (join (js " : ") (tier_parts k tiers)) = shown_ladder k tiers.
Proof.
  induction tiers as [|t tiers IH]; intros k fuel prev Hv Hc Hf; [done | ].
  destruct fuel as [|fuel]; [lia | ]. destruct tiers as [|t' rest].
  - cbn [ladder_valid tier_parts join] in *. rewrite bool_decide_true in * by done. cbn [negb andb] in *.
    unfold tier_valid in Hv. bools. rewrite <- (app_nil_r (tier_text _ t)).
    destruct (exec_match fuel prev _ _ _ (plain_tier_eats (tier_name k t) t [] ltac:(done) ltac:(done))) as [prev' E].
    unfold tier_name in E. rewrite E, exec_nil, fmap_cons, plain_tier_read by done. done.
  - assert (Hv' : tier_valid (tier_name k t) t && rung_valid t && ladder_valid (S k) (t' :: rest) = true) by exact Hv.
    assert (Hc' : forallb condition_canonical (kept t) && ladder_canonical (t' :: rest) = true) by exact Hc.
    clear Hv Hc. apply andb_true_iff in Hv' as [Hv Hlad]. apply andb_true_iff in Hv as [Ht Hr].
    apply andb_true_iff in Hc' as [Hk Hcan]. rewrite ladder_text in * by done. unfold tier_valid in Ht. bools.
    assert (Hne : kept t ≠ []) by (unfold rung_valid in Hr; by bools).
    destruct (exec_match fuel prev _ _ _ (rung_eats (kept t) (tier_name k t) t
      (js " : " ++ join (js " : ") (tier_parts (S k) (t' :: rest))) Hne Hk ltac:(done) ltac:(done))) as [prev' E].
    rewrite E, fmap_cons, rung_read by done. rewrite !length_app in Hf. change (length (js " ? ")) with 3 in Hf.
    change (length (js " : ")) with 3 in Hf.
    replace fuel with (3 + (fuel - 3)) by lia. destruct (exec_skip (fuel - 3) prev' (join (js " : ") (tier_parts (S k) (t' :: rest)))) as [p2 ->].
    rewrite IH by (done || lia). done.
Qed.

(** ** Configurations *)

Definition shown_config (config : VisualConfig) : VisualConfig :=
  match config with
  | [t] => [shown_tier (single_name t) (shown_condition <$> kept t) t]
  | _ => shown_ladder 0 config
  end.

(** Configurations with a text of the expression language whose bounds are written as
    numbers are printed. *)
Definition readable_config (config : VisualConfig) : bool :=
  config_valid config &&
  match config with
  | [] => false
  | [t] => forallb condition_canonical (kept t)
  | tiers => ladder_canonical tiers
  end.

Lemma no_version text : starts_with (js "v") text = false → strip_version text = text.
Proof.
  intros H. unfold strip_version. rewrite fails_all; [done | ]. intros A k. unfold VERSION.
  rewrite rseq_cons. unfold rlit. by rewrite matches_text, H.
Qed.

Lemma conditions_front s cs rest :
  s ∈ [js "v"; js "tier("] → cs ≠ [] → forallb condition_canonical cs = true →
  starts_with s (conditions_text cs ++ rest) = false.
Proof.
  intros Hs Hne Hcs. destruct cs as [|c cs]; [done | ]. cbn [forallb] in Hcs. bools.
  destruct (canonical_valid c) as (Hv & _); [done | ]. destruct (condition_words c Hv) as [Hvar _].
  unfold conditions_text. rewrite fmap_cons, join_concat_tail, <- app_assoc, condition_text_parts.
  unfold CONDITION_VARS in Hvar.
  repeat (apply elem_of_cons in Hs as [->|Hs];
    [repeat (apply elem_of_cons in Hvar as [Hvar|Hvar]; [by rewrite Hvar | ]); by apply not_elem_of_nil in Hvar | ]).
  by apply not_elem_of_nil in Hs.
Qed.

Lemma not_single text : starts_with (js "tier(") text = false → match_all SINGLE_TIER text = None.
Proof.
  intros H. apply fails_all. intros A k. unfold SINGLE_TIER, TIER_CALL. rewrite rseq_cons. unfold rlit at 1.
  by rewrite matches_text, H.
Qed.

(** Reading by the second expression, which checks what it found. *)
Lemma parse_several text cfg :
  truthy text = true → starts_with (js "v") text = false → starts_with (js "tier(") text = false →
  tier_of_match <$> exec_all TIERS text = cfg → cfg ≠ [] → (fun t => normalizeVisualTier (as_partial t)) <$> cfg = cfg →
  generateExprFromVisualConfig (Some cfg) = text → tryParseVisualConfig (Some text) = Some cfg.
Proof.
  intros Ht Hv Hs Hread Hne Hnorm Hgen. unfold tryParseVisualConfig. destruct text as [|c text]; [done | ].
  cbv zeta. rewrite no_version, not_single by done. change (CONDITIONAL_TIER (BODY 3)) with TIERS.
  change (fun m => read_tier (read_conditions (group 1 m)) 2 m) with tier_of_match. rewrite Hread.
  assert (Hn : normalizeVisualConfig (Some cfg) = cfg) by (by destruct cfg). rewrite Hn, Hgen.
  unfold ustring_eqb. rewrite bool_decide_true by done. by destruct cfg.
Qed.

Lemma shown_ladder_normal k tiers :
  (fun t => normalizeVisualTier (as_partial t)) <$> shown_ladder k tiers = shown_ladder k tiers.
Proof.
  revert k. induction tiers as [|t [|t' rest] IH]; intros k; [done | | ].
  - cbn [shown_ladder]. by rewrite fmap_cons, normalize_shown.
  - change (shown_ladder k (t :: t' :: rest))
      with (shown_tier (tier_name k t) (shown_condition <$> kept t) t :: shown_ladder (S k) (t' :: rest)).
    by rewrite fmap_cons, normalize_shown, IH.
Qed.

Lemma label_or_name name fallback fallback' :
  truthy fallback = true → label_or (label_or name fallback) fallback' = label_or name fallback.
Proof. unfold label_or. intros H. destruct (truthy name) eqn:E; [by rewrite E | by rewrite H]. Qed.

Lemma tier_name_shown k conds tier : tier_name k (shown_tier (tier_name k tier) conds tier) = tier_name k tier.
Proof. unfold tier_name. cbn [label shown_tier]. by rewrite label_or_name. Qed.

Lemma single_name_shown conds tier : single_name (shown_tier (single_name tier) conds tier) = single_name tier.
Proof. unfold single_name. cbn [label shown_tier]. by rewrite label_or_name. Qed.

(** The parts of the shown tiers are the parts of the tiers. *)
Lemma shown_parts k tiers :
  ladder_valid k tiers = true → ladder_canonical tiers = true → tier_parts k (shown_ladder k tiers) = tier_parts k tiers.
Proof.
  revert k. induction tiers as [|t [|t' rest] IH]; intros k Hv Hc; [done | | ].
  - cbn [shown_ladder tier_parts]. rewrite !bool_decide_true by done. cbn [negb andb].
    pose proof (tier_name_shown k [] t) as Hn. unfold tier_name in Hn at 1. by rewrite Hn, shown_text.
  - assert (Hc' : forallb condition_canonical (kept t) && ladder_canonical (t' :: rest) = true) by exact Hc.
    assert (Hv' : tier_valid (tier_name k t) t && rung_valid t && ladder_valid (S k) (t' :: rest) = true) by exact Hv.
    bools. change (shown_ladder k (t :: t' :: rest))
      with (shown_tier (tier_name k t) (shown_condition <$> kept t) t :: shown_ladder (S k) (t' :: rest)).
    cbn [tier_parts]. change (label (shown_tier ?n ?c ?x)) with n. cbn [conditions shown_tier].
    rewrite shown_conditions_text, shown_text, kept_text by done.
    pose proof (tier_name_shown k (shown_condition <$> kept t) t) as Hn. unfold tier_name in Hn at 1.
    change (label (shown_tier ?n ?c ?x)) with n in Hn. rewrite Hn, IH by done.
    f_equal. by destruct rest.
Qed.

Lemma shown_written config :
  readable_config config = true →
  generateExprFromVisualConfig (Some (shown_config config)) = generateExprFromVisualConfig (Some config).
Proof.
  unfold readable_config. intros H. bools. destruct config as [|t [|t' rest]]; [done | | ].
  - cbn [shown_config generateExprFromVisualConfig]. fold (single_name t).
    change (label_or (label (shown_tier ?n ?c ?x)) (js "default")) with (single_name (shown_tier n c x)).
    rewrite single_name_shown, shown_text. cbn [conditions shown_tier]. by rewrite shown_conditions_text, kept_text.
  - change (shown_config (t :: t' :: rest)) with (shown_ladder 0 (t :: t' :: rest)).
    change (generateExprFromVisualConfig (Some (t :: t' :: rest))) with (join (js " : ") (tier_parts 0 (t :: t' :: rest))).
    rewrite <- shown_parts by done. by destruct rest.
Qed.

Lemma exec_default fuel prev : 16 < fuel → exec fuel prev (js " : " ++ EMPTY_EXPR) = [].
Proof. intros Hf. do 17 (destruct fuel as [|fuel]; [lia | ]). destruct fuel; reflexivity. Qed.

Lemma single_read t :
  tier_valid (single_name t) t = true → kept t = [] →
  tryParseVisualConfig (Some (tier_text (single_name t) t)) = Some [shown_tier (single_name t) [] t].
Proof.
  intros Hv Hk. unfold tier_valid in Hv. bools. unfold tryParseVisualConfig.
  destruct (tier_text (single_name t) t) as [|c text] eqn:E; [done | ]. rewrite <- E. cbv zeta.
  rewrite no_version by reflexivity.
  assert (Hm : match_all SINGLE_TIER (tier_text (single_name t) t) = Some (body_caps t 2 [(1, single_name t)])).
  { apply eats_all. rewrite <- (app_nil_r (tier_text _ t)). by apply call_eats. }
  rewrite Hm, read_tier_shown by done. unfold normalizeVisualConfig. by rewrite fmap_cons, normalize_shown.
Qed.

Lemma conditional_read t :
  tier_valid (single_name t) t = true → kept t ≠ [] → forallb condition_canonical (kept t) = true →
  generateExprFromVisualConfig (Some [shown_tier (single_name t) (shown_condition <$> kept t) t]) =
    conditions_text (kept t) ++ js " ? " ++ tier_text (single_name t) t ++ js " : " ++ EMPTY_EXPR →
  tryParseVisualConfig (Some (conditions_text (kept t) ++ js " ? " ++ tier_text (single_name t) t ++ js " : " ++ EMPTY_EXPR)) =
    Some [shown_tier (single_name t) (shown_condition <$> kept t) t].
Proof.
  intros Hv Hk Hc Hgen. unfold tier_valid in Hv. bools. apply parse_several.
  - assert (Hnv := conditions_front (js "v") (kept t) [] ltac:(left) Hk Hc). rewrite app_nil_r in Hnv.
    assert (Ht : truthy (conditions_text (kept t)) = true); [ | by destruct (conditions_text (kept t))].
    destruct (kept t) as [|c cs]; [done | ]. cbn [forallb] in Hc. bools. destruct (condition_clean c) as (_ & d & Hl & _); [done | ].
    unfold conditions_text. rewrite fmap_cons, join_concat_tail. by destruct (condition_text c).
  - apply conditions_front; [left | done | done].
  - apply conditions_front; [right; left | done | done].
  - unfold exec_all. set (text := conditions_text (kept t) ++ _). 
    destruct (exec_match (length text) None _ _ _ (rung_eats (kept t) (single_name t) t (js " : " ++ EMPTY_EXPR)
      Hk Hc ltac:(done) ltac:(done))) as [prev' E].
    unfold text at 2. rewrite E, fmap_cons, rung_read by done. rewrite exec_default; [done | ].
    unfold text. rewrite !length_app. change (length (js " : ")) with 3. change (length EMPTY_EXPR) with 13.
    change (length (js " ? ")) with 3. lia.
  - done.
  - by rewrite fmap_cons, normalize_shown.
  - exact Hgen.
Qed.

Lemma config_read config :
  readable_config config = true →
  tryParseVisualConfig (Some (generateExprFromVisualConfig (Some config))) = Some (shown_config config) ∧
  generateExprFromVisualConfig (Some (shown_config config)) = generateExprFromVisualConfig (Some config).
Proof.
  intros Hr. pose proof (shown_written config Hr) as Hgen. split; [ | exact Hgen].
  unfold readable_config in Hr. apply andb_true_iff in Hr as [Hv Hc]. destruct config as [|t [|t' rest]]; [done | | ].
  - cbn [config_valid shown_config] in *. apply andb_true_iff in Hv as [Ht Hk].
    assert (Htext : generateExprFromVisualConfig (Some [t]) =
      if truthy (conditions_text (kept t)) then conditions_text (kept t) ++ js " ? " ++ tier_text (single_name t) t ++ js " : " ++ EMPTY_EXPR
      else tier_text (single_name t) t) by done.
    destruct (decide (kept t = [])) as [Ek|Ek].
    + rewrite Htext, Ek. by apply single_read.
    + rewrite bool_decide_false in Hk by done. apply rung_condition in Hk as Hb.
      rewrite kept_text in Hb. rewrite Htext, Hb in *. by apply conditional_read.
  - change (generateExprFromVisualConfig (Some (t :: t' :: rest))) with (join (js " : ") (tier_parts 0 (t :: t' :: rest))) in *.
    change (shown_config (t :: t' :: rest)) with (shown_ladder 0 (t :: t' :: rest)) in *.
    assert (Hlad : tier_valid (tier_name 0 t) t && rung_valid t && ladder_valid 1 (t' :: rest) = true) by exact Hv.
    assert (Hcan : forallb condition_canonical (kept t) && ladder_canonical (t' :: rest) = true) by exact Hc.
    apply andb_true_iff in Hlad as [[Ht Hrung]%andb_true_iff Hrest]. apply andb_true_iff in Hcan as [Hct Hcr].
    assert (Hk : kept t ≠ []) by (unfold rung_valid in Hrung; by bools).
    apply parse_several; [ | | | | done | apply shown_ladder_normal | exact Hgen].
    + rewrite ladder_text by done. apply rung_condition in Hrung as Hb. rewrite kept_text in Hb.
      by destruct (conditions_text (kept t)).
    + rewrite ladder_text by done. apply conditions_front; [left | done | done].
    + rewrite ladder_text by done. apply conditions_front; [right; left | done | done].
    + apply ladder_read; [done | done | lia].
Qed.


(** ** Samples *)

Definition readable_sample : VisualConfig :=
  [plain_tier "short" [mkConditionInput (js "len") (js "<=") (ValueNumber (num_of_Z 200000));
                       mkConditionInput (js "c") (js "<") (ValueText (js "1000"))] "2.5" "10";
   plain_tier "" [] "5" "22.5"].


(** A bound that is not written as numbers are printed keeps the text out of the editor. *)
Example exponent_bound_is_not_read :
  tryParseVisualConfig (Some (generateExprFromVisualConfig (Some sample_config))) = None.
Proof. vm_compute. reflexivity. Qed.

(** A single tier is accepted without comparison, also when its price is not a number: the
    editor then writes the price 0. *)
Example unreadable_price_becomes_zero :
  (fun cfg => generateExprFromVisualConfig (Some cfg)) <$>
    tryParseVisualConfig (Some (js "tier(" ++ [DQUOTE] ++ js "x" ++ [DQUOTE] ++ js ", p * 1.2.3 + c * 4)")) =
  Some (js "tier(" ++ [DQUOTE] ++ js "x" ++ [DQUOTE] ++ js ", p * 0 + c * 4)").
Proof. vm_compute. reflexivity. Qed.
