(* ===== verification/TierEditor.v ===== *)
(** * The editor of tiered prices

    The component [TieredPricingEditor] of
    [features/system-settings/models/tiered-pricing-editor.tsx] as a machine: its state with
    the two texts its parent keeps, its handlers, and the effects that run after a
    rendering.  A handler or effect that reads rules can throw. *)

From stdpp Require Import base numbers strings option sets list.
From Stdlib Require Import Lia.
From S2P Require Import Prelude JsNumber Json NumberText JsonPrint Regex TierExpr TierExprParse RequestRules.
From S2P Require Import RequestRulesText RequestRulesReading RequestRulesRoundTrip.
From S2P Require Import TierExprReading TierExprParsing TierExprPricing TierExprRoundTrip.

Inductive EditorMode := Visual | Raw.

#[export] Instance EditorMode_eq : EqDecision EditorMode.
Proof. solve_decision. Defined.

Record Preset := mkPreset { preset_expr : ustring; preset_rules : option (list RequestRuleGroup) }.

(** The state of the component; what its effects have seen of the properties
    ([initRef] is [initialized]); and, last, the texts of the parent that come as
    properties and are set by its callbacks. *)
Record Editor := mkEditor {
  editorMode : EditorMode;
  visualConfig : option VisualConfig;
  rawExpr : ustring;
  requestRuleGroups : list RequestRuleGroup;
  initialized : bool;
  seen_texts : option (ustring * ustring);
  seen_model : option ustring;
  modelName : ustring;
  currentExpr : ustring;
  currentRequestRuleExpr : ustring
}.

Abbreviation edits := (result thrown).

(** [tryParseRequestRuleExpr(text) || \[\]]. *)
Definition groups_or_empty (text : ustring) : edits (list RequestRuleGroup) :=
  r ← tryParseRequestRuleExpr text; Ok (default [] r).

(** The first rendering: the initial values of the state. *)
Definition open_editor (model expr rules : ustring) : edits Editor :=
  groups ← groups_or_empty rules;
  Ok (mkEditor Visual (tryParseVisualConfig (Some expr)) (combineBillingExpr expr rules) groups
        false None None model expr rules).

(** [effectiveExpr]. *)
Definition effectiveExpr (s : Editor) : edits ustring :=
  match editorMode s with
  | Visual => Ok (generateExprFromVisualConfig (visualConfig s))
  | Raw => split ← splitBillingExprAndRequestRules (rawExpr s); Ok (billingExpr split)
  end.

(** [canUseVisualRules]. *)
Definition canUseVisualRules (s : Editor) : edits bool :=
  if negb (truthy (currentRequestRuleExpr s)) then Ok true
  else r ← tryParseRequestRuleExpr (currentRequestRuleExpr s); Ok (bool_decide (r ≠ None)).

(** The effect that takes over the properties, when it may. *)
Definition init_effect (s : Editor) : edits Editor :=
  if initialized s then Ok s
  else
    let expr := currentExpr s in
    let rules := currentRequestRuleExpr s in
    let '(mode, config) :=
      match tryParseVisualConfig (Some expr) with
      | Some cfg => (Visual, Some cfg)
      | None => if truthy expr then (Raw, None) else (editorMode s, Some createDefaultVisualConfig)
      end in
    groups ← groups_or_empty rules;
    Ok (mkEditor mode config (combineBillingExpr expr rules) groups true (seen_texts s) (seen_model s)
          (modelName s) expr rules).

(** The rules the last effect gives to the parent. *)
Definition reported_rules (s : Editor) : ustring :=
  match editorMode s with
  | Visual => buildRequestRuleExpr (requestRuleGroups s)
  | Raw => currentRequestRuleExpr s
  end.

(** The effects after one rendering, in their order.  Each reads the state of that
    rendering.  The first runs when a text of the parent has changed, the second, which
    allows the first again, when the model has changed: both on the first rendering. *)
Definition commit (s : Editor) : edits Editor :=
  expr ← effectiveExpr s;
  t ← (if bool_decide (seen_texts s = Some (currentExpr s, currentRequestRuleExpr s)) then Ok s else init_effect s);
  let again := negb (bool_decide (seen_model s = Some (modelName s))) in
  Ok (mkEditor (editorMode t) (visualConfig t) (rawExpr t) (requestRuleGroups t)
        (if again then false else initialized t)
        (Some (currentExpr s, currentRequestRuleExpr s)) (Some (modelName s)) (modelName s)
        expr (reported_rules s)).

(** ** Handlers *)

Definition with_texts (s : Editor) (mode : EditorMode) (config : option VisualConfig) (raw : ustring)
    (groups : list RequestRuleGroup) (rules : ustring) : Editor :=
  mkEditor mode config raw groups (initialized s) (seen_texts s) (seen_model s) (modelName s) (currentExpr s) rules.

Definition handleVisualChange (next : VisualConfig) (s : Editor) : Editor :=
  with_texts s (editorMode s) (Some next) (rawExpr s) (requestRuleGroups s) (currentRequestRuleExpr s).

Definition handleRuleGroupsChange (next : list RequestRuleGroup) (s : Editor) : Editor :=
  with_texts s (editorMode s) (visualConfig s) (rawExpr s) next (currentRequestRuleExpr s).

Definition handleRawChange (value : ustring) (s : Editor) : edits Editor :=
  split ← splitBillingExprAndRequestRules value;
  Ok (with_texts s (editorMode s) (visualConfig s) value (requestRuleGroups s) (requestRuleExpr split)).

(** [combineBillingExpr(expr, rules) || expr]. *)
Definition combined_or (expr rules : ustring) : ustring :=
  let combined := combineBillingExpr expr rules in
  if truthy combined then combined else expr.

Definition handleModeChange (next : EditorMode) (s : Editor) : edits Editor :=
  match next with
  | Visual =>
      split ← splitBillingExprAndRequestRules (rawExpr s);
      let config := match tryParseVisualConfig (Some (billingExpr split)) with
                    | Some parsed => parsed
                    | None => createDefaultVisualConfig
                    end in
      groups ← groups_or_empty (requestRuleExpr split);
      Ok (with_texts s Visual (Some config) (rawExpr s) groups (requestRuleExpr split))
  | Raw =>
      let expr := generateExprFromVisualConfig (visualConfig s) in
      let rules := buildRequestRuleExpr (requestRuleGroups s) in
      Ok (with_texts s Raw (visualConfig s) (combined_or expr rules) (requestRuleGroups s) (currentRequestRuleExpr s))
  end.

Definition applyPreset (preset : Preset) (s : Editor) : Editor :=
  let groups := default [] (preset_rules preset) in
  let rules := buildRequestRuleExpr groups in
  let '(mode, config) :=
    match tryParseVisualConfig (Some (preset_expr preset)) with
    | Some parsed => (Visual, Some parsed)
    | None => (Raw, None)
    end in
  with_texts s mode config (combined_or (preset_expr preset) rules) groups rules.
