(* ===== verification/TierEditorProperties.v ===== *)
(** * The editor of tiered prices: nothing is lost

    Opening the editor on texts it wrote, and going to the expression mode and back,
    keeps the prices and the rules, as long as the rules can be read.  The samples at the
    end show what happens to rules that cannot. *)

From stdpp Require Import base numbers strings option sets list.
From Stdlib Require Import Lia.
From S2P Require Import Prelude JsNumber Json NumberText JsonPrint Regex TierExpr TierExprParse RequestRules.
From S2P Require Import RequestRulesText RequestRulesReading RequestRulesRoundTrip.
From S2P Require Import TierExprReading TierExprParsing TierExprPricing TierExprRoundTrip TierEditor.

(** ** Opening *)

(** Rules that are written and read back. *)
Definition readable_rules (gs : list RequestRuleGroup) : bool :=
  forallb readable_group gs && negb (existsb guarded_group (kept_groups gs)).

Lemma groups_read gs :
  readable_rules gs = true → groups_or_empty (buildRequestRuleExpr gs) = Ok (shown_group <$> kept_groups gs).
Proof.
  unfold readable_rules. intros H. bools. unfold groups_or_empty. rewrite rules_read by done.
  match goal with H : existsb _ _ = false |- _ => by rewrite H end.
Qed.

(** The editor showing a configuration and rules, after its effects have run on the
    texts they are written as. *)
Definition shows (s : Editor) (config : VisualConfig) (gs : list RequestRuleGroup) : Prop :=
  editorMode s = Visual ∧ visualConfig s = Some (shown_config config) ∧
  requestRuleGroups s = shown_group <$> kept_groups gs ∧
  currentExpr s = generateExprFromVisualConfig (Some config) ∧
  currentRequestRuleExpr s = buildRequestRuleExpr gs.

(** opening the editor on the texts of a price and of rules that can be read shows
    them and gives the same texts back to the parent: after one round of effects nothing
    changes any more. *)
Theorem opening_keeps_the_texts model config gs :
  readable_config config = true → readable_rules gs = true →
  ∃ s0 s1, open_editor model (generateExprFromVisualConfig (Some config)) (buildRequestRuleExpr gs) = Ok s0 ∧
    commit s0 = Ok s1 ∧ commit s1 = Ok s1 ∧ shows s1 config gs.
Proof.
  intros Hc Hr. destruct (config_read config Hc) as [Hread Hgen]. pose proof (groups_read gs Hr) as Hgs.
  unfold open_editor. rewrite Hgs. cbn [mbind result_bind]. rewrite Hread.
  eexists _, _. split; [reflexivity | ]. unfold commit at 1, effectiveExpr, init_effect, reported_rules.
  cbn [editorMode visualConfig requestRuleGroups initialized seen_texts seen_model modelName currentExpr
    currentRequestRuleExpr rawExpr mbind result_bind].
  rewrite bool_decide_false by done. cbn iota. rewrite Hread, Hgs. cbn [mbind result_bind].
  rewrite bool_decide_false by done. cbn [negb]. rewrite Hgen, rules_shown. split; [reflexivity | ].
  split; [ | by repeat split].
  unfold commit, effectiveExpr, reported_rules.
  cbn [editorMode visualConfig requestRuleGroups initialized seen_texts seen_model modelName currentExpr
    currentRequestRuleExpr rawExpr mbind result_bind].
  rewrite !bool_decide_true by done. cbn [negb mbind result_bind editorMode visualConfig requestRuleGroups initialized rawExpr].
  by rewrite Hgen, rules_shown.
Qed.

(** ** The shape of a written price *)

Lemma flat_app a b : flat (a ++ b) = flat a && flat b.
Proof. apply forallb_app. Qed.

Lemma flat_signed s : Forall (fun c => signed_unit c = true) s → flat s = true.
Proof.
  intros Hs. unfold flat. apply forallb_forall. intros c Hc. apply list_elem_of_In in Hc. rewrite Forall_forall in Hs.
  apply Hs in Hc. unfold signed_unit, is_digit, one_of in Hc. apply orb_true_iff in Hc as [Hc|Hc]; bools.
  - unfold paren. chr_norm. destruct (Z.eqb_spec c 40); [lia | ]. destruct (Z.eqb_spec c 41); [lia | done].
  - change (js ".eE+-") with [46; 101; 69; 43; 45]%Z in Hc.
    repeat (apply elem_of_cons in Hc as [->|Hc]; [done | ]). by apply not_elem_of_nil in Hc.
Qed.

Lemma flat_join sep ws : flat sep = true → forallb flat ws = true → flat (join sep ws) = true.
Proof.
  intros Hs Hws. induction ws as [|w [|w' ws] IH]; [done | by cbn in *; bools | ].
  change (join sep (w :: w' :: ws)) with (w ++ sep ++ join sep (w' :: ws)).
  change (forallb flat (w :: w' :: ws)) with (flat w && forallb flat (w' :: ws)) in Hws. bools.
  rewrite !flat_app, Hs, IH by done. by rewrite H.
Qed.

Lemma flat_number x : has_text x = true → flat (Number_toString x) = true.
Proof. intros Hx. apply flat_signed. by apply literal_signed, Number_toString_literal. Qed.

Lemma flat_body tier : forallb term_ok (tier_terms tier) = true → flat (buildTierBodyExpr tier) = true.
Proof.
  intros Hok. unfold buildTierBodyExpr. apply flat_join; [done | ]. apply forallb_forall. intros w Hw.
  apply list_elem_of_In, list_elem_of_fmap_1 in Hw as (t & -> & Ht). unfold term_text.
  rewrite !flat_app, flat_number by (by eapply prices_have_text). apply term_variables in Ht.
  assert (Hvars : forallb flat billing_variables = true) by (vm_compute; reflexivity).
  rewrite forallb_forall in Hvars. rewrite Hvars by (by apply list_elem_of_In). done.
Qed.

(** The argument list of a tier, between its parentheses. *)
Definition tier_arguments (name : ustring) (tier : VisualTier) : ustring :=
  [DQUOTE] ++ name ++ [DQUOTE] ++ js ", " ++ buildTierBodyExpr tier.

Lemma tier_text_parens name tier :
  tier_text name tier = js "tier" ++ (js "(" ++ tier_arguments name tier ++ js ")").
Proof.
  unfold tier_text, tier_arguments. change (js "tier(") with (js "tier" ++ js "("). by rewrite <- !app_assoc.
Qed.

(** Text that keeps its place in a product: balanced, and no product at its top level. *)
Definition whole (s : ustring) : Prop :=
  balanced s ∧ ∀ rest, match rest with [] => True | c :: _ => c ≠ chr "*" end → unbroken (js " * ") 0 s rest.

Lemma whole_app a b :
  whole a → whole b → match b with [] => False | c :: _ => c ≠ chr "*" end → whole (a ++ b).
Proof.
  intros [Ha Ha'] [Hb Hb'] Hf. split; [by apply balanced_app | ]. intros rest Hrest.
  apply unbroken_app; [apply Ha | | by apply Hb']. apply Ha'. by destruct b.
Qed.

Lemma whole_flat s : flat s = true → bool_decide (chr "*" ∈ s) = false → whole s.
Proof. intros Hf Hs. bools. split; [by apply balanced_lit | ]. intros rest Hrest. by apply unbroken_flat. Qed.

Lemma whole_tier name tier :
  flat name = true → forallb term_ok (tier_terms tier) = true → whole (tier_text name tier).
Proof.
  intros Hn Hok. rewrite tier_text_parens. apply whole_app; [by apply whole_flat | | done].
  assert (Hb : balanced (tier_arguments name tier)).
  { apply balanced_lit. unfold tier_arguments. by rewrite !flat_app, Hn, flat_body. }
  split; [by apply balanced_parens | ]. intros rest _. by apply unbroken_parens.
Qed.

Lemma condition_flat c :
  condition_canonical c = true → flat (condition_text c) = true ∧ chr "*" ∉ condition_text c.
Proof.
  intros Hc. destruct (canonical_valid c Hc) as (Hv & _ & Hm). destruct (condition_words c Hv) as [Hvar Hop].
  destruct (bound_units _ (condition_literal c Hv) Hm) as [_ Hb].
  destruct (literal_signed _ (condition_literal c Hv)) as [_ Hs].
  rewrite <- (app_nil_r (condition_text c)), condition_text_parts, app_nil_r.
  assert (Hw : ∀ w, w ∈ CONDITION_VARS ++ CONDITION_OPS → flat w = true ∧ chr "*" ∉ w).
  { intros w Hw. assert (Hall : forallb (fun w => flat w && negb (bool_decide (chr "*" ∈ w))) (CONDITION_VARS ++ CONDITION_OPS) = true)
      by (vm_compute; reflexivity). rewrite forallb_forall in Hall. apply list_elem_of_In, Hall in Hw. by bools. }
  destruct (Hw (condition_var c)) as [Hf1 Hs1]; [by apply elem_of_app; left | ].
  destruct (Hw (condition_op c)) as [Hf2 Hs2]; [by apply elem_of_app; right | ]. split.
  - by rewrite !flat_app, Hf1, Hf2, (flat_signed _ Hs).
  - rewrite !elem_of_app. intros [H|[H|[H|[H|H]]]]; [done | by pose proof (bool_decide_eq_true_2 _ H) | done |
      by pose proof (bool_decide_eq_true_2 _ H) | ]. rewrite Forall_forall in Hb. by apply Hb in H.
Qed.

Lemma conditions_whole cs : forallb condition_canonical cs = true → whole (conditions_text cs).
Proof.
  intros Hcs. unfold conditions_text. induction cs as [|c cs IH]; [by apply whole_flat | ].
  cbn [forallb] in Hcs. bools. destruct (condition_flat c) as [Hf Hs]; [done | ].
  assert (Hc : whole (condition_text c)) by (apply whole_flat; [done | by apply bool_decide_eq_false_2]).
  destruct cs as [|c' cs]; [done | ]. rewrite !fmap_cons in *.
  change (join (js " && ") (condition_text c :: condition_text c' :: (condition_text <$> cs)))
    with (condition_text c ++ js " && " ++ join (js " && ") (condition_text c' :: (condition_text <$> cs))).
  apply whole_app; [done | | done]. apply whole_app; [by apply whole_flat | by apply IH | ].
  cbn [forallb] in *. bools. rewrite join_concat_tail.
  destruct (condition_flat c') as [_ Hs']; [done | ]. destruct (condition_clean c') as (_ & d & Hl & _); [done | ].
  destruct (condition_text c') as [|e t]; [done | ]. cbn [app]. set_solver.
Qed.

(** Labels without parentheses. *)
Fixpoint ladder_flat (k : nat) (tiers : VisualConfig) : bool :=
  match tiers with [] => true | t :: rest => flat (tier_name k t) && ladder_flat (S k) rest end.

Definition config_flat (config : VisualConfig) : bool :=
  match config with [t] => flat (single_name t) | tiers => ladder_flat 0 tiers end.

(** How a written price starts. *)
Definition price_front (s : ustring) : Prop :=
  ∃ c rest, s = c :: rest ∧ c ∈ [chr "p"; chr "c"; chr "l"; chr "t"].

Lemma front_app a b : price_front a → price_front (a ++ b).
Proof. intros (c & rest & -> & Hc). by exists c, (rest ++ b). Qed.

Lemma tier_front name tier : price_front (tier_text name tier).
Proof. eexists _, _. split; [reflexivity | by apply (bool_decide_unpack _)]. Qed.

Lemma conditions_text_front cs : cs ≠ [] → forallb condition_canonical cs = true → price_front (conditions_text cs).
Proof.
  intros Hne Hcs. destruct cs as [|c cs]; [done | ]. cbn [forallb] in Hcs. bools.
  destruct (canonical_valid c) as (Hv & _); [done | ]. destruct (condition_words c Hv) as [Hvar _].
  unfold conditions_text. rewrite fmap_cons, join_concat_tail. apply front_app.
  rewrite <- (app_nil_r (condition_text c)), condition_text_parts. apply front_app. unfold CONDITION_VARS in Hvar.
  repeat (apply elem_of_cons in Hvar as [->|Hvar]; [eexists _, _; split; [reflexivity | by apply (bool_decide_unpack _)] | ]).
  by apply not_elem_of_nil in Hvar.
Qed.

Lemma front_not_star s : price_front s → match s with [] => False | c :: _ => c ≠ chr "*" end.
Proof. intros (c & rest & -> & Hc) ->. by pose proof (bool_decide_eq_true_2 _ Hc). Qed.

Lemma tier_last name tier : last (tier_text name tier) = Some (chr ")").
Proof. rewrite tier_text_parens, !app_assoc. exact (last_snoc _ _). Qed.

Lemma rung_whole cs name tier s :
  cs ≠ [] → forallb condition_canonical cs = true → flat name = true → forallb term_ok (tier_terms tier) = true →
  whole s → price_front s → whole (conditions_text cs ++ js " ? " ++ tier_text name tier ++ js " : " ++ s).
Proof.
  intros Hne Hcs Hn Hok Hs Hf. apply whole_app; [by apply conditions_whole | | done].
  apply whole_app; [by apply whole_flat | | done]. apply whole_app; [by apply whole_tier | | done].
  apply whole_app; [by apply whole_flat | done | by apply front_not_star].
Qed.

Lemma ladder_whole k tiers :
  ladder_valid k tiers = true → ladder_canonical tiers = true → ladder_flat k tiers = true →
  let text := join (js " : ") (tier_parts k tiers) in
  whole text ∧ price_front text ∧ last text = Some (chr ")").
Proof.
  revert k. induction tiers as [|t [|t' rest] IH]; intros k Hv Hc Hf; [done | | ]; cbv zeta.
  - cbn [tier_parts join]. rewrite bool_decide_true by done. cbn [negb andb]. fold (tier_name k t).
    cbn [ladder_valid ladder_flat] in *. unfold tier_valid in Hv. bools.
    split; [by apply whole_tier | split; [apply tier_front | apply tier_last]].
  - assert (Hv' : tier_valid (tier_name k t) t && rung_valid t && ladder_valid (S k) (t' :: rest) = true) by exact Hv.
    assert (Hc' : forallb condition_canonical (kept t) && ladder_canonical (t' :: rest) = true) by exact Hc.
    assert (Hf' : flat (tier_name k t) && ladder_flat (S k) (t' :: rest) = true) by exact Hf.
    clear Hv Hc Hf. apply andb_true_iff in Hv' as [[Ht Hr]%andb_true_iff Hv], Hc' as [Hk Hc], Hf' as [Hn Hf].
    destruct (IH (S k) Hv Hc Hf) as (Hw & Hfr & Hl). rewrite ladder_text by done.
    assert (Hne : kept t ≠ []) by (unfold rung_valid in Hr; by bools). unfold tier_valid in Ht. bools.
    split; [by apply rung_whole | split; [by apply front_app, conditions_text_front | ]].
    set (tail := join _ (tier_parts (S k) (t' :: rest))) in *.
    assert (Htl : tail ≠ []) by (intros E; by rewrite E in Hl).
    rewrite !last_app, Hl. done.
Qed.

(** A written price is one part, or ends with the price of a request no tier applies to. *)
Lemma price_shape config :
  readable_config config = true → config_flat config = true →
  ∃ a, whole a ∧ price_front a ∧
    ((generateExprFromVisualConfig (Some config) = a ∧ last a = Some (chr ")")) ∨
     (generateExprFromVisualConfig (Some config) = a ++ js " * 0 + c * 0" ∧ last a = Some (chr "p"))).
Proof.
  unfold readable_config. intros [Hv Hc]%andb_true_iff Hf. destruct config as [|t [|t' rest]]; [done | | ].
  - cbn [config_valid config_flat] in *. apply andb_true_iff in Hv as [Ht Hk]. unfold tier_valid in Ht. bools.
    assert (Htext : generateExprFromVisualConfig (Some [t]) =
      if truthy (conditions_text (kept t)) then conditions_text (kept t) ++ js " ? " ++ tier_text (single_name t) t ++ js " : " ++ EMPTY_EXPR
      else tier_text (single_name t) t) by done. rewrite Htext.
    destruct (decide (kept t = [])) as [Ek|Ek].
    + exists (tier_text (single_name t) t). rewrite Ek. split; [by apply whole_tier | split; [apply tier_front | ]].
      left. split; [done | apply tier_last].
    + rewrite bool_decide_false in Hk by done. apply rung_condition in Hk as Hb. rewrite kept_text in Hb. rewrite Hb.
      exists (conditions_text (kept t) ++ js " ? " ++ tier_text (single_name t) t ++ js " : " ++ js "p").
      split; [ | split; [by apply front_app, conditions_text_front | right]].
      * apply rung_whole; try done; [by apply whole_flat | by eexists _, _; split; [reflexivity | by apply (bool_decide_unpack _)]].
      * change EMPTY_EXPR with (js "p" ++ js " * 0 + c * 0"). rewrite <- !app_assoc. split; [done | ].
        by rewrite !last_app.
  - change (generateExprFromVisualConfig (Some (t :: t' :: rest))) with (join (js " : ") (tier_parts 0 (t :: t' :: rest))).
    destruct (ladder_whole 0 (t :: t' :: rest) Hv Hc Hf) as (Hw & Hfr & Hl). eexists. split; [exact Hw | split; [exact Hfr | ]].
    by left.
Qed.

(** ** A written price without rules, and with them *)

Lemma front_space c : c ∈ [chr "p"; chr "c"; chr "l"; chr "t"] → is_space c = false ∧ c ≠ chr "(".
Proof. intros Hc. repeat (apply elem_of_cons in Hc as [->|Hc]; [done | ]). by apply not_elem_of_nil in Hc. Qed.

Lemma whole_part a d :
  whole a → price_front a → last a = Some d → is_space d = false → part_of (js " * ") a.
Proof.
  intros [Hb Hu] (c & rest & -> & Hc) Hl Hd. split; [ | split; [apply Hb | ]].
  - unfold solid. rewrite Hl. by apply front_space in Hc as [? _].
  - intros r [->|Hr]; apply Hu; [done | ]. destruct r as [|e r]; [done | ]. apply starts_with_spec in Hr. by injection Hr as ->.
Qed.

Lemma not_rule_front a d :
  whole a → price_front a → last a = Some d → is_space d = false → is_rule a = Ok false.
Proof.
  intros Hw Hf Hl Hd. unfold is_rule. change a with (join (js " * ") [a]).
  rewrite read_product by (done || (apply Forall_singleton; by eapply whole_part)). cbn [read_all].
  unfold tryParseRuleGroupFactor. rewrite fails_all; [done | ]. intros A k. unfold RULE_FACTOR.
  rewrite rseq_cons, matches_lit_no; [done | ]. destruct Hf as (c & rest & -> & Hc). apply front_space in Hc as [_ Hc].
  change (js "(") with [40%Z]. cbn [starts_with]. rewrite (proj2 (Z.eqb_neq 40 c)) by (chr_norm; congruence). done.
Qed.

Lemma trailing_parts : Forall (part_of (js " * ")) [js "0 + c"; js "0"].
Proof.
  assert (H : ∀ s, solid s → flat s = true → bool_decide (chr "*" ∈ s) = false → part_of (js " * ") s).
  { intros s Hs Hf Hst. apply whole_flat in Hst as [Hb Hu]; [ | done]. split; [done | split; [apply Hb | ]].
    intros r [->|Hr]; apply Hu; [done | ]. destruct r as [|e r]; [done | ]. apply starts_with_spec in Hr. by injection Hr as ->. }
  do 2 (constructor; [by apply H | ]). constructor.
Qed.

Lemma split_price config :
  readable_config config = true → config_flat config = true →
  splitBillingExprAndRequestRules (generateExprFromVisualConfig (Some config)) =
    Ok (mkSplit (generateExprFromVisualConfig (Some config)) []).
Proof.
  intros Hr Hf. destruct (price_shape config Hr Hf) as (a & Hw & Hfr & [[-> Hl]|[-> Hl]]).
  - pose proof (whole_part a _ Hw Hfr Hl eq_refl) as Hp. pose proof (proj1 Hp) as Hs.
    unfold splitBillingExprAndRequestRules, splitTopLevelMultiply. rewrite (solid_trim _ Hs), (solid_truthy _ Hs).
    assert (E : split_top (js " * ") a = [a]).
    { apply (split_top_join (js " * ") [a]); [done | by apply Forall_singleton | done]. }
    cbn [negb]. cbv zeta. by rewrite E.
  - pose proof (whole_part a _ Hw Hfr Hl eq_refl) as Hp.
    assert (Hall : Forall (part_of (js " * ")) (a :: [js "0 + c"; js "0"])) by (constructor; [done | apply trailing_parts]).
    change (a ++ js " * 0 + c * 0") with (join (js " * ") (a :: [js "0 + c"; js "0"])).
    pose proof (parts_solid [a; js "0 + c"; js "0"] ltac:(done) Hall) as Hs. unfold splitBillingExprAndRequestRules, splitTopLevelMultiply.
    rewrite (solid_trim _ Hs), (solid_truthy _ Hs). cbn [negb]. cbv zeta. rewrite split_top_join by done.
    cbn [length Nat.leb]. rewrite sort_base by (by eapply not_rule_front).
    change (sort_parts [js "0 + c"; js "0"]) with (Ok (E := thrown) ([] : list ustring, [js "0 + c"; js "0"])). done.
Qed.

Lemma price_facts config :
  readable_config config = true → config_flat config = true →
  let text := generateExprFromVisualConfig (Some config) in
  solid text ∧ balanced text ∧ ends_with (js " : 1") text = false ∧ unwrapOuterParens text = text.
Proof.
  intros Hr Hf text. assert (Hfl : price_front text ∧ balanced text ∧ ∃ d, last text = Some d ∧ d ∈ [chr ")"; chr "0"]).
  { unfold text. destruct (price_shape config Hr Hf) as (a & Hw & Hfr & [[-> Hl]|[-> Hl]]).
    - split; [done | split; [apply Hw | ]]. exists (chr ")"). split; [done | left].
    - split; [by apply front_app | split; [by apply balanced_app; [apply Hw | apply balanced_lit] | ]].
      exists (chr "0"). rewrite last_app. split; [done | right; left]. }
  clearbody text. destruct Hfl as ((c & rest & -> & Hc) & Hb & d & Hl & Hd). apply front_space in Hc as [Hsp Hpar].
  assert (Hs : solid (c :: rest)).
  { unfold solid. rewrite Hl. split; [done | ]. repeat (apply elem_of_cons in Hd as [->|Hd]; [done | ]). by apply not_elem_of_nil in Hd. }
  split; [done | split; [done | split]].
  - apply last_Some in Hl as [s ->]. unfold ends_with. rewrite reverse_snoc.
    repeat (apply elem_of_cons in Hd as [->|Hd]; [done | ]). by apply not_elem_of_nil in Hd.
  - unfold unwrapOuterParens. rewrite solid_trim by done. cbn [length unwrap_loop]. unfold hasFullOuterParens.
    change (js "(") with [40%Z]. cbn [starts_with]. rewrite (proj2 (Z.eqb_neq 40 c)) by (chr_norm; congruence). done.
Qed.

(** Separating what the expression mode shows. *)
Lemma split_written config gs :
  readable_config config = true → config_flat config = true → readable_rules gs = true →
  let expr := generateExprFromVisualConfig (Some config) in
  let rules := buildRequestRuleExpr gs in
  splitBillingExprAndRequestRules (combined_or expr rules) = Ok (mkSplit expr rules).
Proof.
  intros Hc Hf Hr. cbv zeta. destruct (price_facts config Hc Hf) as (Hs & Hb & He & Hu).
  set (expr := generateExprFromVisualConfig (Some config)) in *. unfold readable_rules in Hr. bools.
  assert (Hsep := rules_separated expr gs). rewrite (solid_trim _ Hs), (solid_truthy _ Hs), Hu in Hsep.
  match goal with H : existsb _ _ = false |- _ => rewrite H in Hsep end.
  destruct (decide (kept_groups gs = [])) as [Hk|Hk].
  - assert (Hrules : buildRequestRuleExpr gs = []).
    { unfold buildRequestRuleExpr. rewrite filter_written_groups. fold (kept_groups gs). by rewrite Hk. }
    unfold combined_or, combineBillingExpr. rewrite Hrules, (solid_trim _ Hs), (solid_truthy _ Hs). cbn [negb].
    change (trim []) with (@nil Z). cbn [truthy negb]. rewrite (solid_truthy _ Hs). by apply split_price.
  - specialize (Hsep Hb He eq_refl H Hk). cbv zeta in Hsep. unfold combined_or.
    destruct (combineBillingExpr expr (buildRequestRuleExpr gs)) as [|c rest] eqn:E; [ | done].
    exfalso. clearbody expr. change (splitBillingExprAndRequestRules []) with (Ok (E := thrown) (mkSplit [] [])) in Hsep.
    injection Hsep as <- _. done.
Qed.

(** C21: going from the visual editor to the expression mode and back shows the same
    prices and rules, as they are written, and reports the same texts. *)
Theorem mode_switch_keeps_prices_and_rules s config :
  visualConfig s = Some config → readable_config config = true → config_flat config = true →
  readable_rules (requestRuleGroups s) = true →
  ∃ s1 s2, handleModeChange Raw s = Ok s1 ∧ handleModeChange Visual s1 = Ok s2 ∧
    editorMode s2 = Visual ∧ visualConfig s2 = Some (shown_config config) ∧
    requestRuleGroups s2 = shown_group <$> kept_groups (requestRuleGroups s) ∧
    effectiveExpr s2 = Ok (generateExprFromVisualConfig (visualConfig s)) ∧
    reported_rules s2 = buildRequestRuleExpr (requestRuleGroups s).
Proof.
  intros Hcfg Hc Hf Hr. destruct (config_read config Hc) as [Hread Hgen]. pose proof (groups_read _ Hr) as Hgs.
  pose proof (split_written config _ Hc Hf Hr) as Hsplit. cbv zeta in Hsplit. rewrite <- Hcfg in Hsplit at 1.
  eexists _, _. split; [reflexivity | ]. unfold handleModeChange. cbn [rawExpr with_texts]. rewrite Hsplit.
  cbn [mbind result_bind billingExpr requestRuleExpr]. rewrite Hread, Hgs. cbn [mbind result_bind].
  split; [reflexivity | ]. unfold effectiveExpr, reported_rules.
  cbn [editorMode visualConfig requestRuleGroups with_texts]. rewrite Hgen, rules_shown, Hcfg. by repeat split.
Qed.

(** ** Samples *)

Definition sample_price : ustring := generateExprFromVisualConfig (Some readable_sample).

Lemma opening_keeps_the_texts_witness :
  ∃ s0 s1, open_editor (js "m") sample_price (buildRequestRuleExpr [night_rule; fast_rule]) = Ok s0 ∧
    commit s0 = Ok s1 ∧ commit s1 = Ok s1 ∧ shows s1 readable_sample [night_rule; fast_rule].
Proof. apply (opening_keeps_the_texts (js "m") readable_sample [night_rule; fast_rule]); vm_compute; reflexivity. Defined.

Definition sample_editor (groups : list RequestRuleGroup) : Editor :=
  mkEditor Visual (Some readable_sample) [] groups true None None (js "m") sample_price (buildRequestRuleExpr groups).

Lemma mode_switch_keeps_prices_and_rules_witness :
  ∃ s1 s2, handleModeChange Raw (sample_editor [night_rule]) = Ok s1 ∧ handleModeChange Visual s1 = Ok s2 ∧
    editorMode s2 = Visual ∧ visualConfig s2 = Some (shown_config readable_sample) ∧
    requestRuleGroups s2 = shown_group <$> kept_groups [night_rule] ∧
    effectiveExpr s2 = Ok (generateExprFromVisualConfig (Some readable_sample)) ∧
    reported_rules s2 = buildRequestRuleExpr [night_rule].
Proof.
  apply (mode_switch_keeps_prices_and_rules (sample_editor [night_rule]) readable_sample); [done | vm_compute; reflexivity..].
Defined.

(** With a guarded rule the way back shows the default price and no rule. *)
Example mode_switch_loses_guarded_rule :
  (s1 ← handleModeChange Raw (sample_editor [size_rule]); handleModeChange Visual s1) =
  Ok (mkEditor Visual (Some createDefaultVisualConfig) (combineBillingExpr sample_price (buildRequestRuleExpr [size_rule]))
        [] true None None (js "m") sample_price []).
Proof. vm_compute. reflexivity. Qed.

(** The first change of the rules after opening makes the editor read its own text: a
    guarded rule disappears from the editor and then from the parent. *)
Example first_guarded_rule_is_erased :
  (s0 ← open_editor (js "m") sample_price []; s1 ← commit s0;
   s2 ← commit (handleRuleGroupsChange [size_rule] s1); s3 ← commit s2; s4 ← commit s3;
   Ok (currentRequestRuleExpr s2, requestRuleGroups s3, currentRequestRuleExpr s4)) =
  Ok (buildRequestRuleExpr [size_rule], [], []).
Proof. vm_compute. reflexivity. Qed.
