(* ===== verification/StorageSchema.v ===== *)
(** * What the playground keeps in the browser

    The schemas of features/playground/lib/storage/storage-schema.ts.  They are values of
    the zod library, which is not part of the program: a schema is the data the source
    builds with its combinators, and parsing with a schema is an operation of the class
    [Zod], which states what the library documents.  A message is the JSON object with its
    properties; a property that is [undefined] is absent. *)

From Stdlib Require Import Lia.
From stdpp Require Import base numbers strings option sets list.
From S2P Require Import Prelude JsNumber Json ChatMessages.

Inductive schema :=
| ZString
| ZNumber
| ZBoolean
| ZEnum (names : list ustring)
| ZArray (min : nat) (element : schema)
| ZObject (shape : list (ustring * schema))
| ZOptional (s : schema)
| ZNullable (s : schema).

Definition STORAGE_VERSION : number := num_of_Z 1.

Definition playgroundConfigSchema : schema :=
  ZObject
    [(js "model", ZOptional ZString);
     (js "group", ZOptional ZString);
     (js "temperature", ZOptional ZNumber);
     (js "top_p", ZOptional ZNumber);
     (js "max_tokens", ZOptional ZNumber);
     (js "frequency_penalty", ZOptional ZNumber);
     (js "presence_penalty", ZOptional ZNumber);
     (js "seed", ZOptional (ZNullable ZNumber));
     (js "stream", ZOptional ZBoolean)].

Definition parameterEnabledSchema : schema :=
  ZObject
    [(js "temperature", ZOptional ZBoolean);
     (js "top_p", ZOptional ZBoolean);
     (js "max_tokens", ZOptional ZBoolean);
     (js "frequency_penalty", ZOptional ZBoolean);
     (js "presence_penalty", ZOptional ZBoolean);
     (js "seed", ZOptional ZBoolean)].

Definition messageRoleSchema : schema := ZEnum [js "user"; js "assistant"; js "system"].

Definition messageStatusSchema : schema :=
  ZEnum [js "loading"; js "streaming"; js "complete"; js "error"].

Definition messageVersionSchema : schema := ZObject [(js "id", ZString); (js "content", ZString)].

Definition sourceSchema : schema := ZObject [(js "href", ZString); (js "title", ZString)].

Definition reasoningSchema : schema :=
  ZObject
    [(js "content", ZString);
     (js "duration", ZNumber);
     (js "startedAt", ZOptional ZNumber);
     (js "completedAt", ZOptional ZNumber);
     (js "durationMs", ZOptional ZNumber)].

Definition messageSchema : schema :=
  ZObject
    [(js "key", ZString);
     (js "from", messageRoleSchema);
     (js "versions", ZArray 1 messageVersionSchema);
     (js "createdAt", ZOptional ZNumber);
     (js "startedAt", ZOptional ZNumber);
     (js "completedAt", ZOptional ZNumber);
     (js "durationMs", ZOptional ZNumber);
     (js "sources", ZOptional (ZArray 0 sourceSchema));
     (js "reasoning", ZOptional reasoningSchema);
     (js "isReasoningStreaming", ZOptional ZBoolean);
     (js "isReasoningComplete", ZOptional ZBoolean);
     (js "isContentComplete", ZOptional ZBoolean);
     (js "status", ZOptional messageStatusSchema);
     (js "errorCode", ZOptional (ZNullable ZString))].

Definition messagesSchema : schema := ZArray 0 messageSchema.

(** ** What parsing with a schema promises *)

Definition is_optional (s : schema) : bool := match s with ZOptional _ => true | _ => false end.

(** The values a schema describes; an object may have more properties. *)
Fixpoint conforms (s : schema) (v : json) {struct s} : bool :=
  match s with
  | ZString => isString (Some v)
  | ZNumber => match v with JNumber n => is_finite n | _ => false end
  | ZBoolean => isBoolean (Some v)
  | ZEnum names => match v with JString t => bool_decide (t ∈ names) | _ => false end
  | ZArray min element =>
      match v with JArray vs => (min <=? length vs) && forallb (conforms element) vs | _ => false end
  | ZObject shape =>
      match v with
      | JObject fields =>
          (fix entries (shape : list (ustring * schema)) : bool :=
             match shape with
             | [] => true
             | (name, s) :: rest =>
                 match field fields name with Some w => conforms s w | None => is_optional s end && entries rest
             end) shape
      | _ => false
      end
  | ZOptional s => conforms s v
  | ZNullable s => match v with JNull => true | _ => conforms s v end
  end.

(** The described part of a value: an object keeps the properties of the shape. *)
Fixpoint strip (s : schema) (v : json) {struct s} : json :=
  match s with
  | ZArray _ element => match v with JArray vs => JArray (map (strip element) vs) | _ => v end
  | ZObject shape =>
      match v with
      | JObject fields =>
          JObject
            ((fix entries (shape : list (ustring * schema)) : list (ustring * json) :=
                match shape with
                | [] => []
                | (name, s) :: rest =>
                    match field fields name with
                    | Some w => (name, strip s w) :: entries rest
                    | None => entries rest
                    end
                end) shape)
      | _ => v
      end
  | ZOptional s => strip s v
  | ZNullable s => strip s v
  | ZString | ZNumber | ZBoolean | ZEnum _ => v
  end.

(** [schema.parse(value)], [None] when it throws: what a schema does not describe is
    refused, and what it describes is cloned without the properties it does not name. *)
Class Zod := {
  zod_parse : schema → json → option json;
  zod_accepts : ∀ s v, conforms s v = true → zod_parse s v = Some (strip s v);
  zod_refuses : ∀ s v, conforms s v = false → zod_parse s v = None;
}.

(** The promise can be kept. *)
Definition zod_reference : Zod.
Proof.
  refine {| zod_parse := fun s v => if conforms s v then Some (strip s v) else None |};
    by intros s v ->.
Defined.

(** ** Messages as values *)

(** The properties of an object literal, without those that are [undefined]. *)
Definition present (fields : list (ustring * option json)) : list (ustring * json) :=
  omap (fun f => pair f.1 <$> f.2) fields.

Definition role_name (r : MessageRole) : ustring :=
  match r with RUser => js "user" | RAssistant => js "assistant" | RSystem => js "system" end.

Definition status_name (s : MessageStatus) : ustring :=
  match s with
  | SLoading => js "loading" | SStreaming => js "streaming" | SComplete => js "complete" | SError => js "error"
  end.

Definition version_json (v : MessageVersion) : json :=
  JObject [(js "id", JString (version_id v)); (js "content", JString (content v))].

Definition source_json (s : ustring * ustring) : json :=
  JObject [(js "href", JString s.1); (js "title", JString s.2)].

Definition reasoning_json (r : Reasoning) : json :=
  JObject (present
    [(js "content", Some (JString (reasoning_content r)));
     (js "duration", Some (JNumber (duration r)));
     (js "startedAt", JNumber <$> reasoning_startedAt r);
     (js "completedAt", JNumber <$> reasoning_completedAt r);
     (js "durationMs", JNumber <$> reasoning_durationMs r)]).

Definition message_json (m : Message) : json :=
  JObject (present
    [(js "key", Some (JString (key m)));
     (js "from", Some (JString (role_name (from m))));
     (js "versions", Some (JArray (map version_json (versions m))));
     (js "createdAt", JNumber <$> createdAt m);
     (js "startedAt", JNumber <$> startedAt m);
     (js "completedAt", JNumber <$> completedAt m);
     (js "durationMs", JNumber <$> durationMs m);
     (js "sources", (fun l => JArray (map source_json l)) <$> sources m);
     (js "reasoning", reasoning_json <$> reasoning m);
     (js "isReasoningStreaming", JBool <$> isReasoningStreaming m);
     (js "isReasoningComplete", JBool <$> isReasoningComplete m);
     (js "isContentComplete", JBool <$> isContentComplete m);
     (js "status", (fun s => JString (status_name s)) <$> status m);
     (js "errorCode", (fun c => match c with Some c => JString c | None => JNull end) <$> errorCode m)]).

Definition messages_json (ms : list Message) : json := JArray (map message_json ms).

(** Reading a parsed value as messages: each property with the type its schema gives it. *)
Definition text_of (v : option json) : ustring := default [] (asString v).
Definition number_of (v : option json) : number := default zero (asNumber v).

Definition role_of (v : option json) : MessageRole :=
  if isText v (js "assistant") then RAssistant else if isText v (js "system") then RSystem else RUser.

Definition status_of (t : ustring) : MessageStatus :=
  if ustring_eqb t (js "loading") then SLoading
  else if ustring_eqb t (js "streaming") then SStreaming
  else if ustring_eqb t (js "complete") then SComplete else SError.

Definition elements_of (v : json) : list json := match v with JArray vs => vs | _ => [] end.

Definition version_of (v : json) : MessageVersion :=
  mkVersion (text_of (get v (js "id"))) (text_of (get v (js "content"))).

Definition source_of (v : json) : ustring * ustring :=
  (text_of (get v (js "href")), text_of (get v (js "title"))).

Definition reasoning_of (v : json) : Reasoning :=
  mkReasoning (text_of (get v (js "content"))) (number_of (get v (js "duration")))
    (asNumber (get v (js "startedAt"))) (asNumber (get v (js "completedAt"))) (asNumber (get v (js "durationMs"))).

Definition message_of (v : json) : Message :=
  mkMessage (text_of (get v (js "key"))) (role_of (get v (js "from")))
    (map version_of (default [] (elements_of <$> get v (js "versions"))))
    (asNumber (get v (js "createdAt"))) (asNumber (get v (js "startedAt")))
    (asNumber (get v (js "completedAt"))) (asNumber (get v (js "durationMs")))
    ((fun l => map source_of (elements_of l)) <$> get v (js "sources"))
    (reasoning_of <$> get v (js "reasoning"))
    (asBoolean (get v (js "isReasoningStreaming"))) (asBoolean (get v (js "isReasoningComplete")))
    (asBoolean (get v (js "isContentComplete")))
    (status_of <$> asString (get v (js "status")))
    ((fun c => asString (Some c)) <$> get v (js "errorCode")).

Definition messages_of (v : json) : list Message := map message_of (elements_of v).

(** ** Objects and shapes *)

Definition entry_conforms (fields : list (ustring * json)) (e : ustring * schema) : bool :=
  match field fields e.1 with Some w => conforms e.2 w | None => is_optional e.2 end.

Definition entry_strip (fields : list (ustring * json)) (e : ustring * schema) : option (ustring * json) :=
  (fun w => (e.1, strip e.2 w)) <$> field fields e.1.

Lemma conforms_object shape fields :
  conforms (ZObject shape) (JObject fields) = forallb (entry_conforms fields) shape.
Proof. cbn [conforms]. induction shape as [|[name s] shape IH]; [done | ]. cbn [forallb]. by rewrite IH. Qed.

Lemma strip_object shape fields :
  strip (ZObject shape) (JObject fields) = JObject (omap (entry_strip fields) shape).
Proof.
  cbn [strip]. f_equal. induction shape as [|[name s] shape IH]; [done | ]. simpl. unfold entry_strip at 1. simpl.
  by rewrite IH; destruct (field fields name).
Qed.

(** The value an object literal gives a name. *)
Fixpoint look (fields : list (ustring * option json)) (name : ustring) : option json :=
  match fields with
  | [] => None
  | (k, v) :: rest => if ustring_eqb k name then v else look rest name
  end.

Lemma field_absent fields name : name ∉ map fst fields → field fields name = None.
Proof.
  induction fields as [|[k v] fields IH]; [done | ]. cbn [map fst field]. intros Hn. unfold ustring_eqb.
  rewrite bool_decide_false by set_solver. apply IH. set_solver.
Qed.

Lemma present_names fields name : name ∈ map fst (present fields) → name ∈ map fst fields.
Proof.
  induction fields as [|[k [v|]] fields IH]; [done | | ]; simpl; set_solver.
Qed.

Lemma field_present fields name :
  NoDup (map fst fields) → field (present fields) name = look fields name.
Proof.
  induction fields as [|[k o] fields IH]; [done | ]. cbn [map fst look]. intros [Hk Hd]%NoDup_cons.
  destruct o as [v|]; simpl.
  - destruct (ustring_eqb k name); [done | by apply IH].
  - change (omap (fun f : ustring * option json => pair f.1 <$> f.2) fields) with (present fields).
    destruct (ustring_eqb k name) eqn:E; [ | by apply IH]. unfold ustring_eqb in E. bools. subst.
    apply field_absent. intros Hin. apply Hk, present_names, Hin.
Qed.

Lemma get_strip shape fields name s :
  NoDup (map fst shape) → (name, s) ∈ shape →
  get (strip (ZObject shape) (JObject fields)) name = strip s <$> field fields name.
Proof.
  intros Hd Hin. rewrite strip_object. cbn [get]. induction shape as [|[k s'] shape IH]; [by apply not_elem_of_nil in Hin | ].
  cbn [map fst] in Hd. apply NoDup_cons in Hd as [Hk Hd].
  assert (Hnames : ∀ n, n ∈ map fst (omap (entry_strip fields) shape) → n ∈ map fst shape).
  { intros n (f & -> & Hf)%list_elem_of_fmap. apply list_elem_of_omap in Hf as (e & He & Hs).
    unfold entry_strip in Hs. destruct (field fields e.1); [ | done]. simpl in Hs. simplify_eq. simpl.
    apply list_elem_of_fmap. eauto. }
  apply elem_of_cons in Hin as [[= <- <-]|Hin].
  - cbn [omap list_omap]. unfold entry_strip at 1. cbn [fst snd]. destruct (field fields name) as [w|]; simpl.
    + unfold ustring_eqb. by rewrite bool_decide_true.
    + apply field_absent. intros Hn. apply Hk, Hnames, Hn.
  - assert (Hne : k ≠ name). { intros <-. apply Hk, list_elem_of_fmap. by exists (k, s). }
    cbn [omap list_omap]. unfold entry_strip at 1. cbn [fst snd]. destruct (field fields k) as [w|]; simpl.
    + unfold ustring_eqb. rewrite bool_decide_false by done. by apply IH.
    + by apply IH.
Qed.

(** A literal with the names of a shape, each value already stripped, is kept. *)
Lemma strip_literal shape fields :
  map fst fields = map fst shape → NoDup (map fst shape) →
  Forall2 (fun e f => ∀ v, f.2 = Some v → strip e.2 v = v) shape fields →
  strip (ZObject shape) (JObject (present fields)) = JObject (present fields).
Proof.
  intros Hn Hd Hs. rewrite strip_object. f_equal.
  assert (H : ∀ front, NoDup (map fst (front ++ fields)) →
    omap (entry_strip (present (front ++ fields))) shape = present fields).
  { clear Hd. revert Hn. induction Hs as [|[name s] [k o] shape fields Hv Hs IH]; intros Hn front Hd; [done | ].
    cbn [map fst] in Hn. injection Hn as -> Hn. cbn [omap list_omap]. unfold entry_strip at 1. cbn [fst snd].
    rewrite field_present by done.
    assert (Hl : look (front ++ (name, o) :: fields) name = o).
    { clear IH. induction front as [|[k' o'] front IHd]; cbn [app look]; unfold ustring_eqb; [by rewrite bool_decide_true | ].
      cbn [app map fst] in Hd. apply NoDup_cons in Hd as [Hk Hd]. rewrite bool_decide_false by
        (intros ->; apply Hk; rewrite map_app; simpl; set_solver). by apply IHd. }
    rewrite Hl. specialize (IH Hn (front ++ [(name, o)])). rewrite <- app_assoc in IH. cbn [app] in IH.
    destruct o as [v|]; simpl; rewrite IH by done; [ | done]. pose proof (Hv v eq_refl) as E. cbn [snd] in E. by rewrite E. }
  apply (H []). simpl. by rewrite Hn.
Qed.

(** ** Messages and their values *)

Lemma map_id_on {A B} (f : A → B) (g : B → A) l : (∀ x, g (f x) = x) → map g (map f l) = l.
Proof. intros H. rewrite map_map. induction l; simpl; [done | by rewrite H; f_equal]. Qed.

Lemma reasoning_of_json r : reasoning_of (reasoning_json r) = r.
Proof. by destruct r as [c d [s|] [e|] [ms|]]. Qed.

Lemma message_of_json m : message_of (message_json m) = m.
Proof.
  destruct m as [k f vs ca sa co du so re irs irc icc st ec]. unfold message_of, message_json. cbn [get].
  rewrite !field_present by (apply (bool_decide_unpack _); vm_compute; exact I).
  f_equal.
  - by destruct f.
  - apply (map_id_on version_json version_of). by intros [].
  - by destruct ca.
  - by destruct sa.
  - by destruct co.
  - by destruct du.
  - destruct so as [l|]; [ | done]. simpl. f_equal. apply (map_id_on source_json source_of). by intros [].
  - destruct re as [r|]; [ | done]. simpl. f_equal. apply reasoning_of_json.
  - by destruct irs.
  - by destruct irc.
  - by destruct icc.
  - by destruct st as [[]|].
  - by destruct ec as [[]|].
Qed.

Lemma messages_of_json ms : messages_of (messages_json ms) = ms.
Proof. apply (map_id_on message_json message_of), message_of_json. Qed.

Lemma strip_message m : strip messageSchema (message_json m) = message_json m.
Proof.
  apply strip_literal; [done | apply (bool_decide_unpack _); vm_compute; exact I | ].
  repeat (apply Forall2_cons; split; [cbn [fst snd]; intros v Hv | ]); [ .. | by apply Forall2_nil].
  all: try (simplify_eq; done).
  - simplify_eq. cbn [strip]. f_equal. rewrite map_map. by apply map_ext.
  - destruct (sources m) as [l|]; [ | done]. simplify_eq/=. f_equal. rewrite map_map. by apply map_ext.
  - destruct (reasoning m) as [r|]; [ | done]. simplify_eq/=. by destruct r as [c d [s|] [e|] [ms|]].
Qed.

Lemma strip_messages ms : strip messagesSchema (messages_json ms) = messages_json ms.
Proof.
  unfold messagesSchema, messages_json. cbn [strip]. f_equal. rewrite map_map.
  apply map_ext. intros m. apply strip_message.
Qed.

(** A parsed message has a version. *)
Lemma conforms_versions v : conforms messageSchema v = true → versions (message_of (strip messageSchema v)) ≠ [].
Proof.
  destruct v as [| | | | |fields]; try done. unfold messageSchema at 1. rewrite conforms_object. intros H.
  rewrite forallb_forall in H. specialize (H (js "versions", ZArray 1 messageVersionSchema)).
  unfold entry_conforms in H. cbn [fst snd] in H.
  destruct (field fields (js "versions")) as [w|] eqn:E; [ | discriminate H; simpl; tauto].
  unfold message_of. cbn [versions]. unfold messageSchema.
  rewrite (get_strip _ _ (js "versions") (ZArray 1 messageVersionSchema)), E;
    [ | apply (bool_decide_unpack _); vm_compute; exact I | do 2 apply list_elem_of_further; apply list_elem_of_here].
  assert (Hw : conforms (ZArray 1 messageVersionSchema) w = true) by (apply H; simpl; tauto).
  destruct w as [| | | |[|x vs]|]; done.
Qed.

Lemma conforms_messages v :
  conforms messagesSchema v = true → Forall (fun m => versions m ≠ []) (messages_of (strip messagesSchema v)).
Proof.
  destruct v as [| | | |vs|]; try done. cbn [conforms messagesSchema]. intros H. apply andb_true_iff in H as [_ H].
  rewrite forallb_forall in H. unfold messages_of, messagesSchema. cbn [strip elements_of]. rewrite !Forall_map.
  apply Forall_forall. intros v Hv. apply conforms_versions, H. by apply list_elem_of_In.
Qed.
