(* ===== verification/MessageStorage.v ===== *)
(** * The conversation kept in the browser

    features/playground/lib/storage/storage.ts: the conversation and the settings of the
    playground are kept as texts in local storage, in an envelope with a version, and are
    checked, shortened and repaired when they are loaded.  The clock reading [now], the
    translations [t] and the limit of the browser, [fits], are arguments; [setItem] throws
    and keeps the storage when the new content does not fit. *)

From Stdlib Require Import Lia.
From stdpp Require Import base numbers strings option sets list.
From S2P Require Import Prelude JsNumber Json JsonText BrowserStorage ThinkTags ChatMessages Regex JsonPrint JsonStringify StorageSchema.

Definition MAX_STORED_MESSAGES : nat := 100.
Definition MAX_STORED_MESSAGES_BYTES : Z := 1024 * 1024.
Definition MAX_LOADED_MESSAGES_CHARS : Z := 120000.
Definition MAX_LOADED_MESSAGE_CHARS : Z := 40000.

Definition TRUNCATED_CONTENT_SUFFIX : ustring := [NEWLINE; NEWLINE] ++ js "[...]".
Definition MIN_PREFIX_COLLAPSE_LENGTH : nat := 2000.
Definition MIN_REPEATED_SECTION_COUNT : nat := 3.

(** [text.length]. *)
Definition size (text : ustring) : Z := Z.of_nat (length text).

(** ** Reading and writing *)

(** [Some None] is [null] and [None] a text that is not JSON. *)
Definition readStoredValue (st : localStorage) (k : ustring) : option (option json) :=
  match getItem st k with
  | None => Some None
  | Some saved => if truthy saved then Some <$> JSON_parse saved else Some None
  end.

Definition readStoredMessagesValue (st : localStorage) : option (option json) * localStorage :=
  match getItem st MESSAGES_KEY with
  | None => (Some None, st)
  | Some saved =>
      if negb (truthy saved) then (Some None, st)
      else if (MAX_STORED_MESSAGES_BYTES <? size saved)%Z then (Some None, removeItem st MESSAGES_KEY)
      else (Some <$> JSON_parse saved, st)
  end.

Definition unwrapStoredValue (value : json) : json :=
  match value with
  | JObject fields =>
      match field fields (js "version"), field fields (js "data") with
      | Some _, Some data => data
      | _, _ => value
      end
  | _ => value
  end.

Definition envelope (data : json) : json :=
  JObject [(js "version", JNumber STORAGE_VERSION); (js "data", data)].

Definition writeStoredValue (fits : localStorage → bool) (st : localStorage) (k : ustring) (data : json)
    : localStorage :=
  let st' := setItem st k (JSON_stringify (envelope data)) in
  if fits st' then st' else st.

(** ** Shortening *)

Definition trimMessages (messages : list Message) : list Message :=
  if length messages <=? MAX_STORED_MESSAGES then messages
  else drop (length messages - MAX_STORED_MESSAGES) messages.

Definition getMessageSize (m : Message) : Z :=
  (foldl (fun total v => total + size (content v)) 0 (versions m) +
   match reasoning m with Some r => size (reasoning_content r) | None => 0 end)%Z.

Definition truncateText (text : ustring) (maxLength : Z) : ustring :=
  if (size text <=? maxLength)%Z then text
  else if (maxLength <=? size TRUNCATED_CONTENT_SUFFIX)%Z then take (Z.to_nat maxLength) text
  else take (Z.to_nat (maxLength - size TRUNCATED_CONTENT_SUFFIX)) text ++ TRUNCATED_CONTENT_SUFFIX.

(** [/^#{2,6}\s+\d+\.\s+.+$/gm]: with the flag [m] a match starts at the front of a line.
    The last repetition takes the rest of the line, so [$] holds after it. *)
Definition rhash : regex := RChar (is_char (chr "#")).

Definition SECTION_HEADING_LINE_PATTERN : regex :=
  rseq [rhash; rhash; ropt (RSeq rhash (ropt (RSeq rhash (ropt (RSeq rhash (ropt rhash))))));
        rplus (RChar is_space); rplus (RChar is_digit); RChar (is_char (chr ".")); rplus (RChar is_space);
        rplus (RChar (fun c => negb (is_line_end c)))].

Definition line_start (prev : option Z) : bool :=
  match prev with None => true | Some c => is_line_end c end.

Record SectionOccurrence := mkOccurrence { heading : ustring; index : nat }.

(** The matches from the place [i] on, [prev] the unit before it. *)
Fixpoint sections_from (fuel : nat) (i : nat) (prev : option Z) (text : ustring) : list SectionOccurrence :=
  match fuel with
  | 0 => []
  | S fuel =>
      match (if line_start prev then match_here SECTION_HEADING_LINE_PATTERN text else None) with
      | Some (rest, _) =>
          let matched := take (length text - length rest) text in
          mkOccurrence matched i :: sections_from fuel (i + length matched) (last matched) rest
      | None =>
          match text with
          | [] => []
          | c :: rest => sections_from fuel (S i) (Some c) rest
          end
      end
  end.

Definition getSectionOccurrences (text : ustring) : list SectionOccurrence :=
  sections_from (S (length text)) 0 None text.

(** [headingCounts.get(heading) ?? 0]. *)
Definition getHeadingCounts (occurrences : list SectionOccurrence) (h : ustring) : nat :=
  length (filter (fun o => heading o = h) occurrences).

(** The loop of [findLastRepeatedSectionRunStart] over the occurrences from the last to the
    first: the places pushed. *)
Fixpoint repeated_indexes (counts : ustring → nat) (seen : list ustring) (l : list SectionOccurrence) : list nat :=
  match l with
  | [] => []
  | o :: rest =>
      if (counts (heading o) <? MIN_REPEATED_SECTION_COUNT) || bool_decide (heading o ∈ seen)
      then repeated_indexes counts seen rest
      else index o :: repeated_indexes counts (heading o :: seen) rest
  end.

(** [None] is [-1]. *)
Definition findLastRepeatedSectionRunStart (text : ustring) : option nat :=
  let occurrences := getSectionOccurrences text in
  match repeated_indexes (getHeadingCounts occurrences) [] (reverse occurrences) with
  | [] => None
  | i :: rest => Some (foldl Nat.min i rest)
  end.

Definition collapseRepeatedSectionSnapshots (text : ustring) : ustring :=
  if length text <? MIN_PREFIX_COLLAPSE_LENGTH then text
  else
    match findLastRepeatedSectionRunStart text with
    | None => text
    | Some start => drop start text
    end.

Definition loaded_version (v : MessageVersion) : MessageVersion :=
  mkVersion (version_id v)
    (truncateText (collapseRepeatedSectionSnapshots (content v)) MAX_LOADED_MESSAGE_CHARS).

Definition loaded_reasoning (r : Reasoning) : Reasoning :=
  set_content (truncateText (reasoning_content r) MAX_LOADED_MESSAGE_CHARS) r.

(** The first half of [normalizeStoredMessageForLoad]: the texts made short. *)
Definition shorten_message (m : Message) : Message :=
  with_reasoning (loaded_reasoning <$> reasoning m) (isReasoningStreaming m)
    (with_versions (map loaded_version (versions m)) m).

(** [a ?? b]. *)
Definition or_else {A} (a b : option A) : option A := match a with Some x => Some x | None => b end.

Definition normalizeStoredMessageForLoad (now : number) (m : Message) : Message :=
  let normalized := shorten_message m in
  if negb (isAssistantMessagePending normalized) then normalized
  else if negb (hasMessageContent normalized) && negb (has_reasoning_text normalized) then normalized
  else
    let completed :=
      default now
        (or_else (completedAt normalized)
          (or_else (reasoning normalized ≫= reasoning_completedAt)
            (or_else (startedAt normalized) (createdAt normalized)))) in
    let finalized := finalizeMessage normalized None now in
    completeAssistantTiming
      (with_reasoning (reasoning finalized) (Some false) (with_status SComplete finalized)) completed.

(** The loop of [trimMessagesByContentSize], over the messages from the last to the first;
    [result] is in reverse order. *)
Fixpoint size_loop (rest result : list Message) (totalSize : Z) : list Message :=
  match rest with
  | [] => result
  | m :: rest =>
      if (0 <? length result) && (MAX_LOADED_MESSAGES_CHARS <? totalSize + getMessageSize m)%Z then result
      else size_loop rest (m :: result) (totalSize + getMessageSize m)
  end.

Definition trimMessagesByContentSize (messages : list Message) : list Message :=
  size_loop (reverse messages) [] 0.

Section storage.
  Context {zod : Zod} (fits : localStorage → bool).

(** ** Messages *)

Definition saveMessages (st : localStorage) (messages : list Message) : localStorage :=
  match zod_parse messagesSchema (messages_json (trimMessages messages)) with
  | Some parsed => writeStoredValue fits st MESSAGES_KEY parsed
  | None => st
  end.

Section load.
  Context (t : ustring → ustring) (now : number).

(** What becomes of the parsed messages. *)
Definition repair (parsed : list Message) : list Message :=
  sanitizeMessagesOnLoad t
    (trimMessagesByContentSize (trimMessages (map (normalizeStoredMessageForLoad now) parsed))) now.

(** [trimMessagesByContentSize] returns an array of its own, so [sizeTrimmed !== trimmed]
    always holds and the repaired conversation is always saved. *)
Definition loadMessages (st : localStorage) : option (list Message) * localStorage :=
  match readStoredMessagesValue st with
  | (None, st) => (None, st)
  | (Some None, st) => (None, st)
  | (Some (Some saved), st) =>
      if negb (truthy_json (Some saved)) then (None, st)
      else
        match zod_parse messagesSchema (unwrapStoredValue saved) with
        | None => (None, st)
        | Some parsed =>
            let sanitized := repair (messages_of parsed) in
            (Some sanitized, saveMessages st sanitized)
        end
  end.
End load.

(** ** Settings: partial objects of [playgroundConfigSchema] and [parameterEnabledSchema] *)

Definition loadSettings (s : schema) (k : ustring) (st : localStorage) : json :=
  match readStoredValue st k with
  | Some (Some saved) =>
      if truthy_json (Some saved) then default (JObject []) (zod_parse s (unwrapStoredValue saved))
      else JObject []
  | _ => JObject []
  end.

Definition saveSettings (s : schema) (k : ustring) (st : localStorage) (settings : json) : localStorage :=
  match zod_parse s settings with
  | Some parsed => writeStoredValue fits st k parsed
  | None => st
  end.

Definition loadConfig : localStorage → json := loadSettings playgroundConfigSchema CONFIG_KEY.
Definition saveConfig : localStorage → json → localStorage := saveSettings playgroundConfigSchema CONFIG_KEY.

Definition loadParameterEnabled : localStorage → json :=
  loadSettings parameterEnabledSchema PARAMETER_ENABLED_KEY.
Definition saveParameterEnabled : localStorage → json → localStorage :=
  saveSettings parameterEnabledSchema PARAMETER_ENABLED_KEY.
End storage.
