(* ===== verification/MessageStorageProperties.v ===== *)
(** * Properties of the conversation kept in the browser

    Bounds of the texts that are loaded, what loading keeps of a saved conversation and
    what is lost. *)

From Stdlib Require Import Lia Sorted.
From stdpp Require Import base numbers strings option sets list.
From S2P Require Import Prelude JsNumber Json JsonText BrowserStorage ThinkTags ChatMessages ChatProperties Regex JsonPrint JsonStringify StorageSchema MessageStorage.

(** ** Suffixes *)

Lemma trimMessages_drop ms : ∃ n, trimMessages ms = drop n ms.
Proof. unfold trimMessages. destruct (_ <=? _); [by exists 0 | eauto]. Qed.

Lemma trimMessages_length ms : length (trimMessages ms) ≤ MAX_STORED_MESSAGES.
Proof. unfold trimMessages. destruct (Nat.leb_spec (length ms) MAX_STORED_MESSAGES); [done | ]. rewrite length_drop. lia. Qed.

Lemma trimMessages_short ms : length ms ≤ MAX_STORED_MESSAGES → trimMessages ms = ms.
Proof. intros H. unfold trimMessages. by rewrite (proj2 (Nat.leb_le _ _) H). Qed.

Lemma Forall_trim (P : Message → Prop) ms : Forall P ms → Forall P (trimMessages ms).
Proof. intros H. destruct (trimMessages_drop ms) as [n ->]. by apply Forall_drop. Qed.

Definition total_size (ms : list Message) : Z := foldr (fun m n => getMessageSize m + n)%Z 0%Z ms.

Lemma versions_size_nonneg vs n : (0 ≤ n → 0 ≤ foldl (fun total v => total + size (content v)) n vs)%Z.
Proof. revert n. induction vs as [|v vs IH]; intros n Hn; [done | ]. simpl. apply IH. unfold size. lia. Qed.

Lemma getMessageSize_nonneg m : (0 ≤ getMessageSize m)%Z.
Proof.
  unfold getMessageSize. pose proof (versions_size_nonneg (versions m) 0 ltac:(lia)).
  destruct (reasoning m); unfold size in *; lia.
Qed.

(** The loop stops at the first message, from the end, that does not fit. *)
Lemma size_loop_spec front result :
  (total_size result ≤ MAX_LOADED_MESSAGES_CHARS)%Z ∨ length result ≤ 1 →
  ∃ n kept, size_loop (reverse front) result (total_size result) = kept ∧ kept = drop n (front ++ result) ∧ n ≤ length front ∧
    ((total_size kept ≤ MAX_LOADED_MESSAGES_CHARS)%Z ∨ length kept ≤ 1) ∧
    (∀ m, n ≠ 0 → front !! (n - 1) = Some m → (MAX_LOADED_MESSAGES_CHARS < total_size (m :: kept))%Z).
Proof.
  revert result. induction front as [|m front IH] using rev_ind; intros result Hr.
  { exists 0, result. simpl. repeat split; [lia | done | ]. intros m H. done. }
  rewrite reverse_snoc. cbn [size_loop].
  destruct ((0 <? length result) && (MAX_LOADED_MESSAGES_CHARS <? total_size result + getMessageSize m)%Z) eqn:E.
  - bools. exists (length (front ++ [m])), result. rewrite drop_app_length. repeat split; [done | done | ].
    intros m' _ Hm. rewrite length_app in Hm. simpl in Hm. replace (length front + 1 - 1) with (length front) in Hm by lia.
    rewrite list_lookup_middle in Hm by done. simplify_eq. simpl. lia.
  - replace (total_size result + getMessageSize m)%Z with (total_size (m :: result)) in * by (simpl; lia).
    destruct (IH (m :: result)) as (n & kept & Hk & -> & Hn & Hsz & Hmax).
    { apply andb_false_iff in E as [E|E]; bools; [right | left; lia]. destruct result; simpl in *; lia. }
    exists n, (drop n (front ++ m :: result)). rewrite Hk, <- !app_assoc. cbn [app].
    split; [done | ]. split; [done | ]. split; [rewrite length_app; lia | ]. split; [exact Hsz | ].
    intros m' H0 Hm. apply Hmax; [done | ]. by rewrite lookup_app_l in Hm by lia.
Qed.

Lemma trimMessagesByContentSize_spec ms :
  ∃ n, n ≤ length ms ∧ trimMessagesByContentSize ms = drop n ms ∧
    ((total_size (drop n ms) ≤ MAX_LOADED_MESSAGES_CHARS)%Z ∨ length (drop n ms) ≤ 1) ∧
    (∀ m, n ≠ 0 → ms !! (n - 1) = Some m → (MAX_LOADED_MESSAGES_CHARS < total_size (m :: drop n ms))%Z).
Proof.
  destruct (size_loop_spec ms []) as (n & kept & Hk & -> & Hn & Hsz & Hmax); [right; simpl; lia | ].
  rewrite app_nil_r in *. by exists n.
Qed.

Lemma Forall_size_trim (P : Message → Prop) ms : Forall P ms → Forall P (trimMessagesByContentSize ms).
Proof. intros H. destruct (trimMessagesByContentSize_spec ms) as (n & _ & -> & _). by apply Forall_drop. Qed.

Lemma total_size_drop n ms : (total_size (drop n ms) ≤ total_size ms)%Z.
Proof.
  revert n. induction ms as [|m ms IH]; intros [|n]; simpl; try lia. specialize (IH n).
  pose proof (getMessageSize_nonneg m). lia.
Qed.

Lemma trimMessagesByContentSize_small ms :
  (total_size ms ≤ MAX_LOADED_MESSAGES_CHARS)%Z → trimMessagesByContentSize ms = ms.
Proof.
  intros Hsz. destruct (trimMessagesByContentSize_spec ms) as (n & Hn & -> & _ & Hmax).
  destruct n as [|n]; [done | ]. destruct (lookup_lt_is_Some_2 ms n) as [m Hm]; [lia | ].
  cbn [Nat.sub] in Hmax. rewrite Nat.sub_0_r in Hmax. specialize (Hmax m ltac:(done) Hm).
  rewrite <- (drop_S _ _ _ Hm) in Hmax. pose proof (total_size_drop n ms). lia.
Qed.

(** ** Texts *)

Lemma size_app a b : size (a ++ b) = (size a + size b)%Z.
Proof. unfold size. rewrite length_app. lia. Qed.

Lemma truncateText_size text n : (0 ≤ n → size (truncateText text n) ≤ n)%Z.
Proof.
  intros Hn. unfold truncateText. destruct (Z.leb_spec (size text) n); [done | ].
  destruct (Z.leb_spec n (size TRUNCATED_CONTENT_SUFFIX)).
  - unfold size. rewrite length_take. lia.
  - rewrite size_app. unfold size at 1. rewrite length_take. lia.
Qed.

Lemma truncateText_short text n : (size text ≤ n)%Z → truncateText text n = text.
Proof. intros H. unfold truncateText. by rewrite (proj2 (Z.leb_le _ _) H). Qed.

Lemma collapse_short text :
  length text < MIN_PREFIX_COLLAPSE_LENGTH → collapseRepeatedSectionSnapshots text = text.
Proof. intros H. unfold collapseRepeatedSectionSnapshots. by rewrite (proj2 (Nat.ltb_lt _ _) H). Qed.

Lemma join_le sep ws : length (join sep ws) ≤ sum_list_with (fun w => length w + length sep) ws.
Proof.
  induction ws as [|w [|w' ws] IH]; [done | simpl; lia | ]. change (join sep (w :: w' :: ws)) with (w ++ sep ++ join sep (w' :: ws)).
  rewrite !length_app. change (sum_list_with ?f (w :: ?l)) with (f w + sum_list_with f l). cbv beta. lia.
Qed.

(** Separating the reasoning makes no text longer. *)
Lemma think_split_length s vs rs b :
  think_split s vs rs b →
  length (join [] vs) ≤ length s ∧ sum_list_with (fun w => length w + length [NEWLINE; NEWLINE]) rs ≤ length s.
Proof.
  assert (Hp : ∀ v vs, length (join [] (part v ++ vs)) ≤ length v + length (join [] vs)).
  { intros [|c v] vs'; [done | ]. cbn [part app]. destruct vs' as [|w ws]; [simpl; lia | ].
    change (join [] ((c :: v) :: w :: ws)) with ((c :: v) ++ [] ++ join [] (w :: ws)). rewrite !length_app. simpl length. lia. }
  induction 1 as [s E | v r E1 E2 | v r s vs rs b E1 E2 H [IH1 IH2]].
  - specialize (Hp s []). rewrite app_nil_r in Hp. simpl in *. lia.
  - specialize (Hp v []). rewrite app_nil_r in Hp. rewrite !length_app. change (length OPEN_TAG) with 7. simpl in *. lia.
  - specialize (Hp v vs). rewrite !length_app. change (length OPEN_TAG) with 7. change (length CLOSE_TAG) with 8.
    cbn [sum_list_with]. change (length [NEWLINE; NEWLINE]) with 2 in *. lia.
Qed.

Lemma visible_length text : length (visibleContent (parseThinkTags text)) ≤ length text.
Proof.
  destruct (parseThinkTags_split text) as (vs & rs & u & Hs & _ & _ & ->). destruct (includes OPEN_TAG text); [ | done].
  apply think_split_length in Hs as [H _]. pose proof (trim_length (join [] vs)). lia.
Qed.

Lemma think_reasoning_length text : length (think_reasoning (parseThinkTags text)) ≤ length text.
Proof.
  destruct (parseThinkTags_split text) as (vs & rs & u & Hs & -> & _).
  apply think_split_length in Hs as [_ H]. pose proof (trim_length (join [NEWLINE; NEWLINE] rs)).
  pose proof (join_le [NEWLINE; NEWLINE] rs). lia.
Qed.

(** ** Messages made short *)

Definition within (n : Z) (m : Message) : Prop :=
  Forall (fun v => (size (content v) ≤ n)%Z) (versions m) ∧
  ∀ r, reasoning m = Some r → (size (reasoning_content r) ≤ n)%Z.

Lemma within_content n m : (0 ≤ n)%Z → within n m → (size (getMessageContent m) ≤ n)%Z.
Proof.
  intros Hn [Hv _]. unfold getMessageContent, getCurrentVersion. destruct Hv as [|v vs H _]; [exact Hn | exact H].
Qed.

Lemma completeReasoningTiming_text m now :
  reasoning_content <$> reasoning (completeReasoningTiming m now) = reasoning_content <$> reasoning m.
Proof.
  unfold completeReasoningTiming. destruct (reasoning m) as [r|] eqn:E; [ | by rewrite E].
  destruct (reasoning_durationMs r); simpl; by rewrite ?E.
Qed.

Lemma or_text_size a b n :
  (∀ s, a = Some s → size s ≤ n)%Z → (size b ≤ n)%Z → (size (or_text a b) ≤ n)%Z.
Proof. intros Ha Hb. destruct a as [s|]; [ | done]. simpl. destruct (truthy s); [by apply Ha | done]. Qed.

Lemma finalizeMessage_within n m now : (0 ≤ n)%Z → within n m → within n (finalizeMessage m None now).
Proof.
  intros Hn Hm. pose proof (within_content n m Hn Hm) as Hc.
  destruct (finalizeMessage_body m None now) as (_ & _ & _ & _ & Hv). split.
  - rewrite Hv. constructor; [ | done]. cbn [content]. pose proof (visible_length (getMessageContent m)). unfold size in *. lia.
  - intros r Hr. unfold finalizeMessage in Hr. cbv zeta in Hr.
    match type of Hr with reasoning (completeReasoningTiming ?x _) = _ =>
      pose proof (completeReasoningTiming_text x now) as Ht end.
    rewrite Hr in Ht. cbn [reasoning with_reasoning fmap option_fmap option_map] in Ht.
    fold (getMessageContent m) in Ht.
    match type of Ht with context [truthy ?x] => assert (Hs : (size x ≤ n)%Z) end.
    { apply or_text_size; [done | ]. apply or_text_size.
      - intros s Hs. apply fmap_Some in Hs as (r' & Hr' & ->). by apply Hm.
      - apply or_text_size; [ | unfold size; simpl; lia]. intros s Hs. apply fmap_Some in Hs as (p & Hp & ->).
        destruct (includes OPEN_TAG (getMessageContent m)); [ | done]. simplify_eq.
        pose proof (think_reasoning_length (getMessageContent m)). unfold size in *. lia. }
    destruct (truthy _); [ | done]. simpl in Ht. injection Ht as ->. exact Hs.
Qed.

Lemma shorten_within m : within MAX_LOADED_MESSAGE_CHARS (shorten_message m).
Proof.
  split.
  - unfold shorten_message. cbn [versions with_reasoning with_versions]. apply Forall_map, Forall_forall. intros v _.
    by apply truncateText_size.
  - intros r. cbn [shorten_message reasoning with_reasoning]. intros (r' & _ & ->)%fmap_Some. by apply truncateText_size.
Qed.

Lemma completeAssistantTiming_within n m now : within n m → within n (completeAssistantTiming m now).
Proof. unfold completeAssistantTiming. by destruct (isAssistant m). Qed.

Lemma normalize_within now m : within MAX_LOADED_MESSAGE_CHARS (normalizeStoredMessageForLoad now m).
Proof.
  unfold normalizeStoredMessageForLoad. cbv zeta. pose proof (shorten_within m) as Hs.
  destruct (negb _); [done | ]. destruct (_ && _); [done | ]. apply completeAssistantTiming_within.
  by apply (finalizeMessage_within _ _ now) in Hs.
Qed.

Lemma normalize_versions now m : versions m ≠ [] → versions (normalizeStoredMessageForLoad now m) ≠ [].
Proof.
  intros Hv. unfold normalizeStoredMessageForLoad. cbv zeta.
  assert (Hs : versions (shorten_message m) ≠ []) by (cbn; by destruct (versions m)).
  destruct (negb _); [done | ]. destruct (_ && _); [done | ].
  match goal with |- context [completeAssistantTiming ?x ?c] => destruct (completeAssistantTiming_body x c) as ((_ & _ & ->) & _) end.
  cbn [versions with_reasoning with_status]. by destruct (finalizeMessage_body (shorten_message m) None now) as (_ & _ & _ & _ & ->).
Qed.

(** ** Repeated sections *)

Lemma match_here_sound r text rest caps :
  match_here r text = Some (rest, caps) → ∃ u, text = u ++ rest ∧ lang r u.
Proof.
  unfold match_here. intros H. apply matches_sound in H as (u & rest' & caps' & -> & Hl & [= <- <-]). eauto.
Qed.

Lemma heading_nonempty u : lang SECTION_HEADING_LINE_PATTERN u → u ≠ [].
Proof. intros H ->. cbn in H. destruct H as (u1 & u2 & Hu & (c & -> & _) & _). discriminate Hu. Qed.

(** An occurrence is a heading of the text, at its place. *)
Definition occurs_in (text : ustring) (o : SectionOccurrence) : Prop :=
  take (length (heading o)) (drop (index o) text) = heading o ∧ lang SECTION_HEADING_LINE_PATTERN (heading o) ∧
  line_start (if index o =? 0 then None else text !! (index o - 1)) = true.

Lemma unit_before front (text : ustring) :
  (if length front =? 0 then None else (front ++ text) !! (length front - 1)) = last front.
Proof.
  destruct front as [|c front] using rev_ind; [done | ]. rewrite length_app, last_snoc. simpl.
  rewrite (proj2 (Nat.eqb_neq _ _)) by lia. rewrite lookup_app_l by (rewrite length_app; simpl; lia).
  by rewrite lookup_app_r, Nat.add_sub, Nat.sub_diag by lia.
Qed.

Lemma sections_from_spec fuel front text :
  let l := sections_from fuel (length front) (last front) text in
  Forall (fun o => occurs_in (front ++ text) o ∧ length front ≤ index o) l ∧
  StronglySorted (fun o o' => index o < index o') l.
Proof.
  cbv zeta. revert front text. induction fuel as [|fuel IH]; intros front text; [by repeat constructor | ]. cbn [sections_from].
  destruct (if line_start (last front) then match_here SECTION_HEADING_LINE_PATTERN text else None) as [[rest caps]|] eqn:E.
  - destruct (line_start (last front)) eqn:El; [ | done]. apply match_here_sound in E as (u & -> & Hl).
    rewrite take_run. pose proof (heading_nonempty u Hl) as Hne. destruct (IH (front ++ u) rest) as [Hf Hs].
    assert (Hlast : last (front ++ u) = last u) by (destruct u as [|c u] using rev_ind; [done | by rewrite app_assoc, !last_snoc]).
    rewrite Hlast, length_app, <- app_assoc in *.
    assert (Hlt : 0 < length u) by (destruct u; [done | simpl; lia]). split; constructor.
    + split; [ | simpl; lia]. unfold occurs_in. cbn [heading index].
      rewrite drop_app_length, take_app_length, unit_before. done.
    + eapply Forall_impl; [exact Hf | ]. intros o [Ho Hi]. split; [done | lia].
    + done.
    + eapply Forall_impl; [exact Hf | ]. intros o [_ Hi]. simpl. lia.
  - destruct text as [|c text]; [by repeat constructor | ]. destruct (IH (front ++ [c]) text) as [Hf Hs].
    rewrite last_snoc, length_app in *. cbn [length] in *. rewrite Nat.add_1_r in *. rewrite <- app_assoc in Hf.
    split; [ | done]. eapply Forall_impl; [exact Hf | ]. intros o [Ho Hi]. split; [done | lia].
Qed.

Lemma getSectionOccurrences_spec text :
  Forall (occurs_in text) (getSectionOccurrences text) ∧
  StronglySorted (fun o o' => index o < index o') (getSectionOccurrences text).
Proof.
  destruct (sections_from_spec (S (length text)) [] text) as [Hf Hs]. split; [ | exact Hs].
  eapply Forall_impl; [exact Hf | ]. by intros o [Ho _].
Qed.

Lemma repeated_indexes_spec counts seen l i :
  i ∈ repeated_indexes counts seen l ↔
  (∃ l1 o l2, l = l1 ++ o :: l2 ∧ index o = i ∧ MIN_REPEATED_SECTION_COUNT ≤ counts (heading o) ∧
    (heading o ∉ seen) ∧ heading o ∉ map heading l1).
Proof.
  revert seen. induction l as [|o l IH]; intros seen.
  { split; [by intros []%elem_of_nil | ]. intros ([|] & o & l2 & Hl & _); discriminate Hl. }
  cbn [repeated_indexes].
  destruct ((counts (heading o) <? MIN_REPEATED_SECTION_COUNT) || bool_decide (heading o ∈ seen)) eqn:E.
  - rewrite IH. split.
    + intros (l1 & o' & l2 & -> & Hi & Hc & Hn & Hn1). exists (o :: l1), o', l2. repeat split; try done.
      cbn [map]. apply not_elem_of_cons. split; [ | done]. intros Eq. rewrite <- Eq in E.
      apply orb_true_iff in E as [E|E]; bools; [lia | done].
    + intros ([|o1 l1] & o' & l2 & Hl & Hi & Hc & Hn & Hn1); simplify_eq/=.
      * apply orb_true_iff in E as [E|E]; bools; [lia | done].
      * exists l1, o', l2. set_solver.
  - apply orb_false_iff in E as [E1 E2]. bools. rewrite elem_of_cons, IH. split.
    + intros [->|(l1 & o' & l2 & -> & Hi & Hc & Hn & Hn1)].
      * exists [], o, l. repeat split; [lia | done | by apply not_elem_of_nil].
      * exists (o :: l1), o', l2. set_solver.
    + intros ([|o1 l1] & o' & l2 & Hl & Hi & Hc & Hn & Hn1); simplify_eq/=; [by left | right].
      exists l1, o', l2. set_solver.
Qed.

Lemma foldl_min_spec l i : foldl Nat.min i l ∈ i :: l ∧ ∀ j, j ∈ i :: l → foldl Nat.min i l ≤ j.
Proof.
  revert i. induction l as [|k l IH]; intros i; simpl.
  { split; [left | ]. intros j ->%list_elem_of_singleton. done. }
  destruct (IH (Nat.min i k)) as [Hin Hle]. split.
  - apply elem_of_cons in Hin as [->|Hin]; [ | set_solver]. destruct (Nat.min_spec i k) as [[_ ->]|[_ ->]]; set_solver.
  - intros j Hj. rewrite !elem_of_cons in Hj. pose proof (Hle (Nat.min i k) ltac:(left)).
    destruct Hj as [->|[->|Hj]]; [lia | lia | apply Hle; by right].
Qed.

Definition occurrences_of (text h : ustring) : nat := getHeadingCounts (getSectionOccurrences text) h.

(** The last occurrence of a heading that occurs often. *)
Definition last_section (text : ustring) (o : SectionOccurrence) : Prop :=
  o ∈ getSectionOccurrences text ∧ MIN_REPEATED_SECTION_COUNT ≤ occurrences_of text (heading o) ∧
  ∀ o', o' ∈ getSectionOccurrences text → heading o' = heading o → index o' ≤ index o.

Lemma sorted_middle {A} (R : A → A → Prop) l1 x l2 :
  StronglySorted R (l1 ++ x :: l2) → Forall (fun y => R y x) l1.
Proof.
  induction l1 as [|y l1 IH]; [constructor | ]. intros H. apply StronglySorted_inv in H as [Hs Hf].
  constructor; [ | by apply IH]. rewrite Forall_app in Hf. destruct Hf as [_ Hf]. by inversion Hf.
Qed.

Lemma pushed_index text i :
  i ∈ repeated_indexes (occurrences_of text) [] (reverse (getSectionOccurrences text)) ↔
  (∃ o, last_section text o ∧ index o = i).
Proof.
  destruct (getSectionOccurrences_spec text) as [_ Hsorted]. rewrite repeated_indexes_spec. unfold last_section.
  set (l := getSectionOccurrences text) in *. split.
  - intros (l1 & o & l2 & Hl & Hi & Hc & _ & Hn). apply (f_equal reverse) in Hl.
    rewrite reverse_involutive, reverse_app, reverse_cons, <- app_assoc in Hl. cbn [app] in Hl. exists o. split; [ | done].
    rewrite Hl in Hsorted |- *. split; [set_solver | ]. split; [done | ]. intros o' Ho' Eh.
    apply elem_of_app in Ho' as [Ho'|[->|Ho']%elem_of_cons]; [ | done | ].
    + apply sorted_middle in Hsorted. rewrite Forall_forall in Hsorted. apply Nat.lt_le_incl. by apply Hsorted.
    + exfalso. apply Hn, list_elem_of_fmap. exists o'. split; [done | ]. by rewrite elem_of_reverse in *.
  - intros (o & (Ho & Hc & Hmax) & Hi). apply list_elem_of_split in Ho as (l1 & l2 & Hl).
    exists (reverse l2), o, (reverse l1). rewrite Hl, reverse_app, reverse_cons, <- app_assoc. split; [done | ].
    split; [done | ]. split; [done | ]. split; [by apply not_elem_of_nil | ].
    intros (o' & Eh & Ho')%list_elem_of_fmap. rewrite elem_of_reverse in Ho'. rewrite Hl in Hsorted, Hmax.
    assert (index o' ≤ index o) by (apply Hmax; [set_solver | done]).
    assert (index o < index o'); [ | lia].
    clear - Hsorted Ho'. induction l1 as [|y l1 IH]; [ | apply IH; by apply StronglySorted_inv in Hsorted as [? _]].
    apply StronglySorted_inv in Hsorted as [_ Hf]. rewrite Forall_forall in Hf. by apply Hf.
Qed.

(** The last element of a list with the image of another. *)
Lemma last_split {A} {B} `{EqDecision B} (f : A → B) l x :
  x ∈ l → ∃ l1 y l2, l = l1 ++ y :: l2 ∧ f y = f x ∧ f x ∉ map f l2.
Proof.
  induction l as [|z l IH] using rev_ind; [by intros ?%elem_of_nil | ]. intros Hx.
  destruct (decide (f z = f x)) as [E|Hne].
  - exists l, z, []. repeat split; [done | ]. apply not_elem_of_nil.
  - assert (Hl : x ∈ l). { apply elem_of_app in Hx as [|Hx]; [done | ]. apply list_elem_of_singleton in Hx. by subst. }
    destruct (IH Hl) as (l1 & y & l2 & -> & Hy & Hn). exists l1, y, (l2 ++ [z]). rewrite <- app_assoc.
    split; [done | ]. split; [done | ]. rewrite map_app. simpl. set_solver.
Qed.

Lemma often_pushed text h :
  MIN_REPEATED_SECTION_COUNT ≤ occurrences_of text h →
  ∃ i, i ∈ repeated_indexes (occurrences_of text) [] (reverse (getSectionOccurrences text)).
Proof.
  intros Hh. assert (Hex : ∃ o, o ∈ getSectionOccurrences text ∧ heading o = h).
  { unfold occurrences_of, getHeadingCounts in Hh. destruct (filter _ _) as [|o f] eqn:E; [cbn in Hh; unfold MIN_REPEATED_SECTION_COUNT in Hh; lia | ].
    assert (Ho : o ∈ o :: f) by left. rewrite <- E in Ho. apply list_elem_of_filter in Ho as [? ?]. eauto. }
  destruct Hex as (o & Ho & <-). apply (last_split heading) in Ho as (l1 & y & l2 & Hl & Hy & Hn). exists (index y).
  apply repeated_indexes_spec. exists (reverse l2), y, (reverse l1). rewrite Hl, reverse_app, reverse_cons, <- app_assoc.
  repeat split; [by rewrite Hy | by apply not_elem_of_nil | ]. rewrite Hy. intros (o' & Eh & Ho')%list_elem_of_fmap.
  apply Hn, list_elem_of_fmap. exists o'. split; [done | ]. by rewrite elem_of_reverse in *.
Qed.

(** What [collapseRepeatedSectionSnapshots] keeps. *)
Lemma collapse_spec text :
  (collapseRepeatedSectionSnapshots text = text ∧
    (length text < MIN_PREFIX_COLLAPSE_LENGTH ∨ ∀ h, occurrences_of text h < MIN_REPEATED_SECTION_COUNT)) ∨
  (∃ o, last_section text o ∧ collapseRepeatedSectionSnapshots text = drop (index o) text ∧
    ∀ o', last_section text o' → index o ≤ index o').
Proof.
  unfold collapseRepeatedSectionSnapshots. destruct (Nat.ltb_spec (length text) MIN_PREFIX_COLLAPSE_LENGTH) as [Hl|Hl]; [left; split; [done | by left] | ].
  unfold findLastRepeatedSectionRunStart. cbv zeta.
  change (getHeadingCounts (getSectionOccurrences text)) with (occurrences_of text).
  pose proof (pushed_index text) as Hp. pose proof (often_pushed text) as Hoft.
  destruct (repeated_indexes _ _ _) as [|i rest].
  - left. split; [done | ]. right. intros h. destruct (decide (occurrences_of text h < MIN_REPEATED_SECTION_COUNT)) as [|Hh]; [done | ].
    exfalso. destruct (Hoft h) as [i Hi]; [lia | ]. by apply not_elem_of_nil in Hi.
  - right. destruct (foldl_min_spec rest i) as [Hin Hle]. apply Hp in Hin as (o & Ho & Hi).
    exists o. rewrite Hi. split; [done | ]. split; [done | ]. intros o' Ho'. apply Hle, Hp. eauto.
Qed.

(** ** Saving and loading *)

Lemma getItem_removeItem st k : getItem (removeItem st k) k = None.
Proof.
  unfold removeItem. induction st as [|[k' v] st IH]; [done | ]. rewrite filter_cons. destruct (decide _) as [Hne|]; [ | done].
  cbn [getItem fst] in *. unfold ustring_eqb. by rewrite bool_decide_false.
Qed.

Section load.
  Context {zod : Zod} (fits : localStorage → bool) (t : ustring → ustring) (now : number).

(** A conversation that loading leaves alone. *)
Definition settled (ms : list Message) : Prop :=
  length ms ≤ MAX_STORED_MESSAGES ∧ (total_size ms ≤ MAX_LOADED_MESSAGES_CHARS)%Z ∧
  Forall (fun m => isAssistantMessagePending m = false ∧ within MAX_LOADED_MESSAGE_CHARS m ∧
    Forall (fun v => collapseRepeatedSectionSnapshots (content v) = content v) (versions m)) ms.

Lemma shorten_same m :
  within MAX_LOADED_MESSAGE_CHARS m →
  Forall (fun v => collapseRepeatedSectionSnapshots (content v) = content v) (versions m) → shorten_message m = m.
Proof.
  intros [Hv Hr] Hc. unfold shorten_message, with_reasoning, with_versions. destruct m as [k f vs ca sa co du so re irs irc icc st ec].
  cbn [versions reasoning isReasoningStreaming key from createdAt startedAt completedAt
       durationMs sources isReasoningComplete isContentComplete status errorCode] in *. f_equal.
  - rewrite <- (map_id vs) at 2. apply map_ext_in. intros [id c] Hin%list_elem_of_In. rewrite Forall_forall in Hv, Hc.
    specialize (Hv _ Hin). specialize (Hc _ Hin). unfold loaded_version. cbn [content version_id] in *.
    by rewrite Hc, truncateText_short.
  - destruct re as [[c d s e ms]|]; [ | done]. simpl. unfold loaded_reasoning, set_content. cbn [reasoning_content].
    by rewrite truncateText_short by (by apply (Hr _ eq_refl)).
Qed.

Lemma repair_settled ms : settled ms → repair t now ms = ms.
Proof.
  intros (Hlen & Hsz & Hm). unfold repair.
  assert (Hmap : map (normalizeStoredMessageForLoad now) ms = ms).
  { rewrite <- (map_id ms) at 2. apply map_ext_in. intros m Hin%list_elem_of_In. rewrite Forall_forall in Hm.
    destruct (Hm m Hin) as (Hp & Hw & Hc). unfold normalizeStoredMessageForLoad. cbv zeta. rewrite shorten_same by done.
    by rewrite Hp. }
  rewrite Hmap, trimMessages_short, trimMessagesByContentSize_small by done.
  destruct (sanitizeMessagesOnLoad_cases t ms now) as [[-> _]|(i & m & Hi & Hp & _)]; [done | ].
  rewrite Forall_forall in Hm. apply list_elem_of_lookup_2, Hm in Hi as [Hq _]. unfold isPendingAssistantMessage in Hp.
  by rewrite Hq, andb_false_r in Hp.
Qed.

Lemma repair_bounds parsed :
  Forall (fun m => versions m ≠ []) parsed →
  ∃ n kept, kept = drop n (map (normalizeStoredMessageForLoad now) parsed) ∧
    repair t now parsed = sanitizeMessagesOnLoad t kept now ∧
    length kept ≤ MAX_STORED_MESSAGES ∧
    ((total_size kept ≤ MAX_LOADED_MESSAGES_CHARS)%Z ∨ length kept ≤ 1) ∧
    Forall (fun m => within MAX_LOADED_MESSAGE_CHARS m ∧ versions m ≠ []) kept.
Proof.
  intros Hv. set (all := map (normalizeStoredMessageForLoad now) parsed).
  assert (Hall : Forall (fun m => within MAX_LOADED_MESSAGE_CHARS m ∧ versions m ≠ []) all).
  { apply Forall_map, Forall_forall. intros m Hm. split; [apply normalize_within | ]. apply normalize_versions.
    rewrite Forall_forall in Hv. by apply Hv. }
  destruct (trimMessages_drop all) as [n1 H1].
  destruct (trimMessagesByContentSize_spec (trimMessages all)) as (n2 & _ & H2 & Hsz & _).
  exists (n1 + n2), (drop n2 (trimMessages all)). split; [by rewrite H1, drop_drop | ].
  split; [unfold repair; fold all; by rewrite H2 | ].
  split; [rewrite length_drop; pose proof (trimMessages_length all); lia | ]. split; [done | ].
  rewrite H1, drop_drop. by apply Forall_drop.
Qed.

(** The text a conversation is saved as. *)
Definition saved_text (ms : list Message) : ustring := JSON_stringify (envelope (messages_json ms)).

Lemma saved_text_nonempty ms : truthy (saved_text ms) = true.
Proof. done. Qed.

Lemma saveMessages_item st ms :
  conforms messagesSchema (messages_json (trimMessages ms)) = true →
  fits (setItem st MESSAGES_KEY (saved_text (trimMessages ms))) = true →
  saveMessages fits st ms = setItem st MESSAGES_KEY (saved_text (trimMessages ms)).
Proof.
  intros Hc Hf. unfold saveMessages. rewrite zod_accepts by done. rewrite strip_messages.
  unfold writeStoredValue. fold (saved_text (trimMessages ms)). cbv zeta. by rewrite Hf.
Qed.

Lemma envelope_printable data : printable data = true → printable (envelope data) = true.
Proof.
  intros H. cbn [envelope printable forallb map fst snd]. rewrite H.
  by replace (printable_number STORAGE_VERSION) with true by (vm_compute; reflexivity).
Qed.

Lemma load_saved st ms :
  conforms messagesSchema (messages_json (trimMessages ms)) = true →
  printable (messages_json (trimMessages ms)) = true →
  (size (saved_text (trimMessages ms)) ≤ MAX_STORED_MESSAGES_BYTES)%Z →
  fits (setItem st MESSAGES_KEY (saved_text (trimMessages ms))) = true →
  (loadMessages fits t now (saveMessages fits st ms)).1 = Some (repair t now (trimMessages ms)).
Proof.
  intros Hc Hp Hsz Hf. rewrite saveMessages_item by done. unfold loadMessages, readStoredMessagesValue.
  rewrite getItem_setItem, saved_text_nonempty. cbn [negb].
  rewrite (proj2 (Z.ltb_ge _ _) Hsz). unfold saved_text at 1.
  rewrite JSON_round_trip by (by apply envelope_printable). cbn [fmap option_fmap option_map].
  change (negb (truthy_json (Some (envelope ?d)))) with false. cbn iota.
  change (unwrapStoredValue (envelope ?d)) with d. rewrite zod_accepts by done.
  by rewrite strip_messages, messages_of_json.
Qed.

Lemma parsed_messages v parsed :
  zod_parse messagesSchema v = Some parsed → Forall (fun m => versions m ≠ []) (messages_of parsed).
Proof.
  destruct (conforms messagesSchema v) eqn:E; [ | by rewrite zod_refuses].
  rewrite zod_accepts by done. intros H. rewrite <- (Some_inj _ _ H). by apply conforms_messages.
Qed.

(** What is loaded from any storage. *)
Lemma loaded_is_repaired st ms :
  (loadMessages fits t now st).1 = Some ms →
  ∃ parsed, ms = repair t now parsed ∧ Forall (fun m => versions m ≠ []) parsed.
Proof.
  unfold loadMessages. destruct (readStoredMessagesValue st) as [[[saved|]|] st']; [ | done | done].
  destruct (negb _); [done | ]. destruct (zod_parse messagesSchema (unwrapStoredValue saved)) as [parsed|] eqn:E; [ | done].
  apply parsed_messages in E. intros H. exists (messages_of parsed). split; [symmetry; exact (Some_inj _ _ H) | exact E].
Qed.

Lemma loaded_bounds st ms :
  (loadMessages fits t now st).1 = Some ms →
  ∃ kept, ms = sanitizeMessagesOnLoad t kept now ∧ length kept ≤ MAX_STORED_MESSAGES ∧
    ((total_size kept ≤ MAX_LOADED_MESSAGES_CHARS)%Z ∨ length kept ≤ 1) ∧
    Forall (fun m => within MAX_LOADED_MESSAGE_CHARS m ∧ versions m ≠ []) kept.
Proof.
  intros H. apply loaded_is_repaired in H as (parsed & -> & Hv).
  destruct (repair_bounds parsed Hv) as (n & kept & _ & H1 & H2 & H3 & H4). by exists kept.
Qed.

(** A text over the limit is removed when it is read. *)
Lemma oversize_lost st ms :
  conforms messagesSchema (messages_json (trimMessages ms)) = true →
  fits (setItem st MESSAGES_KEY (saved_text (trimMessages ms))) = true →
  (MAX_STORED_MESSAGES_BYTES < size (saved_text (trimMessages ms)))%Z →
  let (loaded, st') := loadMessages fits t now (saveMessages fits st ms) in
  loaded = None ∧ getItem st' MESSAGES_KEY = None.
Proof.
  intros Hc Hf Hsz. rewrite saveMessages_item by done. unfold loadMessages, readStoredMessagesValue.
  rewrite getItem_setItem, saved_text_nonempty. cbn [negb]. rewrite (proj2 (Z.ltb_lt _ _) Hsz).
  split; [done | ]. apply getItem_removeItem.
Qed.
End load.

(** ** Lengths of printed texts *)

Lemma json_escape_length s : length s ≤ length (json_escape s).
Proof.
  induction s as [s IH] using length_ind. destruct s as [|c s]; [done | ]. cbn [json_escape].
  assert (Hs : length s ≤ length (json_escape s)) by (apply IH; simpl; lia).
  assert (He : 1 ≤ length (escape_unit c)) by (unfold escape_unit; repeat case_match; simpl; lia).
  destruct (is_high_surrogate c); [destruct s as [|d s'] | destruct (is_low_surrogate c)].
  - simpl. lia.
  - destruct (is_low_surrogate d).
    + assert (length s' ≤ length (json_escape s')) by (apply IH; simpl; lia). simpl. lia.
    + rewrite length_app. change (length (unicode_escape c)) with 6. cbn [length json_escape] in *. lia.
  - rewrite length_app. change (length (unicode_escape c)) with 6. simpl. lia.
  - rewrite length_app. simpl. lia.
Qed.

Lemma join_part sep w ws : w ∈ ws → length w ≤ length (join sep ws).
Proof.
  induction ws as [|w' [|w2 ws] IH]; [by intros ?%elem_of_nil | by intros ->%list_elem_of_singleton | ].
  change (join sep (w' :: w2 :: ws)) with (w' ++ sep ++ join sep (w2 :: ws)). rewrite !length_app.
  intros [->|H%IH]%elem_of_cons; lia.
Qed.

Lemma bracket_part opening closing t ts : t ∈ ts → length t ≤ length (bracket opening closing [] [] ts).
Proof.
  intros Ht. destruct ts as [|t' ts]; [by apply elem_of_nil in Ht | ]. unfold bracket. rewrite !length_app.
  pose proof (join_part (js "," ++ line [] ([] ++ [])) _ _ Ht). lia.
Qed.

Lemma stringify_element v vs : v ∈ vs → length (JSON_stringify v) ≤ length (JSON_stringify (JArray vs)).
Proof. intros Hv. apply (bracket_part "[" "]"), (list_elem_of_fmap_2 JSON_stringify), Hv. Qed.

Lemma stringify_field k v fields :
  (k, v) ∈ fields → length (JSON_stringify v) ≤ length (JSON_stringify (JObject fields)).
Proof.
  intros Hv. apply (list_elem_of_fmap_2 (fun f => JSON_stringify_string f.1 ++ colon [] ++ JSON_stringify f.2)) in Hv.
  pose proof (bracket_part "{" "}" _ _ Hv) as H. etrans; [ | exact H]. rewrite !length_app. cbn [snd]. lia.
Qed.

(** A saved text is at least as long as each text of the conversation. *)
Lemma saved_text_length ms m v :
  m ∈ ms → v ∈ versions m → (size (content v) ≤ size (saved_text ms))%Z.
Proof.
  intros Hm Hv. unfold size, saved_text, envelope, messages_json. apply inj_le.
  etrans; [apply json_escape_length | ]. etrans; [ | apply (stringify_field (js "data")); right; left].
  etrans; [ | apply stringify_element, (list_elem_of_fmap_2 message_json), Hm]. unfold message_json.
  etrans; [ | apply (stringify_field (js "versions")); do 2 right; left].
  etrans; [ | apply stringify_element, (list_elem_of_fmap_2 version_json), Hv]. unfold version_json.
  etrans; [ | apply (stringify_field (js "content")); right; left].
  unfold JSON_stringify. cbn [JSON_print]. unfold JSON_stringify_string. simpl. rewrite length_app. lia.
Qed.

(** ** Theorems *)

(** C22: a conversation that conforms to the schema of messages, and whose text is within one
    mebibyte and the quota of the browser, is loaded as it was saved: the text that is written
    is read back as the last messages that are kept, whatever their contents, and repaired;
    loading leaves them alone when no answer is pending, no text is too long or has repeated
    sections, and the whole is within the limits.  (A longer conversation is removed by the
    next load.) *)
Theorem saved_conversation_is_loaded {zod : Zod} fits t now st ms :
  conforms messagesSchema (messages_json (trimMessages ms)) = true →
  printable (messages_json (trimMessages ms)) = true →
  (size (saved_text (trimMessages ms)) ≤ MAX_STORED_MESSAGES_BYTES)%Z →
  fits (setItem st MESSAGES_KEY (saved_text (trimMessages ms))) = true →
  (loadMessages fits t now (saveMessages fits st ms)).1 = Some (repair t now (trimMessages ms)) ∧
  (settled ms → (loadMessages fits t now (saveMessages fits st ms)).1 = Some ms).
Proof.
  intros Hc Hp Hsz Hf. rewrite load_saved by done. split; [done | ]. intros Hs. f_equal.
  assert (Hl : length ms ≤ MAX_STORED_MESSAGES) by apply Hs. rewrite trimMessages_short by done. by apply repair_settled.
Qed.

Definition sample_messages : list Message :=
  [createUserMessage (js "u1") (js "v1") (js "hello") (num_of_Z 1000);
   completeAssistantMessage
     (stream_chunks (createLoadingAssistantMessage (js "a1") (js "v2") (num_of_Z 1000))
        [((CContent, js "<think>hm</think>hi"), num_of_Z 2000)]) (num_of_Z 3000)].

Lemma sample_settled : settled sample_messages.
Proof.
  split; [vm_compute; lia | ]. split; [vm_compute; congruence | ].
  constructor; [ | constructor; [ | constructor]].
  all: split; [reflexivity | ]; split; [split; [constructor; [vm_compute; congruence | constructor] | ] | ].
  all: try (intros r Hr; vm_compute in Hr; simplify_eq; vm_compute; congruence).
  all: constructor; [reflexivity | constructor].
Qed.

Lemma saved_conversation_is_loaded_witness :
  (@loadMessages zod_reference (fun _ => true) id (num_of_Z 9000)
     (@saveMessages zod_reference (fun _ => true) [] sample_messages)).1 = Some sample_messages.
Proof.
  apply (@saved_conversation_is_loaded zod_reference); [vm_compute; reflexivity | vm_compute; reflexivity | vm_compute; congruence | done | ].
  apply sample_settled.
Defined.

(** what is loaded is bounded, whatever text is in the storage: it is made from a run of at
    most a hundred messages, each with a version and with no text over 40000 units, of at
    most 120000 units together unless it is a single message, by completing the last
    answer that was interrupted. *)
Theorem loaded_conversation_is_bounded {zod : Zod} fits t now st ms :
  (loadMessages fits t now st).1 = Some ms →
  ∃ kept, ms = sanitizeMessagesOnLoad t kept now ∧ length kept ≤ MAX_STORED_MESSAGES ∧
    ((total_size kept ≤ MAX_LOADED_MESSAGES_CHARS)%Z ∨ length kept ≤ 1) ∧
    Forall (fun m => within MAX_LOADED_MESSAGE_CHARS m ∧ versions m ≠ []) kept.
Proof. apply loaded_bounds. Qed.

Lemma loaded_conversation_is_bounded_witness :
  ∃ ms kept, (@loadMessages zod_reference (fun _ => true) id (num_of_Z 9000)
     (@saveMessages zod_reference (fun _ => true) [] sample_messages)).1 = Some ms ∧
    ms = sanitizeMessagesOnLoad id kept (num_of_Z 9000) ∧ length kept ≤ MAX_STORED_MESSAGES.
Proof.
  assert (H : (@loadMessages zod_reference (fun _ => true) id (num_of_Z 9000)
     (@saveMessages zod_reference (fun _ => true) [] sample_messages)).1 = Some sample_messages).
  { apply (@load_saved zod_reference); [vm_compute; reflexivity | vm_compute; reflexivity | vm_compute; congruence | done]. }
  destruct (@loaded_conversation_is_bounded zod_reference _ _ _ _ _ H) as (kept & H1 & H2 & _).
  exists sample_messages, kept. split; [exact H | ]. split; [exact H1 | exact H2].
Defined.

(** saving has no limit but loading has: a conversation with one text of more than a
    million units is written as it is, and the next load removes it and returns nothing. *)
Theorem long_conversation_is_lost {zod : Zod} fits t now st ms m v :
  conforms messagesSchema (messages_json (trimMessages ms)) = true →
  fits (setItem st MESSAGES_KEY (saved_text (trimMessages ms))) = true →
  m ∈ trimMessages ms → v ∈ versions m → (MAX_STORED_MESSAGES_BYTES < size (content v))%Z →
  getItem (saveMessages fits st ms) MESSAGES_KEY = Some (saved_text (trimMessages ms)) ∧
  let (loaded, st') := loadMessages fits t now (saveMessages fits st ms) in
  loaded = None ∧ getItem st' MESSAGES_KEY = None.
Proof.
  intros Hc Hf Hm Hv Hsz. pose proof (saved_text_length _ _ _ Hm Hv). split.
  - rewrite saveMessages_item by done. apply getItem_setItem.
  - apply oversize_lost; [done | done | lia].
Qed.

(** A message of [n] units. *)
Definition long_message (n : nat) : Message :=
  createUserMessage (js "u1") (js "v1") (replicate n (chr "a")) (num_of_Z 1000).

Lemma long_conversation_is_lost_witness :
  (@loadMessages zod_reference (fun _ => true) id (num_of_Z 9000)
     (@saveMessages zod_reference (fun _ => true) [] [long_message (Z.to_nat 1048577)])).1 = None.
Proof.
  generalize (Z2Nat.id 1048577 ltac:(done)). generalize (Z.to_nat 1048577). intros n Hn.
  destruct (@long_conversation_is_lost zod_reference (fun _ => true) id (num_of_Z 9000) [] [long_message n]
    (long_message n) (mkVersion (js "v1") (replicate n (chr "a")))) as [_ H].
  - reflexivity.
  - reflexivity.
  - left.
  - left.
  - cbn [content]. unfold size, MAX_STORED_MESSAGES_BYTES. rewrite length_replicate, Hn. reflexivity.
  - destruct (loadMessages _ _ _ _) as [loaded st']. exact (proj1 H).
Defined.

(** collapsing the repeated sections of a text keeps an end of it: either the whole text,
    when it is short or no section heading occurs three times, or the end that starts at
    a heading, the last of its kind, and that holds the last occurrence of every heading
    that occurs three times or more. *)
Theorem collapse_keeps_the_last_sections text :
  (collapseRepeatedSectionSnapshots text = text ∧
    (length text < MIN_PREFIX_COLLAPSE_LENGTH ∨ ∀ h, occurrences_of text h < MIN_REPEATED_SECTION_COUNT)) ∨
  (∃ o, last_section text o ∧ collapseRepeatedSectionSnapshots text = drop (index o) text ∧ occurs_in text o ∧
    ∀ o', last_section text o' → index o ≤ index o').
Proof.
  destruct (collapse_spec text) as [H|(o & Ho & H1 & H2)]; [by left | right]. exists o.
  destruct (getSectionOccurrences_spec text) as [Hf _]. rewrite Forall_forall in Hf.
  split; [exact Ho | ]. split; [exact H1 | ]. split; [apply Hf, Ho | exact H2].
Qed.

(** Three snapshots of one section, then three of another, in a long text. *)
Definition snapshots : ustring :=
  let a := js "## 1. First" ++ [NEWLINE] in let b := js "## 2. Second" ++ [NEWLINE] in
  a ++ a ++ a ++ b ++ b ++ b ++ replicate 2000 (chr "x").

(** The text that is kept can be cut again, so each load may drop more of an answer. *)
Lemma collapse_is_not_stable :
  length (collapseRepeatedSectionSnapshots snapshots) = length snapshots - 24 ∧
  length (collapseRepeatedSectionSnapshots (collapseRepeatedSectionSnapshots snapshots)) = length snapshots - 62.
Proof. split; vm_compute; reflexivity. Qed.
