(* ===== verification/AdvancedCustom.v ===== *)
(** * Advanced custom channels

    features/channels/lib/advanced-custom.ts: a channel of this type forwards requests by
    routes, written by an administrator in a form or as JSON.  A configuration that comes
    from text is a value of any type; normalising it gives routes whose paths, names and
    values may still be of any type, and a property that is not a text makes [trim] throw.
    A function that can throw so returns an option, [None] for the throw.  The browser's
    [URL] is a parameter: the host and the scheme of an absolute address. *)

From Stdlib Require Import Lia.
From stdpp Require Import base numbers strings option sets gmap list.
From S2P Require Import Prelude JsNumber Json JsonText JsonPrint JsonStringify StorageSchema.

Definition ADVANCED_CUSTOM_MODEL_LIST_PATH : ustring := js "/v1/models".
Definition ADVANCED_CUSTOM_MODEL_LIST_LABEL : ustring := js "OpenAI Models".

Inductive AdvancedCustomConverter :=
| CNone
| CAnthropicToChat
| CChatToAnthropic
| CChatToResponses
| CResponsesToChat
| CResponsesToGemini
| CGeminiToChat
| CChatToGemini.

#[export] Instance AdvancedCustomConverter_eq_dec : EqDecision AdvancedCustomConverter.
Proof. solve_decision. Defined.

Definition converter_name (c : AdvancedCustomConverter) : ustring :=
  match c with
  | CNone => js "none"
  | CAnthropicToChat => js "anthropic_messages_to_openai_chat_completions"
  | CChatToAnthropic => js "openai_chat_completions_to_anthropic_messages"
  | CChatToResponses => js "openai_chat_completions_to_openai_responses"
  | CResponsesToChat => js "openai_responses_to_openai_chat_completions"
  | CResponsesToGemini => js "openai_responses_to_gemini_generate_content"
  | CGeminiToChat => js "gemini_generate_content_to_openai_chat_completions"
  | CChatToGemini => js "openai_chat_completions_to_gemini_generate_content"
  end.

Record ConverterOption := mkConverterOption {
  option_value : AdvancedCustomConverter;
  option_label : ustring;
  triggerLabel : ustring;
}.

Definition converter_option (c : AdvancedCustomConverter) (label trigger : string) : ConverterOption :=
  mkConverterOption c (js label) (js trigger).

Definition ADVANCED_CUSTOM_CONVERTER_OPTIONS : list ConverterOption :=
  [converter_option CNone "Native forwarding" "Native forwarding";
   converter_option CAnthropicToChat "Anthropic Messages to OpenAI Chat" "To OpenAI Chat";
   converter_option CChatToAnthropic "OpenAI Chat to Anthropic Messages" "To Anthropic Messages";
   converter_option CChatToResponses "OpenAI Chat to OpenAI Responses" "To OpenAI Responses";
   converter_option CResponsesToChat "OpenAI Responses to OpenAI Chat" "To OpenAI Chat";
   converter_option CResponsesToGemini "OpenAI Responses to Gemini Generate Content" "To Gemini Generate Content";
   converter_option CGeminiToChat "Gemini Generate Content to OpenAI Chat" "To OpenAI Chat";
   converter_option CChatToGemini "OpenAI Chat to Gemini Generate Content" "To Gemini Generate Content"].

Inductive AdvancedCustomAuthMode := ModeDefault | ModeNone | ModeHeader | ModeQuery.

Definition ADVANCED_CUSTOM_AUTH_MODE_OPTIONS : list (AdvancedCustomAuthMode * ustring) :=
  [(ModeDefault, js "Default Bearer"); (ModeNone, js "No Auth"); (ModeHeader, js "Header"); (ModeQuery, js "Query")].

(** Paths with their labels. *)
Definition ADVANCED_CUSTOM_INCOMING_PATH_OPTIONS : list (ustring * ustring) :=
  [(js "/v1/chat/completions", js "OpenAI Chat");
   (js "/v1/responses", js "OpenAI Responses");
   (js "/v1/responses/compact", js "OpenAI Responses Compact");
   (js "/v1/alpha/search", js "OpenAI Alpha Search");
   (ADVANCED_CUSTOM_MODEL_LIST_PATH, ADVANCED_CUSTOM_MODEL_LIST_LABEL);
   (js "/v1/embeddings", js "OpenAI Embeddings");
   (js "/v1/images/generations", js "OpenAI Image Generations");
   (js "/v1/images/edits", js "OpenAI Image Edits");
   (js "/v1/completions", js "OpenAI Completions");
   (js "/v1/audio/speech", js "OpenAI Audio Speech");
   (js "/v1/audio/transcriptions", js "OpenAI Audio Transcriptions");
   (js "/v1/audio/translations", js "OpenAI Audio Translations");
   (js "/v1/rerank", js "OpenAI Rerank");
   (js "/v1/realtime", js "OpenAI Realtime");
   (js "/v1/messages", js "Claude Messages");
   (js "/v1beta/models/{model}:generateContent", js "Gemini Generate Content");
   (js "/v1beta/models/{model}:embedContent", js "Gemini Embed Content");
   (js "/v1beta/models/{model}:batchEmbedContents", js "Gemini Batch Embed Contents")].

Definition ADVANCED_CUSTOM_ROUTE_SUMMARY_LABELS : list (ustring * ustring) :=
  [(js "/v1/chat/completions", js "OpenAI Chat"); (ADVANCED_CUSTOM_MODEL_LIST_PATH, ADVANCED_CUSTOM_MODEL_LIST_LABEL)].

Record AdvancedCustomValidationError := mkValidationError { message : ustring; routeIndex : option nat }.

Definition ADVANCED_CUSTOM_MODEL_REGEX_PREFIX : ustring := js "re:".
Definition openAIChatPath : ustring := js "/v1/chat/completions".
Definition openAIResponsesPath : ustring := js "/v1/responses".
Definition claudeMessagesPath : ustring := js "/v1/messages".
Definition geminiGenerateContentPath : ustring := js "/v1beta/models/{model}:generateContent".

(** ** Routes

    A normalised route: the path to match and the converter as they were given, the upstream
    path and the model rules as texts. *)

Record RouteAuth := mkAuth { auth_type : option json; auth_name : json; auth_value : json }.

Record Route := mkRoute {
  incoming_path : json;
  upstream_path : ustring;
  converter : json;
  models : list ustring;
  auth : option RouteAuth;
}.

Definition text_auth (type name value : string) : RouteAuth :=
  mkAuth (Some (JString (js type))) (JString (js name)) (JString (js value)).

Definition bearerHeaderAuth : RouteAuth := text_auth "header" "Authorization" "Bearer {api_key}".
Definition apiKeyHeaderAuth : RouteAuth := text_auth "header" "x-api-key" "{api_key}".
Definition geminiQueryAuth : RouteAuth := text_auth "query" "key" "{api_key}".

(** A route as the program writes it. *)
Definition text_route (incoming upstream : ustring) (c : AdvancedCustomConverter) (a : option RouteAuth) : Route :=
  mkRoute (JString incoming) upstream (JString (converter_name c)) [] a.

Definition native (path : string) (a : RouteAuth) : Route := text_route (js path) (js path) CNone (Some a).

Record AdvancedCustomTemplateOption := mkTemplate {
  template_value : ustring;
  template_label : ustring;
  template_routes : list Route;
}.

Definition template (value label : string) (routes : list Route) : AdvancedCustomTemplateOption :=
  mkTemplate (js value) (js label) routes.

Definition ADVANCED_CUSTOM_TEMPLATE_OPTIONS : list AdvancedCustomTemplateOption :=
  [template "official_openai_chat" "Official OpenAI Chat" [native "/v1/chat/completions" bearerHeaderAuth];
   template "official_openai_responses" "Official OpenAI Responses" [native "/v1/responses" bearerHeaderAuth];
   template "official_openai_embeddings" "Official OpenAI Embeddings" [native "/v1/embeddings" bearerHeaderAuth];
   template "official_openai_images" "Official OpenAI Images"
     [native "/v1/images/generations" bearerHeaderAuth; native "/v1/images/edits" bearerHeaderAuth];
   template "official_claude_messages" "Official Claude Messages" [native "/v1/messages" apiKeyHeaderAuth];
   template "official_gemini_native" "Official Gemini Native"
     [native "/v1beta/models/{model}:generateContent" geminiQueryAuth;
      native "/v1beta/models/{model}:embedContent" geminiQueryAuth;
      native "/v1beta/models/{model}:batchEmbedContents" geminiQueryAuth];
   template "official_gemini_from_openai_chat" "Official Gemini from OpenAI Chat"
     [text_route (js "/v1/chat/completions") (js "/v1beta/models/{model}:generateContent") CChatToGemini
        (Some geminiQueryAuth)]].

Definition createAdvancedCustomRoute : Route := text_route openAIChatPath openAIChatPath CNone None.
Definition createAdvancedCustomConfig : list Route := [createAdvancedCustomRoute].

(** ** Converters and paths *)

Definition isConverterPathAllowed (incomingPath : ustring) (c : AdvancedCustomConverter) : bool :=
  match c with
  | CNone => true
  | _ =>
      if ustring_eqb incomingPath (js "/v1/alpha/search") then false
      else
        match c with
        | CAnthropicToChat => ustring_eqb incomingPath (js "/v1/messages")
        | CChatToAnthropic | CChatToResponses | CChatToGemini => ustring_eqb incomingPath (js "/v1/chat/completions")
        | CResponsesToChat => ustring_eqb incomingPath (js "/v1/responses")
        | CResponsesToGemini => ustring_eqb incomingPath (js "/v1/responses")
        | _ => includes (js ":generateContent") incomingPath || includes (js ":streamGenerateContent") incomingPath
        end
  end.

Definition getAdvancedCustomIncomingPathOptions (c : AdvancedCustomConverter) : list (ustring * ustring) :=
  filter (fun o => isConverterPathAllowed o.1 c = true) ADVANCED_CUSTOM_INCOMING_PATH_OPTIONS.

Definition getDefaultAdvancedCustomIncomingPath (c : AdvancedCustomConverter) : ustring :=
  match getAdvancedCustomIncomingPathOptions c with
  | o :: _ => if truthy o.1 then o.1 else js "/v1/chat/completions"
  | [] => js "/v1/chat/completions"
  end.

Definition isAdvancedCustomIncomingPathAllowed : ustring → AdvancedCustomConverter → bool := isConverterPathAllowed.

Definition getAdvancedCustomConverterOptions (incomingPath : ustring) : list ConverterOption :=
  filter (fun o => bool_decide (option_value o = CNone) || isConverterPathAllowed (trim incomingPath) (option_value o) = true)
    ADVANCED_CUSTOM_CONVERTER_OPTIONS.

Definition getAdvancedCustomNativeAuth (incomingPath : ustring) : RouteAuth :=
  if ustring_eqb incomingPath claudeMessagesPath then apiKeyHeaderAuth
  else if includes (js ":generateContent") incomingPath || includes (js ":streamGenerateContent") incomingPath
          || includes (js ":embedContent") incomingPath || includes (js ":batchEmbedContents") incomingPath
  then geminiQueryAuth
  else bearerHeaderAuth.

(** The upstream path and the authentication a converter starts with. *)
Definition getAdvancedCustomConverterDefaults (c : AdvancedCustomConverter) (incomingPath : ustring)
    : ustring * RouteAuth :=
  let normalizedIncomingPath :=
    if truthy (trim incomingPath) then trim incomingPath else getDefaultAdvancedCustomIncomingPath c in
  match c with
  | CNone => (normalizedIncomingPath, getAdvancedCustomNativeAuth normalizedIncomingPath)
  | CAnthropicToChat | CGeminiToChat | CResponsesToChat => (openAIChatPath, bearerHeaderAuth)
  | CChatToResponses => (openAIResponsesPath, bearerHeaderAuth)
  | CChatToAnthropic => (claudeMessagesPath, apiKeyHeaderAuth)
  | CChatToGemini | CResponsesToGemini => (geminiGenerateContentPath, geminiQueryAuth)
  end.

Definition getAdvancedCustomUpstreamPathPlaceholder (c : AdvancedCustomConverter) (incomingPath : option ustring)
    : ustring :=
  (getAdvancedCustomConverterDefaults c (default (getDefaultAdvancedCustomIncomingPath c) incomingPath)).1.

(** [options.find((option) => option.value === value)?.label || value]. *)
Definition label_of (options : list (ustring * ustring)) (value : ustring) : option ustring :=
  match filter (fun o => o.1 = value) options with
  | o :: _ => if truthy o.2 then Some o.2 else None
  | [] => None
  end.

Definition getAdvancedCustomIncomingPathLabel (value : ustring) : ustring :=
  default value (label_of ADVANCED_CUSTOM_INCOMING_PATH_OPTIONS value).

(** ** Normal form *)

(** [value.trim()], which throws when the value is not a text. *)
Definition trim_value (value : json) : option ustring :=
  match value with JString s => Some (trim s) | _ => None end.

Definition getAdvancedCustomRouteUpstreamPath (upstream : option json) : option ustring :=
  trim_value (or_json upstream (JString [])).

(** [models.map((model) => model.trim()).filter(Boolean)]. *)
Definition normalizeAdvancedCustomRouteModels (value : option json) : option (list ustring) :=
  match value with
  | Some (JArray vs) => filter (fun m => truthy m = true) <$> mapM trim_value vs
  | _ => Some []
  end.

Definition normalize_auth (value : option json) : option RouteAuth :=
  if truthy_json value then
    Some (mkAuth (prop value "type") (or_json (prop value "name") (JString []))
            (or_json (prop value "value") (JString [])))
  else None.

Definition normalizeAdvancedCustomRoute (route : json) : option Route :=
  match route with
  | JNull => None
  | _ =>
      let get name := prop (Some route) name in
      upstream ← getAdvancedCustomRouteUpstreamPath (get "upstream_path"%string);
      ms ← normalizeAdvancedCustomRouteModels (get "models"%string);
      Some (mkRoute (or_json (get "incoming_path"%string) (JString [])) upstream
              (or_json (get "converter"%string) (JString (js "none"))) ms (normalize_auth (get "auth"%string)))
  end.

Definition normalizeAdvancedCustomConfig (config : json) : option (list Route) :=
  match prop (Some config) "advanced_routes" with
  | Some (JArray routes) => mapM normalizeAdvancedCustomRoute routes
  | _ => Some []
  end.

(** Routes as the values the program makes of them; what is [undefined] is absent. *)
Definition auth_json (a : RouteAuth) : json :=
  JObject (present [(js "type", auth_type a); (js "name", Some (auth_name a)); (js "value", Some (auth_value a))]).

Definition route_json (r : Route) : json :=
  JObject (present
    [(js "incoming_path", Some (incoming_path r));
     (js "upstream_path", Some (JString (upstream_path r)));
     (js "converter", Some (converter r));
     (js "models", match models r with [] => None | ms => Some (JArray (map JString ms)) end);
     (js "auth", auth_json <$> auth r)]).

Definition config_json (routes : list Route) : json :=
  JObject [(js "advanced_routes", JArray (map route_json routes))].

Definition cloneAdvancedCustomConfig (config : json) : option json := JSON_parse (JSON_stringify config).

(** A copy of the template of a name, of the first one when there is none. *)
Definition getAdvancedCustomTemplateConfig (templateKey : ustring) : option json :=
  let routes :=
    match filter (fun o => template_value o = templateKey) ADVANCED_CUSTOM_TEMPLATE_OPTIONS with
    | o :: _ => template_routes o
    | [] => match ADVANCED_CUSTOM_TEMPLATE_OPTIONS with o :: _ => template_routes o | [] => [] end
    end in
  cloneAdvancedCustomConfig (config_json routes).

Definition parseAdvancedCustomConfig (value : option ustring) : option (list Route) :=
  match value with
  | None => None
  | Some text =>
      if negb (truthy (trim text)) then None
      else
        match JSON_parse text with
        | Some (JObject fields) => normalizeAdvancedCustomConfig (JObject fields)
        | _ => None
        end
  end.

(** [JSON.stringify(..., null, 2)]. *)
Definition stringifyAdvancedCustomConfig (config : json) : option ustring :=
  (fun routes => JSON_print (js "  ") [] (config_json routes)) <$> normalizeAdvancedCustomConfig config.

Definition parseAdvancedCustomRouteModels (value : ustring) : list ustring :=
  uniq (filter (fun m => truthy m = true) (map trim (split_on (chr ",") value))).

Inductive AdvancedCustomModelRuleKind := Exact | RegexRule.

Definition getAdvancedCustomModelRuleKind (modelRule : ustring) : AdvancedCustomModelRuleKind :=
  if starts_with ADVANCED_CUSTOM_MODEL_REGEX_PREFIX modelRule then RegexRule else Exact.

Definition getAdvancedCustomRegexModelPattern (modelRule : ustring) : ustring :=
  drop (length ADVANCED_CUSTOM_MODEL_REGEX_PREFIX) modelRule.

(** ** Validation *)

(** [isAdvancedCustomConverter(value)]: the converter of that name. *)
Definition converter_of (value : json) : option AdvancedCustomConverter :=
  match value with
  | JString s => head (filter (fun c => converter_name c = s) (map option_value ADVANCED_CUSTOM_CONVERTER_OPTIONS))
  | _ => None
  end.

(** What is known of the routes before, for one path. *)
Record PathState := mkPathState { catchAllIndex : option nat; seen_models : gmap ustring nat }.

Abbreviation PathStates := (gmap ustring PathState).

(** The loop over the models of a route: an error, or the models with those of the route. *)
Fixpoint check_models (i : nat) (seenInRoute : list ustring) (known : gmap ustring nat) (ms : list ustring)
    : AdvancedCustomValidationError + gmap ustring nat :=
  match ms with
  | [] => inr known
  | m :: rest =>
      match getAdvancedCustomModelRuleKind m, getAdvancedCustomRegexModelPattern m with
      | RegexRule, [] => inl (mkValidationError (js "Model regex cannot be empty") (Some i))
      | _, _ =>
          if bool_decide (m ∈ seenInRoute) then inl (mkValidationError (js "Duplicate model in route models") (Some i))
          else if bool_decide (is_Some (known !! m)) then
            inl (mkValidationError (js "Route models must be unique for the same incoming path") (Some i))
          else check_models i (m :: seenInRoute) (<[m := i]> known) rest
      end
  end.

Definition validateAdvancedCustomRouteModels (i : nat) (incomingPath : ustring) (ms : list ustring)
    (states : PathStates) : AdvancedCustomValidationError + PathStates :=
  let state := default (mkPathState None ∅) (states !! incomingPath) in
  match ms with
  | [] =>
      match catchAllIndex state with
      | Some _ => inl (mkValidationError (js "Only one catch-all route is allowed for the same incoming path") (Some i))
      | None => inr (<[incomingPath := mkPathState (Some i) (seen_models state)]> states)
      end
  | _ =>
      match catchAllIndex state with
      | Some _ => inl (mkValidationError (js "Catch-all route must be last for the same incoming path") (Some i))
      | None =>
          match check_models i [] (seen_models state) ms with
          | inl e => inl e
          | inr known => inr (<[incomingPath := mkPathState None known]> states)
          end
      end
  end.

(** [auth.name?.trim()]: [Some] of its truth value, [None] for a throw. *)
Definition has_text (value : json) : option bool := truthy <$> trim_value value.

(** [Some None] is no error. *)
Definition validateRouteAuth (a : option RouteAuth) : option (option ustring) :=
  match a with
  | None => Some None
  | Some a =>
      if isText (auth_type a) (js "none") then Some None
      else if negb (isText (auth_type a) (js "header")) && negb (isText (auth_type a) (js "query"))
      then Some (Some (js "Auth type is invalid"))
      else
        named ← has_text (auth_name a);
        if negb named then Some (Some (js "Auth name is required"))
        else
          valued ← has_text (auth_value a);
          if negb valued then Some (Some (js "Auth value is required")) else Some None
  end.

Section validation.
  (** [new URL(text)]: its host and its protocol; [None] when it throws. *)
  Context (URL_parts : ustring → option (ustring * ustring)).

Definition isFullHttpURLOrAbsolutePath (value : ustring) : bool :=
  if starts_with (js "/") value then negb (starts_with (js "//") value)
  else
    match URL_parts value with
    | Some (host, protocol) =>
        truthy host && (ustring_eqb protocol (js "http:") || ustring_eqb protocol (js "https:"))
    | None => false
    end.

(** What happens at a route: a throw, an error, or going on. *)
Inductive checked := Throws | Refused (e : AdvancedCustomValidationError) | Passed (states : PathStates) (modelListRouteIndex : option nat).

(** The checks of the model list route. *)
Definition check_model_list (i : nat) (r : Route) (listed : option nat) : option ustring :=
  match listed with
  | Some _ => Some (js "Only one OpenAI Models route is allowed")
  | None =>
      match models r with
      | _ :: _ => Some (js "OpenAI Models route does not support client model rules")
      | [] =>
          if negb (isText (Some (converter r)) (js "none")) then Some (js "OpenAI Models route must use native forwarding")
          else if includes (js "{model}") (upstream_path r)
          then Some (js "OpenAI Models upstream path must not contain {model}")
          else None
      end
  end.

(** The body of the loop of [validateAdvancedCustomConfig]; the upstream path and the models
    of a normalised route are already trimmed. *)
Definition check_route (i : nat) (r : Route) (states : PathStates) (listed : option nat) : checked :=
  let refuse text := Refused (mkValidationError (js text) (Some i)) in
  match trim_value (incoming_path r) with
  | None => Throws
  | Some incomingPath =>
      if negb (truthy incomingPath) then refuse "Incoming path is required"%string
      else if negb (starts_with (js "/") incomingPath) then refuse "Incoming path must start with /"%string
      else if includes (js "?") incomingPath then refuse "Incoming path must not include query"%string
      else
        let is_list := ustring_eqb incomingPath ADVANCED_CUSTOM_MODEL_LIST_PATH in
        match (if is_list then check_model_list i r listed else None) with
        | Some text => Refused (mkValidationError text (Some i))
        | None =>
            match validateAdvancedCustomRouteModels i incomingPath (models r) states with
            | inl e => Refused e
            | inr states =>
                if negb (truthy (upstream_path r)) then refuse "Upstream path is required"%string
                else if negb (isFullHttpURLOrAbsolutePath (upstream_path r))
                then refuse "Upstream path must be a full URL or a path starting with /"%string
                else
                  match converter_of (converter r) with
                  | None => refuse "Converter is not registered"%string
                  | Some c =>
                      if negb (isConverterPathAllowed incomingPath c) then refuse "Converter does not match incoming path"%string
                      else
                        match validateRouteAuth (auth r) with
                        | None => Throws
                        | Some (Some text) => Refused (mkValidationError text (Some i))
                        | Some None => Passed states (if is_list then Some i else listed)
                        end
                  end
            end
        end
  end.

(** [Some None] is [null], a valid configuration. *)
Fixpoint check_routes (i : nat) (routes : list Route) (states : PathStates) (listed : option nat)
    : option (option AdvancedCustomValidationError) :=
  match routes with
  | [] => Some None
  | r :: rest =>
      match check_route i r states listed with
      | Throws => None
      | Refused e => Some (Some e)
      | Passed states listed => check_routes (S i) rest states listed
      end
  end.

Definition validateAdvancedCustomConfig (config : option json) : option (option AdvancedCustomValidationError) :=
  match config with
  | None => Some (Some (mkValidationError (js "Advanced custom configuration is required") None))
  | Some config =>
      routes ← normalizeAdvancedCustomConfig config;
      match routes with
      | [] => Some (Some (mkValidationError (js "Advanced custom configuration requires at least one route") None))
      | _ => check_routes 0 routes ∅ None
      end
  end.

Definition hasValidAdvancedCustomModelListRoute (config : option json) : option bool :=
  match config with
  | None => Some false
  | Some value =>
      error ← validateAdvancedCustomConfig config;
      match error with
      | Some _ => Some false
      | None =>
          routes ← normalizeAdvancedCustomConfig value;
          paths ← mapM (fun r => trim_value (incoming_path r)) routes;
          Some (existsb (fun p => ustring_eqb p ADVANCED_CUSTOM_MODEL_LIST_PATH) paths)
      end
  end.

Definition advancedCustomConfigUsesRelativeUpstreamPath (config : option json) : option bool :=
  match config with
  | None => Some false
  | Some value =>
      routes ← normalizeAdvancedCustomConfig value;
      Some (existsb (fun r => starts_with (js "/") (upstream_path r)) routes)
  end.

(** [Some None] is [null].  The labels are those of paths that no prototype has. *)
Definition getAdvancedCustomRouteSummaryLabel (r : Route) : option (option ustring) :=
  incomingPath ← trim_value (incoming_path r);
  if negb (truthy incomingPath) then Some None
  else
    Some (Some (default (getAdvancedCustomIncomingPathLabel incomingPath)
                  (label_of ADVANCED_CUSTOM_ROUTE_SUMMARY_LABELS incomingPath))).

Record AdvancedCustomStats := mkStats { routeCount : nat; valid : bool; routeTypeLabels : list ustring }.

Definition getAdvancedCustomStats (value : option ustring) : option AdvancedCustomStats :=
  match parseAdvancedCustomConfig value with
  | None => Some (mkStats 0 false [])
  | Some config =>
      routes ← normalizeAdvancedCustomConfig (config_json config);
      labels ← mapM getAdvancedCustomRouteSummaryLabel routes;
      error ← validateAdvancedCustomConfig (Some (config_json routes));
      Some (mkStats (length routes) (match error with None => true | Some _ => false end)
              (uniq (filter (fun l => truthy l = true) (map (default []) labels))))
  end.
End validation.

(** ** The authentication of a route in the form *)

(** [route.auth?.type || 'default'], on the types of the form. *)
Definition getAdvancedCustomAuthMode (r : Route) : AdvancedCustomAuthMode :=
  match auth r with
  | None => ModeDefault
  | Some a =>
      if isText (auth_type a) (js "none") then ModeNone
      else if isText (auth_type a) (js "header") then ModeHeader
      else if isText (auth_type a) (js "query") then ModeQuery
      else ModeDefault
  end.

(** [previousAuth?.name || text]; a name and a value that are absent are empty. *)
Definition previous_or (part : RouteAuth → json) (previousAuth : option RouteAuth) (text : string) : json :=
  or_json (part <$> previousAuth) (JString (js text)).

Definition buildAdvancedCustomAuth (mode : AdvancedCustomAuthMode) (previousAuth : option RouteAuth) : option RouteAuth :=
  match mode with
  | ModeDefault => None
  | ModeNone => Some (mkAuth (Some (JString (js "none"))) (JString []) (JString []))
  | ModeHeader =>
      Some (mkAuth (Some (JString (js "header"))) (previous_or auth_name previousAuth "Authorization")
              (previous_or auth_value previousAuth "Bearer {api_key}"))
  | ModeQuery =>
      Some (mkAuth (Some (JString (js "query"))) (previous_or auth_name previousAuth "api_key")
              (previous_or auth_value previousAuth "{api_key}"))
  end.
