(* ===== verification/AdvancedCustomProperties.v ===== *)
(** * Properties of advanced custom channels

    The validator, which keeps a table of paths while it goes through the routes, accepts
    exactly the configurations that satisfy a condition on the routes alone; the text of a
    configuration is read back; what the form offers is accepted. *)

From Stdlib Require Import Lia.
From stdpp Require Import base numbers strings option sets gmap list.
From S2P Require Import Prelude JsNumber Json JsonText JsonPrint JsonStringify StorageSchema AdvancedCustom.

(** ** The condition on the routes *)

Definition path_of (r : Route) : ustring := default [] (trim_value (incoming_path r)).

(** A rule that is a regular expression has a pattern. *)
Definition rule_ok (m : ustring) : Prop := m ≠ ADVANCED_CUSTOM_MODEL_REGEX_PREFIX.

Definition auth_ok (a : option RouteAuth) : Prop :=
  match a with
  | None => True
  | Some a =>
      auth_type a = Some (JString (js "none")) ∨
      ((auth_type a = Some (JString (js "header")) ∨ auth_type a = Some (JString (js "query"))) ∧
       (∃ n, auth_name a = JString n ∧ trim n ≠ []) ∧ (∃ v, auth_value a = JString v ∧ trim v ≠ []))
  end.

Section reference.
  Context (URL_parts : ustring → option (ustring * ustring)).

Record route_ok (r : Route) : Prop := mkRouteOk {
  ro_path : ∃ s, incoming_path r = JString s;
  ro_front : starts_with (js "/") (path_of r) = true;
  ro_query : includes (js "?") (path_of r) = false;
  ro_list : path_of r = ADVANCED_CUSTOM_MODEL_LIST_PATH →
    models r = [] ∧ converter r = JString (js "none") ∧ includes (js "{model}") (upstream_path r) = false;
  ro_rules : Forall rule_ok (models r);
  ro_distinct : NoDup (models r);
  ro_upstream : upstream_path r ≠ [] ∧ isFullHttpURLOrAbsolutePath URL_parts (upstream_path r) = true;
  ro_converter : ∃ c, converter r = JString (converter_name c) ∧ isConverterPathAllowed (path_of r) c = true;
  ro_auth : auth_ok (auth r);
}.

(** A later route of the same path: the earlier one is for models of its own. *)
Definition separate (r0 r : Route) : Prop :=
  path_of r0 = path_of r → models r0 ≠ [] ∧ ∀ m, m ∈ models r0 → m ∉ models r.

Definition routes_ok (rs : list Route) : Prop := Forall route_ok rs ∧ ForallOrdPairs separate rs.

Lemma ordered_pairs_snoc {A} (R : A → A → Prop) l x :
  ForallOrdPairs R (l ++ [x]) ↔ ForallOrdPairs R l ∧ Forall (fun y => R y x) l.
Proof.
  induction l as [|y l IH]; simpl.
  - split; [intros _; split; constructor | intros _; repeat constructor].
  - split.
    + intros H. inversion_clear H as [|? ? Hy Hl]. apply Forall_app in Hy as [Hy Hx].
      apply IH in Hl as [Hl Hlx]. split; [by constructor | ]. constructor; [by inversion Hx | done].
    + intros [H Hx]. inversion_clear H as [|? ? Hy Hl]. inversion_clear Hx as [|? ? Hyx Hlx].
      constructor; [apply Forall_app; by repeat constructor | by apply IH].
Qed.

Lemma routes_ok_snoc rs r :
  routes_ok (rs ++ [r]) ↔ routes_ok rs ∧ route_ok r ∧ Forall (fun r0 => separate r0 r) rs.
Proof.
  unfold routes_ok. rewrite Forall_app, Forall_singleton, ordered_pairs_snoc. tauto.
Qed.

Lemma routes_ok_prefix rs rs' : routes_ok (rs ++ rs') → routes_ok rs.
Proof.
  induction rs' as [|r rs' IH] using rev_ind; [by rewrite app_nil_r | ]. rewrite app_assoc, routes_ok_snoc. tauto.
Qed.

(** ** The table of paths *)

Definition state_at (states : PathStates) (p : ustring) : PathState := default (mkPathState None ∅) (states !! p).

(** The table tells of the routes before. *)
Definition states_ok (before : list Route) (states : PathStates) : Prop :=
  ∀ p, (is_Some (catchAllIndex (state_at states p)) ↔ ∃ r, r ∈ before ∧ path_of r = p ∧ models r = []) ∧
       ∀ m, is_Some (seen_models (state_at states p) !! m) ↔ ∃ r, r ∈ before ∧ path_of r = p ∧ m ∈ models r.

Lemma regex_rule_empty m :
  (getAdvancedCustomModelRuleKind m = RegexRule ∧ getAdvancedCustomRegexModelPattern m = []) ↔ ¬ rule_ok m.
Proof.
  unfold getAdvancedCustomModelRuleKind, getAdvancedCustomRegexModelPattern, rule_ok.
  destruct (starts_with ADVANCED_CUSTOM_MODEL_REGEX_PREFIX m) eqn:E.
  - apply starts_with_spec in E. split.
    + intros [_ Hd] Hn. apply Hn. rewrite E, Hd. apply app_nil_r.
    + intros H. split; [done | ]. destruct (decide (m = ADVANCED_CUSTOM_MODEL_REGEX_PREFIX)) as [->|]; [done | by destruct H].
  - split; [by intros [[=] _] | ]. intros H. exfalso. apply H. intros ->. by vm_compute in E.
Qed.

Lemma check_models_spec i ms : ∀ seen known,
  let good := Forall rule_ok ms ∧ NoDup ms ∧ ∀ m, m ∈ ms → (m ∉ seen) ∧ known !! m = None in
  match check_models i seen known ms with
  | inr known' => good ∧ ∀ m, is_Some (known' !! m) ↔ is_Some (known !! m) ∨ m ∈ ms
  | inl e => ¬ good ∧ routeIndex e = Some i
  end.
Proof.
  induction ms as [|m ms IH]; intros seen known; cbv zeta.
  { simpl. split; [ | set_solver]. split; [constructor | ]. split; [constructor | set_solver]. }
  cbn [check_models]. pose proof (regex_rule_empty m) as Hrule.
  assert (Hmain : rule_ok m →
    match (if bool_decide (m ∈ seen) then inl (mkValidationError (js "Duplicate model in route models") (Some i))
           else if bool_decide (is_Some (known !! m)) then inl (mkValidationError (js "Route models must be unique for the same incoming path") (Some i))
           else check_models i (m :: seen) (<[m := i]> known) ms) with
    | inr known' => (Forall rule_ok (m :: ms) ∧ NoDup (m :: ms) ∧ ∀ x, x ∈ m :: ms → (x ∉ seen) ∧ known !! x = None) ∧
                    ∀ x, is_Some (known' !! x) ↔ is_Some (known !! x) ∨ x ∈ m :: ms
    | inl e => ¬ (Forall rule_ok (m :: ms) ∧ NoDup (m :: ms) ∧ ∀ x, x ∈ m :: ms → (x ∉ seen) ∧ known !! x = None) ∧ routeIndex e = Some i
    end).
  { intros Hm. destruct (bool_decide (m ∈ seen)) eqn:Es; bools.
    { split; [ | done]. intros (_ & _ & H). destruct (H m) as [? _]; [left | done]. }
    destruct (bool_decide (is_Some (known !! m))) eqn:Ek; bools.
    { split; [ | done]. intros (_ & _ & H). destruct (H m) as [_ Hn]; [left | ]. rewrite Hn in Ek. by destruct Ek. }
    apply eq_None_not_Some in Ek. specialize (IH (m :: seen) (<[m := i]> known)). cbv zeta in IH.
    destruct (check_models i (m :: seen) (<[m := i]> known) ms) as [e|known'].
    - destruct IH as [Hng Hi]. split; [ | done]. intros (H1 & H2 & H3). apply Hng.
      inversion_clear H1. apply NoDup_cons in H2 as [Hn H2]. split; [done | ]. split; [done | ].
      intros x Hx. destruct (H3 x) as [? ?]; [by right | ]. assert (x ≠ m) by (intros ->; done).
      split; [set_solver | ]. by rewrite lookup_insert_ne.
    - destruct IH as [(H1 & H2 & H3) Hd]. split.
      + split; [by constructor | ]. split.
        * apply NoDup_cons. split; [ | done]. intros Hin. destruct (H3 m Hin) as [Hno _]. set_solver.
        * intros x [->|Hx]%elem_of_cons; [done | ]. destruct (H3 x Hx) as [Hno Hk]. split; [set_solver | ].
          assert (x ≠ m) by set_solver. by rewrite lookup_insert_ne in Hk.
      + intros x. rewrite Hd, elem_of_cons. destruct (decide (x = m)) as [->|Hne].
        * rewrite lookup_insert. rewrite decide_True by done. split; [tauto | ]. intros _. left. eauto.
        * rewrite lookup_insert_ne by done. tauto. }
  destruct (getAdvancedCustomModelRuleKind m) eqn:Ekind.
  - apply Hmain. destruct (decide (m = ADVANCED_CUSTOM_MODEL_REGEX_PREFIX)) as [->|]; [by vm_compute in Ekind | done].
  - destruct (getAdvancedCustomRegexModelPattern m) eqn:Ep.
    + split; [ | done]. intros (H & _). inversion_clear H. by destruct (proj1 Hrule).
    + apply Hmain. intros ->. by vm_compute in Ep.
Qed.

Lemma state_at_insert states p st q :
  state_at (<[p := st]> states) q = if decide (p = q) then st else state_at states q.
Proof. unfold state_at. rewrite lookup_insert. by destruct (decide (p = q)). Qed.

(** Recording a route in the table. *)
Lemma states_ok_snoc before states r st :
  states_ok before states →
  (is_Some (catchAllIndex st) ↔ is_Some (catchAllIndex (state_at states (path_of r))) ∨ models r = []) →
  (∀ m, is_Some (seen_models st !! m) ↔ is_Some (seen_models (state_at states (path_of r)) !! m) ∨ m ∈ models r) →
  states_ok (before ++ [r]) (<[path_of r := st]> states).
Proof.
  intros Hok Hc Hm p. rewrite state_at_insert. destruct (Hok p) as [Hp1 Hp2]. destruct (decide (path_of r = p)) as [<-|Hne].
  - split; [rewrite Hc, Hp1 | intros m; rewrite Hm, Hp2]; set_solver.
  - split; [rewrite Hp1 | intros m; rewrite Hp2]; set_solver.
Qed.

Lemma route_models_spec i r before states :
  states_ok before states →
  let good := Forall rule_ok (models r) ∧ NoDup (models r) ∧ ∀ r0, r0 ∈ before → separate r0 r in
  match validateAdvancedCustomRouteModels i (path_of r) (models r) states with
  | inr states' => good ∧ states_ok (before ++ [r]) states'
  | inl e => ¬ good ∧ routeIndex e = Some i
  end.
Proof.
  intros Hok. cbv zeta. unfold validateAdvancedCustomRouteModels. cbv zeta.
  change (default (mkPathState None ∅) (states !! path_of r)) with (state_at states (path_of r)).
  set (st := state_at states (path_of r)). destruct (Hok (path_of r)) as [Hcatch Hseen]. fold st in Hcatch, Hseen.
  assert (Hclash : is_Some (catchAllIndex st) → ¬ ∀ r0, r0 ∈ before → separate r0 r).
  { intros (r0 & Hin & Hp & Hnil)%Hcatch H. by destruct (H r0 Hin Hp) as [? _]. }
  assert (Hfree : catchAllIndex st = None → ∀ r0, r0 ∈ before → path_of r0 = path_of r → models r0 ≠ []).
  { intros Hn r0 Hin Hp Hnil. assert (is_Some (catchAllIndex st)) as [? E] by (apply Hcatch; eauto). congruence. }
  destruct (models r) as [|m ms] eqn:Em.
  - destruct (catchAllIndex st) as [k|] eqn:Ec.
    + split; [ | done]. intros (_ & _ & H). by apply Hclash.
    + split.
      * split; [constructor | ]. split; [constructor | ]. intros r0 Hin Hp. rewrite Em. split; [by apply Hfree | set_solver].
      * apply states_ok_snoc; [done | | ]; fold st; rewrite Em, ?Ec; simpl; [split; eauto | set_solver].
  - destruct (catchAllIndex st) as [k|] eqn:Ec.
    + split; [ | done]. intros (_ & _ & H). by apply Hclash.
    + pose proof (check_models_spec i (m :: ms) [] (seen_models st)) as Hc. cbv zeta in Hc.
      assert (Hnone : (∀ x, x ∈ m :: ms → (x ∉ []) ∧ seen_models st !! x = None) ↔ ∀ r0, r0 ∈ before → separate r0 r).
      { split.
        - intros H r0 Hin Hp. split; [by apply Hfree | ]. rewrite Em. intros x Hx Hx'. destruct (H x Hx') as [_ Hn].
          assert (is_Some (seen_models st !! x)) as [? E] by (apply Hseen; eauto). congruence.
        - intros H x Hx. split; [by apply not_elem_of_nil | ]. apply eq_None_not_Some. intros (r0 & Hin & Hp & Hx0)%Hseen.
          destruct (H r0 Hin Hp) as [_ Hd]. rewrite Em in Hd. by apply (Hd x). }
      destruct (check_models i [] (seen_models st) (m :: ms)) as [e|known]; rewrite Hnone in Hc; [exact Hc | ].
      destruct Hc as [Hg Hd]. split; [exact Hg | ].
      apply states_ok_snoc; [done | | ]; fold st; rewrite Em; cbn [catchAllIndex seen_models].
      * rewrite Ec. split; [by intros []%is_Some_None | ]. intros [[]%is_Some_None|[=]].
      * exact Hd.
Qed.

Lemma converter_of_spec v c : converter_of v = Some c ↔ v = JString (converter_name c).
Proof.
  split.
  - destruct v as [| | |s| |]; try done. cbn [converter_of]. intros H. apply head_Some_elem_of, list_elem_of_filter in H as [-> _]. done.
  - intros ->. by destruct c; vm_compute.
Qed.

Lemma converter_none_name v : isText (Some v) (js "none") = true ↔ v = JString (js "none").
Proof. destruct v as [| | |s| |]; simpl; try (split; congruence). unfold ustring_eqb. rewrite bool_decide_eq_true. split; congruence. Qed.

Lemma isText_spec v s : isText v s = true ↔ v = Some (JString s).
Proof.
  destruct v as [[| | |t| |]|]; simpl; try (split; congruence). unfold ustring_eqb. rewrite bool_decide_eq_true. split; congruence.
Qed.

Lemma has_text_spec v : has_text v = Some true ↔ ∃ s, v = JString s ∧ trim s ≠ [].
Proof.
  destruct v as [| | |s| |]; try (split; [done | by intros (? & ? & _)]). unfold has_text, trim_value. cbn [fmap option_fmap option_map].
  destruct (trim s) as [|c t] eqn:E; simpl; split; try done; [by intros (? & [= <-] & ?) | intros _]. exists s. by rewrite E.
Qed.

Lemma validateRouteAuth_spec a : validateRouteAuth a = Some None ↔ auth_ok a.
Proof.
  destruct a as [a|]; [ | done]. unfold validateRouteAuth, auth_ok.
  destruct (isText (auth_type a) (js "none")) eqn:En; [apply isText_spec in En; tauto | ].
  assert (Hn : auth_type a ≠ Some (JString (js "none"))) by (intros H; apply isText_spec in H; congruence).
  rewrite <- !isText_spec, <- !has_text_spec, En.
  destruct (isText (auth_type a) (js "header")), (isText (auth_type a) (js "query")); cbn [negb andb];
    destruct (has_text (auth_name a)) as [[]|]; cbn; destruct (has_text (auth_value a)) as [[]|]; cbn;
    split; intuition congruence.
Qed.

Definition listed_ok (before : list Route) (listed : option nat) : Prop :=
  is_Some listed ↔ ∃ r, r ∈ before ∧ path_of r = ADVANCED_CUSTOM_MODEL_LIST_PATH.

Definition accepted (before : list Route) (r : Route) : Prop :=
  route_ok r ∧ Forall (fun r0 => separate r0 r) before.

(** The model list route is checked where the condition asks for it. *)
Lemma check_model_list_spec i r before listed :
  Forall route_ok before → listed_ok before listed → path_of r = ADVANCED_CUSTOM_MODEL_LIST_PATH →
  match check_model_list i r listed with
  | Some _ => ¬ accepted before r
  | None => models r = [] ∧ converter r = JString (js "none") ∧ includes (js "{model}") (upstream_path r) = false
  end.
Proof.
  intros Hb Hl Hp. unfold check_model_list. destruct listed as [k|].
  - intros [_ Hs]. destruct Hl as [(r0 & Hin & Hp0) _]; [eauto | ]. rewrite Forall_forall in Hb, Hs.
    destruct (ro_list r0 (Hb r0 Hin) Hp0) as [Hnil _]. destruct (Hs r0 Hin) as [Hne _]; congruence.
  - destruct (models r) as [|m ms] eqn:Em; [ | intros [H _]; destruct (ro_list r H Hp) as [? _]; congruence].
    destruct (isText (Some (converter r)) (js "none")) eqn:Ec; cbn [negb].
    + apply converter_none_name in Ec. destruct (includes (js "{model}") (upstream_path r)) eqn:Ei; [ | done].
      intros [H _]. destruct (ro_list r H Hp) as (_ & _ & ?). congruence.
    + intros [H _]. destruct (ro_list r H Hp) as (_ & Hn & _). apply converter_none_name in Hn. congruence.
Qed.

Lemma check_route_spec i r before states listed :
  Forall route_ok before → states_ok before states → listed_ok before listed →
  match check_route URL_parts i r states listed with
  | Passed states' listed' => accepted before r ∧ states_ok (before ++ [r]) states' ∧ listed_ok (before ++ [r]) listed'
  | Refused e => ¬ accepted before r ∧ routeIndex e = Some i
  | Throws => ¬ accepted before r
  end.
Proof.
  intros Hb Hst Hl. unfold check_route. cbv zeta.
  destruct (trim_value (incoming_path r)) as [p|] eqn:Ep.
  2: { intros [H _]. destruct (ro_path r H) as [s Hs]. by rewrite Hs in Ep. }
  assert (Hpath : path_of r = p) by (unfold path_of; by rewrite Ep).
  assert (Hstr : ∃ s, incoming_path r = JString s) by (destruct (incoming_path r); try done; eauto).
  rewrite <- Hpath in *. clear p Hpath Ep.
  destruct (truthy (path_of r)) eqn:Et; cbn [negb].
  2: { split; [ | done]. intros [H _]. pose proof (ro_front r H) as Hf. by destruct (path_of r). }
  destruct (starts_with (js "/") (path_of r)) eqn:Ef; cbn [negb].
  2: { split; [ | done]. intros [H _]. pose proof (ro_front r H). congruence. }
  destruct (includes (js "?") (path_of r)) eqn:Eq.
  { split; [ | done]. intros [H _]. pose proof (ro_query r H). congruence. }
  assert (Hlist : match (if ustring_eqb (path_of r) ADVANCED_CUSTOM_MODEL_LIST_PATH then check_model_list i r listed else None) with
    | Some _ => ¬ accepted before r
    | None => path_of r = ADVANCED_CUSTOM_MODEL_LIST_PATH →
        models r = [] ∧ converter r = JString (js "none") ∧ includes (js "{model}") (upstream_path r) = false end).
  { destruct (ustring_eqb (path_of r) ADVANCED_CUSTOM_MODEL_LIST_PATH) eqn:El; unfold ustring_eqb in El; bools; [ | done].
    pose proof (check_model_list_spec i r before listed Hb Hl El). by destruct (check_model_list i r listed). }
  destruct (if ustring_eqb (path_of r) ADVANCED_CUSTOM_MODEL_LIST_PATH then check_model_list i r listed else None); [done | ].
  pose proof (route_models_spec i r before states Hst) as Hm. cbv zeta in Hm.
  destruct (validateAdvancedCustomRouteModels i (path_of r) (models r) states) as [e|states']; rewrite <- Forall_forall in Hm.
  { destruct Hm as [Hn Hi]. split; [ | done]. intros [H Hs]. apply Hn. split; [apply H | ]. split; [apply H | done]. }
  destruct Hm as [(Hr & Hd & Hs) Hst'].
  destruct (truthy (upstream_path r)) eqn:Eu; cbn [negb].
  2: { split; [ | done]. intros [H _]. destruct (ro_upstream r H) as [? _]. by destruct (upstream_path r). }
  destruct (isFullHttpURLOrAbsolutePath URL_parts (upstream_path r)) eqn:Ea; cbn [negb].
  2: { split; [ | done]. intros [H _]. destruct (ro_upstream r H). congruence. }
  destruct (converter_of (converter r)) as [c|] eqn:Ec.
  2: { split; [ | done]. intros [H _]. destruct (ro_converter r H) as (c & Hc & _). apply converter_of_spec in Hc. congruence. }
  destruct (isConverterPathAllowed (path_of r) c) eqn:Eal; cbn [negb].
  2: { split; [ | done]. intros [H _]. destruct (ro_converter r H) as (c' & Hc & ?). apply converter_of_spec in Hc. congruence. }
  pose proof (validateRouteAuth_spec (auth r)) as Hauth.
  destruct (validateRouteAuth (auth r)) as [[e|]|].
  { split; [ | done]. intros [H _]. apply ro_auth, Hauth in H. done. }
  2: { intros [H _]. by apply ro_auth, Hauth in H. }
  split; [ | split; [done | ] ].
  - split; [ | done]. apply converter_of_spec in Ec. split; try done; [ | by exists c | by apply Hauth].
    split; [by destruct (upstream_path r) | done].
  - unfold listed_ok in *. destruct (ustring_eqb (path_of r) ADVANCED_CUSTOM_MODEL_LIST_PATH) eqn:El; unfold ustring_eqb in El; bools.
    + split; [intros _; exists r; set_solver | eauto].
    + rewrite Hl. set_solver.
Qed.

(** The loop: it stops at the first route that cannot be added to those before. *)
Lemma check_routes_spec rest : ∀ before states listed,
  routes_ok before → states_ok before states → listed_ok before listed →
  match check_routes URL_parts (length before) rest states listed with
  | Some None => routes_ok (before ++ rest)
  | Some (Some e) => ∃ k, k < length rest ∧ routeIndex e = Some (length before + k) ∧
      routes_ok (before ++ take k rest) ∧ ¬ routes_ok (before ++ take (S k) rest)
  | None => ¬ routes_ok (before ++ rest)
  end.
Proof.
  induction rest as [|r rest IH]; intros before states listed Hok Hst Hl; cbn [check_routes]; [by rewrite app_nil_r | ].
  assert (Hsnoc : routes_ok (before ++ [r]) ↔ accepted before r).
  { rewrite routes_ok_snoc. unfold accepted. tauto. }
  pose proof (check_route_spec (length before) r before states listed (proj1 Hok) Hst Hl) as Hr.
  destruct (check_route URL_parts (length before) r states listed) as [|e|states' listed'].
  - intros H. apply Hr, Hsnoc. rewrite cons_middle, app_assoc in H. by apply routes_ok_prefix in H.
  - destruct Hr as [Hn Hi]. exists 0. rewrite Nat.add_0_r. cbn [take]. rewrite app_nil_r. split; [simpl; lia | ].
    split; [done | ]. split; [done | ]. by rewrite Hsnoc.
  - destruct Hr as (Ha & Hst' & Hl'). apply Hsnoc in Ha. specialize (IH (before ++ [r]) states' listed' Ha Hst' Hl').
    rewrite length_app in IH. cbn [length] in IH. rewrite Nat.add_1_r in IH.
    destruct (check_routes URL_parts (S (length before)) rest states' listed') as [[e|]|].
    + destruct IH as (k & Hk & Hi & H1 & H2). exists (S k). cbn [take length]. rewrite <- app_assoc in H1, H2.
      split; [lia | ]. split; [by rewrite Hi; f_equal; lia | ]. done.
    + by rewrite <- app_assoc in IH.
    + by rewrite <- app_assoc in IH.
Qed.

Lemma check_routes_start rs :
  match check_routes URL_parts 0 rs ∅ None with
  | Some None => routes_ok rs
  | Some (Some e) => ∃ k, k < length rs ∧ routeIndex e = Some k ∧ routes_ok (take k rs) ∧ ¬ routes_ok (take (S k) rs)
  | None => ¬ routes_ok rs
  end.
Proof.
  apply (check_routes_spec rs []); [split; constructor | | ].
  - intros p. unfold state_at. rewrite lookup_empty. simpl. split; [ | intros m; rewrite lookup_empty];
      (split; [by intros []%is_Some_None | set_solver]).
  - unfold listed_ok. split; [by intros []%is_Some_None | set_solver].
Qed.
End reference.

(** ** Normal forms *)

(** What normalising leaves in a route. *)
Record normal_route (r : Route) : Prop := mkNormal {
  nr_path : incoming_path r = JString [] ∨ truthy_json (Some (incoming_path r)) = true;
  nr_upstream : trim (upstream_path r) = upstream_path r;
  nr_converter : truthy_json (Some (converter r)) = true;
  nr_models : Forall (fun m => trim m = m ∧ truthy m = true) (models r);
  nr_auth : ∀ a, auth r = Some a →
    (auth_name a = JString [] ∨ truthy_json (Some (auth_name a)) = true) ∧
    (auth_value a = JString [] ∨ truthy_json (Some (auth_value a)) = true);
}.

Lemma or_json_cases a b : or_json a b = b ∨ truthy_json (Some (or_json a b)) = true.
Proof. destruct a as [v|]; [ | by left]. unfold or_json. destruct (truthy_json (Some v)) eqn:E; [by right | by left]. Qed.

Lemma or_json_same v b : v = b ∨ truthy_json (Some v) = true → or_json (Some v) b = v.
Proof. unfold or_json. intros [->|H]; [by destruct (truthy_json (Some b)) | by rewrite H]. Qed.

Lemma trim_value_trimmed v s : trim_value v = Some s → trim s = s.
Proof. destruct v as [| | |t| |]; try done. intros [= <-]. apply trim_idempotent. Qed.

Lemma normalize_models_spec v ms :
  normalizeAdvancedCustomRouteModels v = Some ms → Forall (fun m => trim m = m ∧ truthy m = true) ms.
Proof.
  destruct v as [[| | | |vs|]|]; try (intros [= <-]; constructor). cbn [normalizeAdvancedCustomRouteModels].
  destruct (mapM trim_value vs) as [ts|] eqn:E; [ | done]. intros [= <-]. apply Forall_forall. intros m [Ht Hm]%list_elem_of_filter.
  split; [ | done]. apply mapM_Some in E. clear Ht. induction E as [|v t vs ts Hv E IH]; [by apply elem_of_nil in Hm | ].
  apply elem_of_cons in Hm as [->|Hm]; [by eapply trim_value_trimmed | by apply IH].
Qed.

Lemma normalize_route_normal v r : normalizeAdvancedCustomRoute v = Some r → normal_route r.
Proof.
  intros H. assert (Hr : ∃ up ms, getAdvancedCustomRouteUpstreamPath (prop (Some v) "upstream_path") = Some up ∧
    normalizeAdvancedCustomRouteModels (prop (Some v) "models") = Some ms ∧
    r = mkRoute (or_json (prop (Some v) "incoming_path") (JString [])) up
          (or_json (prop (Some v) "converter") (JString (js "none"))) ms (normalize_auth (prop (Some v) "auth"))).
  { assert (Hn : v ≠ JNull) by (by intros ->). unfold normalizeAdvancedCustomRoute in H. cbv zeta in H.
    destruct (getAdvancedCustomRouteUpstreamPath (prop (Some v) "upstream_path")) as [up|]; [ | by destruct v].
    destruct (normalizeAdvancedCustomRouteModels (prop (Some v) "models")) as [ms|]; [ | by destruct v].
    exists up, ms. split; [done | ]. split; [done | ].
    destruct v; [done | ..]; exact (eq_sym (Some_inj _ _ H)). }
  destruct Hr as (up & ms & Hu & Hm & ->).
  split; cbn [incoming_path upstream_path converter models auth].
  - apply or_json_cases.
  - by eapply trim_value_trimmed.
  - destruct (or_json_cases (prop (Some v) "converter") (JString (js "none"))) as [-> | ]; done.
  - by eapply normalize_models_spec.
  - unfold normalize_auth. destruct (truthy_json (prop (Some v) "auth")); [ | done]. intros a [= <-]. split; apply or_json_cases.
Qed.

Lemma mapM_trim_same ms :
  Forall (fun m => trim m = m ∧ truthy m = true) ms →
  normalizeAdvancedCustomRouteModels (Some (JArray (map JString ms))) = Some ms.
Proof.
  intros H. cbn [normalizeAdvancedCustomRouteModels].
  assert (E : mapM trim_value (map JString ms) = Some ms).
  { apply mapM_Some_2. induction H as [|m ms [Ht _] H IH]; [constructor | ]. constructor; [simpl; by rewrite Ht | done]. }
  rewrite E. cbn [fmap option_fmap option_map]. f_equal. apply filter_all. rewrite Forall_forall in H. intros m Hm. by apply H.
Qed.

(** Normalising is idempotent, also through the value of a route. *)
Lemma normalize_route_json r : normal_route r → normalizeAdvancedCustomRoute (route_json r) = Some r.
Proof.
  intros [Hp Hu Hc Hm Ha]. unfold normalizeAdvancedCustomRoute, route_json, prop. cbv zeta. cbn [mbind option_bind get].
  rewrite !field_present by (apply (bool_decide_unpack _); vm_compute; exact I).
  set (fields := [(js "incoming_path", Some (incoming_path r)); _; _; _; _]).
  change (look fields (js "upstream_path")) with (Some (JString (upstream_path r))).
  change (look fields (js "incoming_path")) with (Some (incoming_path r)).
  change (look fields (js "converter")) with (Some (converter r)).
  change (look fields (js "models")) with (match models r with [] => None | ms => Some (JArray (map JString ms)) end).
  change (look fields (js "auth")) with (auth_json <$> auth r).
  assert (E1 : getAdvancedCustomRouteUpstreamPath (Some (JString (upstream_path r))) = Some (upstream_path r)).
  { unfold getAdvancedCustomRouteUpstreamPath. rewrite or_json_same; [simpl; by rewrite Hu | ].
    destruct (upstream_path r); [by left | by right]. }
  assert (E2 : normalizeAdvancedCustomRouteModels (match models r with [] => None | ms => Some (JArray (map JString ms)) end) = Some (models r)).
  { destruct (models r) as [|m ms] eqn:Em; [done | ]. by apply mapM_trim_same. }
  assert (E3 : normalize_auth (auth_json <$> auth r) = auth r).
  { destruct (auth r) as [a|] eqn:Ea; [ | done]. destruct (Ha a eq_refl) as [Hn Hv]. destruct a as [ty na va].
    cbn [auth_name auth_value] in *. destruct ty; unfold normalize_auth; cbn [fmap option_fmap option_map auth_json];
    (change (truthy_json (Some (JObject ?f))) with true; cbn iota;
     f_equal; f_equal; [by apply (or_json_same na) | by apply (or_json_same va)]). }
  rewrite E1, E2, E3. cbn [mbind option_bind]. rewrite !or_json_same by tauto. by destruct r.
Qed.

Lemma normalize_config_normal c rs : normalizeAdvancedCustomConfig c = Some rs → Forall normal_route rs.
Proof.
  unfold normalizeAdvancedCustomConfig. destruct (prop (Some c) "advanced_routes") as [[| | | |vs|]|]; try (intros [= <-]; constructor).
  intros H%mapM_Some. induction H as [|v r vs rs Hv H IH]; constructor; [by eapply normalize_route_normal | done].
Qed.

Lemma normalize_config_json rs : Forall normal_route rs → normalizeAdvancedCustomConfig (config_json rs) = Some rs.
Proof.
  intros H. apply mapM_Some_2. induction H as [|r rs Hr H IH]; [constructor | ]. constructor; [by apply normalize_route_json | done].
Qed.

Lemma config_text_solid rs : solid (JSON_print (js "  ") [] (config_json rs)).
Proof.
  cbn [config_json JSON_print map]. unfold bracket. rewrite (app_assoc (line _ _)), (app_assoc (_ ++ join _ _)).
  by apply (solid_app (js "{") (js "}")).
Qed.

(** ** Theorems *)

(** C29: the validator accepts exactly the configurations whose routes satisfy the condition:
    there is a route, every route is well formed on its own, and of two routes with the
    same path the earlier one has models of its own, none of them shared.  An error names
    the first route that breaks the condition: the routes before it satisfy it. *)
Theorem validation_is_exact URL_parts c :
  (validateAdvancedCustomConfig URL_parts (Some c) = Some None ↔
   ∃ rs, normalizeAdvancedCustomConfig c = Some rs ∧ rs ≠ [] ∧ routes_ok URL_parts rs) ∧
  (∀ e i, validateAdvancedCustomConfig URL_parts (Some c) = Some (Some e) → routeIndex e = Some i →
   ∃ rs, normalizeAdvancedCustomConfig c = Some rs ∧ i < length rs ∧
     routes_ok URL_parts (take i rs) ∧ ¬ routes_ok URL_parts (take (S i) rs)).
Proof.
  cbn [validateAdvancedCustomConfig]. destruct (normalizeAdvancedCustomConfig c) as [rs|]; cbn [mbind option_bind].
  2: { split; [split; [done | by intros (? & ? & _)] | done]. }
  destruct rs as [|r rs].
  { split; [split; [done | by intros (? & [= <-] & ? & _)] | by intros e i [= <-]]. }
  pose proof (check_routes_start URL_parts (r :: rs)) as H. cbn [check_routes] in H |- *.
  destruct (match check_route URL_parts 0 r ∅ None with Throws => None | Refused e => Some (Some e) | Passed s l => _ end) as [[e|]|].
  - destruct H as (k & Hk & Hi & H1 & H2). split.
    + split; [done | ]. intros (rs' & [= <-] & _ & Hok). exfalso. apply H2.
      rewrite <- (take_drop (S k) (r :: rs)) in Hok. by apply routes_ok_prefix in Hok.
    + intros e' i [= <-] Hi'. rewrite Hi in Hi'. injection Hi' as <-. by exists (r :: rs).
  - split; [ | done]. split; [ | done]. intros _. by exists (r :: rs).
  - split; [ | done]. split; [done | ]. by intros (rs' & [= <-] & _ & Hok).
Qed.

(** the text of a configuration is read back: writing any configuration and parsing the
    text gives its normal form, and the normal form is judged as the configuration was. *)
Theorem advanced_config_round_trip URL_parts c rs :
  normalizeAdvancedCustomConfig c = Some rs → printable (config_json rs) = true →
  ∃ text, stringifyAdvancedCustomConfig c = Some text ∧ parseAdvancedCustomConfig (Some text) = Some rs ∧
    stringifyAdvancedCustomConfig (config_json rs) = Some text ∧
    validateAdvancedCustomConfig URL_parts (Some (config_json rs)) = validateAdvancedCustomConfig URL_parts (Some c).
Proof.
  intros Hn Hp. assert (Hrs := normalize_config_json rs (normalize_config_normal c rs Hn)).
  exists (JSON_print (js "  ") [] (config_json rs)). split; [unfold stringifyAdvancedCustomConfig; by rewrite Hn | ].
  split; [ | split; [unfold stringifyAdvancedCustomConfig; by rewrite Hrs | cbn [validateAdvancedCustomConfig]; by rewrite Hrs, Hn] ].
  unfold parseAdvancedCustomConfig. rewrite JSON_print_round_trip by done.
  rewrite solid_trim by apply config_text_solid. change (truthy (JSON_print (js "  ") [] (config_json rs))) with true.
  exact Hrs.
Qed.

Definition two_routes : list Route :=
  [mkRoute (JString (js "/v1/messages")) (js "/v1/messages") (JString (js "none")) [js "claude-3"] (Some apiKeyHeaderAuth);
   native "/v1/messages" apiKeyHeaderAuth].

Lemma advanced_config_round_trip_witness :
  ∃ text, stringifyAdvancedCustomConfig (config_json two_routes) = Some text ∧ parseAdvancedCustomConfig (Some text) = Some two_routes.
Proof.
  destruct (advanced_config_round_trip (fun _ => None) (config_json two_routes) two_routes) as (text & H1 & H2 & _);
    [vm_compute; reflexivity | vm_compute; reflexivity | ].
  exists text. split; [exact H1 | exact H2].
Defined.

(** ** What the form offers *)

Definition offered_route (c : AdvancedCustomConverter) (path : ustring) : Route :=
  let d := getAdvancedCustomConverterDefaults c path in text_route path d.1 c (Some d.2).

Lemma clone_template o :
  o ∈ ADVANCED_CUSTOM_TEMPLATE_OPTIONS → cloneAdvancedCustomConfig (config_json (template_routes o)) = Some (config_json (template_routes o)).
Proof.
  intros Ho. apply JSON_round_trip.
  assert (H : forallb (fun o => printable (config_json (template_routes o))) ADVANCED_CUSTOM_TEMPLATE_OPTIONS = true) by (vm_compute; reflexivity).
  rewrite forallb_forall in H. by apply H, list_elem_of_In.
Qed.

(** What the form offers is accepted: every template, the configuration a new channel
    starts with, and for every converter each path that is offered with it, together with
    the upstream path and the authentication that are filled in; and a converter is
    offered for a path exactly when the validator allows it there. *)
Theorem offered_choices_are_accepted URL_parts :
  (∀ templateKey, ∃ config, getAdvancedCustomTemplateConfig templateKey = Some config ∧
     validateAdvancedCustomConfig URL_parts (Some config) = Some None) ∧
  validateAdvancedCustomConfig URL_parts (Some (config_json createAdvancedCustomConfig)) = Some None ∧
  (∀ c path label, (path, label) ∈ getAdvancedCustomIncomingPathOptions c →
     validateAdvancedCustomConfig URL_parts (Some (config_json [offered_route c path])) = Some None) ∧
  (∀ c path, c ∈ map option_value (getAdvancedCustomConverterOptions path) ↔ isConverterPathAllowed (trim path) c = true).
Proof.
  split; [ | split; [by vm_compute | split] ].
  - intros key. unfold getAdvancedCustomTemplateConfig. cbv zeta.
    assert (Hall : Forall (fun o => ∃ config, cloneAdvancedCustomConfig (config_json (template_routes o)) = Some config ∧
      validateAdvancedCustomConfig URL_parts (Some config) = Some None) ADVANCED_CUSTOM_TEMPLATE_OPTIONS).
    { assert (Hv : Forall (fun o => validateAdvancedCustomConfig URL_parts (Some (config_json (template_routes o))) = Some None)
        ADVANCED_CUSTOM_TEMPLATE_OPTIONS) by (repeat (constructor; [vm_compute; reflexivity | ]); constructor).
      rewrite Forall_forall in Hv. apply Forall_forall. intros o Ho. exists (config_json (template_routes o)).
      split; [by apply clone_template | by apply Hv]. }
    destruct (filter (fun o => template_value o = key) ADVANCED_CUSTOM_TEMPLATE_OPTIONS) as [|o rest] eqn:E.
    + inversion_clear Hall as [|? ? H _]. exact H.
    + rewrite Forall_forall in Hall. apply Hall. assert (Ho : o ∈ o :: rest) by left. rewrite <- E in Ho.
      by apply list_elem_of_filter in Ho as [_ Ho].
  - intros c path label Hin.
    assert (Hall : Forall (fun o : ustring * ustring =>
      validateAdvancedCustomConfig URL_parts (Some (config_json [offered_route c o.1])) = Some None) (getAdvancedCustomIncomingPathOptions c)).
    { destruct c; match goal with |- Forall _ ?l => let l' := eval vm_compute in l in change l with l' end;
        repeat (constructor; [vm_compute; reflexivity | ]); constructor. }
    rewrite Forall_forall in Hall. exact (Hall _ Hin).
  - intros c path. unfold getAdvancedCustomConverterOptions. rewrite (list_elem_of_fmap option_value). split.
    + intros (o & -> & [H _]%list_elem_of_filter). apply orb_true_iff in H as [H|H]; [ | done].
      apply bool_decide_eq_true in H. by rewrite H.
    + intros H. assert (Ho : c ∈ map option_value ADVANCED_CUSTOM_CONVERTER_OPTIONS) by (by destruct c; apply (bool_decide_unpack _)).
      apply (list_elem_of_fmap option_value) in Ho as (o & -> & Ho). exists o. split; [done | ].
      apply list_elem_of_filter. split; [apply orb_true_iff; by right | done].
Qed.

(** A path that is a number is parsed, and reading its statistics throws. *)
Example statistics_throw URL_parts :
  let text := json_text "{`advanced_routes`:[{`incoming_path`:5}]}" in
  is_Some (parseAdvancedCustomConfig (Some text)) ∧ getAdvancedCustomStats URL_parts (Some text) = None.
Proof. split; [vm_compute; eauto | by vm_compute]. Qed.
