(* ===== verification/JsonScan.v ===== *)
(** * The texts of JSON values

    A reading of a value takes a text of its own: it stays the same with more fuel and with
    any text that can follow, and a scan of the text that knows only strings and brackets
    ends where it began. *)

From Stdlib Require Import Lia.
From stdpp Require Import base numbers strings option sets list.
From S2P Require Import Prelude JsNumber Json JsonText NumberText JsonPrint JsonStringify.

(** ** More fuel changes nothing *)

Lemma fuel_step fuel :
  (∀ s, read_value fuel s ≠ OutOfFuel → read_value (S fuel) s = read_value fuel s) ∧
  (∀ s acc, read_elements fuel s acc ≠ OutOfFuel → read_elements (S fuel) s acc = read_elements fuel s acc) ∧
  (∀ s acc, read_members fuel s acc ≠ OutOfFuel → read_members (S fuel) s acc = read_members fuel s acc).
Proof.
  induction fuel as [|fuel (IH1 & IH2 & IH3)]; [done | ]. split; [ | split].
  - intros s. remember (S fuel) as g eqn:Eg. rewrite Eg at 1 3. cbn [read_value]. subst g.
    destruct (skip_space s) as [|c s']; [done | ]. destruct (c =? chr "{")%Z.
    { destruct (skip_space s') as [|d r]; [done | ]. destruct (d =? chr "}")%Z; [done | apply IH3]. }
    destruct (c =? chr "[")%Z; [ | done].
    destruct (skip_space s') as [|d r]; [done | ]. destruct (d =? chr "]")%Z; [done | apply IH2].
  - intros s acc. remember (S fuel) as g eqn:Eg. rewrite Eg at 1 3. cbn [read_elements]. subst g.
    pose proof (IH1 s) as H. destruct (read_value fuel s) as [v r| |]; [ | by rewrite H | done].
    rewrite H by done. destruct (skip_space r) as [|c r']; [done | ]. destruct (c =? chr ",")%Z; [apply IH2 | done].
  - intros s acc. remember (S fuel) as g eqn:Eg. rewrite Eg at 1 3. cbn [read_members]. subst g.
    destruct (skip_space s) as [|q s1]; [done | ]. destruct (q =? DQUOTE)%Z; [ | done].
    destruct (read_string s1 []) as [name s2| |]; [ | done | done]. destruct (skip_space s2) as [|c s3]; [done | ].
    destruct (c =? chr ":")%Z; [ | done]. pose proof (IH1 s3) as H.
    destruct (read_value fuel s3) as [v r| |]; [ | by rewrite H | done]. rewrite H by done.
    destruct (skip_space r) as [|d r']; [done | ]. destruct (d =? chr ",")%Z; [apply IH3 | done].
Qed.

Lemma read_value_mono fuel fuel' s : fuel ≤ fuel' → read_value fuel s ≠ OutOfFuel → read_value fuel' s = read_value fuel s.
Proof.
  induction 1 as [|fuel' Hle IH]; [done | ]. intros Hne. rewrite <- (IH Hne). apply fuel_step. by rewrite IH.
Qed.

(** A text that is read with any fuel as a value, with nothing left, is parsed to it. *)
Lemma read_whole fuel w v : read_value fuel w = Read v [] → JSON_parse w = Some v.
Proof.
  intros H. unfold JSON_parse. pose proof (JSON_parse_enough_fuel w) as Hne. destruct (Nat.le_ge_cases fuel (2 * length w + 2)) as [Hle|Hle].
  - rewrite (read_value_mono fuel) by (done || by rewrite H). by rewrite H.
  - rewrite <- (read_value_mono _ fuel w Hle Hne), H. done.
Qed.

(** ** The texts of numbers *)

Definition number_char (c : Z) : bool :=
  is_digit c || (c =? chr "-")%Z || (c =? chr "+")%Z || (c =? chr ".")%Z || (c =? chr "e")%Z || (c =? chr "E")%Z.

Lemma take_while_self {A} (p : A → bool) s : take_while p (take_while p s) = take_while p s.
Proof. induction s as [|c s IH]; simpl; [done | ]. destruct (p c) eqn:E; simpl; [by rewrite E, IH | done]. Qed.

Lemma take_while_drop {A} (p : A → bool) s : s = take_while p s ++ drop (length (take_while p s)) s.
Proof. induction s as [|c s IH]; simpl; [done | ]. destruct (p c); simpl; [by rewrite <- IH | done]. Qed.

Lemma take_while_ends {A} (p : A → bool) s t :
  match t with [] => True | x :: _ => p x = false end → take_while p (take_while p s ++ t) = take_while p s.
Proof. intros Ht. rewrite (proj1 (take_while_app p _ t Ht)). apply take_while_self. Qed.

Lemma digits_chars (ds : ustring) : Forall (fun c => is_digit c = true) ds → Forall (fun c => number_char c = true) ds.
Proof. intros H. eapply Forall_impl; [exact H | ]. intros c Hc. unfold number_char. by rewrite Hc. Qed.

Lemma read_integer_text s i r : read_integer s = Some (i, r) →
  s = i ++ r ∧ i ≠ [] ∧ Forall (fun c => is_digit c = true) i ∧
  ∀ t, match t with [] => True | x :: _ => is_digit x = false end → read_integer (i ++ t) = Some (i, t).
Proof.
  unfold read_integer. pose proof (take_while_Forall is_digit s) as Hds. pose proof (take_while_drop is_digit s) as Hs.
  destruct (take_while is_digit s) as [|d ds] eqn:E; [done | ]. destruct (d =? chr "0")%Z eqn:E0; intros [= <- <-].
  - split; [rewrite Hs; done | ]. inversion Hds as [|? ? Hd ?]; subst. split; [done | ]. split; [by constructor | ].
    intros t Ht. cbn [app take_while]. rewrite Hd. destruct t as [|x t]; cbn [take_while]; [ | rewrite Ht]; by rewrite E0.
  - split; [done | ]. split; [done | ]. split; [done | ]. intros t Ht. rewrite <- E, take_while_ends by done. rewrite E, E0.
    by rewrite drop_app_length.
Qed.

Lemma read_fraction_text s f r : read_fraction s = Some (f, r) →
  s = f ++ r ∧ Forall (fun c => number_char c = true) f ∧ match f with [] => True | x :: _ => x = chr "." end ∧
  ∀ t, match t with [] => True | x :: _ => is_digit x = false ∧ x ≠ chr "." end → read_fraction (f ++ t) = Some (f, t).
Proof.
  unfold read_fraction. destruct s as [|c s].
  { intros [= <- <-]. repeat split; [constructor | ]. intros [|x t] Ht; [done | ]. cbn [app]. by rewrite (proj2 (Z.eqb_neq x _)) by tauto. }
  destruct (c =? chr ".")%Z eqn:Ec.
  - pose proof (take_while_Forall is_digit s) as Hds. pose proof (take_while_drop is_digit s) as Hs.
    destruct (take_while is_digit s) as [|d ds] eqn:E; [done | ]. intros [= <- <-]. bools. subst c.
    split; [cbn [app]; f_equal; exact Hs | ]. split; [constructor; [done | by apply digits_chars] | ]. split; [done | ].
    intros t Ht. cbn [app]. rewrite Z.eqb_refl. change (d :: ds ++ t) with ((d :: ds) ++ t).
    rewrite <- E, take_while_ends by (destruct t; [done | tauto]). rewrite E. by rewrite drop_app_length.
  - intros [= <- <-]. repeat split; [constructor | ]. intros [|x t] Ht; [done | ]. cbn [app]. by rewrite (proj2 (Z.eqb_neq x _)) by tauto.
Qed.

Lemma read_exponent_text s e r : read_exponent s = Some (e, r) →
  s = e ++ r ∧ Forall (fun c => number_char c = true) e ∧ match e with [] => True | x :: _ => x = chr "e" ∨ x = chr "E" end ∧
  read_exponent e = Some (e, []).
Proof.
  unfold read_exponent at 1. destruct s as [|c s]; [by intros [= <- <-] | ].
  destruct ((c =? chr "e")%Z || (c =? chr "E")%Z) eqn:Ec; [ | by intros [= <- <-]].
  assert (Hc : number_char c = true ∧ (c = chr "e" ∨ c = chr "E")).
  { unfold number_char. apply orb_true_iff in Ec as [Ec|Ec]; bools; subst; auto. }
  destruct Hc as [Hc Hc']. destruct s as [|d s]; [done | ].
  destruct ((d =? chr "+")%Z || (d =? chr "-")%Z) eqn:Ed.
  - pose proof (take_while_Forall is_digit s) as Hds. pose proof (take_while_drop is_digit s) as Hs.
    destruct (take_while is_digit s) as [|x ds] eqn:E; [done | ]. intros [= <- <-]. cbn [app].
    split; [do 2 f_equal; exact Hs | ]. split.
    { constructor; [done | ]. constructor; [ | by apply digits_chars]. unfold number_char.
      apply orb_true_iff in Ed as [Ed|Ed]; bools; subst; done. }
    split; [done | ]. unfold read_exponent. rewrite Ec, Ed. rewrite <- E, take_while_self, E. by rewrite drop_all.
  - pose proof (take_while_Forall is_digit (d :: s)) as Hds. pose proof (take_while_drop is_digit (d :: s)) as Hs.
    destruct (take_while is_digit (d :: s)) as [|x ds] eqn:E; [done | ]. intros [= <- <-]. cbn [app].
    split; [f_equal; exact Hs | ]. split; [constructor; [done | by apply digits_chars] | ]. split; [done | ].
    unfold read_exponent. rewrite Ec. assert (x = d) as -> by (cbn in E; destruct (is_digit d); [congruence | done]).
    rewrite Ed. rewrite <- E, take_while_self, E. by rewrite drop_all.
Qed.

Lemma read_unsigned_text s n r : read_unsigned s = Some (n, r) →
  ∃ w, s = w ++ r ∧ w ≠ [] ∧ Forall (fun c => number_char c = true) w ∧ read_unsigned w = Some (n, []).
Proof.
  unfold read_unsigned at 1. destruct (read_integer s) as [[i s1]|] eqn:E1; [ | done]. cbn [mbind option_bind].
  destruct (read_fraction s1) as [[f s2]|] eqn:E2; [ | done]. cbn [mbind option_bind].
  destruct (read_exponent s2) as [[e s3]|] eqn:E3; [ | done]. cbn [mbind option_bind]. intros [= <- <-].
  apply read_integer_text in E1 as (-> & Hi & Hid & E1). apply read_fraction_text in E2 as (-> & Hf & Hf' & E2).
  apply read_exponent_text in E3 as (-> & He & He' & E3). exists (i ++ f ++ e). rewrite <- !app_assoc. split; [done | ].
  split; [by destruct i | ]. split; [by repeat apply Forall_app_2; [apply digits_chars | ..] | ].
  unfold read_unsigned. assert (He2 : match e with [] => True | x :: _ => is_digit x = false ∧ x ≠ chr "." end).
  { destruct e as [|x e]; [done | ]. by destruct He' as [->| ->]. }
  rewrite E1; [ | destruct f as [|x f]; [destruct e; [done | tauto] | by subst x]].
  cbn [mbind option_bind]. rewrite E2 by done. cbn [mbind option_bind]. by rewrite E3.
Qed.

Lemma read_number_text s v r : read_number s = Read v r →
  ∃ w, s = w ++ r ∧ w ≠ [] ∧ Forall (fun c => number_char c = true) w ∧ read_number w = Read v [].
Proof.
  unfold read_number at 1. destruct s as [|c s]; [done | ]. destruct (c =? chr "-")%Z eqn:Ec.
  - destruct (read_unsigned s) as [[n q]|] eqn:E; [ | done]. cbn [mbind option_bind]. intros [= <- <-].
    destruct (read_unsigned_text _ _ _ E) as (w & -> & Hw & Hn & Hr). exists (c :: w). split; [done | ]. split; [done | ].
    bools. subst c. split; [by constructor | ]. unfold read_number. rewrite Z.eqb_refl, Hr. done.
  - destruct (read_unsigned (c :: s)) as [[n q]|] eqn:E; [ | done]. intros [= <- <-].
    destruct (read_unsigned_text _ _ _ E) as (w & Hs & Hw & Hn & Hr). exists w. split; [done | ]. split; [done | ]. split; [done | ].
    destruct w as [|x w]; [done | ]. injection Hs as <- _. unfold read_number. by rewrite Ec, Hr.
Qed.

(** ** Scanning strings and brackets *)

(** Where a scan is: the depth of brackets, and whether it is in a string and after a backslash. *)
Definition place : Type := Z * bool * bool.

(** One character; a comma outside of all brackets stops the scan. *)
Definition scan_char (p : place) (c : Z) : option place :=
  let '(depth, inString, escaped) := p in
  if inString then
    if escaped then Some (depth, true, false)
    else if (c =? chr "\")%Z then Some (depth, true, true)
    else if (c =? DQUOTE)%Z then Some (depth, false, escaped)
    else Some p
  else if (c =? DQUOTE)%Z then Some (depth, true, escaped)
  else if (c =? chr "{")%Z || (c =? chr "[")%Z then Some (depth + 1, false, escaped)%Z
  else if (c =? chr "}")%Z || (c =? chr "]")%Z then Some (depth - 1, false, escaped)%Z
  else if (c =? chr ",")%Z && (depth =? 0)%Z then None
  else Some p.

Fixpoint scan (p : place) (w : ustring) : option place :=
  match w with [] => Some p | c :: w' => p' ← scan_char p c; scan p' w' end.

Lemma scan_app p a b : scan p (a ++ b) = p' ← scan p a; scan p' b.
Proof.
  revert p. induction a as [|c a IH]; intros p; [done | ]. cbn [app scan]. destruct (scan_char p c); [apply IH | done].
Qed.

(** A text whose scan from a depth ends where it began. *)
Definition quiet (d : Z) (w : ustring) : Prop := scan (d, false, false) w = Some (d, false, false).

(** The text of a value, and a text inside of brackets. *)
Definition whole_text (w : ustring) : Prop := ∀ d, (0 ≤ d)%Z → quiet d w.
Definition inner_text (w : ustring) : Prop := ∀ d, (1 ≤ d)%Z → quiet d w.

Lemma quiet_app d a b : quiet d a → quiet d b → quiet d (a ++ b).
Proof. unfold quiet. intros Ha Hb. by rewrite scan_app, Ha. Qed.

Lemma whole_text_app a b : whole_text a → whole_text b → whole_text (a ++ b).
Proof. intros Ha Hb d Hd. by apply quiet_app; [apply Ha | apply Hb]. Qed.

Lemma inner_app a b : inner_text a → inner_text b → inner_text (a ++ b).
Proof. intros Ha Hb d Hd. by apply quiet_app; [apply Ha | apply Hb]. Qed.

Lemma whole_inner w : whole_text w → inner_text w.
Proof. intros H d Hd. apply H. lia. Qed.

(** Characters that are neither quotes nor brackets nor commas. *)
Definition dull (c : Z) : bool :=
  negb ((c =? DQUOTE)%Z || (c =? chr "{")%Z || (c =? chr "[")%Z || (c =? chr "}")%Z || (c =? chr "]")%Z || (c =? chr ",")%Z).

Lemma dull_whole w : Forall (fun c => dull c = true) w → whole_text w.
Proof.
  intros Hw d Hd. induction Hw as [|c w Hc Hw IH]; [done | ]. unfold quiet in *. cbn [scan scan_char].
  unfold dull in Hc. apply negb_true_iff in Hc. repeat (apply orb_false_iff in Hc as [Hc ?]).
  repeat match goal with H : (_ =? _)%Z = false |- _ => rewrite H; clear H end. exact IH.
Qed.

Lemma comma_inner : inner_text (js ",").
Proof.
  intros d Hd. unfold quiet. change (js ",") with [chr ","]. cbn [scan]. unfold scan_char.
  change (chr "," =? DQUOTE)%Z with false. change ((chr "," =? chr "{") || (chr "," =? chr "["))%Z with false.
  change ((chr "," =? chr "}") || (chr "," =? chr "]"))%Z with false. by rewrite Z.eqb_refl, (proj2 (Z.eqb_neq d 0)) by lia.
Qed.

Lemma number_char_dull c : number_char c = true → dull c = true ∧ is_space c = false.
Proof.
  intros H. assert (c = 45 ∨ c = 43 ∨ c = 46 ∨ c = 101 ∨ c = 69 ∨ 48 ≤ c ≤ 57)%Z as Hc.
  { unfold number_char, is_digit in H. revert H. chr_norm. intros H. repeat (apply orb_true_iff in H as [H|H]); bools; lia. }
  assert (In c [45; 43; 46; 101; 69; 48; 49; 50; 51; 52; 53; 54; 55; 56; 57]%Z) as Hin by (simpl; lia).
  clear H Hc. repeat (destruct Hin as [<-|Hin]; [done | ]). done.
Qed.

Lemma blank_dull w : blank w → Forall (fun c => dull c = true ∧ is_space c = true) w.
Proof.
  unfold blank. intros H. apply Forall_forall. intros c Hc. rewrite forallb_forall in H. specialize (H c (proj1 (list_elem_of_In _ _) Hc)).
  unfold is_json_space in H. repeat (apply orb_true_iff in H as [H|H]); bools; subst; done.
Qed.

Lemma blank_whole w : blank w → whole_text w.
Proof. intros H%blank_dull. apply dull_whole. eapply Forall_impl; [exact H | ]. by intros c [? _]. Qed.

(** Brackets around a text. *)
Lemma bracket_whole o c w :
  (o = chr "{" ∧ c = chr "}" ∨ o = chr "[" ∧ c = chr "]") → inner_text w → whole_text (o :: w ++ [c]).
Proof.
  intros Hoc Hw d Hd. unfold quiet. assert (Ho : scan_char (d, false, false) o = Some (d + 1, false, false)%Z) by (destruct Hoc as [[-> _]|[-> _]]; done).
  cbn [scan]. rewrite Ho. cbn [mbind option_bind]. rewrite scan_app, (Hw (d + 1)%Z) by lia. cbn [mbind option_bind scan].
  assert (Hc : scan_char (d + 1, false, false)%Z c = Some (d + 1 - 1, false, false)%Z) by (destruct Hoc as [[_ ->]|[_ ->]]; done).
  rewrite Hc. cbn. do 3 f_equal. lia.
Qed.

(** ** Strings *)

Lemma read_string_text s : ∀ acc t r, read_string s acc = Read t r →
  ∃ w, s = w ++ DQUOTE :: r ∧ (∀ d, scan (d, true, false) (w ++ [DQUOTE]) = Some (d, false, false)) ∧
    ∀ r', read_string (w ++ DQUOTE :: r') acc = Read t r'.
Proof.
  induction s as [s IH] using length_ind. intros acc t r. destruct s as [|c s]; [done | ]. cbn [read_string].
  destruct (c =? DQUOTE)%Z eqn:Eq.
  { intros [= <- <-]. bools. subst c. exists []. split; [done | ]. split; [done | ]. intros r'. cbn [app read_string]. by rewrite Z.eqb_refl. }
  destruct (c =? chr "\")%Z eqn:Eb.
  - destruct s as [|e s]; [done | ]. destruct (e =? chr "u")%Z eqn:Eu.
    + destruct s as [|h1 [|h2 [|h3 [|h4 s]]]]; try done. destruct (hex_unit h1 h2 h3 h4) as [u|] eqn:Eh; [ | done]. intros H.
      apply IH in H as (w & -> & Hs & Hr); [ | simpl; lia]. exists (c :: e :: h1 :: h2 :: h3 :: h4 :: w). split; [done | ]. split.
      * intros d. assert (Hh : Forall (fun h => h ≠ DQUOTE ∧ h ≠ chr "\") [h1; h2; h3; h4]).
        { unfold hex_unit in Eh. assert (Hx : ∀ h x, hex_digit h = Some x → h ≠ DQUOTE ∧ h ≠ chr "\").
          { intros h x Hx. split; intros ->; discriminate Hx. }
          destruct (hex_digit h1) eqn:X1; [ | done]. destruct (hex_digit h2) eqn:X2; [ | done].
          destruct (hex_digit h3) eqn:X3; [ | done]. destruct (hex_digit h4) eqn:X4; [ | done]. repeat constructor; by eapply Hx. }
        inversion Hh as [|? ? [A1 B1] Hh1]; subst. inversion Hh1 as [|? ? [A2 B2] Hh2]; subst.
        inversion Hh2 as [|? ? [A3 B3] Hh3]; subst. inversion Hh3 as [|? ? [A4 B4] Hh4]; subst.
        cbn [app scan scan_char]. rewrite Eb. cbn [mbind option_bind scan scan_char].
        rewrite (proj2 (Z.eqb_neq _ _) A1), (proj2 (Z.eqb_neq _ _) B1). cbn [mbind option_bind scan scan_char].
        rewrite (proj2 (Z.eqb_neq _ _) A2), (proj2 (Z.eqb_neq _ _) B2). cbn [mbind option_bind scan scan_char].
        rewrite (proj2 (Z.eqb_neq _ _) A3), (proj2 (Z.eqb_neq _ _) B3). cbn [mbind option_bind scan scan_char].
        rewrite (proj2 (Z.eqb_neq _ _) A4), (proj2 (Z.eqb_neq _ _) B4). cbn [mbind option_bind scan]. apply Hs.
      * intros r'. cbn [app read_string]. rewrite Eq, Eb, Eu, Eh. apply Hr.
    + destruct (escape_value e) as [u|] eqn:Ee; [ | done]. intros H.
      apply IH in H as (w & -> & Hs & Hr); [ | simpl; lia]. exists (c :: e :: w). split; [done | ]. split.
      * intros d. cbn [app scan scan_char]. rewrite Eb. cbn [mbind option_bind scan scan_char]. apply Hs.
      * intros r'. cbn [app read_string]. rewrite Eq, Eb, Eu, Ee. apply Hr.
  - destruct (c <? 32)%Z eqn:E32; [done | ]. intros H. apply IH in H as (w & -> & Hs & Hr); [ | simpl; lia].
    exists (c :: w). split; [done | ]. split.
    + intros d. cbn [app scan scan_char]. rewrite Eb, Eq. apply Hs.
    + intros r'. cbn [app read_string]. rewrite Eq, Eb, E32. apply Hr.
Qed.

(** ** Values *)

Lemma skip_space_split s : ∃ pre, s = pre ++ skip_space s ∧ blank pre.
Proof.
  exists (take_while is_json_space s). unfold skip_space, blank. split; [by rewrite take_drop_while | ].
  apply forallb_forall. intros c Hc%list_elem_of_In. exact (proj1 (Forall_forall _ _) (take_while_Forall is_json_space s) c Hc).
Qed.

Lemma skip_space_app a b : skip_space (a ++ b) = match skip_space a with [] => skip_space b | u => u ++ b end.
Proof.
  unfold skip_space. induction a as [|c a IH]; [done | ]. cbn [app drop_while]. destruct (is_json_space c); [exact IH | done].
Qed.

(** The text of a value: whatever can follow it, it is read as the value. *)
Definition value_text (fuel : nat) (v : json) (w : ustring) : Prop :=
  solid w ∧ whole_text w ∧ ∀ r, number_ends r → read_value fuel (w ++ r) = Read v r.

(** An element of an array: white space, the text of a value, white space. *)
Definition part (p : ustring * ustring * ustring) : ustring := p.1.1 ++ p.1.2 ++ p.2.

Definition element_text (fuel : nat) (v : json) (p : ustring * ustring * ustring) : Prop :=
  blank p.1.1 ∧ value_text fuel v p.1.2 ∧ blank p.2.

Lemma value_text_mono fuel fuel' v w : fuel ≤ fuel' → value_text fuel v w → value_text fuel' v w.
Proof.
  intros Hle (Hs & Hw & Hr). split; [done | ]. split; [done | ]. intros r He. rewrite (read_value_mono fuel); [by apply Hr | done | by rewrite Hr].
Qed.

Lemma elements_mono fuel fuel' vs ps : fuel ≤ fuel' → Forall2 (element_text fuel) vs ps → Forall2 (element_text fuel') vs ps.
Proof.
  intros Hle H. eapply Forall2_impl; [exact H | ]. intros v p (H1 & H2 & H3). split; [done | ]. split; [by eapply value_text_mono | done].
Qed.

Lemma solid_ends o c w : is_space o = false → is_space c = false → solid (o :: w ++ [c]).
Proof. intros Ho Hc. unfold solid. cbn [head]. change (o :: w ++ [c]) with ([o] ++ w ++ [c]). by rewrite app_assoc, last_snoc. Qed.

Lemma string_text s t r : read_string s [] = Read t r →
  ∃ u, s = u ++ DQUOTE :: r ∧ whole_text (DQUOTE :: u ++ [DQUOTE]) ∧ ∀ r', read_string (u ++ DQUOTE :: r') [] = Read t r'.
Proof.
  intros (u & -> & Hs & Hr)%read_string_text. exists u. split; [done | ]. split; [ | done]. intros d Hd. unfold quiet. cbn [scan scan_char]. apply Hs.
Qed.

Lemma keyword_text word v s r : keyword word v s = Read v r → s = word ++ r.
Proof. unfold keyword. destruct (starts_with word s) eqn:E; [ | done]. intros [= <-]. by apply starts_with_spec. Qed.

Lemma keyword_value fuel word v c u :
  word = c :: u → (∀ r, read_value (S fuel) (word ++ r) = keyword word v (word ++ r)) →
  forallb (fun c => dull c && negb (is_space c)) word = true → value_text (S fuel) v word.
Proof.
  intros Hw Hread Hall. assert (H : Forall (fun c => dull c = true ∧ is_space c = false) word).
  { apply Forall_forall. intros x Hx. rewrite forallb_forall in Hall. specialize (Hall x (proj1 (list_elem_of_In _ _) Hx)). by bools. }
  split; [ | split].
  - apply solid_Forall; [by rewrite Hw | ]. eapply Forall_impl; [exact H | ]. by intros x [_ ?].
  - apply dull_whole. eapply Forall_impl; [exact H | ]. by intros x [? _].
  - intros r _. rewrite Hread. unfold keyword. by rewrite starts_with_app, drop_app_length.
Qed.

Section texts.
  Context (fuel : nat).
  Hypothesis IHV : ∀ s v r, read_value fuel s = Read v r → ∃ pre w, s = pre ++ w ++ r ∧ blank pre ∧ value_text fuel v w.
  Hypothesis IHE : ∀ s acc v r, read_elements fuel s acc = Read v r →
    ∃ vs ps, v = JArray (acc ++ vs) ∧ ps ≠ [] ∧ Forall2 (element_text fuel) vs ps ∧ s = join (js ",") (map part ps) ++ chr "]" :: r ∧
      ∀ r', read_elements fuel (join (js ",") (map part ps) ++ chr "]" :: r') acc = Read v r'.
  Hypothesis IHM : ∀ s acc v r, read_members fuel s acc = Read v r →
    ∃ m, s = m ++ chr "}" :: r ∧ inner_text m ∧ ∀ r', read_members fuel (m ++ chr "}" :: r') acc = Read v r'.

(** A text between brackets that is not blank. *)
Lemma not_closed m close r d t : skip_space (m ++ close :: r) = d :: t → is_json_space close = false → d ≠ close →
  ∀ r', ∃ t', skip_space (m ++ close :: r') = d :: t'.
Proof.
  intros H Hc Hd r'. rewrite skip_space_app in H |- *. destruct (skip_space m) as [|x u].
  - unfold skip_space in H. cbn [drop_while] in H. rewrite Hc in H. congruence.
  - injection H as -> _. by eexists.
Qed.

Lemma join_parts_inner vs ps : Forall2 (element_text fuel) vs ps → inner_text (join (js ",") (map part ps)).
Proof.
  assert (Hp : ∀ v p, element_text fuel v p → inner_text (part p)).
  { intros v p (H1 & (_ & H2 & _) & H3). apply whole_inner, whole_text_app; [by apply blank_whole | ]. apply whole_text_app; [done | by apply blank_whole]. }
  induction 1 as [|v p vs ps H Hs IH]; [done | ]. destruct ps as [|p' ps]; [by eapply Hp | ]. cbn [map join] in *.
  apply inner_app; [by eapply Hp | ]. apply inner_app; [apply comma_inner | exact IH].
Qed.

Lemma read_value_text s v r : read_value (S fuel) s = Read v r → ∃ pre w, s = pre ++ w ++ r ∧ blank pre ∧ value_text (S fuel) v w.
Proof using IHE IHM.
  cbn [read_value]. destruct (skip_space_split s) as (pre & Hs & Hpre). destruct (skip_space s) as [|c s'] eqn:Es; [done | ].
  intros H. exists pre. rewrite Hs. clear Hs Es. revert H.
  destruct (c =? chr "{")%Z eqn:E1.
  { apply Z.eqb_eq in E1. subst c. destruct (skip_space_split s') as (ws & Hs' & Hws). destruct (skip_space s') as [|d t] eqn:E; [done | ].
    destruct (d =? chr "}")%Z eqn:Ed.
    - intros [= <- <-]. bools. subst d. exists (chr "{" :: ws ++ [chr "}"]). rewrite Hs'. split; [by rewrite <- !app_comm_cons, <- app_assoc | ].
      split; [done | ]. split; [by apply solid_ends | ]. split; [apply bracket_whole; [by left | by apply whole_inner, blank_whole] | ].
      intros r' _. rewrite <- app_comm_cons, <- app_assoc. cbn [read_value]. change (skip_space (chr "{" :: ?x)) with (chr "{" :: x). cbn iota.
      rewrite Z.eqb_refl, skip_blank by done. done.
    - intros (m & Hm & Hin & Hr)%IHM. exists (chr "{" :: m ++ [chr "}"]). rewrite Hm in E |- *. split; [by rewrite <- !app_comm_cons, <- app_assoc | ].
      split; [done | ]. split; [by apply solid_ends | ]. split; [apply bracket_whole; [by left | done] | ].
      intros r' _. rewrite <- app_comm_cons, <- app_assoc. cbn [app]. cbn [read_value]. change (skip_space (chr "{" :: ?x)) with (chr "{" :: x). cbn iota.
      bools. destruct (not_closed _ _ _ _ _ E ltac:(done) ltac:(done) r') as (t' & ->). rewrite Z.eqb_refl, (proj2 (Z.eqb_neq d _)) by done. apply Hr. }
  destruct (c =? chr "[")%Z eqn:E2.
  { apply Z.eqb_eq in E2. subst c. destruct (skip_space_split s') as (ws & Hs' & Hws). destruct (skip_space s') as [|d t] eqn:E; [done | ].
    destruct (d =? chr "]")%Z eqn:Ed.
    - intros [= <- <-]. bools. subst d. exists (chr "[" :: ws ++ [chr "]"]). rewrite Hs'. split; [by rewrite <- !app_comm_cons, <- app_assoc | ].
      split; [done | ]. split; [by apply solid_ends | ]. split; [apply bracket_whole; [by right | by apply whole_inner, blank_whole] | ].
      intros r' _. rewrite <- app_comm_cons, <- app_assoc. cbn [read_value]. change (skip_space (chr "[" :: ?x)) with (chr "[" :: x). cbn iota.
      change (chr "[" =? chr "{")%Z with false. rewrite Z.eqb_refl, skip_blank by done. done.
    - intros (vs & ps & -> & _ & Hps & Hm & Hr)%IHE. set (m := join (js ",") (map part ps)) in *. exists (chr "[" :: m ++ [chr "]"]). rewrite Hm in E |- *.
      split; [by rewrite <- !app_comm_cons, <- app_assoc | ]. split; [done | ]. split; [by apply solid_ends | ].
      split; [apply bracket_whole; [by right | by eapply join_parts_inner] | ].
      intros r' _. rewrite <- app_comm_cons, <- app_assoc. cbn [app]. cbn [read_value]. change (skip_space (chr "[" :: ?x)) with (chr "[" :: x). cbn iota.
      change (chr "[" =? chr "{")%Z with false.
      bools. destruct (not_closed _ _ _ _ _ E ltac:(done) ltac:(done) r') as (t' & ->). rewrite Z.eqb_refl, (proj2 (Z.eqb_neq d _)) by done. apply Hr. }
  destruct (c =? DQUOTE)%Z eqn:E3.
  { apply Z.eqb_eq in E3. subst c. destruct (read_string s' []) as [t q| |] eqn:E; [ | done | done]. intros [= <- <-].
    destruct (string_text _ _ _ E) as (u & -> & Hu & Hr). exists (DQUOTE :: u ++ [DQUOTE]). split; [by rewrite <- !app_comm_cons, <- app_assoc | ].
    split; [done | ]. split; [by apply solid_ends | ]. split; [done | ]. intros r' _. rewrite <- app_comm_cons, <- app_assoc. cbn [app].
    cbn [read_value]. change (skip_space (DQUOTE :: ?x)) with (DQUOTE :: x). cbn iota. change (DQUOTE =? chr "{")%Z with false.
    change (DQUOTE =? chr "[")%Z with false. rewrite Z.eqb_refl. cbn iota. by rewrite Hr. }
  destruct (c =? chr "t")%Z eqn:E4.
  { intros H. assert (v = JBool true) as -> by (unfold keyword in H; destruct (starts_with _ _); congruence).
    exists (js "true"). rewrite <- (keyword_text _ _ _ _ H). split; [done | ]. split; [done | ]. by eapply keyword_value. }
  destruct (c =? chr "f")%Z eqn:E5.
  { intros H. assert (v = JBool false) as -> by (unfold keyword in H; destruct (starts_with _ _); congruence).
    exists (js "false"). rewrite <- (keyword_text _ _ _ _ H). split; [done | ]. split; [done | ]. by eapply keyword_value. }
  destruct (c =? chr "n")%Z eqn:E6.
  { intros H. assert (v = JNull) as -> by (unfold keyword in H; destruct (starts_with _ _); congruence).
    exists (js "null"). rewrite <- (keyword_text _ _ _ _ H). split; [done | ]. split; [done | ]. by eapply keyword_value. }
  intros (w & Hw & Hne & Hch & Hread)%read_number_text. exists w. rewrite Hw. split; [done | ]. split; [done | ]. split; [ | split].
  - apply solid_Forall; [done | ]. eapply Forall_impl; [exact Hch | ]. intros x Hx. by apply number_char_dull.
  - apply dull_whole. eapply Forall_impl; [exact Hch | ]. intros x Hx. by apply number_char_dull.
  - intros r' He. pose proof (read_number_app _ r' _ _ He Hread) as H. pose proof (number_front _ _ _ Hread) as Hf.
    destruct w as [|x w]; [done | ]. apply number_unit_front in Hf as [Hsp _].
    injection Hw as <- _. cbn [app read_value]. unfold skip_space. cbn [drop_while]. rewrite Hsp. rewrite E1, E2, E3, E4, E5, E6. exact H.
Qed.

Lemma read_elements_text s acc v r : read_elements (S fuel) s acc = Read v r →
  ∃ vs ps, v = JArray (acc ++ vs) ∧ ps ≠ [] ∧ Forall2 (element_text (S fuel)) vs ps ∧ s = join (js ",") (map part ps) ++ chr "]" :: r ∧
    ∀ r', read_elements (S fuel) (join (js ",") (map part ps) ++ chr "]" :: r') acc = Read v r'.
Proof using IHV IHE.
  cbn [read_elements]. destruct (read_value fuel s) as [v1 r1| |] eqn:E1; [ | done | done].
  destruct (IHV _ _ _ E1) as (pre & w & Hs & Hpre & Hw). pose proof (value_text_mono fuel (S fuel) _ _ (Nat.le_succ_diag_r _) Hw) as HwS.
  destruct Hw as (_ & _ & Hread). destruct (skip_space_split r1) as (post & Hr1 & Hpost).
  destruct (skip_space r1) as [|c r2] eqn:E2; [done | ].
  assert (Hstep : ∀ t, number_ends t → read_value fuel (pre ++ w ++ post ++ t) = Read v1 (post ++ t)).
  { intros t Ht. rewrite read_value_blank by done. apply Hread. by apply number_ends_blank. }
  destruct (c =? chr ",")%Z eqn:Ec.
  - intros (vs & ps & -> & Hne & Hps & Hr2 & Hagain)%IHE. apply Z.eqb_eq in Ec. subst c. exists (v1 :: vs), ((pre, w, post) :: ps).
    assert (Hjoin : ∀ t, join (js ",") (map part ((pre, w, post) :: ps)) ++ t = pre ++ w ++ post ++ chr "," :: join (js ",") (map part ps) ++ t).
    { intros t. destruct ps as [|p ps]; [done | ]. cbn [map]. change (join (js ",") (?a :: part p :: ?l)) with (a ++ js "," ++ join (js ",") (part p :: l)).
      unfold part at 1. cbn [fst snd]. by rewrite <- !app_assoc. }
    split; [by rewrite <- app_assoc | ]. split; [done | ]. split; [constructor; [exact (conj Hpre (conj HwS Hpost)) | apply (elements_mono fuel); [lia | exact Hps]] | ].
    split; [rewrite Hjoin, Hs, Hr1, Hr2; done | ]. intros r'. rewrite Hjoin, Hstep by done. rewrite skip_blank by done.
    change (skip_space (chr "," :: ?t)) with (chr "," :: t). cbn iota. rewrite Z.eqb_refl. apply Hagain.
  - destruct (c =? chr "]")%Z eqn:Ec2; [ | done]. intros [= <- <-]. apply Z.eqb_eq in Ec2. subst c. exists [v1], [(pre, w, post)].
    split; [done | ]. split; [done | ]. split; [constructor; [exact (conj Hpre (conj HwS Hpost)) | constructor] | ]. cbn [map join]. unfold part. cbn [fst snd].
    split; [by rewrite <- !app_assoc, Hs, Hr1 | ]. intros r'. rewrite <- !app_assoc, Hstep by done. by rewrite skip_blank by done.
Qed.

Lemma read_members_text s acc v r : read_members (S fuel) s acc = Read v r →
  ∃ m, s = m ++ chr "}" :: r ∧ inner_text m ∧ ∀ r', read_members (S fuel) (m ++ chr "}" :: r') acc = Read v r'.
Proof using IHV IHM.
  intros H. cbn [read_members] in H. revert H. destruct (skip_space_split s) as (pre & Hs & Hpre).
  destruct (skip_space s) as [|q s1] eqn:E0; [done | ]. destruct (q =? DQUOTE)%Z eqn:Eq; [ | done]. apply Z.eqb_eq in Eq. subst q. destruct (read_string s1 []) as [name s2| |] eqn:E1; [ | done | done].
  destruct (string_text _ _ _ E1) as (u & Hs1 & Hu & Hstr). destruct (skip_space_split s2) as (ws & Hs2 & Hws).
  destruct (skip_space s2) as [|c s3] eqn:E2; [done | ]. destruct (c =? chr ":")%Z eqn:Ec; [ | done]. apply Z.eqb_eq in Ec. subst c.
  destruct (read_value fuel s3) as [v1 r1| |] eqn:E3; [ | done | done]. destruct (IHV _ _ _ E3) as (pre' & w & Hs3 & Hpre' & (_ & Hwt & Hread)).
  destruct (skip_space_split r1) as (post & Hr1 & Hpost). destruct (skip_space r1) as [|d r2] eqn:E4; [done | ].
  set (front := pre ++ (DQUOTE :: u ++ [DQUOTE]) ++ ws ++ js ":" ++ pre' ++ w ++ post).
  assert (Hfront : whole_text front).
  { repeat apply whole_text_app; try done; try (by apply blank_whole). }
  assert (Hshape : ∀ t, front ++ t = pre ++ DQUOTE :: u ++ DQUOTE :: ws ++ chr ":" :: pre' ++ w ++ post ++ t).
  { intros t. unfold front. rewrite <- !app_assoc. cbn [app]. by rewrite <- !app_assoc. }
  assert (Hstep : ∀ t, number_ends t → read_members (S fuel) (front ++ t) acc =
    match skip_space t with
    | d :: r' => if (d =? chr ",")%Z then read_members fuel r' (set_field acc name v1)
                 else if (d =? chr "}")%Z then Read (JObject (enumeration_order (set_field acc name v1))) r' else SyntaxError
    | [] => SyntaxError
    end).
  { intros t Ht. rewrite Hshape, read_members_blank by done. cbn [read_members]. change (skip_space (DQUOTE :: ?x)) with (DQUOTE :: x). cbn iota.
    rewrite Z.eqb_refl, Hstr, skip_blank by done. change (skip_space (chr ":" :: ?x)) with (chr ":" :: x). cbn iota.
    rewrite Z.eqb_refl, read_value_blank, Hread by (done || by apply number_ends_blank). by rewrite skip_blank. }
  assert (Hsplit : s = front ++ d :: r2) by (rewrite Hshape, Hs, Hs1, Hs2, Hs3, Hr1; done).
  destruct (d =? chr ",")%Z eqn:Ed.
  - apply Z.eqb_eq in Ed. subst d. intros (m & Hm & Hin & Hagain)%IHM. exists (front ++ js "," ++ m).
    split; [rewrite Hsplit, Hm; by rewrite <- !app_assoc | ]. split; [apply inner_app; [by apply whole_inner | ]; apply inner_app; [apply comma_inner | done] | ].
    intros r'. rewrite <- !app_assoc. change (js "," ++ ?t) with (chr "," :: t). rewrite Hstep by done.
    change (skip_space (chr "," :: ?t)) with (chr "," :: t). cbn iota. rewrite Z.eqb_refl. apply Hagain.
  - destruct (d =? chr "}")%Z eqn:Ed2; [ | done]. intros [= <- <-]. apply Z.eqb_eq in Ed2. subst d. exists front.
    split; [done | ]. split; [by apply whole_inner | ]. intros r'. by rewrite Hstep by done.
Qed.
End texts.

Lemma texts fuel :
  (∀ s v r, read_value fuel s = Read v r → ∃ pre w, s = pre ++ w ++ r ∧ blank pre ∧ value_text fuel v w) ∧
  (∀ s acc v r, read_elements fuel s acc = Read v r →
    ∃ vs ps, v = JArray (acc ++ vs) ∧ ps ≠ [] ∧ Forall2 (element_text fuel) vs ps ∧ s = join (js ",") (map part ps) ++ chr "]" :: r ∧
      ∀ r', read_elements fuel (join (js ",") (map part ps) ++ chr "]" :: r') acc = Read v r') ∧
  (∀ s acc v r, read_members fuel s acc = Read v r →
    ∃ m, s = m ++ chr "}" :: r ∧ inner_text m ∧ ∀ r', read_members fuel (m ++ chr "}" :: r') acc = Read v r').
Proof.
  induction fuel as [|fuel (IHV & IHE & IHM)]; [done | ].
  split; [by apply read_value_text | split; [by apply read_elements_text | by apply read_members_text]].
Qed.

Lemma members_object fuel : ∀ s acc vs r, read_members fuel s acc ≠ Read (JArray vs) r.
Proof.
  induction fuel as [|fuel IH]; intros s acc vs r; [done | ]. cbn [read_members]. destruct (skip_space s) as [|q s1]; [done | ].
  destruct (q =? DQUOTE)%Z; [ | done]. destruct (read_string s1 []) as [name s2| |]; [ | done | done].
  destruct (skip_space s2) as [|c s3]; [done | ]. destruct (c =? chr ":")%Z; [ | done].
  destruct (read_value fuel s3) as [v1 r1| |]; [ | done | done]. destruct (skip_space r1) as [|d r2]; [done | ].
  destruct (d =? chr ",")%Z; [apply IH | ]. by destruct (d =? chr "}")%Z.
Qed.

(** The text of an array is that of its elements between brackets. *)
Lemma array_text text vs : JSON_parse text = Some (JArray vs) →
  ∃ pre post fuel, blank pre ∧ blank post ∧
    (vs = [] ∧ (∃ ws, blank ws ∧ text = pre ++ chr "[" :: ws ++ chr "]" :: post) ∨
     ∃ ps, ps ≠ [] ∧ Forall2 (element_text fuel) vs ps ∧ text = pre ++ chr "[" :: join (js ",") (map part ps) ++ chr "]" :: post).
Proof.
  unfold JSON_parse. destruct (read_value _ text) as [v r| |] eqn:E; [ | done | done]. destruct (skip_space r) eqn:Er; [ | done].
  intros [= ->]. destruct (skip_space_split r) as (post & Hr & Hpost). rewrite Er, app_nil_r in Hr. subst post.
  destruct (2 * length text + 2) as [|fuel]; [done | ]. cbn [read_value] in E.
  destruct (skip_space_split text) as (pre & Htext & Hpre). destruct (skip_space text) as [|c s']; [done | ].
  exists pre, r, fuel. split; [done | ]. split; [done | ]. rewrite Htext. clear Htext.
  destruct (c =? chr "{")%Z eqn:E1.
  { exfalso. destruct (skip_space s') as [|d t]; [done | ]. destruct (d =? chr "}")%Z; [done | ].
    by apply members_object in E. }
  destruct (c =? chr "[")%Z eqn:E2.
  { apply Z.eqb_eq in E2. subst c. destruct (skip_space_split s') as (ws & Hs' & Hws). destruct (skip_space s') as [|d t]; [done | ].
    destruct (d =? chr "]")%Z eqn:Ed.
    - injection E as <- <-. apply Z.eqb_eq in Ed. subst d. left. split; [done | ]. exists ws. by rewrite Hs'.
    - right. apply texts in E as (vs' & ps & [= ->] & Hne & Hps & -> & _). by exists ps. }
  destruct (c =? DQUOTE)%Z; [by destruct (read_string s' []) | ]. unfold keyword in E.
  destruct (c =? chr "t")%Z; [by destruct (starts_with _ _) | ]. destruct (c =? chr "f")%Z; [by destruct (starts_with _ _) | ].
  destruct (c =? chr "n")%Z; [by destruct (starts_with _ _) | ]. unfold read_number in E.
  by destruct (if (c =? chr "-")%Z then _ else _) as [[n q]|].
Qed.

(** A printed value is the text of the value. *)
Lemma printed_value_text v : printable v = true → ∃ fuel, value_text fuel v (JSON_stringify v).
Proof.
  intros Hp. pose proof (read_printed [] v [] eq_refl eq_refl Hp [] (2 * length (JSON_stringify v)) I ltac:(unfold JSON_stringify; lia)) as H.
  fold (JSON_stringify v) in H. rewrite app_nil_r in H. pose proof (print_front [] [] v Hp) as Hf. fold (JSON_stringify v) in Hf.
  destruct (texts (2 * length (JSON_stringify v))) as [HV _]. destruct (HV _ _ _ H) as (pre & w & Hs & Hpre & Hw).
  rewrite app_nil_r in Hs. exists (2 * length (JSON_stringify v)). destruct pre as [|c pre]; [cbn [app] in Hs; by subst w | ].
  exfalso. rewrite Hs in Hf. cbn [app] in Hf. destruct Hf as [Hc _]. unfold blank in Hpre. cbn [forallb] in Hpre.
  apply andb_true_iff in Hpre as [Hpre _]. congruence.
Qed.
