(* ===== verification/VertexServiceAccount.v ===== *)
(** * Service account keys of Vertex channels

    features/channels/lib/vertex-service-account.ts: the check of the key text of a channel
    and the import of key files.  What throws is an [Err] with the error; the text of a file
    is [None] when reading it fails. *)

From Stdlib Require Import Lia.
From stdpp Require Import base numbers strings option sets list.
From S2P Require Import Prelude JsNumber Json JsonText NumberText JsonPrint JsonStringify JsonScan.

Definition VERTEX_SERVICE_ACCOUNT_MAX_KEYS : Z := 100.
Definition VERTEX_SERVICE_ACCOUNT_MAX_BYTES : Z := 64 * 1024.
Definition VERTEX_SERVICE_ACCOUNT_MAX_TOTAL_BYTES : Z := 1024 * 1024.

Inductive VertexServiceAccountErrorCode :=
| empty_selection | too_many_keys | key_too_large | total_too_large | read_failed | invalid_json | invalid_mode | invalid_schema.

Record VertexServiceAccountError := mkVertexError {
  code : VertexServiceAccountErrorCode;
  fileName : option ustring;
  error_limit : option Z;
}.

Record VertexServiceAccountFile := mkVertexFile { file_name : ustring; file_size : Z; file_text : option ustring }.

Abbreviation vertex := (result VertexServiceAccountError).

(** [new TextEncoder().encode(value).byteLength]: a pair of surrogates takes four bytes, a
    surrogate that stands alone is replaced by U+FFFD, which takes three. *)
Fixpoint utf8ByteLength (value : ustring) : Z :=
  match value with
  | [] => 0
  | c :: rest =>
      if (c <? 128)%Z then 1 + utf8ByteLength rest
      else if (c <? 2048)%Z then 2 + utf8ByteLength rest
      else
        match rest with
        | d :: rest' => if is_high_surrogate c && is_low_surrogate d then 4 + utf8ByteLength rest' else 3 + utf8ByteLength rest
        | [] => 3
        end
  end%Z.

Definition isNonEmptyString (value : option json) : bool :=
  match value with Some (JString s) => (0 <? length (trim s))%nat | _ => false end.

Definition isVertexServiceAccount (value : json) : bool :=
  match value with
  | JObject credential =>
      match field credential (js "type") with Some (JString t) => ustring_eqb t (js "service_account") | _ => false end &&
      isNonEmptyString (field credential (js "project_id")) &&
      isNonEmptyString (field credential (js "private_key")) &&
      isNonEmptyString (field credential (js "client_email"))
  | _ => false
  end.

(** The credential, its text and the bytes of the text. *)
Definition normalizeVertexServiceAccount (value : json) (name : option ustring) : vertex (json * ustring * Z) :=
  if negb (isVertexServiceAccount value) then Err (mkVertexError invalid_schema name None)
  else
    let serialized := JSON_stringify value in
    let bytes := utf8ByteLength serialized in
    if (VERTEX_SERVICE_ACCOUNT_MAX_BYTES <? bytes)%Z
    then Err (mkVertexError key_too_large name (Some VERTEX_SERVICE_ACCOUNT_MAX_BYTES))
    else Ok (value, serialized, bytes).

(** ** The texts of the elements of an array *)

(** The variables of the loop; [None] is a start of -1. *)
Record RawScan := mkRawScan {
  elements : list ustring;
  elementStart : option nat;
  depth : Z;
  inString : bool;
  escaped : bool;
}.

(** [text.slice(from, to)] for indices within the text. *)
Definition slice (text : ustring) (from to : nat) : ustring := drop from (take to text).

(** One round of the loop on the character at [index]. *)
Definition scan_index (trimmed : ustring) (st : RawScan) (index : nat) : RawScan :=
  match trimmed !! index with
  | None => st
  | Some character =>
      if inString st then
        if escaped st then mkRawScan (elements st) (elementStart st) (depth st) true false
        else if (character =? chr "\")%Z then mkRawScan (elements st) (elementStart st) (depth st) true true
        else if (character =? DQUOTE)%Z then mkRawScan (elements st) (elementStart st) (depth st) false false
        else st
      else
        let quoted := (character =? DQUOTE)%Z in
        match elementStart st with
        | None =>
            if is_space character then mkRawScan (elements st) None (depth st) quoted (escaped st)
            else
              if (character =? chr "{")%Z || (character =? chr "[")%Z
              then mkRawScan (elements st) (Some index) (depth st + 1) quoted (escaped st)
              else if (character =? chr "}")%Z || (character =? chr "]")%Z
              then mkRawScan (elements st) (Some index) (depth st - 1) quoted (escaped st)
              else if (character =? chr ",")%Z && (depth st =? 0)%Z
              then mkRawScan (elements st ++ [trim (slice trimmed index index)]) None (depth st) quoted (escaped st)
              else mkRawScan (elements st) (Some index) (depth st) quoted (escaped st)
        | Some start =>
            if (character =? chr "{")%Z || (character =? chr "[")%Z
            then mkRawScan (elements st) (Some start) (depth st + 1) quoted (escaped st)
            else if (character =? chr "}")%Z || (character =? chr "]")%Z
            then mkRawScan (elements st) (Some start) (depth st - 1) quoted (escaped st)
            else if (character =? chr ",")%Z && (depth st =? 0)%Z
            then mkRawScan (elements st ++ [trim (slice trimmed start index)]) None (depth st) quoted (escaped st)
            else mkRawScan (elements st) (Some start) (depth st) quoted (escaped st)
        end
  end.

Definition getRawJSONArrayElements (value : ustring) : list ustring :=
  let trimmed := trim value in
  let st := fold_left (scan_index trimmed) (seq 1 (length trimmed - 2)) (mkRawScan [] None 0 false false) in
  match elementStart st with
  | None => elements st
  | Some start => elements st ++ [trim (slice trimmed start (length trimmed - 1))]
  end.

(** ** The key text of a channel *)

(** The loop over the candidates and their texts. *)
Fixpoint check_candidates (candidates : list json) (rawCandidates : list ustring) (normalizedBytes : Z) (credentials : list json)
    : vertex (list json) :=
  match candidates with
  | [] => Ok credentials
  | candidate :: rest =>
      if (VERTEX_SERVICE_ACCOUNT_MAX_BYTES <? utf8ByteLength (default [] (head rawCandidates)))%Z
      then Err (mkVertexError key_too_large None (Some VERTEX_SERVICE_ACCOUNT_MAX_BYTES))
      else
        normalized ← normalizeVertexServiceAccount candidate None;
        let normalizedBytes := (normalizedBytes + normalized.2)%Z in
        if (VERTEX_SERVICE_ACCOUNT_MAX_TOTAL_BYTES <? normalizedBytes)%Z
        then Err (mkVertexError total_too_large None (Some VERTEX_SERVICE_ACCOUNT_MAX_TOTAL_BYTES))
        else check_candidates rest (tail rawCandidates) normalizedBytes (credentials ++ [normalized.1.1])
  end.

Definition validateVertexServiceAccountValue (value : ustring) (batch allowSingle : bool) : vertex (list json) :=
  let rawBytes := utf8ByteLength value in
  if (VERTEX_SERVICE_ACCOUNT_MAX_TOTAL_BYTES <? rawBytes)%Z
  then Err (mkVertexError total_too_large None (Some VERTEX_SERVICE_ACCOUNT_MAX_TOTAL_BYTES))
  else if negb batch && (VERTEX_SERVICE_ACCOUNT_MAX_BYTES <? rawBytes)%Z
  then Err (mkVertexError key_too_large None (Some VERTEX_SERVICE_ACCOUNT_MAX_BYTES))
  else
    match JSON_parse value with
    | None => Err (mkVertexError invalid_json None None)
    | Some parsed =>
        let arrayInput := match parsed with JArray _ => true | _ => false end in
        if negb batch && arrayInput || batch && negb arrayInput && negb allowSingle
        then Err (mkVertexError invalid_mode None None)
        else if negb arrayInput && (VERTEX_SERVICE_ACCOUNT_MAX_BYTES <? rawBytes)%Z
        then Err (mkVertexError key_too_large None (Some VERTEX_SERVICE_ACCOUNT_MAX_BYTES))
        else
          let candidates := match parsed with JArray vs => vs | _ => [parsed] end in
          if (length candidates =? 0)%nat then Err (mkVertexError invalid_schema None None)
          else if (VERTEX_SERVICE_ACCOUNT_MAX_KEYS <? Z.of_nat (length candidates))%Z
          then Err (mkVertexError too_many_keys None (Some VERTEX_SERVICE_ACCOUNT_MAX_KEYS))
          else check_candidates candidates (if arrayInput then getRawJSONArrayElements value else [value]) 0 []
    end.

(** ** Importing files *)

(** The loop over the declared sizes. *)
Fixpoint check_sizes (files : list VertexServiceAccountFile) (declaredTotalBytes : Z) : vertex unit :=
  match files with
  | [] => Ok tt
  | file :: rest =>
      if (VERTEX_SERVICE_ACCOUNT_MAX_BYTES <? file_size file)%Z
      then Err (mkVertexError key_too_large (Some (file_name file)) (Some VERTEX_SERVICE_ACCOUNT_MAX_BYTES))
      else
        let declaredTotalBytes := (declaredTotalBytes + file_size file)%Z in
        if (VERTEX_SERVICE_ACCOUNT_MAX_TOTAL_BYTES <? declaredTotalBytes)%Z
        then Err (mkVertexError total_too_large None (Some VERTEX_SERVICE_ACCOUNT_MAX_TOTAL_BYTES))
        else check_sizes rest declaredTotalBytes
  end.

(** The loop that reads the files. *)
Fixpoint read_files (files : list VertexServiceAccountFile) (decodedTotalBytes : Z) (credentials : list json) : vertex (list json) :=
  match files with
  | [] => Ok credentials
  | file :: rest =>
      match file_text file with
      | None => Err (mkVertexError read_failed (Some (file_name file)) None)
      | Some text =>
          let decodedBytes := utf8ByteLength text in
          if (VERTEX_SERVICE_ACCOUNT_MAX_BYTES <? decodedBytes)%Z
          then Err (mkVertexError key_too_large (Some (file_name file)) (Some VERTEX_SERVICE_ACCOUNT_MAX_BYTES))
          else
            let decodedTotalBytes := (decodedTotalBytes + decodedBytes)%Z in
            if (VERTEX_SERVICE_ACCOUNT_MAX_TOTAL_BYTES <? decodedTotalBytes)%Z
            then Err (mkVertexError total_too_large None (Some VERTEX_SERVICE_ACCOUNT_MAX_TOTAL_BYTES))
            else
              match JSON_parse text with
              | None => Err (mkVertexError invalid_json (Some (file_name file)) None)
              | Some parsed =>
                  normalized ← normalizeVertexServiceAccount parsed (Some (file_name file));
                  read_files rest decodedTotalBytes (credentials ++ [normalized.1.1])
              end
      end
  end.

(** The text for the key field and the number of keys. *)
Definition processVertexServiceAccountFiles (files : list VertexServiceAccountFile) (batch : bool) : vertex (ustring * nat) :=
  if (length files =? 0)%nat then Err (mkVertexError empty_selection None None)
  else
    let maxKeys := if batch then VERTEX_SERVICE_ACCOUNT_MAX_KEYS else 1%Z in
    if (maxKeys <? Z.of_nat (length files))%Z then Err (mkVertexError too_many_keys None (Some maxKeys))
    else
      _ ← check_sizes files 0;
      credentials ← read_files files 0 [];
      let value := if batch then JSON_stringify (JArray credentials) else default [] (JSON_stringify <$> head credentials) in
      if (VERTEX_SERVICE_ACCOUNT_MAX_TOTAL_BYTES <? utf8ByteLength value)%Z
      then Err (mkVertexError total_too_large None (Some VERTEX_SERVICE_ACCOUNT_MAX_TOTAL_BYTES))
      else Ok (value, length credentials).
