(* ===== verification/VertexServiceAccountProperties.v ===== *)
(** * Properties of the service account keys

    The scan for the texts of an array's elements finds the texts of the values
    [JSON.parse] gives, and what an import of files writes passes the check of the form. *)

From Stdlib Require Import Lia.
From stdpp Require Import base numbers strings option sets list.
From S2P Require Import Prelude JsNumber Json JsonText NumberText JsonPrint JsonStringify JsonScan VertexServiceAccount.

(** ** Trimming *)

Lemma trim_start_spaces pre t : Forall (fun c => is_space c = true) pre → trim_start (pre ++ t) = trim_start t.
Proof. unfold trim_start. induction 1 as [|c pre Hc H IH]; [done | ]. cbn [app drop_while]. by rewrite Hc. Qed.

Lemma trim_end_spaces post t : Forall (fun c => is_space c = true) post → trim_end (t ++ post) = trim_end t.
Proof.
  unfold trim_end. intros H. rewrite reverse_app. f_equal. apply (trim_start_spaces (reverse post)). by apply Forall_reverse.
Qed.

Lemma trim_around pre w post :
  solid w → Forall (fun c => is_space c = true) pre → Forall (fun c => is_space c = true) post → trim (pre ++ w ++ post) = w.
Proof.
  intros Hw Hpre Hpost. unfold trim. rewrite trim_start_spaces by done. pose proof (solid_trim w Hw) as Ht. unfold trim in Ht.
  assert (Hs : ∀ t, trim_start (w ++ t) = w ++ t).
  { intros t. unfold solid in Hw. destruct w as [|c w]; [done | ]. cbn [head] in Hw. destruct (last (c :: w)); [ | done].
    unfold trim_start. cbn [app drop_while]. by rewrite (proj1 Hw). }
  rewrite Hs, trim_end_spaces by done. rewrite <- Ht at 2. f_equal. rewrite <- (app_nil_r w) at 2. by rewrite Hs, app_nil_r.
Qed.

Lemma blank_spaces w : blank w → Forall (fun c => is_space c = true) w.
Proof. intros H%blank_dull. eapply Forall_impl; [exact H | ]. by intros c [_ ?]. Qed.

(** ** The loop *)

Definition run (trimmed : ustring) (st : RawScan) (from n : nat) : RawScan := fold_left (scan_index trimmed) (seq from n) st.

Lemma run_raw_app trimmed st from n m : run trimmed st from (n + m) = run trimmed (run trimmed st from n) (from + n) m.
Proof. unfold run. by rewrite seq_app, fold_left_app. Qed.

Lemma run_step trimmed st from n : run trimmed st from (S n) = run trimmed (scan_index trimmed st from) (S from) n.
Proof. done. Qed.

Lemma lookup_at (a b : ustring) c : (a ++ c :: b) !! length a = Some c.
Proof. by rewrite lookup_app_r, Nat.sub_diag by lia. Qed.

(** Inside an element the loop moves as the scan does. *)
Lemma run_scan k els w : ∀ a b d s e d' s' e',
  scan (d, s, e) w = Some (d', s', e') →
  run (a ++ w ++ b) (mkRawScan els (Some k) d s e) (length a) (length w) = mkRawScan els (Some k) d' s' e'.
Proof.
  induction w as [|c w IH]; intros a b d s e d' s' e'; [by intros [= <- <- <-] | ]. cbn [scan length app].
  destruct (scan_char (d, s, e) c) as [[[d1 s1] e1]|] eqn:Ec; [ | done]. cbn [mbind option_bind]. intros Hs.
  rewrite run_step. assert (Hstep : scan_index (a ++ c :: w ++ b) (mkRawScan els (Some k) d s e) (length a) = mkRawScan els (Some k) d1 s1 e1).
  { unfold scan_index. rewrite lookup_at. cbn [inString escaped elements elementStart depth]. unfold scan_char in Ec.
    destruct s.
    - destruct e; [by injection Ec as <- <- <- | ]. destruct (c =? chr "\")%Z; [by injection Ec as <- <- <- | ].
      destruct (c =? DQUOTE)%Z; by injection Ec as <- <- <-.
    - destruct (c =? DQUOTE)%Z eqn:Eq; [apply Z.eqb_eq in Eq; subst c; by injection Ec as <- <- <- | ].
      destruct ((c =? chr "{")%Z || (c =? chr "[")%Z); [by injection Ec as <- <- <- | ].
      destruct ((c =? chr "}")%Z || (c =? chr "]")%Z); [by injection Ec as <- <- <- | ].
      destruct ((c =? chr ",")%Z && (d =? 0)%Z); [done | ]. by injection Ec as <- <- <-. }
  rewrite Hstep. specialize (IH (a ++ [c]) b d1 s1 e1 d' s' e' Hs). rewrite length_app, Nat.add_1_r, <- app_assoc in IH. exact IH.
Qed.

(** Between elements it skips white space. *)
Lemma run_blank els w : ∀ a b, blank w →
  run (a ++ w ++ b) (mkRawScan els None 0 false false) (length a) (length w) = mkRawScan els None 0 false false.
Proof.
  induction w as [|c w IH]; intros a b Hw; [done | ]. pose proof (blank_dull _ Hw) as Hd. inversion Hd as [|? ? [Hc Hsp] Hd']; subst.
  cbn [length app]. rewrite run_step. unfold scan_index at 1. rewrite lookup_at. cbn [inString escaped elements elementStart depth]. rewrite Hsp.
  assert ((c =? DQUOTE)%Z = false) as -> by (destruct (Z.eqb_spec c DQUOTE); [by subst | done]).
  assert (Hw' : blank w) by (unfold blank in *; cbn [forallb] in Hw; by apply andb_true_iff in Hw as [_ ?]).
  specialize (IH (a ++ [c]) b Hw'). rewrite length_app, Nat.add_1_r, <- app_assoc in IH. exact IH.
Qed.

(** The first character of an element starts it. *)
Lemma run_start els w a b :
  solid w → whole_text w →
  run (a ++ w ++ b) (mkRawScan els None 0 false false) (length a) (length w) = mkRawScan els (Some (length a)) 0 false false.
Proof.
  intros Hs Hw. rewrite <- (run_scan (length a) els w a b 0 false false 0 false false (Hw 0%Z ltac:(lia))).
  destruct w as [|c w]; [done | ]. cbn [length]. rewrite !run_step. f_equal. unfold scan_index. cbn [app]. rewrite lookup_at.
  cbn [inString escaped elements elementStart depth]. assert (Hc : is_space c = false).
  { unfold solid in Hs. cbn [head] in Hs. destruct (last (c :: w)); [by destruct Hs | done]. }
  rewrite Hc. destruct ((c =? chr "{")%Z || (c =? chr "[")%Z); [done | ]. destruct ((c =? chr "}")%Z || (c =? chr "]")%Z); [done | ].
  destruct (c =? chr ",")%Z eqn:Ec; [ | done]. exfalso. apply Z.eqb_eq in Ec. subst c. specialize (Hw 0%Z ltac:(lia)). discriminate Hw.
Qed.

(** An element with the white space around it. *)
Lemma run_part fuel v p els a b : element_text fuel v p →
  run (a ++ part p ++ b) (mkRawScan els None 0 false false) (length a) (length (part p))
  = mkRawScan els (Some (length (a ++ p.1.1))) 0 false false.
Proof.
  destruct p as [[pre w] post]. intros (Hpre & (Hs & Hw & _) & Hpost). cbn [fst snd] in *. unfold part. cbn [fst snd].
  rewrite !length_app, !run_raw_app, <- !app_assoc. rewrite run_blank by done. rewrite (app_assoc a pre).
  rewrite <- (length_app a pre), run_start by done. rewrite (app_assoc (a ++ pre) w), <- (length_app (a ++ pre) w).
  by apply run_scan, blank_whole.
Qed.

Lemma slice_at (a w b : ustring) : slice (a ++ w ++ b) (length a) (length (a ++ w)) = w.
Proof. unfold slice. by rewrite app_assoc, take_app_length, drop_app_length. Qed.

Lemma element_slice fuel v p a b : element_text fuel v p →
  trim (slice (a ++ part p ++ b) (length (a ++ p.1.1)) (length (a ++ part p))) = p.1.2.
Proof.
  destruct p as [[pre w] post]. intros (Hpre & (Hs & Hw & _) & Hpost). cbn [fst snd] in *. unfold part. cbn [fst snd].
  replace (a ++ (pre ++ w ++ post) ++ b) with ((a ++ pre) ++ (w ++ post) ++ b) by (by rewrite <- !app_assoc).
  replace (a ++ pre ++ w ++ post) with ((a ++ pre) ++ (w ++ post)) by (by rewrite <- !app_assoc). rewrite slice_at.
  apply (trim_around []); [done | constructor | by apply blank_spaces].
Qed.

(** What the loop and its end give. *)
Definition collected (trimmed : ustring) (st : RawScan) : list ustring :=
  match elementStart st with None => elements st | Some start => elements st ++ [trim (slice trimmed start (length trimmed - 1))] end.

Lemma run_parts fuel vs ps : ∀ els a, ps ≠ [] → Forall2 (element_text fuel) vs ps →
  let trimmed := a ++ join (js ",") (map part ps) ++ [chr "]"] in
  collected trimmed (run trimmed (mkRawScan els None 0 false false) (length a) (length (join (js ",") (map part ps)))) = els ++ map (fun p => p.1.2) ps.
Proof.
  intros els a Hne H. revert els a Hne. induction H as [|v p vs ps Hp Hps IH]; intros els a Hne trimmed; [done | ].
  unfold trimmed. clear trimmed. destruct ps as [|p' ps].
  - cbn [map join]. rewrite (run_part fuel v) by done. unfold collected. cbn [elementStart elements].
    replace (length (a ++ part p ++ [chr "]"]) - 1) with (length (a ++ part p)) by (rewrite !length_app; simpl; lia).
    by rewrite (element_slice fuel v).
  - set (rest := join (js ",") (map part (p' :: ps))) in *.
    change (join (js ",") (map part (p :: p' :: ps))) with (part p ++ js "," ++ rest). rewrite <- !app_assoc.
    rewrite !length_app, !run_raw_app. rewrite (run_part fuel v) by done.
    assert (Hcomma : run (a ++ part p ++ js "," ++ rest ++ [chr "]"]) (mkRawScan els (Some (length (a ++ p.1.1))) 0 false false)
      (length a + length (part p)) (length (js ",")) = mkRawScan (els ++ [p.1.2]) None 0 false false).
    { rewrite <- length_app. change (length (js ",")) with 1. rewrite run_step. unfold run. cbn [seq fold_left]. unfold scan_index.
      rewrite app_assoc. change (js "," ++ ?t) with (chr "," :: t). rewrite lookup_at. cbn [inString escaped elements elementStart depth].
      change (chr "," =? DQUOTE)%Z with false. change ((chr "," =? chr "{") || (chr "," =? chr "["))%Z with false.
      change ((chr "," =? chr "}") || (chr "," =? chr "]"))%Z with false. change ((chr "," =? chr ",") && (0 =? 0))%Z with true. cbn iota.
      rewrite <- app_assoc. by rewrite (element_slice fuel v). }
    rewrite Hcomma. specialize (IH (els ++ [p.1.2]) (a ++ part p ++ js ",") ltac:(done)). cbv zeta in IH. fold rest in IH.
    rewrite <- !app_assoc in IH. rewrite !length_app in IH. rewrite <- !Nat.add_assoc. rewrite IH. done.
Qed.

(** The texts of the elements of an array text. *)
Lemma raw_elements fuel vs ps pre post : blank pre → blank post → ps ≠ [] → Forall2 (element_text fuel) vs ps →
  getRawJSONArrayElements (pre ++ chr "[" :: join (js ",") (map part ps) ++ chr "]" :: post) = map (fun p => p.1.2) ps.
Proof.
  intros Hpre Hpost Hne Hps. set (body := join (js ",") (map part ps)). unfold getRawJSONArrayElements.
  replace (pre ++ chr "[" :: body ++ chr "]" :: post) with (pre ++ (chr "[" :: body ++ [chr "]"]) ++ post) by (cbn [app]; by rewrite <- app_assoc).
  rewrite trim_around; [ | by apply solid_ends | by apply blank_spaces..].
  change (chr "[" :: body ++ [chr "]"]) with ([chr "["] ++ body ++ [chr "]"]).
  replace (length ([chr "["] ++ body ++ [chr "]"]) - 2) with (length body) by (rewrite !length_app; simpl; lia).
  exact (run_parts fuel vs ps [] [chr "["] Hne Hps).
Qed.

Lemma raw_elements_empty ws pre post : blank pre → blank post → blank ws →
  getRawJSONArrayElements (pre ++ chr "[" :: ws ++ chr "]" :: post) = [].
Proof.
  intros Hpre Hpost Hws. unfold getRawJSONArrayElements.
  replace (pre ++ chr "[" :: ws ++ chr "]" :: post) with (pre ++ (chr "[" :: ws ++ [chr "]"]) ++ post) by (cbn [app]; by rewrite <- app_assoc).
  rewrite trim_around; [ | by apply solid_ends | by apply blank_spaces..].
  change (chr "[" :: ws ++ [chr "]"]) with ([chr "["] ++ ws ++ [chr "]"]).
  replace (length ([chr "["] ++ ws ++ [chr "]"]) - 2) with (length ws) by (rewrite !length_app; simpl; lia).
  pose proof (run_blank [] ws [chr "["] [chr "]"] Hws) as H. unfold run in H. change (length [chr "["]) with 1 in H. by rewrite H.
Qed.

(** C37: the scan for the texts of the elements agrees with the parser.  For every text that [JSON.parse] reads as an
    array, whatever white space, strings with brackets, commas, quotes and escapes, and nested values it contains, the
    scan gives as many texts as the array has elements, and each text is parsed to its element; the size limits are
    therefore applied to the texts of the keys they are meant for. *)
Theorem raw_texts_are_the_elements text vs :
  JSON_parse text = Some (JArray vs) → Forall2 (fun v t => JSON_parse t = Some v) vs (getRawJSONArrayElements text).
Proof.
  intros (pre & post & fuel & Hpre & Hpost & [[-> (ws & Hws & ->)]|(ps & Hne & Hps & ->)])%array_text.
  - by rewrite raw_elements_empty.
  - rewrite (raw_elements fuel vs) by done. apply Forall2_fmap_r. eapply Forall2_impl; [exact Hps | ].
    intros v p (_ & (_ & _ & Hread) & _). apply (read_whole fuel). specialize (Hread [] I). by rewrite app_nil_r in Hread.
Qed.

(** ** Bytes *)

Lemma is_low_surrogate_ascii c : (c < 128)%Z → is_low_surrogate c = false.
Proof. intros H. unfold is_low_surrogate. by rewrite (proj2 (Z.leb_gt 56320 c)) by lia. Qed.

Lemma utf8_nonneg s : (0 ≤ utf8ByteLength s)%Z.
Proof.
  induction s as [s IH] using length_ind. destruct s as [|c s]; [done | ]. cbn [utf8ByteLength].
  pose proof (IH s ltac:(simpl; lia)). destruct (c <? 128)%Z; [lia | ]. destruct (c <? 2048)%Z; [lia | ]. destruct s as [|d s]; [done | ].
  pose proof (IH s ltac:(simpl; lia)). destruct (_ && _); lia.
Qed.

(** Bytes add up where no pair of surrogates is split. *)
Lemma utf8_app a b :
  match b with [] => True | c :: _ => (c < 128)%Z end → utf8ByteLength (a ++ b) = (utf8ByteLength a + utf8ByteLength b)%Z.
Proof.
  intros Hb. induction a as [a IH] using length_ind. destruct a as [|c a]; [done | ]. cbn [app utf8ByteLength].
  rewrite (IH a) by (simpl; lia). destruct (c <? 128)%Z; [lia | ]. destruct (c <? 2048)%Z; [lia | ]. destruct a as [|d a].
  - cbn [app]. destruct b as [|x b]; [simpl; lia | ]. rewrite is_low_surrogate_ascii, andb_false_r by done. cbn [utf8ByteLength]. lia.
  - cbn [app]. rewrite (IH a) by (simpl; lia). destruct (_ && _); lia.
Qed.

(** ** What is imported *)

(** A credential that fits. *)
Definition fits (v : json) : Prop :=
  isVertexServiceAccount v = true ∧ (utf8ByteLength (JSON_stringify v) ≤ VERTEX_SERVICE_ACCOUNT_MAX_BYTES)%Z.

Lemma normalize_Ok v name r : normalizeVertexServiceAccount v name = Ok r → fits v ∧ r = (v, JSON_stringify v, utf8ByteLength (JSON_stringify v)).
Proof.
  unfold normalizeVertexServiceAccount, fits. destruct (isVertexServiceAccount v); [ | done]. cbn [negb]. cbv zeta.
  destruct (Z.ltb_spec VERTEX_SERVICE_ACCOUNT_MAX_BYTES (utf8ByteLength (JSON_stringify v))); [done | ]. intros [= <-]. split; [by split | done].
Qed.

Lemma normalize_fits v name : fits v → normalizeVertexServiceAccount v name = Ok (v, JSON_stringify v, utf8ByteLength (JSON_stringify v)).
Proof. intros [H1 H2]. unfold normalizeVertexServiceAccount. rewrite H1. cbn [negb]. cbv zeta. by rewrite (proj2 (Z.ltb_ge _ _)). Qed.

Definition parsed_file (file : VertexServiceAccountFile) : option json := file_text file ≫= JSON_parse.

Lemma read_files_Ok files : ∀ total acc creds, read_files files total acc = Ok creds →
  ∃ new, creds = acc ++ new ∧ Forall fits new ∧ Forall2 (fun file v => parsed_file file = Some v) files new.
Proof.
  induction files as [|file files IH]; intros total acc creds; cbn [read_files].
  { intros [= <-]. exists []. by rewrite app_nil_r. }
  destruct (file_text file) as [text|] eqn:Et; [ | done]. cbv zeta. destruct (_ <? _)%Z; [done | ]. destruct (_ <? _)%Z; [done | ].
  destruct (JSON_parse text) as [v|] eqn:Ev; [ | done]. intros (r & [Hfits ->]%normalize_Ok & H)%bind_Ok_inv. cbn [fst] in H.
  destruct (IH _ _ _ H) as (new & -> & Hnew & Hfiles). exists (v :: new). split; [by rewrite <- app_assoc | ]. split; [by constructor | ].
  constructor; [ | done]. unfold parsed_file. by rewrite Et.
Qed.

(** The texts of objects begin with a brace. *)
Lemma account_text v : isVertexServiceAccount v = true → ∃ t, JSON_stringify v = chr "{" :: t.
Proof.
  destruct v; try done. intros _. unfold JSON_stringify. cbn [JSON_print]. unfold bracket. by destruct (map _ fields); eexists.
Qed.

Definition total_bytes (vs : list json) : Z := foldr (fun v n => utf8ByteLength (JSON_stringify v) + n)%Z 0%Z vs.

Lemma join_bytes vs t : Forall fits vs → vs ≠ [] → match t with [] => True | c :: _ => (c < 128)%Z end →
  (total_bytes vs + utf8ByteLength t ≤ utf8ByteLength (join (js ",") (map JSON_stringify vs) ++ t))%Z.
Proof.
  intros Hv Hne Ht. induction Hv as [|v vs Hfit Hv IH]; [done | ]. destruct vs as [|v' vs].
  - cbn [map join total_bytes foldr]. rewrite utf8_app by done. lia.
  - cbn [map] in *. change (join (js ",") (?a :: ?b :: ?l)) with (a ++ js "," ++ join (js ",") (b :: l)). rewrite <- !app_assoc.
    rewrite utf8_app by done. set (rest := join _ _) in *. change (total_bytes (v :: v' :: vs)) with (utf8ByteLength (JSON_stringify v) + total_bytes (v' :: vs))%Z.
    specialize (IH ltac:(done)). change (js "," ++ ?x) with (chr "," :: x). cbn [utf8ByteLength]. change (chr "," <? 128)%Z with true. cbn iota. lia.
Qed.

Lemma printed_array vs : vs ≠ [] → JSON_stringify (JArray vs) = chr "[" :: join (js ",") (map JSON_stringify vs) ++ [chr "]"].
Proof. intros Hne. unfold JSON_stringify. cbn [JSON_print]. unfold bracket. by destruct vs as [|v vs]. Qed.

Lemma printed_values_text vs : forallb printable vs = true →
  ∃ fuel, Forall2 (element_text fuel) vs (map (fun v => ([], JSON_stringify v, [])) vs).
Proof.
  induction vs as [|v vs IH]; cbn [forallb map]; [by exists 0 | ]. intros [Hv Hvs]%andb_true_iff.
  destruct (printed_value_text v Hv) as (f1 & H1), (IH Hvs) as (f2 & H2). exists (max f1 f2). constructor.
  - split; [done | ]. split; [ | done]. cbn [fst snd]. eapply value_text_mono; [ | exact H1]. apply Nat.le_max_l.
  - eapply elements_mono; [ | exact H2]. apply Nat.le_max_r.
Qed.

Lemma printed_raw_elements vs : vs ≠ [] → forallb printable vs = true →
  getRawJSONArrayElements (JSON_stringify (JArray vs)) = map JSON_stringify vs.
Proof.
  intros Hne Hp. destruct (printed_values_text vs Hp) as (fuel & Hps). rewrite printed_array by done.
  assert (Hne' : map (fun v => ([] : ustring, JSON_stringify v, [] : ustring)) vs ≠ []) by (by destruct vs).
  pose proof (raw_elements fuel vs _ [] [] eq_refl eq_refl Hne' Hps) as H. cbn [app] in H. rewrite !map_map in H.
  erewrite (map_ext (fun x => part ([], JSON_stringify x, []))) in H; [exact H | ]. intros v. unfold part. cbn. apply app_nil_r.
Qed.

Lemma check_candidates_fits vs : ∀ total acc,
  Forall fits vs → (0 ≤ total)%Z → (total + total_bytes vs ≤ VERTEX_SERVICE_ACCOUNT_MAX_TOTAL_BYTES)%Z →
  check_candidates vs (map JSON_stringify vs) total acc = Ok (acc ++ vs).
Proof.
  induction vs as [|v vs IH]; intros total acc Hv H0 Ht; cbn [check_candidates map]; [by rewrite app_nil_r | ].
  inversion_clear Hv as [|? ? Hfit Hvs]. cbn [head default tail]. change (from_option id [] (Some ?x)) with x.
  change (total_bytes (v :: vs)) with (utf8ByteLength (JSON_stringify v) + total_bytes vs)%Z in Ht.
  assert (0 ≤ total_bytes vs)%Z by (clear; induction vs as [|v vs IH]; [done | ]; cbn; pose proof (utf8_nonneg (JSON_stringify v)); unfold total_bytes in IH; lia).
  rewrite (proj2 (Z.ltb_ge _ (utf8ByteLength (JSON_stringify v)))) by apply Hfit.
  rewrite normalize_fits by done. cbn [mbind result_bind snd fst]. pose proof (utf8_nonneg (JSON_stringify v)).
  rewrite (proj2 (Z.ltb_ge _ (total + utf8ByteLength (JSON_stringify v)))) by lia. rewrite IH by (done || lia). by rewrite <- app_assoc.
Qed.

Lemma validate_array creds allowSingle :
  creds ≠ [] → (Z.of_nat (length creds) ≤ VERTEX_SERVICE_ACCOUNT_MAX_KEYS)%Z → Forall fits creds → forallb printable creds = true →
  (utf8ByteLength (JSON_stringify (JArray creds)) ≤ VERTEX_SERVICE_ACCOUNT_MAX_TOTAL_BYTES)%Z →
  validateVertexServiceAccountValue (JSON_stringify (JArray creds)) true allowSingle = Ok creds.
Proof.
  intros Hne Hlen Hfits Hp Hbytes. unfold validateVertexServiceAccountValue. cbv zeta. rewrite (proj2 (Z.ltb_ge _ _) Hbytes).
  rewrite JSON_round_trip by done. cbn [negb andb orb]. rewrite (proj2 (Nat.eqb_neq _ _)) by (by destruct creds).
  rewrite (proj2 (Z.ltb_ge _ _) Hlen), printed_raw_elements by done. apply (check_candidates_fits creds 0 []); [done | lia | ].
  rewrite printed_array in Hbytes by done. cbn [utf8ByteLength] in Hbytes. change (chr "[" <? 128)%Z with true in Hbytes. cbn iota in Hbytes.
  pose proof (join_bytes creds [chr "]"] Hfits Hne ltac:(done)). pose proof (utf8_nonneg [chr "]"]). lia.
Qed.

Lemma validate_single v allowSingle :
  fits v → printable v = true → validateVertexServiceAccountValue (JSON_stringify v) false allowSingle = Ok [v].
Proof.
  intros Hfit Hp. pose proof (proj2 Hfit) as Hb.
  unfold validateVertexServiceAccountValue. cbv zeta. assert (Htotal : (utf8ByteLength (JSON_stringify v) ≤ VERTEX_SERVICE_ACCOUNT_MAX_TOTAL_BYTES)%Z).
  { unfold VERTEX_SERVICE_ACCOUNT_MAX_BYTES, VERTEX_SERVICE_ACCOUNT_MAX_TOTAL_BYTES in *. lia. }
  rewrite (proj2 (Z.ltb_ge _ _) Htotal), (proj2 (Z.ltb_ge _ _) Hb). cbn [negb andb]. rewrite JSON_round_trip by done.
  destruct v as [| | | | |fields]; try (by destruct Hfit). cbn [negb andb orb length Nat.eqb].
  change (VERTEX_SERVICE_ACCOUNT_MAX_KEYS <? Z.of_nat 1)%Z with false. cbn iota.
  change [JSON_stringify (JObject fields)] with (map JSON_stringify [JObject fields]).
  apply (check_candidates_fits _ 0 []); [by constructor | lia | ].
  change (total_bytes [JObject fields]) with (utf8ByteLength (JSON_stringify (JObject fields)) + 0)%Z. lia.
Qed.

(** what an import of key files writes into the key field passes the check of the form.  When the files are
    accepted, in the mode for one key or for several, the written text is accepted in the same mode, and the keys it
    holds are what the files hold, in their order; for files whose values [JSON.stringify] prints so that they are
    read back. *)
Theorem imported_keys_are_accepted files batch value count allowSingle :
  Forall (fun file => ∀ v, parsed_file file = Some v → printable v = true) files →
  processVertexServiceAccountFiles files batch = Ok (value, count) →
  ∃ credentials, validateVertexServiceAccountValue value batch allowSingle = Ok credentials ∧
    length credentials = count ∧ Forall2 (fun file v => parsed_file file = Some v) files credentials.
Proof.
  intros Hp. unfold processVertexServiceAccountFiles. destruct (length files =? 0)%nat eqn:E0; [done | ]. cbv zeta.
  destruct (Z.ltb_spec (if batch then VERTEX_SERVICE_ACCOUNT_MAX_KEYS else 1%Z) (Z.of_nat (length files))) as [|Hkeys]; [done | ].
  intros (u & _ & H)%bind_Ok_inv. apply bind_Ok_inv in H as (creds & Hread & H).
  destruct (read_files_Ok _ _ _ _ Hread) as (new & -> & Hfits & Hfiles). cbn [app] in *. clear Hread.
  pose proof (Forall2_length _ _ _ Hfiles) as Hlen. apply Nat.eqb_neq in E0.
  assert (Hprint : forallb printable new = true).
  { clear -Hp Hfiles. induction Hfiles as [|file v files new Hv Hfiles IH]; [done | ]. inversion_clear Hp as [|? ? H1 H2]. cbn [forallb].
    by rewrite (H1 v Hv), IH. }
  match type of H with (if ?c then _ else _) = _ => destruct c eqn:Eb; [done | ] end. injection H as <- <-. apply Z.ltb_ge in Eb.
  exists new. split; [ | done]. destruct batch.
  - apply validate_array; [by destruct new; [simpl in Hlen; lia | ] | by rewrite <- Hlen | done | done | done].
  - destruct new as [|v [|v' new]]; [simpl in Hlen; lia | | simpl in Hlen; lia]. inversion_clear Hfits. cbn [forallb] in Hprint.
    apply andb_true_iff in Hprint as [Hprint _]. by apply validate_single.
Qed.

(** ** Samples *)

Definition sample_key (id : string) : ustring :=
  json_text ("{`type`:`service_account`,`project_id`:`" ++ id ++ "`,`private_key`:`a,]}\`{[`,`client_email`:`x@y`, `n`: [1, {}]}").

Definition sample_files : list VertexServiceAccountFile :=
  [mkVertexFile (js "a.json") 120 (Some (sample_key "p1")); mkVertexFile (js "b.json") 120 (Some (sample_key "p2"))].

Lemma raw_texts_are_the_elements_witness :
  getRawJSONArrayElements (js " [ " ++ sample_key "p1" ++ js " ," ++ sample_key "p2" ++ js "]") = [sample_key "p1"; sample_key "p2"] ∧
  ∃ vs, JSON_parse (js " [ " ++ sample_key "p1" ++ js " ," ++ sample_key "p2" ++ js "]") = Some (JArray vs) ∧
    Forall2 (fun v t => JSON_parse t = Some v) vs (getRawJSONArrayElements (js " [ " ++ sample_key "p1" ++ js " ," ++ sample_key "p2" ++ js "]")).
Proof.
  split; [vm_compute; reflexivity | ]. destruct (JSON_parse (js " [ " ++ sample_key "p1" ++ js " ," ++ sample_key "p2" ++ js "]")) as [[| | | |vs|]|] eqn:E;
    try (vm_compute in E; discriminate E). exists vs. split; [reflexivity | ]. apply raw_texts_are_the_elements. exact E.
Defined.

Lemma imported_keys_are_accepted_witness :
  ∃ value, processVertexServiceAccountFiles sample_files true = Ok (value, 2) ∧
  ∃ credentials, validateVertexServiceAccountValue value true false = Ok credentials ∧ length credentials = 2.
Proof.
  eexists. split; [vm_compute; reflexivity | ].
  destruct (imported_keys_are_accepted sample_files true _ 2 false ltac:(repeat (constructor; [intros v H; vm_compute in H; apply Some_inj in H; rewrite <- H; vm_compute; reflexivity | ]); constructor)
    ltac:(vm_compute; reflexivity)) as (credentials & H1 & H2 & _).
  exists credentials. split; [exact H1 | exact H2].
Defined.
