(* ===== verification/Accumulate.v ===== *)
(** * Adding up

    Sums of whole numbers, sums over the elements that satisfy a test, and maps whose entries
    add up the values of a list of events. *)

From Stdlib Require Import Lia.
From stdpp Require Import base numbers strings option sets list.
From S2P Require Import Prelude JsNumber ArraySort NumberExact.

(** ** Sums *)

Definition sum_Z (l : list Z) : Z := foldr Z.add 0%Z l.

Lemma sum_Z_app a b : sum_Z (a ++ b) = (sum_Z a + sum_Z b)%Z.
Proof. induction a; simpl; lia. Qed.

Lemma sum_Z_nonneg l : Forall (fun z => 0 ≤ z)%Z l → (0 ≤ sum_Z l)%Z.
Proof. induction 1; simpl; lia. Qed.

Lemma sum_Z_perm a b : a ≡ₚ b → sum_Z a = sum_Z b.
Proof. induction 1; simpl; lia. Qed.

(** The sum of the weights of the elements that satisfy a test. *)
Definition weigh {A} (p : A → bool) (w : A → Z) (l : list A) : Z := sum_Z (map (fun x => if p x then w x else 0%Z) l).

Lemma weigh_app {A} (p : A → bool) w a b : weigh p w (a ++ b) = (weigh p w a + weigh p w b)%Z.
Proof. unfold weigh. by rewrite map_app, sum_Z_app. Qed.

Lemma weigh_cons {A} (p : A → bool) w x l : weigh p w (x :: l) = ((if p x then w x else 0) + weigh p w l)%Z.
Proof. done. Qed.

Lemma weigh_nonneg {A} (p : A → bool) w (l : list A) : Forall (fun x => 0 ≤ w x)%Z l → (0 ≤ weigh p w l)%Z.
Proof. induction 1 as [|x l Hx H IH]; [done | ]. rewrite weigh_cons. destruct (p x); lia. Qed.

Lemma weigh_le {A} (p q : A → bool) w (l : list A) :
  Forall (fun x => 0 ≤ w x)%Z l → (∀ x, x ∈ l → p x = true → q x = true) → (weigh p w l ≤ weigh q w l)%Z.
Proof.
  induction 1 as [|x l Hx H IH]; intros Hpq; [done | ]. rewrite !weigh_cons.
  assert (weigh p w l ≤ weigh q w l)%Z by (apply IH; intros y Hy; apply Hpq; by right).
  destruct (p x) eqn:Ep; [rewrite (Hpq x ltac:(left) Ep); lia | ]. destruct (q x); lia.
Qed.

Lemma weigh_ext {A} (p q : A → bool) w (l : list A) : (∀ x, x ∈ l → p x = q x) → weigh p w l = weigh q w l.
Proof.
  induction l as [|x l IH]; intros H; [done | ]. rewrite !weigh_cons, (H x) by left. f_equal. apply IH. intros y Hy. apply H. by right.
Qed.

(** Weighing by classes: each element is counted in the class it belongs to. *)
Lemma weigh_classes {A K} `{EqDecision K} (key : A → K) w (l : list A) (ks : list K) :
  NoDup ks →
  sum_Z (map (fun k => weigh (fun x => bool_decide (key x = k)) w l) ks) = weigh (fun x => bool_decide (key x ∈ ks)) w l.
Proof.
  intros Hd. induction l as [|x l IH].
  - unfold weigh. simpl. induction ks; simpl; [done | ]. rewrite IHks by (by inversion Hd). lia.
  - rewrite weigh_cons, <- IH. clear IH. induction Hd as [|k ks Hk Hd IH]; [done | ]. cbn [map sum_Z foldr] in *.
    rewrite weigh_cons. fold (sum_Z (map (fun k => weigh (fun x => bool_decide (key x = k)) w (x :: l)) ks)) in *.
    fold (sum_Z (map (fun k => weigh (fun x => bool_decide (key x = k)) w l) ks)) in *. rewrite IH.
    destruct (decide (key x = k)) as [E|E].
    + rewrite (bool_decide_true (key x = k)), (bool_decide_true (key x ∈ k :: ks)), (bool_decide_false (key x ∈ ks)) by set_solver. lia.
    + rewrite (bool_decide_false (key x = k)) by done.
      rewrite (bool_decide_ext (key x ∈ k :: ks) (key x ∈ ks)) by set_solver. lia.
Qed.

(** Adding up whole numbers gives the number of their sum. *)
Definition num_sum (l : list number) : number := fold_left num_add l zero.

Lemma num_sum_whole zs :
  Forall (fun z => 0 ≤ z)%Z zs → (sum_Z zs < exact_limit)%Z → num_sum (map num_of_Z zs) = num_of_Z (sum_Z zs).
Proof.
  unfold num_sum. change zero with (num_of_Z 0). intros Hz Hs.
  assert (H : ∀ a, (0 ≤ a)%Z → (a + sum_Z zs < exact_limit)%Z →
    fold_left num_add (map num_of_Z zs) (num_of_Z a) = num_of_Z (a + sum_Z zs)); [ | apply (H 0%Z); lia].
  clear Hs. induction Hz as [|z zs Hz H IH]; intros a Ha Hs; [cbn; f_equal; lia | ]. cbn [map fold_left sum_Z foldr] in *.
  fold (sum_Z zs) in *. pose proof (sum_Z_nonneg zs H). rewrite num_add_exact by lia. rewrite IH by lia. f_equal. lia.
Qed.

(** ** Maps that add up *)

Section accumulate.
  Context {K A E : Type} `{EqDecision K}.
  Context (key : E → K) (fresh : E → A) (upd : E → A → A).

Definition collect (es : list E) (m : list (K * A)) : list (K * A) :=
  fold_left (fun m e => map_update (key e) (fresh e) (upd e) m) es m.

Lemma collect_keys es : ∀ m k, k ∈ map fst (collect es m) ↔ k ∈ map fst m ∨ ∃ e, e ∈ es ∧ key e = k.
Proof.
  induction es as [|e es IH]; intros m k; [set_solver | ]. unfold collect. cbn [fold_left].
  change (fold_left _ es ?m) with (collect es m). rewrite IH, map_update_keys.
  destruct (bool_decide (key e ∈ map fst m)) eqn:E1; bools; set_solver.
Qed.

Lemma collect_NoDup es : ∀ m, NoDup (map fst m) → NoDup (map fst (collect es m)).
Proof.
  induction es as [|e es IH]; intros m Hm; [done | ]. unfold collect. cbn [fold_left]. by apply IH, map_update_NoDup.
Qed.

(** A property of entries that new ones have and updates keep. *)
Lemma collect_entries (P : K → A → Prop) es : ∀ m,
  (∀ e, e ∈ es → P (key e) (fresh e)) → (∀ e k a, e ∈ es → key e = k → P k a → P k (upd e a)) →
  (∀ k a, (k, a) ∈ m → P k a) → ∀ k a, (k, a) ∈ collect es m → P k a.
Proof.
  induction es as [|e es IH]; intros m Hf Hu Hm; [done | ]. unfold collect. cbn [fold_left].
  apply (IH (map_update (key e) (fresh e) (upd e) m)).
  - intros e' He'. apply Hf. by right.
  - intros e' k a He'. apply Hu. by right.
  - clear IH. assert (Hf' : P (key e) (fresh e)) by (apply Hf; left).
    assert (Hu' : ∀ a, P (key e) a → P (key e) (upd e a)) by (intros a; apply Hu; [left | done]). clear Hf Hu.
    induction m as [|[x b] m IHm]; cbn [map_update].
    + intros k a [= -> ->]%list_elem_of_singleton. by apply Hu'.
    + destruct (bool_decide (x = key e)) eqn:Ex; bools; subst; intros k a [[= -> ->]|Hin]%elem_of_cons.
      * apply Hu', Hm. left.
      * apply Hm. by right.
      * apply Hm. left.
      * apply IHm; [ | done]. intros k' a' Hin'. apply Hm. by right.
Qed.
  Context (weight : E → Z) (val : A → number).
  Context (Hfresh : ∀ e, val (fresh e) = zero).
(** An event whose weight is a whole number that is added to the value. *)
Definition adds (e : E) : Prop := (0 ≤ weight e)%Z ∧ ∀ a, val (upd e a) = num_add (val a) (num_of_Z (weight e)).

Definition value_at (k : K) (m : list (K * A)) : number := match map_get k m with Some a => val a | None => zero end.

Lemma collect_value k es : ∀ m s,
  Forall adds es → (0 ≤ s)%Z → value_at k m = num_of_Z s →
  (s + weigh (fun e => bool_decide (key e = k)) weight es < exact_limit)%Z →
  value_at k (collect es m) = num_of_Z (s + weigh (fun e => bool_decide (key e = k)) weight es).
Proof.
  induction es as [|e es IH]; intros m s Hw Hs Hv Hl.
  { unfold weigh in *. simpl. rewrite Hv. f_equal. lia. }
  inversion_clear Hw as [|? ? [He Hupd] Hes]. rewrite weigh_cons in *. unfold collect. cbn [fold_left].
  change (fold_left _ es ?m) with (collect es m).
  pose proof (weigh_nonneg (fun e => bool_decide (key e = k)) weight es ltac:(eapply Forall_impl; [exact Hes | by intros ? [? ?]])).
  assert (Hm : value_at k (map_update (key e) (fresh e) (upd e) m)
               = num_of_Z (s + if bool_decide (key e = k) then weight e else 0)).
  { unfold value_at in *. rewrite map_get_update. destruct (bool_decide (key e = k)) eqn:Ek.
    - bools. subst k. rewrite Hupd. assert (Hd : val (default (fresh e) (map_get (key e) m)) = num_of_Z s).
      { destruct (map_get (key e) m); simpl; [done | by rewrite Hfresh]. }
      rewrite Hd. apply num_add_exact; lia.
    - rewrite Z.add_0_r. exact Hv. }
  rewrite (IH _ (s + if bool_decide (key e = k) then weight e else 0)%Z Hes); [f_equal; lia | | done | lia].
  destruct (bool_decide (key e = k)); lia.
Qed.
End accumulate.

Lemma fold_left_mjoin {A B C} (f : C → B → C) (ev : A → list B) l c :
  fold_left (fun c a => fold_left f (ev a) c) l c = fold_left f (mjoin (map ev l)) c.
Proof. revert c. induction l as [|a l IH]; intros c; [done | ]. cbn [fold_left map mjoin]. simpl. by rewrite fold_left_app, IH. Qed.

Lemma weigh_mjoin {A B} (p : B → bool) w (ev : A → list B) l :
  weigh p w (mjoin (map ev l)) = sum_Z (map (fun a => weigh p w (ev a)) l).
Proof. induction l as [|a l IH]; [done | ]. cbn [map mjoin]. simpl. by rewrite weigh_app, IH. Qed.

(** An element that occurs once weighs once. *)
Lemma weigh_once {A K} `{EqDecision K} (f : A → K) (w : Z) k (l : list A) :
  NoDup (map f l) → weigh (fun x => bool_decide (f x = k)) (fun _ => w) l = if bool_decide (k ∈ map f l) then w else 0%Z.
Proof.
  induction l as [|x l IH]; [done | ]. cbn [map]. intros [Hx Hd]%NoDup_cons. rewrite weigh_cons, IH by done.
  destruct (decide (f x = k)) as [<-|E].
  - rewrite (bool_decide_true (f x = f x)), (bool_decide_false (f x ∈ map f l)), bool_decide_true by set_solver. lia.
  - rewrite (bool_decide_false (f x = k)) by done.
    rewrite (bool_decide_ext (k ∈ f x :: map f l) (k ∈ map f l)) by set_solver. lia.
Qed.

(** The numbers of a permutation of whole numbers. *)
Lemma num_sum_perm l zs :
  l ≡ₚ map num_of_Z zs → Forall (fun z => 0 ≤ z)%Z zs → (sum_Z zs < exact_limit)%Z → num_sum l = num_of_Z (sum_Z zs).
Proof.
  intros Hp Hz Hs. destruct (Permutation_map_inv _ _ Hp) as (zs' & -> & Hp').
  rewrite (sum_Z_perm zs zs') in * by done. apply num_sum_whole; [by rewrite <- Hp' | done].
Qed.

Lemma fold_left_map {A B C} (f : C → B → C) (g : A → B) l c : fold_left f (map g l) c = fold_left (fun c a => f c (g a)) l c.
Proof. revert c. induction l as [|a l IH]; intros c; [done | apply IH]. Qed.
