(* ===== verification/DashboardFlow.v ===== *)
(** * The flow graph of the dashboard

    features/dashboard/lib/flow.ts: rows of usage data become the nodes and links of a Sankey
    diagram, one column per kind of node.  What a row can lack is an option.  The colors of
    the chart library, the comparison and the formatting by locale are parameters.  A [Map]
    is the list of its entries in insertion order; the objects in it are changed in place,
    which is the update of an entry. *)

From Stdlib Require Import SpecFloat ZArith Lia.
From stdpp Require Import base numbers strings option sets list.
From S2P Require Import Prelude JsNumber ArraySort NumberText.

Inductive FlowNodeKind := KUser | KNode | KToken | KGroup | KModel | KChannel.
Inductive FlowMetric := MQuota | MTokens | MRequests.
Inductive FlowOverflowMode := OAggregate | OHide.
Inductive FlowRole := FUser | FAdmin | FRoot.

#[export] Instance FlowNodeKind_eq_dec : EqDecision FlowNodeKind.
Proof. solve_decision. Defined.
#[export] Instance FlowMetric_eq_dec : EqDecision FlowMetric.
Proof. solve_decision. Defined.

Record FlowQuotaDataItem := mkRow {
  user_id : option number;
  username : option ustring;
  node_name : option ustring;
  use_group : option ustring;
  token_id : option number;
  token_name : option ustring;
  channel_id : option number;
  channel_name : option ustring;
  model_name : option ustring;
  token_used : option number;
  count : option number;
  quota : option number;
}.

Record FlowMetrics := mkMetrics { m_quota : number; m_tokens : number; m_requests : number }.

Record FlowPathNode := mkPathNode { pn_id : ustring; pn_label : ustring; pn_kind : FlowNodeKind }.

Record PreparedFlowPath := mkPrepared { path : list FlowPathNode; metrics : FlowMetrics }.

Record FlowNodeFilter := mkFilter { filter_kind : FlowNodeKind; filter_id : ustring }.
Record FlowLinkSelection := mkLinkSelection { selected_source : ustring; selected_target : ustring }.

Record DashboardFlowNode := mkFlowNode {
  n_id : ustring;
  n_label : ustring;
  n_kind : FlowNodeKind;
  n_value : number;
  n_requests : number;
  n_quota : number;
  n_tokens : number;
  n_color : ustring;
  n_colorKey : ustring;
  n_highlighted : option bool;
  n_dimmed : option bool;
}.

Record DashboardFlowLink := mkFlowLink {
  l_source : ustring;
  l_target : ustring;
  l_value : number;
  l_requests : number;
  l_quota : number;
  l_tokens : number;
  l_sourceLabel : ustring;
  l_targetLabel : ustring;
  l_color : ustring;
  linkColor : ustring;
  linkAlpha : number;
  hoverColor : ustring;
  l_colorKey : ustring;
  share : number;
  l_highlighted : option bool;
  l_dimmed : option bool;
}.

Record DashboardFlowGraph := mkGraph { graph_nodes : list DashboardFlowNode; graph_links : list DashboardFlowLink }.

Record FlowSummary := mkSummary { summary_quota : number; summary_tokens : number; summary_requests : number }.

Definition DEFAULT_FLOW_CHART_COLOR : ustring := js "#1664FF".

Definition FLOW_NODE_KINDS : list FlowNodeKind := [KUser; KNode; KToken; KGroup; KModel; KChannel].

Definition kind_name (k : FlowNodeKind) : ustring :=
  match k with
  | KUser => js "user" | KNode => js "node" | KToken => js "token" | KGroup => js "group" | KModel => js "model"
  | KChannel => js "channel"
  end.

Definition OTHER_FLOW_NODE_IDS (k : FlowNodeKind) : ustring := kind_name k ++ js ":__other__".

Definition DEFAULT_OTHER_FLOW_NODE_LABELS (k : FlowNodeKind) : ustring :=
  match k with
  | KUser => js "Other users" | KNode => js "Other nodes" | KToken => js "Other tokens" | KGroup => js "Other groups"
  | KModel => js "Other models" | KChannel => js "Other channels"
  end.

Definition SENSITIVE_FLOW_KINDS : list FlowNodeKind := [KUser; KNode; KToken; KGroup; KChannel].

Definition OTHER_FLOW_NODE_ID_SET : list ustring := map OTHER_FLOW_NODE_IDS FLOW_NODE_KINDS.

(** ** Rows *)

(** [Number(value)] of a number or [undefined], 0 when it is not finite. *)
Definition numberValue (value : option number) : number :=
  match value with Some n => if is_finite n then n else zero | None => zero end.

Definition rowMetrics (row : FlowQuotaDataItem) : FlowMetrics :=
  mkMetrics (numberValue (quota row)) (numberValue (token_used row)) (numberValue (count row)).

Definition metricValue (m : FlowMetrics) (metric : FlowMetric) : number :=
  match metric with MRequests => m_requests m | MTokens => m_tokens m | MQuota => m_quota m end.

(** [text || other]. *)
Definition text_or (text : option ustring) (other : ustring) : ustring :=
  match text with Some t => if truthy t then t else other | None => other end.

Definition positive_number (n : number) : bool := num_ltb zero n.

Definition userNode (row : FlowQuotaDataItem) : FlowPathNode :=
  let userID := numberValue (user_id row) in
  mkPathNode
    (if positive_number userID then js "user:" ++ Number_toString userID
     else js "user:" ++ text_or (username row) (js "unknown"))
    (text_or (username row) (if positive_number userID then js "user-" ++ Number_toString userID else js "Unknown User"))
    KUser.

Definition nodeNameNode (row : FlowQuotaDataItem) : FlowPathNode :=
  let nodeName := text_or (node_name row) (js "default-node") in
  mkPathNode (js "node:" ++ nodeName) nodeName KNode.

(** What the caller knows of tokens that are gone: a label, or [undefined]. *)
Abbreviation FlowPathContext := (option (number → ustring)).

Definition deletedTokenLabel (tokenID : number) (ctx : FlowPathContext) : ustring :=
  if num_leb tokenID zero then js "Unknown Token"
  else match ctx with Some label => label tokenID | None => js "token-" ++ Number_toString tokenID end.

Definition tokenNode (row : FlowQuotaDataItem) (ctx : FlowPathContext) : FlowPathNode :=
  let tokenID := numberValue (token_id row) in
  mkPathNode
    (if positive_number tokenID then js "token:" ++ Number_toString tokenID
     else js "token:" ++ text_or (token_name row) (js "unknown"))
    (text_or (token_name row) (deletedTokenLabel tokenID ctx)) KToken.

Definition groupNode (row : FlowQuotaDataItem) : FlowPathNode :=
  let useGroup := text_or (use_group row) (js "unknown") in
  mkPathNode (js "group:" ++ useGroup) useGroup KGroup.

Definition modelNode (row : FlowQuotaDataItem) : FlowPathNode :=
  mkPathNode (js "model:" ++ text_or (model_name row) (js "unknown")) (text_or (model_name row) (js "Unknown Model")) KModel.

Definition channelNode (row : FlowQuotaDataItem) : FlowPathNode :=
  let channelID := numberValue (channel_id row) in
  mkPathNode
    (if positive_number channelID then js "channel:" ++ Number_toString channelID
     else js "channel:" ++ text_or (channel_name row) (js "unknown"))
    (text_or (channel_name row)
       (if positive_number channelID then js "channel-" ++ Number_toString channelID else js "Unknown")) KChannel.

Definition NODE_BUILDERS (k : FlowNodeKind) (row : FlowQuotaDataItem) (ctx : FlowPathContext) : FlowPathNode :=
  match k with
  | KUser => userNode row
  | KNode => nodeNameNode row
  | KToken => tokenNode row ctx
  | KGroup => groupNode row
  | KModel => modelNode row
  | KChannel => channelNode row
  end.

(** ** Columns *)

Definition ROLE_FLOW_STAGES (role : FlowRole) : list FlowNodeKind :=
  match role with
  | FRoot => [KUser; KNode; KToken; KGroup; KModel; KChannel]
  | FAdmin => [KUser; KGroup; KModel; KChannel]
  | FUser => [KToken; KGroup; KModel]
  end.

Definition MIN_FLOW_STAGES : nat := 2.

Definition getFlowStages (role : FlowRole) : list FlowNodeKind := ROLE_FLOW_STAGES role.

Definition resolveVisibleStages (role : FlowRole) (visibleStages : option (list FlowNodeKind)) : list FlowNodeKind :=
  let stages := getFlowStages role in
  match visibleStages with
  | None => stages
  | Some visible =>
      let filtered := filter (fun stage => stage ∈ visible) stages in
      if MIN_FLOW_STAGES <=? length filtered then filtered else stages
  end.

Definition flowPathForStages (row : FlowQuotaDataItem) (stages : list FlowNodeKind) (ctx : FlowPathContext)
    : list FlowPathNode :=
  map (fun stage => NODE_BUILDERS stage row ctx) stages.

(** ** Selecting rows *)

Definition filterRows (rows : list FlowQuotaDataItem) (selectedUsers : list ustring) : list FlowQuotaDataItem :=
  match selectedUsers with
  | [] => rows
  | _ => filter (fun row => pn_id (userNode row) ∈ selectedUsers) rows
  end.

(** The separator of keys made of two names. *)
Definition NUL : ustring := [0%Z].

Definition nodeFilterKey (f : FlowNodeFilter) : ustring := kind_name (filter_kind f) ++ NUL ++ filter_id f.

(** The selected nodes of the visible kinds, by kind. *)
Definition normalizeSelectedNodeFilters (selectedNodes : list FlowNodeFilter) (stages : list FlowNodeKind)
    : list (FlowNodeKind * list ustring) :=
  fold_left (fun filters f =>
    if bool_decide (filter_kind f ∈ stages)
    then map_update (filter_kind f) [] (fun selected => selected ++ [filter_id f]) filters
    else filters) selectedNodes [].

(** The nodes of a path, by kind. *)
Definition path_by_kind (p : list FlowPathNode) : list (FlowNodeKind * list ustring) :=
  fold_left (fun m n => map_update (pn_kind n) [] (fun ids => ids ++ [pn_id n]) m) p [].

Definition pathMatchesNodeFilters (p : list FlowPathNode) (filters : list (FlowNodeKind * list ustring)) : bool :=
  forallb (fun f =>
    match map_get f.1 (path_by_kind p) with
    | None => false
    | Some pathIds => existsb (fun id => bool_decide (id ∈ pathIds)) f.2
    end) filters.

Definition filterRowsByNodes (rows : list FlowQuotaDataItem) (selectedNodes : list FlowNodeFilter)
    (stages : list FlowNodeKind) (ctx : FlowPathContext) : list FlowQuotaDataItem :=
  match normalizeSelectedNodeFilters selectedNodes stages with
  | [] => rows
  | filters => filter (fun row => pathMatchesNodeFilters (flowPathForStages row stages ctx) filters = true) rows
  end.

(** No filters at all are as an empty list of them. *)
Definition selectedNodeFiltersExceptKind (selectedNodes : list FlowNodeFilter) (k : FlowNodeKind) : list FlowNodeFilter :=
  filter (fun f => filter_kind f ≠ k) selectedNodes.

(** ** Nodes and links *)

Definition add_to_node (m : FlowMetrics) (metric : FlowMetric) (n : DashboardFlowNode) : DashboardFlowNode :=
  mkFlowNode (n_id n) (n_label n) (n_kind n) (num_add (n_value n) (metricValue m metric))
    (num_add (n_requests n) (m_requests m)) (num_add (n_quota n) (m_quota m)) (num_add (n_tokens n) (m_tokens m))
    (n_color n) (n_colorKey n) (n_highlighted n) (n_dimmed n).

Definition addNode (nodes : list (ustring * DashboardFlowNode)) (p : FlowPathNode) (m : FlowMetrics) (metric : FlowMetric)
    (color colorKey : ustring) : list (ustring * DashboardFlowNode) :=
  map_update (pn_id p)
    (mkFlowNode (pn_id p) (pn_label p) (pn_kind p) zero zero zero zero color colorKey None None)
    (add_to_node m metric) nodes.

Definition add_to_link (m : FlowMetrics) (metric : FlowMetric) (l : DashboardFlowLink) : DashboardFlowLink :=
  mkFlowLink (l_source l) (l_target l) (num_add (l_value l) (metricValue m metric))
    (num_add (l_requests l) (m_requests m)) (num_add (l_quota l) (m_quota m)) (num_add (l_tokens l) (m_tokens m))
    (l_sourceLabel l) (l_targetLabel l) (l_color l) (linkColor l) (linkAlpha l) (hoverColor l) (l_colorKey l) (share l)
    (l_highlighted l) (l_dimmed l).

Definition pathLinkKey (source target : FlowPathNode) : ustring := pn_id source ++ NUL ++ pn_id target.

Definition linkStableKey (l : DashboardFlowLink) : ustring := l_source l ++ NUL ++ l_target l.

Definition addLink (links : list (ustring * DashboardFlowLink)) (source target : FlowPathNode) (m : FlowMetrics)
    (metric : FlowMetric) (color colorKey : ustring) : list (ustring * DashboardFlowLink) :=
  map_update (pathLinkKey source target)
    (mkFlowLink (pn_id source) (pn_id target) zero zero zero zero (pn_label source) (pn_label target) color color one color
       colorKey zero None None)
    (add_to_link m metric) links.

(** The pairs of neighbours of a path. *)
Fixpoint steps (p : list FlowPathNode) : list (FlowPathNode * FlowPathNode) :=
  match p with
  | a :: (b :: _) as rest => (a, b) :: steps rest
  | _ => []
  end.

Definition buildSummary (rows : list FlowQuotaDataItem) : FlowSummary :=
  fold_left (fun s row =>
    let m := rowMetrics row in
    mkSummary (num_add (summary_quota s) (m_quota m)) (num_add (summary_tokens s) (m_tokens m))
      (num_add (summary_requests s) (m_requests m))) rows (mkSummary zero zero zero).

(** [x || k] for a difference [x] in a comparison: its sign, or [k] when it is 0 or NaN. *)
Definition sign_or (x : number) (k : Z) : Z :=
  if num_ltb x zero then (-1)%Z else if num_ltb zero x then 1%Z else k.

Definition or_cmp (a b : Z) : Z := if (a =? 0)%Z then b else a.

(** ** Nodes kept per column *)

(** The whole number of a finite number. *)
Definition num_to_Z (x : number) : Z :=
  match x with
  | S754_finite s m e => let n := if (0 <=? e)%Z then (Zpos m * 2 ^ e)%Z else (Zpos m / 2 ^ (- e))%Z in if s then (- n)%Z else n
  | _ => 0%Z
  end.

Definition normalizeTopNodeLimit (limit : option number) : option number :=
  match limit with
  | None => None
  | Some limit => let parsed := num_floor limit in if is_finite parsed && num_ltb zero parsed then Some parsed else None
  end.

Definition otherFlowNode (k : FlowNodeKind) (labeler : option (FlowNodeKind → ustring)) : FlowPathNode :=
  mkPathNode (OTHER_FLOW_NODE_IDS k)
    (match labeler with Some label => label k | None => DEFAULT_OTHER_FLOW_NODE_LABELS k end) k.

Record FlowNodeRank := mkRank { rank_node : FlowPathNode; rank_value : number }.

(** [list.slice(0, limit)]. *)
Definition slice_number {A} (limit : number) (l : list A) : list A :=
  take (Z.to_nat (Z.min (num_to_Z limit) (Z.of_nat (length l)))) l.

Section flow.
  (** [a.localeCompare(b)]. *)
  Context (localeCompare : ustring → ustring → Z).
  (** The color schemes of the chart library: the longest domain of each, and its colors. *)
  Context (vchartDefaultDataScheme : list (option nat * list (option ustring))).
  (** [Intl.NumberFormat(...).format(value)]. *)
  Context (formatNumber : number → ustring).

(** ** Colors *)

(** charts.ts; a color that is not a text is [None]. *)
Definition getDashboardChartColors (domainLength : nat) : list ustring :=
  let fits (item : option nat * list (option ustring)) :=
    match item.1 with None | Some 0 => true | Some n => domainLength <=? n end in
  let scheme :=
    match filter (fun item => fits item = true) vchartDefaultDataScheme with
    | item :: _ => item.2
    | [] => default [] (snd <$> last vchartDefaultDataScheme)
    end in
  omap id scheme.

(** [None] is no palette. *)
Abbreviation palette_type := (option (list ustring)).

Definition colorAt (i : nat) (palette : palette_type) : ustring :=
  let colors := match palette with Some (c :: cs) => c :: cs | _ => getDashboardChartColors (i + 1) end in
  match colors with
  | [] => DEFAULT_FLOW_CHART_COLOR
  | _ => default DEFAULT_FLOW_CHART_COLOR (colors !! (i mod length colors))
  end.

Definition colorPalette (colorCount : nat) (palette : palette_type) : list ustring :=
  match palette with
  | Some (c :: cs) => c :: cs
  | _ => match getDashboardChartColors colorCount with [] => [DEFAULT_FLOW_CHART_COLOR] | colors => colors end
  end.

Definition stableColorMap (keys : list ustring) (palette : palette_type) : list (ustring * ustring) :=
  let uniqueKeys := uniq keys in
  let colors := colorPalette (length uniqueKeys) palette in
  imap (fun i k => (k, colorAt i (Some colors))) uniqueKeys.

(** The value of a hexadecimal digit. *)
Definition hex_digit (c : Z) : option Z :=
  if is_digit c then Some (c - chr "0")%Z
  else if (chr "a" <=? c)%Z && (c <=? chr "f")%Z then Some (c - chr "a" + 10)%Z
  else if (chr "A" <=? c)%Z && (c <=? chr "F")%Z then Some (c - chr "A" + 10)%Z
  else None.

(** [alpha.toFixed(2)] for a number from 0 to 1: hundredths, the larger of two that are as near. *)
Definition toFixed2 (x : number) : ustring :=
  let hundredths :=
    match x with
    | S754_finite false m e => ((200 * Zpos m + 2 ^ (- e)) / (2 * 2 ^ (- e)))%Z
    | _ => 0%Z
    end in
  show_Z (hundredths / 100) ++ js "." ++ show_Z (hundredths / 10 mod 10) ++ show_Z (hundredths mod 10).

(** The color with its opacity, or the color as it is and the opacity. *)
Definition alphaColor (color : ustring) (alpha : number) : ustring * number :=
  let normalized := trim color in
  let hex := if starts_with (js "#") normalized then drop 1 normalized else normalized in
  match (if length hex =? 6 then mapM hex_digit hex else None) with
  | None => (normalized, alpha)
  | Some ds =>
      let value := fold_left (fun v d => v * 16 + d)%Z ds 0%Z in
      let red := Z.land (Z.shiftr value 16) 255 in
      let green := Z.land (Z.shiftr value 8) 255 in
      let blue := Z.land value 255 in
      (js "rgba(" ++ show_Z red ++ js ", " ++ show_Z green ++ js ", " ++ show_Z blue ++ js ", " ++ toFixed2 alpha ++ js ")",
       one)
  end.

Definition set_display (l : DashboardFlowLink) (alpha : number) : DashboardFlowLink :=
  let d := alphaColor (l_color l) alpha in
  mkFlowLink (l_source l) (l_target l) (l_value l) (l_requests l) (l_quota l) (l_tokens l) (l_sourceLabel l) (l_targetLabel l)
    (l_color l) d.1 d.2 (l_color l) (l_colorKey l) (share l) (l_highlighted l) (l_dimmed l).

(** The order of the links of a source when their opacities are given. *)
Definition by_value_then_key (a b : DashboardFlowLink) : Z :=
  sign_or (num_sub (l_value b) (l_value a)) (localeCompare (linkStableKey a) (linkStableKey b)).

Definition link_opacity (n i : nat) : number :=
  if n =? 1 then Number (js "0.34")
  else num_add (Number (js "0.24"))
         (num_mul (num_div (num_of_Z (Z.of_nat i)) (num_of_Z (Z.of_nat (Nat.max (n - 1) 1)))) (Number (js "0.2"))).

(** The place of a link among the links of its source, by key. *)
Definition place_of (l : DashboardFlowLink) (sorted : list DashboardFlowLink) : nat :=
  default 0 (fst <$> list_find (fun l' => linkStableKey l' = linkStableKey l) sorted).

(** Every link gets the color of its place among the links of its source. *)
Definition assignLinkDisplayColors (links : list DashboardFlowLink) : list DashboardFlowLink :=
  map (fun l =>
    let sourceLinks := filter (fun l' => l_source l' = l_source l) links in
    let sorted := sort_cmp by_value_then_key sourceLinks in
    set_display l (link_opacity (length sorted) (place_of l sorted))) links.

(** ** The nodes with the largest values *)

Definition by_rank (a b : FlowNodeRank) : Z :=
  sign_or (num_sub (rank_value b) (rank_value a))
    (or_cmp (localeCompare (pn_label (rank_node a)) (pn_label (rank_node b)))
       (localeCompare (pn_id (rank_node a)) (pn_id (rank_node b)))).

Definition add_rank (value : number) (stageTotals : list (ustring * FlowNodeRank)) (n : FlowPathNode)
    : list (ustring * FlowNodeRank) :=
  map_update (pn_id n) (mkRank n zero) (fun r => mkRank (rank_node r) (num_add (rank_value r) value)) stageTotals.

(** The totals of the nodes of each column. *)
Definition stage_totals (rows : list FlowQuotaDataItem) (metric : FlowMetric) (stages : list FlowNodeKind)
    (ctx : FlowPathContext) : list (FlowNodeKind * list (ustring * FlowNodeRank)) :=
  fold_left (fun totals row =>
    let value := metricValue (rowMetrics row) metric in
    fold_left (fun totals n =>
      match map_get (pn_kind n) totals with
      | None => totals
      | Some _ => map_update (pn_kind n) [] (fun t => add_rank value t n) totals
      end) (flowPathForStages row stages ctx) totals) rows
    (fold_left (fun totals stage => map_update stage [] (fun _ => []) totals) stages []).

Definition buildTopNodeSets (rows : list FlowQuotaDataItem) (metric : FlowMetric) (stages : list FlowNodeKind)
    (limit : option number) (ctx : FlowPathContext) : option (list (FlowNodeKind * list ustring)) :=
  match limit with
  | None => None
  | Some limit =>
      if num_eqb limit zero || is_nan limit then None
      else
        Some (map (fun t => (t.1, map (fun r => pn_id (rank_node r)) (slice_number limit (sort_cmp by_rank (map snd t.2)))))
                (stage_totals rows metric stages ctx))
  end.

Abbreviation top_sets := (option (list (FlowNodeKind * list ustring))).

Definition isTopFlowNode (n : FlowPathNode) (topNodeSets : top_sets) : bool :=
  match topNodeSets ≫= map_get (pn_kind n) with
  | None => true
  | Some ids => bool_decide (pn_id n ∈ ids)
  end.

Definition applyTopNodeLimit (p : list FlowPathNode) (topNodeSets : top_sets) (mode : FlowOverflowMode)
    (labeler : option (FlowNodeKind → ustring)) : option (list FlowPathNode) :=
  match topNodeSets with
  | None => Some p
  | Some _ =>
      if forallb (fun n => isTopFlowNode n topNodeSets) p then Some p
      else
        match mode with
        | OHide => None
        | OAggregate => Some (map (fun n => if isTopFlowNode n topNodeSets then n else otherFlowNode (pn_kind n) labeler) p)
        end
  end.

(** ** Highlights *)

Definition pathContainsFlowNode (p : list FlowPathNode) (f : FlowNodeFilter) : bool :=
  existsb (fun n => bool_decide (pn_kind n = filter_kind f) && ustring_eqb (pn_id n) (filter_id f)) p.

Definition pathContainsFlowLink (p : list FlowPathNode) (l : FlowLinkSelection) : bool :=
  existsb (fun s => ustring_eqb (pn_id s.1) (selected_source l) && ustring_eqb (pn_id s.2) (selected_target l)) (steps p).

(** The names of the nodes and the keys of the links on the chosen paths. *)
Definition buildFlowHighlightSets (prepared : list PreparedFlowPath) (activeNode : option FlowNodeFilter)
    (activeLink : option FlowLinkSelection) (stages : list FlowNodeKind) : option (list ustring * list ustring) :=
  let nodeActive := match activeNode with Some n => bool_decide (filter_kind n ∈ stages) | None => false end in
  let matchesPath p :=
    match activeLink, activeNode with
    | Some l, _ => pathContainsFlowLink p l
    | None, Some n => pathContainsFlowNode p n
    | None, None => false
    end in
  if negb nodeActive && bool_decide (activeLink = None) then None
  else
    let chosen := filter (fun q => matchesPath (path q) = true) prepared in
    match uniq (mjoin (map (fun q => map pn_id (path q)) chosen)) with
    | [] => None
    | nodes => Some (nodes, uniq (mjoin (map (fun q => map (fun s => pathLinkKey s.1 s.2) (steps (path q))) chosen)))
    end.

(** ** Masked labels *)

Definition FLOW_MASK_TEXT : ustring := [8226; 8226; 8226; 8226]%Z.

Definition maskFlowLabel (label : ustring) : ustring := match label with [] => label | _ => FLOW_MASK_TEXT end.

Definition is_masked (n : DashboardFlowNode) : bool :=
  bool_decide (n_kind n ∈ SENSITIVE_FLOW_KINDS) && bool_decide (n_id n ∉ OTHER_FLOW_NODE_ID_SET).

Definition set_node_label (label : ustring) (n : DashboardFlowNode) : DashboardFlowNode :=
  mkFlowNode (n_id n) label (n_kind n) (n_value n) (n_requests n) (n_quota n) (n_tokens n) (n_color n) (n_colorKey n)
    (n_highlighted n) (n_dimmed n).

Definition set_link_labels (source target : ustring) (l : DashboardFlowLink) : DashboardFlowLink :=
  mkFlowLink (l_source l) (l_target l) (l_value l) (l_requests l) (l_quota l) (l_tokens l) source target (l_color l)
    (linkColor l) (linkAlpha l) (hoverColor l) (l_colorKey l) (share l) (l_highlighted l) (l_dimmed l).

(** The masked labels by the names of their nodes. *)
Definition maskedById (nodes : list (ustring * DashboardFlowNode)) : list (ustring * ustring) :=
  omap (fun e => if is_masked e.2 then Some (n_id e.2, maskFlowLabel (n_label e.2)) else None) nodes.

Definition maskFlowGraphLabels (nodes : list (ustring * DashboardFlowNode)) (links : list (ustring * DashboardFlowLink))
    : list (ustring * DashboardFlowNode) * list (ustring * DashboardFlowLink) :=
  let masked := maskedById nodes in
  (map (fun e => if is_masked e.2 then (e.1, set_node_label (maskFlowLabel (n_label e.2)) e.2) else e) nodes,
   map (fun e =>
     (e.1, set_link_labels (default (l_sourceLabel e.2) (map_get (l_source e.2) masked))
             (default (l_targetLabel e.2) (map_get (l_target e.2) masked)) e.2)) links).

Definition highlight_node (nodes : list ustring) (n : DashboardFlowNode) : DashboardFlowNode :=
  let h := bool_decide (n_id n ∈ nodes) in
  mkFlowNode (n_id n) (n_label n) (n_kind n) (n_value n) (n_requests n) (n_quota n) (n_tokens n) (n_color n) (n_colorKey n)
    (Some h) (Some (negb h)).

Definition highlight_link (links : list ustring) (l : DashboardFlowLink) : DashboardFlowLink :=
  let h := bool_decide (linkStableKey l ∈ links) in
  mkFlowLink (l_source l) (l_target l) (l_value l) (l_requests l) (l_quota l) (l_tokens l) (l_sourceLabel l) (l_targetLabel l)
    (l_color l) (linkColor l) (linkAlpha l) (hoverColor l) (l_colorKey l) (share l) (Some h) (Some (negb h)).

Definition applyFlowHighlights (nodes : list (ustring * DashboardFlowNode)) (links : list (ustring * DashboardFlowLink))
    (sets : option (list ustring * list ustring))
    : list (ustring * DashboardFlowNode) * list (ustring * DashboardFlowLink) :=
  match sets with
  | None => (nodes, links)
  | Some (ns, ls) => (map (fun e => (e.1, highlight_node ns e.2)) nodes, map (fun e => (e.1, highlight_link ls e.2)) links)
  end.

(** ** The graph *)

Record FlowGraphOptions := mkGraphOptions {
  topNodeLimit : option number;
  overflowMode : option FlowOverflowMode;
  otherNodeLabel : option (FlowNodeKind → ustring);
  activeNode : option FlowNodeFilter;
  activeLink : option FlowLinkSelection;
  maskSensitive : bool;
}.

(** The first loop of [buildFlowGraph]: the paths of the rows, with the columns that are kept. *)
Definition prepare_paths (rows : list FlowQuotaDataItem) (stages : list FlowNodeKind) (topNodeSets : top_sets)
    (options : FlowGraphOptions) (ctx : FlowPathContext) : list PreparedFlowPath :=
  omap (fun row =>
    (fun p => mkPrepared p (rowMetrics row)) <$>
    applyTopNodeLimit (flowPathForStages row stages ctx) topNodeSets (default OAggregate (overflowMode options))
      (otherNodeLabel options)) rows.

(** The names of the first nodes of the paths. *)
Definition root_ids (prepared : list PreparedFlowPath) : list ustring :=
  filter (fun id => truthy id = true) (omap (fun q => pn_id <$> head (path q)) prepared).

(** The body of the second loop: the nodes and the links of one path. *)
Definition add_path (metric : FlowMetric) (colors : list (ustring * ustring)) (palette : palette_type)
    (g : list (ustring * DashboardFlowNode) * list (ustring * DashboardFlowLink)) (q : PreparedFlowPath)
    : list (ustring * DashboardFlowNode) * list (ustring * DashboardFlowLink) :=
  match head (path q) with
  | None => g
  | Some root =>
      let color := default (colorAt 0 palette) (map_get (pn_id root) colors) in
      (fold_left (fun nodes n => addNode nodes n (metrics q) metric color (pn_id root)) (path q) g.1,
       fold_left (fun links s => addLink links s.1 s.2 (metrics q) metric color (pn_id root)) (steps (path q)) g.2)
  end.

Definition set_share (total : number) (l : DashboardFlowLink) : DashboardFlowLink :=
  mkFlowLink (l_source l) (l_target l) (l_value l) (l_requests l) (l_quota l) (l_tokens l) (l_sourceLabel l) (l_targetLabel l)
    (l_color l) (linkColor l) (linkAlpha l) (hoverColor l) (l_colorKey l)
    (if num_ltb zero total then num_div (l_value l) total else zero) (l_highlighted l) (l_dimmed l).

Definition by_ends (a b : DashboardFlowLink) : Z :=
  or_cmp (localeCompare (l_source a) (l_source b)) (localeCompare (l_target a) (l_target b)).

Definition byValueThenLabel (a b : DashboardFlowNode) : Z :=
  sign_or (num_sub (n_value b) (n_value a)) (localeCompare (n_label a) (n_label b)).

Definition buildFlowGraph (rows : list FlowQuotaDataItem) (metric : FlowMetric) (role : FlowRole) (palette : palette_type)
    (visibleStages : option (list FlowNodeKind)) (ctx : FlowPathContext) (options : FlowGraphOptions) : DashboardFlowGraph :=
  let stages := resolveVisibleStages role visibleStages in
  let topNodeSets := buildTopNodeSets rows metric stages (normalizeTopNodeLimit (topNodeLimit options)) ctx in
  let prepared := prepare_paths rows stages topNodeSets options ctx in
  let colors := stableColorMap (sort_cmp localeCompare (root_ids prepared)) palette in
  let g := fold_left (add_path metric colors palette) prepared ([], []) in
  let g := if maskSensitive options then maskFlowGraphLabels g.1 g.2 else g in
  let g := applyFlowHighlights g.1 g.2
             (buildFlowHighlightSets prepared (activeNode options) (activeLink options) stages) in
  let flowLinks := sort_cmp by_ends (map snd g.2) in
  let firstStepSources := root_ids prepared in
  let total := fold_left (fun sum l => num_add sum (l_value l))
                 (filter (fun l => l_source l ∈ firstStepSources) flowLinks) zero in
  mkGraph (sort_cmp byValueThenLabel (map snd g.1)) (assignLinkDisplayColors (map (set_share total) flowLinks)).

(** ** Filters *)

Record FlowUserFilterOption := mkUserOption {
  uo_value : ustring; uo_label : ustring; uo_valueLabel : ustring; uo_valueRaw : number; uo_color : ustring;
}.

Record FlowNodeFilterOption := mkNodeOption {
  no_kind : FlowNodeKind; no_value : ustring; no_label : ustring; no_valueLabel : ustring; no_valueRaw : number;
  no_color : ustring;
}.

(** [!row.user_id && !row.username]. *)
Definition anonymous (row : FlowQuotaDataItem) : bool :=
  match user_id row with None => true | Some n => num_eqb n zero || is_nan n end &&
  match username row with None => true | Some u => negb (truthy u) end.

Definition buildUserFilterOptions (rows : list FlowQuotaDataItem) (metric : FlowMetric) (palette : palette_type)
    : list FlowUserFilterOption :=
  let colors := stableColorMap (sort_cmp localeCompare (map (fun row => pn_id (userNode row)) rows)) palette in
  let users :=
    fold_left (fun users row =>
      if anonymous row then users
      else
        let user := userNode row in
        map_update (pn_id user) (pn_label user, zero, default (colorAt 0 palette) (map_get (pn_id user) colors))
          (fun u => (u.1.1, num_add u.1.2 (metricValue (rowMetrics row) metric), u.2)) users) rows [] in
  sort_cmp (fun a b => sign_or (num_sub (uo_valueRaw b) (uo_valueRaw a)) (localeCompare (uo_label a) (uo_label b)))
    (map (fun e => mkUserOption e.1 e.2.1.1 (formatNumber e.2.1.2) e.2.1.2 e.2.2) users).

(** The place of a column, the first one when there is none. *)
Definition stage_index (stages : list FlowNodeKind) (k : FlowNodeKind) : Z :=
  Z.of_nat (default 0 (fst <$> list_find (fun s => s = k) stages)).

Definition stage_options (rows : list FlowQuotaDataItem) (metric : FlowMetric) (stages : list FlowNodeKind)
    (colors : list (ustring * ustring)) (palette : palette_type) (ctx : FlowPathContext)
    (selectedNodes : list FlowNodeFilter) (stage : FlowNodeKind) : list FlowNodeFilterOption :=
  let candidateRows := filterRowsByNodes rows (selectedNodeFiltersExceptKind selectedNodes stage) stages ctx in
  let totals :=
    fold_left (fun totals row =>
      let n := NODE_BUILDERS stage row ctx in
      map_update (nodeFilterKey (mkFilter (pn_kind n) (pn_id n))) (mkRank n zero)
        (fun r => mkRank (rank_node r) (num_add (rank_value r) (metricValue (rowMetrics row) metric))) totals)
      candidateRows [] in
  map (fun e =>
    let r : FlowNodeRank := e.2 in
    mkNodeOption (pn_kind (rank_node r)) (pn_id (rank_node r)) (pn_label (rank_node r)) (formatNumber (rank_value r))
      (rank_value r) (default (colorAt 0 palette) (map_get (pn_id (rank_node r)) colors))) totals.

Definition buildNodeFilterOptions (rows : list FlowQuotaDataItem) (metric : FlowMetric) (role : FlowRole)
    (visibleStages : option (list FlowNodeKind)) (palette : palette_type) (ctx : FlowPathContext)
    (selectedNodes : list FlowNodeFilter) : list FlowNodeFilterOption :=
  let stages := resolveVisibleStages role visibleStages in
  let colorIds := uniq (mjoin (map (fun row => map pn_id (flowPathForStages row stages ctx)) rows)) in
  let colors := stableColorMap (sort_cmp localeCompare colorIds) palette in
  sort_cmp (fun a b =>
      or_cmp (stage_index stages (no_kind a) - stage_index stages (no_kind b))
        (sign_or (num_sub (no_valueRaw b) (no_valueRaw a))
           (or_cmp (localeCompare (no_label a) (no_label b)) (localeCompare (no_value a) (no_value b)))))
    (mjoin (map (stage_options rows metric stages colors palette ctx selectedNodes) stages)).

Definition buildFlowFilterOptions (rows : list FlowQuotaDataItem) (metric : FlowMetric) (palette : palette_type)
    (role : FlowRole) (visibleStages : option (list FlowNodeKind)) (selectedNodes : list FlowNodeFilter)
    : list FlowUserFilterOption * list FlowNodeFilterOption :=
  (buildUserFilterOptions rows metric palette,
   buildNodeFilterOptions rows metric role visibleStages palette None selectedNodes).

Record FlowBuildOptions := mkBuildOptions {
  build_role : option FlowRole;
  selectedUsers : list ustring;
  selectedNodes : list FlowNodeFilter;
  build_palette : option (list ustring);
  build_visibleStages : option (list FlowNodeKind);
  build_deletedTokenLabel : option (number → ustring);
  graph_options : FlowGraphOptions;
}.

Record ProcessedFlowData := mkFlowData {
  summary : FlowSummary;
  flow_graph : DashboardFlowGraph;
  user_options : list FlowUserFilterOption;
  node_options : list FlowNodeFilterOption;
}.

(** The rows a view shows. *)
Definition shown_rows (rows : list FlowQuotaDataItem) (options : FlowBuildOptions) : list FlowQuotaDataItem :=
  filterRowsByNodes (filterRows rows (selectedUsers options)) (selectedNodes options)
    (resolveVisibleStages (default FUser (build_role options)) (build_visibleStages options))
    (build_deletedTokenLabel options).

Definition buildDashboardFlowData (rows : list FlowQuotaDataItem) (metric : FlowMetric) (options : FlowBuildOptions)
    : ProcessedFlowData :=
  let role := default FUser (build_role options) in
  let palette := build_palette options in
  let ctx := build_deletedTokenLabel options in
  let filteredRows := shown_rows rows options in
  mkFlowData (buildSummary filteredRows)
    (buildFlowGraph filteredRows metric role palette (build_visibleStages options) ctx (graph_options options))
    (buildUserFilterOptions rows metric palette)
    (buildNodeFilterOptions (filterRows rows (selectedUsers options)) metric role (build_visibleStages options) palette ctx
       (selectedNodes options)).

(** ** What the chart draws *)

(** [Number(a.dimmed) - Number(b.dimmed) || k]: a flag that is absent is NaN, like the difference. *)
Definition flag_or (a b : option bool) (k : Z) : Z :=
  match a, b with Some a, Some b => or_cmp (Z.b2z a - Z.b2z b) k | _, _ => k end.

Definition byLinkDrawPriority (a b : DashboardFlowLink) : Z :=
  flag_or (l_dimmed a) (l_dimmed b)
    (flag_or (l_highlighted b) (l_highlighted a)
       (sign_or (num_sub (l_value b) (l_value a)) (localeCompare (linkStableKey a) (linkStableKey b)))).

(** The links in drawing order with their layers. *)
Definition drawn_links (flow : DashboardFlowGraph) : list (DashboardFlowLink * Z) :=
  imap (fun i l =>
    (l, if bool_decide (l_highlighted l = Some true) then (1000000 + Z.of_nat i)%Z
        else if bool_decide (l_dimmed l = Some true) then Z.of_nat i else (100000 + Z.of_nat i)%Z))
    (sort_cmp byLinkDrawPriority (filter (fun l => num_ltb zero (l_value l) = true) (graph_links flow))).
End flow.
