(* ===== verification/DashboardFlowPaths.v ===== *)
(** * Paths and the amounts that flow along them

    The nodes of a path have distinct names, the value of a node is the amount of the paths
    through it, and the values of the links at a node add up to the amount of the paths that
    have a step there. *)

From Stdlib Require Import Lia.
From stdpp Require Import base numbers strings option sets list.
From S2P Require Import Prelude JsNumber ArraySort NumberText NumberExact Accumulate DashboardFlow.

(** ** Names of nodes *)

(** The name of a node starts with the name of its kind, and does not contain the separator of link keys. *)
Definition names (k : FlowNodeKind) (id : ustring) : Prop := ∃ rest, id = kind_name k ++ js ":" ++ rest.

Definition separable (id : ustring) : Prop := 0%Z ∉ id.

Lemma names_inj k k' id : names k id → names k' id → k = k'.
Proof. intros [r ->] [r' H]. by destruct k, k'; try done. Qed.

Lemma NODE_BUILDERS_kind k row ctx : pn_kind (NODE_BUILDERS k row ctx) = k.
Proof. by destruct k. Qed.

Lemma NODE_BUILDERS_names k row ctx : names k (pn_id (NODE_BUILDERS k row ctx)).
Proof.
  destruct k; cbn; unfold names; try (destruct (positive_number _)); by eexists.
Qed.

Lemma OTHER_names k : names k (OTHER_FLOW_NODE_IDS k).
Proof. by eexists. Qed.

Lemma OTHER_separable k : separable (OTHER_FLOW_NODE_IDS k).
Proof. unfold separable. apply (bool_decide_unpack _). by destruct k; vm_compute. Qed.

(** The key of a link determines its ends. *)
Lemma separated_inj (a b a' b' : ustring) : separable a → separable a' → a ++ NUL ++ b = a' ++ NUL ++ b' → a = a' ∧ b = b'.
Proof.
  unfold separable, NUL. revert a'. induction a as [|x a IH]; intros [|x' a'] Ha Ha' H; simplify_eq/=; [done | set_solver | set_solver | ].
  destruct (IH a') as [-> ->]; set_solver.
Qed.

(** ** Paths *)

Definition well_formed (stages : list FlowNodeKind) (q : PreparedFlowPath) : Prop :=
  map pn_kind (path q) = stages ∧ Forall (fun n => names (pn_kind n) (pn_id n)) (path q).

Definition separable_path (q : PreparedFlowPath) : Prop := Forall (fun n => separable (pn_id n)) (path q).

Lemma path_ids_NoDup stages q : NoDup stages → well_formed stages q → NoDup (map pn_id (path q)).
Proof.
  intros Hd [<- Hn]. induction (path q) as [|n p IH]; [constructor | ]. cbn [map] in *.
  apply NoDup_cons in Hd as [Hk Hd]. inversion_clear Hn as [|? ? Hn1 Hp]. apply NoDup_cons. split; [ | by apply IH].
  intros (n' & Hid & Hin)%list_elem_of_fmap. apply Hk, list_elem_of_fmap. exists n'. split; [ | done].
  rewrite Forall_forall in Hp. pose proof (Hp n' Hin) as Hn'. rewrite <- Hid in Hn'. by eapply names_inj.
Qed.

Lemma stages_NoDup role visible : NoDup (resolveVisibleStages role visible).
Proof.
  assert (H : NoDup (ROLE_FLOW_STAGES role)) by (apply (bool_decide_unpack _); by destruct role; vm_compute).
  unfold resolveVisibleStages, getFlowStages. destruct visible as [v|]; [ | done].
  destruct (_ <=? _); [by apply NoDup_filter | done].
Qed.

Lemma steps_targets p : map snd (steps p) = tail p.
Proof. induction p as [|a [|b p] IH]; [done | done | ]. cbn [steps map tail] in *. by rewrite IH. Qed.

Lemma steps_sources p : map fst (steps p) = removelast p.
Proof. induction p as [|a [|b p] IH]; [done | done | ]. cbn [steps map] in *. by rewrite IH. Qed.

Lemma steps_elem p s : s ∈ steps p → s.1 ∈ p ∧ s.2 ∈ p.
Proof.
  induction p as [|a [|b p] IH]; cbn [steps]; [by intros ?%elem_of_nil | by intros ?%elem_of_nil | ].
  intros [->|H]%elem_of_cons; cbn [fst snd]; [set_solver | ]. destruct (IH H). set_solver.
Qed.

(** An end of a step, and of a link: the source or the target. *)
Definition step_end (side : bool) (s : FlowPathNode * FlowPathNode) : ustring := pn_id (if side then s.1 else s.2).
Definition link_end (side : bool) (l : DashboardFlowLink) : ustring := if side then l_source l else l_target l.

(** The steps of a path end at all of its nodes but the first one, and start at all but the last one. *)
Lemma step_end_ids (side : bool) stages k q id :
  well_formed stages q → names k id → (if side then last stages else head stages) ≠ Some k →
  id ∈ map (step_end side) (steps (path q)) ↔ id ∈ map pn_id (path q).
Proof.
  intros [Hk Hn] Hid Hne. unfold step_end. destruct side.
  - rewrite <- (map_map fst pn_id), steps_sources. destruct (path q) as [|n0 p0] eqn:E; [done | ].
    rewrite (app_removelast_last n0 (l := n0 :: p0)) at 2 by done. rewrite map_app, elem_of_app. cbn [map].
    assert (Hlast : id ≠ pn_id (List.last (n0 :: p0) n0)); [ | set_solver]. intros ->. apply Hne. rewrite <- Hk.
    rewrite (app_removelast_last n0 (l := n0 :: p0)) at 1 by done. rewrite map_app. cbn [map]. rewrite last_snoc. f_equal.
    rewrite (app_removelast_last n0 (l := n0 :: p0)) in Hn by done. apply Forall_app in Hn as [_ Hn].
    inversion_clear Hn as [|? ? Hn' _]. by eapply names_inj.
  - rewrite <- (map_map snd pn_id), steps_targets. destruct (path q) as [|n0 p0]; [done | ]. cbn [tail map].
    assert (Hhead : id ≠ pn_id n0); [ | set_solver]. intros ->. apply Hne. rewrite <- Hk. cbn. f_equal.
    inversion_clear Hn as [|? ? Hn' _]. by eapply names_inj.
Qed.

(** The names in the rows do not contain the separator. *)
Definition separable_row (ctx : FlowPathContext) (row : FlowQuotaDataItem) : Prop :=
  Forall (fun k => separable (pn_id (NODE_BUILDERS k row ctx))) FLOW_NODE_KINDS.

Lemma separable_row_kind ctx row k : separable_row ctx row → separable (pn_id (NODE_BUILDERS k row ctx)).
Proof. unfold separable_row. rewrite Forall_forall. intros H. apply H. apply (bool_decide_unpack _). by destruct k. Qed.

Lemma flowPath_well_formed ctx row stages : well_formed stages (mkPrepared (flowPathForStages row stages ctx) (rowMetrics row)).
Proof.
  unfold well_formed, flowPathForStages. cbn [path]. split.
  - rewrite map_map. erewrite map_ext; [apply map_id | ]. intros k. apply NODE_BUILDERS_kind.
  - apply Forall_map, Forall_forall. intros k _. cbn beta. rewrite NODE_BUILDERS_kind. apply NODE_BUILDERS_names.
Qed.

(** A limited path has the nodes of the path, or the nodes of the others in their place. *)
Lemma applyTopNodeLimit_nodes p sets mode labeler p' :
  applyTopNodeLimit p sets mode labeler = Some p' →
  Forall2 (fun n n' => n' = n ∨ n' = otherFlowNode (pn_kind n) labeler) p p'.
Proof.
  assert (Hid : ∀ l : list FlowPathNode, Forall2 (fun n n' => n' = n ∨ n' = otherFlowNode (pn_kind n) labeler) l l).
  { intros l. apply Forall_Forall2_diag, Forall_true. by left. }
  unfold applyTopNodeLimit. destruct sets as [sets|]; [ | by intros [= <-]]. destruct (forallb _ p); [by intros [= <-] | ].
  destruct mode; [ | done]. intros [= <-]. apply Forall2_fmap_r, Forall_Forall2_diag, Forall_true. intros n.
  unfold compose. destruct (isTopFlowNode n (Some sets)); auto.
Qed.

Lemma limited_well_formed stages labeler p p' m :
  Forall2 (fun n n' => n' = n ∨ n' = otherFlowNode (pn_kind n) labeler) p p' →
  well_formed stages (mkPrepared p m) → well_formed stages (mkPrepared p' m).
Proof.
  unfold well_formed. cbn [path]. intros H [<- Hn]. induction H as [|n n' p p' Hn' H IH]; [done | ].
  inversion_clear Hn as [|? ? Hn1 Hp]. destruct (IH Hp) as [IH1 IH2]. cbn [map].
  split; [ | constructor; [ | done]]; destruct Hn' as [->| ->]; cbn [otherFlowNode pn_kind pn_id]; try done; [by rewrite IH1.. | apply OTHER_names].
Qed.

Lemma limited_separable labeler p p' m :
  Forall2 (fun n n' => n' = n ∨ n' = otherFlowNode (pn_kind n) labeler) p p' →
  separable_path (mkPrepared p m) → separable_path (mkPrepared p' m).
Proof.
  unfold separable_path. cbn [path]. induction 1 as [|n n' p p' Hn' H IH]; [done | ]. inversion_clear 1.
  constructor; [ | by apply IH]. destruct Hn' as [->| ->]; [done | apply OTHER_separable].
Qed.

Lemma prepare_paths_elem rows stages sets options ctx q :
  q ∈ prepare_paths rows stages sets options ctx →
  ∃ row, row ∈ rows ∧ metrics q = rowMetrics row ∧
    applyTopNodeLimit (flowPathForStages row stages ctx) sets (default OAggregate (overflowMode options))
      (otherNodeLabel options) = Some (path q).
Proof.
  unfold prepare_paths. rewrite list_elem_of_omap. intros (row & Hin & H). exists row. split; [done | ].
  by apply fmap_Some in H as (p & Hp & ->).
Qed.

Lemma prepare_well_formed rows stages sets options ctx : Forall (well_formed stages) (prepare_paths rows stages sets options ctx).
Proof.
  apply Forall_forall. intros [p m] Hq. destruct (prepare_paths_elem _ _ _ _ _ _ Hq) as (row & Hin & Hm & Hp).
  cbn [path metrics] in *. subst m. eapply limited_well_formed; [by eapply applyTopNodeLimit_nodes | apply flowPath_well_formed].
Qed.

Lemma prepare_separable rows stages sets options ctx :
  Forall (separable_row ctx) rows → Forall separable_path (prepare_paths rows stages sets options ctx).
Proof.
  rewrite !Forall_forall. intros Hs [p m] Hq. destruct (prepare_paths_elem _ _ _ _ _ _ Hq) as (row & Hin & Hm & Hp).
  cbn [path metrics] in *. subst m. eapply limited_separable; [by eapply applyTopNodeLimit_nodes | ].
  apply Forall_map, Forall_true. intros k. by apply separable_row_kind, Hs.
Qed.

(** ** Whole amounts *)

(** A count: a whole number that is not negative. *)
Definition whole_amount (x : number) : Prop := (0 ≤ num_to_Z x)%Z ∧ x = num_of_Z (num_to_Z x).

(** The amount of a row, or of a path. *)
Definition amount (metric : FlowMetric) (m : FlowMetrics) : Z := num_to_Z (metricValue m metric).

(** Rows whose amounts are counts, that add up to less than 2^53. *)
Definition countable_rows (metric : FlowMetric) (rows : list FlowQuotaDataItem) : Prop :=
  Forall (fun row => whole_amount (metricValue (rowMetrics row) metric)) rows ∧
  (sum_Z (map (fun row => amount metric (rowMetrics row)) rows) < exact_limit)%Z.

Definition countable_paths (metric : FlowMetric) (prepared : list PreparedFlowPath) : Prop :=
  Forall (fun q => whole_amount (metricValue (metrics q) metric)) prepared ∧
  (sum_Z (map (fun q => amount metric (metrics q)) prepared) < exact_limit)%Z.

Lemma prepare_countable metric rows stages sets options ctx :
  countable_rows metric rows → countable_paths metric (prepare_paths rows stages sets options ctx).
Proof.
  unfold countable_rows, countable_paths. intros [Hw Hs].
  assert (H : Forall (fun q => whole_amount (metricValue (metrics q) metric)) (prepare_paths rows stages sets options ctx)).
  { apply Forall_forall. intros q Hq. destruct (prepare_paths_elem _ _ _ _ _ _ Hq) as (row & Hin & -> & _).
    exact (proj1 (Forall_forall _ _) Hw row Hin). }
  split; [done | ]. eapply Z.le_lt_trans; [ | exact Hs]. clear Hs H. unfold prepare_paths.
  induction Hw as [|row rows [Hr _] Hw IH]; [done | ]. cbn [omap list_omap map sum_Z foldr].
  fold (sum_Z (map (fun row => amount metric (rowMetrics row)) rows)). fold (amount metric (rowMetrics row)) in Hr.
  destruct (applyTopNodeLimit _ _ _ _); cbn [fmap option_fmap option_map].
  - cbn [map sum_Z foldr metrics]. apply Z.add_le_mono_l. exact IH.
  - eapply Z.le_trans; [exact IH | lia].
Qed.

(** ** The values of nodes and links *)

Section values.
  Context (metric : FlowMetric) (prepared : list PreparedFlowPath) (stages : list FlowNodeKind).
  (** The color and the color key of a path. *)
  Context (color : PreparedFlowPath → ustring * ustring).
  Context (Hstages : NoDup stages) (Hwf : Forall (well_formed stages) prepared) (Hcount : countable_paths metric prepared).
  Context (Hsep : Forall separable_path prepared).

Definition node_events : list (FlowPathNode * PreparedFlowPath) := mjoin (map (fun q => map (fun n => (n, q)) (path q)) prepared).
Definition link_events : list (FlowPathNode * FlowPathNode * PreparedFlowPath) :=
  mjoin (map (fun q => map (fun s => (s, q)) (steps (path q))) prepared).

Definition fresh_node (e : FlowPathNode * PreparedFlowPath) : DashboardFlowNode :=
  mkFlowNode (pn_id e.1) (pn_label e.1) (pn_kind e.1) zero zero zero zero (color e.2).1 (color e.2).2 None None.

Definition fresh_link (e : FlowPathNode * FlowPathNode * PreparedFlowPath) : DashboardFlowLink :=
  mkFlowLink (pn_id e.1.1) (pn_id e.1.2) zero zero zero zero (pn_label e.1.1) (pn_label e.1.2) (color e.2).1 (color e.2).1 one
    (color e.2).1 (color e.2).2 zero None None.

Definition node_map : list (ustring * DashboardFlowNode) :=
  collect (fun e => pn_id e.1) fresh_node (fun e => add_to_node (metrics e.2) metric) node_events [].

Definition link_map : list (ustring * DashboardFlowLink) :=
  collect (fun e => pathLinkKey e.1.1 e.1.2) fresh_link (fun e => add_to_link (metrics e.2) metric) link_events [].

(** The amount of the paths that satisfy a test. *)
Definition total_of (p : PreparedFlowPath → bool) : Z := weigh p (fun q => amount metric (metrics q)) prepared.

Lemma amount_nonneg : Forall (fun q => 0 ≤ amount metric (metrics q))%Z prepared.
Proof. eapply Forall_impl; [exact (proj1 Hcount) | ]. by intros q [H _]. Qed.

Lemma total_of_bound p : (0 ≤ total_of p < exact_limit)%Z.
Proof.
  split; [apply weigh_nonneg, amount_nonneg | ]. eapply Z.le_lt_trans; [ | exact (proj2 Hcount)].
  etransitivity; [apply (weigh_le _ (fun _ => true)); [apply amount_nonneg | done] | ]. unfold weigh. done.
Qed.

(** Events of the paths that pass a node or a step once. *)
Lemma events_total {A K} `{EqDecision K} (part : PreparedFlowPath → list A) (f : A → K) (id : K) :
  Forall (fun q => NoDup (map f (part q))) prepared →
  weigh (fun e : A * PreparedFlowPath => bool_decide (f e.1 = id)) (fun e => amount metric (metrics e.2))
    (mjoin (map (fun q => map (fun x => (x, q)) (part q)) prepared))
  = total_of (fun q => bool_decide (id ∈ map f (part q))).
Proof.
  intros Hd. rewrite weigh_mjoin. unfold total_of, weigh at 2. f_equal. apply map_ext_in. intros q Hq%list_elem_of_In.
  unfold weigh. rewrite map_map. cbn [fst snd]. rewrite Forall_forall in Hd. exact (weigh_once f _ id (part q) (Hd q Hq)).
Qed.

Lemma node_events_elem e : e ∈ node_events → e.2 ∈ prepared ∧ e.1 ∈ path e.2.
Proof.
  unfold node_events. rewrite list_elem_of_join. intros (l & He & (q & -> & Hq)%list_elem_of_fmap).
  by apply list_elem_of_fmap in He as (n & -> & Hn).
Qed.

Lemma link_events_elem e : e ∈ link_events → e.2 ∈ prepared ∧ e.1 ∈ steps (path e.2).
Proof.
  unfold link_events. rewrite list_elem_of_join. intros (l & He & (q & -> & Hq)%list_elem_of_fmap).
  by apply list_elem_of_fmap in He as (n & -> & Hn).
Qed.

Lemma whole_metric q : q ∈ prepared → whole_amount (metricValue (metrics q) metric).
Proof. apply (proj1 (Forall_forall _ _) (proj1 Hcount)). Qed.

Lemma path_wf q : q ∈ prepared → well_formed stages q.
Proof. apply (proj1 (Forall_forall _ _) Hwf). Qed.

Lemma ids_NoDup : Forall (fun q => NoDup (map pn_id (path q))) prepared.
Proof. eapply Forall_impl; [exact Hwf | ]. intros q Hq. by eapply path_ids_NoDup. Qed.

Lemma map_start_value {A} (val : A → number) k : value_at val k ([] : list (ustring * A)) = num_of_Z 0.
Proof. done. Qed.

(** The value of a node is the amount of the paths through it. *)
Lemma node_value id n : (id, n) ∈ node_map → n_value n = num_of_Z (total_of (fun q => bool_decide (id ∈ map pn_id (path q)))).
Proof.
  intros Hin. assert (Hd : NoDup (map fst node_map)) by (apply collect_NoDup; constructor).
  pose proof (events_total path pn_id id ids_NoDup) as Ht. fold node_events in Ht.
  transitivity (value_at n_value id node_map).
  { unfold value_at. by rewrite (map_in_get id n node_map Hd Hin). }
  unfold node_map. rewrite (collect_value _ fresh_node _ (fun e => amount metric (metrics e.2)) n_value (fun _ => eq_refl) id node_events [] 0%Z);
    [by rewrite Ht | | done | done | ].
  - apply Forall_forall. intros e [He _]%node_events_elem. destruct (whole_metric _ He) as [H0 H1]. split; [done | ].
    intros a. unfold amount. by rewrite <- H1.
  - rewrite Ht. apply total_of_bound.
Qed.

Lemma node_entry id n : (id, n) ∈ node_map → n_id n = id ∧ names (n_kind n) id ∧ ∃ q, q ∈ prepared ∧ id ∈ map pn_id (path q).
Proof.
  unfold node_map. apply (collect_entries _ _ _ (fun id n => n_id n = id ∧ names (n_kind n) id ∧ ∃ q, q ∈ prepared ∧ id ∈ map pn_id (path q))).
  - intros e [Hq He]%node_events_elem. split; [done | ]. split.
    + destruct (path_wf _ Hq) as [_ Hn]. exact (proj1 (Forall_forall _ _) Hn _ He).
    + exists e.2. split; [done | ]. apply list_elem_of_fmap. by exists e.1.
  - by intros e k a _ _.
  - by intros k a ?%elem_of_nil.
Qed.

(** *** Either end of the links *)

Lemma link_entry k l : (k, l) ∈ link_map →
  ∃ e, e ∈ link_events ∧ k = pathLinkKey e.1.1 e.1.2 ∧ l_source l = pn_id e.1.1 ∧ l_target l = pn_id e.1.2.
Proof.
  unfold link_map. apply (collect_entries _ _ _ (fun k l => ∃ e, e ∈ link_events ∧ k = pathLinkKey e.1.1 e.1.2 ∧
    l_source l = pn_id e.1.1 ∧ l_target l = pn_id e.1.2)).
  - intros e He. by exists e.
  - intros e k' a _ _ (e' & ? & ? & ? & ?). by exists e'.
  - by intros k' a ?%elem_of_nil.
Qed.

Lemma event_key_inj e e' side : e ∈ link_events → e' ∈ link_events →
  pathLinkKey e.1.1 e.1.2 = pathLinkKey e'.1.1 e'.1.2 → step_end side e.1 = step_end side e'.1.
Proof.
  assert (Hs : ∀ e, e ∈ link_events → separable (pn_id e.1.1)).
  { intros e0 [Hq [He _]%steps_elem]%link_events_elem. pose proof (proj1 (Forall_forall _ _) Hsep _ Hq) as Hn.
    exact (proj1 (Forall_forall _ _) Hn _ He). }
  intros He He' [H1 H2]%separated_inj; [ | by apply Hs..]. unfold step_end. by destruct side.
Qed.

Lemma steps_ends_NoDup side : Forall (fun q => NoDup (map (step_end side) (steps (path q)))) prepared.
Proof.
  eapply Forall_impl; [exact ids_NoDup | ]. intros q Hq. cbn beta in *. unfold step_end. destruct side.
  - rewrite <- (map_map fst pn_id), steps_sources. destruct (path q) as [|n p] eqn:E; [constructor | ].
    rewrite (app_removelast_last n) in Hq by done. rewrite map_app in Hq. by apply NoDup_app in Hq as [? _].
  - rewrite <- (map_map snd pn_id), steps_targets. destruct (path q); [constructor | ]. by apply NoDup_cons in Hq as [_ ?].
Qed.

Lemma link_value k l : (k, l) ∈ link_map →
  l_value l = num_of_Z (weigh (fun e => bool_decide (pathLinkKey e.1.1 e.1.2 = k)) (fun e => amount metric (metrics e.2)) link_events).
Proof.
  intros Hin. assert (Hd : NoDup (map fst link_map)) by (apply collect_NoDup; constructor).
  transitivity (value_at l_value k link_map).
  { unfold value_at. by rewrite (map_in_get k l link_map Hd Hin). }
  assert (Hw : Forall (fun e => 0 ≤ amount metric (metrics e.2))%Z link_events).
  { apply Forall_forall. intros e [Hq _]%link_events_elem. by destruct (whole_metric _ Hq). }
  unfold link_map. rewrite (collect_value _ fresh_link _ (fun e => amount metric (metrics e.2)) l_value (fun _ => eq_refl) k link_events [] 0%Z);
    [done | | done | done | ].
  - apply Forall_forall. intros e [He _]%link_events_elem. destruct (whole_metric _ He) as [H0 H1]. split; [done | ].
    intros a. unfold amount. by rewrite <- H1.
  - destruct (link_entry k l Hin) as (e0 & He0 & -> & _).
    eapply Z.le_lt_trans; [ | apply (total_of_bound (fun q => bool_decide (step_end true e0.1 ∈ map (step_end true) (steps (path q)))))].
    rewrite <- (events_total (fun q => steps (path q)) _ _ (steps_ends_NoDup true)). apply weigh_le; [done | ].
    intros e He Hk. bools. apply bool_decide_true. by apply event_key_inj.
Qed.

Lemma link_map_keys k : k ∈ map fst link_map ↔ ∃ e, e ∈ link_events ∧ pathLinkKey e.1.1 e.1.2 = k.
Proof. unfold link_map. rewrite collect_keys. cbn [map]. rewrite elem_of_nil. naive_solver. Qed.

(** The values of the links with an end at a node are whole, and add up to the amount of the paths that have a step there. *)
Lemma side_sum side id : ∃ zs,
  map (fun e => l_value e.2) (filter (fun e => link_end side e.2 = id) link_map) = map num_of_Z zs ∧
  Forall (fun z => 0 ≤ z)%Z zs ∧
  sum_Z zs = total_of (fun q => bool_decide (id ∈ map (step_end side) (steps (path q)))).
Proof.
  set (w := fun e : FlowPathNode * FlowPathNode * PreparedFlowPath => amount metric (metrics e.2)).
  set (kept := filter (fun e => link_end side e.2 = id) link_map).
  exists (map (fun k => weigh (fun e => bool_decide (pathLinkKey e.1.1 e.1.2 = k)) w link_events) (map fst kept)).
  assert (Hw : Forall (fun e => 0 ≤ w e)%Z link_events).
  { apply Forall_forall. intros e [Hq _]%link_events_elem. by destruct (whole_metric _ Hq). }
  assert (Hkept : ∀ k l, (k, l) ∈ kept → link_end side l = id ∧ (k, l) ∈ link_map) by (intros k l; unfold kept; by rewrite list_elem_of_filter).
  split; [ | split].
  - rewrite !map_map. apply map_ext_in. intros [k l] [_ H]%list_elem_of_In%Hkept. by apply link_value.
  - apply Forall_map, Forall_true. intros k. by apply weigh_nonneg.
  - rewrite weigh_classes.
    + rewrite <- (events_total (fun q => steps (path q)) _ _ (steps_ends_NoDup side)). apply weigh_ext. intros e He.
      apply bool_decide_ext. split.
      * intros ([k l] & Hk & [Hend Hl]%Hkept)%list_elem_of_fmap. cbn [fst] in Hk. subst k.
        destruct (link_entry _ _ Hl) as (e' & He' & Hkey & Hs & Ht). rewrite <- Hend.
        rewrite (event_key_inj e e' side He He' Hkey). unfold link_end, step_end. by destruct side.
      * intros Hend. assert (Hin : pathLinkKey e.1.1 e.1.2 ∈ map fst link_map) by (apply link_map_keys; by exists e).
        apply list_elem_of_fmap in Hin as ([k l] & Hk & Hl). apply list_elem_of_fmap. exists (k, l). split; [done | ].
        unfold kept. apply list_elem_of_filter. split; [ | done]. cbn [fst snd] in *. subst k.
        destruct (link_entry _ _ Hl) as (e' & He' & Hkey & Hs & Ht). rewrite <- Hend.
        rewrite (event_key_inj e e' side He He' Hkey). unfold link_end, step_end. by destruct side.
    + unfold kept. apply (sublist_NoDup _ (map fst link_map)); [apply collect_NoDup; constructor | apply (fmap_sublist fst), sublist_filter].
Qed.

(** The values of the nodes of a column add up to the amount of all paths. *)
Lemma column_sum k : k ∈ stages → ∃ zs,
  map (fun e => n_value e.2) (filter (fun e => n_kind e.2 = k) node_map) = map num_of_Z zs ∧
  Forall (fun z => 0 ≤ z)%Z zs ∧ sum_Z zs = total_of (fun _ => true).
Proof.
  intros Hk. set (kept := filter (fun e => n_kind e.2 = k) node_map).
  exists (map (fun id => total_of (fun q => bool_decide (id ∈ map pn_id (path q)))) (map fst kept)). split; [ | split].
  - rewrite !map_map. apply map_ext_in. intros [id n] H%list_elem_of_In. apply list_elem_of_filter in H as [_ H]. by apply node_value.
  - apply Forall_map, Forall_true. intros id. apply total_of_bound.
  - erewrite map_ext; [ | intros id; symmetry; apply (events_total path pn_id id ids_NoDup)]. fold node_events. rewrite weigh_classes.
    + rewrite (weigh_ext _ (fun e => bool_decide (pn_kind e.1 = k))).
      * assert (Hd : Forall (fun q => NoDup (map pn_kind (path q))) prepared).
        { eapply Forall_impl; [exact Hwf | ]. by intros q [-> _]. }
        unfold node_events. rewrite (events_total path pn_kind k Hd). apply weigh_ext. intros q [-> _]%path_wf. by apply bool_decide_true.
      * intros e He. apply bool_decide_ext. split.
        -- intros ([id n] & Hid & H)%list_elem_of_fmap. apply list_elem_of_filter in H as [Hn H]. cbn [fst snd] in *. subst id k.
           destruct (node_entry _ _ H) as (_ & Hnames & _). apply node_events_elem in He as [Hq He].
           destruct (path_wf _ Hq) as [_ Hp]. eapply names_inj; [exact (proj1 (Forall_forall _ _) Hp _ He) | done].
        -- intros <-. assert (Hin : pn_id e.1 ∈ map fst node_map).
           { unfold node_map. apply collect_keys. right. by exists e. }
           apply list_elem_of_fmap in Hin as ([id n] & Hid & H). apply list_elem_of_fmap. exists (id, n). split; [done | ].
           apply list_elem_of_filter. split; [ | done]. cbn [fst snd] in *. subst id.
           destruct (node_entry _ _ H) as (_ & Hnames & _). apply node_events_elem in He as [Hq He].
           destruct (path_wf _ Hq) as [_ Hp]. eapply names_inj; [done | exact (proj1 (Forall_forall _ _) Hp _ He)].
    + apply (sublist_NoDup _ (map fst node_map)); [apply collect_NoDup; constructor | apply (fmap_sublist fst), sublist_filter].
Qed.
End values.
