(* ===== verification/DashboardFlowProperties.v ===== *)
(** * Properties of the flow graph

    What flows into a node flows out of it, every column adds up to the summary, labels that
    must not be shown are masked, and a limit on the nodes of a column is kept. *)

From Stdlib Require Import Lia.
From stdpp Require Import base numbers strings option sets list.
From S2P Require Import Prelude JsNumber ArraySort NumberText NumberExact Accumulate DashboardFlow DashboardFlowPaths.

(** What the values of the graph depend on. *)
Definition node_view (n : DashboardFlowNode) : ustring * FlowNodeKind * number := (n_id n, n_kind n, n_value n).
Definition link_view (l : DashboardFlowLink) : ustring * ustring * number := (l_source l, l_target l, l_value l).

Section graph.
  Context (localeCompare : ustring → ustring → Z) (scheme : list (option nat * list (option ustring))).
  Context (rows : list FlowQuotaDataItem) (metric : FlowMetric) (role : FlowRole) (palette : option (list ustring)).
  Context (visibleStages : option (list FlowNodeKind)) (ctx : FlowPathContext) (options : FlowGraphOptions).

Definition stages_of : list FlowNodeKind := resolveVisibleStages role visibleStages.

Definition paths_of : list PreparedFlowPath :=
  prepare_paths rows stages_of
    (buildTopNodeSets localeCompare rows metric stages_of (normalizeTopNodeLimit (topNodeLimit options)) ctx) options ctx.

Definition colors_of : list (ustring * ustring) :=
  stableColorMap scheme (sort_cmp localeCompare (root_ids paths_of)) palette.

(** The color and the color key of a path. *)
Definition color_of (q : PreparedFlowPath) : ustring * ustring :=
  let root := default [] (pn_id <$> head (path q)) in (default (colorAt scheme 0 palette) (map_get root colors_of), root).

Definition the_graph : DashboardFlowGraph :=
  buildFlowGraph localeCompare scheme rows metric role palette visibleStages ctx options.

(** The second loop collects the nodes and the links. *)
Lemma add_paths :
  fold_left (add_path scheme metric colors_of palette) paths_of ([], []) = (node_map metric paths_of color_of, link_map metric paths_of color_of).
Proof.
  unfold node_map, link_map, collect, node_events, link_events. rewrite <- !fold_left_mjoin.
  generalize ([] : list (ustring * DashboardFlowNode)) ([] : list (ustring * DashboardFlowLink)).
  induction paths_of as [|q qs IH]; intros ns ls; [done | ]. cbn [fold_left]. rewrite <- IH. f_equal.
  unfold add_path, color_of. destruct (path q) as [|n p] eqn:E; [done | ]. cbn [head].
  rewrite !fold_left_map. unfold fresh_node, fresh_link. cbn [fst snd]. by rewrite E.
Qed.

(** The nodes and the links before they are highlighted. *)
Definition masked_maps : list (ustring * DashboardFlowNode) * list (ustring * DashboardFlowLink) :=
  let ns := node_map metric paths_of color_of in
  let ls := link_map metric paths_of color_of in
  if maskSensitive options then maskFlowGraphLabels ns ls else (ns, ls).

(** What later steps do not change of a node is what it was. *)
Lemma graph_nodes_perm {B} (f : DashboardFlowNode → B) :
  (∀ ns n, f (highlight_node ns n) = f n) → map f (graph_nodes the_graph) ≡ₚ map f (map snd masked_maps.1).
Proof.
  intros Hf. unfold the_graph, buildFlowGraph. fold stages_of paths_of colors_of. rewrite add_paths. cbv zeta. cbn [fst snd].
  fold masked_maps. cbn [graph_nodes]. rewrite sort_cmp_perm. unfold applyFlowHighlights.
  destruct (buildFlowHighlightSets _ _ _ _) as [[a b]|]; [ | done]. cbn [fst snd]. rewrite !map_map. cbn [fst snd].
  erewrite map_ext; [done | ]. intros e. apply Hf.
Qed.

Lemma graph_links_perm {B} (f : DashboardFlowLink → B) :
  (∀ ls l, f (highlight_link ls l) = f l) → (∀ t l, f (set_share t l) = f l) → (∀ l a, f (set_display l a) = f l) →
  map f (graph_links the_graph) ≡ₚ map f (map snd masked_maps.2).
Proof.
  intros Hf Hs Hd. unfold the_graph, buildFlowGraph. fold stages_of paths_of colors_of. rewrite add_paths. cbv zeta. cbn [fst snd].
  fold masked_maps. cbn [graph_links]. unfold assignLinkDisplayColors. rewrite map_map.
  erewrite map_ext by (intros l; apply Hd). rewrite map_map. erewrite map_ext by (intros l; apply Hs).
  rewrite sort_cmp_perm. unfold applyFlowHighlights.
  destruct (buildFlowHighlightSets _ _ _ _) as [[a b]|]; [ | done]. cbn [fst snd]. rewrite !map_map. cbn [fst snd].
  erewrite map_ext; [done | ]. intros e. apply Hf.
Qed.

Lemma masked_views :
  map node_view (map snd masked_maps.1) = map node_view (map snd (node_map metric paths_of color_of)) ∧
  map link_view (map snd masked_maps.2) = map link_view (map snd (link_map metric paths_of color_of)).
Proof.
  unfold masked_maps. destruct (maskSensitive options); [ | done]. unfold maskFlowGraphLabels. cbn [fst snd]. rewrite !map_map.
  split; apply map_ext; intros e; [by destruct (is_masked e.2) | done].
Qed.

(** The graph has the collected nodes and links. *)
Lemma graph_views :
  map node_view (graph_nodes the_graph) ≡ₚ map node_view (map snd (node_map metric paths_of color_of)) ∧
  map link_view (graph_links the_graph) ≡ₚ map link_view (map snd (link_map metric paths_of color_of)).
Proof.
  destruct masked_views as [<- <-]. split; [by apply graph_nodes_perm | by apply graph_links_perm].
Qed.

(** ** Sums over the graph *)

Lemma links_by_view side id ls :
  map l_value (filter (fun l => link_end side l = id) ls)
  = map snd (filter (fun v => (if side : bool then v.1.1 else v.1.2) = id) (map link_view ls)).
Proof.
  induction ls as [|l ls IH]; [done | ]. cbn [map]. rewrite !filter_cons. unfold link_end in *. cbn [link_view fst snd].
  destruct side; case_decide; cbn [map]; by rewrite IH.
Qed.

Lemma nodes_by_view k ns :
  map n_value (filter (fun n => n_kind n = k) ns) = map snd (filter (fun v => v.1.2 = k) (map node_view ns)).
Proof.
  induction ns as [|n ns IH]; [done | ]. cbn [map]. rewrite !filter_cons. cbn [node_view fst snd]. case_decide; cbn [map]; by rewrite IH.
Qed.

Lemma snd_filter {A B} (P : B → Prop) `{∀ b, Decision (P b)} (f : B → number) (l : list (A * B)) :
  map f (filter P (map snd l)) = map (fun e => f e.2) (filter (fun e => P e.2) l).
Proof. induction l as [|e l IH]; [done | ]. cbn [map]. rewrite !filter_cons. case_decide; cbn [map]; by rewrite IH. Qed.

Lemma paths_wf : Forall (well_formed stages_of) paths_of.
Proof. apply prepare_well_formed. Qed.

Lemma side_flow side id :
  countable_rows metric rows → Forall (separable_row ctx) rows →
  num_sum (map l_value (filter (fun l => link_end side l = id) (graph_links the_graph)))
  = num_of_Z (total_of metric paths_of (fun q => bool_decide (id ∈ map (step_end side) (steps (path q))))).
Proof.
  intros Hc Hs. pose proof (prepare_countable metric rows stages_of _ options ctx Hc : countable_paths metric paths_of) as Hcount.
  destruct (side_sum metric paths_of stages_of color_of (stages_NoDup _ _) paths_wf Hcount (prepare_separable _ _ _ _ _ Hs) side id)
    as (zs & Hzs & Hz & Hsum).
  rewrite <- Hsum. apply num_sum_perm; [ | done | rewrite Hsum; by apply total_of_bound].
  rewrite <- Hzs, links_by_view, (proj2 graph_views), <- links_by_view. by rewrite (snd_filter (fun l => link_end side l = id)).
Qed.

(** What flows through a node is what its links carry, on either side that has links. *)
Lemma node_flow side n :
  countable_rows metric rows → Forall (separable_row ctx) rows → n ∈ graph_nodes the_graph →
  (if side : bool then last stages_of else head stages_of) ≠ Some (n_kind n) →
  n_value n = num_sum (map l_value (filter (fun l => link_end side l = n_id n) (graph_links the_graph))).
Proof.
  intros Hc Hs Hn Hside. rewrite side_flow by done.
  assert (Hview : node_view n ∈ map node_view (map snd (node_map metric paths_of color_of))).
  { rewrite <- (proj1 graph_views). apply list_elem_of_fmap. by exists n. }
  apply list_elem_of_fmap in Hview as (n' & [= Hid Hk Hv] & ([id n0] & -> & Hin)%list_elem_of_fmap). cbn [snd] in *.
  destruct (node_entry _ _ _ _ paths_wf _ _ Hin) as (Hid' & Hnames & _).
  rewrite Hv, (node_value metric paths_of stages_of color_of (stages_NoDup _ _) paths_wf (prepare_countable _ _ _ _ _ _ Hc) id n0 Hin).
  f_equal. unfold total_of. apply weigh_ext. intros q Hq. apply bool_decide_ext. rewrite Hid, Hid'. symmetry.
  apply (step_end_ids side stages_of (n_kind n0)); [exact (proj1 (Forall_forall _ _) paths_wf q Hq) | done | by rewrite <- Hk].
Qed.
(** ** Columns *)

(** A path is made of every row when rows are not hidden. *)
Lemma aggregated_metrics : overflowMode options ≠ Some OHide → map metrics paths_of = map rowMetrics rows.
Proof.
  intros Hm. unfold paths_of, prepare_paths. assert (default OAggregate (overflowMode options) = OAggregate) as ->.
  { by destruct (overflowMode options) as [[|]|]. }
  set (sets := buildTopNodeSets _ _ _ _ _ _). clearbody sets.
  assert (Hkept : ∀ row, ∃ p, applyTopNodeLimit (flowPathForStages row stages_of ctx) sets OAggregate (otherNodeLabel options) = Some p).
  { intros row. unfold applyTopNodeLimit. destruct sets as [sets|]; [destruct (forallb _ _) | ]; by eexists. }
  induction rows as [|row rs IH]; [done | ]. cbn [omap list_omap map]. destruct (Hkept row) as [p ->].
  cbn [fmap option_fmap option_map map metrics]. f_equal. exact IH.
Qed.

Lemma column_total k :
  countable_rows metric rows → overflowMode options ≠ Some OHide → k ∈ stages_of →
  num_sum (map n_value (filter (fun n => n_kind n = k) (graph_nodes the_graph)))
  = num_of_Z (sum_Z (map (fun row => amount metric (rowMetrics row)) rows)).
Proof.
  intros Hc Hm Hk. pose proof (prepare_countable metric rows stages_of _ options ctx Hc : countable_paths metric paths_of) as Hcount.
  destruct (column_sum metric paths_of stages_of color_of (stages_NoDup _ _) paths_wf Hcount k Hk) as (zs & Hzs & Hz & Hsum).
  assert (Htotal : total_of metric paths_of (fun _ => true) = sum_Z (map (fun row => amount metric (rowMetrics row)) rows)).
  { unfold total_of, weigh. by rewrite <- (map_map metrics (amount metric)), aggregated_metrics, map_map by done. }
  rewrite <- Htotal, <- Hsum. apply num_sum_perm; [ | done | rewrite Hsum; by apply total_of_bound].
  rewrite <- Hzs, nodes_by_view, (proj1 graph_views), <- nodes_by_view. by rewrite (snd_filter (fun n => n_kind n = k)).
Qed.

(** ** Labels *)

Definition node_text (n : DashboardFlowNode) : ustring * FlowNodeKind * ustring := (n_id n, n_kind n, n_label n).
Definition link_text (l : DashboardFlowLink) : ustring * ustring * ustring * ustring :=
  (l_source l, l_target l, l_sourceLabel l, l_targetLabel l).

Lemma graph_node_text n : n ∈ graph_nodes the_graph → ∃ e, e ∈ masked_maps.1 ∧ node_text n = node_text e.2.
Proof.
  intros Hn. assert (H : node_text n ∈ map node_text (map snd masked_maps.1)).
  { rewrite <- (graph_nodes_perm node_text) by done. apply list_elem_of_fmap. by exists n. }
  apply list_elem_of_fmap in H as (n' & Hn' & (e & -> & He)%list_elem_of_fmap). by exists e.
Qed.

Lemma graph_link_text l : l ∈ graph_links the_graph → ∃ e, e ∈ masked_maps.2 ∧ link_text l = link_text e.2.
Proof.
  intros Hl. assert (H : link_text l ∈ map link_text (map snd masked_maps.2)).
  { rewrite <- (graph_links_perm link_text) by done. apply list_elem_of_fmap. by exists l. }
  apply list_elem_of_fmap in H as (l' & Hl' & (e & -> & He)%list_elem_of_fmap). by exists e.
Qed.

(** A text that tells nothing. *)
Definition hidden (label : ustring) : Prop := label = [] ∨ label = FLOW_MASK_TEXT.

Lemma maskFlowLabel_hidden label : hidden (maskFlowLabel label).
Proof. unfold hidden, maskFlowLabel. destruct label; auto. Qed.

Lemma is_masked_view n n' : n_id n = n_id n' → n_kind n = n_kind n' → is_masked n = is_masked n'.
Proof. unfold is_masked. by intros -> ->. Qed.

Lemma masked_node n : maskSensitive options = true → n ∈ graph_nodes the_graph → is_masked n = true → hidden (n_label n).
Proof.
  intros Hm Hn Hs. destruct (graph_node_text n Hn) as (e & He & [= Hid Hk Hl]). rewrite Hl.
  unfold masked_maps in He. rewrite Hm in He. unfold maskFlowGraphLabels in He. cbn [fst] in He.
  apply list_elem_of_fmap in He as (e' & -> & He'). rewrite (is_masked_view n (snd (if is_masked e'.2 then _ else e'))) in Hs by done.
  destruct (is_masked e'.2) eqn:E; [apply maskFlowLabel_hidden | ]. by rewrite E in Hs.
Qed.

(** The masked label of a node is found under its name. *)
Lemma maskedById_get ns e : e ∈ ns → is_masked e.2 = true → ∃ m, map_get (n_id e.2) (maskedById ns) = Some m ∧ hidden m.
Proof.
  intros He Hm. destruct (map_get (n_id e.2) (maskedById ns)) as [m|] eqn:E.
  - exists m. split; [done | ]. apply map_get_in in E. unfold maskedById in E. apply list_elem_of_omap in E as (e' & _ & H).
    destruct (is_masked e'.2); [ | done]. injection H as _ <-. apply maskFlowLabel_hidden.
  - exfalso. apply map_get_None in E. apply E, list_elem_of_fmap. exists (n_id e.2, maskFlowLabel (n_label e.2)). split; [done | ].
    unfold maskedById. apply list_elem_of_omap. exists e. by rewrite Hm.
Qed.

Lemma masked_link l n :
  maskSensitive options = true → l ∈ graph_links the_graph → n ∈ graph_nodes the_graph → is_masked n = true →
  (l_source l = n_id n → hidden (l_sourceLabel l)) ∧ (l_target l = n_id n → hidden (l_targetLabel l)).
Proof.
  intros Hm Hl Hn Hs. assert (Hv : node_view n ∈ map node_view (map snd (node_map metric paths_of color_of))).
  { rewrite <- (proj1 graph_views). apply list_elem_of_fmap. by exists n. }
  apply list_elem_of_fmap in Hv as (n' & [= Hid Hk _] & (e & -> & He)%list_elem_of_fmap). rewrite (is_masked_view n e.2) in Hs by done.
  destruct (maskedById_get _ _ He Hs) as (m & Hget & Hh). rewrite <- Hid in Hget.
  destruct (graph_link_text l Hl) as (x & Hx & [= H1 H2 H3 H4]). unfold masked_maps in Hx. rewrite Hm in Hx.
  unfold maskFlowGraphLabels in Hx. cbn [snd] in Hx. apply list_elem_of_fmap in Hx as (x' & -> & _). cbn in H1, H2, H3, H4.
  split; intros Hend; [rewrite H3, <- H1, Hend, Hget | rewrite H4, <- H2, Hend, Hget]; exact Hh.
Qed.

(** Nodes are of shown kinds, and links join nodes. *)
Lemma node_kind_shown n : n ∈ graph_nodes the_graph → n_kind n ∈ stages_of.
Proof.
  intros Hn. assert (Hv : node_view n ∈ map node_view (map snd (node_map metric paths_of color_of))).
  { rewrite <- (proj1 graph_views). apply list_elem_of_fmap. by exists n. }
  apply list_elem_of_fmap in Hv as (n' & [= _ Hk _] & ([id n0] & -> & He)%list_elem_of_fmap). cbn [snd] in *. rewrite Hk.
  destruct (node_entry _ _ _ _ paths_wf _ _ He) as (_ & Hnames & q & Hq & (p & -> & Hp)%list_elem_of_fmap).
  destruct (proj1 (Forall_forall _ _) paths_wf q Hq) as [<- Hall]. apply list_elem_of_fmap. exists p. split; [ | done].
  eapply names_inj; [done | exact (proj1 (Forall_forall _ _) Hall p Hp)].
Qed.

Lemma node_of_path q p : q ∈ paths_of → p ∈ path q → ∃ n, n ∈ graph_nodes the_graph ∧ n_id n = pn_id p.
Proof.
  intros Hq Hp. assert (Hkey : pn_id p ∈ map fst (node_map metric paths_of color_of)).
  { unfold node_map. apply collect_keys. right. exists (p, q). split; [ | done]. unfold node_events.
    apply list_elem_of_join. exists (map (fun n => (n, q)) (path q)). split; apply list_elem_of_fmap; by eexists. }
  apply list_elem_of_fmap in Hkey as ([id n] & Hid & Hin). cbn [fst] in Hid. subst id.
  destruct (node_entry _ _ _ _ paths_wf _ _ Hin) as (Hid & _).
  assert (Hv : node_view n ∈ map node_view (graph_nodes the_graph)).
  { rewrite (proj1 graph_views). apply list_elem_of_fmap. exists n. split; [done | ]. apply list_elem_of_fmap. by exists (pn_id p, n). }
  apply list_elem_of_fmap in Hv as (n' & [= H _ _] & Hn'). exists n'. split; [done | congruence].
Qed.

Lemma link_joins_nodes l : l ∈ graph_links the_graph → ∃ n n',
  n ∈ graph_nodes the_graph ∧ n' ∈ graph_nodes the_graph ∧ l_source l = n_id n ∧ l_target l = n_id n'.
Proof.
  intros Hl. assert (Hv : link_view l ∈ map link_view (map snd (link_map metric paths_of color_of))).
  { rewrite <- (proj2 graph_views). apply list_elem_of_fmap. by exists l. }
  apply list_elem_of_fmap in Hv as (l' & [= Hs Ht _] & ([k l0] & -> & Hin)%list_elem_of_fmap). cbn [snd] in *.
  destruct (link_entry _ _ _ _ _ Hin) as (e & He & _ & Hs' & Ht'). apply link_events_elem in He as [Hq [H1 H2]%steps_elem].
  destruct (node_of_path _ _ Hq H1) as (n & Hn & Hid), (node_of_path _ _ Hq H2) as (n' & Hn' & Hid').
  exists n, n'. split_and!; congruence.
Qed.

(** ** Limits *)

(** A node of a limited path is one of the kept nodes of its column, or stands for the others. *)
Lemma limited_node p sets mode labeler p' n :
  applyTopNodeLimit p (Some sets) mode labeler = Some p' → n ∈ p' →
  isTopFlowNode n (Some sets) = true ∨ mode = OAggregate ∧ pn_id n = OTHER_FLOW_NODE_IDS (pn_kind n).
Proof.
  unfold applyTopNodeLimit. destruct (forallb _ p) eqn:E.
  - intros [= <-] Hn. left. rewrite forallb_forall in E. apply E. by apply list_elem_of_In.
  - destruct mode; [ | done]. intros [= <-] (n' & -> & _)%list_elem_of_fmap. destruct (isTopFlowNode n' (Some sets)) eqn:E'; [by left | by right].
Qed.

Lemma map_update_keeps {K A} `{EqDecision K} k k' fresh f (l : list (K * A)) :
  k ∈ map fst l → k ∈ map fst (map_update k' fresh f l).
Proof. intros H. rewrite map_update_keys. destruct (bool_decide _); set_solver. Qed.

Lemma fold_left_keeps {A B} (P : A → Prop) (f : A → B → A) l a : (∀ a b, P a → P (f a b)) → P a → P (fold_left f l a).
Proof. intros Hf. revert a. induction l as [|b l IH]; intros a Ha; [done | ]. apply IH, Hf, Ha. Qed.

Lemma stage_totals_keys k stages : k ∈ stages → k ∈ map fst (stage_totals rows metric stages ctx).
Proof.
  intros Hk. unfold stage_totals. apply fold_left_keeps.
  - intros totals row Ht. cbv zeta. apply (fold_left_keeps (fun t => k ∈ map fst t)); [ | done]. intros t n Ht'.
    destruct (map_get (pn_kind n) t); [by apply map_update_keeps | done].
  - assert (H : ∀ m : list (FlowNodeKind * list (ustring * FlowNodeRank)),
      k ∈ map fst m ∨ k ∈ stages → k ∈ map fst (fold_left (fun t stage => map_update stage [] (fun _ => []) t) stages m)); [ | apply H; by right].
    clear Hk. induction stages as [|s stages IH]; intros m [Hm|Hm]; cbn [fold_left]; [done | by apply elem_of_nil in Hm | | ].
    + apply IH. left. by apply map_update_keeps.
    + apply elem_of_cons in Hm as [->|Hm]; apply IH; [left | by right]. rewrite map_update_keys. destruct (bool_decide _) eqn:E; bools; set_solver.
Qed.

Lemma positive_truthy limit : num_ltb zero limit = true → num_eqb limit zero || is_nan limit = false.
Proof. by destruct limit as [[|]|[|]| |[|] m e]. Qed.

Lemma normalized_positive limit n : normalizeTopNodeLimit limit = Some n → num_ltb zero n = true.
Proof.
  unfold normalizeTopNodeLimit. destruct limit as [limit|]; [ | done]. cbv zeta. destruct (is_finite _ && _) eqn:E; [ | done].
  intros [= <-]. by apply andb_true_iff in E as [_ ?].
Qed.

(** The kept nodes of a column are at most as many as the limit. *)
Lemma top_sets_bound limit k stages :
  num_ltb zero limit = true → k ∈ stages → ∃ sets ids, buildTopNodeSets localeCompare rows metric stages (Some limit) ctx = Some sets ∧
    map_get k sets = Some ids ∧ length ids ≤ Z.to_nat (num_to_Z limit).
Proof.
  intros Hpos Hk. unfold buildTopNodeSets. rewrite positive_truthy by done. eexists. pose proof (stage_totals_keys k stages Hk) as Hin.
  destruct (map_get k (stage_totals rows metric stages ctx)) as [t|] eqn:E; [ | by apply map_get_None in E].
  exists (map (fun r => pn_id (rank_node r)) (slice_number limit (sort_cmp (by_rank localeCompare) (map snd t)))). split; [done | ]. split.
  - clear Hin. induction (stage_totals rows metric stages ctx) as [|[k' t'] l IH]; [done | ]. cbn in *. destruct (bool_decide (k' = k)).
    + by injection E as ->.
    + by apply IH.
  - rewrite length_map. unfold slice_number. rewrite length_take. lia.
Qed.

Lemma graph_ids_NoDup : NoDup (map n_id (graph_nodes the_graph)).
Proof.
  rewrite <- (map_map node_view (fun v => v.1.1)), (proj1 graph_views), !map_map.
  erewrite map_ext_in; [apply (collect_NoDup (fun e => pn_id e.1)); constructor | ].
  intros [id n] Hin%list_elem_of_In. by destruct (node_entry _ _ _ _ paths_wf _ _ Hin) as (Hid & _).
Qed.

(** The nodes a column can have. *)
Lemma column_ids limit k :
  normalizeTopNodeLimit (topNodeLimit options) = Some limit → k ∈ stages_of →
  ∃ ids, length ids ≤ Z.to_nat (num_to_Z limit) ∧ ∀ n, n ∈ graph_nodes the_graph → n_kind n = k →
    n_id n ∈ ids ∨ default OAggregate (overflowMode options) = OAggregate ∧ n_id n = OTHER_FLOW_NODE_IDS k.
Proof.
  intros Hlimit Hk. destruct (top_sets_bound limit k stages_of (normalized_positive _ _ Hlimit) Hk) as (sets & ids & Hsets & Hids & Hlen). exists ids. split; [done | ].
  intros n Hn Hnk. assert (Hv : node_view n ∈ map node_view (map snd (node_map metric paths_of color_of))).
  { rewrite <- (proj1 graph_views). apply list_elem_of_fmap. by exists n. }
  apply list_elem_of_fmap in Hv as (n' & [= Hid Hk' _] & ([id n0] & -> & He)%list_elem_of_fmap). cbn [snd] in *.
  destruct (node_entry _ _ _ _ paths_wf _ _ He) as (Hid0 & Hnames & q & Hq & (p & Hp & Hin)%list_elem_of_fmap).
  assert (Hpk : pn_kind p = k).
  { destruct (proj1 (Forall_forall _ _) paths_wf q Hq) as [_ Hall]. rewrite <- Hnk, Hk'.
    eapply names_inj; [exact (proj1 (Forall_forall _ _) Hall p Hin) | by rewrite <- Hp]. }
  unfold paths_of in Hq. rewrite Hlimit, Hsets in Hq. destruct (prepare_paths_elem _ _ _ _ _ _ Hq) as (row & _ & _ & Hlim).
  assert (n_id n = pn_id p) as -> by congruence. destruct (limited_node _ _ _ _ _ _ Hlim Hin) as [Htop|[Hmode Hother]].
  - left. unfold isTopFlowNode in Htop. cbn in Htop. rewrite Hpk, Hids in Htop. by bools.
  - right. by rewrite <- Hpk at 1.
Qed.
End graph.

(** The metric of a summary. *)
Definition summary_value (s : FlowSummary) : FlowMetric → number :=
  metricValue (mkMetrics (summary_quota s) (summary_tokens s) (summary_requests s)).

Lemma buildSummary_value rows metric :
  countable_rows metric rows →
  summary_value (buildSummary rows) metric = num_of_Z (sum_Z (map (fun row => amount metric (rowMetrics row)) rows)).
Proof.
  intros [Hw Hs]. transitivity (num_sum (map (fun row => metricValue (rowMetrics row) metric) rows)).
  - unfold num_sum, buildSummary. rewrite fold_left_map. assert (Hstart : zero = summary_value (mkSummary zero zero zero) metric) by (by destruct metric).
    rewrite Hstart at 4. clear Hstart. generalize (mkSummary zero zero zero). clear. induction rows as [|row rows IH]; intros s; [done | ].
    cbn [fold_left]. rewrite IH. f_equal. by destruct metric.
  - erewrite <- num_sum_whole; [ | | done].
    + rewrite map_map. f_equal. apply map_ext_in. intros row Hrow%list_elem_of_In.
      by destruct (proj1 (Forall_forall _ _) Hw _ Hrow).
    + apply Forall_map. eapply Forall_impl; [exact Hw | ]. by intros row [H _].
Qed.

(** C33: what flows into a node flows out of it.  When the amounts of the rows are counts with a
    total below 2^53 and no name contains the separator of link keys, the value of every node of
    the graph is the sum of the values of the links that end at it, unless it is in the first
    column, and of those that start at it, unless it is in the last one; whatever the limit on
    the nodes of a column, the overflow mode, the highlights and the masking are. *)
Theorem flow_is_conserved localeCompare scheme rows metric role palette visibleStages ctx options n :
  let flow := buildFlowGraph localeCompare scheme rows metric role palette visibleStages ctx options in
  let stages := resolveVisibleStages role visibleStages in
  countable_rows metric rows → Forall (separable_row ctx) rows → n ∈ graph_nodes flow →
  (head stages ≠ Some (n_kind n) →
     n_value n = num_sum (map l_value (filter (fun l => l_target l = n_id n) (graph_links flow)))) ∧
  (last stages ≠ Some (n_kind n) →
     n_value n = num_sum (map l_value (filter (fun l => l_source l = n_id n) (graph_links flow)))).
Proof.
  intros flow stages Hc Hs Hn. split; intros Hside.
  - by apply (node_flow localeCompare scheme rows metric role palette visibleStages ctx options false n).
  - by apply (node_flow localeCompare scheme rows metric role palette visibleStages ctx options true n).
Qed.

(** every column of the graph adds up to the summary.  Unless rows that exceed the limit are
    hidden, the values of the nodes of each shown kind add up to the total of the chosen metric
    in the summary, when the amounts of the shown rows are counts with a total below 2^53. *)
Theorem columns_add_up localeCompare scheme formatNumber rows metric options k :
  let data := buildDashboardFlowData localeCompare scheme formatNumber rows metric options in
  countable_rows metric (shown_rows rows options) → overflowMode (graph_options options) ≠ Some OHide →
  k ∈ resolveVisibleStages (default FUser (build_role options)) (build_visibleStages options) →
  num_sum (map n_value (filter (fun n => n_kind n = k) (graph_nodes (flow_graph data)))) = summary_value (summary data) metric.
Proof.
  intros data Hc Hm Hk. cbn [data summary flow_graph buildDashboardFlowData]. rewrite buildSummary_value by done.
  by apply (column_total localeCompare scheme (shown_rows rows options) metric).
Qed.

(** masking hides every name that can identify somebody.  With masking on, a node of a sensitive kind has no
    label, or the mask, and the same holds for the label of every link end that is such a node; every link joins
    nodes of the graph, so no label escapes.  Only kinds of the viewer's role are shown at all. *)
Theorem masked_graph_hides_names localeCompare scheme rows metric role palette visibleStages ctx options :
  let flow := buildFlowGraph localeCompare scheme rows metric role palette visibleStages ctx options in
  maskSensitive options = true →
  (∀ n, n ∈ graph_nodes flow → n_kind n ∈ ROLE_FLOW_STAGES role ∧ (is_masked n = true → hidden (n_label n))) ∧
  (∀ l, l ∈ graph_links flow → ∃ n n', n ∈ graph_nodes flow ∧ n' ∈ graph_nodes flow ∧ l_source l = n_id n ∧ l_target l = n_id n' ∧
     (is_masked n = true → hidden (l_sourceLabel l)) ∧ (is_masked n' = true → hidden (l_targetLabel l))).
Proof.
  intros flow Hm. split.
  - intros n Hn. split; [ | by apply (masked_node localeCompare scheme rows metric role palette visibleStages ctx options)].
    apply (node_kind_shown localeCompare scheme rows metric role palette visibleStages ctx options) in Hn. unfold stages_of, resolveVisibleStages in Hn. destruct visibleStages as [v|]; [ | done].
    destruct (_ <=? _); [by apply list_elem_of_filter in Hn as [_ ?] | done].
  - intros l Hl. destruct (link_joins_nodes localeCompare scheme rows metric role palette visibleStages ctx options l Hl) as (n & n' & Hn & Hn' & Hs & Ht). exists n, n'. split_and!; try done.
    + intros Hmask. by apply (proj1 (masked_link localeCompare scheme rows metric role palette visibleStages ctx options _ _ Hm Hl Hn Hmask)).
    + intros Hmask. by apply (proj2 (masked_link localeCompare scheme rows metric role palette visibleStages ctx options _ _ Hm Hl Hn' Hmask)).
Qed.

(** a limit on the nodes of a column is kept.  No column of the graph has more nodes than the limit when the
    rows beyond it are hidden, and at most one more, the node that stands for the others, when they are aggregated;
    no two nodes have the same name. *)
Theorem columns_keep_the_limit localeCompare scheme rows metric role palette visibleStages ctx options limit k :
  let flow := buildFlowGraph localeCompare scheme rows metric role palette visibleStages ctx options in
  normalizeTopNodeLimit (topNodeLimit options) = Some limit →
  NoDup (map n_id (graph_nodes flow)) ∧
  length (filter (fun n => n_kind n = k) (graph_nodes flow))
  ≤ Z.to_nat (num_to_Z limit) + match overflowMode options with Some OHide => 0 | _ => 1 end.
Proof.
  intros flow Hlimit. split; [apply graph_ids_NoDup | ]. set (kept := filter _ _).
  assert (Hd : NoDup (map n_id kept)).
  { eapply sublist_NoDup; [apply graph_ids_NoDup | apply (fmap_sublist n_id), sublist_filter]. }
  rewrite <- (length_map n_id). destruct (decide (k ∈ resolveVisibleStages role visibleStages)) as [Hk|Hk].
  - destruct (column_ids localeCompare scheme rows metric role palette visibleStages ctx options limit k Hlimit Hk) as (ids & Hlen & Hids).
    set (others := match overflowMode options with Some OHide => [] | _ => [OTHER_FLOW_NODE_IDS k] end).
    assert (Hsub : map n_id kept ⊆ ids ++ others).
    { intros id (n & -> & [Hnk Hn]%list_elem_of_filter)%list_elem_of_fmap. apply elem_of_app.
      destruct (Hids n Hn Hnk) as [?|[Hmode ->]]; [by left | right]. unfold others. destruct (overflowMode options) as [[|]|]; [left | done | left]. }
    pose proof (submseteq_length _ _ (NoDup_submseteq _ _ Hd Hsub)) as H. rewrite length_app in H. unfold others in H.
    destruct (overflowMode options) as [[|]|]; cbn in *; lia.
  - assert (kept = []) as ->; [ | cbn; lia]. apply elem_of_nil_inv. intros n [<- Hn]%list_elem_of_filter. apply Hk.
    by apply (node_kind_shown localeCompare scheme rows metric role palette visibleStages ctx options) in Hn.
Qed.

(** ** A small dashboard *)

(** An order of texts by code units. *)
Fixpoint code_unit_compare (a b : ustring) : Z :=
  match a, b with
  | [], [] => 0%Z
  | [], _ => (-1)%Z
  | _, [] => 1%Z
  | x :: a, y :: b => if (x <? y)%Z then (-1)%Z else if (y <? x)%Z then 1%Z else code_unit_compare a b
  end.

Definition sample_row (user group model : string) (channel requests : Z) : FlowQuotaDataItem :=
  mkRow None (Some (js user)) None (Some (js group)) None None (Some (num_of_Z channel)) None (Some (js model)) None
    (Some (num_of_Z requests)) None.

Definition sample_rows : list FlowQuotaDataItem :=
  [sample_row "ann" "vip" "gpt" 1 3; sample_row "bob" "vip" "gpt" 2 4; sample_row "cid" "default" "llama" 1 5].

Definition sample_options (mode : FlowOverflowMode) : FlowGraphOptions := mkGraphOptions (Some one) (Some mode) None None None true.

Definition sample_flow (mode : FlowOverflowMode) : DashboardFlowGraph :=
  buildFlowGraph code_unit_compare [(None, [Some (js "#1664FF"); None])] sample_rows MRequests FAdmin None None None (sample_options mode).

Example sample_columns :
  map (fun n => (n_id n, n_label n, n_value n)) (filter (fun n => n_kind n = KUser) (graph_nodes (sample_flow OAggregate)))
  = [(js "user:__other__", js "Other users", num_of_Z 7); (js "user:cid", FLOW_MASK_TEXT, num_of_Z 5)].
Proof. vm_compute. reflexivity. Qed.

Lemma sample_countable : countable_rows MRequests sample_rows.
Proof. split; [ | reflexivity]. repeat (constructor; [split; vm_compute; [discriminate | reflexivity] | ]). constructor. Qed.

Lemma sample_separable : Forall (separable_row None) sample_rows.
Proof. repeat (constructor; [unfold separable_row, separable; apply (bool_decide_unpack _); vm_compute; reflexivity | ]). constructor. Qed.

Lemma flow_is_conserved_witness :
  countable_rows MRequests sample_rows ∧ Forall (separable_row None) sample_rows ∧
  Forall (fun n => (n_kind n ≠ KUser →
    n_value n = num_sum (map l_value (filter (fun l => l_target l = n_id n) (graph_links (sample_flow OAggregate)))))) (graph_nodes (sample_flow OAggregate)).
Proof.
  split; [exact sample_countable | split; [exact sample_separable | ]]. apply Forall_forall. intros n Hn Hk.
  apply (flow_is_conserved code_unit_compare [(None, [Some (js "#1664FF"); None])] sample_rows MRequests FAdmin None None None
    (sample_options OAggregate) n sample_countable sample_separable Hn).
  intros [= H]. by apply Hk.
Defined.

Definition sample_build : FlowBuildOptions := mkBuildOptions (Some FAdmin) [] [] None None None (sample_options OAggregate).

Lemma columns_add_up_witness :
  num_sum (map n_value (filter (fun n => n_kind n = KGroup)
    (graph_nodes (flow_graph (buildDashboardFlowData code_unit_compare [] Number_toString sample_rows MRequests sample_build)))))
  = num_of_Z 12.
Proof.
  etransitivity; [apply (columns_add_up code_unit_compare [] Number_toString sample_rows MRequests sample_build KGroup) | vm_compute; reflexivity].
  - exact sample_countable.
  - discriminate.
  - apply (bool_decide_unpack _). vm_compute. reflexivity.
Defined.

Lemma masked_graph_hides_names_witness :
  maskSensitive (sample_options OAggregate) = true ∧
  Forall (fun n => is_masked n = true → hidden (n_label n)) (graph_nodes (sample_flow OAggregate)).
Proof.
  split; [reflexivity | ]. apply Forall_forall. intros n Hn.
  apply (masked_graph_hides_names code_unit_compare [(None, [Some (js "#1664FF"); None])] sample_rows MRequests FAdmin None None None
    (sample_options OAggregate)); [reflexivity | exact Hn].
Defined.

Lemma columns_keep_the_limit_witness :
  normalizeTopNodeLimit (topNodeLimit (sample_options OHide)) = Some one ∧
  length (filter (fun n => n_kind n = KUser) (graph_nodes (sample_flow OHide))) ≤ 1.
Proof.
  split; [vm_compute; reflexivity | ].
  apply (columns_keep_the_limit code_unit_compare [(None, [Some (js "#1664FF"); None])] sample_rows MRequests FAdmin None None None
    (sample_options OHide) one KUser). vm_compute. reflexivity.
Defined.
