(* ===== verification/NumberOf.v ===== *)
(** * Numbers of texts and of values

    [Number(value)] of the language on any text and on any JSON value, and [Number.parseFloat]:
    the number at the front of a text. *)

From Stdlib Require Import SpecFloat ZArith Lia.
From stdpp Require Import base numbers strings option list.
From S2P Require Import Prelude JsNumber ExprSyntax ExprTokenizer Json JsonText NumberText JsonPrint.

(** The digits of a text in a base up to 16. *)
Definition radix_digits (base : Z) (ds : ustring) : option Z :=
  match ds with
  | [] => None
  | _ => fold_left (fun acc c => n ← acc; d ← hex_digit c; if (d <? base)%Z then Some (n * base + d)%Z else None) ds (Some 0%Z)
  end.

(** [0x], [0o] and [0b] literals. *)
Definition radix_literal (t : ustring) : option Z :=
  match t with
  | z :: x :: ds =>
      if negb (z =? chr "0")%Z then None
      else if (x =? chr "x")%Z || (x =? chr "X")%Z then radix_digits 16 ds
      else if (x =? chr "o")%Z || (x =? chr "O")%Z then radix_digits 8 ds
      else if (x =? chr "b")%Z || (x =? chr "B")%Z then radix_digits 2 ds
      else None
  | _ => None
  end.

Definition unsigned_literal (t : ustring) : number :=
  if ustring_eqb t (js "Infinity") then S754_infinity false
  else
    match match_number t with
    | Some n => if n =? length t then Number t else S754_nan
    | None => S754_nan
    end.

(** [Number(text)]. *)
Definition Number_text (text : ustring) : number :=
  match trim text with
  | [] => zero
  | c :: rest =>
      let t := c :: rest in
      match radix_literal t with
      | Some n => num_of_Z n
      | None =>
          if (c =? chr "-")%Z then num_neg (unsigned_literal rest)
          else if (c =? chr "+")%Z then unsigned_literal rest
          else unsigned_literal t
      end
  end.

(** [Number(value)]: arrays and objects by their texts. *)
Definition Number_json (v : json) : number :=
  match v with
  | JNull => zero
  | JBool b => if b then one else zero
  | JNumber n => n
  | JString s => Number_text s
  | JArray _ | JObject _ => Number_text (String_json v)
  end.

Example number_texts :
  map Number_text [js " 12 "; js ""; js "0x1F"; js "-.5e1"; js "1_0"; js "5."]
  = [num_of_Z 12; zero; num_of_Z 31; num_of_Z (-5); S754_nan; num_of_Z 5].
Proof. vm_compute. reflexivity. Qed.

(** The longest decimal literal at the front. *)
Definition parse_unsigned (s : ustring) : number :=
  if starts_with (js "Infinity") s then S754_infinity false
  else match match_number s with Some n => Number (take n s) | None => S754_nan end.

(** [Number.parseFloat]: after spaces and a sign. *)
Definition parseFloat (s : ustring) : number :=
  match trim_start s with
  | c :: rest =>
      if (c =? chr "-")%Z then num_neg (parse_unsigned rest)
      else if (c =? chr "+")%Z then parse_unsigned rest
      else parse_unsigned (c :: rest)
  | [] => S754_nan
  end.
