(* ===== verification/Wallet.v ===== *)
(** * Wallet: payment methods, amounts and the payment processors

    [features/wallet/lib/payment.ts], the requests of [features/wallet/api.ts] that
    pay, the processors of the hooks [use-payment.ts], [use-waffo-payment.ts],
    [use-waffo-pancake-payment.ts] and [use-creem-payment.ts], and [lib/external-url.ts].

    A processor sends one request and, from the answer, opens a payment page.  What it
    does to the outside is the list of its effects, in order; what it returns is the
    boolean of its promise.  The server is a function from requests to answers
    ([None] is a request that fails) and the reading of an address by the browser's
    [URL] is a parameter: the scheme of an absolute address, [None] when it throws. *)

From stdpp Require Import base numbers strings option list.
From Stdlib Require Import SpecFloat ZArith Lia.
From S2P Require Import Prelude JsNumber Json ExprTokenizer NumberOf.

(** ** Data *)

Definition ALIPAY : ustring := js "alipay".
Definition STRIPE : ustring := js "stripe".
Definition WAFFO : ustring := js "waffo".
Definition WAFFO_PANCAKE : ustring := js "waffo_pancake".
Definition DEFAULT_PAYMENT_TYPE : ustring := ALIPAY.
Definition DEFAULT_MIN_TOPUP : number := one.
Definition DEFAULT_PRESET_MULTIPLIERS : list number :=
  num_of_Z <$> [1; 5; 10; 30; 50; 100; 300; 500]%Z.

Record PaymentMethod := {
  pm_name : ustring;
  pm_type : ustring;
  pm_color : option ustring;
  pm_min_topup : option number;
  pm_icon : option ustring
}.

Record TopupInfo := {
  enable_online_topup : bool;
  enable_stripe_topup : bool;
  pay_methods : list PaymentMethod;
  min_topup : number;
  stripe_min_topup : number;
  amount_options : list number;
  enable_waffo_topup : option bool;
  waffo_min_topup : option number;
  enable_waffo_pancake_topup : option bool;
  waffo_pancake_min_topup : option number
}.

Record PresetAmount := { preset_value : number; preset_discount : option number }.

Record PaymentConfirmation := {
  paymentMethod : PaymentMethod;
  topupAmount : number;
  paymentAmount : number;
  waffoMethodIndex : option number;
  discountRate : number;
  usdExchangeRate : number
}.

Record PaymentConfirmationSelection := {
  sel_paymentMethod : PaymentMethod;
  sel_topupAmount : number;
  sel_waffoMethodIndex : option number;
  sel_loadingKey : ustring;
  sel_minTopupAmount : number;
  sel_discountRate : number;
  sel_usdExchangeRate : number
}.

(** ** Choices made from the top-up information *)

Definition isStripePayment (paymentType : ustring) : bool := ustring_eqb paymentType STRIPE.
Definition isWaffoPayment (paymentType : ustring) : bool := ustring_eqb paymentType WAFFO.
Definition isWaffoPancakePayment (paymentType : ustring) : bool :=
  ustring_eqb paymentType WAFFO_PANCAKE.

(** [flag] of an optional boolean property: [undefined] is false. *)
Definition flag (b : option bool) : bool := default false b.

(** [x || d] on an optional number. *)
Definition num_or (x : option number) (d : number) : number :=
  match x with Some n => if num_eqb n zero || is_nan n then d else n | None => d end.

Definition getDefaultPaymentType (topupInfo : option TopupInfo) : ustring :=
  match topupInfo with
  | None => DEFAULT_PAYMENT_TYPE
  | Some info =>
      match pay_methods info with
      | m :: _ => pm_type m
      | [] =>
          if enable_stripe_topup info then STRIPE
          else if flag (enable_waffo_topup info) then WAFFO
          else if flag (enable_waffo_pancake_topup info) then WAFFO_PANCAKE
          else DEFAULT_PAYMENT_TYPE
      end
  end.

Definition getMinTopupAmount (topupInfo : option TopupInfo) : number :=
  match topupInfo with
  | None => DEFAULT_MIN_TOPUP
  | Some info =>
      if enable_online_topup info then min_topup info
      else if enable_stripe_topup info then stripe_min_topup info
      else if flag (enable_waffo_topup info) then num_or (waffo_min_topup info) DEFAULT_MIN_TOPUP
      else if flag (enable_waffo_pancake_topup info)
      then num_or (waffo_pancake_min_topup info) DEFAULT_MIN_TOPUP
      else DEFAULT_MIN_TOPUP
  end.

Definition generatePresetAmounts (minAmount : number) : list PresetAmount :=
  (fun multiplier => {| preset_value := num_mul minAmount multiplier; preset_discount := None |})
    <$> DEFAULT_PRESET_MULTIPLIERS.

(** [discounts] is the object indexed by amounts, as a lookup. *)
Definition mergePresetAmounts (amountOptions : list number) (discounts : number → option number)
    : list PresetAmount :=
  (fun amount => {| preset_value := amount; preset_discount := Some (num_or (discounts amount) one) |})
    <$> amountOptions.

(** The fields of a confirmation, taken from the selection and the calculated amount. *)
Definition createPaymentConfirmation (selection : PaymentConfirmationSelection) (amount : number)
    : PaymentConfirmation :=
  {| paymentMethod := sel_paymentMethod selection;
     topupAmount := sel_topupAmount selection;
     paymentAmount := amount;
     waffoMethodIndex := sel_waffoMethodIndex selection;
     discountRate := sel_discountRate selection;
     usdExchangeRate := sel_usdExchangeRate selection |}.

(** ** Answers of the server *)

(** [Number.parseFloat(value)] of any value: of its text.  The text of an array starts
    with the text of its first element, and the comma after it ends a literal. *)
Fixpoint parseFloat_json (value : json) : number :=
  match value with
  | JString s => parseFloat s
  | JNumber n => match n with S754_zero _ => zero | _ => n end
  | JArray (v :: _) => match v with JNull => S754_nan | _ => parseFloat_json v end
  | _ => S754_nan
  end.

(** [response.success === true || response.message === 'success'], which throws on
    [null] and [undefined]. *)
Definition isApiSuccess (response : option json) : option bool :=
  match response with
  | None | Some JNull => None
  | Some _ => Some (isTrue (prop response "success") || isText (prop response "message") (js "success"))
  end.

(** Which of the four amount endpoints is asked. *)
Inductive AmountCalculator := Regular | Stripe | Waffo | WaffoPancake.

Definition amount_calculator (paymentType : ustring) : AmountCalculator :=
  if isStripePayment paymentType then Stripe
  else if isWaffoPayment paymentType then Waffo
  else if isWaffoPancakePayment paymentType then WaffoPancake
  else Regular.

(** What [requestPaymentAmount] makes of the answer; [None] when it throws. *)
Definition requested_amount (response : option json) : option number :=
  success ← isApiSuccess response;
  match prop response "data" with
  | Some data =>
      if success && truthy_json (Some data) then Some (parseFloat_json data) else Some zero
  | None => Some zero
  end.

(** ** Effects of a payment *)

Inductive PaymentRequest :=
| PostPay (amount : number) (payment_method : ustring)
| PostStripePay (amount : number) (payment_method : ustring)
| PostWaffoPay (amount : number) (pay_method_index : option number)
| PostWaffoPancakePay (amount : number)
| PostCreemPay (product_id : ustring).

(** [OpenWindow] and [SetLocation] go to an address; [SubmitForm] posts the entries of
    the data to it; the two kinds of toast carry no text here. *)
Inductive PaymentEffect :=
| SetProcessing (b : bool)
| Send (request : PaymentRequest)
| OpenWindow (url : ustring)
| SetLocation (url : ustring)
| SubmitForm (url : ustring) (data : json)
| ToastError
| ToastSuccess.

Abbreviation Outcome := (list PaymentEffect * bool)%type.

Section processors.
  (** [new URL(text).protocol]; [None] when the constructor throws. *)
  Context (URL_protocol : ustring → option ustring).
  Context (server : PaymentRequest → option json).

Definition isSafeExternalHttpUrl (value : ustring) : bool :=
  let trimmed := trim value in
  truthy trimmed &&
  match URL_protocol trimmed with
  | Some protocol => ustring_eqb protocol (js "http:") || ustring_eqb protocol (js "https:")
  | None => false
  end.

Definition openExternalUrl (url : ustring) : Outcome :=
  if negb (isSafeExternalHttpUrl url) then ([], false) else ([OpenWindow (trim url)], true).

Definition redirectToExternalUrl (url : ustring) : Outcome :=
  if negb (isSafeExternalHttpUrl url) then ([], false) else ([SetLocation (trim url)], true).

Definition submitPaymentForm (url : ustring) (params : json) : Outcome :=
  if negb (isSafeExternalHttpUrl url) then ([], false) else ([SubmitForm url params], true).

(** The end of a processor that has an address: navigate or complain. *)
Definition go_to (opened : Outcome) : Outcome :=
  if opened.2 then (opened.1 ++ [ToastSuccess], true) else (opened.1 ++ [ToastError], false).

(** A request and what follows it inside [try]; [None] is the [catch] branch. *)
Definition processing (request : PaymentRequest) (after : option json → option Outcome) : Outcome :=
  let '(effects, success) :=
    match (v ← server request; after (Some v)) with
    | Some outcome => outcome
    | None => ([ToastError], false)
    end in
  ([SetProcessing true; Send request] ++ effects ++ [SetProcessing false], success).

(** [value.trim()] throws when the value is no string. *)
Definition with_address (value : option json) (k : ustring → Outcome) : option Outcome :=
  k <$> asString value.

Definition processPayment (topupAmount : number) (paymentType : ustring) : Outcome :=
  let isStripe := isStripePayment paymentType in
  let amount := num_floor topupAmount in
  let request := if isStripe then PostStripePay amount STRIPE else PostPay amount paymentType in
  processing request (fun response =>
    success ← isApiSuccess response;
    let data := prop response "data" in
    if negb success then Some ([ToastError], false)
    else if isStripe && truthy_json (prop data "pay_link") then
      with_address (prop data "pay_link") (fun url => go_to (openExternalUrl url))
    else
      match data with
      | Some params =>
          if negb isStripe && truthy_json data && truthy_json (prop response "url") then
            with_address (prop response "url") (fun url => go_to (submitPaymentForm url params))
          else Some ([], false)
      | None => Some ([], false)
      end).

(** [getPaymentUrl] and [getCheckoutUrl]: a string property of an object. *)
Definition address_in (data : option json) (name : string) : option ustring :=
  if isRecord data then asString (prop data name) else None.

Definition processWaffoPayment (topupAmount : number) (payMethodIndex : option number) : Outcome :=
  processing (PostWaffoPay (num_floor topupAmount) payMethodIndex) (fun response =>
    success ← isApiSuccess response;
    match address_in (prop response "data") "payment_url" with
    | Some paymentUrl =>
        if success && truthy paymentUrl then Some (go_to (openExternalUrl paymentUrl))
        else Some ([ToastError], false)
    | None => Some ([ToastError], false)
    end).

Definition processWaffoPancakePayment (topupAmount : number) : Outcome :=
  processing (PostWaffoPancakePay (num_floor topupAmount)) (fun response =>
    success ← isApiSuccess response;
    match address_in (prop response "data") "checkout_url" with
    | Some checkoutUrl =>
        if success && truthy checkoutUrl then
          if negb (isSafeExternalHttpUrl checkoutUrl) then Some ([ToastError], false)
          else Some ([ToastSuccess] ++ (redirectToExternalUrl checkoutUrl).1, true)
        else Some ([ToastError], false)
    | None => Some ([ToastError], false)
    end).

Definition processCreemPayment (productId : ustring) : Outcome :=
  processing (PostCreemPay productId) (fun response =>
    success ← isApiSuccess response;
    let url := prop (prop response "data") "checkout_url" in
    if success && truthy_json url then with_address url (fun u => go_to (openExternalUrl u))
    else Some ([ToastError], false)).
End processors.

(** ** Dispatch *)

Record PaymentProcessors := {
  regular : number → ustring → Outcome;
  waffo : number → number → Outcome;
  waffoPancake : number → Outcome
}.

Definition dispatchSelectedPayment (method : PaymentMethod) (topup : number)
    (index : option number) (processors : PaymentProcessors) : Outcome :=
  if isWaffoPayment (pm_type method) then
    match index with
    | None => ([], false)
    | Some i => waffo processors topup i
    end
  else if isWaffoPancakePayment (pm_type method) then waffoPancake processors topup
  else regular processors topup (pm_type method).

Definition dispatchPaymentConfirmation (confirmation : PaymentConfirmation)
    (processors : PaymentProcessors) : Outcome :=
  dispatchSelectedPayment (paymentMethod confirmation) (topupAmount confirmation)
    (waffoMethodIndex confirmation) processors.

(** The processors the wallet page passes. *)
Definition walletProcessors (URL_protocol : ustring → option ustring)
    (server : PaymentRequest → option json) : PaymentProcessors :=
  {| regular := processPayment URL_protocol server;
     waffo := fun topup i => processWaffoPayment URL_protocol server topup (Some i);
     waffoPancake := processWaffoPancakePayment URL_protocol server |}.

(** ** Properties of the processors *)

Section payment_safety.
  Context (URL_protocol : ustring → option ustring).
  Context (server : PaymentRequest → option json).

(** The browser reads the address as an absolute one of the web. *)
Definition web_address (u : ustring) : Prop :=
  URL_protocol u = Some (js "http:") ∨ URL_protocol u = Some (js "https:").

Definition effect_safe (e : PaymentEffect) : Prop :=
  match e with
  | OpenWindow u | SetLocation u => web_address u
  | SubmitForm u _ => web_address (trim u)
  | _ => True
  end.

Definition is_navigation (e : PaymentEffect) : bool :=
  match e with OpenWindow _ | SetLocation _ | SubmitForm _ _ => true | _ => false end.

Definition navigations (es : list PaymentEffect) : list PaymentEffect :=
  filter (fun e => is_navigation e = true) es.

Definition requests (es : list PaymentEffect) : list PaymentRequest :=
  omap (fun e => match e with Send r => Some r | _ => None end) es.

(** What the part of a processor after its request may do. *)
Definition well_behaved (o : Outcome) : Prop :=
  Forall effect_safe o.1 ∧ requests o.1 = [] ∧
  length (navigations o.1) = (if o.2 then 1 else 0).

Lemma safe_address u : isSafeExternalHttpUrl URL_protocol u = true → web_address (trim u).
Proof.
  unfold isSafeExternalHttpUrl, web_address. intros H. bools.
  destruct (URL_protocol (trim u)) as [p|]; [ | done].
  apply orb_true_iff in H0 as [H0|H0]; bools; subst; auto.
Qed.

Lemma toast_well_behaved : well_behaved ([ToastError], false).
Proof. split_and!; [repeat constructor | done | done]. Qed.

Lemma nothing_well_behaved : well_behaved ([], false).
Proof. split_and!; [constructor | done | done]. Qed.

Lemma go_to_well_behaved url (navigate : Outcome) e :
  navigate = (if negb (isSafeExternalHttpUrl URL_protocol url) then ([], false) else ([e], true)) →
  (web_address (trim url) → effect_safe e) → is_navigation e = true →
  well_behaved (go_to navigate).
Proof.
  intros -> Hsafe Hnav. destruct (isSafeExternalHttpUrl URL_protocol url) eqn:E; simpl;
    [ | apply toast_well_behaved].
  split_and!; simpl.
  - constructor; [by apply Hsafe, safe_address | repeat constructor].
  - by destruct e.
  - unfold navigations. rewrite filter_cons_True by done. rewrite filter_cons_False by done. done.
Qed.

Lemma open_well_behaved url : well_behaved (go_to (openExternalUrl URL_protocol url)).
Proof. eapply go_to_well_behaved; [done | by intros | done]. Qed.

Lemma submit_well_behaved url params : well_behaved (go_to (submitPaymentForm URL_protocol url params)).
Proof. eapply go_to_well_behaved; [done | by intros | done]. Qed.

Lemma with_address_well_behaved value k o :
  (∀ u, well_behaved (k u)) → with_address value k = Some o → well_behaved o.
Proof. unfold with_address. destruct (asString value); simpl; intros Hk; [intros [= <-]; auto | done]. Qed.

(** What a whole processor does: it marks itself busy, sends exactly its request, visits
    only web addresses, exactly one when it succeeds, and is not busy at the end. *)
Definition pays_with (request : PaymentRequest) (o : Outcome) : Prop :=
  Forall effect_safe o.1 ∧ requests o.1 = [request] ∧
  length (navigations o.1) = (if o.2 then 1 else 0) ∧
  head o.1 = Some (SetProcessing true) ∧ last o.1 = Some (SetProcessing false).

Lemma processing_pays request after :
  (∀ v o, after v = Some o → well_behaved o) → pays_with request (processing server request after).
Proof.
  intros Hafter. unfold processing.
  set (o := match (v ← server request; after (Some v)) with Some x => x | None => ([ToastError], false) end).
  assert (Ho : well_behaved o).
  { unfold o. destruct (server request) as [v|]; simpl; [ | apply toast_well_behaved].
    destruct (after (Some v)) eqn:E; [eauto | apply toast_well_behaved]. }
  clearbody o. destruct o as [effects success], Ho as (H1 & H2 & H3); simpl in *.
  split_and!; cbn [fst snd app].
  - do 2 (constructor; [done | ]). apply Forall_app. split; [done | repeat constructor].
  - unfold requests in *. simpl. rewrite omap_app, H2. done.
  - unfold navigations in *. do 2 rewrite filter_cons_False by done.
    rewrite filter_app, filter_cons_False by done. by rewrite app_nil_r.
  - done.
  - apply (last_snoc (SetProcessing false) (SetProcessing true :: Send request :: effects)).
Qed.

#[local] Hint Resolve toast_well_behaved nothing_well_behaved open_well_behaved
  submit_well_behaved : core.

Lemma processPayment_pays topup paymentType :
  pays_with
    (if isStripePayment paymentType then PostStripePay (num_floor topup) STRIPE
     else PostPay (num_floor topup) paymentType)
    (processPayment URL_protocol server topup paymentType).
Proof.
  apply processing_pays. intros v o. destruct (isApiSuccess v) as [[|]|]; simpl; [ | | done].
  2: by intros [= <-]; auto.
  destruct (isStripePayment paymentType && _); [by apply with_address_well_behaved | ].
  destruct (prop v "data") as [params|]; [ | by intros [= <-]; auto].
  branch; [by apply with_address_well_behaved; auto | by intros [= <-]; auto].
Qed.

Lemma processWaffoPayment_pays topup index :
  pays_with (PostWaffoPay (num_floor topup) index)
    (processWaffoPayment URL_protocol server topup index).
Proof.
  apply processing_pays. intros v o. destruct (isApiSuccess v) as [success|]; simpl; [ | done].
  destruct (address_in _ _) as [url|]; [ | by intros [= <-]; auto].
  branch; intros [= <-]; auto.
Qed.

Lemma processWaffoPancakePayment_pays topup :
  pays_with (PostWaffoPancakePay (num_floor topup))
    (processWaffoPancakePayment URL_protocol server topup).
Proof.
  apply processing_pays. intros v o. destruct (isApiSuccess v) as [success|]; simpl; [ | done].
  destruct (address_in _ _) as [url|]; [ | by intros [= <-]; auto].
  branch; [ | by intros [= <-]; auto].
  destruct (isSafeExternalHttpUrl URL_protocol url) eqn:E; simpl; intros [= <-]; [ | auto].
  unfold redirectToExternalUrl. rewrite E. simpl. split_and!; simpl.
  - do 2 (constructor; [try done; by apply safe_address | ]). constructor.
  - done.
  - done.
Qed.

Lemma processCreemPayment_pays productId :
  pays_with (PostCreemPay productId) (processCreemPayment URL_protocol server productId).
Proof.
  apply processing_pays. intros v o. destruct (isApiSuccess v) as [success|]; simpl; [ | done].
  branch; [by apply with_address_well_behaved; auto | by intros [= <-]; auto].
Qed.

(** The request a confirmation stands for: the endpoint of its method, with the whole
    part of the top-up amount. *)
Definition confirmed_request (c : PaymentConfirmation) : option PaymentRequest :=
  let amount := num_floor (topupAmount c) in
  let type := pm_type (paymentMethod c) in
  if ustring_eqb type (js "waffo") then PostWaffoPay amount ∘ Some <$> waffoMethodIndex c
  else if ustring_eqb type (js "waffo_pancake") then Some (PostWaffoPancakePay amount)
  else if ustring_eqb type (js "stripe") then Some (PostStripePay amount (js "stripe"))
  else Some (PostPay amount type).

(** C17: Confirming a payment sends exactly the request its method and amount stand for
    (none when a Waffo method has no index, and then nothing at all happens), leaves the
    page only for addresses the browser reads as http or https, whatever the server
    answers, and reports success exactly when one such page was opened. *)
Theorem confirmed_payment_is_safe (c : PaymentConfirmation) :
  match confirmed_request c with
  | Some request =>
      pays_with request (dispatchPaymentConfirmation c (walletProcessors URL_protocol server))
  | None => dispatchPaymentConfirmation c (walletProcessors URL_protocol server) = ([], false)
  end.
Proof.
  unfold confirmed_request, dispatchPaymentConfirmation, dispatchSelectedPayment.
  unfold isWaffoPayment, isWaffoPancakePayment.
  change (js "waffo") with WAFFO. change (js "waffo_pancake") with WAFFO_PANCAKE.
  change (js "stripe") with STRIPE.
  destruct (ustring_eqb _ WAFFO).
  { destruct (waffoMethodIndex c) as [i|]; simpl; [apply processWaffoPayment_pays | done]. }
  destruct (ustring_eqb _ WAFFO_PANCAKE); [apply processWaffoPancakePayment_pays | ].
  pose proof (processPayment_pays (topupAmount c) (pm_type (paymentMethod c))) as H.
  unfold isStripePayment in H. destruct (ustring_eqb _ STRIPE); exact H.
Qed.
End payment_safety.

(** A page that reads addresses by their first letters, and a server that answers a
    Stripe request with a script address. *)
Definition sample_protocol (u : ustring) : option ustring :=
  if starts_with (js "https:") u then Some (js "https:")
  else if starts_with (js "javascript:") u then Some (js "javascript:") else None.

Definition sample_method (type : string) : PaymentMethod :=
  {| pm_name := js type; pm_type := js type; pm_color := None; pm_min_topup := None; pm_icon := None |}.

Definition sample_confirmation (type : string) : PaymentConfirmation :=
  {| paymentMethod := sample_method type; topupAmount := Number (js "12.5"); paymentAmount := one;
     waffoMethodIndex := None; discountRate := one; usdExchangeRate := one |}.

Definition sample_server (link : string) (_ : PaymentRequest) : option json :=
  Some (JObject [(js "success", JBool true); (js "data", JObject [(js "pay_link", JString (js link))])]).

Example script_link_refused :
  dispatchPaymentConfirmation (sample_confirmation "stripe")
    (walletProcessors sample_protocol (sample_server "javascript:alert(1)")) =
  ([SetProcessing true; Send (PostStripePay (num_of_Z 12) STRIPE); ToastError; SetProcessing false], false).
Proof. vm_compute. reflexivity. Qed.

Example web_link_opened :
  dispatchPaymentConfirmation (sample_confirmation "stripe")
    (walletProcessors sample_protocol (sample_server " https://pay.example ")) =
  ([SetProcessing true; Send (PostStripePay (num_of_Z 12) STRIPE);
    OpenWindow (js "https://pay.example"); ToastSuccess; SetProcessing false], true).
Proof. vm_compute. reflexivity. Qed.

Example amount_read :
  requested_amount (Some (JObject [(js "message", JString (js "success")); (js "data", JString (js "7.30"))])) =
  Some (Number (js "7.3")).
Proof. vm_compute. reflexivity. Qed.
