(* ===== verification/WalletConfirmation.v ===== *)
(** * Wallet: the payment confirmation controller

    [createPaymentConfirmationController] of [features/wallet/lib/payment.ts] on top of
    [createPaymentAmountController] of [features/wallet/hooks/use-payment.ts], with the
    state of the wallet page they set.

    The two controllers share one page: the first counts its selections in [generation],
    the second its requests in [latestRequestId].  An asynchronous function is split at
    its [await]s: a [Call] is a [calculate] that waits for the server, a [Return] is a
    [select] whose [calculate] has returned and that has not resumed yet.  Answers
    arrive and functions resume in any order. *)

From stdpp Require Import base numbers strings option sets list.
From Stdlib Require Import SpecFloat ZArith Lia.
From S2P Require Import Prelude JsNumber Json Wallet.

Abbreviation Selection := PaymentConfirmationSelection.

Record Call := {
  call_requestId : nat;
  call_topup : number;
  call_type : ustring;
  call_owner : option (nat * Selection)   (* the selection that awaits it, with its generation *)
}.

Record Return := { ret_generation : nat; ret_selection : Selection; ret_amount : option number }.

Record Page := {
  generation : nat;
  activePaymentType : option ustring;
  latestRequestId : nat;
  amount : number;
  calculating : bool;
  confirmation : option PaymentConfirmation;
  loading : option ustring;
  calls : list Call;
  returns : list Return
}.

Definition new_page : Page :=
  {| generation := 0; activePaymentType := None; latestRequestId := 0; amount := zero;
     calculating := false; confirmation := None; loading := None; calls := []; returns := [] |}.

(** ** Setters *)

Definition bump (p : Page) : Page :=
  {| generation := S (generation p); activePaymentType := activePaymentType p;
     latestRequestId := latestRequestId p; amount := amount p; calculating := calculating p;
     confirmation := confirmation p; loading := loading p; calls := calls p; returns := returns p |}.

Definition set_type (t : ustring) (p : Page) : Page :=
  {| generation := generation p; activePaymentType := Some t;
     latestRequestId := latestRequestId p; amount := amount p; calculating := calculating p;
     confirmation := confirmation p; loading := loading p; calls := calls p; returns := returns p |}.

Definition setConfirmation (c : option PaymentConfirmation) (p : Page) : Page :=
  {| generation := generation p; activePaymentType := activePaymentType p;
     latestRequestId := latestRequestId p; amount := amount p; calculating := calculating p;
     confirmation := c; loading := loading p; calls := calls p; returns := returns p |}.

Definition setLoading (k : option ustring) (p : Page) : Page :=
  {| generation := generation p; activePaymentType := activePaymentType p;
     latestRequestId := latestRequestId p; amount := amount p; calculating := calculating p;
     confirmation := confirmation p; loading := k; calls := calls p; returns := returns p |}.

Definition setAmount (a : number) (p : Page) : Page :=
  {| generation := generation p; activePaymentType := activePaymentType p;
     latestRequestId := latestRequestId p; amount := a; calculating := calculating p;
     confirmation := confirmation p; loading := loading p; calls := calls p; returns := returns p |}.

Definition setCalculating (b : bool) (p : Page) : Page :=
  {| generation := generation p; activePaymentType := activePaymentType p;
     latestRequestId := latestRequestId p; amount := amount p; calculating := b;
     confirmation := confirmation p; loading := loading p; calls := calls p; returns := returns p |}.

Definition next_request (p : Page) : Page :=
  {| generation := generation p; activePaymentType := activePaymentType p;
     latestRequestId := S (latestRequestId p); amount := amount p; calculating := calculating p;
     confirmation := confirmation p; loading := loading p; calls := calls p; returns := returns p |}.

Definition set_calls (cs : list Call) (p : Page) : Page :=
  {| generation := generation p; activePaymentType := activePaymentType p;
     latestRequestId := latestRequestId p; amount := amount p; calculating := calculating p;
     confirmation := confirmation p; loading := loading p; calls := cs; returns := returns p |}.

Definition set_returns (rs : list Return) (p : Page) : Page :=
  {| generation := generation p; activePaymentType := activePaymentType p;
     latestRequestId := latestRequestId p; amount := amount p; calculating := calculating p;
     confirmation := confirmation p; loading := loading p; calls := calls p; returns := rs |}.

(** ** The amount controller *)

(** [calculate] up to its [await]. *)
Definition calculate (topup : number) (type : ustring) (owner : option (nat * Selection)) (p : Page)
    : Page :=
  let p := setCalculating true (next_request p) in
  set_calls (calls p ++ [{| call_requestId := latestRequestId p; call_topup := topup;
                            call_type := type; call_owner := owner |}]) p.

(** [calculate] after its [await]: the page and the value it returns.  A failed request
    and an answer that cannot be read count as [0]. *)
Definition settle_call (c : Call) (response : option json) (p : Page) : Page * option number :=
  if negb (call_requestId c =? latestRequestId p) then (p, None)
  else
    let a := default zero (requested_amount response) in
    (setCalculating false (setAmount a p), Some a).

Definition invalidate (p : Page) : Page := setCalculating false (next_request p).

(** ** The confirmation controller *)

Definition initializeAmount (topup : number) (type : ustring) (p : Page) : Page :=
  calculate topup type None (set_type type (bump p)).

Definition amountChanged (topup : number) (defaultType : ustring) (p : Page) : Page :=
  let p := setLoading None (setConfirmation None (bump p)) in
  let type := match activePaymentType p with
              | Some t => if truthy t then t else defaultType
              | None => defaultType
              end in
  calculate topup type None p.

Definition below_minimum (s : Selection) : bool :=
  num_ltb (sel_topupAmount s) (sel_minTopupAmount s).

Inductive SelectionResult := Ready | Stale | BelowMinimum | CalculationError.

(** [select] up to its [await], with no result yet, or to its end when the amount is
    below the minimum. *)
Definition select (input : Selection) (p : Page) : Page * option SelectionResult :=
  let p := set_type (pm_type (sel_paymentMethod input)) (bump p) in
  let p := setLoading (Some (sel_loadingKey input)) (setConfirmation None p) in
  if below_minimum input then (setLoading None p, Some BelowMinimum)
  else (calculate (sel_topupAmount input) (pm_type (sel_paymentMethod input))
          (Some (generation p, input)) p, None).

Definition payable (a : number) : bool := is_finite a && negb (num_leb a zero).

(** [select] after its [await], with its [finally]. *)
Definition resume_select (r : Return) (p : Page) : Page * SelectionResult :=
  let current := ret_generation r =? generation p in
  let finally (p : Page) := if current then setLoading None p else p in
  match ret_amount r with
  | None => (finally p, Stale)
  | Some a =>
      if negb current then (finally p, Stale)
      else if negb (payable a) then (finally p, CalculationError)
      else (finally (setConfirmation (Some (createPaymentConfirmation (ret_selection r) a)) p), Ready)
  end.

Definition close (p : Page) : Page :=
  setLoading None (setConfirmation None (invalidate (bump p))).

(** ** Runs *)

Inductive Event :=
| InitializeAmount (topup : number) (type : ustring)
| AmountChanged (topup : number) (defaultType : ustring)
| Select (input : Selection)
| Close
| Answer (i : nat) (response : option json)   (* the server answers the [i]-th open call *)
| Resume (i : nat).                           (* the [i]-th returned selection goes on *)

Definition answer (i : nat) (response : option json) (p : Page) : Page :=
  match calls p !! i with
  | None => p
  | Some c =>
      let '(p, v) := settle_call c response (set_calls (delete i (calls p)) p) in
      match call_owner c with
      | Some (g, s) =>
          set_returns (returns p ++ [{| ret_generation := g; ret_selection := s; ret_amount := v |}]) p
      | None => p
      end
  end.

Definition resume (i : nat) (p : Page) : Page :=
  match returns p !! i with
  | None => p
  | Some r => (resume_select r (set_returns (delete i (returns p)) p)).1
  end.

Definition step (p : Page) (e : Event) : Page :=
  match e with
  | InitializeAmount topup type => initializeAmount topup type p
  | AmountChanged topup type => amountChanged topup type p
  | Select input => (select input p).1
  | Close => close p
  | Answer i response => answer i response p
  | Resume i => resume i p
  end.

Definition run (p : Page) (es : list Event) : Page := foldl step p es.

(** The answers of a run: the amount and method asked for, and the amount answered. *)
Definition answered_now (p : Page) (e : Event) : list (number * ustring * number) :=
  match e with
  | Answer i response =>
      match calls p !! i with
      | Some c => [(call_topup c, call_type c, default zero (requested_amount response))]
      | None => []
      end
  | _ => []
  end.

Fixpoint answered (p : Page) (es : list Event) : list (number * ustring * number) :=
  match es with
  | [] => []
  | e :: es' => answered_now p e ++ answered (step p e) es'
  end.

(** Events that start a new generation, and the ones that leave a confirmation alone. *)
Definition bumps (e : Event) : bool :=
  match e with Answer _ _ | Resume _ => false | _ => true end.

Definition keeps_confirmation (e : Event) : bool :=
  match e with Answer _ _ | Resume _ | InitializeAmount _ _ => true | _ => false end.

(** ** A shown confirmation was earned by the last selection *)

Definition bump_count (es : list Event) : nat := length (filter (fun e => bumps e = true) es).

Lemma run_app p es es' : run p (es ++ es') = run (run p es) es'.
Proof. apply foldl_app. Qed.

Lemma answered_app p es es' : answered p (es ++ es') = answered p es ++ answered (run p es) es'.
Proof.
  revert p; induction es as [|e es IH]; intros p; simpl; [done | ].
  rewrite IH, app_assoc. done.
Qed.

Lemma bump_count_app es es' : bump_count (es ++ es') = bump_count es + bump_count es'.
Proof. unfold bump_count. by rewrite filter_app, length_app. Qed.

Lemma bump_count_cons e es : bump_count (e :: es) = (if bumps e then 1 else 0) + bump_count es.
Proof.
  unfold bump_count. destruct (bumps e) eqn:E.
  - by rewrite filter_cons_True.
  - rewrite filter_cons_False by congruence. done.
Qed.

Lemma no_bumps_keep es : bump_count es = 0 → Forall (fun e => keeps_confirmation e = true) es.
Proof.
  induction es as [|e es IH]; rewrite ?bump_count_cons; intros Hc; constructor;
    destruct e; simpl in *; try lia; try done; apply IH; lia.
Qed.

(** The run contains the selection [s], the [g]-th event that starts a generation. *)
Definition selected (pre : list Event) (s : Selection) (post es : list Event) (g : nat) : Prop :=
  es = pre ++ Select s :: post ∧ g = S (bump_count pre).

(** The answer [a] to the question of the selection arrived after it. *)
Definition answered_after (pre : list Event) (s : Selection) (post : list Event) (a : number) : Prop :=
  (sel_topupAmount s, pm_type (sel_paymentMethod s), a)
    ∈ answered (run new_page (pre ++ [Select s])) post.

Lemma selected_snoc pre s post es g e : selected pre s post es g → selected pre s (post ++ [e]) (es ++ [e]) g.
Proof. intros [-> ->]. split; [ | done]. by rewrite <- app_assoc. Qed.

Lemma answered_after_snoc pre s post a e : answered_after pre s post a → answered_after pre s (post ++ [e]) a.
Proof. unfold answered_after. rewrite answered_app, elem_of_app. auto. Qed.

Lemma answered_after_now pre s post es g i response c :
  selected pre s post es g → calls (run new_page es) !! i = Some c →
  call_topup c = sel_topupAmount s → call_type c = pm_type (sel_paymentMethod s) →
  answered_after pre s (post ++ [Answer i response]) (default zero (requested_amount response)).
Proof.
  intros [-> _] Hc Ht Hp. unfold answered_after. rewrite answered_app, elem_of_app. right.
  rewrite <- run_app, <- app_assoc. simpl. rewrite Hc, Ht, Hp. left.
Qed.

Record earned (es : list Event) (p : Page) : Prop := {
  earned_generation : generation p = bump_count es;
  earned_calls : ∀ c g s, c ∈ calls p → call_owner c = Some (g, s) →
    below_minimum s = false ∧ call_topup c = sel_topupAmount s ∧
    call_type c = pm_type (sel_paymentMethod s) ∧ ∃ pre post, selected pre s post es g;
  earned_returns : ∀ r, r ∈ returns p →
    below_minimum (ret_selection r) = false ∧
    ∃ pre post, selected pre (ret_selection r) post es (ret_generation r) ∧
      ∀ a, ret_amount r = Some a → answered_after pre (ret_selection r) post a;
  earned_confirmation : ∀ c, confirmation p = Some c →
    ∃ pre s post a, es = pre ++ Select s :: post ∧
      Forall (fun e => keeps_confirmation e = true) post ∧ below_minimum s = false ∧
      payable a = true ∧ answered_after pre s post a ∧ c = createPaymentConfirmation s a
}.

(** An event that adds nothing to the run's obligations but what is given. *)
Lemma earned_snoc es p q e :
  earned es p →
  generation q = generation p + (if bumps e then 1 else 0) →
  (∀ c, c ∈ calls q → c ∈ calls p ∨ call_owner c = None ∨
     ∃ s, e = Select s ∧ below_minimum s = false ∧ call_topup c = sel_topupAmount s ∧
       call_type c = pm_type (sel_paymentMethod s) ∧ call_owner c = Some (S (generation p), s)) →
  (∀ r, r ∈ returns q → r ∈ returns p ∨
     below_minimum (ret_selection r) = false ∧
     ∃ pre post, selected pre (ret_selection r) post es (ret_generation r) ∧
       ∀ a, ret_amount r = Some a → answered_after pre (ret_selection r) (post ++ [e]) a) →
  (∀ c, confirmation q = Some c →
     (confirmation p = Some c ∧ keeps_confirmation e = true) ∨
     keeps_confirmation e = true ∧
     ∃ r a, r ∈ returns p ∧ ret_generation r = generation p ∧ ret_amount r = Some a ∧
       payable a = true ∧ c = createPaymentConfirmation (ret_selection r) a) →
  earned (es ++ [e]) q.
Proof.
  intros [Hg Hc Hr Hf] Eg Ec Er Ef. split.
  - rewrite Eg, Hg, bump_count_app, bump_count_cons. unfold bump_count at 3. simpl. lia.
  - intros c g s Hin Howner. destruct (Ec c Hin) as [Hold | [Hnone | (s' & -> & Hb & Ht & Hp & Ho)]].
    + destruct (Hc c g s Hold Howner) as (? & ? & ? & pre & post & Hsel). split_and!; try done.
      exists pre, (post ++ [e]). by apply selected_snoc.
    + congruence.
    + rewrite Howner in Ho. injection Ho as -> ->. split_and!; try done.
      exists es, []. split; [done | by rewrite Hg].
  - intros r Hin. destruct (Er r Hin) as [Hold | (Hb & pre & post & Hsel & Ha)].
    + destruct (Hr r Hold) as (Hb & pre & post & Hsel & Ha). split; [done | ].
      exists pre, (post ++ [e]). split; [by apply selected_snoc | ].
      intros a Hamount. by apply answered_after_snoc, Ha.
    + split; [done | ]. exists pre, (post ++ [e]). split; [by apply selected_snoc | done].
  - intros c Hconf. destruct (Ef c Hconf) as [[Hold Hk] | (Hk & r & a & Hin & Hgen & Ha & Hpay & ->)].
    + destruct (Hf c Hold) as (pre & s & post & a & -> & Hkeep & ? & ? & Hans & ->).
      exists pre, s, (post ++ [e]), a. split_and!; try done.
      * by rewrite <- app_assoc.
      * apply Forall_app; split; [done | by constructor].
      * by apply answered_after_snoc.
    + destruct (Hr r Hin) as (Hb & pre & post & [-> Hsel] & Hans).
      exists pre, (ret_selection r), (post ++ [e]), a. split_and!; try done.
      * by rewrite <- app_assoc.
      * apply Forall_app; split; [ | by constructor]. apply no_bumps_keep.
        rewrite bump_count_app, bump_count_cons in Hg. simpl in Hg. lia.
      * by apply answered_after_snoc, Hans.
Qed.

(** A [calculate] of the operation [e], started on a page that differs from [p] in the
    fields below only. *)
Lemma earned_calculate es p q e topup type owner :
  earned es p → bumps e = true → calls q = calls p → returns q = returns p →
  generation q = S (generation p) →
  (∀ c, confirmation q = Some c → confirmation p = Some c ∧ keeps_confirmation e = true) →
  (owner = None ∨ ∃ s, e = Select s ∧ below_minimum s = false ∧ topup = sel_topupAmount s ∧
     type = pm_type (sel_paymentMethod s) ∧ owner = Some (S (generation p), s)) →
  earned (es ++ [e]) (calculate topup type owner q).
Proof.
  intros He Hb Hc Hr Hg Hf Ho. eapply earned_snoc; [exact He | ..]; simpl.
  - rewrite Hb. lia.
  - rewrite Hc. intros c [Hin | ->%list_elem_of_singleton]%elem_of_app; [auto | right].
    destruct Ho as [-> | (s & -> & ? & -> & -> & ->)]; [auto | right; eauto 10].
  - rewrite Hr. auto.
  - intros c Hconf. left. auto.
Qed.

Lemma earned_close es p q e :
  earned es p → bumps e = true → calls q = calls p → returns q = returns p →
  generation q = S (generation p) → confirmation q = None → earned (es ++ [e]) q.
Proof.
  intros He Hb Hc Hr Hg Hf. eapply earned_snoc; [exact He | ..].
  - rewrite Hb, Hg. lia.
  - rewrite Hc. auto.
  - rewrite Hr. auto.
  - congruence.
Qed.

Lemma earned_answer es i response :
  earned es (run new_page es) →
  earned (es ++ [Answer i response]) (answer i response (run new_page es)).
Proof.
  intros He. set (p := run new_page es) in *. unfold answer.
  destruct (calls p !! i) as [c|] eqn:Hi.
  2: { eapply earned_snoc; [exact He | ..]; simpl; auto; lia. }
  assert (Hin : c ∈ calls p) by eauto using list_elem_of_lookup_2.
  set (q := settle_call c response (set_calls (delete i (calls p)) p)).
  assert (Hq : generation q.1 = generation p ∧ calls q.1 = delete i (calls p) ∧
               returns q.1 = returns p ∧ confirmation q.1 = confirmation p ∧
               (q.2 = None ∨ q.2 = Some (default zero (requested_amount response)))).
  { unfold q, settle_call. branch; simpl; auto 10. }
  destruct q as [q v]; simpl in Hq. destruct Hq as (Hg & Hc & Hr & Hf & Hv).
  assert (Hsub : ∀ c', c' ∈ delete i (calls p) → c' ∈ calls p).
  { intros c' Hc'. rewrite (delete_Permutation _ _ _ Hi). by right. }
  destruct (call_owner c) as [[g s]|] eqn:Ho.
  - destruct (earned_calls _ _ He c g s Hin Ho) as (Hb & Ht & Hk & pre & post & Hsel).
    eapply earned_snoc; [exact He | ..]; simpl.
    + lia.
    + rewrite Hc. auto.
    + rewrite Hr. intros r [? | ->%list_elem_of_singleton]%elem_of_app; [auto | right; simpl].
      split; [done | ]. exists pre, post. split; [done | ].
      intros a ->. destruct Hv as [? | [= ->]]; [done | ]. eapply answered_after_now; eauto.
    + rewrite Hf. auto.
  - eapply earned_snoc; [exact He | ..]; simpl; rewrite ?Hg, ?Hc, ?Hr, ?Hf; auto; lia.
Qed.

Lemma earned_resume es p i : earned es p → earned (es ++ [Resume i]) (resume i p).
Proof.
  intros He. unfold resume. destruct (returns p !! i) as [r|] eqn:Hi.
  2: { eapply earned_snoc; [exact He | ..]; simpl; auto; lia. }
  assert (Hin : r ∈ returns p) by eauto using list_elem_of_lookup_2.
  set (p0 := set_returns (delete i (returns p)) p). set (q := (resume_select r p0).1).
  assert (Hq : generation q = generation p ∧ calls q = calls p ∧ returns q = delete i (returns p) ∧
    (confirmation q = confirmation p ∨ ∃ a, ret_generation r = generation p ∧ ret_amount r = Some a ∧
       payable a = true ∧ confirmation q = Some (createPaymentConfirmation (ret_selection r) a))).
  { unfold q, resume_select. destruct (ret_generation r =? generation p0) eqn:E; bools;
      destruct (ret_amount r) as [a|]; simpl; try (by auto 10).
    destruct (payable a) eqn:Ea; simpl; split_and!; eauto 10. }
  destruct Hq as (Hg & Hc & Hr & Hf). eapply earned_snoc; [exact He | ..]; simpl.
  - lia.
  - rewrite Hc. auto.
  - rewrite Hr. intros r' Hr'. left. rewrite (delete_Permutation _ _ _ Hi). by right.
  - intros c Hconf. destruct Hf as [Hf | (a & ? & ? & ? & Hf)]; rewrite Hf in Hconf;
      [by left | right; injection Hconf as <-; eauto 10].
Qed.

Lemma earned_step es e : earned es (run new_page es) → earned (es ++ [e]) (step (run new_page es) e).
Proof.
  intros He. destruct e as [t k | t k | s | | i response | i]; simpl.
  - eapply earned_calculate; simpl; eauto.
  - eapply earned_calculate; simpl; eauto. done.
  - unfold select. destruct (below_minimum s) eqn:Hb.
    + eapply earned_close; simpl; eauto.
    + eapply earned_calculate; simpl; eauto 10. done.
  - eapply earned_close; simpl; eauto.
  - by apply earned_answer.
  - by apply earned_resume.
Qed.

Lemma earned_run es : earned es (run new_page es).
Proof.
  induction es as [|e es IH] using rev_ind.
  - split; simpl; try done; set_solver.
  - rewrite run_app. simpl. by apply earned_step.
Qed.

(** C15: Whatever the order of clicks, answers and resumptions, a payment confirmation on
    the page is the one of the last method the user selected: since that selection
    nothing was closed, changed or selected again, its top-up amount is not below the
    minimum, and the amount to pay is finite, positive and the server's answer to the
    question about that amount and method, asked by that selection. *)
Theorem shown_confirmation_is_earned (es : list Event) (c : PaymentConfirmation) :
  confirmation (run new_page es) = Some c →
  ∃ pre s post a, es = pre ++ Select s :: post ∧
    Forall (fun e => keeps_confirmation e = true) post ∧
    num_ltb (sel_topupAmount s) (sel_minTopupAmount s) = false ∧
    is_finite a = true ∧ num_leb a zero = false ∧
    (sel_topupAmount s, pm_type (sel_paymentMethod s), a)
      ∈ answered (run new_page (pre ++ [Select s])) post ∧
    c = createPaymentConfirmation s a.
Proof.
  intros H. destruct (earned_confirmation _ _ (earned_run es) c H)
    as (pre & s & post & a & ? & ? & ? & Hp & ? & ?).
  unfold payable in Hp. bools. exists pre, s, post, a. split_and!; done.
Qed.

(** ** Every selection comes to its end

    The phases of the last selection while only answers and resumptions happen: its
    call is open, or its call has been answered with [a], or it has resumed. *)

Definition network (e : Event) : bool := negb (bumps e).

Definition older_call (p : Page) (c : Call) : Prop :=
  call_requestId c < latestRequestId p ∧ ∀ g s, call_owner c = Some (g, s) → g < generation p.

Definition older_return (p : Page) (r : Return) : Prop := ret_generation r < generation p.

(** What the page shows of a calculated amount. *)
Definition outcome (s : Selection) (a : number) : option PaymentConfirmation :=
  if payable a then Some (createPaymentConfirmation s a) else None.

Inductive phase (s : Selection) (p : Page) : option number → Prop :=
| Asking (olds : list Call) :
    calls p ≡ₚ {| call_requestId := latestRequestId p; call_topup := sel_topupAmount s;
                  call_type := pm_type (sel_paymentMethod s);
                  call_owner := Some (generation p, s) |} :: olds →
    Forall (older_call p) olds → Forall (older_return p) (returns p) →
    confirmation p = None → phase s p None
| Answered (a : number) (olds : list Return) :
    Forall (older_call p) (calls p) →
    returns p ≡ₚ {| ret_generation := generation p; ret_selection := s; ret_amount := Some a |} :: olds →
    Forall (older_return p) olds → confirmation p = None →
    amount p = a → calculating p = false → phase s p (Some a)
| Resumed (a : number) :
    Forall (older_call p) (calls p) → Forall (older_return p) (returns p) →
    confirmation p = outcome s a → loading p = None →
    amount p = a → calculating p = false → phase s p (Some a).

(** Taking one element out of a list that holds [x] once. *)
Lemma take_out {A} (l olds : list A) x y i :
  l !! i = Some y → l ≡ₚ x :: olds →
  (y = x ∧ delete i l ≡ₚ olds) ∨ (y ∈ olds ∧ ∃ olds', olds ≡ₚ y :: olds' ∧ delete i l ≡ₚ x :: olds').
Proof.
  intros Hi Hl. pose proof (delete_Permutation _ _ _ Hi) as Hd.
  assert (Hy : y ∈ x :: olds) by (rewrite <- Hl; eauto using list_elem_of_lookup_2).
  apply elem_of_cons in Hy as [-> | Hy].
  - left. split; [done | ]. apply (Permutation_cons_inv (a := x)). by rewrite <- Hd.
  - right. split; [done | ]. apply elem_of_Permutation in Hy as [olds' Ho]. exists olds'.
    split; [done | ]. apply (Permutation_cons_inv (a := y)). rewrite <- Hd, Hl, Ho. apply perm_swap.
Qed.

(** Pages with the same counters have the same older calls and returns. *)
Lemma older_call_ext p q c :
  generation q = generation p → latestRequestId q = latestRequestId p → older_call p c → older_call q c.
Proof. unfold older_call. by intros -> ->. Qed.

Lemma older_return_ext p q r : generation q = generation p → older_return p r → older_return q r.
Proof. unfold older_return. by intros ->. Qed.

Lemma answer_older p i c response :
  calls p !! i = Some c → older_call p c →
  ∃ extra, answer i response p = set_returns (returns p ++ extra) (set_calls (delete i (calls p)) p) ∧
    Forall (older_return p) extra.
Proof.
  intros Hi [Hid Hg]. unfold answer, settle_call. rewrite Hi. simpl.
  rewrite (proj2 (Nat.eqb_neq _ _)) by lia. simpl.
  destruct (call_owner c) as [[g s]|].
  - eexists [_]. split; [done | ]. repeat constructor. by eapply Hg.
  - exists []. split; [by rewrite app_nil_r | constructor].
Qed.

Lemma resume_older p i r :
  returns p !! i = Some r → older_return p r → resume i p = set_returns (delete i (returns p)) p.
Proof.
  intros Hi Hg. unfold resume, resume_select. rewrite Hi. unfold older_return in Hg.
  rewrite (proj2 (Nat.eqb_neq _ _)) by (simpl; lia). by destruct (ret_amount r).
Qed.

Lemma Forall_take_out {A} (P : A → Prop) l i y :
  l !! i = Some y → Forall P l → P y ∧ Forall P (delete i l).
Proof. intros Hi H. rewrite (delete_Permutation _ _ _ Hi) in H. by apply Forall_cons. Qed.

Lemma take_out_older {A} (P : A → Prop) l olds x y i :
  l !! i = Some y → l ≡ₚ x :: olds → Forall P olds →
  (y = x ∧ Forall P (delete i l)) ∨
  (P y ∧ ∃ olds', delete i l ≡ₚ x :: olds' ∧ Forall P olds').
Proof.
  intros Hi Hl Hall. destruct (take_out _ _ _ _ _ Hi Hl) as [[-> Hd] | (Hy & olds' & Ho & Hd)].
  - left. split; [done | by rewrite Hd].
  - right. rewrite Ho in Hall. apply Forall_cons in Hall as [? ?]. eauto.
Qed.

(** What may become of the answer of the selection [s] in one event. *)
Definition learns (s : Selection) (p : Page) (e : Event) (before after : option number) : Prop :=
  after = before ∨
  before = None ∧ ∃ a, after = Some a ∧
    (sel_topupAmount s, pm_type (sel_paymentMethod s), a) ∈ answered_now p e.

Lemma phase_answer s p o i response :
  phase s p o → ∃ o', phase s (answer i response p) o' ∧ learns s p (Answer i response) o o'.
Proof.
  intros Hp. destruct (calls p !! i) as [c|] eqn:Hi.
  2: { exists o. unfold answer. rewrite Hi. split; [done | by left]. }
  destruct Hp as [olds Hc Hold Hret Hconf | a olds Hc Hr Hold Hconf Ha Hcalc | a Hc Hr Hconf Hl Ha Hcalc].
  - destruct (take_out_older _ _ _ _ _ _ Hi Hc Hold) as [[-> Hd] | (Hy & olds' & Hd & Hold')].
    + exists (Some (default zero (requested_amount response))). split.
      2: { right. split; [done | ]. eexists. split; [done | ]. simpl. rewrite Hi. left. }
      unfold answer, settle_call. rewrite Hi. simpl. rewrite Nat.eqb_refl. simpl.
      eapply Answered with (olds := returns p); simpl; try done.
      apply Permutation_sym, Permutation_cons_append.
    + destruct (answer_older p i c response Hi Hy) as (extra & -> & Hextra).
      exists None. split; [ | by left]. eapply Asking; simpl; eauto. apply Forall_app; auto.
  - destruct (Forall_take_out _ _ _ _ Hi Hc) as [Hy Hd].
    destruct (answer_older p i c response Hi Hy) as (extra & -> & Hextra).
    exists (Some a). split; [ | by left].
    eapply Answered with (olds := olds ++ extra); simpl; try done; [by rewrite Hr | by apply Forall_app].
  - destruct (Forall_take_out _ _ _ _ Hi Hc) as [Hy Hd].
    destruct (answer_older p i c response Hi Hy) as (extra & -> & Hextra).
    exists (Some a). split; [ | by left]. apply Resumed; simpl; try done. by apply Forall_app.
Qed.

Lemma phase_resume s p o i : phase s p o → phase s (resume i p) o.
Proof.
  intros Hp. destruct (returns p !! i) as [r|] eqn:Hi; [ | by unfold resume; rewrite Hi].
  destruct Hp as [olds Hc Hold Hret Hconf | a olds Hc Hr Hold Hconf Ha Hcalc | a Hc Hr Hconf Hl Ha Hcalc].
  - destruct (Forall_take_out _ _ _ _ Hi Hret) as [Hy Hd]. rewrite (resume_older _ _ _ Hi Hy).
    eapply Asking; simpl; eauto.
  - destruct (take_out_older _ _ _ _ _ _ Hi Hr Hold) as [[-> Hd] | (Hy & olds' & Hd & Hold')].
    + unfold resume, resume_select. rewrite Hi. simpl. rewrite Nat.eqb_refl. simpl.
      destruct (payable a) eqn:E; apply Resumed; simpl; try done; unfold outcome; by rewrite E.
    + rewrite (resume_older _ _ _ Hi Hy). eapply Answered; simpl; eauto.
  - destruct (Forall_take_out _ _ _ _ Hi Hr) as [Hy Hd]. rewrite (resume_older _ _ _ Hi Hy).
    by apply Resumed.
Qed.

Lemma phase_run s p es :
  Forall (fun e => network e = true) es → phase s p None →
  ∃ o, phase s (run p es) o ∧
    ∀ a, o = Some a → (sel_topupAmount s, pm_type (sel_paymentMethod s), a) ∈ answered p es.
Proof.
  intros Hn Hp. induction es as [|e es IH] using rev_ind; [by exists None | ].
  apply Forall_app in Hn as [Hn He]. destruct (IH Hn) as (o & Ho & Ha). rewrite run_app. simpl.
  assert (Hstep : ∃ o', phase s (step (run p es) e) o' ∧ learns s (run p es) e o o').
  { rewrite Forall_singleton in He. destruct e; try done; simpl.
    - by apply phase_answer.
    - exists o. split; [by apply phase_resume | by left]. }
  destruct Hstep as (o' & Ho' & Hlearn). exists o'. split; [done | ]. intros a ->.
  rewrite answered_app, elem_of_app. simpl. rewrite app_nil_r.
  destruct Hlearn as [<- | (-> & a' & [= <-] & Hin)]; auto.
Qed.

(** Identifiers of open calls never exceed the counter. *)
Definition counted (p : Page) : Prop := Forall (fun c => call_requestId c ≤ latestRequestId p) (calls p).

Lemma counted_calculate topup type owner p q :
  calls q = calls p → latestRequestId q = latestRequestId p → counted p →
  counted (calculate topup type owner q).
Proof.
  unfold counted. intros Hc Hl Hp. simpl. rewrite Hc, Hl. apply Forall_app. split; [ | by repeat constructor].
  eapply Forall_impl; [exact Hp | simpl; lia].
Qed.

Lemma counted_step p e : counted p → counted (step p e).
Proof.
  intros Hp. destruct e as [t k | t k | s | | i response | i]; simpl.
  - by apply (counted_calculate _ _ _ p).
  - by apply (counted_calculate _ _ _ p).
  - unfold select. branch; [done | by apply (counted_calculate _ _ _ p)].
  - eapply Forall_impl; [exact Hp | simpl; lia].
  - unfold answer. destruct (calls p !! i) as [c|] eqn:Hi; [ | done].
    destruct (Forall_take_out _ _ _ _ Hi Hp) as [_ Hd]. unfold settle_call.
    branch; destruct (call_owner c) as [[]|]; done.
  - unfold resume, resume_select. destruct (returns p !! i) as [r|]; [ | done].
    destruct (ret_generation r =? _), (ret_amount r) as [a|]; simpl; try done; by destruct (payable a).
Qed.

Lemma counted_run es : counted (run new_page es).
Proof.
  induction es as [|e es IH] using rev_ind; [constructor | ].
  rewrite run_app. simpl. by apply counted_step.
Qed.

Lemma selected_bound pre s post es g : selected pre s post es g → g ≤ bump_count es.
Proof. intros [-> ->]. rewrite bump_count_app, bump_count_cons. simpl. lia. Qed.

Lemma phase_select es s :
  below_minimum s = false → phase s (select s (run new_page es)).1 None.
Proof.
  intros Hb. pose proof (earned_run es) as [Hg Hc Hr _]. pose proof (counted_run es) as Hid.
  unfold select. rewrite Hb. eapply Asking with (olds := calls (run new_page es)); simpl.
  - apply Permutation_sym, Permutation_cons_append.
  - apply Forall_forall. intros c Hin. unfold counted in Hid. rewrite Forall_forall in Hid. split; simpl.
    + specialize (Hid c Hin). lia.
    + intros g s' Ho. destruct (Hc c g s' Hin Ho) as (_ & _ & _ & pre & post & Hsel).
      apply selected_bound in Hsel. lia.
  - apply Forall_forall. intros r Hin. destruct (Hr r Hin) as (_ & pre & post & Hsel & _).
    apply selected_bound in Hsel. unfold older_return; simpl. lia.
  - done.
Qed.

(** C16: A selection with an amount not below the minimum always comes to its end: when,
    after it, only answers arrive and functions resume, in any order and with any older
    requests among them, then once nothing is pending the loading mark and the
    calculating mark are gone, the page shows the amount [a] the server answered for this
    selection, and the confirmation is exactly the one of [a], or none when [a] is not a
    positive finite number. *)
Theorem selection_comes_to_its_end (es post : list Event) (s : Selection) :
  num_ltb (sel_topupAmount s) (sel_minTopupAmount s) = false →
  Forall (fun e => network e = true) post →
  let p := run new_page (es ++ Select s :: post) in
  calls p = [] → returns p = [] →
  loading p = None ∧ calculating p = false ∧
  (sel_topupAmount s, pm_type (sel_paymentMethod s), amount p)
    ∈ answered (run new_page (es ++ [Select s])) post ∧
  confirmation p = if is_finite (amount p) && negb (num_leb (amount p) zero)
                   then Some (createPaymentConfirmation s (amount p)) else None.
Proof.
  intros Hb Hn p Hcalls Hreturns.
  assert (Hp : p = run (run new_page (es ++ [Select s])) post).
  { unfold p. rewrite <- run_app, <- app_assoc. done. }
  assert (H0 : phase s (run new_page (es ++ [Select s])) None).
  { rewrite run_app. simpl. by apply phase_select. }
  destruct (phase_run s _ post Hn H0) as (o & Ho & Ha). rewrite <- Hp in Ho.
  destruct Ho as [olds Hc | a olds _ Hr | a _ _ Hconf Hl Hamount Hcalc].
  - rewrite Hcalls in Hc. by apply Permutation_nil_cons in Hc.
  - rewrite Hreturns in Hr. by apply Permutation_nil_cons in Hr.
  - rewrite Hamount. split_and!; auto.
Qed.

(** ** Sample runs *)

Definition sample_selection (type : string) (topup : Z) : Selection :=
  {| sel_paymentMethod := sample_method type; sel_topupAmount := num_of_Z topup;
     sel_waffoMethodIndex := None; sel_loadingKey := js type; sel_minTopupAmount := num_of_Z 5;
     sel_discountRate := one; sel_usdExchangeRate := one |}.

Definition amount_answer (text : string) : option json :=
  Some (JObject [(js "success", JBool true); (js "data", JString (js text))]).

(** Two selections; the answers arrive in the other order. *)
Definition crossed_run : list Event :=
  [InitializeAmount (num_of_Z 5) ALIPAY; Select (sample_selection "stripe" 10);
   Select (sample_selection "alipay" 20);
   Answer 2 (amount_answer "19.8"); Answer 1 (amount_answer "9.9"); Resume 1; Resume 0;
   Answer 0 (amount_answer "4.9")].

Lemma shown_confirmation_is_earned_witness :
  ∃ pre s post a, crossed_run = pre ++ Select s :: post ∧
    Forall (fun e => keeps_confirmation e = true) post ∧
    num_ltb (sel_topupAmount s) (sel_minTopupAmount s) = false ∧
    is_finite a = true ∧ num_leb a zero = false ∧
    (sel_topupAmount s, pm_type (sel_paymentMethod s), a)
      ∈ answered (run new_page (pre ++ [Select s])) post ∧
    createPaymentConfirmation (sample_selection "alipay" 20) (Number (js "19.8")) =
      createPaymentConfirmation s a.
Proof. apply (shown_confirmation_is_earned crossed_run). vm_compute. reflexivity. Defined.

Lemma selection_comes_to_its_end_witness :
  let s := sample_selection "alipay" 20 in
  let post := [Answer 2 (amount_answer "19.8"); Answer 1 (amount_answer "9.9"); Resume 1; Resume 0;
               Answer 0 (amount_answer "4.9")] in
  let p := run new_page ([InitializeAmount (num_of_Z 5) ALIPAY; Select (sample_selection "stripe" 10)]
                         ++ Select s :: post) in
  loading p = None ∧ calculating p = false ∧
  (sel_topupAmount s, pm_type (sel_paymentMethod s), amount p)
    ∈ answered (run new_page ([InitializeAmount (num_of_Z 5) ALIPAY; Select (sample_selection "stripe" 10)]
                              ++ [Select s])) post ∧
  confirmation p = if is_finite (amount p) && negb (num_leb (amount p) zero)
                   then Some (createPaymentConfirmation s (amount p)) else None.
Proof.
  intros s post p. apply (selection_comes_to_its_end
    [InitializeAmount (num_of_Z 5) ALIPAY; Select (sample_selection "stripe" 10)] post s).
  - vm_compute. reflexivity.
  - repeat constructor.
  - vm_compute. reflexivity.
  - vm_compute. reflexivity.
Defined.
