(* ===== verification/ChannelCredentials.v ===== *)
(** * Replacing the keys of a Vertex channel

    The part of features/channels/lib/channel-form.ts that decides how keys are given when a
    channel with several keys is edited, and the effect of
    components/drawers/channel-mutate-drawer.tsx that applies it to the form: a change between
    service accounts and plain keys forces the mode that replaces all keys, and the mode the
    user had comes back when the change is taken back. *)

From Stdlib Require Import ZArith Lia.
From stdpp Require Import base numbers option list.
From S2P Require Import Prelude.

Inductive MultiKeyMode := MSingle | MBatch | MMultiToSingle.
Inductive KeyMode := KAppend | KReplace.
Inductive VertexKeyType := VJson | VApiKey.

#[export] Instance MultiKeyMode_eq_dec : EqDecision MultiKeyMode.
Proof. solve_decision. Defined.
#[export] Instance KeyMode_eq_dec : EqDecision KeyMode.
Proof. solve_decision. Defined.
#[export] Instance VertexKeyType_eq_dec : EqDecision VertexKeyType.
Proof. solve_decision. Defined.

(** The type of Vertex channels. *)
Definition VERTEX : Z := 41.

Record VertexPresentation := mkPresentation {
  multiKeyMode : MultiKeyMode;
  requiresReplacement : bool;
  keyMode : option KeyMode;
  (** The mode to come back to, always to append. *)
  forcedRestoreKeyMode : option unit;
}.

(** [currentKeyMode] and [forced] are absent where the source leaves them [undefined]; a
    [forcedRestoreKeyMode] of [null] is as one that is absent. *)
Definition getVertexCredentialPresentation (channelType : Z) (targetVertexKeyType : VertexKeyType)
    (hasExistingMultiKey hasExistingVertexServiceAccountKey : bool) (currentKeyMode : option KeyMode) (forced : option unit)
    : VertexPresentation :=
  let targetsServiceAccounts := (channelType =? VERTEX)%Z && bool_decide (targetVertexKeyType = VJson) in
  let changesCredentialFormat := hasExistingMultiKey && negb (eqb targetsServiceAccounts hasExistingVertexServiceAccountKey) in
  let '(mode, restore) :=
    match currentKeyMode with
    | Some m =>
        if changesCredentialFormat
        then match m with KReplace => (Some KReplace, forced) | KAppend => (Some KReplace, Some tt) end
        else match forced with Some _ => (Some KAppend, None) | None => (Some m, None) end
    | None => (None, forced)
    end in
  mkPresentation (if targetsServiceAccounts && hasExistingMultiKey then MMultiToSingle else MSingle) changesCredentialFormat mode restore.

Definition getVertexCredentialSynchronization (isEditing : bool) (sourceChannelType : option Z) (channelType : Z)
    (targetVertexKeyType : VertexKeyType) (hasExistingMultiKey hasExistingVertexServiceAccountKey : bool)
    (currentMultiKeyMode : option MultiKeyMode) (currentKeyMode : option KeyMode) (forced : option unit)
    : VertexPresentation * bool :=
  let presentation :=
    getVertexCredentialPresentation channelType targetVertexKeyType hasExistingMultiKey hasExistingVertexServiceAccountKey
      currentKeyMode forced in
  let hasTargetPresentationMismatch :=
    match currentMultiKeyMode with Some m => negb (bool_decide (m = multiKeyMode presentation)) | None => false end in
  (presentation,
   isEditing &&
   ((channelType =? VERTEX)%Z || bool_decide (sourceChannelType = Some VERTEX) || hasExistingVertexServiceAccountKey ||
    bool_decide (forced ≠ None) || hasTargetPresentationMismatch)).

(** ** The form of a channel that is edited *)

Record KeyForm := mkKeyForm {
  form_type : Z;
  form_vertex_key_type : option VertexKeyType;
  form_multi_key_mode : option MultiKeyMode;
  form_key_mode : option KeyMode;
  (** [forcedRestoreKeyModeRef.current]. *)
  forcedRestoreKeyModeRef : option unit;
}.

Section drawer.
  (** The channel as the server has it: its type, and whether it has several keys and service accounts. *)
  Context (sourceType : Z) (hasExistingMultiKey hasExistingVertexServiceAccountKey : bool).

(** The effect that synchronizes the form. *)
Definition synchronize (f : KeyForm) : KeyForm :=
  let '(transition, shouldSynchronize) :=
    getVertexCredentialSynchronization true (Some sourceType) (form_type f) (default VJson (form_vertex_key_type f))
      hasExistingMultiKey hasExistingVertexServiceAccountKey (form_multi_key_mode f) (form_key_mode f)
      (forcedRestoreKeyModeRef f) in
  if shouldSynchronize then
    mkKeyForm (form_type f) (form_vertex_key_type f) (Some (multiKeyMode transition))
      (match keyMode transition with Some m => Some m | None => form_key_mode f end) (forcedRestoreKeyMode transition)
  else f.

(** What the user does, and the effect after it. *)
Inductive KeyEvent := SetType (t : Z) | SetVertexKeyType (v : VertexKeyType) | ChooseKeyMode (m : KeyMode).

Definition edit (e : KeyEvent) (f : KeyForm) : KeyForm :=
  match e with
  | SetType t => mkKeyForm t (form_vertex_key_type f) (form_multi_key_mode f) (form_key_mode f) (forcedRestoreKeyModeRef f)
  | SetVertexKeyType v => mkKeyForm (form_type f) (Some v) (form_multi_key_mode f) (form_key_mode f) (forcedRestoreKeyModeRef f)
  | ChooseKeyMode m => mkKeyForm (form_type f) (form_vertex_key_type f) (form_multi_key_mode f) (Some m) None
  end.

Definition handle (f : KeyForm) (e : KeyEvent) : KeyForm := synchronize (edit e f).

(** ** The choice behind the form *)

(** What the user chose: the target, and the mode that was picked last. *)
Record Choice := mkChoice { c_type : Z; c_vertex_key_type : VertexKeyType; c_mode : KeyMode }.

Definition choose (c : Choice) (e : KeyEvent) : Choice :=
  match e with
  | SetType t => mkChoice t (c_vertex_key_type c) (c_mode c)
  | SetVertexKeyType v => mkChoice (c_type c) v (c_mode c)
  | ChooseKeyMode m => mkChoice (c_type c) (c_vertex_key_type c) m
  end.

(** The target is keys of service accounts. *)
Definition wants_accounts (c : Choice) : bool := (c_type c =? VERTEX)%Z && bool_decide (c_vertex_key_type c = VJson).

(** All keys must be replaced. *)
Definition must_replace (c : Choice) : bool := hasExistingMultiKey && negb (eqb (wants_accounts c) hasExistingVertexServiceAccountKey).

(** The form that shows a choice. *)
Definition shown (c : Choice) : KeyForm :=
  mkKeyForm (c_type c) (Some (c_vertex_key_type c))
    (Some (if wants_accounts c && hasExistingMultiKey then MMultiToSingle else MSingle))
    (Some (if must_replace c then KReplace else c_mode c))
    (if must_replace c && bool_decide (c_mode c = KAppend) then Some tt else None).

(** Whatever a form with the right target shows, the effect makes it show the choice, as long as the mode is the choice
    or is forced. *)
Lemma synchronize_shown c mk m r :
  (r = None ∧ m = c_mode c) ∨ (r = Some tt ∧ m = KReplace ∧ c_mode c = KAppend) →
  synchronize (mkKeyForm (c_type c) (Some (c_vertex_key_type c)) (Some mk) (Some m) r) = shown c.
Proof.
  intros H. unfold synchronize, getVertexCredentialSynchronization, getVertexCredentialPresentation, shown, must_replace, wants_accounts. cbn.
  destruct (c_type c =? VERTEX)%Z eqn:Et, (c_vertex_key_type c), hasExistingMultiKey, hasExistingVertexServiceAccountKey, (c_mode c);
    cbn; destruct H as [[-> ->]|(-> & -> & Hm)]; try discriminate Hm; cbn; rewrite ?orb_true_r; cbn; try reflexivity;
    destruct (bool_decide (Some sourceType = Some VERTEX)), mk; reflexivity.
Qed.

Lemma handle_shown c e : handle (shown c) e = shown (choose c e).
Proof.
  unfold handle. destruct c as [t v m], e as [t'|v'|m']; cbn [edit choose shown form_type form_vertex_key_type form_multi_key_mode form_key_mode
    forcedRestoreKeyModeRef c_type c_vertex_key_type c_mode].
  - apply (synchronize_shown (mkChoice t' v m)). unfold must_replace. cbn [c_mode].
    destruct (hasExistingMultiKey && _), m; cbn; auto.
  - apply (synchronize_shown (mkChoice t v' m)). unfold must_replace. cbn [c_mode]. destruct (hasExistingMultiKey && _), m; cbn; auto.
  - apply (synchronize_shown (mkChoice t v m')). cbn [c_mode]. auto.
Qed.
End drawer.

(** the form of a channel that is edited always shows what the user chose last.  After any series of changes of the
    type and of the kind of Vertex keys and of picks of the key mode, each followed by the effect, the form shows the
    mode that replaces all keys exactly when the target changes between service accounts and plain keys on a channel
    with several keys, and otherwise the mode picked last, also when the replacement was forced in between; the
    effect changes nothing when it runs again. *)
Theorem forced_key_mode_is_taken_back sourceType multi accounts es c :
  fold_left (handle sourceType multi accounts) es (shown multi accounts c) = shown multi accounts (fold_left choose es c) ∧
  synchronize sourceType multi accounts (shown multi accounts c) = shown multi accounts c.
Proof.
  split.
  - revert c. induction es as [|e es IH]; intros c; [reflexivity | ]. cbn [fold_left]. rewrite handle_shown. apply IH.
  - apply synchronize_shown. unfold must_replace. destruct (multi && _), (c_mode c); cbn; auto.
Qed.

Example forced_and_back :
  let f := shown true true (mkChoice 41 VJson KAppend) in
  map form_key_mode [f; handle 41 true true f (SetVertexKeyType VApiKey);
                     handle 41 true true (handle 41 true true f (SetVertexKeyType VApiKey)) (SetVertexKeyType VJson)]
  = [Some KAppend; Some KReplace; Some KAppend].
Proof. reflexivity. Qed.
