(* ===== verification/ChannelForm.v ===== *)
(** * The form of channels

    features/channels/lib/channel-form.ts: the values of the form, its checks, and the way
    from a channel of the server to the form and back.  An optional value is an option, also
    where the server sends [null].  The type of a channel is a whole number.  Settings are
    JSON objects kept as texts.  The browser's reading of addresses is a parameter. *)

From Stdlib Require Import ZArith Lia.
From stdpp Require Import base numbers strings option sets list.
From S2P Require Import Prelude JsNumber Json JsonText NumberText JsonPrint JsonStringify NumberOf StorageSchema AdvancedCustom VertexServiceAccount ChannelCredentials.

Definition CHANNEL_TYPE_NEW_API : Z := 60.
Definition CHANNEL_TYPE_ADVANCED_CUSTOM : Z := 58.
Definition MODEL_FETCHABLE_TYPES : list Z := [1; 4; 14; 17; 20; 23; 24; 25; 26; 27; 31; 34; 35; 40; 42; 43; 47; 48; 57; 58; 59; 60]%Z.

Inductive MultiKeyType := KRandom | KPolling.
Inductive HttpProtocol := HTTP_PROTOCOL_AUTO | HTTP_PROTOCOL_HTTP1.
Inductive AwsKeyType := AwsAkSk | AwsApiKey.

#[export] Instance HttpProtocol_eq_dec : EqDecision HttpProtocol.
Proof. solve_decision. Defined.

Record ChannelFormValues := mkForm {
  f_name : ustring;
  f_type : Z;
  f_base_url : option ustring;
  f_key : ustring;
  f_openai_organization : option ustring;
  f_models : ustring;
  f_group : list ustring;
  f_model_mapping : option ustring;
  f_priority : option number;
  f_weight : option number;
  f_test_model : option ustring;
  f_auto_ban : option number;
  f_status : number;
  f_status_code_mapping : option ustring;
  f_tag : option ustring;
  f_remark : option ustring;
  f_setting : option ustring;
  f_param_override : option ustring;
  f_header_override : option ustring;
  f_settings : option ustring;
  f_advanced_custom : option ustring;
  f_other : option ustring;
  f_multi_key_mode : option MultiKeyMode;
  f_multi_key_type : option MultiKeyType;
  f_batch_add_set_key_prefix_2_name : option bool;
  f_key_mode : option KeyMode;
  f_has_existing_vertex_service_account_key : option bool;
  f_has_existing_multi_key : option bool;
  f_force_format : option bool;
  f_thinking_to_content : option bool;
  f_proxy : option ustring;
  f_http_protocol : option HttpProtocol;
  f_http2_connection_shards : option number;
  f_pass_through_body_enabled : option bool;
  f_system_prompt : option ustring;
  f_system_prompt_override : option bool;
  f_is_enterprise_account : option bool;
  f_vertex_key_type : option VertexKeyType;
  f_aws_key_type : option AwsKeyType;
  f_azure_responses_version : option ustring;
  f_allow_service_tier : option bool;
  f_disable_store : option bool;
  f_allow_safety_identifier : option bool;
  f_allow_include_obfuscation : option bool;
  f_allow_inference_geo : option bool;
  f_allow_speed : option bool;
  f_claude_beta_query : option bool;
  f_disable_task_polling_sleep : option bool;
  f_upstream_model_update_check_enabled : option bool;
  f_upstream_model_update_auto_sync_enabled : option bool;
  f_upstream_model_update_ignored_models : option ustring;
}.

(** [value === true] of an optional flag. *)
Definition is_true (b : option bool) : bool := match b with Some true => true | _ => false end.

(** [value || ''], and whether [value?.trim()] is empty. *)
Definition or_empty (t : option ustring) : ustring := default [] t.
Definition blank_text (t : option ustring) : bool := negb (truthy (trim (or_empty t))).

(** ** Small parts *)

Definition MAX_HTTP2_CONNECTION_SHARDS : number := num_of_Z 8.

Definition protocol_name (p : HttpProtocol) : ustring :=
  match p with HTTP_PROTOCOL_AUTO => js "auto" | HTTP_PROTOCOL_HTTP1 => js "http1" end.

(** Only letters of the Latin alphabet become [h], [t] or [p] in lower case. *)
Definition lower (text : ustring) : ustring :=
  map (fun c => if (chr "A" <=? c)%Z && (c <=? chr "Z")%Z then (c + 32)%Z else c) text.

Definition normalizeHttpProtocol (value : option ustring) : HttpProtocol :=
  if ustring_eqb (lower (trim (or_empty value))) (protocol_name HTTP_PROTOCOL_HTTP1) then HTTP_PROTOCOL_HTTP1 else HTTP_PROTOCOL_AUTO.

Definition normalizeHttp2ConnectionShards (value : option number) : number :=
  match value with
  | None => one
  | Some n =>
      if is_nan n || num_eqb n zero then one
      else if num_ltb n one then one
      else if num_ltb MAX_HTTP2_CONNECTION_SHARDS n then MAX_HTTP2_CONNECTION_SHARDS
      else n
  end.

(** [Some None] is [undefined]; [None] is the throw of [JSON.parse]. *)
Definition parseOptionalJson (value : option ustring) : option (option json) :=
  if blank_text value then Some None else Some <$> JSON_parse (or_empty value).

Definition parseStoredJsonObject (value : option ustring) : list (ustring * json) :=
  if blank_text value then []
  else match JSON_parse (or_empty value) with Some (JObject fields) => fields | _ => [] end.

Definition isOptionalJsonObject (value : option ustring) : bool :=
  match parseOptionalJson value with
  | Some None | Some (Some (JObject _)) => true
  | _ => false
  end.

Definition isOptionalModelMapping (value : option ustring) : bool :=
  match parseOptionalJson value with
  | Some None => true
  | Some (Some (JObject fields)) => forallb (fun f => isString (Some f.2)) fields
  | _ => false
  end.

Definition valid_status_code (n : number) : bool := is_integer n && num_leb (num_of_Z 100) n && num_leb n (num_of_Z 599).

Definition isOptionalStatusCodeMapping (value : option ustring) : bool :=
  match parseOptionalJson value with
  | Some None => true
  | Some (Some (JObject fields)) => forallb (fun f => valid_status_code (Number_text f.1) && valid_status_code (Number_json f.2)) fields
  | _ => false
  end.

Definition credential_text (v : option json) : bool := match v with Some (JString s) => truthy (trim s) | _ => false end.

Definition isCodexCredential (value : option ustring) : bool :=
  match parseOptionalJson value with
  | Some None => true
  | Some (Some (JObject fields)) => credential_text (field fields (js "access_token")) && credential_text (field fields (js "account_id"))
  | _ => false
  end.

(** [text.split(/\r?\n/)]. *)
Fixpoint strip_returns (pieces : list ustring) : list ustring :=
  match pieces with
  | [] => []
  | [l] => [l]
  | p :: rest =>
      (match reverse p with c :: r => if (c =? 13)%Z then reverse r else p | [] => p end) :: strip_returns rest
  end.

Definition split_lines (text : ustring) : list ustring := strip_returns (split_on 10 text).

Definition SINGLE_REPLACEMENT_KEY_ERROR : ustring :=
  js "A single replacement key is required when leaving Vertex AI service-account mode".

(** The presentation for the values of a form, without a key mode. *)
Definition form_presentation (f : ChannelFormValues) : VertexPresentation :=
  getVertexCredentialPresentation (f_type f) (default VJson (f_vertex_key_type f)) (is_true (f_has_existing_multi_key f))
    (is_true (f_has_existing_vertex_service_account_key f)) None None.

Definition getSingleReplacementKeyError (f : ChannelFormValues) : option ustring :=
  let presentation := form_presentation f in
  let nonEmptyLines := filter (fun line => truthy (trim line) = true) (split_lines (f_key f)) in
  if requiresReplacement presentation && bool_decide (multiKeyMode presentation = MSingle) && (1 <? length nonEmptyLines)
  then Some SINGLE_REPLACEMENT_KEY_ERROR else None.

(** ** Lists of names *)

Definition parseModels (models : ustring) : list ustring := filter (fun m => truthy m = true) (map trim (split_on (chr ",") models)).
Definition parseGroups (groups : ustring) : list ustring := filter (fun g => truthy g = true) (map trim (split_on (chr ",") groups)).
Definition formatModels (models : list ustring) : ustring := join (js ",") models.
Definition formatGroups (groups : list ustring) : ustring := join (js ",") groups.

Definition validateJSON (value : ustring) : bool :=
  if negb (truthy (trim value)) then true else match JSON_parse value with Some _ => true | None => false end.

Definition validateModelMapping (value : ustring) : bool := if negb (truthy (trim value)) then true else validateJSON value.

(** ** Checks of the form *)

(** The path and the message of an issue. *)
Abbreviation issue := (ustring * ustring)%type.

Definition addRequiredIssue (path message : string) : issue := (js path, js message).

Definition when (b : bool) (i : issue) : list issue := if b then [i] else [].

Section checks.
  (** [new URL(text)]: the host and the protocol; the protocol, the host name and the port. *)
  Context (URL_parts : ustring → option (ustring * ustring)) (URL_address : ustring → option (ustring * ustring * ustring)).
  (** The message of the zod library for a number that is not whole. *)
  Context (int_message : ustring).

Definition SUPPORTED_PROXY_PROTOCOLS : list ustring := [js "http:"; js "https:"; js "socks5:"; js "socks5h:"].

Definition is_suffix_start (c : Z) : bool := (c =? chr "/")%Z || (c =? chr "?")%Z || (c =? chr "#")%Z.

Definition isOptionalProxyURL (value : option ustring) : bool :=
  let trimmedValue := trim (or_empty value) in
  if negb (truthy trimmedValue) then true
  else
    match index_of (js "://") trimmedValue with
    | None | Some 0 => false
    | Some schemeSeparatorIndex =>
        let authorityAndSuffix := drop (schemeSeparatorIndex + 3) trimmedValue in
        let suffix := drop_while (fun c => negb (is_suffix_start c)) authorityAndSuffix in
        if truthy suffix && negb (ustring_eqb suffix (js "/")) then false
        else
          match URL_address trimmedValue with
          | Some (protocol, hostname, port) =>
              bool_decide (protocol ∈ SUPPORTED_PROXY_PROTOCOLS) && truthy hostname && negb (ustring_eqb port (js "0"))
          | None => false
          end
    end.

(** The checks of the single fields.  The checks that a value is of its kind are left to the types of the values; those
    of the library also refuse a priority, a weight, a ban or a status that is not a finite number. *)
Definition field_issues (f : ChannelFormValues) : list issue :=
  when (negb (truthy (f_name f))) (addRequiredIssue "name" "Channel name is required") ++
  when (f_type f <? 0)%Z (addRequiredIssue "type" "Channel type is required") ++
  when (negb (truthy (f_models f))) (addRequiredIssue "models" "Models are required") ++
  when (bool_decide (f_group f = [])) (addRequiredIssue "group" "Group is required") ++
  when (negb (isOptionalModelMapping (f_model_mapping f)))
    (addRequiredIssue "model_mapping" "Model mapping must be a JSON object with string values") ++
  when (negb (isOptionalStatusCodeMapping (f_status_code_mapping f)))
    (addRequiredIssue "status_code_mapping" "Status code mapping must use valid HTTP status codes") ++
  when (255 <? length (or_empty (f_remark f))) (addRequiredIssue "remark" "Remark must be less than 255 characters") ++
  when (negb (isOptionalJsonObject (f_setting f))) (addRequiredIssue "setting" "Invalid JSON format") ++
  when (negb (isOptionalJsonObject (f_param_override f))) (addRequiredIssue "param_override" "Invalid JSON format") ++
  when (negb (isOptionalJsonObject (f_header_override f))) (addRequiredIssue "header_override" "Invalid JSON format") ++
  when (negb (isOptionalJsonObject (f_settings f))) (addRequiredIssue "settings" "Invalid JSON format") ++
  when (negb (isOptionalProxyURL (f_proxy f)))
    (addRequiredIssue "proxy" "Proxy address must use HTTP, HTTPS, SOCKS5, or SOCKS5H and include a valid host") ++
  when (match f_http2_connection_shards f with Some n => negb (is_integer n) | None => false end)
    (js "http2_connection_shards", int_message).

(** The configuration as a value, absent when it is [undefined]. *)
Definition advanced_config (f : ChannelFormValues) : option json := config_json <$> parseAdvancedCustomConfig (f_advanced_custom f).

(** [None] is a throw. *)
Definition advanced_issues (f : ChannelFormValues) : option (list issue) :=
  let config := advanced_config f in
  error ← validateAdvancedCustomConfig URL_parts config;
  relative ← advancedCustomConfigUsesRelativeUpstreamPath config;
  listed ← (if is_true (f_upstream_model_update_check_enabled f)
            then hasValidAdvancedCustomModelListRoute URL_parts config else Some true);
  Some (match error with Some e => [(js "advanced_custom", message e)] | None => [] end ++
        when (relative && blank_text (f_base_url f))
          (addRequiredIssue "base_url" "Base URL is required when an advanced route uses an upstream path") ++
        when (negb listed)
          (addRequiredIssue "upstream_model_update_check_enabled" "OpenAI Models route is required to enable upstream model checks")).

Definition vertex_message (batchMode : bool) (e : VertexServiceAccountError) : ustring :=
  match code e with
  | invalid_schema => js "Vertex AI service account key must include type, project_id, private_key, and client_email"
  | invalid_mode =>
      if batchMode then js "Vertex AI service account key must be a JSON array in batch modes"
      else js "Vertex AI service account key must be a single JSON object in single mode"
  | too_many_keys => js "Vertex AI service account key count exceeds the 100-key limit"
  | key_too_large => js "A Vertex AI service account key exceeds the 64 KiB limit"
  | total_too_large => js "Vertex AI service account keys exceed the 1 MiB total limit"
  | _ => js "Vertex AI service account key must be valid JSON"
  end.

Definition codex_issues (f : ChannelFormValues) : list issue :=
  when (match f_multi_key_mode f with Some m => negb (bool_decide (m = MSingle)) | None => false end)
    (addRequiredIssue "multi_key_mode" "Codex channels do not support batch creation") ++
  when (truthy (trim (f_key f)) && negb (isCodexCredential (Some (f_key f))))
    (addRequiredIssue "key" "Codex credential must be a JSON object with access_token and account_id").

Definition service_account_issues (f : ChannelFormValues) : list issue :=
  if negb (truthy (trim (f_key f))) then
    when (negb (is_true (f_has_existing_vertex_service_account_key f)))
      (addRequiredIssue "key" "Vertex AI service account key is required when enabling JSON service-account mode")
  else
    let batchMode := bool_decide (f_multi_key_mode f = Some MBatch) || bool_decide (f_multi_key_mode f = Some MMultiToSingle) in
    let existingMultiKeyEdit :=
      bool_decide (f_multi_key_mode f = Some MMultiToSingle) && is_true (f_has_existing_vertex_service_account_key f) in
    match validateVertexServiceAccountValue (f_key f) batchMode existingMultiKeyEdit with
    | Ok _ => []
    | Err e => [(js "key", vertex_message batchMode e)]
    end.

Definition vertex_json (f : ChannelFormValues) : bool := (f_type f =? VERTEX)%Z && bool_decide (f_vertex_key_type f = Some VJson).

Definition api_key_issues (f : ChannelFormValues) : list issue :=
  let existing := is_true (f_has_existing_vertex_service_account_key f) in
  let given := truthy (trim (f_key f)) in
  let replacesExistingServiceAccounts := existing && given && bool_decide (f_key_mode f = Some KReplace) in
  when (existing && negb given) (addRequiredIssue "key" "API key is required") ++
  when (match f_multi_key_mode f with Some m => negb (bool_decide (m = MSingle)) | None => false end && negb replacesExistingServiceAccounts)
    (addRequiredIssue "multi_key_mode" "Vertex AI API Key mode does not support batch creation").

Definition transport_issues (f : ChannelFormValues) : list issue :=
  let protocol := normalizeHttpProtocol (protocol_name <$> f_http_protocol f) in
  let shards := default one (f_http2_connection_shards f) in
  when (num_ltb shards one || num_ltb MAX_HTTP2_CONNECTION_SHARDS shards)
    (addRequiredIssue "http2_connection_shards" "HTTP/2 connection shards must be between 1 and 8") ++
  when (bool_decide (protocol = HTTP_PROTOCOL_HTTP1) && num_ltb one shards)
    (addRequiredIssue "http2_connection_shards" "HTTP/2 connection shards must be 1 when HTTP/1.1 is selected").

(** The refinement of the whole form; [None] is a throw. *)
Definition superRefine (f : ChannelFormValues) : option (list issue) :=
  advanced ← (if (f_type f =? CHANNEL_TYPE_ADVANCED_CUSTOM)%Z then advanced_issues f else Some []);
  Some (
    when (bool_decide (f_type f ∈ [3; 8; 36; 45; CHANNEL_TYPE_NEW_API]%Z) && blank_text (f_base_url f))
      (addRequiredIssue "base_url" "Base URL is required for this channel type") ++
    advanced ++
    when (bool_decide (f_type f ∈ [3; 18; 21; 39; 41; 49]%Z) && blank_text (f_other f))
      (addRequiredIssue "other" "This channel type requires additional configuration") ++
    (if (f_type f =? 57)%Z then codex_issues f else []) ++
    (if vertex_json f then service_account_issues f else []) ++
    when (is_true (f_has_existing_vertex_service_account_key f) && negb (vertex_json f) && negb (truthy (trim (f_key f))))
      (addRequiredIssue "key" "API key is required") ++
    (if (f_type f =? VERTEX)%Z && bool_decide (f_vertex_key_type f = Some VApiKey) then api_key_issues f else []) ++
    when (requiresReplacement (form_presentation f) && negb (bool_decide (f_key_mode f = Some KReplace)))
      (addRequiredIssue "key_mode" "Replace mode is required when leaving Vertex AI service-account mode") ++
    match getSingleReplacementKeyError f with Some message => [(js "key", message)] | None => [] end ++
    transport_issues f).
End checks.

(** ** Channels of the server *)

Record Channel := mkChannel {
  ch_type : Z;
  ch_name : ustring;
  ch_base_url : option ustring;
  ch_openai_organization : option ustring;
  ch_models : ustring;
  ch_group : ustring;
  ch_model_mapping : option ustring;
  ch_priority : option number;
  ch_weight : option number;
  ch_test_model : option ustring;
  ch_auto_ban : option number;
  ch_status : number;
  ch_status_code_mapping : option ustring;
  ch_tag : option ustring;
  ch_remark : ustring;
  ch_setting : option ustring;
  ch_param_override : option ustring;
  ch_header_override : option ustring;
  ch_settings : option ustring;
  ch_other : ustring;
  is_multi_key : bool;
  ch_multi_key_mode : option MultiKeyType;
}.

Definition CHANNEL_STATUS_ENABLED : number := one.

Definition CHANNEL_FORM_DEFAULT_VALUES : ChannelFormValues := {|
  f_name := []; f_type := 1; f_base_url := Some []; f_key := []; f_openai_organization := Some []; f_models := [];
  f_group := [js "default"]; f_model_mapping := Some []; f_priority := Some zero; f_weight := Some zero; f_test_model := Some [];
  f_auto_ban := Some one; f_status := CHANNEL_STATUS_ENABLED; f_status_code_mapping := Some []; f_tag := Some []; f_remark := Some [];
  f_setting := Some []; f_param_override := Some []; f_header_override := Some []; f_settings := Some (js "{}"); f_advanced_custom := Some [];
  f_other := Some []; f_multi_key_mode := Some MSingle; f_multi_key_type := Some KRandom; f_batch_add_set_key_prefix_2_name := Some false;
  f_key_mode := Some KAppend; f_has_existing_vertex_service_account_key := Some false; f_has_existing_multi_key := Some false;
  f_force_format := Some false; f_thinking_to_content := Some false; f_proxy := Some []; f_http_protocol := Some HTTP_PROTOCOL_AUTO;
  f_http2_connection_shards := Some one; f_pass_through_body_enabled := Some false; f_system_prompt := Some [];
  f_system_prompt_override := Some false; f_is_enterprise_account := Some false; f_vertex_key_type := Some VJson;
  f_aws_key_type := Some AwsAkSk; f_azure_responses_version := Some []; f_allow_service_tier := Some false; f_disable_store := Some false;
  f_allow_safety_identifier := Some false; f_allow_include_obfuscation := Some false; f_allow_inference_geo := Some false;
  f_allow_speed := Some false; f_claude_beta_query := Some false; f_disable_task_polling_sleep := Some false;
  f_upstream_model_update_check_enabled := Some false; f_upstream_model_update_auto_sync_enabled := Some false;
  f_upstream_model_update_ignored_models := Some [] |}.

(** [value || 0] and [value || null] of an optional number. *)
Definition truthy_number (n : number) : bool := negb (num_eqb n zero || is_nan n).
Definition number_or_zero (n : option number) : number := match n with Some x => if truthy_number x then x else zero | None => zero end.

(** The transport of the setting of a channel: the protocol and the shards. *)
Definition stored_shards (storedSetting : list (ustring * json)) : number :=
  match field storedSetting (js "http2_connection_shards") with
  | Some (JNumber n) => if is_integer n then normalizeHttp2ConnectionShards (Some n) else one
  | _ => one
  end.

Definition stored_text (o : list (ustring * json)) (name : string) : ustring := default [] (asString (field o (js name))).

Definition stored_flag (o : list (ustring * json)) (name : string) : bool := isTrue (field o (js name)).

(** [None] is a throw while the routes of an advanced custom channel are written. *)
Definition transformChannelToFormDefaults (channel : Channel) : option ChannelFormValues :=
  let storedSetting := parseStoredJsonObject (ch_setting channel) in
  let storedSettings := parseStoredJsonObject (ch_settings channel) in
  let protocol := normalizeHttpProtocol (asString (field storedSetting (js "http_protocol"))) in
  let vertexKeyType :=
    if (ch_type channel =? VERTEX)%Z && isText (field storedSettings (js "vertex_key_type")) (js "api_key") then VApiKey else VJson in
  let existing := (ch_type channel =? VERTEX)%Z && bool_decide (vertexKeyType = VJson) in
  advancedCustom ← (let v := field storedSettings (js "advanced_custom") in
                    if truthy_json v then (match v with Some c => stringifyAdvancedCustomConfig c | None => Some [] end) else Some []);
  let vertexPresentation :=
    getVertexCredentialPresentation (ch_type channel) vertexKeyType (is_multi_key channel) existing None None in
  let flag name := Some (stored_flag storedSettings name) in
  Some {|
    f_name := ch_name channel; f_type := ch_type channel; f_base_url := Some (or_empty (ch_base_url channel)); f_key := [];
    f_openai_organization := Some (or_empty (ch_openai_organization channel)); f_models := ch_models channel;
    f_group := parseGroups (if truthy (ch_group channel) then ch_group channel else js "default");
    f_model_mapping := Some (or_empty (ch_model_mapping channel)); f_priority := Some (number_or_zero (ch_priority channel));
    f_weight := Some (number_or_zero (ch_weight channel)); f_test_model := Some (or_empty (ch_test_model channel));
    f_auto_ban := Some (default one (ch_auto_ban channel)); f_status := ch_status channel;
    f_status_code_mapping := Some (or_empty (ch_status_code_mapping channel)); f_tag := Some (or_empty (ch_tag channel));
    f_remark := Some (ch_remark channel); f_setting := Some (JSON_stringify (JObject storedSetting));
    f_param_override := Some (or_empty (ch_param_override channel)); f_header_override := Some (or_empty (ch_header_override channel));
    f_settings := Some (JSON_stringify (JObject storedSettings)); f_advanced_custom := Some advancedCustom; f_other := Some (ch_other channel);
    f_multi_key_mode := Some (multiKeyMode vertexPresentation);
    f_multi_key_type := Some (default KRandom (ch_multi_key_mode channel)); f_batch_add_set_key_prefix_2_name := Some false;
    f_key_mode := Some KAppend; f_has_existing_vertex_service_account_key := Some existing;
    f_has_existing_multi_key := Some (is_multi_key channel);
    f_force_format := Some (stored_flag storedSetting "force_format"); f_thinking_to_content := Some (stored_flag storedSetting "thinking_to_content");
    f_proxy := Some (stored_text storedSetting "proxy"); f_http_protocol := Some protocol;
    f_http2_connection_shards := Some (match protocol with HTTP_PROTOCOL_HTTP1 => one | HTTP_PROTOCOL_AUTO => stored_shards storedSetting end);
    f_pass_through_body_enabled := Some (stored_flag storedSetting "pass_through_body_enabled");
    f_system_prompt := Some (stored_text storedSetting "system_prompt");
    f_system_prompt_override := Some (stored_flag storedSetting "system_prompt_override");
    f_is_enterprise_account := flag "openrouter_enterprise"%string; f_vertex_key_type := Some vertexKeyType;
    f_aws_key_type := Some (if isText (field storedSettings (js "aws_key_type")) (js "api_key") then AwsApiKey else AwsAkSk);
    f_azure_responses_version := Some (stored_text storedSettings "azure_responses_version");
    f_allow_service_tier := flag "allow_service_tier"%string; f_disable_store := flag "disable_store"%string;
    f_allow_safety_identifier := flag "allow_safety_identifier"%string; f_allow_include_obfuscation := flag "allow_include_obfuscation"%string;
    f_allow_inference_geo := flag "allow_inference_geo"%string; f_allow_speed := flag "allow_speed"%string;
    f_claude_beta_query := flag "claude_beta_query"%string; f_disable_task_polling_sleep := flag "disable_task_polling_sleep"%string;
    f_upstream_model_update_check_enabled := flag "upstream_model_update_check_enabled"%string;
    f_upstream_model_update_auto_sync_enabled := flag "upstream_model_update_auto_sync_enabled"%string;
    f_upstream_model_update_ignored_models :=
      Some (match field storedSettings (js "upstream_model_update_ignored_models") with Some (JArray vs) => String_json (JArray vs) | _ => [] end) |}.

(** ** Settings as texts *)

Definition http_protocol_of (f : ChannelFormValues) : HttpProtocol := normalizeHttpProtocol (protocol_name <$> f_http_protocol f).

Definition shards_of (f : ChannelFormValues) : number :=
  match http_protocol_of f with
  | HTTP_PROTOCOL_HTTP1 => one
  | HTTP_PROTOCOL_AUTO => normalizeHttp2ConnectionShards (f_http2_connection_shards f)
  end.

(** The object of [buildSettingJSON]. *)
Definition setting_object (f : ChannelFormValues) : list (ustring * json) :=
  let settingObj :=
    [(js "force_format", JBool (is_true (f_force_format f)));
     (js "thinking_to_content", JBool (is_true (f_thinking_to_content f)));
     (js "proxy", JString (trim (or_empty (f_proxy f))));
     (js "pass_through_body_enabled", JBool (is_true (f_pass_through_body_enabled f)));
     (js "system_prompt", JString (or_empty (f_system_prompt f)));
     (js "system_prompt_override", JBool (is_true (f_system_prompt_override f)))] in
  match http_protocol_of f with
  | HTTP_PROTOCOL_HTTP1 => set_field settingObj (js "http_protocol") (JString (protocol_name HTTP_PROTOCOL_HTTP1))
  | HTTP_PROTOCOL_AUTO =>
      if num_ltb one (shards_of f) then set_field settingObj (js "http2_connection_shards") (JNumber (shards_of f)) else settingObj
  end.

Definition buildSettingJSON (f : ChannelFormValues) : ustring := JSON_stringify (JObject (setting_object f)).

(** [o.name = value], and [if ('name' in o) delete o.name]. *)
Definition put (name : string) (v : json) (o : list (ustring * json)) : list (ustring * json) := set_field o (js name) v.
Definition without (name : string) (o : list (ustring * json)) : list (ustring * json) := filter (fun p => p.1 ≠ js name) o.

(** Either of them. *)
Definition put_if (b : bool) (name : string) (v : json) (o : list (ustring * json)) : list (ustring * json) :=
  if b then put name v o else without name o.

Definition type_in (f : ChannelFormValues) (types : list Z) : bool := bool_decide (f_type f ∈ types).

Definition vertex_key_type_name (v : VertexKeyType) : ustring := match v with VJson => js "json" | VApiKey => js "api_key" end.
Definition aws_key_type_name (v : AwsKeyType) : ustring := match v with AwsAkSk => js "ak_sk" | AwsApiKey => js "api_key" end.

(** What depends on the kind of the provider. *)
Definition provider_settings (f : ChannelFormValues) (o : list (ustring * json)) : list (ustring * json) :=
  let flag b := JBool (is_true b) in
  let o := put_if (type_in f [41]%Z) "vertex_key_type" (JString (vertex_key_type_name (default VJson (f_vertex_key_type f)))) o in
  let o := put_if (type_in f [3]%Z && truthy (or_empty (f_azure_responses_version f))) "azure_responses_version"
             (JString (or_empty (f_azure_responses_version f))) o in
  let o := put_if (type_in f [20]%Z) "openrouter_enterprise" (flag (f_is_enterprise_account f)) o in
  let o := put_if (type_in f [33]%Z) "aws_key_type" (JString (aws_key_type_name (default AwsAkSk (f_aws_key_type f)))) o in
  let o := put_if (type_in f [1; 14; 57]%Z) "allow_service_tier" (flag (f_allow_service_tier f)) o in
  let o :=
    if type_in f [1; 57]%Z then
      put "allow_inference_geo" (flag (f_allow_inference_geo f))
        (put "allow_include_obfuscation" (flag (f_allow_include_obfuscation f))
           (put "allow_safety_identifier" (flag (f_allow_safety_identifier f)) (put "disable_store" (flag (f_disable_store f)) o)))
    else
      let o := without "allow_include_obfuscation" (without "allow_safety_identifier" (without "disable_store" o)) in
      if type_in f [14]%Z then o else without "allow_inference_geo" o in
  let o :=
    if type_in f [14]%Z then
      put "claude_beta_query" (flag (f_claude_beta_query f))
        (put "allow_speed" (flag (f_allow_speed f)) (put "allow_inference_geo" (flag (f_allow_inference_geo f)) o))
    else without "claude_beta_query" (without "allow_speed" o) in
  put "disable_task_polling_sleep" (flag (f_disable_task_polling_sleep f)) o.

(** The models that are ignored, without repetitions. *)
Definition ignored_models (f : ChannelFormValues) : list ustring :=
  uniq (filter (fun m => truthy m = true) (map trim (split_on (chr ",") (or_empty (f_upstream_model_update_ignored_models f))))).

Definition upstream_settings (f : ChannelFormValues) (o : list (ustring * json)) : list (ustring * json) :=
  let check := is_true (f_upstream_model_update_check_enabled f) in
  let o := put "upstream_model_update_check_enabled" (JBool check) o in
  let o := put "upstream_model_update_auto_sync_enabled" (JBool (check && is_true (f_upstream_model_update_auto_sync_enabled f))) o in
  let o := put "upstream_model_update_ignored_models" (JArray (map JString (ignored_models f))) o in
  let detected := match field o (js "upstream_model_update_last_detected_models") with Some (JArray _) => true | _ => false end in
  let o := if negb detected || negb check then put "upstream_model_update_last_detected_models" (JArray []) o else o in
  if isNumber (field o (js "upstream_model_update_last_check_time")) then o
  else put "upstream_model_update_last_check_time" (JNumber zero) o.

Definition advanced_settings (f : ChannelFormValues) (o : list (ustring * json)) : list (ustring * json) :=
  if (f_type f =? CHANNEL_TYPE_ADVANCED_CUSTOM)%Z
  then match advanced_config f with Some config => put "advanced_custom" config o | None => o end
  else without "advanced_custom" o.

(** The object of [buildSettingsJSON]. *)
Definition settings_object (f : ChannelFormValues) : list (ustring * json) :=
  let o := provider_settings f (parseStoredJsonObject (f_settings f)) in
  let o := if type_in f MODEL_FETCHABLE_TYPES then upstream_settings f o else o in
  advanced_settings f o.

Definition buildSettingsJSON (f : ChannelFormValues) : ustring := JSON_stringify (JObject (settings_object f)).

(** ** Requests to the server *)

(** [String(value || '').trim().replace(/\/+$/, '')]. *)
Definition normalizeBaseUrl (value : option ustring) : ustring :=
  reverse (drop_while (fun c => (c =? chr "/")%Z) (reverse (trim (or_empty value)))).

(** [text || null] and [number || null]. *)
Definition text_or_null (t : ustring) : json := if truthy t then JString t else JNull.
Definition number_or_null (n : option number) : json := match n with Some x => if truthy_number x then JNumber x else JNull | None => JNull end.

(** Empty texts become [null]. *)
Definition clean_empty (o : list (ustring * json)) : list (ustring * json) :=
  map (fun p => match p.2 with JString [] => (p.1, JNull) | _ => p end) o.

Record CreatePayload := mkCreatePayload {
  mode : MultiKeyMode;
  payload_multi_key_mode : option MultiKeyType;
  payload_batch_prefix : option bool;
  payload_channel : list (ustring * json);
}.

Definition transformFormDataToCreatePayload (f : ChannelFormValues) : CreatePayload :=
  let m := default MSingle (f_multi_key_mode f) in
  let text t := text_or_null (or_empty t) in
  let channel :=
    [(js "name", JString (f_name f)); (js "type", JNumber (num_of_Z (f_type f)));
     (js "base_url", text_or_null (normalizeBaseUrl (f_base_url f))); (js "key", JString (f_key f));
     (js "openai_organization", text (f_openai_organization f)); (js "models", JString (f_models f));
     (js "group", JString (formatGroups (f_group f))); (js "model_mapping", text (f_model_mapping f));
     (js "priority", number_or_null (f_priority f)); (js "weight", number_or_null (f_weight f));
     (js "test_model", text (f_test_model f)); (js "auto_ban", JNumber (default one (f_auto_ban f)));
     (js "status", JNumber (f_status f)); (js "status_code_mapping", text (f_status_code_mapping f)); (js "tag", text (f_tag f));
     (js "remark", JString (or_empty (f_remark f))); (js "setting", JString (buildSettingJSON f));
     (js "param_override", text (f_param_override f)); (js "header_override", text (f_header_override f));
     (js "settings", JString (buildSettingsJSON f)); (js "other", JString (or_empty (f_other f)))] in
  mkCreatePayload m (if bool_decide (m = MMultiToSingle) then f_multi_key_type f else None)
    (if bool_decide (m = MBatch) then f_batch_add_set_key_prefix_2_name f else None) (clean_empty channel).

(** [Err] is the error that is thrown. *)
Definition transformFormDataToUpdatePayload (f : ChannelFormValues) (channelId : number) : result ustring (list (ustring * json)) :=
  match getSingleReplacementKeyError f with
  | Some e => Err e
  | None =>
      let text t := text_or_null (or_empty t) in
      let payload :=
        [(js "id", JNumber channelId); (js "name", JString (f_name f)); (js "type", JNumber (num_of_Z (f_type f)));
         (js "base_url", text_or_null (normalizeBaseUrl (f_base_url f)));
         (js "openai_organization", text (f_openai_organization f)); (js "models", JString (f_models f));
         (js "group", JString (formatGroups (f_group f))); (js "model_mapping", text (f_model_mapping f));
         (js "priority", JNumber (default zero (f_priority f))); (js "weight", JNumber (default zero (f_weight f)));
         (js "test_model", text (f_test_model f)); (js "auto_ban", JNumber (default one (f_auto_ban f)));
         (js "status_code_mapping", text (f_status_code_mapping f)); (js "tag", text (f_tag f));
         (js "remark", JString (or_empty (f_remark f))); (js "setting", JString (buildSettingJSON f));
         (js "param_override", text (f_param_override f)); (js "header_override", text (f_header_override f));
         (js "settings", JString (buildSettingsJSON f)); (js "other", JString (or_empty (f_other f)))] in
      let payload := if truthy (trim (f_key f)) then set_field payload (js "key") (JString (f_key f)) else payload in
      let payload := clean_empty payload in
      let explicit name v o := put name (JString v) o in
      Ok (explicit "header_override"%string (or_empty (f_header_override f))
           (explicit "param_override"%string (or_empty (f_param_override f))
             (explicit "status_code_mapping"%string (or_empty (f_status_code_mapping f))
               (explicit "model_mapping"%string (or_empty (f_model_mapping f))
                 (explicit "remark"%string (or_empty (f_remark f))
                   (explicit "tag"%string (or_empty (f_tag f))
                     (explicit "test_model"%string (or_empty (f_test_model f))
                       (explicit "openai_organization"%string (or_empty (f_openai_organization f))
                         (explicit "base_url"%string (normalizeBaseUrl (f_base_url f)) payload)))))))))
  end.
