(* ===== verification/ChannelFormProperties.v ===== *)
(** * Properties of the form of channels

    What a form saves is what the form shows when it is opened again, settings the form does
    not know survive, and a form that passes the checks is sent as it is. *)

From Stdlib Require Import ZArith Lia.
From stdpp Require Import base numbers strings option sets list.
From S2P Require Import Prelude JsNumber Json JsonText NumberText JsonPrint JsonStringify JsonScan NumberOf StorageSchema AdvancedCustom AdvancedCustomProperties VertexServiceAccount ChannelCredentials ChannelForm.

(** ** Properties of objects *)

Lemma field_put_same n v o : field (put n v o) (js n) = Some v.
Proof. unfold put. rewrite field_set_field. unfold ustring_eqb. by rewrite bool_decide_true. Qed.

Lemma field_put_other n m v o : ustring_eqb (js n) m = false → field (put n v o) m = field o m.
Proof. unfold put. rewrite field_set_field. by intros ->. Qed.

Lemma field_without_same n o : field (without n o) (js n) = None.
Proof.
  unfold without. induction o as [|[k v] o IH]; [done | ]. rewrite filter_cons. cbn [fst]. case_decide; [ | exact IH]. cbn [field].
  unfold ustring_eqb. by rewrite bool_decide_false.
Qed.

Lemma field_without_other n m o : ustring_eqb (js n) m = false → field (without n o) m = field o m.
Proof.
  unfold without. intros Hn. induction o as [|[k v] o IH]; [done | ]. rewrite filter_cons. cbn [fst field]. case_decide as E.
  - cbn [field]. by rewrite IH.
  - subst k. by rewrite Hn.
Qed.

Lemma field_put_if_same b n v o : field (put_if b n v o) (js n) = if b then Some v else None.
Proof. unfold put_if. destruct b; [apply field_put_same | apply field_without_same]. Qed.

Lemma field_put_if_other b n m v o : ustring_eqb (js n) m = false → field (put_if b n v o) m = field o m.
Proof. intros H. unfold put_if. destruct b; [by apply field_put_other | by apply field_without_other]. Qed.

(** Looks a property up through a series of edits. *)
Ltac other := vm_compute; reflexivity.
Ltac look :=
  repeat first
    [ rewrite field_put_same | rewrite field_put_if_same | rewrite field_without_same
    | rewrite field_put_other by other | rewrite field_put_if_other by other | rewrite field_without_other by other ].

(** What the settings of a provider say about a property. *)
Lemma provider_fields f o :
  let get name := field (provider_settings f o) (js name) in
  get "vertex_key_type"%string = (if type_in f [41]%Z then Some (JString (vertex_key_type_name (default VJson (f_vertex_key_type f)))) else None) ∧
  get "azure_responses_version"%string =
    (if type_in f [3]%Z && truthy (or_empty (f_azure_responses_version f)) then Some (JString (or_empty (f_azure_responses_version f))) else None) ∧
  get "openrouter_enterprise"%string = (if type_in f [20]%Z then Some (JBool (is_true (f_is_enterprise_account f))) else None) ∧
  get "aws_key_type"%string = (if type_in f [33]%Z then Some (JString (aws_key_type_name (default AwsAkSk (f_aws_key_type f)))) else None) ∧
  get "allow_service_tier"%string = (if type_in f [1; 14; 57]%Z then Some (JBool (is_true (f_allow_service_tier f))) else None) ∧
  get "disable_task_polling_sleep"%string = Some (JBool (is_true (f_disable_task_polling_sleep f))).
Proof.
  cbv zeta. unfold provider_settings. cbv zeta. split_and!; destruct (type_in f [1; 57]%Z), (type_in f [14]%Z); look; reflexivity.
Qed.

Lemma provider_flags f o :
  let get name := field (provider_settings f o) (js name) in
  let flag b name v := get name = if b : bool then Some (JBool (is_true v)) else None in
  flag (type_in f [1; 57]%Z) "disable_store"%string (f_disable_store f) ∧
  flag (type_in f [1; 57]%Z) "allow_safety_identifier"%string (f_allow_safety_identifier f) ∧
  flag (type_in f [1; 57]%Z) "allow_include_obfuscation"%string (f_allow_include_obfuscation f) ∧
  flag (type_in f [1; 57]%Z || type_in f [14]%Z) "allow_inference_geo"%string (f_allow_inference_geo f) ∧
  flag (type_in f [14]%Z) "allow_speed"%string (f_allow_speed f) ∧
  flag (type_in f [14]%Z) "claude_beta_query"%string (f_claude_beta_query f).
Proof.
  cbv zeta. unfold provider_settings. cbv zeta. split_and!; destruct (type_in f [1; 57]%Z), (type_in f [14]%Z); look; reflexivity.
Qed.

(** The properties the form writes into the settings. *)
Definition provider_names : list ustring :=
  [js "vertex_key_type"; js "azure_responses_version"; js "openrouter_enterprise"; js "aws_key_type"; js "allow_service_tier";
   js "disable_store"; js "allow_safety_identifier"; js "allow_include_obfuscation"; js "allow_inference_geo"; js "allow_speed";
   js "claude_beta_query"; js "disable_task_polling_sleep"].
Definition upstream_names : list ustring :=
  [js "upstream_model_update_check_enabled"; js "upstream_model_update_auto_sync_enabled"; js "upstream_model_update_ignored_models";
   js "upstream_model_update_last_detected_models"; js "upstream_model_update_last_check_time"].
Definition managed_names : list ustring := provider_names ++ upstream_names ++ [js "advanced_custom"].

Lemma not_listed n name (names : list ustring) : js name ∈ names → n ∉ names → ustring_eqb (js name) n = false.
Proof. intros Hin Hn. unfold ustring_eqb. apply bool_decide_false. by intros <-. Qed.

(** Looks a name up that none of the edits is about. *)
Ltac listed := apply (bool_decide_unpack _); vm_compute; exact I.
Ltac pass H :=
  repeat first
    [ rewrite field_put_other by (eapply not_listed; [ | exact H]; listed)
    | rewrite field_put_if_other by (eapply not_listed; [ | exact H]; listed)
    | rewrite field_without_other by (eapply not_listed; [ | exact H]; listed) ].

Lemma provider_other f o n : n ∉ provider_names → field (provider_settings f o) n = field o n.
Proof.
  intros H. unfold provider_settings. cbv zeta. destruct (type_in f [1; 57]%Z), (type_in f [14]%Z); pass H; reflexivity.
Qed.

Lemma upstream_other f o n : n ∉ upstream_names → field (upstream_settings f o) n = field o n.
Proof.
  intros H. unfold upstream_settings. cbv zeta. destruct (isNumber _); destruct (_ || _); pass H; reflexivity.
Qed.

Lemma advanced_other f o n : n ≠ js "advanced_custom" → field (advanced_settings f o) n = field o n.
Proof.
  intros H. assert (Hn : ustring_eqb (js "advanced_custom") n = false) by (unfold ustring_eqb; apply bool_decide_false; congruence).
  unfold advanced_settings. destruct (_ =? _)%Z; [destruct (advanced_config f); [by apply field_put_other | done] | by apply field_without_other].
Qed.

(** A provider's property in the settings that are saved. *)
Lemma settings_provider f n : n ∈ provider_names → field (settings_object f) n = field (provider_settings f (parseStoredJsonObject (f_settings f))) n.
Proof.
  intros Hn. unfold settings_object. cbv zeta. rewrite advanced_other.
  - destruct (type_in f MODEL_FETCHABLE_TYPES); [apply upstream_other | done]. intros Hu.
    assert (Hd : Forall (fun m => m ∉ upstream_names) provider_names) by (apply (bool_decide_unpack _); vm_compute; exact I).
    exact (proj1 (Forall_forall _ _) Hd n Hn Hu).
  - intros ->. revert Hn. apply (bool_decide_unpack _). vm_compute. exact I.
Qed.

Lemma settings_foreign f n : n ∉ managed_names → field (settings_object f) n = field (parseStoredJsonObject (f_settings f)) n.
Proof.
  unfold managed_names. rewrite !elem_of_app, list_elem_of_singleton. intros H. unfold settings_object. cbv zeta.
  rewrite advanced_other by tauto. destruct (type_in f MODEL_FETCHABLE_TYPES); [rewrite upstream_other by tauto | ]; apply provider_other; tauto.
Qed.

Lemma upstream_fields f o :
  let get name := field (upstream_settings f o) (js name) in
  get "upstream_model_update_check_enabled"%string = Some (JBool (is_true (f_upstream_model_update_check_enabled f))) ∧
  get "upstream_model_update_auto_sync_enabled"%string =
    Some (JBool (is_true (f_upstream_model_update_check_enabled f) && is_true (f_upstream_model_update_auto_sync_enabled f))) ∧
  get "upstream_model_update_ignored_models"%string = Some (JArray (map JString (ignored_models f))).
Proof.
  cbv zeta. unfold upstream_settings. cbv zeta. split_and!; destruct (isNumber _); destruct (_ || _); look; reflexivity.
Qed.

(** ** Saved settings *)

Lemma stored_printed o : printable (JObject o) = true → parseStoredJsonObject (Some (JSON_stringify (JObject o))) = o.
Proof.
  intros Hp. destruct (printed_value_text _ Hp) as (fuel & Hs & _). unfold parseStoredJsonObject, blank_text, or_empty. cbn [default from_option].
  change (id ?x) with x. rewrite (solid_trim _ Hs), (solid_truthy _ Hs). cbn [negb]. by rewrite JSON_round_trip.
Qed.

Lemma normalize_shards_again v : normalizeHttp2ConnectionShards (Some (normalizeHttp2ConnectionShards v)) = normalizeHttp2ConnectionShards v.
Proof.
  unfold normalizeHttp2ConnectionShards at 2 3. destruct v as [n|]; [ | done]. destruct (is_nan n || num_eqb n zero) eqn:E1; [done | ].
  destruct (num_ltb n one) eqn:E2; [done | ]. destruct (num_ltb MAX_HTTP2_CONNECTION_SHARDS n) eqn:E3; [done | ].
  unfold normalizeHttp2ConnectionShards. by rewrite E1, E2, E3.
Qed.

Lemma normalize_shards_integer v :
  match v with Some n => is_integer n = true | None => True end → is_integer (normalizeHttp2ConnectionShards v) = true.
Proof.
  unfold normalizeHttp2ConnectionShards. destruct v as [n|]; [ | done]. intros Hn. by repeat case_match.
Qed.

Definition whole_shards (f : ChannelFormValues) : Prop := match f_http2_connection_shards f with Some n => is_integer n = true | None => True end.

(** The shards that are written. *)
Definition saved_shards (f : ChannelFormValues) : number := if num_ltb one (shards_of f) then shards_of f else one.

Lemma setting_fields f :
  let get name := field (setting_object f) (js name) in
  get "force_format"%string = Some (JBool (is_true (f_force_format f))) ∧
  get "thinking_to_content"%string = Some (JBool (is_true (f_thinking_to_content f))) ∧
  get "proxy"%string = Some (JString (trim (or_empty (f_proxy f)))) ∧
  get "pass_through_body_enabled"%string = Some (JBool (is_true (f_pass_through_body_enabled f))) ∧
  get "system_prompt"%string = Some (JString (or_empty (f_system_prompt f))) ∧
  get "system_prompt_override"%string = Some (JBool (is_true (f_system_prompt_override f))) ∧
  get "http_protocol"%string = match http_protocol_of f with HTTP_PROTOCOL_HTTP1 => Some (JString (js "http1")) | _ => None end ∧
  get "http2_connection_shards"%string =
    match http_protocol_of f with
    | HTTP_PROTOCOL_AUTO => if num_ltb one (shards_of f) then Some (JNumber (shards_of f)) else None
    | _ => None
    end.
Proof.
  cbv zeta. unfold setting_object. cbv zeta. destruct (http_protocol_of f).
  - destruct (num_ltb one (shards_of f)); split_and!; reflexivity.
  - split_and!; reflexivity.
Qed.

Lemma stored_transport f : whole_shards f →
  let p := normalizeHttpProtocol (asString (field (setting_object f) (js "http_protocol"))) in
  p = http_protocol_of f ∧
  match p with HTTP_PROTOCOL_HTTP1 => one | HTTP_PROTOCOL_AUTO => stored_shards (setting_object f) end = saved_shards f.
Proof.
  intros Hw. cbv zeta. destruct (setting_fields f) as (_ & _ & _ & _ & _ & _ & Hp & Hs). rewrite Hp. unfold stored_shards. rewrite Hs. unfold saved_shards.
  destruct (http_protocol_of f) eqn:E; split; try done.
  - destruct (num_ltb one (shards_of f)) eqn:El; [ | done]. change (normalizeHttpProtocol (asString None)) with HTTP_PROTOCOL_AUTO. cbn iota.
    unfold shards_of. rewrite E. rewrite normalize_shards_integer by done. apply normalize_shards_again.
  - unfold shards_of. rewrite E. done.
Qed.

Lemma join_strings ms : String_json (JArray (map JString ms)) = join (js ",") ms.
Proof.
  cbn [String_json]. f_equal. induction ms as [|m ms IH]; [done | ]. cbn [map]. by rewrite IH.
Qed.

Lemma settings_upstream f n : type_in f MODEL_FETCHABLE_TYPES = true → n ∈ upstream_names →
  field (settings_object f) n = field (upstream_settings f (provider_settings f (parseStoredJsonObject (f_settings f)))) n.
Proof.
  intros Ht Hn. unfold settings_object. cbv zeta. rewrite Ht. apply advanced_other. intros ->. revert Hn. apply (bool_decide_unpack _). vm_compute. exact I.
Qed.

(** The routes of an advanced custom channel are written and read in their normal form. *)
Definition advanced_text (f : ChannelFormValues) : ustring :=
  if (f_type f =? CHANNEL_TYPE_ADVANCED_CUSTOM)%Z
  then match parseAdvancedCustomConfig (f_advanced_custom f) with Some routes => JSON_print (js "  ") [] (config_json routes) | None => [] end
  else [].

Lemma parse_config_normal value routes : parseAdvancedCustomConfig value = Some routes → Forall normal_route routes.
Proof.
  unfold parseAdvancedCustomConfig. destruct value as [text|]; [ | done]. destruct (negb _); [done | ].
  destruct (JSON_parse text) as [[| | | | |fields]|]; try done. apply normalize_config_normal.
Qed.

Lemma advanced_read f :
  (f_type f = CHANNEL_TYPE_ADVANCED_CUSTOM → advanced_config f ≠ None) →
  (let v := field (settings_object f) (js "advanced_custom") in
   if truthy_json v then (match v with Some c => stringifyAdvancedCustomConfig c | None => Some [] end) else Some []) = Some (advanced_text f).
Proof.
  intros Hc. cbv zeta. unfold settings_object, advanced_settings, advanced_text. cbv zeta. destruct (Z.eqb_spec (f_type f) CHANNEL_TYPE_ADVANCED_CUSTOM) as [E|E].
  - specialize (Hc E). unfold advanced_config in *. destruct (parseAdvancedCustomConfig (f_advanced_custom f)) as [routes|] eqn:Ep; [ | done].
    cbn [fmap option_fmap option_map]. rewrite field_put_same. cbn [truthy_json config_json]. unfold stringifyAdvancedCustomConfig.
    fold (config_json routes). rewrite normalize_config_json by (by eapply parse_config_normal). done.
  - by rewrite field_without_same.
Qed.

(** What a form shows after it was saved and opened again. *)
Definition reopened (f g : ChannelFormValues) : Prop :=
  let kept types v := Some (type_in f types && is_true v) in
  f_type g = f_type f ∧ f_key g = [] ∧ f_key_mode g = Some KAppend ∧
  f_force_format g = Some (is_true (f_force_format f)) ∧
  f_thinking_to_content g = Some (is_true (f_thinking_to_content f)) ∧
  f_proxy g = Some (trim (or_empty (f_proxy f))) ∧
  f_http_protocol g = Some (http_protocol_of f) ∧
  f_http2_connection_shards g = Some (saved_shards f) ∧
  f_pass_through_body_enabled g = Some (is_true (f_pass_through_body_enabled f)) ∧
  f_system_prompt g = Some (or_empty (f_system_prompt f)) ∧
  f_system_prompt_override g = Some (is_true (f_system_prompt_override f)) ∧
  f_vertex_key_type g = Some (if type_in f [41]%Z then default VJson (f_vertex_key_type f) else VJson) ∧
  f_azure_responses_version g = Some (if type_in f [3]%Z then or_empty (f_azure_responses_version f) else []) ∧
  f_is_enterprise_account g = kept [20]%Z (f_is_enterprise_account f) ∧
  f_aws_key_type g = Some (if type_in f [33]%Z then default AwsAkSk (f_aws_key_type f) else AwsAkSk) ∧
  f_allow_service_tier g = kept [1; 14; 57]%Z (f_allow_service_tier f) ∧
  f_disable_store g = kept [1; 57]%Z (f_disable_store f) ∧
  f_allow_safety_identifier g = kept [1; 57]%Z (f_allow_safety_identifier f) ∧
  f_allow_include_obfuscation g = kept [1; 57]%Z (f_allow_include_obfuscation f) ∧
  f_allow_inference_geo g = Some ((type_in f [1; 57]%Z || type_in f [14]%Z) && is_true (f_allow_inference_geo f)) ∧
  f_allow_speed g = kept [14]%Z (f_allow_speed f) ∧
  f_claude_beta_query g = kept [14]%Z (f_claude_beta_query f) ∧
  f_disable_task_polling_sleep g = Some (is_true (f_disable_task_polling_sleep f)) ∧
  f_advanced_custom g = Some (advanced_text f) ∧
  (type_in f MODEL_FETCHABLE_TYPES = true →
     let check := is_true (f_upstream_model_update_check_enabled f) in
     f_upstream_model_update_check_enabled g = Some check ∧
     f_upstream_model_update_auto_sync_enabled g = Some (check && is_true (f_upstream_model_update_auto_sync_enabled f)) ∧
     f_upstream_model_update_ignored_models g = Some (join (js ",") (ignored_models f))).

Lemma isTrue_if (b : bool) x : isTrue (if b then Some (JBool x) else None) = b && x.
Proof. destruct b; [by destruct x | done]. Qed.

Lemma isTrue_flag x : isTrue (Some (JBool x)) = x.
Proof. by destruct x. Qed.

Lemma type_in_one f t : type_in f [t] = (f_type f =? t)%Z.
Proof.
  unfold type_in. destruct (Z.eqb_spec (f_type f) t) as [->|E]; [apply bool_decide_true; left | apply bool_decide_false]. by intros ?%list_elem_of_singleton.
Qed.

Lemma saved_form_reopened f c :
  ch_type c = f_type f → ch_setting c = Some (buildSettingJSON f) → ch_settings c = Some (buildSettingsJSON f) →
  printable (JObject (setting_object f)) = true → printable (JObject (settings_object f)) = true → whole_shards f →
  (f_type f = CHANNEL_TYPE_ADVANCED_CUSTOM → advanced_config f ≠ None) →
  ∃ g, transformChannelToFormDefaults c = Some g ∧ reopened f g.
Proof.
  intros Ht H1 H2 P1 P2 Hw Ha. unfold transformChannelToFormDefaults. rewrite H1, H2, Ht. unfold buildSettingJSON, buildSettingsJSON.
  rewrite !stored_printed by done. cbv zeta. pose proof (advanced_read f Ha) as Hadv. cbv zeta in Hadv. rewrite Hadv. cbn [mbind option_bind]. clear Hadv.
  eexists. split; [reflexivity | ]. unfold reopened.
  cbn [f_type f_key f_key_mode f_force_format f_thinking_to_content f_proxy f_http_protocol f_http2_connection_shards f_pass_through_body_enabled
    f_system_prompt f_system_prompt_override f_vertex_key_type f_azure_responses_version f_is_enterprise_account f_aws_key_type f_allow_service_tier
    f_disable_store f_allow_safety_identifier f_allow_include_obfuscation f_allow_inference_geo f_allow_speed f_claude_beta_query
    f_disable_task_polling_sleep f_advanced_custom f_upstream_model_update_check_enabled f_upstream_model_update_auto_sync_enabled
    f_upstream_model_update_ignored_models].
  destruct (setting_fields f) as (S1 & S2 & S3 & S4 & S5 & S6 & _). destruct (stored_transport f Hw) as [Hp Hs]. cbv zeta in *.
  unfold stored_flag, stored_text. rewrite S1, S2, S3, S4, S5, S6, Hs, Hp. clear S1 S2 S3 S4 S5 S6 Hp Hs.
  rewrite !settings_provider by listed.
  destruct (provider_fields f (parseStoredJsonObject (f_settings f))) as (-> & -> & -> & -> & -> & ->).
  destruct (provider_flags f (parseStoredJsonObject (f_settings f))) as (-> & -> & -> & -> & -> & ->).
  rewrite !isTrue_if, !isTrue_flag. split_and!; try reflexivity.
  - rewrite !type_in_one. change VERTEX with 41%Z. destruct (f_type f =? 41)%Z; [ | done]. by destruct (default VJson _).
  - destruct (type_in f [3]%Z); [ | done]. by destruct (or_empty (f_azure_responses_version f)).
  - destruct (type_in f [33]%Z); [ | done]. by destruct (default AwsAkSk _).
  - intros Hfetch. rewrite !settings_upstream by (done || listed).
    destruct (upstream_fields f (provider_settings f (parseStoredJsonObject (f_settings f)))) as (-> & -> & ->). rewrite !isTrue_flag. by rewrite join_strings.
Qed.

(** ** Accepted forms *)

Lemma when_nil b i : when b i = [] → b = false.
Proof. by destruct b. Qed.

Lemma accepted_shards URL_address int_message f : field_issues URL_address int_message f = [] → whole_shards f.
Proof.
  unfold field_issues, whole_shards. intros H. repeat apply app_eq_nil in H as [_ H]. apply when_nil in H.
  destruct (f_http2_connection_shards f); [by apply negb_false_iff in H | done].
Qed.

Lemma accepted_parts URL_parts f : superRefine URL_parts f = Some [] →
  getSingleReplacementKeyError f = None ∧ (f_type f = CHANNEL_TYPE_ADVANCED_CUSTOM → advanced_config f ≠ None) ∧ transport_issues f = [].
Proof.
  unfold superRefine. intros H.
  destruct (if (f_type f =? CHANNEL_TYPE_ADVANCED_CUSTOM)%Z then advanced_issues URL_parts f else Some []) as [advanced|] eqn:Ea; [ | done].
  cbn [mbind option_bind] in H. apply Some_inj in H. apply app_eq_nil in H as [_ H]. apply app_eq_nil in H as [-> H].
  do 6 apply app_eq_nil in H as [_ H]. apply app_eq_nil in H as [Hs Ht].
  split; [by destruct (getSingleReplacementKeyError f) | ]. split; [ | done]. intros E Hc. rewrite E, Z.eqb_refl in Ea.
  unfold advanced_issues in Ea. rewrite Hc in Ea. cbn in Ea. by destruct (is_true _).
Qed.

Lemma eqb_zero_below_one n : num_eqb n zero = true → num_ltb n one = true.
Proof. by destruct n as [[|]|[|]| |[|] m e]. Qed.

(** The shards of an accepted form are not changed. *)
Lemma accepted_shards_kept f :
  whole_shards f → transport_issues f = [] → http_protocol_of f = HTTP_PROTOCOL_AUTO → shards_of f = default one (f_http2_connection_shards f).
Proof.
  unfold transport_issues, shards_of, whole_shards. cbv zeta. intros Hw [H _]%app_eq_nil ->. apply when_nil, orb_false_iff in H as [H1 H2].
  unfold normalizeHttp2ConnectionShards. destruct (f_http2_connection_shards f) as [n|]; [ | done]. change (default one (Some n)) with n in *.
  assert (is_nan n = false) as -> by (by destruct n). destruct (num_eqb n zero) eqn:E0; [by apply eqb_zero_below_one in E0; congruence | ].
  cbn [orb]. by rewrite H1, H2.
Qed.

Lemma field_clean o n : field (clean_empty o) n = (fun v => match v with JString [] => JNull | _ => v end) <$> field o n.
Proof.
  induction o as [|[k v] o IH]; [done | ]. unfold clean_empty in *. cbn [map fst snd field]. destruct v as [| | |[|c s]| |]; cbn [field]; by destruct (ustring_eqb k n).
Qed.

Lemma printed_object o : ∃ t, JSON_stringify (JObject o) = chr "{" :: t.
Proof. unfold JSON_stringify. cbn [JSON_print]. unfold bracket. by destruct (map _ o); eexists. Qed.

(** What a request for an update says. *)
Lemma update_fields f id payload : transformFormDataToUpdatePayload f id = Ok payload →
  field payload (js "setting") = Some (JString (buildSettingJSON f)) ∧
  field payload (js "settings") = Some (JString (buildSettingsJSON f)) ∧
  field payload (js "key") = if truthy (trim (f_key f)) then Some (JString (f_key f)) else None.
Proof.
  unfold transformFormDataToUpdatePayload. destruct (getSingleReplacementKeyError f); [done | ]. intros H. injection H as <-.
  destruct (printed_object (setting_object f)) as [t1 E1], (printed_object (settings_object f)) as [t2 E2].
  assert (Hkey : truthy (trim (f_key f)) = true → ∃ c t, f_key f = c :: t).
  { destruct (f_key f) as [|c t]; [done | by eexists _, _]. }
  split_and!; look; rewrite field_clean; destruct (truthy (trim (f_key f))) eqn:Ek; rewrite ?field_set_field; unfold buildSettingJSON, buildSettingsJSON.
  1, 2: rewrite E1; reflexivity.
  1, 2: rewrite E2; reflexivity.
  - destruct (Hkey eq_refl) as (c & t & ->). reflexivity.
  - reflexivity.
Qed.

(** C40: a form that passes its checks is saved as it is, and shown again as it was.  The request for the update is made, it
    carries the key only when one was entered, and the shards are those of the form; when a channel with the settings
    of the request is opened, the form shows the transport, the prompt, the options of the kind of provider (and the
    defaults for those of other kinds), the routes in normal form and the ignored models that were saved, and no key. *)
Theorem accepted_form_round_trip URL_parts URL_address int_message f id :
  field_issues URL_address int_message f = [] → superRefine URL_parts f = Some [] →
  printable (JObject (setting_object f)) = true → printable (JObject (settings_object f)) = true →
  ∃ payload, transformFormDataToUpdatePayload f id = Ok payload ∧
    field payload (js "key") = (if truthy (trim (f_key f)) then Some (JString (f_key f)) else None) ∧
    (http_protocol_of f = HTTP_PROTOCOL_AUTO → shards_of f = default one (f_http2_connection_shards f)) ∧
    ∀ c, ch_type c = f_type f → JString <$> ch_setting c = field payload (js "setting") →
      JString <$> ch_settings c = field payload (js "settings") →
      ∃ g, transformChannelToFormDefaults c = Some g ∧ reopened f g.
Proof.
  intros Hf Hs P1 P2. pose proof (accepted_shards _ _ _ Hf) as Hw. destruct (accepted_parts _ _ Hs) as (He & Ha & Ht).
  destruct (transformFormDataToUpdatePayload f id) as [payload|e] eqn:Eu; [ | unfold transformFormDataToUpdatePayload in Eu; by rewrite He in Eu].
  destruct (update_fields _ _ _ Eu) as (E1 & E2 & E3). exists payload. split; [done | ]. split; [done | ]. split; [by apply accepted_shards_kept | ].
  rewrite E1, E2. intros c Hc H1 H2. apply saved_form_reopened; try done.
  - by destruct (ch_setting c); [injection H1 as -> | ].
  - by destruct (ch_settings c); [injection H2 as -> | ].
Qed.

(** A form with a proxyless transport of four shards and a setting the form does not know. *)
Definition sample_form : ChannelFormValues := {|
  f_name := js "main"; f_type := 14; f_base_url := Some []; f_key := js "secret"; f_openai_organization := Some []; f_models := js "claude,other";
  f_group := [js "default"]; f_model_mapping := Some []; f_priority := Some zero; f_weight := Some zero; f_test_model := Some [];
  f_auto_ban := Some one; f_status := CHANNEL_STATUS_ENABLED; f_status_code_mapping := Some []; f_tag := Some []; f_remark := Some [];
  f_setting := Some []; f_param_override := Some []; f_header_override := Some [];
  f_settings := Some (JSON_stringify (JObject [(js "custom", JString (js "kept")); (js "disable_store", JBool true)])); f_advanced_custom := Some [];
  f_other := Some []; f_multi_key_mode := Some MSingle; f_multi_key_type := Some KRandom; f_batch_add_set_key_prefix_2_name := Some false;
  f_key_mode := Some KAppend; f_has_existing_vertex_service_account_key := Some false; f_has_existing_multi_key := Some false;
  f_force_format := Some true; f_thinking_to_content := Some false; f_proxy := Some []; f_http_protocol := Some HTTP_PROTOCOL_AUTO;
  f_http2_connection_shards := Some (num_of_Z 4); f_pass_through_body_enabled := Some false; f_system_prompt := Some (js "Be brief.");
  f_system_prompt_override := Some false; f_is_enterprise_account := Some false; f_vertex_key_type := Some VJson;
  f_aws_key_type := Some AwsAkSk; f_azure_responses_version := Some []; f_allow_service_tier := Some true; f_disable_store := Some false;
  f_allow_safety_identifier := Some false; f_allow_include_obfuscation := Some false; f_allow_inference_geo := Some false;
  f_allow_speed := Some true; f_claude_beta_query := Some false; f_disable_task_polling_sleep := Some false;
  f_upstream_model_update_check_enabled := Some true; f_upstream_model_update_auto_sync_enabled := Some false;
  f_upstream_model_update_ignored_models := Some (js "a, b ,a") |}.

Lemma accepted_form_round_trip_witness :
  ∃ payload, transformFormDataToUpdatePayload sample_form one = Ok payload ∧
    field payload (js "key") = Some (JString (js "secret")) ∧ shards_of sample_form = num_of_Z 4.
Proof.
  destruct (accepted_form_round_trip (fun _ => None) (fun _ => None) [] sample_form one) as (payload & H1 & H2 & H3 & _).
  - vm_compute; reflexivity.
  - vm_compute; reflexivity.
  - vm_compute; reflexivity.
  - vm_compute; reflexivity.
  - exists payload. split; [exact H1 | ]. split; [rewrite H2; vm_compute; reflexivity | ]. rewrite H3 by reflexivity. reflexivity.
Defined.

(** settings the form does not know survive an edit.  A property of the stored settings that is none of those the form
    writes has the same value, or is absent as before, in the settings that are saved. *)
Theorem unknown_settings_survive f n :
  printable (JObject (settings_object f)) = true → n ∉ managed_names →
  field (parseStoredJsonObject (Some (buildSettingsJSON f))) n = field (parseStoredJsonObject (f_settings f)) n.
Proof. intros Hp Hn. unfold buildSettingsJSON. rewrite stored_printed by done. by apply settings_foreign. Qed.

Lemma unknown_settings_survive_witness :
  field (parseStoredJsonObject (Some (buildSettingsJSON sample_form))) (js "custom") = Some (JString (js "kept")).
Proof.
  rewrite (unknown_settings_survive sample_form (js "custom")).
  - vm_compute; reflexivity.
  - vm_compute; reflexivity.
  - intros H. apply (bool_decide_eq_true_2 _) in H. vm_compute in H. discriminate H.
Defined.
