(* ===== verification/ParamOverride.v ===== *)
(** * Rules that override the parameters of requests

    The data and the functions of
    features/channels/components/dialogs/param-override-editor-dialog.tsx: rules ("operations")
    as the editor shows them, as JSON, and their checks.  Every rule and every condition gets
    an identifier from a counter when it is created; [drawing] threads the counter, and [None]
    is an exception.  The modes of rules and conditions, which the selects of the editor take
    from fixed lists, are inductive types. *)

From Stdlib Require Import SpecFloat ZArith Lia.
From stdpp Require Import base numbers strings option sets list.
From S2P Require Import Prelude JsNumber Json JsonText NumberText JsonPrint JsonStringify NumberOf.

(** ** Counters *)

Definition drawing (A : Type) : Type := nat → option (A * nat).

#[export] Instance drawing_ret : MRet drawing := fun A a s => Some (a, s).
#[export] Instance drawing_bind : MBind drawing := fun A B f m s => match m s with Some (a, s') => f a s' | None => None end.

(** An exception. *)
Definition throw {A} : drawing A := fun _ => None.

(** A value that may be an exception. *)
Definition attempt {A} (o : option A) : drawing A := match o with Some a => mret a | None => throw end.

(** ** Modes *)

Inductive OperationMode :=
| OpSet | OpDelete | OpAppend | OpPrepend | OpCopy | OpMove | OpReplace | OpRegexReplace | OpTrimPrefix | OpTrimSuffix
| OpEnsurePrefix | OpEnsureSuffix | OpTrimSpace | OpToLower | OpToUpper | OpReturnError | OpPruneObjects | OpPassHeaders
| OpSyncFields | OpSetHeader | OpDeleteHeader | OpCopyHeader | OpMoveHeader.

#[export] Instance OperationMode_eq_dec : EqDecision OperationMode.
Proof. solve_decision. Defined.

Definition mode_name (m : OperationMode) : ustring :=
  match m with
  | OpSet => js "set" | OpDelete => js "delete" | OpAppend => js "append" | OpPrepend => js "prepend"
  | OpCopy => js "copy" | OpMove => js "move" | OpReplace => js "replace" | OpRegexReplace => js "regex_replace"
  | OpTrimPrefix => js "trim_prefix" | OpTrimSuffix => js "trim_suffix"
  | OpEnsurePrefix => js "ensure_prefix" | OpEnsureSuffix => js "ensure_suffix"
  | OpTrimSpace => js "trim_space" | OpToLower => js "to_lower" | OpToUpper => js "to_upper"
  | OpReturnError => js "return_error" | OpPruneObjects => js "prune_objects" | OpPassHeaders => js "pass_headers"
  | OpSyncFields => js "sync_fields" | OpSetHeader => js "set_header" | OpDeleteHeader => js "delete_header"
  | OpCopyHeader => js "copy_header" | OpMoveHeader => js "move_header"
  end.

Definition OPERATION_MODE_OPTIONS : list OperationMode :=
  [OpSet; OpDelete; OpAppend; OpPrepend; OpCopy; OpMove; OpReplace; OpRegexReplace; OpTrimPrefix; OpTrimSuffix; OpEnsurePrefix;
   OpEnsureSuffix; OpTrimSpace; OpToLower; OpToUpper; OpReturnError; OpPruneObjects; OpPassHeaders; OpSyncFields; OpSetHeader;
   OpDeleteHeader; OpCopyHeader; OpMoveHeader].

Inductive ConditionMode := CFull | CPrefix | CSuffix | CContains | CGt | CGte | CLt | CLte.

#[export] Instance ConditionMode_eq_dec : EqDecision ConditionMode.
Proof. solve_decision. Defined.

Definition condition_mode_name (m : ConditionMode) : ustring :=
  match m with
  | CFull => js "full" | CPrefix => js "prefix" | CSuffix => js "suffix" | CContains => js "contains"
  | CGt => js "gt" | CGte => js "gte" | CLt => js "lt" | CLte => js "lte"
  end.

Definition CONDITION_MODE_OPTIONS : list ConditionMode := [CFull; CPrefix; CSuffix; CContains; CGt; CGte; CLt; CLte].

(** [VALUES.has(value) ? value : fallback]. *)
Definition one_of {A} (options : list A) (name : A → ustring) (value : option json) (fallback : A) : A :=
  match value with
  | Some (JString s) => default fallback (snd <$> list_find (fun a => name a = s) options)
  | _ => fallback
  end.

Definition condition_mode_of (value : option json) : ConditionMode := one_of CONDITION_MODE_OPTIONS condition_mode_name value CFull.
Definition operation_mode_of (value : option json) : OperationMode := one_of OPERATION_MODE_OPTIONS mode_name value OpSet.

Inductive Logic := And | Or.

#[export] Instance Logic_eq_dec : EqDecision Logic.
Proof. solve_decision. Defined.

Definition logic_name (l : Logic) : ustring := match l with And => js "AND" | Or => js "OR" end.

(** Which parts a rule of a mode has; [m_to] is absent where the table does not name it. *)
Record ModeMeta := mkMeta {
  m_path : bool; m_pathOptional : bool; m_value : bool; m_from : bool; m_to : option bool; m_keepOrigin : bool; m_pathAlias : bool;
}.

Definition MODE_META (m : OperationMode) : ModeMeta :=
  let path := mkMeta true false false false None false false in
  let path_value := mkMeta true false true false None false false in
  let path_value_keep := mkMeta true false true false None true false in
  let from_to := mkMeta false false false true (Some true) false false in
  match m with
  | OpDelete | OpTrimSpace | OpToLower | OpToUpper | OpDeleteHeader => path
  | OpSet | OpAppend | OpPrepend | OpSetHeader => path_value_keep
  | OpCopy | OpMove | OpSyncFields => from_to
  | OpReplace | OpRegexReplace => mkMeta true false false true (Some false) false false
  | OpTrimPrefix | OpTrimSuffix | OpEnsurePrefix | OpEnsureSuffix => path_value
  | OpReturnError => mkMeta false false true false None false false
  | OpPruneObjects => mkMeta false true true false None false false
  | OpPassHeaders => mkMeta false false true false None true false
  | OpCopyHeader | OpMoveHeader => mkMeta false false false true (Some true) true true
  end.

(** [meta.to]. *)
Definition writes_to (meta : ModeMeta) : bool := default false (m_to meta).

Definition VALUE_REQUIRED_MODES : list OperationMode :=
  [OpTrimPrefix; OpTrimSuffix; OpEnsurePrefix; OpEnsureSuffix; OpSetHeader; OpReturnError; OpPruneObjects; OpPassHeaders].
Definition FROM_REQUIRED_MODES : list OperationMode := [OpCopy; OpMove; OpReplace; OpRegexReplace; OpCopyHeader; OpMoveHeader; OpSyncFields].
Definition TO_REQUIRED_MODES : list OperationMode := [OpCopy; OpMove; OpCopyHeader; OpMoveHeader; OpSyncFields].

(** ** Rules *)

Record ParamOverrideCondition := mkCondition {
  c_id : ustring; c_path : ustring; c_mode : ConditionMode; c_value_text : ustring; c_invert : bool; c_pass_missing_key : bool;
}.

Record ParamOverrideOperation := mkOperation {
  o_id : ustring; o_description : ustring; o_path : ustring; o_mode : OperationMode; o_from : ustring; o_to : ustring;
  o_value_text : ustring; o_keep_origin : bool; o_logic : Logic; o_conditions : list ParamOverrideCondition;
}.

(** ** Values as texts *)

(** [String(value)] throws on an object that has a property [toString], also inside arrays. *)
Fixpoint speaks (v : json) : bool :=
  match v with
  | JArray vs => forallb speaks vs
  | JObject fields => match field fields (js "toString") with None => true | Some _ => false end
  | _ => true
  end.

Definition String_value (v : json) : option ustring := if speaks v then Some (String_json v) else None.

(** Only letters of the Latin alphabet are changed to the letters of [AND] and [OR], or of [header]. *)
Definition upper (text : ustring) : ustring :=
  map (fun c => if (chr "a" <=? c)%Z && (c <=? chr "z")%Z then (c - 32)%Z else c) text.
Definition to_lower (text : ustring) : ustring :=
  map (fun c => if (chr "A" <=? c)%Z && (c <=? chr "Z")%Z then (c + 32)%Z else c) text.

Definition toValueText (value : option json) : ustring :=
  match value with
  | None => []
  | Some (JString s) => s
  | Some v => JSON_stringify v
  end.

Definition parseLooseValue (valueText : ustring) : json :=
  match trim valueText with
  | [] => JString []
  | c :: rest => default (JString (c :: rest)) (JSON_parse (c :: rest))
  end.

Definition verifyJSON (text : ustring) : bool := match JSON_parse text with Some _ => true | None => false end.

(** A text property, or the empty text. *)
Definition text_field (v : json) (name : string) : ustring := default [] (asString (get v (js name))).

(** [value === false], and [list.length === 0]. *)
Definition isFalse (value : option json) : bool := match value with Some (JBool false) => true | _ => false end.
Definition no {A} (l : list A) : bool := match l with [] => true | _ => false end.

(** [if (b) object.name = v]. *)
Definition add_if (b : bool) (name : string) (v : json) (o : list (ustring * json)) : list (ustring * json) :=
  if b then set_field o (js name) v else o.

(** [JSON.stringify(value, null, 2)]. *)
Definition pretty (v : json) : ustring := JSON_print (js "  ") [] v.

(** ** Parts of rules that have a form of their own *)

Inductive SyncTargetType := SyncJson | SyncHeader.

Definition parseSyncTargetSpec (spec : ustring) : SyncTargetType * ustring :=
  let raw := trim spec in
  match index_of (js ":") raw with
  | None => (SyncJson, raw)
  | Some idx =>
      let prefix := to_lower (trim (take idx raw)) in
      let key := trim (drop (idx + 1) raw) in
      (if ustring_eqb prefix (js "header") then SyncHeader else SyncJson, key)
  end.

Definition sync_type_name (t : SyncTargetType) : ustring := match t with SyncJson => js "json" | SyncHeader => js "header" end.

Definition buildSyncTargetSpec (type : SyncTargetType) (key : ustring) : ustring :=
  let normalizedKey := trim key in
  if truthy normalizedKey then sync_type_name type ++ js ":" ++ normalizedKey else [].

Record ReturnErrorDraft := mkReturnError {
  re_message : ustring; re_statusCode : number; re_code : ustring; re_type : ustring; re_skipRetry : bool; re_simpleMode : bool;
}.

Definition http_status (n : number) : number :=
  if is_integer n && num_leb (num_of_Z 100) n && num_leb n (num_of_Z 599) then n else num_of_Z 400.

(** The part of an object; [None] is an exception, after which the text is taken as it is. *)
Definition return_error_object (parsed : json) : option ReturnErrorDraft :=
  let text name := String_value (or_json (get parsed (js name)) (JString [])) in
  let status := match get parsed (js "status_code") with Some v => Some v | None => get parsed (js "status") end in
  statusValue ← (match status with
                 | None => Some S754_nan
                 | Some v => if speaks v then Some (Number_json v) else None
                 end);
  message ← String_value (or_json (get parsed (js "message")) (or_json (get parsed (js "msg")) (JString [])));
  code ← text "code"%string;
  type ← text "type"%string;
  Some (mkReturnError (trim message) (http_status statusValue) (trim code) (trim type)
          (negb (isFalse (get parsed (js "skip_retry")))) false).

Definition parseReturnErrorDraft (valueText : ustring) : ReturnErrorDraft :=
  let plain raw := mkReturnError raw (num_of_Z 400) [] [] true true in
  let raw := trim valueText in
  if negb (truthy raw) then plain []
  else
    match JSON_parse raw with
    | Some (JObject fields) => default (plain raw) (return_error_object (JObject fields))
    | _ => plain raw
    end.

Definition buildReturnErrorValueText (draft : ReturnErrorDraft) : ustring :=
  let message := trim (re_message draft) in
  if re_simpleMode draft then message
  else
    let payload := [(js "message", JString message); (js "status_code", JNumber (http_status (re_statusCode draft)))] in
    let code := trim (re_code draft) in
    let type := trim (re_type draft) in
    let payload := add_if (truthy code) "code" (JString code) payload in
    let payload := add_if (truthy type) "type" (JString type) payload in
    JSON_stringify (JObject (add_if (negb (re_skipRetry draft)) "skip_retry" (JBool false) payload)).

(** The rules of an object that is pruned have the parts of a condition. *)
Abbreviation PruneRule := ParamOverrideCondition.

Record PruneObjectsDraft := mkPrune {
  p_simpleMode : bool; p_typeText : ustring; p_logic : Logic; p_recursive : bool; p_rules : list PruneRule;
}.

Definition condition_payload (c : ParamOverrideCondition) (value : option json) : json :=
  let payload := [(js "path", JString (trim (c_path c))); (js "mode", JString (condition_mode_name (c_mode c)))] in
  let payload := match value with Some v => set_field payload (js "value") v | None => payload end in
  let payload := add_if (c_invert c) "invert" (JBool true) payload in
  JObject (add_if (c_pass_missing_key c) "pass_missing_key" (JBool true) payload).

Definition prune_rule_payload (rule : PruneRule) : json :=
  let valueRaw := trim (c_value_text rule) in
  condition_payload rule (if truthy valueRaw then Some (parseLooseValue valueRaw) else None).

Definition buildPruneObjectsValueText (draft : PruneObjectsDraft) : ustring :=
  let typeText := trim (p_typeText draft) in
  if p_simpleMode draft then typeText
  else
    let conditions := map prune_rule_payload (filter (fun r => truthy (trim (c_path r)) = true) (p_rules draft)) in
    let payload := add_if (truthy typeText) "type" (JString typeText) [] in
    let payload := add_if (bool_decide (p_logic draft = Or)) "logic" (JString (js "OR")) payload in
    let payload := add_if (negb (p_recursive draft)) "recursive" (JBool false) payload in
    let payload := add_if (negb (no conditions)) "conditions" (JArray conditions) payload in
    if negb (truthy typeText) && no conditions then JSON_stringify (JObject [(js "logic", JString (js "AND"))])
    else JSON_stringify (JObject payload).

(** The names of headers; [None] is an exception. *)
Definition header_names (vs : list json) : option (list ustring) :=
  names ← mapM (fun v => match v with JNull => Some [] | _ => trim <$> String_value v end) vs;
  Some (filter (fun n => truthy n = true) names).

Definition parsePassHeaderNames (rawValue : json) : option (list ustring) :=
  match rawValue with
  | JArray vs => header_names vs
  | JObject fields =>
      match field fields (js "headers"), field fields (js "header") with
      | Some (JArray vs), _ => header_names vs
      | _, Some v => header_names [v]
      | _, None => Some []
      end
  | JString s => Some (filter (fun n => truthy n = true) (map trim (split_on (chr ",") s)))
  | _ => Some []
  end.

(** ** Rules as JSON values *)

Definition buildConditionPayload (c : ParamOverrideCondition) : option json :=
  if truthy (trim (c_path c)) then Some (condition_payload c (Some (parseLooseValue (c_value_text c)))) else None.

Definition isOperationBlank (o : ParamOverrideOperation) : bool :=
  let hasCondition :=
    existsb (fun c => truthy (trim (c_path c)) || truthy (trim (c_value_text c)) || negb (bool_decide (c_mode c = CFull)) ||
                      c_invert c || c_pass_missing_key c) (o_conditions o) in
  bool_decide (o_mode o = OpSet) && negb (truthy (trim (o_path o))) && negb (truthy (trim (o_from o))) &&
  negb (truthy (trim (o_to o))) && negb (truthy (trim (o_value_text o))) && negb (o_keep_origin o) && negb hasCondition.

(** [line] counts from one. *)
Inductive OverrideError :=
| MissingTargetPath (line : nat) | MissingSourceField (line : nat) | MissingTargetField (line : nat) | MissingValue (line : nat)
| MissingMessage (line : nat) | MissingPruneConditions (line : nat) | MissingHeaderNames (line : nat) | InvalidPassHeaders (line : nat)
| InvalidJson | LegacyNotObject | NotAnObject | LegacyCannotAppend | JsonFormatError | InvalidJsonFormat
(** An exception of the language. *)
| TypeError.

(** The check of a message: the text of [message] may itself throw, and then the value counts as plain text. *)
Definition has_message (raw : ustring) : bool :=
  match JSON_parse raw with
  | Some (JObject fields) =>
      match String_value (or_json (field fields (js "message")) (JString [])) with
      | Some m => truthy (trim m)
      | None => true
      end
  | _ => true
  end.

Definition validateOperation (line : nat) (op : ParamOverrideOperation) : result OverrideError unit :=
  let mode := o_mode op in
  let meta := MODE_META mode in
  let pathValue := truthy (trim (o_path op)) in
  let aliased := m_pathAlias meta && pathValue in
  let raw := trim (o_value_text op) in
  guard_ok (negb (m_path meta && negb pathValue)) (MissingTargetPath line);;
  guard_ok (negb (bool_decide (mode ∈ FROM_REQUIRED_MODES) && negb (truthy (trim (o_from op))) && negb aliased)) (MissingSourceField line);;
  guard_ok (negb (bool_decide (mode ∈ TO_REQUIRED_MODES) && negb (truthy (trim (o_to op))) && negb aliased)) (MissingTargetField line);;
  guard_ok (negb (bool_decide (mode ∈ VALUE_REQUIRED_MODES) && negb (truthy raw))) (MissingValue line);;
  match mode with
  | OpReturnError =>
      guard_ok (truthy raw) (MissingValue line);;
      guard_ok (has_message raw) (MissingMessage line)
  | OpPruneObjects => guard_ok (truthy raw) (MissingPruneConditions line)
  | OpPassHeaders =>
      guard_ok (truthy raw) (MissingHeaderNames line);;
      match parsePassHeaderNames (parseLooseValue raw) with
      | None => Err TypeError
      | Some headers => guard_ok (negb (no headers)) (InvalidPassHeaders line)
      end
  | _ => Ok tt
  end.

Fixpoint validate_from (line : nat) (ops : list ParamOverrideOperation) : result OverrideError unit :=
  match ops with
  | [] => Ok tt
  | op :: rest => validateOperation line op;; validate_from (S line) rest
  end.

Definition validateOperations : list ParamOverrideOperation → result OverrideError unit := validate_from 1.

Definition operation_payload (o : ParamOverrideOperation) : json :=
  let meta := MODE_META (o_mode o) in
  let descriptionValue := trim (o_description o) in
  let pathValue := trim (o_path o) in
  let fromValue := trim (o_from o) in
  let toValue := trim (o_to o) in
  let payload := [(js "mode", JString (mode_name (o_mode o)))] in
  let payload := add_if (truthy descriptionValue) "description" (JString descriptionValue) payload in
  let payload := add_if (m_path meta) "path" (JString pathValue) payload in
  let payload := add_if (m_pathOptional meta && truthy pathValue) "path" (JString pathValue) payload in
  let payload := add_if (m_value meta) "value" (parseLooseValue (o_value_text o)) payload in
  let payload := add_if (m_keepOrigin meta && o_keep_origin o) "keep_origin" (JBool true) payload in
  let payload := add_if (m_from meta) "from" (JString fromValue) payload in
  let payload := add_if (negb (writes_to meta) && truthy toValue) "to" (JString toValue) payload in
  let payload := add_if (writes_to meta) "to" (JString toValue) payload in
  let payload := add_if (m_pathAlias meta && negb (truthy_json (field payload (js "from"))) && truthy pathValue) "from" (JString pathValue) payload in
  let payload := add_if (m_pathAlias meta && negb (truthy_json (field payload (js "to"))) && truthy pathValue) "to" (JString pathValue) payload in
  let conditions := omap buildConditionPayload (o_conditions o) in
  let some := negb (no conditions) in
  JObject (add_if some "logic" (JString (logic_name (o_logic o))) (add_if some "conditions" (JArray conditions) payload)).

Definition buildOperationsJson (sourceOperations : list ParamOverrideOperation) (validate : bool) : result OverrideError ustring :=
  let filteredOps := filter (fun o => isOperationBlank o = false) sourceOperations in
  match filteredOps with
  | [] => Ok []
  | _ =>
      (if validate then validateOperations filteredOps else Ok tt);;
      Ok (pretty (JObject [(js "operations", JArray (map operation_payload filteredOps))]))
  end.

(** ** Moving a rule *)

Inductive Position := Before | After.

Definition find_id (id : ustring) (ops : list ParamOverrideOperation) : option nat := fst <$> list_find (fun o => o_id o = id) ops.

Definition reorderOperations (ops : list ParamOverrideOperation) (sourceId targetId : ustring) (position : Position)
    : list ParamOverrideOperation :=
  if negb (truthy sourceId) || negb (truthy targetId) || ustring_eqb sourceId targetId then ops
  else
    match list_find (fun o => o_id o = sourceId) ops with
    | None => ops
    | Some (srcIdx, moved) =>
        let next := take srcIdx ops ++ drop (S srcIdx) ops in
        match find_id targetId next with
        | None => ops
        | Some i =>
            let insertIdx := match position with Before => i | After => i + 1 end in
            take insertIdx next ++ moved :: drop insertIdx next
        end
    end.

(** ** Reading rules *)

Section identifiers.
  (** The clock when the n-th identifier is drawn. *)
  Context (now : nat → Z).

Definition id_text (n : nat) : ustring := js "po_" ++ show_Z (now n) ++ js "_" ++ show_nat n.

Definition nextLocalId : drawing ustring := fun localIdSeed => Some (id_text localIdSeed, S localIdSeed).

(** Reading a property of [null] throws. *)
Definition normalizeCondition (condition : json) : drawing ParamOverrideCondition :=
  id ← nextLocalId;
  match condition with
  | JNull => throw
  | _ =>
      mret (mkCondition id (text_field condition "path") (condition_mode_of (get condition (js "mode")))
              (toValueText (get condition (js "value"))) (isTrue (get condition (js "invert")))
              (isTrue (get condition (js "pass_missing_key"))))
  end.

Definition createDefaultCondition : drawing ParamOverrideCondition := normalizeCondition (JObject []).

(** [String(value || fallback).toUpperCase()]; [None] is an exception. *)
Definition logic_text (value : option json) (fallback : string) : option ustring :=
  upper <$> String_value (or_json value (JString (js fallback))).

Definition normalizeOperation (operation : json) : drawing ParamOverrideOperation :=
  id ← nextLocalId;
  match operation with
  | JNull => throw
  | _ =>
      logic ← attempt (logic_text (get operation (js "logic")) "OR");
      conditions ← (match get operation (js "conditions") with
                    | Some (JArray vs) => mapM normalizeCondition vs
                    | _ => mret []
                    end);
      mret (mkOperation id (text_field operation "description") (text_field operation "path")
              (operation_mode_of (get operation (js "mode"))) (text_field operation "from") (text_field operation "to")
              (toValueText (get operation (js "value"))) (isTrue (get operation (js "keep_origin")))
              (if ustring_eqb logic (js "AND") then And else Or) conditions)
  end.

Definition createDefaultOperation : drawing ParamOverrideOperation :=
  normalizeOperation (JObject [(js "mode", JString (js "set"))]).

Definition normalizePruneRule (rule : json) : drawing PruneRule := normalizeCondition rule.

(** [normalizePruneRule({ path, mode: 'full', value })]. *)
Definition full_rule (entry : ustring * json) : drawing PruneRule :=
  normalizePruneRule (JObject [(js "path", JString entry.1); (js "mode", JString (js "full")); (js "value", entry.2)]).

Definition prune_rules (fields : list (ustring * json)) : drawing (list PruneRule) :=
  whereRules ← (match field fields (js "where") with Some (JObject entries) => mapM full_rule entries | _ => mret [] end);
  conditionRules ← (match field fields (js "conditions") with
                    | Some (JArray items) => mapM normalizePruneRule (filter (fun i => isRecord (Some i) = true) items)
                    | Some (JObject entries) => mapM full_rule entries
                    | _ => mret []
                    end);
  mret (whereRules ++ conditionRules).

Definition parsePruneObjectsDraft (valueText : ustring) : drawing PruneObjectsDraft :=
  let plain typeText := mkPrune true typeText And true [] in
  let raw := trim valueText in
  if negb (truthy raw) then mret (plain [])
  else
    match JSON_parse raw with
    | None => mret (plain raw)
    | Some (JString s) => mret (plain (trim s))
    | Some (JObject fields) =>
        rules ← prune_rules fields;
        let typeText := match field fields (js "type") with None => Some [] | Some v => trim <$> String_value v end in
        mret match typeText, logic_text (field fields (js "logic")) "AND" with
             | Some typeText, Some logic =>
                 let has name := match field fields (js name) with Some _ => true | None => false end in
                 let hasAdvancedFields := has "logic"%string || has "recursive"%string || has "where"%string || has "conditions"%string in
                 mkPrune (negb hasAdvancedFields) typeText (if ustring_eqb logic (js "OR") then Or else And)
                   (negb (isFalse (field fields (js "recursive")))) rules
             | _, _ => plain raw
             end
    | Some JNull => mret (plain [])
    | Some v => mret (plain (match String_value v with Some t => trim t | None => raw end))
    end.

(** ** Opening the editor *)

Inductive EditMode := EVisual | EJson.
Inductive VisualMode := VOperations | VLegacy.

Record EditorState := mkState {
  s_editMode : EditMode; s_visualMode : VisualMode; s_legacyValue : ustring; s_operations : list ParamOverrideOperation;
  s_jsonText : ustring; s_jsonError : option OverrideError;
}.

(** The rules of a list, or one new rule. *)
Definition rules_or_default (vs : list json) : drawing (list ParamOverrideOperation) :=
  match vs with
  | [] => o ← createDefaultOperation; mret [o]
  | _ => mapM normalizeOperation vs
  end.

Definition parseInitialState (rawValue : ustring) : drawing EditorState :=
  let trimmed := trim rawValue in
  let fresh edit visual legacy text error := o ← createDefaultOperation; mret (mkState edit visual legacy [o] text error) in
  if negb (truthy trimmed) then fresh EVisual VOperations [] [] None
  else
    match JSON_parse trimmed with
    | None => fresh EJson VOperations [] rawValue (Some InvalidJsonFormat)
    | Some (JObject fields) =>
        let text := pretty (JObject fields) in
        match field fields (js "operations") with
        | Some (JArray vs) => ops ← rules_or_default vs; mret (mkState EVisual VOperations [] ops text None)
        | _ => fresh EVisual VLegacy text text None
        end
    | Some v => fresh EJson VOperations [] (pretty v) None
    end.
End identifiers.

Example string_value_becomes_number :
  let written := [mkOperation [] [] (js "user") OpSet [] [] (DQUOTE :: js "42" ++ [DQUOTE]) false Or []] in
  match buildOperationsJson written true with
  | Ok text =>
      match parseInitialState (fun _ => 0%Z) text 0 with
      | Some (st, _) => map (fun o => parseLooseValue (o_value_text o)) (s_operations st)
      | None => []
      end
  | Err _ => []
  end = [JNumber (num_of_Z 42)].
Proof. vm_compute. reflexivity. Qed.
