(* ===== verification/ParamOverrideEditor.v ===== *)
(** * The editor of parameter rules

    The dialog of features/channels/components/dialogs/param-override-editor-dialog.tsx as a
    machine: its state, the handlers of its controls, and the effect that keeps a rule
    selected.  A handler runs on the state of the last rendering; [None] is an exception no
    handler catches.  Searching the list and folding conditions only change what is shown. *)

From Stdlib Require Import SpecFloat ZArith Lia.
From stdpp Require Import base numbers strings option gmap sets list.
From S2P Require Import Prelude JsNumber Json JsonText NumberText JsonPrint JsonStringify NumberOf ParamOverride.

(** ** Templates *)

Definition object_of (fields : list (string * json)) : json := JObject (map (fun f => (js f.1, f.2)) fields).
Definition text_of (s : string) : json := JString (js s).

Definition LEGACY_TEMPLATE : json := object_of [("temperature"%string, JNumber zero); ("max_tokens"%string, JNumber (num_of_Z 1000))].

Definition operations_of (ops : list json) : json := object_of [("operations"%string, JArray ops)].

Definition condition_of (path mode value : string) : json :=
  object_of [("path"%string, text_of path); ("mode"%string, text_of mode); ("value"%string, text_of value)].

Definition OPERATION_TEMPLATE : json :=
  operations_of
    [object_of
       [("description"%string, text_of "Set default temperature for openai/* models."); ("path"%string, text_of "temperature");
        ("mode"%string, text_of "set"); ("value"%string, JNumber (Number (js "0.7")));
        ("conditions"%string, JArray [condition_of "model" "prefix" "openai/"]); ("logic"%string, text_of "AND")]].

Definition HEADER_PASSTHROUGH_TEMPLATE : json :=
  operations_of
    [object_of
       [("description"%string, text_of "Pass through X-Request-Id header to upstream."); ("mode"%string, text_of "pass_headers");
        ("value"%string, JArray [text_of "X-Request-Id"]); ("keep_origin"%string, JBool true)]].

Definition GEMINI_IMAGE_4K_TEMPLATE : json :=
  operations_of
    [object_of
       [("description"%string, text_of "Set imageSize to 4K when model contains gemini/image and ends with 4k.");
        ("mode"%string, text_of "set"); ("path"%string, text_of "generationConfig.imageConfig.imageSize"); ("value"%string, text_of "4K");
        ("conditions"%string,
          JArray [condition_of "original_model" "contains" "gemini"; condition_of "original_model" "contains" "image";
                  condition_of "original_model" "suffix" "4k"]);
        ("logic"%string, text_of "AND")]].

Definition CODEX_CLI_HEADER_PASSTHROUGH_HEADERS : list string :=
  ["Originator"; "Session_id"; "Thread_id"; "Session-Id"; "Thread-Id"; "X-Client-Request-Id"; "User-Agent"; "X-Codex-Beta-Features";
   "X-Codex-Turn-State"; "X-Codex-Turn-Metadata"; "X-Codex-Window-Id"; "X-Codex-Parent-Thread-Id"; "X-OpenAI-Subagent";
   "X-OpenAI-Memgen-Request"; "X-ResponsesAPI-Include-Timing-Metrics"; "X-OpenAI-Internal-Codex-Responses-Lite"]%string.

Definition CLAUDE_CLI_HEADER_PASSTHROUGH_HEADERS : list string :=
  ["X-Stainless-Arch"; "X-Stainless-Lang"; "X-Stainless-Os"; "X-Stainless-Package-Version"; "X-Stainless-Retry-Count";
   "X-Stainless-Runtime"; "X-Stainless-Runtime-Version"; "X-Stainless-Timeout"; "User-Agent"; "X-App"; "Anthropic-Beta";
   "Anthropic-Dangerous-Direct-Browser-Access"; "Anthropic-Version"]%string.

Definition buildPassHeadersTemplate (headers : list string) : json :=
  operations_of
    [object_of [("mode"%string, text_of "pass_headers"); ("value"%string, JArray (map text_of headers)); ("keep_origin"%string, JBool true)]].

Definition CODEX_CLI_HEADER_PASSTHROUGH_TEMPLATE : json :=
  operations_of
    [object_of [("mode"%string, text_of "pass_headers"); ("value"%string, JArray (map text_of CODEX_CLI_HEADER_PASSTHROUGH_HEADERS));
                ("keep_origin"%string, JBool true)]].

Definition CLAUDE_CLI_HEADER_PASSTHROUGH_TEMPLATE : json := buildPassHeadersTemplate CLAUDE_CLI_HEADER_PASSTHROUGH_HEADERS.

(** What becomes of each token; a dash stands for [null]. *)
Definition ANTHROPIC_BETA_TOKENS : list (string * string) :=
  [("advanced-tool-use-2025-11-20", "tool-search-tool-2025-10-19"); ("bash_20241022", "-"); ("bash_20250124", "-");
   ("code-execution-2025-08-25", "-"); ("compact-2026-01-12", "compact-2026-01-12");
   ("computer-use-2025-01-24", "computer-use-2025-01-24"); ("computer-use-2025-11-24", "computer-use-2025-11-24");
   ("context-1m-2025-08-07", "context-1m-2025-08-07"); ("context-management-2025-06-27", "context-management-2025-06-27");
   ("effort-2025-11-24", "-"); ("fast-mode-2026-02-01", "-"); ("files-api-2025-04-14", "-");
   ("fine-grained-tool-streaming-2025-05-14", "-"); ("interleaved-thinking-2025-05-14", "interleaved-thinking-2025-05-14");
   ("mcp-client-2025-11-20", "-"); ("mcp-client-2025-04-04", "-"); ("mcp-servers-2025-12-04", "-"); ("output-128k-2025-02-19", "-");
   ("structured-output-2024-03-01", "-"); ("prompt-caching-scope-2026-01-05", "-"); ("skills-2025-10-02", "-");
   ("structured-outputs-2025-11-13", "-"); ("text_editor_20241022", "-"); ("text_editor_20250124", "-");
   ("token-efficient-tools-2025-02-19", "-"); ("tool-search-tool-2025-10-19", "tool-search-tool-2025-10-19");
   ("web-fetch-2025-09-10", "-"); ("web-search-2025-03-05", "-"); ("oauth-2025-04-20", "-")]%string.

Definition AWS_BEDROCK_ANTHROPIC_COMPAT_TEMPLATE : json :=
  operations_of
    [object_of
       [("description"%string, text_of "Normalize anthropic-beta header tokens for Bedrock compatibility.");
        ("mode"%string, text_of "set_header"); ("path"%string, text_of "anthropic-beta");
        ("value"%string, object_of (map (fun t => (t.1, if String.eqb t.2 "-" then JNull else text_of t.2)) ANTHROPIC_BETA_TOKENS))];
     object_of
       [("description"%string, text_of "Remove all tools[*].custom.input_examples before upstream relay.");
        ("mode"%string, text_of "delete"); ("path"%string, text_of "tools.*.custom.input_examples")]].

Record TemplatePresetConfig := mkPreset { preset_kind : VisualMode; preset_payload : json }.

Definition TEMPLATE_PRESET_CONFIG : list (ustring * TemplatePresetConfig) :=
  [(js "operations_default", mkPreset VOperations OPERATION_TEMPLATE);
   (js "legacy_default", mkPreset VLegacy LEGACY_TEMPLATE);
   (js "pass_headers_auth", mkPreset VOperations HEADER_PASSTHROUGH_TEMPLATE);
   (js "gemini_image_4k", mkPreset VOperations GEMINI_IMAGE_4K_TEMPLATE);
   (js "claude_cli_headers_passthrough", mkPreset VOperations CLAUDE_CLI_HEADER_PASSTHROUGH_TEMPLATE);
   (js "codex_cli_headers_passthrough", mkPreset VOperations CODEX_CLI_HEADER_PASSTHROUGH_TEMPLATE);
   (js "aws_bedrock_anthropic_beta_override", mkPreset VOperations AWS_BEDROCK_ANTHROPIC_COMPAT_TEMPLATE)].

(** [CONFIG\[key\] || CONFIG.operations_default]. *)
Definition preset_of (key : ustring) : TemplatePresetConfig :=
  match list_find (fun p => p.1 = key) TEMPLATE_PRESET_CONFIG with
  | Some (_, p) => p.2
  | None => mkPreset VOperations OPERATION_TEMPLATE
  end.

(** ** The state of the dialog *)

Inductive Note := ToastError (e : OverrideError) | OnSave (value : ustring) | OnOpenChange (open : bool).

Record Drag := mkDrag { draggedOperationId : ustring; dragOverOperationId : ustring; dragOverPosition : Position }.

Definition no_drag : Drag := mkDrag [] [] Before.

Record Editor := mkEditor {
  content : EditorState;
  operationSearch : ustring;
  selectedOperationId : ustring;
  expandedConditions : gmap ustring bool;
  drag : Drag;
  templatePresetKey : ustring;
  (** What was told to the page, the last first. *)
  notes : list Note;
  (** The draft shown for the selected rule when it prunes objects. *)
  pruneObjectsDraft : option PruneObjectsDraft;
}.

Definition operations (st : Editor) : list ParamOverrideOperation := s_operations (content st).

Definition set_content (c : EditorState) (st : Editor) : Editor :=
  mkEditor c (operationSearch st) (selectedOperationId st) (expandedConditions st) (drag st) (templatePresetKey st) (notes st) (pruneObjectsDraft st).
Definition set_selected (id : ustring) (st : Editor) : Editor :=
  mkEditor (content st) (operationSearch st) id (expandedConditions st) (drag st) (templatePresetKey st) (notes st) (pruneObjectsDraft st).
Definition set_search (text : ustring) (st : Editor) : Editor :=
  mkEditor (content st) text (selectedOperationId st) (expandedConditions st) (drag st) (templatePresetKey st) (notes st) (pruneObjectsDraft st).
Definition set_expanded (m : gmap ustring bool) (st : Editor) : Editor :=
  mkEditor (content st) (operationSearch st) (selectedOperationId st) m (drag st) (templatePresetKey st) (notes st) (pruneObjectsDraft st).
Definition set_drag (d : Drag) (st : Editor) : Editor :=
  mkEditor (content st) (operationSearch st) (selectedOperationId st) (expandedConditions st) d (templatePresetKey st) (notes st) (pruneObjectsDraft st).
Definition set_preset (key : ustring) (st : Editor) : Editor :=
  mkEditor (content st) (operationSearch st) (selectedOperationId st) (expandedConditions st) (drag st) key (notes st) (pruneObjectsDraft st).
Definition note (n : Note) (st : Editor) : Editor :=
  mkEditor (content st) (operationSearch st) (selectedOperationId st) (expandedConditions st) (drag st) (templatePresetKey st) (n :: notes st)
    (pruneObjectsDraft st).

Definition set_operations (ops : list ParamOverrideOperation) (st : Editor) : Editor :=
  let c := content st in
  set_content (mkState (s_editMode c) (s_visualMode c) (s_legacyValue c) ops (s_jsonText c) (s_jsonError c)) st.

(** ** Changes of parts *)

Inductive OperationPatch :=
| PMode (m : OperationMode) | PPath (t : ustring) | PDescription (t : ustring) | PValueText (t : ustring) | PKeepOrigin (b : bool)
| PFrom (t : ustring) | PTo (t : ustring) | PFromTo (from to : ustring) | PLogic (l : Logic).

Definition set_value_text (t : ustring) (o : ParamOverrideOperation) : ParamOverrideOperation :=
  mkOperation (o_id o) (o_description o) (o_path o) (o_mode o) (o_from o) (o_to o) t (o_keep_origin o) (o_logic o) (o_conditions o).

Definition set_conditions (cs : list ParamOverrideCondition) (o : ParamOverrideOperation) : ParamOverrideOperation :=
  mkOperation (o_id o) (o_description o) (o_path o) (o_mode o) (o_from o) (o_to o) (o_value_text o) (o_keep_origin o) (o_logic o) cs.

Definition patch_operation (p : OperationPatch) (o : ParamOverrideOperation) : ParamOverrideOperation :=
  let rebuild d path m from to t k l := mkOperation (o_id o) d path m from to t k l (o_conditions o) in
  let 'mkOperation _ d path m from to t k l _ := o in
  match p with
  | PMode m => rebuild d path m from to t k l
  | PPath path => rebuild d path m from to t k l
  | PDescription d => rebuild d path m from to t k l
  | PValueText t => rebuild d path m from to t k l
  | PKeepOrigin k => rebuild d path m from to t k l
  | PFrom from => rebuild d path m from to t k l
  | PTo to => rebuild d path m from to t k l
  | PFromTo from to => rebuild d path m from to t k l
  | PLogic l => rebuild d path m from to t k l
  end.

Inductive ConditionPatch :=
| CPath (t : ustring) | CMode (m : ConditionMode) | CValueText (t : ustring) | CInvert (b : bool) | CPassMissing (b : bool).

Definition patch_condition (p : ConditionPatch) (c : ParamOverrideCondition) : ParamOverrideCondition :=
  let 'mkCondition id path m t i k := c in
  match p with
  | CPath path => mkCondition id path m t i k
  | CMode m => mkCondition id path m t i k
  | CValueText t => mkCondition id path m t i k
  | CInvert i => mkCondition id path m t i k
  | CPassMissing k => mkCondition id path m t i k
  end.

Inductive ReturnErrorPatch :=
| RMessage (t : ustring) | RStatus (n : number) | RCode (t : ustring) | RType (t : ustring) | RSkipRetry (b : bool) | RSimple (b : bool)
| RPreset (n : number) (code type : ustring).

Definition patch_return_error (p : ReturnErrorPatch) (d : ReturnErrorDraft) : ReturnErrorDraft :=
  let 'mkReturnError message n code type skip simple := d in
  match p with
  | RMessage message => mkReturnError message n code type skip simple
  | RStatus n => mkReturnError message n code type skip simple
  | RCode code => mkReturnError message n code type skip simple
  | RType type => mkReturnError message n code type skip simple
  | RSkipRetry skip => mkReturnError message n code type skip simple
  | RSimple simple => mkReturnError message n code type skip simple
  | RPreset n code type => mkReturnError message n code type skip simple
  end.

Inductive PrunePatch := PrSimple (b : bool) | PrType (t : ustring) | PrLogic (l : Logic) | PrRecursive (b : bool).

Definition patch_prune (p : PrunePatch) (d : PruneObjectsDraft) : PruneObjectsDraft :=
  let 'mkPrune simple t l r rules := d in
  match p with
  | PrSimple simple => mkPrune simple t l r rules
  | PrType t => mkPrune simple t l r rules
  | PrLogic l => mkPrune simple t l r rules
  | PrRecursive r => mkPrune simple t l r rules
  end.

Definition set_rules (rules : list PruneRule) (d : PruneObjectsDraft) : PruneObjectsDraft :=
  mkPrune (p_simpleMode d) (p_typeText d) (p_logic d) (p_recursive d) rules.

(** [prev.map((o) => (o.id === operationId ? f(o) : o))]. *)
Definition on_operation (operationId : ustring) (f : ParamOverrideOperation → ParamOverrideOperation) (st : Editor) : Editor :=
  set_operations (map (fun o => if ustring_eqb (o_id o) operationId then f o else o) (operations st)) st.

Section handlers.
  Context (now : nat → Z).

(** ** Rules *)

Definition updateOperation (operationId : ustring) (patch : OperationPatch) (st : Editor) : Editor :=
  on_operation operationId (patch_operation patch) st.

Definition addOperation (st : Editor) : drawing Editor :=
  created ← createDefaultOperation now;
  mret (set_selected (o_id created) (set_operations (operations st ++ [created]) st)).

Definition clone_condition (c : ParamOverrideCondition) : json :=
  object_of
    [("path"%string, JString (c_path c)); ("mode"%string, JString (condition_mode_name (c_mode c)));
     ("value"%string, parseLooseValue (c_value_text c)); ("invert"%string, JBool (c_invert c));
     ("pass_missing_key"%string, JBool (c_pass_missing_key c))].

Definition clone_operation (source : ParamOverrideOperation) : json :=
  object_of
    [("description"%string, JString (o_description source)); ("path"%string, JString (o_path source));
     ("mode"%string, JString (mode_name (o_mode source))); ("value"%string, parseLooseValue (o_value_text source));
     ("keep_origin"%string, JBool (o_keep_origin source)); ("from"%string, JString (o_from source)); ("to"%string, JString (o_to source));
     ("logic"%string, JString (logic_name (o_logic source))); ("conditions"%string, JArray (map clone_condition (o_conditions source)))].

(** [eager]: the update function ran before the handler went on, so that the handler knows the new identifier. *)
Definition duplicateOperation (operationId : ustring) (eager : bool) (st : Editor) : drawing Editor :=
  match list_find (fun o => o_id o = operationId) (operations st) with
  | None => mret st
  | Some (idx, source) =>
      cloned ← normalizeOperation now (clone_operation source);
      let st := set_operations (take (idx + 1) (operations st) ++ cloned :: drop (idx + 1) (operations st)) st in
      mret (if eager then set_selected (o_id cloned) st else st)
  end.

Definition removeOperation (operationId : ustring) (st : Editor) : drawing Editor :=
  if length (operations st) <=? 1 then created ← createDefaultOperation now; mret (set_operations [created] st)
  else mret (set_operations (filter (fun o => o_id o ≠ operationId) (operations st)) st).

(** ** Conditions *)

Definition addCondition (operationId : ustring) (st : Editor) : drawing Editor :=
  created ← createDefaultCondition now;
  let st := on_operation operationId (fun o => set_conditions (o_conditions o ++ [created]) o) st in
  mret (set_expanded (<[c_id created := true]> (expandedConditions st)) st).

Definition updateCondition (operationId conditionId : ustring) (patch : ConditionPatch) (st : Editor) : Editor :=
  on_operation operationId
    (fun o => set_conditions (map (fun c => if ustring_eqb (c_id c) conditionId then patch_condition patch c else c) (o_conditions o)) o) st.

Definition removeCondition (operationId conditionId : ustring) (st : Editor) : Editor :=
  on_operation operationId (fun o => set_conditions (filter (fun c => c_id c ≠ conditionId) (o_conditions o)) o) st.

Definition updateReturnErrorDraft (operationId : ustring) (draftPatch : ReturnErrorPatch) (st : Editor) : Editor :=
  on_operation operationId
    (fun o => set_value_text (buildReturnErrorValueText (patch_return_error draftPatch (parseReturnErrorDraft (o_value_text o)))) o) st.

(** The draft is read again, with new identifiers, before it is changed. *)
Definition updatePruneObjectsDraft (operationId : ustring) (updater : PruneObjectsDraft → drawing PruneObjectsDraft) (st : Editor)
    : drawing Editor :=
  ops ← mapM (fun o =>
          if ustring_eqb (o_id o) operationId then
            draft ← parsePruneObjectsDraft now (o_value_text o);
            nextDraft ← updater draft;
            mret (set_value_text (buildPruneObjectsValueText nextDraft) o)
          else (mret o : drawing _)) (operations st);
  mret (set_operations ops st).

Definition addPruneRule (operationId : ustring) : Editor → drawing Editor :=
  updatePruneObjectsDraft operationId (fun draft =>
    rule ← normalizePruneRule now (JObject []);
    mret (patch_prune (PrSimple false) (set_rules (p_rules draft ++ [rule]) draft))).

Definition updatePruneRule (operationId ruleId : ustring) (patch : ConditionPatch) : Editor → drawing Editor :=
  updatePruneObjectsDraft operationId (fun draft =>
    mret (set_rules (map (fun r => if ustring_eqb (c_id r) ruleId then patch_condition patch r else r) (p_rules draft)) draft)).

Definition removePruneRule (operationId ruleId : ustring) : Editor → drawing Editor :=
  updatePruneObjectsDraft operationId (fun draft => mret (set_rules (filter (fun r => c_id r ≠ ruleId) (p_rules draft)) draft)).

(** ** Dragging *)

Definition resetDragState (st : Editor) : Editor := set_drag no_drag st.

Definition handleDragStart (operationId : ustring) (st : Editor) : Editor :=
  set_selected operationId (set_drag (mkDrag operationId (dragOverOperationId (drag st)) (dragOverPosition (drag st))) st).

(** [position]: whether the pointer is in the lower half. *)
Definition handleDragOver (operationId : ustring) (position : Position) (st : Editor) : Editor :=
  let dragged := draggedOperationId (drag st) in
  if negb (truthy dragged) || ustring_eqb dragged operationId then st else set_drag (mkDrag dragged operationId position) st.

(** [transferred]: the text the drag carries. *)
Definition handleDrop (operationId transferred : ustring) (st : Editor) : Editor :=
  let sourceId := if truthy (draggedOperationId (drag st)) then draggedOperationId (drag st) else transferred in
  let position := if ustring_eqb (dragOverOperationId (drag st)) operationId then dragOverPosition (drag st) else Before in
  resetDragState
    (if truthy sourceId && truthy operationId && negb (ustring_eqb sourceId operationId)
     then set_selected sourceId (set_operations (reorderOperations (operations st) sourceId operationId position) st)
     else st).

(** ** Modes and templates *)

Definition buildVisualJson (st : Editor) : result OverrideError ustring :=
  match s_visualMode (content st) with
  | VLegacy =>
      let trimmed := trim (s_legacyValue (content st)) in
      if negb (truthy trimmed) then Ok []
      else
        match JSON_parse trimmed with
        | None => Err InvalidJson
        | Some (JObject fields) => Ok (pretty (JObject fields))
        | Some _ => Err LegacyNotObject
        end
  | VOperations => buildOperationsJson (operations st) true
  end.

Definition switchToJsonMode (st : Editor) : Editor :=
  let c := content st in
  let show text error := set_content (mkState EJson (s_visualMode c) (s_legacyValue c) (s_operations c) text error) in
  match s_editMode c with
  | EJson => st
  | EVisual =>
      match buildVisualJson st with
      | Ok text => show text None st
      | Err e =>
          let text := match s_visualMode c with
                      | VLegacy => s_legacyValue c
                      | VOperations => match buildOperationsJson (operations st) false with Ok text => text | Err _ => [] end
                      end in
          show text (Some e) (note (ToastError e) st)
      end
  end.

Definition first_id (ops : list ParamOverrideOperation) : ustring := match ops with o :: _ => o_id o | [] => [] end.

Definition switchToVisualMode (st : Editor) : drawing Editor :=
  let c := content st in
  let show visual legacy ops := set_content (mkState EVisual visual legacy ops (s_jsonText c) None) in
  match s_editMode c with
  | EVisual => mret st
  | EJson =>
      let trimmed := trim (s_jsonText c) in
      if negb (truthy trimmed) then
        fallback ← createDefaultOperation now;
        mret (set_selected (o_id fallback) (show VOperations [] [fallback] st))
      else
        match JSON_parse trimmed with
        | None => mret (note (ToastError InvalidJson) st)
        | Some (JObject fields) =>
            match field fields (js "operations") with
            | Some (JArray vs) =>
                nextOps ← rules_or_default now vs;
                mret (set_preset (js "operations_default") (set_selected (first_id nextOps) (show VOperations [] nextOps st)))
            | _ =>
                fallback ← createDefaultOperation now;
                mret (set_preset (js "legacy_default")
                        (set_selected (o_id fallback) (show VLegacy (pretty (JObject fields)) [fallback] st)))
            end
        | Some _ => mret (note (ToastError NotAnObject) st)
        end
  end.

Inductive FillMode := Fill | Append.

(** The properties [...value] copies: of an array by index, of a text its units. *)
Definition spread_fields (value : json) : list (ustring * json) :=
  match value with
  | JObject fields => fields
  | JArray vs => imap (fun i v => (show_nat i, v)) vs
  | JString s => imap (fun i c => (show_nat i, JString [c])) s
  | _ => []
  end.

(** [{ ...a, ...b }]. *)
Definition merge_objects (a b : json) : json :=
  JObject (enumeration_order (fold_left (fun o f => set_field o f.1 f.2) (spread_fields b)
    (fold_left (fun o f => set_field o f.1 f.2) (spread_fields a) []))).

Definition fillTemplate (fill : FillMode) (st : Editor) : drawing Editor :=
  let c := content st in
  let preset := preset_of (templatePresetKey st) in
  let payload := preset_payload preset in
  let legacy value :=
    let text := pretty value in
    created ← createDefaultOperation now;
    mret (set_content (mkState EVisual VLegacy text [created] text None) st) in
  match preset_kind preset with
  | VLegacy =>
      match fill, s_visualMode c with
      | Append, VLegacy =>
          let trimmed := trim (s_legacyValue c) in
          if negb (truthy trimmed) then legacy (merge_objects payload (JObject []))
          else
            match JSON_parse trimmed with
            | None => mret (note (ToastError LegacyCannotAppend) st)
            | Some parsedCurrent => legacy (merge_objects payload parsedCurrent)
            end
      | _, _ => legacy payload
      end
  | VOperations =>
      let operationsPayload := match get payload (js "operations") with Some (JArray vs) => vs | _ => [] end in
      match fill with
      | Append =>
          appended ← mapM (normalizeOperation now) operationsPayload;
          let existing := match s_visualMode c with
                          | VOperations => filter (fun o => isOperationBlank o = false) (s_operations c)
                          | VLegacy => []
                          end in
          let nextOps := existing ++ appended in
          mret (set_selected (first_id nextOps) (set_content (mkState EVisual VOperations [] nextOps [] None) st))
      | Fill =>
          finalOps ← rules_or_default now operationsPayload;
          mret (set_selected (first_id finalOps)
                  (set_content (mkState EVisual VOperations (s_legacyValue c) finalOps (pretty (operations_of operationsPayload)) None) st))
      end
  end.

Definition resetEditorState (st : Editor) : drawing Editor :=
  fallback ← createDefaultOperation now;
  mret (set_preset (js "operations_default")
          (set_selected (o_id fallback) (set_content (mkState EVisual VOperations [] [fallback] [] None) st))).

Definition handleJsonChange (nextValue : ustring) (st : Editor) : Editor :=
  let c := content st in
  let trimmed := trim nextValue in
  let error := if negb (truthy trimmed) || verifyJSON trimmed then None else Some JsonFormatError in
  set_content (mkState (s_editMode c) (s_visualMode c) (s_legacyValue c) (s_operations c) nextValue error) st.

Definition setLegacyValue (value : ustring) (st : Editor) : Editor :=
  let c := content st in
  set_content (mkState (s_editMode c) (s_visualMode c) value (s_operations c) (s_jsonText c) (s_jsonError c)) st.

Definition visualValidationError (st : Editor) : option OverrideError :=
  match s_editMode (content st) with
  | EJson => None
  | EVisual => match buildVisualJson st with Ok _ => None | Err e => Some e end
  end.

(** ** Saving *)

(** The text that is saved. *)
Definition saved_text (st : Editor) : result OverrideError ustring :=
  match s_editMode (content st) with
  | EJson =>
      let trimmed := trim (s_jsonText (content st)) in
      if negb (truthy trimmed) then Ok []
      else match JSON_parse trimmed with None => Err InvalidJson | Some v => Ok (pretty v) end
  | EVisual => buildVisualJson st
  end.

Definition handleSave (st : Editor) : Editor :=
  match saved_text st with
  | Ok text => note (OnOpenChange false) (note (OnSave text) st)
  | Err e => note (ToastError e) st
  end.

(** ** Folding conditions *)

Definition set_all_conditions (expanded : bool) (st : Editor) : Editor :=
  match list_find (fun o => o_id o = selectedOperationId st) (operations st) with
  | None => st
  | Some (_, o) => set_expanded (foldr (fun c m => <[c_id c := expanded]> m) (expandedConditions st) (o_conditions o)) st
  end.

Definition expandAllConditions : Editor → Editor := set_all_conditions true.
Definition collapseAllConditions : Editor → Editor := set_all_conditions false.

(** ** Opening, and the effects *)

Definition open_dialog (value : ustring) (st : Editor) : drawing Editor :=
  state ← parseInitialState now value;
  mret (mkEditor state [] (first_id (s_operations state)) ∅ no_drag
          (match s_visualMode state with VLegacy => js "legacy_default" | VOperations => js "operations_default" end) (notes st) (pruneObjectsDraft st)).

(** The effect that keeps the selection valid. *)
Definition keep_selection (st : Editor) : Editor :=
  match operations st with
  | [] => set_selected [] st
  | o :: _ => if existsb (fun o => ustring_eqb (o_id o) (selectedOperationId st)) (operations st) then st else set_selected (o_id o) st
  end.

(** The draft of the selected rule, read when the dialog is shown again.  The dialog may keep the draft of a rule that did
    not change, whose identifiers are older. *)
Definition show_prune_draft (st : Editor) : drawing Editor :=
  let show draft := mkEditor (content st) (operationSearch st) (selectedOperationId st) (expandedConditions st) (drag st)
                      (templatePresetKey st) (notes st) draft in
  match list_find (fun o => o_id o = selectedOperationId st) (operations st) with
  | Some (_, o) =>
      if bool_decide (o_mode o = OpPruneObjects)
      then draft ← parsePruneObjectsDraft now (o_value_text o); mret (show (Some draft))
      else mret (show None)
  | None => mret (show None)
  end.

(** What the user can do. *)
Inductive Event :=
| Open (value : ustring)
| UpdateOperation (operationId : ustring) (patch : OperationPatch)
| AddOperation
| DuplicateOperation (operationId : ustring) (eager : bool)
| RemoveOperation (operationId : ustring)
| AddCondition (operationId : ustring)
| UpdateCondition (operationId conditionId : ustring) (patch : ConditionPatch)
| RemoveCondition (operationId conditionId : ustring)
| UpdateReturnError (operationId : ustring) (patch : ReturnErrorPatch)
| UpdatePrune (operationId : ustring) (patch : PrunePatch)
| AddPruneRule (operationId : ustring)
| UpdatePruneRule (operationId ruleId : ustring) (patch : ConditionPatch)
| RemovePruneRule (operationId ruleId : ustring)
| DragStart (operationId : ustring)
| DragOver (operationId : ustring) (position : Position)
| Drop (operationId transferred : ustring)
| DragEnd
| SwitchToJson
| SwitchToVisual
| SelectPreset (key : ustring)
| FillTemplate (fill : FillMode)
| Reset
| JsonChange (text : ustring)
| LegacyChange (text : ustring)
| Select (operationId : ustring)
| Search (text : ustring)
| ExpandAll
| CollapseAll
| SetExpanded (conditionId : ustring) (expanded : bool)
| Save.

Definition dispatch (e : Event) (st : Editor) : drawing Editor :=
  match e with
  | Open value => open_dialog value st
  | UpdateOperation id patch => mret (updateOperation id patch st)
  | AddOperation => addOperation st
  | DuplicateOperation id eager => duplicateOperation id eager st
  | RemoveOperation id => removeOperation id st
  | AddCondition id => addCondition id st
  | UpdateCondition id cid patch => mret (updateCondition id cid patch st)
  | RemoveCondition id cid => mret (removeCondition id cid st)
  | UpdateReturnError id patch => mret (updateReturnErrorDraft id patch st)
  | UpdatePrune id patch => updatePruneObjectsDraft id (fun d => mret (patch_prune patch d)) st
  | AddPruneRule id => addPruneRule id st
  | UpdatePruneRule id rid patch => updatePruneRule id rid patch st
  | RemovePruneRule id rid => removePruneRule id rid st
  | DragStart id => mret (handleDragStart id st)
  | DragOver id position => mret (handleDragOver id position st)
  | Drop id transferred => mret (handleDrop id transferred st)
  | DragEnd => mret (resetDragState st)
  | SwitchToJson => mret (switchToJsonMode st)
  | SwitchToVisual => switchToVisualMode st
  | SelectPreset key => mret (set_preset (if truthy key then key else js "operations_default") st)
  | FillTemplate fill => fillTemplate fill st
  | Reset => resetEditorState st
  | JsonChange text => mret (handleJsonChange text st)
  | LegacyChange text => mret (setLegacyValue text st)
  | Select id => mret (set_selected id st)
  | Search text => mret (set_search text st)
  | ExpandAll => mret (expandAllConditions st)
  | CollapseAll => mret (collapseAllConditions st)
  | SetExpanded id expanded => mret (set_expanded (<[id := expanded]> (expandedConditions st)) st)
  | Save => mret (handleSave st)
  end.

(** An event, then the effects, then the dialog is shown. *)
Definition handle_event (e : Event) (st : Editor) : drawing Editor := st' ← dispatch e st; show_prune_draft (keep_selection st').

Definition run_events (es : list Event) (st : Editor) : drawing Editor :=
  foldr (fun e k st => st' ← handle_event e st; k st') (mret : Editor → drawing Editor) es st.
End handlers.

(** Before the dialog is opened, after its first effects. *)
Definition closed_editor (now : nat → Z) : drawing Editor :=
  o ← createDefaultOperation now;
  mret (mkEditor (mkState EVisual VOperations [] [o] [] None) [] (o_id o) ∅ no_drag (js "operations_default") [] None).

(** A rule of a prune draft that is edited, one that is removed and one that is added: nothing changes. *)
Example prune_rules_cannot_be_edited :
  let value := json_text "{`operations`:[{`mode`:`prune_objects`,`value`:{`type`:`x`,`conditions`:[{`path`:`a`,`mode`:`full`,`value`:`b`}]}}]}" in
  let clock := fun _ => 0%Z in
  let edited es := (st ← closed_editor clock; run_events clock (Open value :: es) st) 0 in
  let shown := fun st : Editor * nat => (map o_value_text (operations st.1)) in
  match edited [] with
  | Some (st, _) =>
      map (fun e => shown <$> edited [e])
        [UpdatePruneRule (selectedOperationId st) (match pruneObjectsDraft st with Some d => match p_rules d with r :: _ => c_id r | [] => [] end | None => [] end) (CPath (js "z"));
         RemovePruneRule (selectedOperationId st) (match pruneObjectsDraft st with Some d => match p_rules d with r :: _ => c_id r | [] => [] end | None => [] end);
         AddPruneRule (selectedOperationId st)]
      = [Some (shown (st, 0)); Some (shown (st, 0)); Some (shown (st, 0))]
  | None => False
  end.
Proof. vm_compute. reflexivity. Qed.
