(* ===== verification/ParamOverrideProperties.v ===== *)
(** * Properties of the editor of parameter rules

    What is saved is read back, saved rules have the parts their modes need, identifiers are
    never shared, and what happens to edits of prune rules. *)

From Stdlib Require Import SpecFloat ZArith Lia.
From stdpp Require Import base numbers strings option gmap sets list.
From S2P Require Import Prelude JsNumber Json JsonText NumberText JsonPrint JsonStringify JsonScan NumberOf ParamOverride ParamOverrideEditor.

(** ** Counters *)

Lemma bind_draws {A B} (m : drawing A) (f : A → drawing B) s a s' : m s = Some (a, s') → (m ≫= f) s = f a s'.
Proof. unfold mbind, drawing_bind. by intros ->. Qed.

Lemma bind_draws_inv {A B} (m : drawing A) (f : A → drawing B) s b s' :
  (m ≫= f) s = Some (b, s') → ∃ a t, m s = Some (a, t) ∧ f a t = Some (b, s').
Proof. unfold mbind, drawing_bind. destruct (m s) as [[a t]|]; [by eauto | done]. Qed.

Lemma mapM_draws_nil {A B} (f : A → drawing B) s : mapM f [] s = Some ([], s).
Proof. reflexivity. Qed.

Lemma mapM_draws_cons {A B} (f : A → drawing B) x l s :
  mapM f (x :: l) s = (y ← f x; ys ← mapM f l; (mret (y :: ys) : drawing (list B))) s.
Proof. reflexivity. Qed.

(** ** Values as texts *)

Lemma printed_solid v : printable v = true → solid (JSON_stringify v).
Proof. intros [fuel H]%printed_value_text. apply H. Qed.

(** A value that is not a text is read back from its text. *)
Lemma loose_printed v : printable v = true → (∀ s, v ≠ JString s) → parseLooseValue (toValueText (Some v)) = v.
Proof.
  intros Hp Hs. unfold parseLooseValue.
  assert (E : toValueText (Some v) = JSON_stringify v) by (destruct v; [done.. | by destruct (Hs s) | done | done]).
  rewrite E, solid_trim by (by apply printed_solid). pose proof (JSON_round_trip v Hp) as Hr. destruct (JSON_stringify v); [discriminate Hr | ].
  by rewrite Hr.
Qed.

(** A text that means itself: trimmed, not empty, and not the JSON text of another value. *)
Definition plain_text (s : ustring) : Prop := s ≠ [] ∧ trim s = s ∧ JSON_parse s = None.

Lemma loose_plain s : plain_text s → parseLooseValue s = JString s.
Proof. intros (Hn & Ht & Hj). unfold parseLooseValue. rewrite Ht. destruct s; [done | ]. by rewrite Hj. Qed.

(** What is written into a field keeps its value when it is shown again. *)
Definition keeps_value (t : ustring) : Prop :=
  trim t = [] ∨ match parseLooseValue t with JString s => plain_text s | v => printable v = true end.

Lemma keeps_value_again t : keeps_value t → parseLooseValue (toValueText (Some (parseLooseValue t))) = parseLooseValue t.
Proof.
  intros [H|H].
  - unfold parseLooseValue at 2 3. rewrite H. reflexivity.
  - destruct (parseLooseValue t) eqn:E; try (by apply loose_printed). by apply loose_plain.
Qed.

(** The text that is shown is empty when the text that was written is. *)
Lemma shown_text_truthy t : keeps_value t → truthy (trim (toValueText (Some (parseLooseValue t)))) = truthy (trim t).
Proof.
  intros [H|H].
  - unfold parseLooseValue. by rewrite H.
  - assert (Ht : truthy (trim t) = true).
    { destruct (trim t) eqn:E; [ | done]. unfold parseLooseValue in H. rewrite E in H. by destruct H. }
    rewrite Ht. destruct (parseLooseValue t) as [| | |s| |] eqn:E; cbn [toValueText];
      try (by rewrite solid_trim by (by apply printed_solid); apply solid_truthy, printed_solid).
    destruct H as (Hn & -> & _). by destruct s.
Qed.

Example quoted_text_changes : ¬ keeps_value (DQUOTE :: js "42" ++ [DQUOTE]).
Proof. intros [H|(_ & _ & H)]; vm_compute in H; discriminate H. Qed.

(** ** Properties of payloads *)

Lemma field_add_same b n v o : field (add_if b n v o) (js n) = if b then Some v else field o (js n).
Proof. unfold add_if. destruct b; [ | done]. rewrite field_set_field. unfold ustring_eqb. by rewrite bool_decide_true. Qed.

Lemma field_add_other b n m v o : ustring_eqb (js n) m = false → field (add_if b n v o) m = field o m.
Proof. intros H. unfold add_if. destruct b; [ | done]. rewrite field_set_field. by rewrite H. Qed.

Lemma field_set_same n v o : field (set_field o (js n) v) (js n) = Some v.
Proof. rewrite field_set_field. unfold ustring_eqb. by rewrite bool_decide_true. Qed.

Lemma field_set_other n m v o : ustring_eqb (js n) m = false → field (set_field o (js n) v) m = field o m.
Proof. rewrite field_set_field. by intros ->. Qed.

Ltac look_up :=
  repeat first
    [ rewrite field_add_same | rewrite field_set_same
    | rewrite field_add_other by (vm_compute; reflexivity) | rewrite field_set_other by (vm_compute; reflexivity) ].

Lemma condition_fields c v :
  let get n := get (condition_payload c v) (js n) in
  get "path"%string = Some (JString (trim (c_path c))) ∧
  get "mode"%string = Some (JString (condition_mode_name (c_mode c))) ∧
  get "value"%string = v ∧
  get "invert"%string = (if c_invert c then Some (JBool true) else None) ∧
  get "pass_missing_key"%string = (if c_pass_missing_key c then Some (JBool true) else None).
Proof. cbv zeta. unfold condition_payload, get. split_and!; look_up; destruct v; look_up; try reflexivity. Qed.

(** The source and the target of a rule as they are written. *)
Definition written_from (o : ParamOverrideOperation) : ustring :=
  if m_pathAlias (MODE_META (o_mode o)) && negb (truthy (trim (o_from o))) && truthy (trim (o_path o)) then trim (o_path o) else trim (o_from o).
Definition written_to (o : ParamOverrideOperation) : ustring :=
  if m_pathAlias (MODE_META (o_mode o)) && negb (truthy (trim (o_to o))) && truthy (trim (o_path o)) then trim (o_path o) else trim (o_to o).

Definition written_conditions (o : ParamOverrideOperation) : list json := omap buildConditionPayload (o_conditions o).

Lemma operation_fields o :
  let get n := get (operation_payload o) (js n) in
  let meta := MODE_META (o_mode o) in
  let given (b : bool) v := if b then Some v else None in
  get "mode"%string = Some (JString (mode_name (o_mode o))) ∧
  get "description"%string = given (truthy (trim (o_description o))) (JString (trim (o_description o))) ∧
  get "path"%string = given (m_path meta || m_pathOptional meta && truthy (trim (o_path o))) (JString (trim (o_path o))) ∧
  get "value"%string = given (m_value meta) (parseLooseValue (o_value_text o)) ∧
  get "keep_origin"%string = given (m_keepOrigin meta && o_keep_origin o) (JBool true) ∧
  get "from"%string = given (m_from meta) (JString (written_from o)) ∧
  get "to"%string = given (writes_to meta || truthy (trim (o_to o))) (JString (written_to o)) ∧
  get "conditions"%string = given (negb (no (written_conditions o))) (JArray (written_conditions o)) ∧
  get "logic"%string = given (negb (no (written_conditions o))) (JString (logic_name (o_logic o))).
Proof.
  cbv zeta. unfold operation_payload, get, written_from, written_to. cbv zeta. fold (written_conditions o).
  split_and!; look_up; try reflexivity.
  all: destruct (o_mode o); cbn; look_up; try reflexivity; by branch.
Qed.

(** ** Rules that are shown again *)

(** Rules without their identifiers. *)
Definition erase_condition (c : ParamOverrideCondition) : ParamOverrideCondition :=
  mkCondition [] (c_path c) (c_mode c) (c_value_text c) (c_invert c) (c_pass_missing_key c).
Definition erase (o : ParamOverrideOperation) : ParamOverrideOperation :=
  mkOperation [] (o_description o) (o_path o) (o_mode o) (o_from o) (o_to o) (o_value_text o) (o_keep_origin o) (o_logic o)
    (map erase_condition (o_conditions o)).

Definition reopened_condition (c : ParamOverrideCondition) : ParamOverrideCondition :=
  mkCondition [] (trim (c_path c)) (c_mode c) (toValueText (Some (parseLooseValue (c_value_text c)))) (c_invert c) (c_pass_missing_key c).

Definition reopened_conditions (o : ParamOverrideOperation) : list ParamOverrideCondition :=
  map reopened_condition (filter (fun c => truthy (trim (c_path c)) = true) (o_conditions o)).

(** How a saved rule is shown. *)
Definition reopened (o : ParamOverrideOperation) : ParamOverrideOperation :=
  let meta := MODE_META (o_mode o) in
  mkOperation [] (trim (o_description o))
    (if m_path meta || m_pathOptional meta then trim (o_path o) else []) (o_mode o)
    (if m_from meta then written_from o else [])
    (if writes_to meta then written_to o else trim (o_to o))
    (if m_value meta then toValueText (Some (parseLooseValue (o_value_text o))) else [])
    (m_keepOrigin meta && o_keep_origin o)
    (if no (reopened_conditions o) then Or else o_logic o)
    (reopened_conditions o).

Lemma condition_mode_name_of m : condition_mode_of (Some (JString (condition_mode_name m))) = m.
Proof. by destruct m. Qed.

Lemma mode_name_of m : operation_mode_of (Some (JString (mode_name m))) = m.
Proof. by destruct m. Qed.

Section reading.
  Context (now : nat → Z).

Lemma read_condition c s : ∃ c', normalizeCondition now (condition_payload c (Some (parseLooseValue (c_value_text c)))) s = Some (c', S s) ∧
  erase_condition c' = reopened_condition c.
Proof.
  eexists. split; [reflexivity | ]. destruct (condition_fields c (Some (parseLooseValue (c_value_text c)))) as (Hp & Hm & Hv & Hi & Hk).
  cbv zeta in *. unfold erase_condition, reopened_condition. cbn [c_path c_mode c_value_text c_invert c_pass_missing_key].
  unfold text_field. fold (condition_payload c (Some (parseLooseValue (c_value_text c)))). rewrite Hp, Hm, Hv, Hi, Hk, condition_mode_name_of.
  cbn [asString default]. f_equal; [by destruct (c_invert c) | by destruct (c_pass_missing_key c)].
Qed.

Lemma read_conditions cs : ∀ s, ∃ cs', mapM (normalizeCondition now) (omap buildConditionPayload cs) s =
    Some (cs', s + length (omap buildConditionPayload cs)) ∧
  map erase_condition cs' = map reopened_condition (filter (fun c => truthy (trim (c_path c)) = true) cs).
Proof.
  induction cs as [|c cs IH]; intros s; [exists []; split; [by rewrite Nat.add_0_r | done] | ].
  cbn [omap list_omap]. rewrite (eq_refl : buildConditionPayload c =
    if truthy (trim (c_path c)) then Some (condition_payload c (Some (parseLooseValue (c_value_text c)))) else None), filter_cons.
  destruct (truthy (trim (c_path c))) eqn:E.
  - rewrite decide_True by done. destruct (read_condition c s) as (c' & Hc & Ec). destruct (IH (S s)) as (cs' & Hcs & Ecs).
    exists (c' :: cs'). split; [ | cbn [map]; by rewrite Ec, Ecs].
    rewrite mapM_draws_cons, (bind_draws _ _ _ _ _ Hc), (bind_draws _ _ _ _ _ Hcs). cbn [length].
    unfold mret, drawing_ret. rewrite Nat.add_succ_comm. reflexivity.
  - rewrite decide_False by done. apply IH.
Qed.

Lemma conditions_none o : no (written_conditions o) = no (reopened_conditions o).
Proof.
  unfold written_conditions, reopened_conditions. induction (o_conditions o) as [|c cs IH]; [done | ]. cbn [omap list_omap].
  unfold buildConditionPayload at 1. rewrite filter_cons. destruct (truthy (trim (c_path c))) eqn:E; [by rewrite decide_True by done | ].
  by rewrite decide_False by done.
Qed.

Lemma read_operation o s : ∃ o', normalizeOperation now (operation_payload o) s = Some (o', S s + length (written_conditions o)) ∧
  erase o' = reopened o.
Proof.
  destruct (operation_fields o) as (Hm & Hd & Hp & Hv & Hk & Hf & Ht & Hc & Hl). cbv zeta in *.
  destruct (read_conditions (o_conditions o) (S s)) as (cs' & Hcs & Ecs). fold (written_conditions o) in Hcs. fold (reopened_conditions o) in Ecs.
  assert (Hlogic : logic_text (get (operation_payload o) (js "logic")) "OR" = Some (if no (written_conditions o) then js "OR" else logic_name (o_logic o))).
  { rewrite Hl. by destruct (no (written_conditions o)), (o_logic o). }
  assert (Hconds : match get (operation_payload o) (js "conditions") with Some (JArray vs) => mapM (normalizeCondition now) vs | _ => mret [] end (S s)
                   = Some (cs', S s + length (written_conditions o))).
  { rewrite Hc. destruct (written_conditions o) as [|w ws] eqn:E; cbn [no negb]; [ | exact Hcs]. exact Hcs. }
  eexists. split.
  - unfold normalizeOperation. erewrite bind_draws by reflexivity. change (operation_payload o) with (JObject (match operation_payload o with JObject f => f | _ => [] end)).
    cbn match. change (JObject (match operation_payload o with JObject f => f | _ => [] end)) with (operation_payload o).
    rewrite Hlogic. erewrite bind_draws by reflexivity. rewrite (bind_draws _ _ _ _ _ Hconds). reflexivity.
  - unfold erase, reopened. cbn [o_description o_path o_mode o_from o_to o_value_text o_keep_origin o_logic o_conditions].
    unfold text_field. rewrite Hd, Hp, Hm, Hf, Ht, Hv, Hk, mode_name_of, Ecs, conditions_none. f_equal.
    + by destruct (trim (o_description o)).
    + destruct (m_path (MODE_META (o_mode o))), (m_pathOptional (MODE_META (o_mode o))); [done.. | | done]. by destruct (trim (o_path o)).
    + by destruct (m_from _).
    + unfold written_to. destruct (writes_to (MODE_META (o_mode o))) eqn:Ew; [done | ].
      assert (m_pathAlias (MODE_META (o_mode o)) = false) as -> by (by destruct (o_mode o)). by destruct (trim (o_to o)).
    + by destruct (m_value _).
    + by destruct (m_keepOrigin _ && _).
    + by destruct (no (reopened_conditions o)), (o_logic o).
Qed.
End reading.

(** ** Saving rules that were shown again *)

Lemma condition_payload_erase c v : condition_payload (erase_condition c) v = condition_payload c v.
Proof. reflexivity. Qed.

Lemma written_erase cs : omap buildConditionPayload (map erase_condition cs) = omap buildConditionPayload cs.
Proof.
  induction cs as [|c cs IH]; [done | ]. cbn [map omap list_omap]. rewrite IH.
  by rewrite (eq_refl : buildConditionPayload (erase_condition c) = buildConditionPayload c).
Qed.

Lemma payload_erase o : operation_payload (erase o) = operation_payload o.
Proof. unfold operation_payload, erase. cbn [o_description o_path o_mode o_from o_to o_value_text o_keep_origin o_logic o_conditions]. by rewrite written_erase. Qed.

Lemma blank_erase o : isOperationBlank (erase o) = isOperationBlank o.
Proof.
  unfold isOperationBlank, erase. cbn [o_description o_path o_mode o_from o_to o_value_text o_keep_origin o_logic o_conditions].
  f_equal. f_equal. induction (o_conditions o) as [|c cs IH]; [done | ]. cbn [map existsb]. by rewrite IH.
Qed.

Lemma validate_erase line o : validateOperation line (erase o) = validateOperation line o.
Proof. reflexivity. Qed.

(** The values of a rule keep their meaning when they are shown. *)
Definition keeps_values (o : ParamOverrideOperation) : Prop :=
  keeps_value (o_value_text o) ∧ Forall (fun c => keeps_value (c_value_text c)) (o_conditions o).

Lemma written_again o : keeps_values o → omap buildConditionPayload (reopened_conditions o) = written_conditions o.
Proof.
  intros [_ H]. unfold reopened_conditions, written_conditions. induction H as [|c cs Hc H IH]; [done | ].
  cbn [omap list_omap]. rewrite (eq_refl : buildConditionPayload c =
    if truthy (trim (c_path c)) then Some (condition_payload c (Some (parseLooseValue (c_value_text c)))) else None), filter_cons.
  destruct (truthy (trim (c_path c))) eqn:E; [ | by rewrite decide_False by done]. rewrite decide_True by done. cbn [map omap list_omap].
  rewrite IH. unfold buildConditionPayload at 1. unfold reopened_condition at 1 2 3. cbn [c_path c_value_text].
  rewrite trim_idempotent, E, keeps_value_again by done. unfold condition_payload, reopened_condition.
  cbn [c_path c_mode c_invert c_pass_missing_key]. by rewrite trim_idempotent.
Qed.

Lemma written_trimmed o : trim (written_from o) = written_from o ∧ trim (written_to o) = written_to o.
Proof. unfold written_from, written_to. split; branch; apply trim_idempotent. Qed.

Lemma trim_if (b : bool) t : trim (if b then trim t else []) = if b then trim t else [].
Proof. destruct b; [apply trim_idempotent | done]. Qed.

(** A rule that is shown again is written as before. *)
Lemma payload_reopened o : keeps_values o → operation_payload (reopened o) = operation_payload o.
Proof.
  intros H. pose proof (written_again o H) as Hc. pose proof (conditions_none o) as Hn. destruct H as [Hv _].
  unfold operation_payload, reopened. cbn [o_description o_path o_mode o_from o_to o_value_text o_keep_origin o_logic o_conditions]. cbv zeta.
  rewrite Hc. fold (written_conditions o). rewrite <- Hn, trim_idempotent.
  rewrite trim_if. destruct (written_trimmed o) as [Hf Ht]. pose proof (keeps_value_again _ Hv) as Ha.
  assert (trim (if m_from (MODE_META (o_mode o)) then written_from o else []) = if m_from (MODE_META (o_mode o)) then written_from o else []) as ->
    by (branch; [done | reflexivity]).
  assert (trim (if writes_to (MODE_META (o_mode o)) then written_to o else trim (o_to o)) =
          if writes_to (MODE_META (o_mode o)) then written_to o else trim (o_to o)) as -> by (branch; [done | apply trim_idempotent]).
  unfold written_from, written_to. clear Hf Ht Hc Hn Hv.
  assert (Hval : ∀ b : bool, b = true → parseLooseValue (if b then toValueText (Some (parseLooseValue (o_value_text o))) else []) = parseLooseValue (o_value_text o))
    by (by intros b ->). clear Ha.
  generalize dependent (toValueText (Some (parseLooseValue (o_value_text o)))). intros shown Hval. generalize dependent (parseLooseValue (o_value_text o)).
  generalize (trim (o_description o)) (trim (o_path o)) (trim (o_from o)) (trim (o_to o)) (o_keep_origin o) (written_conditions o) (o_logic o).
  intros d path from to keep cs logic v Hval. destruct (o_mode o); cbn [MODE_META m_path m_pathOptional m_value m_from m_to m_keepOrigin m_pathAlias writes_to default orb andb add_if];
    rewrite ?(Hval true eq_refl); try reflexivity; destruct path, from, to; try reflexivity; destruct cs; try reflexivity; destruct d, keep; reflexivity.
Qed.

(** An accepted rule is not blank when it is shown again, and is accepted again. *)
Lemma blank_reopened line o : validateOperation line o = Ok tt → isOperationBlank (reopened o) = false.
Proof.
  intros H. unfold isOperationBlank, reopened. cbn [o_path o_mode]. destruct (o_mode o) eqn:E; try reflexivity.
  cbn [MODE_META m_path orb bool_decide]. rewrite trim_idempotent. destruct (truthy (trim (o_path o))) eqn:Ep; [reflexivity | ].
  unfold validateOperation in H. rewrite E, Ep in H. discriminate H.
Qed.

Lemma message_again t : keeps_value t → truthy (trim t) = true →
  has_message (trim (toValueText (Some (parseLooseValue t)))) = has_message (trim t).
Proof.
  intros [H|H] Ht; [by rewrite H in Ht | ]. unfold parseLooseValue in *. destruct (trim t) as [|c u] eqn:E; [done | ].
  destruct (JSON_parse (c :: u)) as [v|] eqn:Ej; cbn [default from_option id] in *.
  - destruct v; cbn [toValueText];
      try (rewrite solid_trim by (by apply printed_solid); unfold has_message; by rewrite JSON_round_trip, Ej by done).
    destruct H as (_ & -> & H). unfold has_message. by rewrite H, Ej.
  - cbn [toValueText]. destruct H as (_ & -> & _). reflexivity.
Qed.

(** A source and a target that the path stands for are not missing when they are written out. *)
Lemma aliased_valid line (m : OperationMode) (path from to : ustring) (value value' : bool) :
  (guard_ok (negb false) (MissingTargetPath line);;
   guard_ok (negb (bool_decide (m ∈ FROM_REQUIRED_MODES) && negb (truthy (trim from)) && negb (truthy (trim path)))) (MissingSourceField line);;
   guard_ok (negb (bool_decide (m ∈ TO_REQUIRED_MODES) && negb (truthy (trim to)) && negb (truthy (trim path)))) (MissingTargetField line);;
   guard_ok (negb (false && value)) (MissingValue line);; Ok tt) = Ok tt →
  (guard_ok (negb false) (MissingTargetPath line);;
   guard_ok (negb (bool_decide (m ∈ FROM_REQUIRED_MODES) &&
     negb (truthy (trim (if negb (truthy (trim from)) && truthy (trim path) then trim path else trim from))) && negb (truthy (trim [])))) (MissingSourceField line);;
   guard_ok (negb (bool_decide (m ∈ TO_REQUIRED_MODES) &&
     negb (truthy (trim (if negb (truthy (trim to)) && truthy (trim path) then trim path else trim to))) && negb (truthy (trim [])))) (MissingTargetField line);;
   guard_ok (negb (false && value')) (MissingValue line);; Ok tt) = Ok tt.
Proof.
  destruct (bool_decide (m ∈ FROM_REQUIRED_MODES)), (bool_decide (m ∈ TO_REQUIRED_MODES)), (truthy (trim from)) eqn:Ef, (truthy (trim to)) eqn:Et, (truthy (trim path)) eqn:Ep;
    cbn [negb andb]; rewrite ?trim_idempotent, ?Ef, ?Et, ?Ep; done.
Qed.

Lemma validate_reopened line o : keeps_values o → validateOperation line o = Ok tt → validateOperation line (reopened o) = Ok tt.
Proof.
  intros [Hv _] H. unfold validateOperation in *. cbv zeta in *. unfold reopened, written_from, written_to.
  cbn [o_description o_path o_mode o_from o_to o_value_text]. pose proof (shown_text_truthy _ Hv) as Hs.
  assert (Hh : parseLooseValue (trim (toValueText (Some (parseLooseValue (o_value_text o))))) = parseLooseValue (trim (o_value_text o))).
  { unfold parseLooseValue at 1 3. rewrite !trim_idempotent. exact (keeps_value_again _ Hv). }
  pose proof (message_again _ Hv) as Hm. revert H Hs Hh Hm.
  generalize (toValueText (Some (parseLooseValue (o_value_text o)))). intros shown.
  destruct (o_mode o); cbn [MODE_META m_path m_pathOptional m_value m_from m_to m_keepOrigin m_pathAlias writes_to default orb andb id];
    rewrite ?trim_idempotent; intros H Hs Hh Hm; try exact H; try (by rewrite Hs); rewrite ?Hs, ?Hh; try exact H.
  - destruct (truthy (trim (o_value_text o))); [by rewrite Hm | discriminate H].
  - exact (aliased_valid line _ _ _ _ _ _ H).
  - exact (aliased_valid line _ _ _ _ _ _ H).
Qed.

(** ** The text of a list of rules *)

Definition kept_rules (ops : list ParamOverrideOperation) : list ParamOverrideOperation := filter (fun o => isOperationBlank o = false) ops.

Definition rules_json (ops : list ParamOverrideOperation) : json := JObject [(js "operations", JArray (map operation_payload ops))].

Lemma rules_text_solid ops : solid (pretty (rules_json ops)).
Proof.
  unfold pretty, rules_json. cbn [JSON_print map]. unfold bracket. rewrite (app_assoc (line _ _)), (app_assoc (_ ++ join _ _)).
  by apply (solid_app (js "{") (js "}")).
Qed.

Lemma read_rules now ops : ∀ s, ∃ ops' s', mapM (normalizeOperation now) (map operation_payload ops) s = Some (ops', s') ∧
  map erase ops' = map reopened ops.
Proof.
  induction ops as [|o ops IH]; intros s; [by eexists [], _ | ].
  destruct (read_operation now o s) as (o' & Ho & Eo). destruct (IH (S s + length (written_conditions o))) as (ops' & s' & Hops & Eops).
  exists (o' :: ops'), s'. split; [ | cbn [map]; by rewrite Eo, Eops].
  cbn [map]. rewrite mapM_draws_cons, (bind_draws _ _ _ _ _ Ho), (bind_draws _ _ _ _ _ Hops). reflexivity.
Qed.

Lemma validate_again (g : ParamOverrideOperation → ParamOverrideOperation) ops : ∀ n,
  Forall (fun o => ∀ line, validateOperation line o = Ok tt → validateOperation line (g o) = Ok tt) ops →
  validate_from n ops = Ok tt → validate_from n (map g ops) = Ok tt.
Proof.
  induction ops as [|o ops IH]; intros n H Hv; [done | ]. apply Forall_cons in H as [Ho H]. cbn [validate_from map] in *.
  apply bind_Ok_inv in Hv as ([] & H1 & H2). rewrite (Ho n H1). by apply (IH (S n)).
Qed.

Lemma validate_from_erase ops : ∀ n, validate_from n (map erase ops) = validate_from n ops.
Proof. induction ops as [|o ops IH]; intros n; [done | ]. cbn [map validate_from]. by rewrite validate_erase, IH. Qed.

Lemma validate_each ops : ∀ n, validate_from n ops = Ok tt → Forall (fun o => ∃ line, validateOperation line o = Ok tt) ops.
Proof.
  induction ops as [|o ops IH]; intros n H; [constructor | ]. cbn [validate_from] in H. apply bind_Ok_inv in H as ([] & H1 & H2).
  constructor; [by eexists | by apply (IH (S n))].
Qed.

Lemma payloads_erase ops : map operation_payload (map erase ops) = map operation_payload ops.
Proof. rewrite map_map. apply map_ext, payload_erase. Qed.

(** Rules that are the ones shown again are saved as the same text. *)
Lemma built_again ops ops' :
  ops ≠ [] → validateOperations ops = Ok tt → Forall keeps_values ops → map erase ops' = map reopened ops →
  buildOperationsJson ops' true = Ok (pretty (rules_json ops)).
Proof.
  intros Hne Hv Hk He. assert (Hblank : Forall (fun o => isOperationBlank o = false) ops').
  { apply (Forall_impl (fun o => isOperationBlank (erase o) = false)); [ | intros o; by rewrite blank_erase].
    rewrite <- (Forall_map erase (fun o => isOperationBlank o = false)), He, (Forall_map reopened (fun o => isOperationBlank o = false)).
    eapply Forall_impl; [exact (validate_each ops 1 Hv) | ]. intros o [n Ho]. by apply (blank_reopened n). }
  unfold buildOperationsJson. rewrite filter_all by (by apply Forall_forall). destruct ops' as [|o' ops']; [by destruct ops | ].
  assert (validateOperations (o' :: ops') = Ok tt) as ->.
  { unfold validateOperations. rewrite <- validate_from_erase, He. apply validate_again; [ | done].
    eapply Forall_impl; [done | ]. intros o Ho n. by apply validate_reopened. }
  unfold mbind. cbn [result_bind]. do 3 f_equal. unfold rules_json. do 4 f_equal.
  rewrite <- payloads_erase, He, map_map. apply map_ext_in. intros o Ho. apply payload_reopened.
  rewrite Forall_forall in Hk. apply Hk. by apply list_elem_of_In.
Qed.

Lemma built_rules ops text : buildOperationsJson ops true = Ok text → text ≠ [] →
  kept_rules ops ≠ [] ∧ validateOperations (kept_rules ops) = Ok tt ∧ text = pretty (rules_json (kept_rules ops)).
Proof.
  unfold buildOperationsJson. fold (kept_rules ops). intros Hb Hne. destruct (kept_rules ops) as [|o kept]; [by injection Hb as <- | ].
  apply bind_Ok_inv in Hb as ([] & Hv & Hb). split; [done | ]. split; [exact Hv | ]. unfold rules_json. congruence.
Qed.

Lemma parse_rules now ops s ops' s' :
  ops ≠ [] → printable (rules_json ops) = true → mapM (normalizeOperation now) (map operation_payload ops) s = Some (ops', s') →
  parseInitialState now (pretty (rules_json ops)) s = Some (mkState EVisual VOperations [] ops' (pretty (rules_json ops)) None, s').
Proof.
  intros Hne Hp Hr. unfold parseInitialState. cbv zeta. rewrite (solid_trim _ (rules_text_solid ops)), (solid_truthy _ (rules_text_solid ops)).
  rewrite (JSON_print_round_trip (js "  ") (rules_json ops) eq_refl Hp : JSON_parse (pretty (rules_json ops)) = _). cbn [negb].
  assert (Hf : ∀ v, field [(js "operations", v)] (js "operations") = Some v) by reflexivity.
  unfold rules_json at 1. rewrite Hf. unfold rules_or_default. destruct ops as [|o ops]; [done | ]. cbn [map] in *.
  by rewrite (bind_draws _ _ _ _ _ Hr).
Qed.

(** C34: rules that were saved are shown again.  When the rules of the editor are accepted and written, opening the text
    shows exactly the rules that were not blank, each with the parts its mode has, trimmed, and with its conditions that
    have a path; and when every value keeps its meaning as a text (that is, unless a quoted text is itself the JSON
    text of another value, such as a number in quotes), saving what is shown gives the same text. *)
Theorem saved_rules_read_back now ops text s :
  buildOperationsJson ops true = Ok text → text ≠ [] → printable (rules_json (kept_rules ops)) = true →
  ∃ st s', parseInitialState now text s = Some (st, s') ∧
    s_editMode st = EVisual ∧ s_visualMode st = VOperations ∧ s_jsonText st = text ∧ s_jsonError st = None ∧
    map erase (s_operations st) = map reopened (kept_rules ops) ∧
    (Forall keeps_values (kept_rules ops) → buildOperationsJson (s_operations st) true = Ok text).
Proof.
  intros Hb Hne Hp. destruct (built_rules _ _ Hb Hne) as (Hk & Hv & ->). destruct (read_rules now (kept_rules ops) s) as (ops' & s' & Hr & He).
  eexists _, s'. split; [by apply parse_rules | ]. cbn [s_editMode s_visualMode s_jsonText s_jsonError s_operations].
  split_and!; try reflexivity; [exact He | ]. intros Hkeep. by apply built_again.
Qed.

(** ** Saved rules have what their modes need *)

Definition given (b : bool) (v : json) : option json := if b then Some v else None.

(** The condition [v] says what the condition [c] of the editor says. *)
Record saved_condition (v : json) (c : ParamOverrideCondition) : Prop := mkSavedCondition {
  condition_path : get v (js "path") = Some (JString (trim (c_path c))) ∧ solid (trim (c_path c));
  condition_mode : get v (js "mode") = Some (JString (condition_mode_name (c_mode c)));
  condition_value : get v (js "value") = Some (parseLooseValue (c_value_text c));
  condition_invert : get v (js "invert") = given (c_invert c) (JBool true);
  condition_missing : get v (js "pass_missing_key") = given (c_pass_missing_key c) (JBool true);
}.

Definition with_path (cs : list ParamOverrideCondition) : list ParamOverrideCondition := filter (fun c => truthy (trim (c_path c)) = true) cs.

Definition VALUE_CHECKED_MODES : list OperationMode := VALUE_REQUIRED_MODES ++ [OpReturnError; OpPruneObjects; OpPassHeaders].

(** The rule [v] says what the rule [o] of the editor says, and has what its mode needs. *)
Record complete_rule (v : json) (o : ParamOverrideOperation) : Prop := mkComplete {
  rule_mode : get v (js "mode") = Some (JString (mode_name (o_mode o)));
  rule_description : get v (js "description") = given (truthy (trim (o_description o))) (JString (trim (o_description o)));
  rule_path :
    get v (js "path") = given (m_path (MODE_META (o_mode o)) || m_pathOptional (MODE_META (o_mode o)) && truthy (trim (o_path o))) (JString (trim (o_path o))) ∧
    (m_path (MODE_META (o_mode o)) = true → solid (trim (o_path o)));
  rule_from : get v (js "from") = given (m_from (MODE_META (o_mode o))) (JString (written_from o)) ∧ (o_mode o ∈ FROM_REQUIRED_MODES → solid (written_from o));
  rule_to :
    get v (js "to") = given (writes_to (MODE_META (o_mode o)) || truthy (trim (o_to o))) (JString (written_to o)) ∧
    (o_mode o ∈ TO_REQUIRED_MODES → solid (written_to o));
  rule_value :
    get v (js "value") = given (m_value (MODE_META (o_mode o))) (parseLooseValue (o_value_text o)) ∧
    (o_mode o ∈ VALUE_CHECKED_MODES → solid (trim (o_value_text o)));
  rule_headers : o_mode o = OpPassHeaders → ∃ names, parsePassHeaderNames (parseLooseValue (o_value_text o)) = Some names ∧ names ≠ [];
  rule_origin : get v (js "keep_origin") = given (m_keepOrigin (MODE_META (o_mode o)) && o_keep_origin o) (JBool true);
  rule_conditions :
    match with_path (o_conditions o) with
    | [] => get v (js "conditions") = None ∧ get v (js "logic") = None
    | cs => ∃ vs, get v (js "conditions") = Some (JArray vs) ∧ Forall2 saved_condition vs cs ∧ get v (js "logic") = Some (JString (logic_name (o_logic o)))
    end;
}.

Lemma guard_inv {E} b (e : E) : guard_ok b e = Ok tt → b = true.
Proof. by destruct b. Qed.

Lemma truthy_solid t : truthy (trim t) = true → solid (trim t).
Proof. intros H. apply trim_solid. by destruct (trim t). Qed.

Lemma written_conditions_saved o : Forall2 saved_condition (written_conditions o) (with_path (o_conditions o)).
Proof.
  unfold written_conditions, with_path. induction (o_conditions o) as [|c cs IH]; [constructor | ]. cbn [omap list_omap].
  rewrite (eq_refl : buildConditionPayload c =
    if truthy (trim (c_path c)) then Some (condition_payload c (Some (parseLooseValue (c_value_text c)))) else None), filter_cons.
  destruct (truthy (trim (c_path c))) eqn:E; [rewrite decide_True by done | by rewrite decide_False by done].
  constructor; [ | exact IH]. destruct (condition_fields c (Some (parseLooseValue (c_value_text c)))) as (Hp & Hm & Hv & Hi & Hk).
  split; [split; [exact Hp | by apply truthy_solid] | done..].
Qed.

(** What the checks of a rule say. *)
Lemma validated_parts line o : validateOperation line o = Ok tt →
  (m_path (MODE_META (o_mode o)) = true → truthy (trim (o_path o)) = true) ∧
  (o_mode o ∈ FROM_REQUIRED_MODES → truthy (written_from o) = true) ∧
  (o_mode o ∈ TO_REQUIRED_MODES → truthy (written_to o) = true) ∧
  (o_mode o ∈ VALUE_CHECKED_MODES → truthy (trim (o_value_text o)) = true) ∧
  (o_mode o = OpPassHeaders → ∃ names, parsePassHeaderNames (parseLooseValue (o_value_text o)) = Some names ∧ names ≠ []).
Proof.
  intros H. unfold validateOperation in H. cbv zeta in H. apply bind_Ok_inv in H as ([] & H1%guard_inv & H).
  apply bind_Ok_inv in H as ([] & H2%guard_inv & H). apply bind_Ok_inv in H as ([] & H3%guard_inv & H).
  apply bind_Ok_inv in H as ([] & H4%guard_inv & H). split_and!.
  - intros Hm. rewrite Hm in H1. by destruct (truthy (trim (o_path o))).
  - intros Hm. rewrite bool_decide_true in H2 by done. unfold written_from.
    destruct (truthy (trim (o_from o))) eqn:Ef, (truthy (trim (o_path o))) eqn:Ep, (m_pathAlias _); cbn in H2 |- *; congruence.
  - intros Hm. rewrite bool_decide_true in H3 by done. unfold written_to.
    destruct (truthy (trim (o_to o))) eqn:Ef, (truthy (trim (o_path o))) eqn:Ep, (m_pathAlias _); cbn in H3 |- *; congruence.
  - intros Hm. destruct (truthy (trim (o_value_text o))) eqn:Ev; [done | ]. exfalso. apply elem_of_app in Hm as [Hm|Hm].
    + by rewrite bool_decide_true in H4.
    + repeat (apply elem_of_cons in Hm as [Hm|Hm]; [rewrite Hm in H; discriminate H | ]). by apply elem_of_nil in Hm.
  - intros Hm. rewrite Hm in H. apply bind_Ok_inv in H as ([] & _ & H).
    assert (parseLooseValue (trim (o_value_text o)) = parseLooseValue (o_value_text o)) as E by (unfold parseLooseValue; by rewrite trim_idempotent).
    rewrite E in H. destruct (parsePassHeaderNames _) as [names|]; [ | done]. exists names. split; [done | ]. by destruct names.
Qed.

Lemma required_from m : m ∈ FROM_REQUIRED_MODES → m_from (MODE_META m) = true.
Proof. intros H. apply (bool_decide_eq_true_2 _) in H. by destruct m. Qed.

Lemma required_to m : m ∈ TO_REQUIRED_MODES → writes_to (MODE_META m) = true.
Proof. intros H. apply (bool_decide_eq_true_2 _) in H. by destruct m. Qed.

Lemma written_solid t : trim t = t → truthy t = true → solid t.
Proof. intros <- H. by apply truthy_solid. Qed.

Lemma payload_complete line o : validateOperation line o = Ok tt → complete_rule (operation_payload o) o.
Proof.
  intros (Vp & Vf & Vt & Vv & Vh)%validated_parts. destruct (operation_fields o) as (Hm & Hd & Hp & Hv & Hk & Hf & Ht & Hc & Hl). cbv zeta in *.
  destruct (written_trimmed o) as [Tf Tt]. pose proof (written_conditions_saved o) as Hs. split; [exact Hm | exact Hd | .. | exact Hk | ].
  - split; [exact Hp | ]. intros E. by apply truthy_solid, Vp.
  - split; [exact Hf | ]. intros E. apply written_solid; [done | by apply Vf].
  - split; [exact Ht | ]. intros E. apply written_solid; [done | by apply Vt].
  - split; [exact Hv | ]. intros E. by apply truthy_solid, Vv.
  - exact Vh.
  - destruct Hs as [|w c ws cs Hw Hs]; cbn [no negb] in *; [done | ]. exists (w :: ws). split; [exact Hc | ]. split; [by constructor | exact Hl].
Qed.

(** C35: in the visual mode of rules the editor saves what it shows, and only complete rules.  Saving either tells an error
    and leaves the dialog as it was, or saves an empty text when every rule is blank, or saves the JSON text of an object
    whose rules are those of the editor that are not blank, in order: each with its mode, description, path, source,
    target, value, options and those of its conditions that have a path, as they stand in the editor, trimmed; and with a
    path, a source, a target, a value and at least one header name that are not blank where the mode needs them.  (In the
    JSON mode any JSON text is saved without these checks.) *)
Theorem saved_rules_are_complete st :
  s_editMode (content st) = EVisual → s_visualMode (content st) = VOperations → printable (rules_json (kept_rules (operations st))) = true →
  (∃ e, handleSave st = note (ToastError e) st) ∨
  (kept_rules (operations st) = [] ∧ handleSave st = note (OnOpenChange false) (note (OnSave []) st)) ∨
  ∃ text vs, handleSave st = note (OnOpenChange false) (note (OnSave text) st) ∧
    JSON_parse text = Some (JObject [(js "operations", JArray vs)]) ∧
    Forall2 complete_rule vs (kept_rules (operations st)).
Proof.
  intros He Hv Hp. unfold handleSave, saved_text, buildVisualJson. rewrite He, Hv.
  destruct (buildOperationsJson (operations st) true) as [text|e] eqn:Eb; [right | left; by eexists].
  destruct (decide (text = [])) as [->|Hne].
  - left. split; [ | done]. unfold buildOperationsJson in Eb. fold (kept_rules (operations st)) in Eb.
    destruct (kept_rules (operations st)) as [|o kept]; [done | ]. apply bind_Ok_inv in Eb as (_ & _ & Eb).
    destruct (solid_nonempty _ (rules_text_solid (o :: kept))). exact (f_equal (fun r => match r with Ok t => t | Err _ => [] end) Eb).
  - right. destruct (built_rules _ _ Eb Hne) as (_ & Hvalid & ->). exists (pretty (rules_json (kept_rules (operations st)))).
    exists (map operation_payload (kept_rules (operations st))). split; [done | ]. split; [exact (JSON_print_round_trip (js "  ") _ eq_refl Hp) | ].
    apply Forall2_fmap_l, Forall_Forall2_diag. eapply Forall_impl; [exact (validate_each _ _ Hvalid) | ]. intros o [n Ho]. exact (payload_complete n o Ho).
Qed.

(** A rule with a number as its value and a condition, and a blank rule. *)
Definition sample_rules : list ParamOverrideOperation :=
  [mkOperation (js "1") (js " note ") (js "temperature ") OpSet [] [] (js "0.5") true And
     [mkCondition (js "2") (js "model") CPrefix (js "openai/") false true; mkCondition (js "3") [] CFull [] false false];
   mkOperation (js "4") [] [] OpSet [] [] [] false Or [];
   mkOperation (js "5") [] (js "X-Token") OpCopyHeader [] [] [] false Or []].

Lemma saved_rules_read_back_witness : ∃ text st s', buildOperationsJson sample_rules true = Ok text ∧
  parseInitialState (fun _ => 0%Z) text 7 = Some (st, s') ∧ length (s_operations st) = 2 ∧ buildOperationsJson (s_operations st) true = Ok text.
Proof.
  destruct (buildOperationsJson sample_rules true) as [text|e] eqn:E; [ | vm_compute in E; discriminate E].
  destruct (saved_rules_read_back (fun _ => 0%Z) sample_rules text 7 E) as (st & s' & H1 & _ & _ & _ & _ & H2 & H3).
  - intros ->. vm_compute in E. discriminate E.
  - vm_compute; reflexivity.
  - exists text, st, s'. split; [reflexivity | ]. split; [exact H1 | ]. split.
    + rewrite <- (length_map erase), H2. reflexivity.
    + apply H3. assert (Hk : kept_rules sample_rules = [mkOperation (js "1") (js " note ") (js "temperature ") OpSet [] [] (js "0.5") true And
        [mkCondition (js "2") (js "model") CPrefix (js "openai/") false true; mkCondition (js "3") [] CFull [] false false];
        mkOperation (js "5") [] (js "X-Token") OpCopyHeader [] [] [] false Or []]) by (vm_compute; reflexivity).
      rewrite Hk. apply Forall_cons. split; [split | apply Forall_cons; split; [split; [by left | constructor] | constructor]].
      * right. vm_compute. reflexivity.
      * apply Forall_cons. split; [right; vm_compute; repeat split; discriminate | apply Forall_cons; split; [by left | constructor]].
Defined.

Definition sample_editor : Editor :=
  mkEditor (mkState EVisual VOperations [] sample_rules [] None) [] (js "1") ∅ no_drag (js "operations_default") [] None.

Lemma saved_rules_are_complete_witness : ∃ text vs, handleSave sample_editor = note (OnOpenChange false) (note (OnSave text) sample_editor) ∧
  JSON_parse text = Some (JObject [(js "operations", JArray vs)]) ∧ Forall2 complete_rule vs (kept_rules sample_rules).
Proof.
  destruct (saved_rules_are_complete sample_editor eq_refl eq_refl) as [[e H]|[[H _]|(text & vs & H1 & H2 & H3)]].
  - vm_compute; reflexivity.
  - exfalso. vm_compute in H. discriminate H.
  - exfalso. vm_compute in H. discriminate H.
  - exists text, vs. split; [exact H1 | ]. split; [exact H2 | exact H3].
Defined.

(** Every template can be filled in and saved. *)
Example templates_are_saved :
  forallb (fun p =>
    match (st ← closed_editor (fun _ => 0%Z); run_events (fun _ => 0%Z) [SelectPreset p.1; FillTemplate Fill; Save] st) 0 with
    | Some (st, _) => match notes st with [OnOpenChange false; OnSave (_ :: _)] => true | _ => false end
    | None => false
    end) TEMPLATE_PRESET_CONFIG = true.
Proof. vm_compute. reflexivity. Qed.

(** Typing a text with a space, unit by unit, into the message of a custom error loses the space. *)
Example typed_space_is_lost :
  let typed (t : ustring) (c : Z) :=
    let d := parseReturnErrorDraft t in
    buildReturnErrorValueText (patch_return_error (RMessage (re_message d ++ [c])) d) in
  fold_left typed (js "not here") [] = js "nothere".
Proof. vm_compute. reflexivity. Qed.
