(* ===== verification/ParamOverrideInvariant.v ===== *)
(** * Identifiers of the rules of the editor

    The identifiers of rules and conditions are never shared, whatever the user does, and a
    rule is always selected.  The identifiers of a prune draft, however, are drawn again
    whenever the draft is read. *)

From Stdlib Require Import SpecFloat ZArith Lia.
From stdpp Require Import base numbers strings option gmap sets list.
From S2P Require Import Prelude JsNumber ExprTokenizer Json JsonText NumberText JsonPrint JsonStringify ParamOverride ParamOverrideEditor ParamOverrideProperties.

Section identifiers.
  Context (now : nat → Z).

(** The digits at the end of an identifier are the number it was drawn with. *)
Definition id_tail (id : ustring) : ustring := take_while (fun c => negb (c =? chr "_")%Z) (reverse id).

Lemma show_nat_digits n : all_digits (show_nat n) ∧ digits_value (show_nat n) = Z.of_nat n.
Proof. destruct (show_Z_spec (Z.of_nat n)) as (_ & H); [lia | exact H]. Qed.

Lemma id_tail_text n : id_tail (id_text now n) = reverse (show_nat n).
Proof.
  unfold id_tail, id_text. rewrite !reverse_app, <- !app_assoc. destruct (take_while_app (fun c => negb (c =? chr "_")%Z) (reverse (show_nat n))
    (reverse (js "_") ++ reverse (show_Z (now n)) ++ reverse (js "po_"))) as [-> _]; [reflexivity | ].
  apply take_while_all, Forall_reverse. eapply Forall_impl; [apply show_nat_digits | ].
  intros c Hc. unfold is_digit in Hc. apply negb_true_iff, Z.eqb_neq. chr_norm. bools. lia.
Qed.

#[local] Instance id_text_inj : Inj (=) (=) (id_text now).
Proof.
  intros a b H. apply (f_equal id_tail) in H. rewrite !id_tail_text in H. apply (inj reverse) in H.
  apply (f_equal digits_value) in H. rewrite !(proj2 (show_nat_digits _)) in H. lia.
Qed.

(** Drawn before the counter is [s]. *)
Definition drawn (s : nat) (id : ustring) : Prop := ∃ n, n < s ∧ id = id_text now n.

(** The identifiers drawn between two values of the counter. *)
Definition ids_between (s s' : nat) : list ustring := map (id_text now) (seq s (s' - s)).

Definition ids_ok (s : nat) (ids : list ustring) : Prop := NoDup ids ∧ Forall (drawn s) ids.

Lemma ids_between_same s : ids_between s s = [].
Proof. unfold ids_between. by rewrite Nat.sub_diag. Qed.

Lemma ids_between_app s t u : s ≤ t → t ≤ u → ids_between s t ++ ids_between t u = ids_between s u.
Proof.
  intros. unfold ids_between. rewrite <- map_app. replace (u - s) with ((t - s) + (u - t)) by lia. rewrite seq_app.
  by replace (s + (t - s)) with t by lia.
Qed.

Lemma ids_between_one s : ids_between s (S s) = [id_text now s].
Proof. unfold ids_between. by replace (S s - s) with 1 by lia. Qed.

(** Identifiers taken from those before and from new ones are distinct. *)
Lemma ids_ok_step s s' ids ids' : s ≤ s' → ids' ⊆+ ids ++ ids_between s s' → ids_ok s ids → ids_ok s' ids'.
Proof.
  intros Hs Hsub [Hn Hd]. assert (H : ids_ok s' (ids ++ ids_between s s')).
  { split.
    - apply NoDup_app. split_and!; [done | | apply (NoDup_fmap_2 (id_text now)), NoDup_seq]. intros x Hx Hb.
      rewrite Forall_forall in Hd. destruct (Hd x Hx) as (n & Hlt & ->). apply list_elem_of_fmap in Hb as (m & E%(inj (id_text now)) & Hm).
      apply elem_of_seq in Hm. lia.
    - apply Forall_app. split; [eapply Forall_impl; [exact Hd | ]; intros x (n & ? & ->); exists n; split; [lia | done] | ].
      apply Forall_forall. intros x (m & -> & Hm)%list_elem_of_fmap. apply elem_of_seq in Hm. exists m. split; [lia | done]. }
  destruct H as [Hn' Hd']. split.
  { destruct (submseteq_Permutation _ _ Hsub) as [k Hk]. rewrite Hk in Hn'. by apply NoDup_app in Hn' as [? _]. }
  apply Forall_forall. intros x Hx. rewrite Forall_forall in Hd'. apply Hd'. by apply (elem_of_submseteq ids').
Qed.

(** ** What is drawn *)

Definition op_ids (o : ParamOverrideOperation) : list ustring := o_id o :: map c_id (o_conditions o).
Definition rule_ids (ops : list ParamOverrideOperation) : list ustring := ops ≫= op_ids.

(** A computation whose result has exactly the identifiers it draws. *)
Definition draws_its {A} (ids : A → list ustring) (m : drawing A) : Prop :=
  ∀ s a s', m s = Some (a, s') → s ≤ s' ∧ ids a = ids_between s s'.

Lemma draws_its_mapM {A B} (ids : B → list ustring) (f : A → drawing B) l :
  (∀ x, draws_its ids (f x)) → draws_its (fun bs => bs ≫= ids) (mapM f l).
Proof.
  intros Hf. induction l as [|x l IH]; intros s bs s' H.
  - rewrite mapM_draws_nil in H. injection H as <- <-. split; [done | by rewrite ids_between_same].
  - rewrite mapM_draws_cons in H. apply bind_draws_inv in H as (y & t & Hy & H). apply bind_draws_inv in H as (ys & u & Hys & H).
    injection H as <- <-. destruct (Hf x _ _ _ Hy) as [? E1], (IH _ _ _ Hys) as [? E2]. split; [lia | ].
    cbn [mbind list_bind]. change (ids y ++ (ys ≫= ids) = ids_between s u). rewrite E1, E2. by apply ids_between_app.
Qed.

Lemma draws_condition v : draws_its (fun c => [c_id c]) (normalizeCondition now v).
Proof. intros s c s' H. destruct v; try discriminate H; injection H as <- <-; (split; [lia | by rewrite ids_between_one]). Qed.

Lemma draws_operation v : draws_its op_ids (normalizeOperation now v).
Proof.
  intros s o s' H. unfold normalizeOperation in H. apply bind_draws_inv in H as (id & t & Hid & H). injection Hid as <- <-.
  assert (Hconds : ∀ cs u u', match get v (js "conditions") with Some (JArray vs) => mapM (normalizeCondition now) vs | _ => mret [] end u = Some (cs, u') →
                   u ≤ u' ∧ map c_id cs = ids_between u u').
  { intros cs u u' Hc. destruct (get v (js "conditions")) as [[]|]; try (injection Hc as <- <-; split; [done | by rewrite ids_between_same]).
    apply (draws_its_mapM (fun c => [c_id c])) in Hc as [? E]; [ | apply draws_condition]. split; [done | ]. rewrite <- E.
    clear. induction cs as [|c cs IH]; [done | ]. cbn [map mbind list_bind]. by rewrite IH. }
  destruct v; try discriminate H; apply bind_draws_inv in H as (logic & t & Hl & H);
    (assert (t = S s) as -> by (destruct (logic_text _ _); [by injection Hl as _ <- | discriminate Hl]));
    apply bind_draws_inv in H as (cs & u & Hc & H); injection H as <- <-;
    destruct (Hconds _ _ _ Hc) as [? E]; (split; [lia | ]); unfold op_ids; cbn [o_id o_conditions]; rewrite E;
    by rewrite <- (ids_between_app s (S s) u), ids_between_one by lia.
Qed.

Lemma draws_default : draws_its op_ids (createDefaultOperation now).
Proof. apply draws_operation. Qed.

Lemma draws_rules vs : draws_its rule_ids (rules_or_default now vs).
Proof.
  destruct vs as [|v vs]; [ | apply draws_its_mapM, draws_operation]. intros s ops s' H. apply bind_draws_inv in H as (o & t & Ho & H).
  injection H as <- <-. apply draws_default in Ho as [? E]. split; [done | ]. unfold rule_ids. cbn [mbind list_bind]. by rewrite app_nil_r.
Qed.

Lemma rules_nonempty vs s ops s' : rules_or_default now vs s = Some (ops, s') → ops ≠ [].
Proof.
  destruct vs as [|v vs]; intros H; apply bind_draws_inv in H as (o & t & Ho & H); [by injection H as <- _ | ].
  apply bind_draws_inv in H as (os & u & Hos & H). by injection H as <- _.
Qed.

(** A computation that only draws. *)
Definition advances {A} (m : drawing A) : Prop := ∀ s a s', m s = Some (a, s') → s ≤ s'.

Lemma advances_ret {A} (a : A) : advances (mret a).
Proof. intros s b s' H. by injection H as _ <-. Qed.

Lemma advances_bind {A B} (m : drawing A) (f : A → drawing B) : advances m → (∀ a, advances (f a)) → advances (m ≫= f).
Proof. intros Hm Hf s b s' H. apply bind_draws_inv in H as (a & t & H1 & H2). apply Hm in H1. apply Hf in H2. lia. Qed.

Lemma advances_mapM {A B} (f : A → drawing B) l : (∀ x, advances (f x)) → advances (mapM f l).
Proof.
  intros Hf. induction l as [|x l IH]; [apply (advances_ret []) | ]. intros s a s' H. rewrite mapM_draws_cons in H. revert s a s' H.
  apply advances_bind; [done | intros y]. apply advances_bind; [done | intros ys]. apply advances_ret.
Qed.

(** ** Drafts of rules that prune *)

Lemma full_rule_draws e : draws_its (fun c => [c_id c]) (full_rule now e).
Proof. apply draws_condition. Qed.

Lemma map_c_id (cs : list ParamOverrideCondition) : cs ≫= (fun c => [c_id c]) = map c_id cs.
Proof. induction cs as [|c cs IH]; [done | ]. cbn [mbind list_bind map]. by rewrite IH. Qed.

Lemma draws_listed {A} (f : A → drawing ParamOverrideCondition) l :
  (∀ x, draws_its (fun c => [c_id c]) (f x)) → draws_its (map c_id) (mapM f l).
Proof. intros Hf s a s' H. apply (draws_its_mapM _ _ _ Hf) in H as [? E]. split; [done | ]. by rewrite <- map_c_id. Qed.

Lemma draws_none {A} (f : A → ustring) : draws_its (map f) (mret [] : drawing (list A)).
Proof. intros s a s' H. injection H as <- <-. split; [done | by rewrite ids_between_same]. Qed.

Lemma draws_prune_rules fields : draws_its (map c_id) (prune_rules now fields).
Proof.
  intros s rs s' H. unfold prune_rules in H. apply bind_draws_inv in H as (a & t & Ha & H). apply bind_draws_inv in H as (b & u & Hb & H).
  injection H as <- <-.
  assert (s ≤ t ∧ map c_id a = ids_between s t) as [? E1].
  { clear Hb. revert Ha. generalize (field fields (js "where")). intros w. revert s a t. change (draws_its (map c_id)
      (match w with Some (JObject entries) => mapM (full_rule now) entries | _ => mret [] end)).
    destruct w as [[]|]; try apply draws_none. apply draws_listed, full_rule_draws. }
  assert (t ≤ u ∧ map c_id b = ids_between t u) as [? E2].
  { revert Hb. generalize (field fields (js "conditions")). intros w. clear. revert t b u. change (draws_its (map c_id)
      (match w with Some (JArray items) => mapM (normalizePruneRule now) (filter (fun i => isRecord (Some i) = true) items)
       | Some (JObject entries) => mapM (full_rule now) entries | _ => mret [] end)).
    destruct w as [[]|]; try apply draws_none; apply draws_listed; [apply draws_condition | apply full_rule_draws]. }
  split; [lia | ]. rewrite map_app, E1, E2. by apply ids_between_app.
Qed.

(** The identifiers of a draft are drawn when it is read. *)
Lemma draft_draws t s d s' : parsePruneObjectsDraft now t s = Some (d, s') →
  s ≤ s' ∧ ∀ r, r ∈ p_rules d → ∃ n, s ≤ n < s' ∧ c_id r = id_text now n.
Proof.
  intros H. assert (Hd : s ≤ s' ∧ (p_rules d = [] ∨ map c_id (p_rules d) = ids_between s s')).
  { unfold parsePruneObjectsDraft in H. cbv zeta in H. destruct (negb _); [injection H as <- <-; auto | ].
    destruct (JSON_parse _) as [[]|]; try (injection H as <- <-; by auto).
    apply bind_draws_inv in H as (rs & u & Hr & H). apply draws_prune_rules in Hr as [? E]. injection H as <- <-.
    split; [done | ]. destruct (field fields (js "type")) as [v|]; [destruct (String_value v) | ]; cbn [fmap option_fmap option_map];
      try (by auto); destruct (logic_text _ _); by auto. }
  destruct Hd as [Hle Hd]. split; [done | ]. intros r Hr. destruct Hd as [E|E]; [rewrite E in Hr; by apply not_elem_of_nil in Hr | ].
  assert (Hid : c_id r ∈ map c_id (p_rules d)) by (by apply list_elem_of_fmap_2). rewrite E in Hid. apply list_elem_of_fmap in Hid as (n & -> & Hn).
  apply elem_of_seq in Hn. exists n. split; [lia | done].
Qed.

(** ** What the handlers do to the identifiers *)

(** The identifiers after a handler are some of those before it and some that it drew. *)
Definition takes_ids (s : nat) (st : Editor) (s' : nat) (st' : Editor) : Prop :=
  s ≤ s' ∧ operations st' ≠ [] ∧ rule_ids (operations st') ⊆+ rule_ids (operations st) ++ ids_between s s'.

Lemma takes_old s st s' st' :
  s ≤ s' → operations st' ≠ [] → rule_ids (operations st') ⊆+ rule_ids (operations st) → takes_ids s st s' st'.
Proof. intros ? ? H. split_and!; [done.. | ]. by apply submseteq_inserts_r. Qed.

Lemma takes_same s st s' st' : s ≤ s' → operations st ≠ [] → operations st' = operations st → takes_ids s st s' st'.
Proof. intros ? Hne E. apply takes_old; rewrite ?E; done. Qed.

Lemma takes_new s st s' st' : s ≤ s' → operations st' ≠ [] → rule_ids (operations st') = ids_between s s' → takes_ids s st s' st'.
Proof. intros ? ? E. split_and!; [done.. | ]. rewrite E. by apply submseteq_inserts_l. Qed.

Lemma rule_ids_on id f ops : (∀ o, op_ids (f o) ⊆+ op_ids o) →
  rule_ids (map (fun o => if ustring_eqb (o_id o) id then f o else o) ops) ⊆+ rule_ids ops.
Proof.
  intros Hf. induction ops as [|o ops IH]; [done | ]. unfold rule_ids in *. cbn [map mbind list_bind].
  apply submseteq_app; [branch; [apply Hf | done] | exact IH].
Qed.

Lemma takes_on s st id f : operations st ≠ [] → (∀ o, op_ids (f o) ⊆+ op_ids o) → takes_ids s st s (on_operation id f st).
Proof.
  intros Hne Hf. apply takes_old; [done | | by apply rule_ids_on]. unfold on_operation. cbn. by destruct (operations st).
Qed.

Lemma patch_operation_ids p o : op_ids (patch_operation p o) = op_ids o.
Proof. by destruct o, p. Qed.

Lemma patch_condition_id p c : c_id (patch_condition p c) = c_id c.
Proof. by destruct c, p. Qed.

Lemma takes_update_condition o cid p :
  op_ids (set_conditions (map (fun c => if ustring_eqb (c_id c) cid then patch_condition p c else c) (o_conditions o)) o) = op_ids o.
Proof. unfold op_ids. cbn [o_id o_conditions set_conditions]. rewrite map_map. f_equal. apply map_ext. intros c. branch; [apply patch_condition_id | done]. Qed.

Lemma takes_remove_condition o cid : op_ids (set_conditions (filter (fun c => c_id c ≠ cid) (o_conditions o)) o) ⊆+ op_ids o.
Proof. unfold op_ids. cbn [o_id o_conditions set_conditions]. apply submseteq_skip, fmap_submseteq, sublist_submseteq, sublist_filter. Qed.

Lemma ids_of_rules ops : map o_id ops ⊆+ rule_ids ops.
Proof.
  induction ops as [|o ops IH]; [done | ]. unfold rule_ids, op_ids in *. cbn [map mbind list_bind app]. apply submseteq_skip.
  by apply submseteq_inserts_l.
Qed.

Lemma NoDup_sub (l k : list ustring) : l ⊆+ k → NoDup k → NoDup l.
Proof. intros [j Hj]%submseteq_Permutation Hn. rewrite Hj in Hn. by apply NoDup_app in Hn as [? _]. Qed.

(** A condition is added to one rule at most. *)
Lemma add_condition_ids id c ops : NoDup (map o_id ops) →
  rule_ids (map (fun o => if ustring_eqb (o_id o) id then set_conditions (o_conditions o ++ [c]) o else o) ops) ⊆+ rule_ids ops ++ [c_id c].
Proof.
  induction ops as [|o ops IH]; intros Hn; [by apply submseteq_nil_l | ]. cbn [map] in Hn. apply NoDup_cons in Hn as [Hout Hn].
  unfold rule_ids in *. cbn [map mbind list_bind]. rewrite <- app_assoc. destruct (ustring_eqb (o_id o) id) eqn:E.
  - apply bool_decide_eq_true_1 in E as <-. replace (map _ ops) with ops.
    + unfold op_ids at 1. cbn [o_id o_conditions set_conditions]. rewrite map_app. cbn [map].
      change (o_id o :: map c_id (o_conditions o) ++ [c_id c]) with (op_ids o ++ [c_id c]). rewrite <- app_assoc.
      apply submseteq_app; [done | ]. by rewrite (comm (++)).
    + symmetry. rewrite <- (map_id ops) at 2. apply map_ext_in. intros o' Ho'. unfold ustring_eqb. rewrite bool_decide_false; [done | ].
      intros E. apply Hout. rewrite <- E. apply list_elem_of_fmap_2. by apply list_elem_of_In.
  - apply submseteq_app; [done | by apply IH].
Qed.

Lemma insert_permutation {A} k (x : A) l : take k l ++ x :: drop k l ≡ₚ x :: l.
Proof. rewrite <- Permutation_middle. by rewrite take_drop. Qed.

Lemma reorder_permutation ops a b position : reorderOperations ops a b position ≡ₚ ops.
Proof.
  unfold reorderOperations. branch; [done | ]. destruct (list_find _ ops) as [[i moved]|] eqn:Ef; [ | done].
  apply list_find_Some in Ef as (Hi & _). destruct (find_id b _) as [j|]; [ | done].
  rewrite insert_permutation, Permutation_middle. by rewrite (take_drop_middle ops i moved Hi).
Qed.

Lemma takes_permuted s st ops : operations st ≠ [] → ops ≡ₚ operations st → takes_ids s st s (set_operations ops st).
Proof.
  intros Hne Hp. apply takes_old; [done | | ].
  - cbn. intros E. apply Hne. apply Permutation_nil_r. by rewrite <- Hp, E.
  - change (rule_ids ops ⊆+ rule_ids (operations st)). unfold rule_ids. by rewrite Hp.
Qed.

(** A rule put somewhere among the others. *)
Lemma takes_inserted s st s' o k : s ≤ s' → op_ids o = ids_between s s' →
  takes_ids s st s' (set_operations (take k (operations st) ++ o :: drop k (operations st)) st).
Proof.
  intros Hs E. split_and!; [done | | ].
  - cbn. by destruct (take k (operations st)).
  - change (rule_ids (take k (operations st) ++ o :: drop k (operations st)) ⊆+ rule_ids (operations st) ++ ids_between s s').
    unfold rule_ids. rewrite insert_permutation. cbn [mbind list_bind]. change (op_ids o ++ rule_ids (operations st) ⊆+ rule_ids (operations st) ++ ids_between s s').
    by rewrite E, (comm (++)).
Qed.

Lemma removed_nonempty (id : ustring) ops : NoDup (map o_id ops) → 1 < length ops → filter (fun o => o_id o ≠ id) ops ≠ [].
Proof.
  destruct ops as [|a [|b ops]]; cbn [length]; try lia. cbn [map]. intros [Ha _]%NoDup_cons _ E.
  assert (Hab : o_id a ≠ o_id b) by (intros Eab; apply Ha; rewrite Eab; left).
  rewrite filter_cons in E. destruct (decide (o_id a ≠ id)) as [|Na]; [done | ]. rewrite filter_cons in E. destruct (decide (o_id b ≠ id)) as [|Nb]; [done | ].
  apply Hab. apply dec_stable in Na, Nb. congruence.
Qed.

(** Editing the draft of a rule changes its value only. *)
Lemma prune_ops_ids (updater : PruneObjectsDraft → drawing PruneObjectsDraft) id ops : (∀ d, advances (updater d)) → ∀ s ops' s',
  mapM (fun o => if ustring_eqb (o_id o) id then
                   draft ← parsePruneObjectsDraft now (o_value_text o); nextDraft ← updater draft;
                   mret (set_value_text (buildPruneObjectsValueText nextDraft) o)
                 else (mret o : drawing _)) ops s = Some (ops', s') →
  s ≤ s' ∧ length ops' = length ops ∧ rule_ids ops' = rule_ids ops.
Proof.
  intros Hu. induction ops as [|o ops IH]; intros s ops' s' H; [by injection H as <- <- | ].
  rewrite mapM_draws_cons in H. apply bind_draws_inv in H as (o' & t & Ho & H). apply bind_draws_inv in H as (os & u & Hos & H). injection H as <- <-.
  destruct (IH _ _ _ Hos) as (? & El & E). assert (s ≤ t ∧ op_ids o' = op_ids o) as [? Eo].
  { destruct (ustring_eqb (o_id o) id); [ | by injection Ho as <- <-].
    apply bind_draws_inv in Ho as (d & s1 & Hd & Ho). apply bind_draws_inv in Ho as (d' & s2 & Hd' & Ho). injection Ho as <- <-.
    apply draft_draws in Hd as [? _]. apply Hu in Hd'. split; [lia | done]. }
  split; [lia | ]. split; [cbn [length]; lia | ]. unfold rule_ids in *. cbn [mbind list_bind]. by rewrite Eo, E.
Qed.

Lemma takes_prune updater id s st s' st' : (∀ d, advances (updater d)) → operations st ≠ [] →
  updatePruneObjectsDraft now id updater st s = Some (st', s') → takes_ids s st s' st'.
Proof.
  intros Hu Hne H. unfold updatePruneObjectsDraft in H. apply bind_draws_inv in H as (ops & t & Hops & H). injection H as <- <-.
  apply prune_ops_ids in Hops as (? & El & E); [ | done]. apply takes_old; [done | | ].
  - cbn. by destruct ops, (operations st).
  - change (rule_ids ops ⊆+ rule_ids (operations st)). by rewrite E.
Qed.

(** A handler that ends with a single new rule, or with rules that were read. *)
Lemma takes_default s st s' st' (k : ParamOverrideOperation → Editor) : (∀ o, operations (k o) = [o]) →
  (o ← createDefaultOperation now; (mret (k o) : drawing Editor)) s = Some (st', s') → takes_ids s st s' st'.
Proof.
  intros Hk H. apply bind_draws_inv in H as (o & t & Ho & H). injection H as <- <-. apply draws_default in Ho as [? E].
  apply takes_new; rewrite ?Hk; [done | done | ]. unfold rule_ids. cbn [mbind list_bind]. by rewrite app_nil_r.
Qed.

Lemma takes_rules vs s st s' st' (k : list ParamOverrideOperation → Editor) : (∀ ops, operations (k ops) = ops) →
  (ops ← rules_or_default now vs; (mret (k ops) : drawing Editor)) s = Some (st', s') → takes_ids s st s' st'.
Proof.
  intros Hk H. apply bind_draws_inv in H as (ops & t & Ho & H). injection H as <- <-. pose proof (rules_nonempty _ _ _ _ Ho).
  apply draws_rules in Ho as [? E]. by apply takes_new; rewrite ?Hk.
Qed.

Lemma takes_open value s st s' st' : open_dialog now value st s = Some (st', s') → takes_ids s st s' st'.
Proof.
  intros H. unfold open_dialog in H. apply bind_draws_inv in H as (state & t & Hstate & H). injection H as <- <-.
  enough (s ≤ t ∧ s_operations state ≠ [] ∧ rule_ids (s_operations state) = ids_between s t) as (? & ? & ?) by (by apply takes_new).
  assert (Hfresh : ∀ edit visual legacy text error, (o ← createDefaultOperation now; (mret (mkState edit visual legacy [o] text error) : drawing EditorState)) s = Some (state, t) →
    s ≤ t ∧ s_operations state ≠ [] ∧ rule_ids (s_operations state) = ids_between s t).
  { intros * H. apply bind_draws_inv in H as (o & u & Ho & H). injection H as <- <-. apply draws_default in Ho as [? E].
    split_and!; [done.. | ]. unfold rule_ids. cbn [s_operations mbind list_bind]. by rewrite app_nil_r. }
  unfold parseInitialState in Hstate. cbv zeta in Hstate. destruct (negb _); [by eapply Hfresh | ].
  destruct (JSON_parse _) as [[]|]; try (by eapply Hfresh). destruct (field _ _) as [[]|]; try (by eapply Hfresh).
  apply bind_draws_inv in Hstate as (ops & u & Ho & Hstate). injection Hstate as <- <-. pose proof (rules_nonempty _ _ _ _ Ho).
  by apply draws_rules in Ho as [? E].
Qed.

(** Every template has rules. *)
Lemma preset_rules key : preset_kind (preset_of key) = VOperations → ∃ v vs, get (preset_payload (preset_of key)) (js "operations") = Some (JArray (v :: vs)).
Proof.
  unfold preset_of. destruct (list_find _ _) as [[i p]|] eqn:E; [ | by eexists _, _].
  apply list_find_Some in E as (Hi & _). do 7 (destruct i as [|i]; [injection Hi as <-; (discriminate || by eexists _, _) | ]). discriminate Hi.
Qed.

Lemma mapM_nonempty {A B} (f : A → drawing B) x l s bs s' : mapM f (x :: l) s = Some (bs, s') → bs ≠ [].
Proof. rewrite mapM_draws_cons. intros (b & t & _ & H)%bind_draws_inv. apply bind_draws_inv in H as (bs' & u & _ & H). by injection H as <- _. Qed.

Lemma takes_template fill s st s' st' : operations st ≠ [] → fillTemplate now fill st s = Some (st', s') → takes_ids s st s' st'.
Proof.
  intros Hne H. unfold fillTemplate in H. cbv zeta in H. destruct (preset_kind _) eqn:Ek.
  - destruct fill; [by eapply takes_rules in H | ]. apply bind_draws_inv in H as (appended & t & Ha & H). injection H as <- <-.
    assert (Happ : appended ≠ []).
    { destruct (preset_rules _ Ek) as (v & vs & Ev). rewrite Ev in Ha. by apply mapM_nonempty in Ha. }
    apply (draws_its_mapM op_ids) in Ha as [? E]; [ | apply draws_operation]. split_and!; [done | | ].
    + cbn. by intros [_ ->]%app_eq_nil.
    + set (existing := match s_visualMode (content st) with VOperations => filter (fun o => isOperationBlank o = false) (s_operations (content st)) | VLegacy => [] end).
      change (rule_ids (existing ++ appended) ⊆+ rule_ids (operations st) ++ ids_between s t).
      unfold rule_ids. rewrite bind_app, E. apply submseteq_app; [ | done]. subst existing.
      destruct (s_visualMode (content st)); [ | apply submseteq_nil_l]. apply sublist_submseteq, bind_sublist, sublist_filter.
  - assert (Hl : ∀ v, (created ← createDefaultOperation now; (mret (set_content (mkState EVisual VLegacy (pretty v) [created] (pretty v) None) st) : drawing Editor)) s
      = Some (st', s') → takes_ids s st s' st') by (intros v; by apply takes_default).
    destruct fill; [by apply Hl in H | ]. destruct (s_visualMode (content st)); [by apply Hl in H | ].
    destruct (negb _); [by apply Hl in H | ]. destruct (JSON_parse _); [by apply Hl in H | ]. injection H as <- <-. by apply takes_same.
Qed.

Lemma takes_visual s st s' st' : operations st ≠ [] → switchToVisualMode now st s = Some (st', s') → takes_ids s st s' st'.
Proof.
  intros Hne H. unfold switchToVisualMode in H. cbv zeta in H. destruct (s_editMode _); [injection H as <- <-; by apply takes_same | ].
  destruct (negb _); [by eapply takes_default in H | ]. destruct (JSON_parse _) as [[]|]; try (injection H as <- <-; by apply takes_same).
  destruct (field _ _) as [[]|]; first [by eapply takes_rules in H | by eapply takes_default in H].
Qed.

(** Every handler takes its identifiers from those it finds and those it draws. *)
Lemma dispatch_takes e s st s' st' : operations st ≠ [] → NoDup (rule_ids (operations st)) →
  dispatch now e st s = Some (st', s') → takes_ids s st s' st'.
Proof.
  intros Hne Hn H. pose proof (NoDup_sub _ _ (ids_of_rules _) Hn) as Hids.
  destruct e; cbn [dispatch] in H; try (injection H as <- <-; by apply takes_same).
  - by eapply takes_open.
  - injection H as <- <-. apply takes_on; [done | ]. intros o. by rewrite patch_operation_ids.
  - unfold addOperation in H. apply bind_draws_inv in H as (o & t & Ho & H). injection H as <- <-. apply draws_default in Ho as [? E].
    rewrite <- (firstn_all (operations st)) at 1. destruct (takes_inserted s st t o (length (operations st))) as (_ & A & B); [done.. | ].
    rewrite drop_all in A, B. by split_and!.
  - unfold duplicateOperation in H. destruct (list_find _ _) as [[idx source]|]; [ | injection H as <- <-; by apply takes_same].
    apply bind_draws_inv in H as (o & t & Ho & H). injection H as <- <-. apply draws_operation in Ho as [? E].
    destruct (takes_inserted s st t o (idx + 1)) as (_ & A & B); [done.. | ]. destruct eager; by split_and!.
  - unfold removeOperation in H. destruct (length (operations st) <=? 1) eqn:El; [by eapply takes_default in H | ]. injection H as <- <-.
    apply takes_old; [done | apply removed_nonempty; [done | by apply Nat.leb_gt] | ]. apply sublist_submseteq, bind_sublist, sublist_filter.
  - unfold addCondition in H. apply bind_draws_inv in H as (c & t & Hc & H). injection H as <- <-. apply draws_condition in Hc as [? E].
    split_and!; [done | cbn; by destruct (operations st) | ]. rewrite <- E. by apply add_condition_ids.
  - injection H as <- <-. apply takes_on; [done | ]. intros o. by rewrite takes_update_condition.
  - injection H as <- <-. apply takes_on; [done | ]. intros o. apply takes_remove_condition.
  - injection H as <- <-. by apply takes_on.
  - eapply takes_prune; [ | done | exact H]. intros d. apply advances_ret.
  - eapply takes_prune; [ | done | exact H]. intros d. apply advances_bind; [ | intros r; apply advances_ret].
    intros t r t' Hr. by apply draws_condition in Hr as [? _].
  - eapply takes_prune; [ | done | exact H]. intros d. apply advances_ret.
  - eapply takes_prune; [ | done | exact H]. intros d. apply advances_ret.
  - injection H as <- <-. unfold handleDragOver. branch; by apply takes_same.
  - injection H as <- <-. unfold handleDrop, resetDragState. branch; [ | by apply takes_same].
    match goal with |- context [reorderOperations ?ops ?a ?b ?p] => destruct (takes_permuted s st (reorderOperations ops a b p)) as (_ & A & B); [done | apply reorder_permutation | ] end.
    by split_and!.
  - injection H as <- <-. unfold switchToJsonMode. destruct (s_editMode _); [ | by apply takes_same]. by destruct (buildVisualJson st); apply takes_same.
  - by apply takes_visual.
  - by eapply takes_template.
  - by eapply takes_default in H.
  - injection H as <- <-. unfold expandAllConditions, set_all_conditions. destruct (list_find _ _) as [[]|]; by apply takes_same.
  - injection H as <- <-. unfold collapseAllConditions, set_all_conditions. destruct (list_find _ _) as [[]|]; by apply takes_same.
  - injection H as <- <-. unfold handleSave. destruct (saved_text st); by apply takes_same.
Qed.

(** ** The invariant *)

Record editor_ok (s : nat) (st : Editor) : Prop := mkEditorOk {
  ok_rules : operations st ≠ [];
  ok_ids : ids_ok s (rule_ids (operations st));
  ok_selected : selectedOperationId st ∈ map o_id (operations st);
  ok_draft : ∀ d r, pruneObjectsDraft st = Some d → r ∈ p_rules d → drawn s (c_id r);
}.

Lemma keep_selection_same st : operations (keep_selection st) = operations st.
Proof. unfold keep_selection. destruct (operations st) eqn:E; [done | ]. by branch. Qed.

Lemma keep_selection_ok st : operations st ≠ [] → selectedOperationId (keep_selection st) ∈ map o_id (operations st).
Proof.
  intros Hne. unfold keep_selection. destruct (operations st) as [|o ops] eqn:E; [done | ].
  destruct (existsb _ _) eqn:Ex; [ | by left]. apply existsb_exists in Ex as (o' & Hin & Ho'). apply bool_decide_eq_true_1 in Ho' as <-.
  apply list_elem_of_fmap_2. by apply list_elem_of_In.
Qed.

Lemma show_draft_ok s st st' s' : show_prune_draft now st s = Some (st', s') →
  s ≤ s' ∧ operations st' = operations st ∧ selectedOperationId st' = selectedOperationId st ∧
  ∀ d r, pruneObjectsDraft st' = Some d → r ∈ p_rules d → drawn s' (c_id r).
Proof.
  unfold show_prune_draft. cbv zeta. intros H. destruct (list_find _ _) as [[i o]|]; [ | by injection H as <- <-].
  destruct (bool_decide _); [ | by injection H as <- <-]. apply bind_draws_inv in H as (d & t & Hd & H). injection H as <- <-.
  apply draft_draws in Hd as [? Hd]. split_and!; [done.. | ]. intros d' r [= <-] Hr. destruct (Hd r Hr) as (n & ? & ->). exists n. split; [lia | done].
Qed.

Lemma handle_event_ok e s st st' s' : editor_ok s st → handle_event now e st s = Some (st', s') → editor_ok s' st'.
Proof.
  intros [Hne Hids Hsel Hd] H. unfold handle_event in H. apply bind_draws_inv in H as (st1 & t & H1 & H2).
  destruct (dispatch_takes e s st t st1 Hne (proj1 Hids) H1) as (Hst & Hne1 & Hsub).
  apply show_draft_ok in H2 as (Hts & Eops & Esel & Hd'). rewrite keep_selection_same in Eops. split.
  - by rewrite Eops.
  - rewrite Eops. apply (ids_ok_step t s' (rule_ids (operations st1))); [done | by apply submseteq_inserts_r | ]. by eapply ids_ok_step.
  - rewrite Esel, Eops. by apply keep_selection_ok.
  - done.
Qed.

Lemma run_events_ok es : ∀ s st st' s', editor_ok s st → run_events now es st s = Some (st', s') → editor_ok s' st'.
Proof.
  induction es as [|e es IH]; intros s st st' s' Hok H; [by injection H as <- <- | ].
  apply bind_draws_inv in H as (st1 & t & H1 & H2). eapply IH; [ | exact H2]. by eapply handle_event_ok.
Qed.

Lemma closed_editor_ok : ∃ st, closed_editor now 0 = Some (st, 1) ∧ editor_ok 1 st.
Proof.
  eexists. split; [reflexivity | ]. split; [done | | by left | done].
  apply (ids_ok_step 0 1 []); [lia | done | ]. split; constructor.
Qed.

Lemma reachable_ok es st s : (st ← closed_editor now; run_events now es st) 0 = Some (st, s) → editor_ok s st.
Proof.
  intros H. apply bind_draws_inv in H as (st0 & t & H0 & H). destruct closed_editor_ok as (st1 & E & Hok). rewrite E in H0.
  injection H0 as <- <-. by eapply run_events_ok.
Qed.

(** ** Edits of prune rules *)

Lemma mapM_same_from {A B} (f g : A → drawing B) l : (∀ x, advances (f x)) → ∀ s, (∀ x s', s ≤ s' → f x s' = g x s') → mapM f l s = mapM g l s.
Proof.
  intros Ha. induction l as [|x l IH]; intros s Hfg; [done | ]. rewrite !mapM_draws_cons. unfold mbind, drawing_bind.
  rewrite <- (Hfg x s) by done. destruct (f x s) as [[y t]|] eqn:E; [ | done]. apply Ha in E. rewrite IH; [done | ]. intros x' s' Hs. apply Hfg. lia.
Qed.

(** An update of a draft that changes no draft read from now on is lost. *)
Lemma prune_update_lost (f : PruneObjectsDraft → PruneObjectsDraft) id st s :
  (∀ t d s' s'', s ≤ s' → parsePruneObjectsDraft now t s' = Some (d, s'') → f d = d) →
  updatePruneObjectsDraft now id (fun d => mret (f d)) st s = updatePruneObjectsDraft now id mret st s.
Proof.
  intros Hf. unfold updatePruneObjectsDraft. unfold mbind at 1 4, drawing_bind. erewrite mapM_same_from; [reflexivity | | ].
  - intros o. branch; [ | apply advances_ret]. apply advances_bind; [intros t d t' Hd; by apply draft_draws in Hd as [? _] | intros d].
    apply advances_bind; [apply advances_ret | intros d']. apply advances_ret.
  - intros o s' Hs. cbn beta. branch; [ | done]. destruct (parsePruneObjectsDraft now (o_value_text o) s') as [[d t]|] eqn:Ed.
    + rewrite !(bind_draws _ _ _ _ _ Ed). pose proof (Hf _ _ _ _ Hs Ed) as E. unfold mbind, drawing_bind, mret, drawing_ret. by rewrite E.
    + unfold mbind, drawing_bind. by rewrite Ed.
Qed.

(** No draft read from now on has a rule with an identifier drawn before. *)
Lemma later_draft s t d s' s'' id : drawn s id → s ≤ s' → parsePruneObjectsDraft now t s' = Some (d, s'') → ∀ r, r ∈ p_rules d → c_id r ≠ id.
Proof.
  intros (n & Hn & ->) Hs Hd r Hr E. apply draft_draws in Hd as [_ Hd]. destruct (Hd r Hr) as (m & Hm & E'). rewrite E in E'.
  apply (inj (id_text now)) in E'. lia.
Qed.

Lemma set_rules_same d rs : rs = p_rules d → set_rules rs d = d.
Proof. intros ->. by destruct d. Qed.
End identifiers.

(** C36: the rules of the editor never share an identifier.  Whatever the user does after the page was loaded, opening the
    dialog on any text, editing, moving, copying and removing rules and conditions, changing modes, filling in
    templates, as long as no exception ends it there is a rule, the identifiers of all rules and conditions are
    distinct, and the selected rule is one of them. *)
Theorem identifiers_are_never_shared now es st s :
  (st ← closed_editor now; run_events now es st) 0 = Some (st, s) →
  operations st ≠ [] ∧ NoDup (rule_ids (operations st)) ∧ selectedOperationId st ∈ map o_id (operations st).
Proof. intros [Hne [Hn _] Hs _]%reachable_ok. done. Qed.

(** the rules of a prune draft cannot be edited.  After any events, changing or removing a rule of the draft that is
    shown does what writing the draft without a change does: the handlers read the draft again, with new identifiers,
    before they look for the one they were given. *)
Theorem prune_rule_edits_are_lost now es st s operationId d r patch :
  (st ← closed_editor now; run_events now es st) 0 = Some (st, s) →
  pruneObjectsDraft st = Some d → r ∈ p_rules d →
  updatePruneRule now operationId (c_id r) patch st s = updatePruneObjectsDraft now operationId mret st s ∧
  removePruneRule now operationId (c_id r) st s = updatePruneObjectsDraft now operationId mret st s.
Proof.
  intros Hok%reachable_ok Hd Hr. pose proof (ok_draft _ _ _ Hok d r Hd Hr) as Hid.
  split; apply (prune_update_lost now (fun d => set_rules _ d)); intros t d' s' s'' Hs Hp; apply set_rules_same.
  - rewrite <- (map_id (p_rules d')) at 2. apply map_ext_in. intros r' Hr'%list_elem_of_In. unfold ustring_eqb.
    by rewrite bool_decide_false by (by eapply later_draft).
  - apply filter_all. intros r' Hr'. by eapply later_draft.
Qed.

(** A dialog with a rule that prunes, one that was added and a copy. *)
Definition sample_events : list Event :=
  [Open (json_text "{`operations`:[{`mode`:`prune_objects`,`value`:{`type`:`x`,`conditions`:[{`path`:`a`,`mode`:`full`,`value`:`b`}]}},{`path`:`p`,`conditions`:[{`path`:`q`}]}]}");
   AddOperation; DuplicateOperation (id_text (fun _ => 0%Z) 2) true; Select (id_text (fun _ => 0%Z) 1)].

Definition sample_run : option (Editor * nat) := (st ← closed_editor (fun _ => 0%Z); run_events (fun _ => 0%Z) sample_events st) 0.

Lemma identifiers_are_never_shared_witness : match sample_run with Some (st, _) => length (operations st) = 4 ∧ NoDup (rule_ids (operations st)) | None => False end.
Proof.
  unfold sample_run. destruct ((st ← closed_editor (fun _ => 0%Z); run_events (fun _ => 0%Z) sample_events st) 0) as [[st s]|] eqn:E.
  - pose proof (identifiers_are_never_shared (fun _ => 0%Z) sample_events st s E) as (_ & Hn & _). split; [ | exact Hn].
    vm_compute in E. injection E as <- _. reflexivity.
  - vm_compute in E. discriminate E.
Defined.

Lemma prune_rule_edits_are_lost_witness :
  match sample_run with
  | Some (st, s) =>
      match pruneObjectsDraft st with
      | Some (mkPrune _ _ _ _ (r :: _)) =>
          removePruneRule (fun _ => 0%Z) (selectedOperationId st) (c_id r) st s = updatePruneObjectsDraft (fun _ => 0%Z) (selectedOperationId st) mret st s
      | _ => False
      end
  | None => False
  end.
Proof.
  unfold sample_run. destruct ((st ← closed_editor (fun _ => 0%Z); run_events (fun _ => 0%Z) sample_events st) 0) as [[st s]|] eqn:E; [ | vm_compute in E; discriminate E].
  destruct (pruneObjectsDraft st) as [[a b c d [|r rs]]|] eqn:Ed.
  - vm_compute in E. injection E as <- _. discriminate Ed.
  - apply (prune_rule_edits_are_lost (fun _ => 0%Z) sample_events st s (selectedOperationId st) _ r (CPath []) E Ed). left.
  - vm_compute in E. injection E as <- _. discriminate Ed.
Defined.
