(* ===== verification/PriceSync.v ===== *)
(** * Synchronizing prices with upstream channels

    features/system-settings/models/upstream-ratio-sync-helpers.ts, the state of
    upstream-ratio-sync.tsx and the selection of a whole column of
    upstream-ratio-sync-table.tsx: the differences between local and upstream prices, the
    values the administrator picks ("resolutions"), and the options that are written.
    Objects are lists of entries in the order of their creation; model names that are array
    indices, which enumeration would put first, keep their place here.  The options hold JSON
    objects. *)

From Stdlib Require Import ZArith Lia.
From stdpp Require Import base numbers strings option sets list.
From S2P Require Import Prelude ArraySort JsNumber Json JsonText NumberText JsonPrint JsonStringify NumberOf.

Inductive RatioType :=
| RModelRatio | RCompletion | RCache | RCreateCache | RImage | RAudio | RAudioCompletion | RModelPrice | RBillingMode | RBillingExpr.

#[export] Instance RatioType_eq_dec : EqDecision RatioType.
Proof. solve_decision. Defined.

Definition ratio_type_name (t : RatioType) : ustring :=
  match t with
  | RModelRatio => js "model_ratio" | RCompletion => js "completion_ratio" | RCache => js "cache_ratio"
  | RCreateCache => js "create_cache_ratio" | RImage => js "image_ratio" | RAudio => js "audio_ratio"
  | RAudioCompletion => js "audio_completion_ratio" | RModelPrice => js "model_price" | RBillingMode => js "billing_mode"
  | RBillingExpr => js "billing_expr"
  end.

Definition RATIO_SYNC_FIELDS : list RatioType := [RModelRatio; RCompletion; RCache; RCreateCache; RImage; RAudio; RAudioCompletion].
Definition SYNC_FIELD_ORDER : list RatioType := RATIO_SYNC_FIELDS ++ [RModelPrice; RBillingMode; RBillingExpr].
Definition NUMERIC_SYNC_FIELDS : list RatioType := RATIO_SYNC_FIELDS ++ [RModelPrice].

Record RatioDifferenceEntry := mkEntry { d_current : json; d_upstreams : list (ustring * json); d_confidence : list (ustring * bool) }.

Abbreviation ModelDiffs := (list (RatioType * RatioDifferenceEntry)).
Abbreviation DifferencesMap := (list (ustring * ModelDiffs)).
Abbreviation ModelResolution := (list (RatioType * json)).
Abbreviation ResolutionsMap := (list (ustring * ModelResolution)).

Record ResolutionSelection := mkSelection { sel_model : ustring; sel_type : RatioType; sel_value : json; sel_source : ustring }.

(** ** Reading differences *)

(** [ratioTypes\[type\]?.upstreams?.\[source\]]. *)
Definition upstream_value (ratioTypes : ModelDiffs) (t : RatioType) (sourceName : ustring) : option json :=
  entry ← map_get t ratioTypes; map_get sourceName (d_upstreams entry).

Definition isSelectableUpstreamValue (value : option json) : bool :=
  match value with
  | None | Some JNull => false
  | Some (JString s) => negb (ustring_eqb s (js "same"))
  | Some _ => true
  end.

(** A filter is a type, or absent where the source has none or [__all__]. *)
Definition getOrderedRatioTypes (ratioTypes : ModelDiffs) (choice : option RatioType) : list RatioType :=
  let ordered := filter (fun f => has_key f ratioTypes = true) SYNC_FIELD_ORDER in
  match choice with None => ordered | Some c => filter (fun f => f = c) ordered end.

Definition getPreferredSyncField (ratioTypes : ModelDiffs) (ratioType : RatioType) (sourceName : ustring) : RatioType :=
  if negb (bool_decide (ratioType = RBillingExpr)) && isSelectableUpstreamValue (upstream_value ratioTypes RBillingExpr sourceName)
  then RBillingExpr else ratioType.

Definition getVisibleRatioTypesForSource (ratioTypes : ModelDiffs) (sourceName : ustring) (choice : option RatioType) : list RatioType :=
  filter (fun t => getPreferredSyncField ratioTypes t sourceName = t) (getOrderedRatioTypes ratioTypes choice).

Definition getAlignedRatioTypes (ratioTypes : ModelDiffs) (sourceNames : list ustring) (choice : option RatioType) : list RatioType :=
  let ordered := getOrderedRatioTypes ratioTypes choice in
  match sourceNames with
  | [] => ordered
  | _ => filter (fun t => t ∈ sourceNames ≫= (fun s => getVisibleRatioTypesForSource ratioTypes s choice)) ordered
  end.

Inductive Category := CatPrice | CatRatio | CatTiered.

#[export] Instance Category_eq_dec : EqDecision Category.
Proof. solve_decision. Defined.

Definition getBillingCategory (t : RatioType) : Category :=
  match t with RModelPrice => CatPrice | RBillingMode | RBillingExpr => CatTiered | _ => CatRatio end.

(** [a === b] of numbers and texts. *)
Definition same_value (a b : json) : bool :=
  match a, b with
  | JNumber x, JNumber y => num_eqb x y
  | JString s, JString t => ustring_eqb s t
  | _, _ => false
  end.

Definition isSelectedResolutionValue (resolutions : ResolutionsMap) (model : ustring) (t : RatioType) (upstreamValue : option json) : bool :=
  isSelectableUpstreamValue upstreamValue &&
  match rs ← map_get model resolutions; map_get t rs, upstreamValue with
  | Some selectedValue, Some value =>
      if bool_decide (t ∈ NUMERIC_SYNC_FIELDS)
      then let a := Number_json selectedValue in
           let b := Number_json value in
           is_finite a && is_finite b && num_eqb a b
      else same_value selectedValue value
  | _, _ => false
  end.

(** ** Picking values *)

Definition model_diffs (differences : DifferencesMap) (model : ustring) : ModelDiffs := default [] (map_get model differences).

Definition resolveResolutionSelection (differences : DifferencesMap) (s : ResolutionSelection) : ResolutionSelection :=
  let modelDiffs := model_diffs differences (sel_model s) in
  let preferredType := getPreferredSyncField modelDiffs (sel_type s) (sel_source s) in
  let preferredValue :=
    if bool_decide (preferredType = sel_type s) then sel_value s
    else match upstream_value modelDiffs preferredType (sel_source s) with
         | None | Some JNull => sel_value s
         | Some v => v
         end in
  mkSelection (sel_model s) preferredType preferredValue (sel_source s).

(** The record of a model after a selection. *)
Definition applyResolutionSelectionToDraft (differences : DifferencesMap) (s : ResolutionSelection) (draft : ModelResolution) : ModelResolution :=
  let resolved := resolveResolutionSelection differences s in
  let finalType := sel_type resolved in
  let category := getBillingCategory finalType in
  let draft :=
    filter (fun p => ¬ (category ≠ CatTiered ∧ getBillingCategory p.1 ≠ CatTiered ∧ getBillingCategory p.1 ≠ category)) draft in
  let draft := map_set finalType (sel_value resolved) draft in
  match category, map_get (sel_model s) differences with
  | CatTiered, Some modelDiffs =>
      let modeVal := upstream_value modelDiffs RBillingMode (sel_source s) in
      let exprVal := upstream_value modelDiffs RBillingExpr (sel_source s) in
      let draft :=
        match modeVal with
        | Some v => if isSelectableUpstreamValue modeVal then map_set RBillingMode v draft
                    else if bool_decide (finalType = RBillingExpr) then map_set RBillingMode (JString (js "tiered_expr")) draft else draft
        | None => if bool_decide (finalType = RBillingExpr) then map_set RBillingMode (JString (js "tiered_expr")) draft else draft
        end in
      match exprVal with
      | Some v => if isSelectableUpstreamValue exprVal then map_set RBillingExpr v draft else draft
      | None => draft
      end
  | _, _ => draft
  end.

(** One entry of the map of drafts, which starts as a copy of the record of the model. *)
Definition apply_to_drafts (differences : DifferencesMap) (resolutions : ResolutionsMap) (drafts : ResolutionsMap) (s : ResolutionSelection) : ResolutionsMap :=
  map_update (sel_model s) (default [] (map_get (sel_model s) resolutions)) (applyResolutionSelectionToDraft differences s) drafts.

(** [if (Object.keys(draft).length === 0) delete next\[model\] else next\[model\] = draft]. *)
Definition store_draft (next : ResolutionsMap) (entry : ustring * ModelResolution) : ResolutionsMap :=
  match entry.2 with [] => map_del entry.1 next | _ => map_set entry.1 entry.2 next end.

Definition applyResolutionSelections (resolutions : ResolutionsMap) (differences : DifferencesMap) (selections : list ResolutionSelection)
    : ResolutionsMap :=
  fold_left store_draft (fold_left (apply_to_drafts differences resolutions) selections []) resolutions.

Definition applyResolutionSelection (resolutions : ResolutionsMap) (differences : DifferencesMap) (s : ResolutionSelection) : ResolutionsMap :=
  applyResolutionSelections resolutions differences [s].

(** The selections that count: of two for one type the later, and of prices and ratios of one model the later kind. *)
Definition effective_step (differences : DifferencesMap) (effective : list ((ustring * RatioType) * ResolutionSelection)) (s : ResolutionSelection)
    : list ((ustring * RatioType) * ResolutionSelection) :=
  let resolved := resolveResolutionSelection differences s in
  let category := getBillingCategory (sel_type resolved) in
  let rest :=
    filter (fun e => ¬ (category ≠ CatTiered ∧ sel_model e.2 = sel_model resolved ∧ getBillingCategory (sel_type e.2) ≠ CatTiered ∧
                        getBillingCategory (sel_type e.2) ≠ category)) effective in
  map_set (sel_model resolved, sel_type resolved) resolved rest.

Definition getEffectiveResolutionSelections (differences : DifferencesMap) (selections : list ResolutionSelection) : list ResolutionSelection :=
  map snd (fold_left (effective_step differences) selections []).

(** ** Taking values back *)

Abbreviation ResolutionRemovalPlan := (list (ustring * list RatioType)).

Definition add_removal (plan : ResolutionRemovalPlan) (removal : ustring * RatioType) : ResolutionRemovalPlan :=
  map_update removal.1 [] (fun ts => if bool_decide (removal.2 ∈ ts) then ts else ts ++ [removal.2]) plan.

(** The record without some types; the mode and the expression go together. *)
Definition remove_types (ts : list RatioType) (draft : ModelResolution) : ModelResolution :=
  fold_left (fun d t =>
    let d := map_del t d in
    let d := if bool_decide (t = RBillingExpr) then map_del RBillingMode d else d in
    if bool_decide (t = RBillingMode) then map_del RBillingExpr d else d) ts draft.

Definition applyResolutionRemovalPlan (resolutions : ResolutionsMap) (plan : ResolutionRemovalPlan) : ResolutionsMap :=
  fold_left (fun next entry =>
    match map_get entry.1 resolutions with
    | None => next
    | Some current => store_draft next (entry.1, remove_types entry.2 current)
    end) plan resolutions.

Definition applyResolutionRemovals (resolutions : ResolutionsMap) (removals : list (ustring * RatioType)) : ResolutionsMap :=
  applyResolutionRemovalPlan resolutions (fold_left add_removal removals []).

Definition deleteResolutionField (resolutions : ResolutionsMap) (model : ustring) (t : RatioType) : ResolutionsMap :=
  applyResolutionRemovals resolutions [(model, t)].
