(* ===== verification/PriceSyncPage.v ===== *)
(** * The page that synchronizes prices

    features/system-settings/models/upstream-ratio-sync.tsx and the selection of whole columns
    of upstream-ratio-sync-table.tsx over the operations of [PriceSync]: the state of the page,
    its handlers, the options that are written one request after the other, and the conflicts
    that are confirmed first.  Messages are their English texts.  A saved option is a JSON
    object; what the page does with other JSON in an option is not modelled
    ([parseJsonRecord] is [None] there). *)

From Stdlib Require Import ZArith Lia.
From stdpp Require Import base numbers strings option sets list.
From S2P Require Import Prelude ArraySort JsNumber Json JsonText NumberText JsonPrint JsonStringify NumberOf AuthRedirect PriceSync.

(** ** The channels that are asked *)

Record UpstreamChannel := mkUpstreamChannel { uc_id : Z; uc_name : ustring; uc_base_url : ustring; uc_type : option Z }.
Record UpstreamConfig := mkUpstreamConfig { up_id : Z; up_name : ustring; up_base_url : ustring; up_endpoint : ustring }.

Definition OFFICIAL_CHANNEL_ID : Z := -100.
Definition OFFICIAL_CHANNEL_ENDPOINT : ustring := js "/llm-metadata/api/newapi/ratio_config-v1-base.json".
Definition MODELS_DEV_PRESET_ID : Z := -101.
Definition MODELS_DEV_PRESET_ENDPOINT : ustring := js "https://models.dev/api.json".
Definition OPENROUTER_CHANNEL_TYPE : Z := 20.
Definition OPENROUTER_ENDPOINT : ustring := js "openrouter".
Definition DEFAULT_ENDPOINT : ustring := js "/api/pricing".

Definition getDefaultEndpointForChannel (channel : UpstreamChannel) : ustring :=
  if (uc_id channel =? MODELS_DEV_PRESET_ID)%Z then MODELS_DEV_PRESET_ENDPOINT
  else if (uc_id channel =? OFFICIAL_CHANNEL_ID)%Z then OFFICIAL_CHANNEL_ENDPOINT
  else if bool_decide (uc_type channel = Some OPENROUTER_CHANNEL_TYPE) then OPENROUTER_ENDPOINT
  else DEFAULT_ENDPOINT.

(** The effect on the endpoints when the channels have been loaded: an endpoint that is set is kept. *)
Definition fill_endpoints (channels : list UpstreamChannel) (endpoints : list (Z * ustring)) : list (Z * ustring) :=
  fold_left (fun next channel =>
    if truthy (default [] (map_get (uc_id channel) next)) then next
    else map_set (uc_id channel) (getDefaultEndpointForChannel channel) next) channels endpoints.

(** The request of [handleConfirmChannelSelection], absent where no channel is chosen. *)
Definition handleConfirmChannelSelection (channels : list UpstreamChannel) (endpoints : list (Z * ustring)) (selectedIds : list Z)
    : option (list UpstreamConfig) :=
  match filter (fun ch => uc_id ch ∈ selectedIds) channels with
  | [] => None
  | selected => Some (map (fun ch =>
      let endpoint := default [] (map_get (uc_id ch) endpoints) in
      mkUpstreamConfig (uc_id ch) (uc_name ch) (uc_base_url ch) (if truthy endpoint then endpoint else DEFAULT_ENDPOINT)) selected)
  end.

(** ** The options *)

Definition upper_unit (c : Z) : Z := if (chr "a" <=? c)%Z && (c <=? chr "z")%Z then (c - 32)%Z else c.

Definition capitalize (word : ustring) : ustring := match word with [] => [] | c :: rest => upper_unit c :: rest end.

Definition optionKeyBySyncField (t : RatioType) : ustring :=
  match t with
  | RBillingMode => js "billing_setting.billing_mode"
  | RBillingExpr => js "billing_setting.billing_expr"
  | _ => join [] (map capitalize (split_on (chr "_") (ratio_type_name t)))
  end.

Abbreviation table := (list (ustring * json)).
Abbreviation ParsedRatios := (list (ustring * table)).

Definition parseJsonRecord (raw : ustring) : option table :=
  match JSON_parse (if truthy raw then raw else js "{}") with
  | Some (JObject fields) => Some fields
  | Some _ => None
  | None => Some []
  end.

Definition PRICE_KEY : ustring := js "ModelPrice".
Definition RATIO_KEYS : list ustring :=
  map js ["ModelRatio"; "CompletionRatio"; "CacheRatio"; "CreateCacheRatio"; "ImageRatio"; "AudioRatio"; "AudioCompletionRatio"]%string.
Definition OPTION_KEYS : list ustring :=
  RATIO_KEYS ++ [PRICE_KEY; js "billing_setting.billing_mode"; js "billing_setting.billing_expr"].

Definition parsedRatios (modelRatios : ustring → ustring) : option ParsedRatios :=
  mapM (fun key => fields ← parseJsonRecord (modelRatios key); Some (key, fields)) OPTION_KEYS.

(** [tables\[key\]\[model\]]. *)
Definition price_at (tables : ParsedRatios) (key model : ustring) : option json :=
  fields ← map_get key tables; map_get model fields.

Inductive LocalCategory := LocalPrice | LocalRatio.

Definition getLocalBillingCategory (model : ustring) (currentRatios : ParsedRatios) : option LocalCategory :=
  if bool_decide (is_Some (price_at currentRatios PRICE_KEY model)) then Some LocalPrice
  else if existsb (fun key => bool_decide (is_Some (price_at currentRatios key model))) RATIO_KEYS then Some LocalRatio
  else None.

(** ** What is written *)

Definition delete_price (model : ustring) (tables : ParsedRatios) (key : ustring) : ParsedRatios :=
  map (fun t => if ustring_eqb t.1 key then (t.1, map_del model t.2) else t) tables.

Definition synced_value (t : RatioType) (value : json) : json :=
  if bool_decide (t ∈ NUMERIC_SYNC_FIELDS) then JNumber (Number_json value) else value.

(** [finalRatios\[optionKey\]\[model\] = value], which throws where there is no such table. *)
Definition write_price (model : ustring) (tables : option ParsedRatios) (p : RatioType * json) : option ParsedRatios :=
  ts ← tables;
  fields ← map_get (optionKeyBySyncField p.1) ts;
  Some (map_set (optionKeyBySyncField p.1) (map_set model (synced_value p.1 p.2) fields) ts).

Definition has_price (ratios : ModelResolution) : bool := bool_decide (RModelPrice ∈ map fst ratios).
Definition has_ratio (ratios : ModelResolution) : bool := existsb (fun rt => bool_decide (rt ∈ RATIO_SYNC_FIELDS)) (map fst ratios).

Definition sync_model (tables : option ParsedRatios) (entry : ustring * ModelResolution) : option ParsedRatios :=
  finalRatios ← tables;
  let finalRatios := if has_price entry.2 then fold_left (delete_price entry.1) RATIO_KEYS finalRatios else finalRatios in
  let finalRatios := if has_ratio entry.2 then delete_price entry.1 finalRatios PRICE_KEY else finalRatios in
  fold_left (write_price entry.1) entry.2 (Some finalRatios).

Definition final_ratios (currentRatios : ParsedRatios) (resolutions : ResolutionsMap) : option ParsedRatios :=
  fold_left sync_model resolutions (Some currentRatios).

Abbreviation update := (ustring * ustring)%type.

Definition sync_updates (finalRatios : ParsedRatios) : list update :=
  map (fun t => (t.1, JSON_print (js "  ") [] (JObject t.2))) finalRatios.

(** ** The page *)

Record ConflictItem := mkConflict { c_channel : ustring; c_model : ustring; c_current : ustring; c_newVal : ustring }.

Record SyncState := mkSync {
  differences : DifferencesMap; resolutions : ResolutionsMap; conflictItems : list ConflictItem; conflictDialogOpen : bool }.

Definition initial_sync : SyncState := mkSync [] [] [] false.

Definition with_resolutions (f : ResolutionsMap → ResolutionsMap) (s : SyncState) : SyncState :=
  mkSync (differences s) (f (resolutions s)) (conflictItems s) (conflictDialogOpen s).

(** The answer to a comparison: the differences and the channels that failed. *)
Record UpstreamRatiosResponse := mkAnswer {
  r_success : bool; r_message : ustring; r_differences : DifferencesMap; r_test_errors : list (ustring * ustring) }.

Inductive Notice := NSuccess (t : ustring) | NWarning (t : ustring) | NError (t : ustring) | NInfo (t : ustring).

Definition fetch_onSuccess (answer : UpstreamRatiosResponse) (s : SyncState) : SyncState * list Notice :=
  if negb (r_success answer)
  then (s, [NError (if truthy (r_message answer) then r_message answer else js "Failed to fetch upstream prices")])
  else (mkSync (r_differences answer) [] (conflictItems s) (conflictDialogOpen s),
        (match r_test_errors answer with
         | [] => []
         | errors => [NWarning (js "Some channels failed: " ++ join (js ", ") (map (fun r => r.1 ++ js ": " ++ r.2) errors))]
         end) ++
        [NSuccess (match r_differences answer with [] => js "No price differences found" | _ => js "Upstream prices fetched successfully" end)]).

Definition handleSelectValue (model : ustring) (t : RatioType) (value : json) (sourceName : ustring) (s : SyncState) : SyncState :=
  with_resolutions (fun prev => applyResolutionSelection prev (differences s) (mkSelection model t value sourceName)) s.

Definition handleSelectValues (selections : list ResolutionSelection) (s : SyncState) : SyncState :=
  match selections with
  | [] => s
  | _ => with_resolutions (fun prev => applyResolutionSelections prev (differences s) selections) s
  end.

Definition handleUnselectValue (model : ustring) (t : RatioType) (s : SyncState) : SyncState :=
  with_resolutions (fun prev => deleteResolutionField prev model t) s.

Definition handleUnselectValues (plan : ResolutionRemovalPlan) (s : SyncState) : SyncState :=
  match plan with
  | [] => s
  | _ => with_resolutions (fun prev => applyResolutionRemovalPlan prev plan) s
  end.

(** The differences without one that has been synchronized, and without its model where it was the last. *)
Definition remove_difference (model : ustring) (diffs : DifferencesMap) (t : RatioType) : DifferencesMap :=
  match map_get model diffs with
  | Some types =>
      if has_key t types
      then match map_del t types with [] => map_del model diffs | rest => map_set model rest diffs end
      else diffs
  | None => diffs
  end.

Definition synced_differences (diffs : DifferencesMap) (resolved : ResolutionsMap) : DifferencesMap :=
  fold_left (fun diffs entry => fold_left (remove_difference entry.1) (map fst entry.2) diffs) resolved diffs.

Definition sync_onSuccess (s : SyncState) : SyncState :=
  mkSync (synced_differences (differences s) (resolutions s)) [] (conflictItems s) (conflictDialogOpen s).

(** The first source whose value is [value], for a conflict. *)
Definition findSourceChannel (diffs : DifferencesMap) (model : ustring) (t : RatioType) (value : json) : ustring :=
  match types ← map_get model diffs; map_get t types with
  | None => js "Unknown"
  | Some entry =>
      match filter (fun p => same_value p.2 value = true) (d_upstreams entry) with
      | p :: _ => p.1
      | [] => js "Unknown"
      end
  end.

Definition or_dash (v : option json) : ustring := match v with None | Some JNull => js "-" | Some x => String_json x end.

Definition ratio_text (ratio completion : option json) : ustring :=
  js "Model ratio: " ++ or_dash ratio ++ [10%Z] ++ js "Completion ratio: " ++ or_dash completion.

Definition new_category (ratios : ModelResolution) : Category :=
  if has_price ratios then CatPrice else if has_ratio ratios then CatRatio else CatTiered.

(** The conflict of one model: what is saved is of another kind than what was picked. *)
Definition model_conflict (diffs : DifferencesMap) (currentRatios : ParsedRatios) (entry : ustring * ModelResolution) : list ConflictItem :=
  let model := entry.1 in
  let ratios := entry.2 in
  let channels := uniq (map (fun p => findSourceChannel diffs model p.1 p.2) ratios) in
  let old_ratio := ratio_text (price_at currentRatios (js "ModelRatio") model) (price_at currentRatios (js "CompletionRatio") model) in
  let new_ratio := ratio_text (map_get RModelRatio ratios) (map_get RCompletion ratios) in
  let price (v : option json) := js "Fixed price: " ++ default (js "undefined") (String_json <$> v) in
  match getLocalBillingCategory model currentRatios, new_category ratios with
  | Some LocalPrice, CatRatio => [mkConflict (join (js ", ") channels) model (price (price_at currentRatios PRICE_KEY model)) new_ratio]
  | Some LocalRatio, CatPrice => [mkConflict (join (js ", ") channels) model old_ratio (price (map_get RModelPrice ratios))]
  | _, _ => []
  end.

Definition find_conflicts (s : SyncState) (currentRatios : ParsedRatios) : list ConflictItem :=
  resolutions s ≫= model_conflict (differences s) currentRatios.

(** The requests, in a world that answers each with nothing or with an error. *)
Section requests.
  Context {W : Type} (updateSystemOption : W → update → W * option ustring).

(** One request after the other; the first error ends it. *)
Fixpoint send_updates (updates : list update) (w : W) : W * option ustring :=
  match updates with
  | [] => (w, None)
  | u :: rest => match updateSystemOption w u with (w', None) => send_updates rest w' | failed => failed end
  end.

(** The page after the requests, whether they all succeeded, and what is shown. *)
Definition performSync (currentRatios : ParsedRatios) (s : SyncState) (w : W) : option (SyncState * W * bool * list Notice) :=
  finalRatios ← final_ratios currentRatios (resolutions s);
  match send_updates (sync_updates finalRatios) w with
  | (w', None) => Some (sync_onSuccess s, w', true, [NSuccess (js "Prices synced successfully")])
  | (w', Some e) => Some (s, w', false, [NError (if truthy e then e else js "Failed to sync prices")])
  end.

Definition handleApplySync (currentRatios : ParsedRatios) (s : SyncState) (w : W) : option (SyncState * W * list Notice) :=
  match find_conflicts s currentRatios with
  | [] => '(s', w', _, notices) ← performSync currentRatios s w;
          Some (s', w', NInfo (js "Syncing prices, please wait...") :: notices)
  | conflicts => Some (mkSync (differences s) (resolutions s) conflicts true, w, [])
  end.

Definition handleConfirmConflict (currentRatios : ParsedRatios) (s : SyncState) (w : W) : option (SyncState * W * list Notice) :=
  '(s', w', success, notices) ← performSync currentRatios s w;
  Some ((if success : bool then mkSync (differences s') (resolutions s') (conflictItems s') false else s'), w', notices).
End requests.

(** ** The table *)

Record ModelRow := mkRow { row_model : ustring; row_types : ModelDiffs; row_billingConflict : bool }.

Definition dataSource (diffs : DifferencesMap) : list ModelRow :=
  map (fun e => mkRow e.1 e.2 (has_key RModelPrice e.2 && existsb (fun rt => has_key rt e.2) RATIO_SYNC_FIELDS)) diffs.

(** The rows of a search text and of a type; names and texts are compared in lower case, here of ASCII letters. *)
Definition filteredData (diffs : DifferencesMap) (search : ustring) (choice : option RatioType) : list ModelRow :=
  let data := dataSource diffs in
  let data := if truthy (trim search)
              then filter (fun row => includes (toLowerCase search) (toLowerCase (row_model row)) = true) data else data in
  match choice with None => data | Some c => filter (fun row => has_key c (row_types row) = true) data end.

Definition upstreamNames (rows : list ModelRow) (choice : option RatioType) : list ustring :=
  uniq (rows ≫= fun row => getOrderedRatioTypes (row_types row) choice ≫= fun t =>
          match map_get t (row_types row) with Some entry => map fst (d_upstreams entry) | None => [] end).

Record UpstreamBulkSelectState := mkBulk {
  b_selections : list ResolutionSelection; b_removalPlan : ResolutionRemovalPlan; b_selectableCount : nat; b_selectedCount : nat }.

(** The values one source offers in the rows, in the order of the rows and of the fields. *)
Definition row_selections (upstreamName : ustring) (choice : option RatioType) (row : ModelRow) : list ResolutionSelection :=
  getAlignedRatioTypes (row_types row) [upstreamName] choice ≫= fun t =>
    match upstream_value (row_types row) t upstreamName with
    | Some v => if isSelectableUpstreamValue (Some v) then [mkSelection (row_model row) t v upstreamName] else []
    | None => []
    end.

Definition bulkSelectState (diffs : DifferencesMap) (rows : list ModelRow) (choice : option RatioType) (resolved : ResolutionsMap)
    (upstreamName : ustring) : UpstreamBulkSelectState :=
  let selections := rows ≫= row_selections upstreamName choice in
  let removalPlan := fold_left add_removal (map (fun s => (sel_model s, sel_type s)) selections) [] in
  let effective := getEffectiveResolutionSelections diffs selections in
  mkBulk effective removalPlan (length effective)
    (length (filter (fun s => isSelectedResolutionValue resolved (sel_model s) (sel_type s) (Some (sel_value s)) = true) effective)).

Definition handleBulkSelect (diffs : DifferencesMap) (rows : list ModelRow) (choice : option RatioType) (upstream : ustring) (s : SyncState)
    : SyncState :=
  if bool_decide (upstream ∈ upstreamNames rows choice)
  then handleSelectValues (b_selections (bulkSelectState diffs rows choice (resolutions s) upstream)) s else s.

Definition handleBulkUnselect (diffs : DifferencesMap) (rows : list ModelRow) (choice : option RatioType) (upstream : ustring) (s : SyncState)
    : SyncState :=
  if bool_decide (upstream ∈ upstreamNames rows choice)
  then handleUnselectValues (b_removalPlan (bulkSelectState diffs rows choice (resolutions s) upstream)) s else s.
