(* ===== verification/PriceSyncLemmas.v ===== *)
(** * How the operations of price synchronization act on models and fields

    The lookups of every operation of [PriceSync] and [PriceSyncPage], the invariant of the
    selected values over the handlers of the page, what the tables hold after the writes, and
    the selections that one source offers. *)

From Stdlib Require Import ZArith Lia.
From stdpp Require Import base numbers strings option sets list relations.
From S2P Require Import Prelude ArraySort JsNumber Json JsonText NumberText JsonPrint JsonStringify NumberOf PriceSync PriceSyncPage.

(** ** Selections *)

Section selections.
  Context (D : DifferencesMap).
  Abbreviation apply1 := (fun r s => applyResolutionSelectionToDraft D s r).

Lemma draft_nonempty s r : applyResolutionSelectionToDraft D s r ≠ [].
Proof.
  unfold applyResolutionSelectionToDraft. repeat case_match; auto with objects.
Qed.

Lemma draft_NoDup s r : NoDup (map fst r) → NoDup (map fst (applyResolutionSelectionToDraft D s r)).
Proof. intros H. unfold applyResolutionSelectionToDraft. repeat case_match; auto 7 with objects. Qed.

Definition of_model (m : ustring) (selections : list ResolutionSelection) : list ResolutionSelection :=
  filter (fun s => sel_model s = m) selections.

Lemma drafts_get R m selections : ∀ drafts,
  map_get m (fold_left (apply_to_drafts D R) selections drafts) =
  match of_model m selections with
  | [] => map_get m drafts
  | mine => Some (fold_left apply1 mine (default (default [] (map_get m R)) (map_get m drafts)))
  end.
Proof.
  induction selections as [|s selections IH]; intros drafts; [done | ].
  cbn [fold_left]. rewrite IH. unfold of_model. rewrite filter_cons. unfold apply_to_drafts at 1 2. rewrite !map_get_update.
  destruct (decide (sel_model s = m)) as [<-|Hm].
  - rewrite bool_decide_true by done. by destruct (filter _ selections).
  - rewrite bool_decide_false by done. done.
Qed.

Lemma drafts_NoDup R selections : ∀ drafts, NoDup (map fst drafts) → NoDup (map fst (fold_left (apply_to_drafts D R) selections drafts)).
Proof. induction selections as [|s l IH]; intros drafts H; [done | ]. cbn [fold_left]. by apply IH, map_update_NoDup. Qed.

Lemma store_draft_get m next entry :
  map_get m (store_draft next entry) =
  if bool_decide (entry.1 = m) then (match entry.2 with [] => None | r => Some r end) else map_get m next.
Proof.
  destruct entry as [m' [|p r]]; unfold store_draft; cbn [fst snd]; autorewrite with objects; by destruct (bool_decide _).
Qed.

Lemma store_drafts_get m drafts : NoDup (map fst drafts) → ∀ next,
  map_get m (fold_left store_draft drafts next) =
  match map_get m drafts with None => map_get m next | Some [] => None | Some r => Some r end.
Proof.
  induction drafts as [|[m' r] drafts IH]; intros Hd next; [done | ]. cbn in Hd. apply NoDup_cons in Hd as [Hm Hd].
  cbn [fold_left map_get]. rewrite (IH Hd), store_draft_get. cbn [fst snd].
  destruct (bool_decide (m' = m)) eqn:E; bools; subst; [ | done].
  rewrite (proj2 (map_get_None m drafts)) by done. by destruct r.
Qed.

Lemma fold_apply_nonempty mine r : mine ≠ [] → fold_left apply1 mine r ≠ [].
Proof.
  intros Hne. destruct (@exists_last _ mine Hne) as (l & s & ->). rewrite fold_left_app. cbn. apply draft_nonempty.
Qed.

Lemma applyResolutionSelections_get R m selections :
  map_get m (applyResolutionSelections R D selections) =
  match of_model m selections with
  | [] => map_get m R
  | mine => Some (fold_left apply1 mine (default [] (map_get m R)))
  end.
Proof.
  unfold applyResolutionSelections. rewrite store_drafts_get by (apply drafts_NoDup; constructor).
  rewrite drafts_get. destruct (of_model m selections) as [|s l] eqn:E; [done | ]. cbn [default map_get].
  destruct (fold_left _ _ _) eqn:Ef; [ | done]. exfalso. by eapply fold_apply_nonempty; [ | exact Ef].
Qed.

Lemma one_by_one_get m selections : ∀ R,
  map_get m (fold_left (fun R s => applyResolutionSelection R D s) selections R) =
  match of_model m selections with
  | [] => map_get m R
  | mine => Some (fold_left apply1 mine (default [] (map_get m R)))
  end.
Proof.
  induction selections as [|s selections IH]; intros R; [done | ]. cbn [fold_left]. rewrite IH.
  unfold applyResolutionSelection. rewrite applyResolutionSelections_get. unfold of_model. rewrite !filter_cons, filter_nil.
  destruct (decide (sel_model s = m)); [ | done]. by destruct (filter _ selections).
Qed.
End selections.

(** ** One selection on the record of its model *)

(** A field that is not of a tiered expression: written, dropped with the other kind, or kept. *)
Lemma draft_get_priced D s r t :
  getBillingCategory t ≠ CatTiered →
  map_get t (applyResolutionSelectionToDraft D s r) =
  let f := resolveResolutionSelection D s in
  if bool_decide (sel_type f = t) then Some (sel_value f)
  else if bool_decide (getBillingCategory (sel_type f) ≠ CatTiered ∧ getBillingCategory t ≠ getBillingCategory (sel_type f)) then None
  else map_get t r.
Proof.
  intros Ht. cbv zeta. unfold applyResolutionSelectionToDraft. set (f := resolveResolutionSelection D s).
  set (kept := filter _ r).
  assert (Hkept : map_get t kept = if bool_decide (getBillingCategory (sel_type f) ≠ CatTiered ∧ getBillingCategory t ≠ getBillingCategory (sel_type f)) then None else map_get t r).
  { etrans; [exact (map_get_filter (fun x => ¬ (getBillingCategory (sel_type f) ≠ CatTiered ∧ getBillingCategory x ≠ CatTiered
      ∧ getBillingCategory x ≠ getBillingCategory (sel_type f))) r t) | ]. repeat case_bool_decide; tauto. }
  rewrite <-Hkept. clear Hkept.
  assert (RBillingMode ≠ t ∧ RBillingExpr ≠ t) as [Hm He] by (split; intros <-; done).
  set (rhs := if bool_decide (sel_type f = t) then _ else _).
  repeat case_match; autorewrite with objects; rewrite ?(bool_decide_false (RBillingMode = t)), ?(bool_decide_false (RBillingExpr = t)) by done; done.
Qed.

(** The fields of a tiered expression stay where the selection is of another kind. *)
Lemma draft_get_tiered D s r t :
  getBillingCategory t = CatTiered → getBillingCategory (sel_type (resolveResolutionSelection D s)) ≠ CatTiered →
  map_get t (applyResolutionSelectionToDraft D s r) = map_get t r.
Proof.
  intros Ht Hf. unfold applyResolutionSelectionToDraft. set (f := resolveResolutionSelection D s) in *.
  set (kept := filter _ r).
  assert (Hkept : map_get t kept = map_get t r).
  { etrans; [exact (map_get_filter (fun x => ¬ (getBillingCategory (sel_type f) ≠ CatTiered ∧ getBillingCategory x ≠ CatTiered
      ∧ getBillingCategory x ≠ getBillingCategory (sel_type f))) r t) | ]. rewrite bool_decide_true; [done | ]. by intros (_ & ? & _). }
  rewrite <-Hkept. assert (sel_type f ≠ t) by congruence.
  destruct (getBillingCategory (sel_type f)) eqn:E; [ | | done]; by rewrite map_get_set, bool_decide_false.
Qed.

(** A selected expression comes with a mode. *)
Lemma draft_mode D s r :
  is_Some (map_get (sel_model s) D) → getBillingCategory (sel_type (resolveResolutionSelection D s)) = CatTiered →
  is_Some (map_get RBillingMode (applyResolutionSelectionToDraft D s r)).
Proof.
  intros [types Ht] Hf. unfold applyResolutionSelectionToDraft. set (f := resolveResolutionSelection D s) in *. rewrite Hf, Ht.
  destruct (sel_type f) eqn:Ef; try discriminate Hf; clear Hf.
  - repeat case_match; autorewrite with objects; simpl; eauto.
  - rewrite !(bool_decide_true (RBillingExpr = RBillingExpr)) by done. repeat case_match; autorewrite with objects; simpl; eauto.
Qed.

Record kinds_ok (r : ModelResolution) : Prop := {
  ko_NoDup : NoDup (map fst r);
  ko_one_kind : ∀ t, is_Some (map_get RModelPrice r) → t ∈ RATIO_SYNC_FIELDS → map_get t r = None;
  ko_mode : is_Some (map_get RBillingExpr r) → is_Some (map_get RBillingMode r) }.

Lemma kinds_ok_nil : kinds_ok [].
Proof. split; [constructor | done | by intros []]. Qed.

Lemma ratio_field_category t : t ∈ RATIO_SYNC_FIELDS ↔ getBillingCategory t = CatRatio.
Proof. destruct t; split; intros H; try discriminate H; try reflexivity; unfold RATIO_SYNC_FIELDS in *; set_solver. Qed.

Lemma category_price t : getBillingCategory t = CatPrice → t = RModelPrice.
Proof. by destruct t. Qed.

Lemma draft_kinds_ok D s r : is_Some (map_get (sel_model s) D) → kinds_ok r → kinds_ok (applyResolutionSelectionToDraft D s r).
Proof.
  intros Hm [Hd Hk He]. split; [by apply draft_NoDup | | ].
  - intros t Hp Ht. apply ratio_field_category in Ht. rewrite draft_get_priced in Hp by done. rewrite draft_get_priced by congruence.
    cbv zeta in *. set (f := resolveResolutionSelection D s) in *.
    destruct (getBillingCategory (sel_type f)) eqn:Ec.
    + apply category_price in Ec. rewrite Ec. rewrite bool_decide_false by (by intros <-). rewrite bool_decide_true; [done | ]. by rewrite Ht.
    + rewrite bool_decide_false in Hp by (intros Hf; by rewrite Hf in Ec). rewrite bool_decide_true in Hp by done. by destruct Hp.
    + rewrite !bool_decide_false in Hp by (first [intros Hf; by rewrite Hf in Ec | by intros []]).
      rewrite !bool_decide_false by (first [by intros [] | intros Hf; congruence]). apply Hk; [done | ]. by apply ratio_field_category.
  - intros H. destruct (decide (getBillingCategory (sel_type (resolveResolutionSelection D s)) = CatTiered)) as [Hf|Hf].
    + by apply draft_mode.
    + rewrite draft_get_tiered in H |- * by done. auto.
Qed.

(** ** Removals *)

(** The fields that removing [ts] takes away. *)
Definition taken (ts : list RatioType) (t : RatioType) : Prop :=
  t ∈ ts ∨ (t = RBillingMode ∧ RBillingExpr ∈ ts) ∨ (t = RBillingExpr ∧ RBillingMode ∈ ts).

#[export] Instance taken_dec ts t : Decision (taken ts t).
Proof. unfold taken. apply _. Defined.

Lemma remove_types_get ts t : ∀ r, map_get t (remove_types ts r) = if bool_decide (taken ts t) then None else map_get t r.
Proof.
  unfold remove_types. induction ts as [|x ts IH]; intros r; cbn [fold_left].
  - rewrite bool_decide_false; [done | ]. unfold taken. set_solver.
  - rewrite IH. clear IH.
    repeat (case_bool_decide || autorewrite with objects); subst; try done; exfalso;
      unfold taken in *; rewrite ?elem_of_cons in *; naive_solver.
Qed.

Lemma remove_types_NoDup ts : ∀ r, NoDup (map fst r) → NoDup (map fst (remove_types ts r)).
Proof.
  unfold remove_types. induction ts as [|x ts IH]; intros r H; cbn [fold_left]; [done | ]. apply IH. repeat case_match; auto with objects.
Qed.

Lemma remove_types_kinds_ok ts r : kinds_ok r → kinds_ok (remove_types ts r).
Proof.
  intros [Hd Hk He]. split; [by apply remove_types_NoDup | | ].
  - intros t. rewrite !remove_types_get. repeat case_bool_decide; try done; first [by intros [] | apply Hk].
  - rewrite !remove_types_get. unfold taken. intros H. repeat case_bool_decide; try (by destruct H); [ | by apply He].
    exfalso. naive_solver.
Qed.

(** ** The page *)

Definition resolutions_ok (R : ResolutionsMap) : Prop :=
  NoDup (map fst R) ∧ ∀ m r, map_get m R = Some r → r ≠ [] ∧ kinds_ok r.

Lemma store_draft_ok R entry : resolutions_ok R → kinds_ok entry.2 → resolutions_ok (store_draft R entry).
Proof.
  intros [Hd HR] He. split.
  - unfold store_draft. case_match; auto with objects.
  - intros m r. rewrite store_draft_get. case_bool_decide; [ | apply HR]. destruct entry.2 eqn:E; [done | ]. by intros [= <-].
Qed.

Lemma store_drafts_ok drafts : ∀ R, resolutions_ok R → (∀ e, e ∈ drafts → kinds_ok e.2) → resolutions_ok (fold_left store_draft drafts R).
Proof.
  induction drafts as [|e drafts IH]; intros R HR H; [done | ]. cbn [fold_left]. apply IH; [ | set_solver]. apply store_draft_ok; set_solver.
Qed.

Lemma fold_apply_kinds_ok D mine : Forall (fun s => is_Some (map_get (sel_model s) D)) mine → ∀ r,
  kinds_ok r → kinds_ok (fold_left (fun r s => applyResolutionSelectionToDraft D s r) mine r).
Proof. induction 1 as [|s mine Hs _ IH]; intros r Hr; [done | ]. cbn [fold_left]. by apply IH, draft_kinds_ok. Qed.

Lemma applyResolutionSelections_ok D R selections :
  Forall (fun s => is_Some (map_get (sel_model s) D)) selections → resolutions_ok R → resolutions_ok (applyResolutionSelections R D selections).
Proof.
  intros Hs HR. unfold applyResolutionSelections. apply store_drafts_ok; [done | ]. intros [m r] Hin.
  assert (Hd : NoDup (map fst (fold_left (apply_to_drafts D R) selections []))) by (apply drafts_NoDup; constructor).
  pose proof (map_in_get _ _ _ Hd Hin) as Hg. rewrite drafts_get in Hg. cbn [map_get default] in Hg.
  destruct (of_model m selections) as [|s l] eqn:E; [done | ]. injection Hg as <-. cbn [snd].
  apply (fold_apply_kinds_ok D (s :: l)).
  - rewrite <-E. rewrite Forall_forall in Hs |- *. intros x [_ Hx]%list_elem_of_filter. auto.
  - destruct (map_get m R) as [r|] eqn:Em; [by apply (proj2 HR _ _ Em) | apply kinds_ok_nil].
Qed.

Lemma applyResolutionRemovalPlan_ok R plan : resolutions_ok R → resolutions_ok (applyResolutionRemovalPlan R plan).
Proof.
  intros HR. unfold applyResolutionRemovalPlan. assert (Hn : resolutions_ok R) by done. revert Hn. generalize R at 1 3 as next.
  induction plan as [|[m ts] plan IH]; intros next Hn; [done | ]. cbn [fold_left fst snd]. apply IH.
  destruct (map_get m R) as [r|] eqn:Em; [ | done]. apply store_draft_ok; [done | ]. by apply remove_types_kinds_ok, (proj2 HR _ _ Em).
Qed.

Lemma resolutions_ok_nil : resolutions_ok [].
Proof. split; [constructor | done]. Qed.

(** The handlers, in any order and with any world behind the requests.  Values are picked in rows of the table, which
    are of models with differences. *)
Inductive step {W} (send : W → update → W * option ustring) : SyncState → SyncState → Prop :=
| step_fetch answer s : step send s (fetch_onSuccess answer s).1
| step_select model t value source s : is_Some (map_get model (differences s)) → step send s (handleSelectValue model t value source s)
| step_select_many selections s :
    Forall (fun x => is_Some (map_get (sel_model x) (differences s))) selections → step send s (handleSelectValues selections s)
| step_unselect model t s : step send s (handleUnselectValue model t s)
| step_unselect_many plan s : step send s (handleUnselectValues plan s)
| step_apply currentRatios s w s' w' notices : handleApplySync send currentRatios s w = Some (s', w', notices) → step send s s'
| step_confirm currentRatios s w s' w' notices : handleConfirmConflict send currentRatios s w = Some (s', w', notices) → step send s s'.

Definition reachable {W} (send : W → update → W * option ustring) (s : SyncState) : Prop := rtc (step send) initial_sync s.

Lemma performSync_state {W} (send : W → update → W * option ustring) currentRatios s w s' w' ok notices :
  performSync send currentRatios s w = Some (s', w', ok, notices) → s' = s ∨ s' = sync_onSuccess s.
Proof. unfold performSync. destruct (final_ratios _ _); [ | done]. simpl. destruct (send_updates _ _ _) as [? []]; intros [= <- _ _ _]; auto. Qed.

Lemma step_ok {W} (send : W → update → W * option ustring) s s' : step send s s' → resolutions_ok (resolutions s) → resolutions_ok (resolutions s').
Proof.
  intros Hs HR. destruct Hs as [answer s|model t v src s Hm|sels s Hm|model t s|plan s|cur s w s' w' n H|cur s w s' w' n H].
  - unfold fetch_onSuccess. destruct (negb _); [done | ]. apply resolutions_ok_nil.
  - apply applyResolutionSelections_ok; [by constructor | done].
  - destruct sels; [done | ]. by apply applyResolutionSelections_ok.
  - by apply applyResolutionRemovalPlan_ok.
  - destruct plan; [done | ]. by apply applyResolutionRemovalPlan_ok.
  - unfold handleApplySync in H. destruct (find_conflicts s cur); [ | by injection H as <- _ _].
    destruct (performSync send cur s w) as [[[[s1 w1] ok] ns]|] eqn:E; [ | done]. cbn in H. injection H as <- _ _.
    apply performSync_state in E as [-> | ->]; [done | apply resolutions_ok_nil].
  - unfold handleConfirmConflict in H. destruct (performSync send cur s w) as [[[[s1 w1] ok] ns]|] eqn:E; [ | done]. cbn in H.
    injection H as <- _ _. apply performSync_state in E as [-> | ->]; destruct ok; try done; apply resolutions_ok_nil.
Qed.

Lemma sync_reachable_ok {W} (send : W → update → W * option ustring) s : reachable send s → resolutions_ok (resolutions s).
Proof.
  intros H. assert (H0 : resolutions_ok (resolutions initial_sync)) by apply resolutions_ok_nil.
  revert H0. unfold reachable in H. induction H as [|x y z Hxy _ IH]; intros H0; [done | ]. by apply IH, (step_ok send x).
Qed.

(** ** What is written *)

Lemma option_key_inj t t' : optionKeyBySyncField t = optionKeyBySyncField t' → t = t'.
Proof. destruct t, t'; vm_compute; congruence. Qed.

Lemma option_key_known t : optionKeyBySyncField t ∈ OPTION_KEYS.
Proof. apply (bool_decide_unpack _). by destruct t. Qed.

Lemma ratio_key_spec t : optionKeyBySyncField t ∈ RATIO_KEYS ↔ getBillingCategory t = CatRatio.
Proof. rewrite <-(bool_decide_spec (optionKeyBySyncField t ∈ RATIO_KEYS)). by destruct t; vm_compute. Qed.

Lemma price_key_spec t : optionKeyBySyncField t = PRICE_KEY ↔ getBillingCategory t = CatPrice.
Proof. rewrite <-(bool_decide_spec (optionKeyBySyncField t = PRICE_KEY)). by destruct t; vm_compute. Qed.

Lemma delete_price_keys m ts key : map fst (delete_price m ts key) = map fst ts.
Proof. unfold delete_price. rewrite map_map. apply map_ext. intros [k f]. cbn. by destruct (ustring_eqb k key). Qed.

Lemma delete_price_get m ts key k m' :
  price_at (delete_price m ts key) k m' = if bool_decide (k = key ∧ m' = m) then None else price_at ts k m'.
Proof.
  unfold price_at, delete_price. induction ts as [|[x f] ts IH]; cbn -[bool_decide map_get map_del].
  - by destruct (bool_decide _).
  - destruct (ustring_eqb x key) eqn:Ex; cbn -[bool_decide map_get map_del].
    + bools. subst x. cbn [map_get]. destruct (bool_decide (key = k)) eqn:Ek; bools; subst; [ | exact IH].
      cbn -[bool_decide map_get map_del]. rewrite map_get_del. repeat case_bool_decide; naive_solver.
    + bools. cbn [map_get]. destruct (bool_decide (x = k)) eqn:Ek; bools; subst; [ | exact IH]. cbn -[bool_decide map_get map_del].
      rewrite bool_decide_false; [done | ]. by intros [-> _].
Qed.

Lemma delete_ratios_get m keys : ∀ ts k m',
  price_at (fold_left (delete_price m) keys ts) k m' = if bool_decide (k ∈ keys ∧ m' = m) then None else price_at ts k m'.
Proof.
  induction keys as [|key keys IH]; intros ts k m'; cbn [fold_left].
  - rewrite bool_decide_false; [done | ]. set_solver.
  - rewrite IH, delete_price_get. repeat case_bool_decide; try done; exfalso; rewrite ?elem_of_cons in *; naive_solver.
Qed.

Lemma delete_ratios_keys m keys : ∀ ts, map fst (fold_left (delete_price m) keys ts) = map fst ts.
Proof. induction keys as [|key keys IH]; intros ts; cbn [fold_left]; [done | ]. by rewrite IH, delete_price_keys. Qed.

Lemma write_price_spec m ts t v : map fst ts = OPTION_KEYS → ∃ ts',
  write_price m (Some ts) (t, v) = Some ts' ∧ map fst ts' = OPTION_KEYS ∧
  ∀ t' m', price_at ts' (optionKeyBySyncField t') m' =
    if bool_decide (t' = t ∧ m' = m) then Some (synced_value t v) else price_at ts (optionKeyBySyncField t') m'.
Proof.
  intros Hk. assert (Hin : optionKeyBySyncField t ∈ map fst ts) by (rewrite Hk; apply option_key_known).
  apply map_get_is_Some in Hin as Hg. destruct Hg as [fields Hg].
  unfold write_price. cbn [mbind option_bind fst snd]. rewrite Hg. cbn [mbind option_bind]. eexists. split; [done | ]. split.
  - unfold map_set at 1. rewrite map_update_keys, bool_decide_true by done. done.
  - intros t' m'. unfold price_at. rewrite map_get_set. destruct (decide (t' = t)) as [->|Hne].
    + rewrite bool_decide_true by done. rewrite Hg. cbn [mbind option_bind]. rewrite map_get_set. repeat case_bool_decide; naive_solver.
    + rewrite bool_decide_false by (by intros ?%option_key_inj). rewrite bool_decide_false by naive_solver. done.
Qed.

Lemma write_prices_spec m r : NoDup (map fst r) → ∀ ts, map fst ts = OPTION_KEYS → ∃ ts',
  fold_left (write_price m) r (Some ts) = Some ts' ∧ map fst ts' = OPTION_KEYS ∧
  ∀ t m', price_at ts' (optionKeyBySyncField t) m' =
    match map_get t r with
    | Some v => if bool_decide (m' = m) then Some (synced_value t v) else price_at ts (optionKeyBySyncField t) m'
    | None => price_at ts (optionKeyBySyncField t) m'
    end.
Proof.
  induction r as [|[t v] r IH]; intros Hd ts Hk; [by exists ts | ]. cbn in Hd. apply NoDup_cons in Hd as [Ht Hd].
  destruct (write_price_spec m ts t v Hk) as (ts1 & E1 & K1 & G1). cbn [fold_left]. rewrite E1.
  destruct (IH Hd ts1 K1) as (ts2 & E2 & K2 & G2). exists ts2. split; [done | ]. split; [done | ]. intros t' m'. rewrite G2, G1.
  cbn [map_get]. destruct (decide (t = t')) as [<-|Hne].
  - rewrite (proj2 (map_get_None t r)) by done. rewrite (bool_decide_true (t = t)) by done. repeat case_bool_decide; naive_solver.
  - rewrite (bool_decide_false (t = t')) by done. rewrite (bool_decide_false (t' = t ∧ m' = m)) by naive_solver. done.
Qed.

(** What the table of a field holds for a model after the model's record has been written over [old]. *)
Definition synced_price (r : ModelResolution) (t : RatioType) (old : option json) : option json :=
  match map_get t r with
  | Some v => Some (synced_value t v)
  | None =>
      match getBillingCategory t with
      | CatPrice => if has_ratio r then None else old
      | CatRatio => if has_price r then None else old
      | CatTiered => old
      end
  end.

Lemma sync_model_spec ts m r : NoDup (map fst r) → map fst ts = OPTION_KEYS → ∃ ts',
  sync_model (Some ts) (m, r) = Some ts' ∧ map fst ts' = OPTION_KEYS ∧
  ∀ t m', price_at ts' (optionKeyBySyncField t) m' =
    if bool_decide (m' = m) then synced_price r t (price_at ts (optionKeyBySyncField t) m') else price_at ts (optionKeyBySyncField t) m'.
Proof.
  intros Hd Hk. unfold sync_model. cbn [mbind option_bind fst snd].
  set (ts1 := if has_price r then _ else ts). set (ts2 := if has_ratio r then _ else ts1).
  assert (K2 : map fst ts2 = OPTION_KEYS).
  { subst ts2 ts1. repeat case_match; rewrite ?delete_price_keys, ?delete_ratios_keys; done. }
  assert (G2 : ∀ t m', map_get t r = None → price_at ts2 (optionKeyBySyncField t) m' =
    if bool_decide (m' = m) then synced_price r t (price_at ts (optionKeyBySyncField t) m') else price_at ts (optionKeyBySyncField t) m').
  { intros t m' Hn. unfold synced_price. rewrite Hn. subst ts2 ts1.
    pose proof (ratio_key_spec t) as Hr. pose proof (price_key_spec t) as Hp. destruct (has_ratio r), (has_price r);
      rewrite ?delete_price_get, ?delete_ratios_get; repeat case_bool_decide; destruct (getBillingCategory t); naive_solver. }
  destruct (write_prices_spec m r Hd ts2 K2) as (ts3 & E3 & K3 & G3). exists ts3. split; [done | ]. split; [done | ].
  intros t m'. rewrite G3. destruct (map_get t r) as [v|] eqn:E; [ | by apply G2].
  unfold synced_price. rewrite E. case_bool_decide; [done | ].
  (* another model: nothing was deleted *)
  subst ts2 ts1. repeat case_match; rewrite ?delete_price_get, ?delete_ratios_get, ?bool_decide_false by naive_solver; done.
Qed.

Lemma final_ratios_spec R : resolutions_ok R → ∀ ts, map fst ts = OPTION_KEYS → ∃ ts',
  final_ratios ts R = Some ts' ∧ map fst ts' = OPTION_KEYS ∧
  ∀ t m, price_at ts' (optionKeyBySyncField t) m =
    match map_get m R with
    | Some r => synced_price r t (price_at ts (optionKeyBySyncField t) m)
    | None => price_at ts (optionKeyBySyncField t) m
    end.
Proof.
  unfold final_ratios. induction R as [|[m r] R IH]; intros [Hd HR] ts Hk; [by exists ts | ]. cbn in Hd. apply NoDup_cons in Hd as [Hm Hd].
  assert (Hr : kinds_ok r) by (apply (HR m r); cbn; by rewrite bool_decide_true).
  assert (HR' : resolutions_ok R).
  { split; [done | ]. intros m' r' H. apply (HR m' r'). cbn. rewrite bool_decide_false; [done | ]. intros ->.
    apply Hm, map_get_is_Some. eauto. }
  destruct (sync_model_spec ts m r (ko_NoDup _ Hr) Hk) as (ts1 & E1 & K1 & G1). cbn [fold_left]. rewrite E1.
  destruct (IH HR' ts1 K1) as (ts2 & E2 & K2 & G2). exists ts2. split; [done | ]. split; [done | ]. intros t m'. rewrite G2, G1.
  cbn [map_get]. destruct (decide (m = m')) as [<-|Hne].
  - rewrite (proj2 (map_get_None m R)) by done. by rewrite !bool_decide_true.
  - by rewrite !bool_decide_false by congruence.
Qed.

(** ** The column of one source *)

Lemma resolve_model D s : sel_model (resolveResolutionSelection D s) = sel_model s.
Proof. done. Qed.

Lemma resolve_settled D s :
  getPreferredSyncField (model_diffs D (sel_model s)) (sel_type s) (sel_source s) = sel_type s → resolveResolutionSelection D s = s.
Proof. intros H. unfold resolveResolutionSelection. rewrite H, bool_decide_true by done. by destruct s. Qed.

(** What the counted selections have in common: one per field, and of prices and ratios only one kind. *)
Record one_choice (l : list ResolutionSelection) : Prop := {
  oc_type : ∀ a b, a ∈ l → b ∈ l → sel_model a = sel_model b → sel_type a = sel_type b → a = b;
  oc_kind : ∀ a b, a ∈ l → b ∈ l → sel_model a = sel_model b → getBillingCategory (sel_type a) ≠ CatTiered →
              getBillingCategory (sel_type b) ≠ CatTiered → getBillingCategory (sel_type a) = getBillingCategory (sel_type b) }.

Abbreviation effective_map := (list ((ustring * RatioType) * ResolutionSelection)).

Definition effective_ok (D : DifferencesMap) (seen : list ResolutionSelection) (m : effective_map) : Prop :=
  NoDup (map fst m) ∧ (∀ e, e ∈ m → e.1 = (sel_model e.2, sel_type e.2) ∧ ∃ s, s ∈ seen ∧ e.2 = resolveResolutionSelection D s) ∧
  ∀ a b, a ∈ m → b ∈ m → sel_model a.2 = sel_model b.2 → getBillingCategory (sel_type a.2) ≠ CatTiered →
    getBillingCategory (sel_type b.2) ≠ CatTiered → getBillingCategory (sel_type a.2) = getBillingCategory (sel_type b.2).

Lemma effective_step_ok D seen m s : effective_ok D seen m → effective_ok D (seen ++ [s]) (effective_step D m s).
Proof.
  intros (Hd & Hp & Hc). unfold effective_step. set (f := resolveResolutionSelection D s). set (rest := filter _ m).
  assert (Hrest : ∀ e, e ∈ rest → e ∈ m ∧ ¬ (getBillingCategory (sel_type f) ≠ CatTiered ∧ sel_model e.2 = sel_model f ∧
      getBillingCategory (sel_type e.2) ≠ CatTiered ∧ getBillingCategory (sel_type e.2) ≠ getBillingCategory (sel_type f))).
  { intros e He. by apply list_elem_of_filter in He as [? ?]. }
  assert (Hdr : NoDup (map fst rest)) by (by apply filter_keys_NoDup).
  split; [auto with objects | ]. split.
  - intros e [->|[He _]]%elem_of_map_set; [ | | done].
    + split; [done | ]. exists s. split; [set_solver | done].
    + destruct (Hrest e He) as [Hm _]. destruct (Hp e Hm) as (? & s' & ? & ?). split; [done | ]. exists s'. set_solver.
  - intros a b Ha Hb. apply elem_of_map_set in Ha; [ | done]. apply elem_of_map_set in Hb; [ | done].
    destruct Ha as [->|[Ha _]], Hb as [->|[Hb _]]; cbn [snd]; intros Hmod Hta Htb; [done | | | ].
    + destruct (Hrest b Hb) as [_ Hn]. destruct (decide (getBillingCategory (sel_type f) = getBillingCategory (sel_type b.2))); [done | ].
      exfalso. apply Hn. done.
    + destruct (Hrest a Ha) as [_ Hn]. destruct (decide (getBillingCategory (sel_type a.2) = getBillingCategory (sel_type f))); [done | ].
      exfalso. apply Hn. done.
    + apply Hc; try done; [apply (Hrest a Ha) | apply (Hrest b Hb)].
Qed.

Lemma effective_fold_ok D selections : ∀ seen m, effective_ok D seen m → effective_ok D (seen ++ selections) (fold_left (effective_step D) selections m).
Proof.
  induction selections as [|s l IH]; intros seen m H; [by rewrite app_nil_r | ]. cbn [fold_left].
  replace (seen ++ s :: l) with ((seen ++ [s]) ++ l) by (by rewrite <-app_assoc). by apply IH, effective_step_ok.
Qed.

Lemma effective_spec D selections :
  one_choice (getEffectiveResolutionSelections D selections) ∧
  ∀ e, e ∈ getEffectiveResolutionSelections D selections → ∃ s, s ∈ selections ∧ e = resolveResolutionSelection D s.
Proof.
  assert (H0 : effective_ok D [] []) by (split; [constructor | set_solver]).
  destruct (effective_fold_ok D selections [] [] H0) as (Hd & Hp & Hc). unfold getEffectiveResolutionSelections.
  set (m := fold_left (effective_step D) selections []) in *. split; [split | ].
  - intros ? ? (a & -> & Ha)%list_elem_of_fmap (b & -> & Hb)%list_elem_of_fmap Hm Ht.
    destruct a as [ka a], b as [kb b]. destruct (Hp _ Ha) as [Ka _], (Hp _ Hb) as [Kb _]. cbn in *. subst ka kb. rewrite Hm, Ht in Ha.
    apply (map_in_get _ _ _ Hd) in Ha, Hb. congruence.
  - intros ? ? (a & -> & Ha)%list_elem_of_fmap (b & -> & Hb)%list_elem_of_fmap. by apply Hc.
  - intros ? (a & -> & Ha)%list_elem_of_fmap. by destruct (Hp _ Ha) as [_ H].
Qed.

(** A selection that a row offers: settled, and with the value of its source. *)
Record offered (D : DifferencesMap) (source : ustring) (e : ResolutionSelection) : Prop := {
  of_source : sel_source e = source;
  of_settled : resolveResolutionSelection D e = e;
  of_types : ∃ types, map_get (sel_model e) D = Some types ∧ upstream_value types (sel_type e) source = Some (sel_value e) ∧
             getPreferredSyncField types (sel_type e) source = sel_type e;
  of_selectable : isSelectableUpstreamValue (Some (sel_value e)) = true }.

Lemma offered_draft D source e r : offered D source e → map_get (sel_type e) (applyResolutionSelectionToDraft D e r) = Some (sel_value e).
Proof.
  intros [Hs Hset (types & Ht & Hu & Hp) Hsel]. destruct (decide (getBillingCategory (sel_type e) = CatTiered)) as [Hc|Hc].
  - unfold applyResolutionSelectionToDraft. rewrite Hset, Hc, Ht, Hs. destruct (sel_type e) eqn:E; try discriminate Hc.
    + rewrite Hu, Hsel. unfold getPreferredSyncField in Hp. rewrite bool_decide_false in Hp by done. cbn [negb andb] in Hp.
      destruct (isSelectableUpstreamValue (upstream_value types RBillingExpr source)) eqn:Ee; [done | ].
      destruct (upstream_value types RBillingExpr source); rewrite ?Ee; by autorewrite with objects.
    + rewrite Hu, Hsel. by autorewrite with objects.
  - rewrite draft_get_priced by done. cbv zeta. by rewrite Hset, bool_decide_true.
Qed.

(** A later selection of the column leaves an earlier one in place. *)
Lemma offered_kept D source e x r :
  offered D source e → offered D source x → sel_model e = sel_model x → sel_type e ≠ sel_type x →
  (getBillingCategory (sel_type e) ≠ CatTiered → getBillingCategory (sel_type x) ≠ CatTiered →
   getBillingCategory (sel_type e) = getBillingCategory (sel_type x)) →
  map_get (sel_type e) r = Some (sel_value e) → map_get (sel_type e) (applyResolutionSelectionToDraft D x r) = Some (sel_value e).
Proof.
  intros He Hx Hm Hne Hk Hr. pose proof (of_settled _ _ _ Hx) as Hset.
  destruct (decide (getBillingCategory (sel_type e) = CatTiered)) as [Ce|Ce].
  - destruct (decide (getBillingCategory (sel_type x) = CatTiered)) as [Cx|Cx].
    + exfalso. destruct He as [_ _ (te & Te & Ue & Pe) Se], Hx as [_ _ (tx & Tx & Ux & Px) Sx]. rewrite Hm, Tx in Te. injection Te as <-.
      unfold getPreferredSyncField in *. destruct (sel_type e) eqn:E; try discriminate Ce; destruct (sel_type x) eqn:X; try discriminate Cx; try done.
      * by rewrite Ux, Sx in Pe.
      * by rewrite Ue, Se in Px.
    + rewrite draft_get_tiered; [done | done | by rewrite Hset].
  - rewrite draft_get_priced by done. cbv zeta. rewrite Hset, !bool_decide_false; [done | | congruence]. intros [Cx Hc]. by apply Hc, Hk.
Qed.

Lemma column_applied D source m r l :
  Forall (offered D source) l → one_choice l → (∀ e, e ∈ l → sel_model e = m) →
  ∀ e, e ∈ l → map_get (sel_type e) (fold_left (fun r s => applyResolutionSelectionToDraft D s r) l r) = Some (sel_value e).
Proof.
  induction l as [|x l IH] using rev_ind; [by intros _ _ _ e ?%elem_of_nil | ].
  intros [Hl Hx]%Forall_app Hc Hm e He. rewrite Forall_singleton in Hx. rewrite fold_left_app. cbn [fold_left].
  destruct (decide (sel_type e = sel_type x)) as [Ht|Ht].
  - assert (e = x) as -> by (apply (oc_type _ Hc); [done | set_solver | by rewrite !Hm by set_solver | done]). by apply (offered_draft D source).
  - assert (Hel : e ∈ l) by (apply elem_of_app in He as [?| ->%list_elem_of_singleton]; done).
    rewrite Forall_forall in Hl. apply (offered_kept D source); auto.
    + by rewrite !Hm by set_solver.
    + intros ? ?. apply (oc_kind _ Hc); try done; [set_solver | by rewrite !Hm by set_solver].
    + apply IH; [by apply Forall_forall | | set_solver | done].
      split; intros a b Ha Hb; [apply (oc_type _ Hc) | apply (oc_kind _ Hc)]; set_solver.
Qed.

Lemma offered_row D search choice source row e :
  NoDup (map fst D) → row ∈ filteredData D search choice → e ∈ row_selections source choice row → offered D source e.
Proof.
  intros Hd Hrow He. assert (Hin : (row_model row, row_types row) ∈ D).
  { assert (Hds : row ∈ dataSource D).
    { unfold filteredData in Hrow. repeat case_match; rewrite ?list_elem_of_filter in Hrow; tauto. }
    apply list_elem_of_fmap in Hds as ([m types] & -> & Hin). done. }
  apply (map_in_get _ _ _ Hd) in Hin. unfold row_selections in He. apply list_elem_of_bind in He as (t & He & Ht).
  unfold getAlignedRatioTypes in Ht. apply list_elem_of_filter in Ht as [Hv _].
  cbn [mbind list_bind] in Hv. rewrite app_nil_r in Hv. unfold getVisibleRatioTypesForSource in Hv.
  apply list_elem_of_filter in Hv as [Hp _].
  destruct (upstream_value (row_types row) t source) as [v|] eqn:Eu; [ | by apply elem_of_nil in He].
  destruct (isSelectableUpstreamValue (Some v)) eqn:Es; [ | by apply elem_of_nil in He].
  apply list_elem_of_singleton in He as ->. split; cbn; [done | | by exists (row_types row) | done].
  apply resolve_settled. unfold model_diffs. cbn. by rewrite Hin.
Qed.

(** ** Saving *)

Lemma has_price_spec r : has_price r = true ↔ is_Some (map_get RModelPrice r).
Proof. unfold has_price. by rewrite bool_decide_eq_true, map_get_is_Some. Qed.

Lemma has_ratio_spec r : has_ratio r = true ↔ ∃ t, t ∈ RATIO_SYNC_FIELDS ∧ is_Some (map_get t r).
Proof.
  unfold has_ratio. rewrite existsb_exists. setoid_rewrite map_get_is_Some. setoid_rewrite bool_decide_eq_true.
  split; intros (t & H1 & H2); exists t; split; first [done | by apply list_elem_of_In].
Qed.

Lemma has_both r : kinds_ok r → has_price r && has_ratio r = false.
Proof.
  intros [_ Hk _]. destruct (has_price r) eqn:Hp, (has_ratio r) eqn:Hr; try done. apply has_price_spec in Hp.
  apply has_ratio_spec in Hr as (t & Ht & [v Hv]). by rewrite (Hk t Hp Ht) in Hv.
Qed.

(** A record of one kind keeps a model of one kind. *)
Lemma synced_exclusive r t old_price old_ratio :
  kinds_ok r → t ∈ RATIO_SYNC_FIELDS → (is_Some old_price → old_ratio = None) →
  is_Some (synced_price r RModelPrice old_price) → synced_price r t old_ratio = None.
Proof.
  intros Hr Ht Ho Hp. pose proof (has_both r Hr) as Hb. unfold synced_price in *. cbn [getBillingCategory] in Hp.
  rewrite (proj1 (ratio_field_category t) Ht). destruct (map_get t r) as [v|] eqn:Et.
  - exfalso. assert (Hrt : has_ratio r = true) by (apply has_ratio_spec; eauto). rewrite Hrt in *. rewrite andb_true_r in Hb.
    destruct (map_get RModelPrice r) eqn:Em; [ | by destruct Hp]. assert (has_price r = true) by (apply has_price_spec; eauto). congruence.
  - destruct (has_price r) eqn:Eh; [done | ]. destruct (map_get RModelPrice r) eqn:Em.
    + assert (has_price r = true) by (apply has_price_spec; eauto). congruence.
    + destruct (has_ratio r); [by destruct Hp | auto].
Qed.

(** A server that saves every option. *)
Definition save_option (w : list (ustring * ustring)) (u : update) : list (ustring * ustring) * option ustring := (map_set u.1 u.2 w, None).

Definition saved (w : list (ustring * ustring)) (key : ustring) : ustring := default [] (map_get key w).

Lemma send_all us : NoDup (map fst us) → ∀ w, ∃ w',
  send_updates save_option us w = (w', None) ∧ ∀ key, map_get key w' = match map_get key us with Some v => Some v | None => map_get key w end.
Proof.
  induction us as [|[k v] us IH]; intros Hd w; [by exists w | ]. cbn in Hd. apply NoDup_cons in Hd as [Hk Hd]. cbn [send_updates save_option fst snd].
  destruct (IH Hd (map_set k v w)) as (w' & E & G). exists w'. split; [exact E | ]. intros key. rewrite G, map_get_set. cbn [map_get].
  destruct (decide (k = key)) as [<-|Hne].
  - rewrite (proj2 (map_get_None k us)) by done. by rewrite !bool_decide_true.
  - by rewrite !bool_decide_false.
Qed.

Lemma parseJsonRecord_printed fields : printable (JObject fields) = true → parseJsonRecord (JSON_print (js "  ") [] (JObject fields)) = Some fields.
Proof.
  intros Hp. pose proof (JSON_print_round_trip (js "  ") (JObject fields) eq_refl Hp) as H. unfold parseJsonRecord.
  destruct (JSON_print (js "  ") [] (JObject fields)) as [|c text]; [by vm_compute in H | ]. cbn [truthy]. by rewrite H.
Qed.

Lemma mapM_tables {A} (g : ustring → option A) (ts : list (ustring * A)) : (∀ t, t ∈ ts → g t.1 = Some t.2) →
  mapM (fun key => fields ← g key; Some (key, fields)) (map fst ts) = Some ts.
Proof.
  induction ts as [|[k f] ts IH]; intros H; [done | ]. cbn [map mapM fst].
  pose proof (H (k, f) ltac:(left)) as Hf. cbn [fst snd] in Hf. rewrite Hf. cbn [mbind option_bind].
  rewrite IH by (intros t Ht; apply H; by right). done.
Qed.

Lemma option_keys_NoDup : NoDup OPTION_KEYS.
Proof. apply (bool_decide_unpack _). by vm_compute. Qed.

Lemma saved_tables ts w : map fst ts = OPTION_KEYS → Forall (fun t => printable (JObject t.2) = true) ts → ∃ w',
  send_updates save_option (sync_updates ts) w = (w', None) ∧ parsedRatios (saved w') = Some ts.
Proof.
  intros Hk Hp. assert (Hd : NoDup (map fst (sync_updates ts))).
  { unfold sync_updates. rewrite map_map. cbn. change (NoDup (map fst ts)). rewrite Hk. apply option_keys_NoDup. }
  destruct (send_all (sync_updates ts) Hd w) as (w' & E & G). exists w'. split; [done | ]. unfold parsedRatios. rewrite <-Hk.
  apply (mapM_tables (fun key => parseJsonRecord (saved w' key))). intros t Ht. unfold saved. rewrite G.
  rewrite (map_in_get t.1 (JSON_print (js "  ") [] (JObject t.2)) (sync_updates ts) Hd) by (apply list_elem_of_fmap; by exists t).
  cbn [default]. apply parseJsonRecord_printed. rewrite Forall_forall in Hp. by apply Hp.
Qed.
