(* ===== verification/PriceSyncProperties.v ===== *)
(** * What synchronizing prices guarantees

    Batches of selections are the selections one by one; a model never has both a fixed price
    and ratios selected, nor an expression without its mode; what is saved is what was
    selected; the column of one source is selected completely. *)

From Stdlib Require Import ZArith Lia.
From stdpp Require Import base numbers strings option sets list relations.
From S2P Require Import Prelude ArraySort JsNumber Json JsonText NumberText JsonPrint JsonStringify NumberOf PriceSync PriceSyncPage PriceSyncLemmas.

(** ** Selecting *)

(** Selecting a batch of values, which collects one draft per model and stores them at the
    end, gives every model the record it has when the values are selected one after the other. *)
Theorem batch_is_one_by_one D R selections m :
  map_get m (applyResolutionSelections R D selections) =
  map_get m (fold_left (fun R s => applyResolutionSelection R D s) selections R).
Proof. by rewrite applyResolutionSelections_get, one_by_one_get. Qed.

(** C31: Whatever the administrator fetches, selects, takes back, synchronizes and confirms, in
    any order: a model with selected values has at least one, each field once, never both a
    fixed price and a ratio, and never an expression without a billing mode. *)
Theorem selections_have_one_kind {W} (send : W → update → W * option ustring) s m r :
  reachable send s → map_get m (resolutions s) = Some r →
  r ≠ [] ∧ NoDup (map fst r) ∧ has_price r && has_ratio r = false ∧ (RBillingExpr ∈ map fst r → RBillingMode ∈ map fst r).
Proof.
  intros Hs Hr. destruct (sync_reachable_ok send s Hs) as [_ HR]. destruct (HR m r Hr) as [Hne [Hd Hk He]].
  split; [done | ]. split; [done | ]. split; [by apply has_both | ]. rewrite <-!map_get_is_Some. exact He.
Qed.

(** ** Saving *)

(** C30: Synchronizing never fails on its own, and where the server saves the options, the page
    that reads them back finds for every field of every model: the selected value (a number in a
    field of numbers); nothing, where the model got a fixed price and the field is a ratio or
    the other way round; and otherwise what was there before.  The selection is then empty. *)
Theorem sync_saves_the_selection {W} (send : W → update → W * option ustring) s currentRatios w :
  reachable send s → map fst currentRatios = OPTION_KEYS →
  (∀ ts, final_ratios currentRatios (resolutions s) = Some ts → Forall (fun t => printable (JObject t.2) = true) ts) →
  ∃ s' w' notices ts,
    performSync save_option currentRatios s w = Some (s', w', true, notices) ∧ resolutions s' = [] ∧
    parsedRatios (saved w') = Some ts ∧
    ∀ t m, price_at ts (optionKeyBySyncField t) m =
      match map_get m (resolutions s) with
      | Some r => synced_price r t (price_at currentRatios (optionKeyBySyncField t) m)
      | None => price_at currentRatios (optionKeyBySyncField t) m
      end.
Proof.
  intros Hs Hk Hp. destruct (final_ratios_spec _ (sync_reachable_ok send s Hs) currentRatios Hk) as (ts & Ef & Kt & Gt).
  destruct (saved_tables ts w Kt (Hp ts Ef)) as (w' & Ew & Gw). exists (sync_onSuccess s), w', [NSuccess (js "Prices synced successfully")], ts.
  unfold performSync. rewrite Ef. cbn [mbind option_bind]. rewrite Ew. done.
Qed.

(** Where no model has both a fixed price and a ratio before a synchronization, no model has
    both after it. *)
Corollary synced_prices_stay_exclusive {W} (send : W → update → W * option ustring) s currentRatios ts m t :
  reachable send s → map fst currentRatios = OPTION_KEYS → final_ratios currentRatios (resolutions s) = Some ts →
  (∀ m t, t ∈ RATIO_SYNC_FIELDS → is_Some (price_at currentRatios PRICE_KEY m) → price_at currentRatios (optionKeyBySyncField t) m = None) →
  t ∈ RATIO_SYNC_FIELDS → is_Some (price_at ts PRICE_KEY m) → price_at ts (optionKeyBySyncField t) m = None.
Proof.
  intros Hs Hk Ef Hx Ht. pose proof (sync_reachable_ok send s Hs) as HR.
  destruct (final_ratios_spec _ HR currentRatios Hk) as (ts' & Ef' & _ & Gt). rewrite Ef in Ef'. injection Ef' as <-.
  change PRICE_KEY with (optionKeyBySyncField RModelPrice). rewrite !Gt.
  destruct (map_get m (resolutions s)) as [r|] eqn:Er; [ | by apply Hx].
  destruct (proj2 HR _ _ Er) as [_ Hr]. apply synced_exclusive; [done | done | by apply Hx].
Qed.

(** ** The column of a source *)

(** A value that compares equal to itself: a number or a text, which in a field of numbers reads as a finite number. *)
Definition comparable (t : RatioType) (v : json) : bool :=
  if bool_decide (t ∈ NUMERIC_SYNC_FIELDS) then is_finite (Number_json v)
  else match v with JNumber n => is_finite n | JString _ => true | _ => false end.

Lemma comparable_selected R m r t v :
  map_get m R = Some r → map_get t r = Some v → isSelectableUpstreamValue (Some v) = true → comparable t v = true →
  isSelectedResolutionValue R m t (Some v) = true.
Proof.
  intros Hm Ht Hs Hc. unfold isSelectedResolutionValue. rewrite Hs, Hm. cbn [mbind option_bind andb]. rewrite Ht. unfold comparable in Hc.
  destruct (bool_decide (t ∈ NUMERIC_SYNC_FIELDS)).
  - by rewrite Hc, num_eqb_refl.
  - destruct v; try done; cbn; [by apply num_eqb_refl | unfold ustring_eqb; by rewrite bool_decide_true].
Qed.

(** C32: Selecting the column of a source selects all that the column counts: afterwards the
    number of selected values of the column is the number of its selectable values, also where
    a source offers a price and ratios for one model, or an expression that replaces them. *)
Theorem bulk_select_is_complete s search choice source :
  let D := differences s in
  let rows := filteredData D search choice in
  let s' := handleBulkSelect D rows choice source s in
  NoDup (map fst D) → source ∈ upstreamNames rows choice →
  (∀ m types t v, map_get m D = Some types → upstream_value types t source = Some v → comparable t v = true) →
  let column := bulkSelectState D rows choice (resolutions s') source in
  b_selectedCount column = b_selectableCount column.
Proof.
  intros D rows s' Hd Hsrc Hc column. subst column. cbn [b_selectedCount b_selectableCount bulkSelectState].
  set (E := getEffectiveResolutionSelections D (rows ≫= row_selections source choice)).
  destruct (effective_spec D (rows ≫= row_selections source choice)) as [Hone Hfrom]. fold E in Hone, Hfrom.
  assert (Hoff : Forall (offered D source) E).
  { apply Forall_forall. intros e (x & Hx & ->)%Hfrom. apply list_elem_of_bind in Hx as (row & Hx & Hrow).
    pose proof (offered_row D search choice source row x Hd Hrow Hx) as Ho. by rewrite (of_settled _ _ _ Ho). }
  assert (HR : ∀ e, e ∈ E → map_get (sel_model e) (resolutions s') =
    Some (fold_left (fun r x => applyResolutionSelectionToDraft D x r) (of_model (sel_model e) E) (default [] (map_get (sel_model e) (resolutions s))))).
  { intros e He. subst s'. unfold handleBulkSelect. rewrite bool_decide_true by done. cbn [b_selections bulkSelectState]. fold E.
    unfold handleSelectValues. destruct E as [|e0 E0] eqn:EE; [by apply elem_of_nil in He | ]. rewrite <-EE in *. cbn [resolutions with_resolutions].
    rewrite applyResolutionSelections_get. destruct (of_model (sel_model e) E) eqn:Em; [ | done].
    exfalso. apply (elem_of_nil e). rewrite <-Em. by apply list_elem_of_filter. }
  rewrite filter_all; [done | ]. intros e He. rewrite Forall_forall in Hoff. pose proof (Hoff e He) as Ho.
  eapply comparable_selected; [by apply HR | | by apply (of_selectable D source) | ].
  - apply (column_applied D source (sel_model e)).
    + apply Forall_forall. intros x [_ Hx]%list_elem_of_filter. by apply Hoff.
    + split; intros a b [_ Ha]%list_elem_of_filter [_ Hb]%list_elem_of_filter; [by apply (oc_type _ Hone) | by apply (oc_kind _ Hone)].
    + by intros x [Hx _]%list_elem_of_filter.
    + by apply list_elem_of_filter.
  - destruct (of_types _ _ _ Ho) as (types & Ht & Hu & _). by apply (Hc (sel_model e) types).
Qed.

(** ** Examples *)

Definition entry_of (v : json) : RatioDifferenceEntry := mkEntry JNull [(js "up", v)] [].

Definition n_of (z : Z) : json := JNumber (num_of_Z z).

(** One source with a ratio and a price for one model, and with an expression for another. *)
Definition sample_differences : DifferencesMap :=
  [(js "gpt", [(RModelRatio, entry_of (n_of 2)); (RModelPrice, entry_of (JString (js "3")))]);
   (js "claude", [(RModelRatio, entry_of (n_of 5)); (RBillingExpr, entry_of (JString (js "p * 2")))])].

Definition sample_answer : UpstreamRatiosResponse := mkAnswer true [] sample_differences [].
Definition fetched : SyncState := (fetch_onSuccess sample_answer initial_sync).1.
Definition picked : SyncState := handleSelectValue (js "claude") RModelRatio (n_of 5) (js "up") (handleSelectValue (js "gpt") RModelPrice (JString (js "3")) (js "up") fetched).

Definition sample_tables : ParsedRatios :=
  map (fun key => (key, if ustring_eqb key (js "ModelRatio") then [(js "gpt", n_of 7)] else [])) OPTION_KEYS.

Lemma fetched_reachable : reachable save_option fetched.
Proof. eapply rtc_l; [apply (step_fetch save_option sample_answer) | apply rtc_refl]. Defined.

Lemma picked_reachable : reachable save_option picked.
Proof.
  eapply rtc_r; [eapply rtc_r; [apply fetched_reachable | apply step_select] | apply step_select]; vm_compute; eauto.
Defined.

Lemma selections_have_one_kind_witness :
  [(RBillingExpr, JString (js "p * 2")); (RBillingMode, JString (js "tiered_expr"))] ≠ [] ∧ NoDup [RBillingExpr; RBillingMode].
Proof.
  destruct (selections_have_one_kind save_option picked (js "claude")
    [(RBillingExpr, JString (js "p * 2")); (RBillingMode, JString (js "tiered_expr"))] picked_reachable eq_refl) as (H1 & H2 & _).
  exact (conj H1 H2).
Defined.

Lemma sync_saves_the_selection_witness : ∃ s' w' notices ts,
  performSync save_option sample_tables picked [] = Some (s', w', true, notices) ∧ resolutions s' = [] ∧
  parsedRatios (saved w') = Some ts ∧
  price_at ts (js "ModelRatio") (js "gpt") = None ∧ price_at ts (js "ModelPrice") (js "gpt") = Some (n_of 3) ∧
  price_at ts (js "billing_setting.billing_mode") (js "claude") = Some (JString (js "tiered_expr")).
Proof.
  destruct (sync_saves_the_selection save_option picked sample_tables [] picked_reachable eq_refl) as (s' & w' & n & ts & H1 & H2 & H3 & H4).
  - intros ts E. vm_compute in E. injection E as <-. repeat (constructor; [vm_compute; reflexivity | ]). constructor.
  - exists s', w', n, ts. split; [exact H1 | ]. split; [exact H2 | ]. split; [exact H3 | ].
    pose proof (H4 RModelRatio (js "gpt")) as A. pose proof (H4 RModelPrice (js "gpt")) as B. pose proof (H4 RBillingMode (js "claude")) as C.
    split; [ | split]; [etransitivity; [exact A | vm_compute; reflexivity] | etransitivity; [exact B | vm_compute; reflexivity]
                       | etransitivity; [exact C | vm_compute; reflexivity]].
Defined.

Lemma bulk_select_is_complete_witness :
  let s' := handleBulkSelect sample_differences (filteredData sample_differences [] None) None (js "up") fetched in
  let column := bulkSelectState sample_differences (filteredData sample_differences [] None) None (resolutions s') (js "up") in
  b_selectedCount column = b_selectableCount column.
Proof.
  apply (bulk_select_is_complete fetched [] None (js "up")).
  - apply (bool_decide_unpack _). vm_compute. exact I.
  - apply (bool_decide_unpack _). vm_compute. exact I.
  - intros m types t v Hm Hu. cbn in Hm. repeat case_bool_decide; [ | | discriminate Hm]; injection Hm as <-;
      destruct t; vm_compute in Hu; try discriminate Hu; injection Hu as <-; vm_compute; reflexivity.
Defined.

(** The column of the source is its price for [gpt] and its expression for [claude]. *)
Example sample_column :
  map (fun e => (sel_model e, sel_type e))
    (b_selections (bulkSelectState sample_differences (filteredData sample_differences [] None) None [] (js "up"))) =
  [(js "gpt", RModelPrice); (js "claude", RBillingExpr)].
Proof. vm_compute. reflexivity. Qed.

(** The options are saved one after the other.  Where the server refuses the fixed prices, the
    ratios of the model have already been deleted: the model had a ratio, a price was selected,
    and it ends with neither, while the page still shows the old tables and the selection. *)
Definition refuse_prices (w : list (ustring * ustring)) (u : update) : list (ustring * ustring) * option ustring :=
  if ustring_eqb u.1 PRICE_KEY then (w, Some (js "refused")) else save_option w u.

Example failed_sync_loses_the_ratio :
  let before := sync_updates sample_tables in
  match performSync refuse_prices sample_tables picked before with
  | Some (s', w', ok, _) =>
      ok = false ∧ resolutions s' = resolutions picked ∧
      (ts ← parsedRatios (saved before); price_at ts (js "ModelRatio") (js "gpt")) = Some (n_of 7) ∧
      (ts ← parsedRatios (saved w'); price_at ts (js "ModelRatio") (js "gpt")) = None ∧
      (ts ← parsedRatios (saved w'); price_at ts PRICE_KEY (js "gpt")) = None
  | None => False
  end.
Proof. vm_compute. auto. Qed.
