(* ===== verification/PricingFormat.v ===== *)
(** * The numbers of prices as text

    features/system-settings/models/pricing-format.ts: a price is shown with at most twelve
    decimals, and a value within a tolerance of a number with few decimals is taken for that
    number, so that ratios of prices do not show the drift of binary fractions. *)

From Stdlib Require Import SpecFloat ZArith Lia.
From stdpp Require Import base numbers strings option sets list.
From S2P Require Import Prelude JsNumber ExprSyntax ExprTokenizer Json JsonText NumberText JsonPrint NumberOf.

(** ** The language *)

(** [floor (a / b + 1/2)]: the nearest whole number, the larger of two that are as near. *)
Definition nearest (a b : Z) : Z := ((2 * a + b) / (2 * b))%Z.

(** [Math.round]. *)
Definition num_round (x : number) : number :=
  match x with
  | S754_finite s m e =>
      if (0 <=? e)%Z then x
      else
        match nearest (cond_Zopp s (Zpos m)) (2 ^ (- e)) with
        | Z0 => S754_zero s
        | n => num_of_Z n
        end
  | _ => x
  end.

(** The digits of [n / 10^f] with [f] decimals, for [n >= 0]. *)
Definition fixed_digits (n : Z) (f : nat) : ustring :=
  let ds := show_Z n in
  let ds := replicate (S f - length ds) (chr "0") ++ ds in
  take (length ds - f) ds ++ (match f with O => [] | _ => chr "." :: drop (length ds - f) ds end).

(** [x.toFixed(f)]. *)
Definition toFixed (x : number) (f : nat) : ustring :=
  match x with
  | S754_zero _ => fixed_digits 0 f
  | S754_finite s m e =>
      if num_leb (num_of_decimal 1 21) (num_abs x) then Number_toString x
      else
        let '(a, b) := fraction m e in
        (if s then [chr "-"] else []) ++ fixed_digits (nearest (a * 10 ^ Z.of_nat f) b) f
  | _ => Number_toString x
  end.

Example fixed_third : toFixed (num_div one (num_of_Z 3)) 12 = js "0.333333333333".
Proof. vm_compute. reflexivity. Qed.
Example fixed_half : toFixed (Number (js "2.5")) 0 = js "3".
Proof. vm_compute. reflexivity. Qed.
Example round_half : num_round (Number (js "2.5")) = num_of_Z 3 ∧ num_round (num_neg (Number (js "2.5"))) = num_of_Z (-2).
Proof. vm_compute. done. Qed.

(** ** pricing-format.ts *)

Definition DISPLAY_DECIMALS : nat := 12.
Definition SNAP_DECIMALS : nat := 8.
Definition SNAP_EPSILON : number := num_of_decimal 1 (-12).
Definition EPSILON : number := num_div one (num_of_Z (2 ^ 52)).

(** [toNumberOrNull] of a text. *)
Definition toNumberOrNull (value : ustring) : option number :=
  match value with
  | [] => None
  | _ => let num := Number_text value in if is_finite num then Some num else None
  end.

Definition roundToDecimals (value : number) (decimals : nat) : number :=
  let factor := num_of_Z (10 ^ Z.of_nat decimals) in
  num_div (num_round (num_mul value factor)) factor.

(** The first of the roundings that is within the tolerance. *)
Fixpoint snap_from (value tolerance : number) (decimals fuel : nat) : number :=
  match fuel with
  | O => value
  | S fuel' =>
      let rounded := roundToDecimals value decimals in
      if num_leb (num_abs (num_sub value rounded)) tolerance then rounded
      else snap_from value tolerance (S decimals) fuel'
  end.

Definition snapFloatDrift (value : number) : number :=
  let tolerance := num_max SNAP_EPSILON (num_mul (num_mul (num_abs value) EPSILON) (num_of_Z 8)) in
  snap_from value tolerance 0 (S SNAP_DECIMALS).

Definition formatPricingNumber (value : number) : ustring :=
  if is_finite value
  then Number_toString (parseFloat (toFixed (snapFloatDrift value) DISPLAY_DECIMALS))
  else [].

Example drift_snapped : formatPricingNumber (num_add (Number (js "0.1")) (Number (js "0.2"))) = js "0.3".
Proof. vm_compute. reflexivity. Qed.
Example third_shown : formatPricingNumber (num_div one (num_of_Z 3)) = js "0.333333333333".
Proof. vm_compute. reflexivity. Qed.
Example price_from_ratio : formatPricingNumber (num_mul (Number (js "0.075")) (num_of_Z 2)) = js "0.15".
Proof. vm_compute. reflexivity. Qed.
