(* ===== verification/ModelPricing.v ===== *)
(** * The prices of models: tables, snapshots and rows

    features/system-settings/models/model-pricing-core.ts and model-pricing-snapshots.ts, with
    the operations of model-ratio-visual-editor.tsx on the ten options: the options are read
    as tables, a model's entries become a snapshot, and saving or deleting a model rewrites
    the tables.  An absent text is the empty text, which every reader treats alike.  An option
    whose JSON is not an object, and a saved expression that is not a text, are not modelled
    ([None]). *)

From Stdlib Require Import ZArith Lia.
From stdpp Require Import base numbers strings option sets list.
From S2P Require Import Prelude ArraySort JsNumber Json JsonText NumberText JsonPrint JsonStringify NumberOf PricingFormat RequestRules PriceSync PriceSyncPage.

(** ** The values of a model *)

Inductive PricingMode := PerToken | PerRequest | TieredExpr.

#[export] Instance PricingMode_eq_dec : EqDecision PricingMode.
Proof. solve_decision. Defined.

Definition mode_text (m : PricingMode) : ustring :=
  match m with PerToken => js "per-token" | PerRequest => js "per-request" | TieredExpr => js "tiered_expr" end.

(** The ratios, by the fields of the form. *)
Inductive RatioField := FRatio | FCache | FCreateCache | FCompletion | FImage | FAudio | FAudioCompletion.

#[export] Instance RatioField_eq_dec : EqDecision RatioField.
Proof. solve_decision. Defined.

Record Ratios := mkRatios {
  ratio : ustring; cacheRatio : ustring; createCacheRatio : ustring; completionRatio : ustring;
  imageRatio : ustring; audioRatio : ustring; audioCompletionRatio : ustring }.

Definition no_ratios : Ratios := mkRatios [] [] [] [] [] [] [].

Definition get_ratio (f : RatioField) (r : Ratios) : ustring :=
  match f with
  | FRatio => ratio r | FCache => cacheRatio r | FCreateCache => createCacheRatio r | FCompletion => completionRatio r
  | FImage => imageRatio r | FAudio => audioRatio r | FAudioCompletion => audioCompletionRatio r
  end.

Definition set_ratio (f : RatioField) (v : ustring) (r : Ratios) : Ratios :=
  let at_ (g : RatioField) := if bool_decide (g = f) then v else get_ratio g r in
  mkRatios (at_ FRatio) (at_ FCache) (at_ FCreateCache) (at_ FCompletion) (at_ FImage) (at_ FAudio) (at_ FAudioCompletion).

(** The order in which the fields are written. *)
Definition RATIO_FIELDS : list RatioField := [FRatio; FCache; FCreateCache; FCompletion; FImage; FAudio; FAudioCompletion].

Record ModelRatioData := mkData {
  rd_name : ustring; rd_price : ustring; rd_ratios : Ratios; rd_billingMode : PricingMode;
  rd_billingExpr : ustring; rd_requestRuleExpr : ustring }.

Record ModelPricingSnapshot := mkSnapshot {
  s_name : ustring; s_price : ustring; s_ratios : Ratios; s_billingMode : PricingMode;
  s_billingExpr : ustring; s_requestRuleExpr : ustring; s_hasConflict : bool }.

Definition hasValue (value : ustring) : bool := truthy value.
Definition hasPricingValue (value : ustring) : bool := truthy value.

Definition isBasePricingUnset (snapshot : option ModelPricingSnapshot) : bool :=
  match snapshot with
  | None => true
  | Some s => negb (bool_decide (s_billingMode s = TieredExpr)) && negb (hasPricingValue (s_price s)) && negb (hasPricingValue (ratio (s_ratios s)))
  end.

(** ** What the table shows of a snapshot *)

(** [ratioToPrice(ratio)] and [ratioToPrice(ratio, denominator)]. *)
Definition ratioToPrice (value denominator : ustring) : ustring :=
  let denominatorNumber := if truthy denominator then toNumberOrNull denominator else Some (num_of_Z 2) in
  match toNumberOrNull value, denominatorNumber with
  | Some a, Some b => formatPricingNumber (num_mul a b)
  | _, _ => []
  end.

Definition getModeLabel (mode : PricingMode) : ustring :=
  match mode with PerRequest => js "Per-request" | TieredExpr => js "Expression" | PerToken => js "Per-token" end.

(** The number of [tier(] in a text. *)
Fixpoint count_tiers (text : ustring) (fuel : nat) : nat :=
  match fuel with
  | O => 0
  | S fuel' =>
      match text with
      | [] => 0
      | c :: rest => if starts_with (js "tier(") text then S (count_tiers (drop 5 text) fuel') else count_tiers rest fuel'
      end
  end.

Definition MIDDLE_DOT : ustring := [32; 183; 32]%Z.

Definition getExpressionSummary (row : ModelPricingSnapshot) : ustring :=
  let tierCount := count_tiers (s_billingExpr row) (length (s_billingExpr row)) in
  if 0 <? tierCount then js "Tiered pricing" ++ MIDDLE_DOT ++ show_Z (Z.of_nat tierCount) ++ js " tiers" else js "Expression pricing".

Definition EXTRA_FIELDS : list RatioField := [FCompletion; FCache; FCreateCache; FImage; FAudio; FAudioCompletion].

Definition getPriceSummary (row : ModelPricingSnapshot) : ustring :=
  match s_billingMode row with
  | TieredExpr => getExpressionSummary row
  | PerRequest => if truthy (s_price row) then js "$" ++ s_price row ++ js " / request" else js "Unset price"
  | PerToken =>
      let inputPrice := ratioToPrice (ratio (s_ratios row)) [] in
      if negb (truthy inputPrice) then js "Unset price"
      else
        let extraCount := length (filter (fun f => hasPricingValue (get_ratio f (s_ratios row)) = true) EXTRA_FIELDS) in
        js "Input $" ++ inputPrice ++ (if 0 <? extraCount then MIDDLE_DOT ++ show_Z (Z.of_nat extraCount) ++ js " extras" else [])
  end.

Definition getPriceDetail (row : ModelPricingSnapshot) : ustring :=
  match s_billingMode row with
  | TieredExpr => if truthy (s_requestRuleExpr row) then js "Includes request rules" else js "Expression based"
  | PerRequest => js "Fixed request price"
  | PerToken =>
      let inputPrice := ratioToPrice (ratio (s_ratios row)) [] in
      if negb (truthy inputPrice) then js "No base input price"
      else
        let detail (label : string) (f : RatioField) :=
          let v := get_ratio f (s_ratios row) in
          if truthy v then [js label ++ js " $" ++ ratioToPrice v inputPrice] else [] in
        match take 2 (detail "Output" FCompletion ++ detail "Cache" FCache ++ detail "Cache write" FCreateCache) with
        | [] => js "Base input price only"
        | details => join MIDDLE_DOT details
        end
  end.

(** ** Reading the options *)

Definition ratio_key (f : RatioField) : ustring :=
  match f with
  | FRatio => js "ModelRatio" | FCache => js "CacheRatio" | FCreateCache => js "CreateCacheRatio" | FCompletion => js "CompletionRatio"
  | FImage => js "ImageRatio" | FAudio => js "AudioRatio" | FAudioCompletion => js "AudioCompletionRatio"
  end.

Definition MODE_KEY : ustring := js "billing_setting.billing_mode".
Definition EXPR_KEY : ustring := js "billing_setting.billing_expr".

(** The ten options, in the order in which they are read and written. *)
Definition PRICING_KEYS : list ustring := PRICE_KEY :: map ratio_key RATIO_FIELDS ++ [MODE_KEY; EXPR_KEY].

(** [safeJsonParse(value, { fallback: {} })]. *)
Definition safeJsonParse (value : ustring) : option table :=
  match trim value with
  | [] => Some []
  | text =>
      match JSON_parse text with
      | Some (JObject fields) => Some fields
      | Some _ => None
      | None => Some []
      end
  end.

Abbreviation Options := (list (ustring * ustring)).

Definition option_text (options : Options) (key : ustring) : ustring := default [] (map_get key options).

Definition read_tables (options : Options) : option ParsedRatios :=
  mapM (fun key => fields ← safeJsonParse (option_text options key); Some (key, fields)) PRICING_KEYS.

(** [map\[name\]?.toString() || '']. *)
Definition value_text (v : option json) : ustring := match v with None | Some JNull => [] | Some x => String_json x end.

(** [billingExprMap\[name\] || '']. *)
Definition expr_text (v : option json) : option ustring :=
  match v with
  | None | Some JNull => Some []
  | Some (JString s) => Some s
  | Some _ => None
  end.

Definition ratios_of (tables : ParsedRatios) (name : ustring) : Ratios :=
  let at_ (f : RatioField) := value_text (price_at tables (ratio_key f) name) in
  mkRatios (at_ FRatio) (at_ FCache) (at_ FCreateCache) (at_ FCompletion) (at_ FImage) (at_ FAudio) (at_ FAudioCompletion).

Definition is_tiered (v : option json) : bool := match v with Some (JString s) => ustring_eqb s (js "tiered_expr") | _ => false end.

Definition snapshot_of (tables : ParsedRatios) (name : ustring) : option ModelPricingSnapshot :=
  let price := value_text (price_at tables PRICE_KEY name) in
  let ratios := ratios_of tables name in
  if is_tiered (price_at tables MODE_KEY name)
  then
    fullExpr ← expr_text (price_at tables EXPR_KEY name);
    match splitBillingExprAndRequestRules fullExpr with
    | Ok split => Some (mkSnapshot name price ratios TieredExpr (billingExpr split) (requestRuleExpr split) false)
    | Err _ => None
    end
  else
    Some (mkSnapshot name price ratios (if truthy price then PerRequest else PerToken) [] []
            (truthy price && existsb (fun f => truthy (get_ratio f ratios)) RATIO_FIELDS)).

Definition model_names (tables : ParsedRatios) : list ustring := uniq (tables ≫= fun t => map fst t.2).

Definition buildModelSnapshots (options : Options) : option (list ModelPricingSnapshot) :=
  tables ← read_tables options;
  mapM (snapshot_of tables) (model_names tables).

(** ** The rows of the table *)

Definition signature_json (s : ModelPricingSnapshot) : json :=
  JObject [(js "price", JString (s_price s)); (js "ratio", JString (ratio (s_ratios s)));
           (js "cacheRatio", JString (cacheRatio (s_ratios s))); (js "createCacheRatio", JString (createCacheRatio (s_ratios s)));
           (js "completionRatio", JString (completionRatio (s_ratios s))); (js "imageRatio", JString (imageRatio (s_ratios s)));
           (js "audioRatio", JString (audioRatio (s_ratios s))); (js "audioCompletionRatio", JString (audioCompletionRatio (s_ratios s)));
           (js "billingMode", JString (mode_text (s_billingMode s))); (js "billingExpr", JString (s_billingExpr s));
           (js "requestRuleExpr", JString (s_requestRuleExpr s))].

Definition getSnapshotSignature (snapshot : option ModelPricingSnapshot) : ustring :=
  match snapshot with None => [] | Some s => JSON_stringify (signature_json s) end.

Record PricingRow := mkPricingRow {
  pr_displayed : ModelPricingSnapshot; pr_saved : option ModelPricingSnapshot; pr_draft : option ModelPricingSnapshot;
  pr_isDraftChanged : bool; pr_isDraftDeleted : bool; pr_isDraftNew : bool }.

Definition named (name : ustring) (rows : list ModelPricingSnapshot) : option ModelPricingSnapshot :=
  last (filter (fun r => s_name r = name) rows).

Definition pricing_row (savedRows draftRows : list ModelPricingSnapshot) (name : ustring) : PricingRow :=
  let saved := named name savedRows in
  let draft := named name draftRows in
  let displayed :=
    match saved, draft with
    | Some s, _ => s
    | None, Some d => d
    | None, None => mkSnapshot name [] no_ratios PerToken [] [] false
    end in
  mkPricingRow displayed saved draft
    (negb (ustring_eqb (getSnapshotSignature saved) (getSnapshotSignature draft)))
    (match saved, draft with Some _, None => true | _, _ => false end)
    (match saved, draft with None, Some _ => true | _, _ => false end).

(** [candidates]: the names of the view of models without a price, absent in the view of all.  The order of names is
    that of the locale. *)
Definition models (localeCompare : ustring → ustring → Z) (savedOptions draftOptions : Options) (candidates : option (list ustring))
    : option (list PricingRow) :=
  savedRows ← buildModelSnapshots savedOptions;
  draftRows ← buildModelSnapshots draftOptions;
  let names := match candidates with
               | Some names => uniq names
               | None => uniq (map s_name savedRows ++ map s_name draftRows)
               end in
  let rows := map (pricing_row savedRows draftRows) names in
  let rows := filter (fun r => pr_isDraftDeleted r = false) rows in
  let rows := match candidates with
              | Some _ => filter (fun r => isBasePricingUnset (pr_saved r) = true) rows
              | None => rows
              end in
  Some (sort_cmp (fun a b => localeCompare (s_name (pr_displayed a)) (s_name (pr_displayed b))) rows).

Definition count_mode (mode : PricingMode) (rows : list PricingRow) : nat :=
  length (filter (fun r => s_billingMode (pr_displayed r) = mode) rows).

Definition modeCounts (rows : list PricingRow) : nat * nat * nat :=
  (count_mode PerToken rows, count_mode PerRequest rows, count_mode TieredExpr rows).

(** ** Writing the options *)

Definition set_price (name : ustring) (v : json) (tables : ParsedRatios) (key : ustring) : ParsedRatios :=
  map (fun t => if ustring_eqb t.1 key then (t.1, map_set name v t.2) else t) tables.

Definition setIfPresent (name : ustring) (tables : ParsedRatios) (entry : ustring * ustring) : ParsedRatios :=
  let '(key, value) := entry in
  if negb (truthy value) then tables
  else let parsed := parseFloat value in
       if is_finite parsed then set_price name (JNumber parsed) tables key else tables.

Definition ratio_entries (data : ModelRatioData) : list (ustring * ustring) :=
  map (fun f => (ratio_key f, get_ratio f (rd_ratios data))) RATIO_FIELDS.

(** The tables after one target model has got the prices of [data]. *)
Definition write_model (data : ModelRatioData) (tables : ParsedRatios) (name : ustring) : ParsedRatios :=
  let tables := fold_left (delete_price name) PRICING_KEYS tables in
  match rd_billingMode data with
  | TieredExpr =>
      let combined := combineBillingExpr (rd_billingExpr data) (rd_requestRuleExpr data) in
      let tables := if truthy combined
                    then set_price name (JString combined) (set_price name (JString (js "tiered_expr")) tables MODE_KEY) EXPR_KEY
                    else tables in
      fold_left (setIfPresent name) ((PRICE_KEY, rd_price data) :: ratio_entries data) tables
  | _ =>
      if truthy (rd_price data) then setIfPresent name tables (PRICE_KEY, rd_price data)
      else fold_left (setIfPresent name) (ratio_entries data) tables
  end.

Definition options_of (tables : ParsedRatios) : Options := map (fun t => (t.1, JSON_print (js "  ") [] (JObject t.2))) tables.

Definition persistPricingData (options : Options) (data : ModelRatioData) (targetNames : list ustring) : option Options :=
  tables ← read_tables options;
  Some (options_of (fold_left (write_model data) targetNames tables)).

Definition delete_model (options : Options) (name : ustring) : option Options :=
  tables ← read_tables options;
  Some (options_of (fold_left (delete_price name) PRICING_KEYS tables)).
