(* ===== verification/ModelPricingLemmas.v ===== *)
(** * How the editor of model prices changes the tables

    The entry of every option and model after a save, the tables under printing and reading,
    and the snapshots that are read from them. *)

From Stdlib Require Import ZArith Lia.
From stdpp Require Import base numbers strings option sets list.
From S2P Require Import Prelude ArraySort JsNumber Json JsonText NumberText JsonPrint JsonStringify NumberOf PricingFormat RequestRules PriceSync PriceSyncPage PriceSyncLemmas ModelPricing.

(** ** Entries *)

Lemma set_price_keys name v ts key : map fst (set_price name v ts key) = map fst ts.
Proof. unfold set_price. rewrite map_map. apply map_ext. intros [k f]. cbn. by destruct (ustring_eqb k key). Qed.

Lemma set_price_get name v ts key k m :
  price_at (set_price name v ts key) k m = if bool_decide (k = key ∧ m = name ∧ k ∈ map fst ts) then Some v else price_at ts k m.
Proof.
  unfold price_at, set_price. induction ts as [|[x f] ts IH].
  - cbn. rewrite bool_decide_false; [done | ]. intros (_ & _ & ?). set_solver.
  - cbn [map fst snd]. destruct (decide (x = k)) as [->|Hx].
    + destruct (ustring_eqb k key) eqn:Ek; cbn [map_get]; rewrite (bool_decide_true (k = k)) by done; cbn [mbind option_bind]; bools.
      * subst key. rewrite map_get_set. repeat case_bool_decide; try done; exfalso; set_solver.
      * rewrite bool_decide_false; [done | naive_solver].
    + assert (E : map_get k ((if ustring_eqb x key then (x, map_set name v f) else (x, f)) :: map (fun t => if ustring_eqb t.1 key then (t.1, map_set name v t.2) else t) ts)
        = map_get k (map (fun t => if ustring_eqb t.1 key then (t.1, map_set name v t.2) else t) ts)).
      { destruct (ustring_eqb x key); cbn [map_get]; by rewrite bool_decide_false. }
      rewrite E. cbn [map_get]. rewrite (bool_decide_false (x = k)) by done. etrans; [exact IH | ].
      repeat case_bool_decide; try done; exfalso; rewrite ?elem_of_cons in *; naive_solver.
Qed.

(** The entry a text becomes. *)
Definition number_entry (value : ustring) : option json :=
  if truthy value && is_finite (parseFloat value) then Some (JNumber (parseFloat value)) else None.

Lemma setIfPresent_alt name ts key value :
  setIfPresent name ts (key, value) = match number_entry value with Some v => set_price name v ts key | None => ts end.
Proof. unfold setIfPresent, number_entry. destruct (truthy value); [ | done]. cbn. by destruct (is_finite _). Qed.

Lemma setIfPresent_keys name ts e : map fst (setIfPresent name ts e) = map fst ts.
Proof. destruct e as [k v]. rewrite setIfPresent_alt. destruct (number_entry v); [apply set_price_keys | done]. Qed.

Lemma write_entries_keys name entries : ∀ ts, map fst (fold_left (setIfPresent name) entries ts) = map fst ts.
Proof. induction entries as [|e l IH]; intros ts; [done | ]. cbn [fold_left]. by rewrite IH, setIfPresent_keys. Qed.

Lemma write_entries_get name entries k m : NoDup (map fst entries) → ∀ ts, k ∈ map fst ts →
  price_at (fold_left (setIfPresent name) entries ts) k m =
  if bool_decide (m = name) then match map_get k entries ≫= number_entry with Some v => Some v | None => price_at ts k m end
  else price_at ts k m.
Proof.
  induction entries as [|[key value] l IH]; intros Hd ts Hk; [by destruct (bool_decide _) | ].
  cbn in Hd. apply NoDup_cons in Hd as [Hkey Hd]. cbn [fold_left map_get].
  rewrite (IH Hd) by (by rewrite setIfPresent_keys). rewrite setIfPresent_alt. destruct (decide (key = k)) as [->|Hne].
  - rewrite (proj2 (map_get_None k l)) by done. rewrite (bool_decide_true (k = k)) by done. cbn [mbind option_bind].
    destruct (number_entry value); [rewrite set_price_get | ]; repeat case_bool_decide; naive_solver.
  - rewrite (bool_decide_false (key = k)) by done. destruct (number_entry value); [ | done]. rewrite set_price_get.
    rewrite (bool_decide_false (k = key ∧ _)) by naive_solver. done.
Qed.

(** ** One model *)

Definition number_entries (data : ModelRatioData) : list (ustring * ustring) := (PRICE_KEY, rd_price data) :: ratio_entries data.

Definition combined_expr (data : ModelRatioData) : ustring := combineBillingExpr (rd_billingExpr data) (rd_requestRuleExpr data).

(** What the option [key] holds for a model that got the prices of [data]. *)
Definition saved_entry (data : ModelRatioData) (key : ustring) : option json :=
  match rd_billingMode data with
  | TieredExpr =>
      if truthy (combined_expr data) && ustring_eqb key MODE_KEY then Some (JString (js "tiered_expr"))
      else if truthy (combined_expr data) && ustring_eqb key EXPR_KEY then Some (JString (combined_expr data))
      else map_get key (number_entries data) ≫= number_entry
  | _ =>
      if truthy (rd_price data) then (if ustring_eqb key PRICE_KEY then number_entry (rd_price data) else None)
      else map_get key (ratio_entries data) ≫= number_entry
  end.

Lemma number_entries_keys data : map fst (number_entries data) = PRICE_KEY :: map ratio_key RATIO_FIELDS.
Proof. reflexivity. Qed.

Lemma number_entries_NoDup data : NoDup (map fst (number_entries data)).
Proof. rewrite number_entries_keys. apply (bool_decide_unpack _). by vm_compute. Qed.

Lemma ratio_entries_NoDup data : NoDup (map fst (ratio_entries data)).
Proof. pose proof (number_entries_NoDup data) as H. by apply NoDup_cons in H as [_ ?]. Qed.

Lemma mode_key_no_number data key : key = MODE_KEY ∨ key = EXPR_KEY → map_get key (number_entries data) = None.
Proof.
  intros H. apply map_get_None. rewrite number_entries_keys. apply (bool_decide_unpack _). by destruct H as [-> | ->]; vm_compute.
Qed.

Lemma write_model_keys data ts name : map fst (write_model data ts name) = map fst ts.
Proof.
  unfold write_model. repeat case_match; rewrite ?write_entries_keys, ?setIfPresent_keys, ?set_price_keys; apply delete_ratios_keys.
Qed.

Lemma write_model_get data ts name key m : map fst ts = PRICING_KEYS → key ∈ PRICING_KEYS →
  price_at (write_model data ts name) key m = if bool_decide (m = name) then saved_entry data key else price_at ts key m.
Proof.
  intros Hts Hkey. unfold write_model, saved_entry. fold (combined_expr data). set (cleared := fold_left (delete_price name) PRICING_KEYS ts).
  assert (Hk : map fst cleared = PRICING_KEYS) by (subst cleared; by rewrite delete_ratios_keys).
  assert (Hc : price_at cleared key m = if bool_decide (m = name) then None else price_at ts key m).
  { subst cleared. rewrite delete_ratios_get. repeat case_bool_decide; naive_solver. }
  destruct (rd_billingMode data).
  1-2: destruct (truthy (rd_price data));
    [ change (setIfPresent name cleared (PRICE_KEY, rd_price data)) with (fold_left (setIfPresent name) [(PRICE_KEY, rd_price data)] cleared);
      rewrite write_entries_get by (rewrite ?Hk; first [done | apply NoDup_singleton]); cbn [map_get];
      rewrite Hc; unfold ustring_eqb; repeat case_bool_decide; try done; try (exfalso; congruence); cbn; by destruct (number_entry _)
    | rewrite write_entries_get by (rewrite ?Hk; first [done | apply ratio_entries_NoDup]); rewrite Hc;
      case_bool_decide; [by destruct (_ ≫= _) | done] ].
  change ((PRICE_KEY, rd_price data) :: ratio_entries data) with (number_entries data).
  destruct (truthy (combined_expr data)); cbn [andb];
    rewrite write_entries_get by (rewrite ?set_price_keys, ?Hk; first [done | apply number_entries_NoDup]).
  - rewrite !set_price_get, !set_price_keys, Hk, Hc. unfold ustring_eqb. destruct (decide (m = name)) as [->|Hm].
    + rewrite (bool_decide_true (name = name)) by done. destruct (decide (key = MODE_KEY)) as [->|H1].
      * rewrite mode_key_no_number by auto. rewrite (bool_decide_true (MODE_KEY = MODE_KEY)) by done. cbn.
        rewrite (bool_decide_true (MODE_KEY = MODE_KEY ∧ _)) by done. done.
      * rewrite (bool_decide_false (key = MODE_KEY)) by done. destruct (decide (key = EXPR_KEY)) as [->|H2].
        { rewrite mode_key_no_number by auto. rewrite !bool_decide_true by done. done. }
        rewrite (bool_decide_false (key = EXPR_KEY)) by done. rewrite !(bool_decide_false (_ ∧ _)) by naive_solver. by destruct (_ ≫= _).
    + rewrite !bool_decide_false by naive_solver. done.
  - rewrite Hc. case_bool_decide; [by destruct (_ ≫= _) | done].
Qed.

Lemma write_models_keys data names : ∀ ts, map fst (fold_left (write_model data) names ts) = map fst ts.
Proof. induction names as [|n names IH]; intros ts; [done | ]. cbn [fold_left]. by rewrite IH, write_model_keys. Qed.

Lemma write_models_get data names key m : key ∈ PRICING_KEYS → ∀ ts, map fst ts = PRICING_KEYS →
  price_at (fold_left (write_model data) names ts) key m = if bool_decide (m ∈ names) then saved_entry data key else price_at ts key m.
Proof.
  intros Hkey. induction names as [|n names IH]; intros ts Hts; [by rewrite bool_decide_false by set_solver | ]. cbn [fold_left].
  rewrite IH by (by rewrite write_model_keys). rewrite write_model_get by done.
  repeat case_bool_decide; try done; exfalso; rewrite ?elem_of_cons in *; naive_solver.
Qed.

(** ** Printing and reading the tables *)

Definition printable_table (t : ustring * table) : Prop := printable (JObject t.2) = true.

Lemma printable_object fields :
  printable (JObject fields) = true ↔
  (∀ n, n ∈ map fst fields → printable_name n = true) ∧ NoDup (map fst fields) ∧ (∀ f, f ∈ fields → printable f.2 = true).
Proof.
  cbn [printable]. rewrite !andb_true_iff, bool_decide_eq_true, !forallb_forall. setoid_rewrite <-list_elem_of_In. tauto.
Qed.

Lemma printable_del name fields : printable (JObject fields) = true → printable (JObject (map_del name fields)) = true.
Proof.
  rewrite !printable_object. intros (Hn & Hd & Hv). assert (Hsub : ∀ f, f ∈ map_del name fields → f ∈ fields).
  { intros f Hf. by apply list_elem_of_filter in Hf as [_ ?]. }
  split; [ | split]; [ | by apply map_del_NoDup | auto].
  intros n (f & -> & Hf)%list_elem_of_fmap. apply Hn, list_elem_of_fmap. exists f. auto.
Qed.

Lemma printable_set name v fields :
  printable_name name = true → printable v = true → printable (JObject fields) = true → printable (JObject (map_set name v fields)) = true.
Proof.
  rewrite !printable_object. intros Hname Hval (Hn & Hd & Hv).
  assert (Hsub : ∀ f, f ∈ map_set name v fields → f = (name, v) ∨ f ∈ fields) by (intros f Hf; apply elem_of_map_set in Hf; tauto).
  split; [ | split]; [ | by apply map_set_NoDup | ].
  - intros n (f & -> & Hf)%list_elem_of_fmap. destruct (Hsub f Hf) as [-> | ?]; [done | ]. apply Hn, list_elem_of_fmap. eauto.
  - intros f Hf. destruct (Hsub f Hf) as [-> | ?]; auto.
Qed.

Lemma delete_prices_printable name keys : ∀ ts, Forall printable_table ts → Forall printable_table (fold_left (delete_price name) keys ts).
Proof.
  induction keys as [|key keys IH]; intros ts H; [done | ]. cbn [fold_left]. apply IH. unfold delete_price. apply Forall_map.
  eapply Forall_impl; [exact H | ]. intros [k f] Hf. cbn. destruct (ustring_eqb k key); [by apply printable_del | done].
Qed.

Lemma set_price_printable name v ts key :
  printable_name name = true → printable v = true → Forall printable_table ts → Forall printable_table (set_price name v ts key).
Proof.
  intros Hn Hv H. unfold set_price. apply Forall_map. eapply Forall_impl; [exact H | ]. intros [k f] Hf. cbn.
  destruct (ustring_eqb k key); [by apply printable_set | done].
Qed.

(** The texts of [data] can be saved: its numbers and its expression keep their text. *)
Definition printable_entry (value : ustring) : bool := match number_entry value with Some v => printable v | None => true end.

Definition printable_data (data : ModelRatioData) : bool :=
  forallb (fun e => printable_entry e.2) (number_entries data) && forallb is_code_unit (combined_expr data).

Lemma write_entries_printable name entries : printable_name name = true → forallb (fun e => printable_entry e.2) entries = true → ∀ ts,
  Forall printable_table ts → Forall printable_table (fold_left (setIfPresent name) entries ts).
Proof.
  intros Hn. induction entries as [|[k v] l IH]; intros He ts H; [done | ]. cbn [forallb snd] in He. apply andb_true_iff in He as [Hv He].
  cbn [fold_left]. apply (IH He). rewrite setIfPresent_alt. unfold printable_entry in Hv.
  destruct (number_entry v); [by apply set_price_printable | done].
Qed.

Lemma write_model_printable data ts name :
  printable_name name = true → printable_data data = true → Forall printable_table ts → Forall printable_table (write_model data ts name).
Proof.
  intros Hn Hd H. unfold printable_data in Hd. apply andb_true_iff in Hd as [He Hx].
  pose proof (delete_prices_printable name PRICING_KEYS ts H) as Hc. unfold write_model. fold (combined_expr data).
  assert (Hp : printable_entry (rd_price data) = true ∧ forallb (fun e => printable_entry e.2) (ratio_entries data) = true) by (by apply andb_true_iff in He).
  destruct Hp as [Hp Hr]. assert (Hone : forallb (fun e : ustring * ustring => printable_entry e.2) [(PRICE_KEY, rd_price data)] = true) by (cbn; by rewrite Hp).
  destruct (rd_billingMode data).
  1-2: destruct (truthy (rd_price data)); [by apply (write_entries_printable name [(PRICE_KEY, rd_price data)] Hn Hone) | by apply write_entries_printable].
  apply (write_entries_printable name (number_entries data)); [done | done | ].
  destruct (truthy (combined_expr data)); [ | done]. by repeat apply set_price_printable.
Qed.

Lemma write_models_printable data names : printable_data data = true → forallb printable_name names = true → ∀ ts,
  Forall printable_table ts → Forall printable_table (fold_left (write_model data) names ts).
Proof.
  intros Hd. induction names as [|n names IH]; intros Hn ts H; [done | ]. cbn in Hn. apply andb_true_iff in Hn as [Hn Hns].
  cbn [fold_left]. by apply (IH Hns), write_model_printable.
Qed.

Lemma printed_object_solid gap fields : solid (JSON_print gap [] (JObject fields)).
Proof.
  cbn [JSON_print]. unfold bracket. destruct (map _ fields); [vm_compute; done | ].
  rewrite !app_assoc. rewrite <-!app_assoc.
  match goal with |- solid (js ?a ++ ?m1 ++ ?m2 ++ ?m3 ++ js ?b) =>
    replace (js a ++ m1 ++ m2 ++ m3 ++ js b) with (js a ++ (m1 ++ m2 ++ m3) ++ js b) by (by rewrite <-!app_assoc) end.
  by apply solid_app; vm_compute.
Qed.

Lemma safeJsonParse_printed fields : printable (JObject fields) = true → safeJsonParse (JSON_print (js "  ") [] (JObject fields)) = Some fields.
Proof.
  intros Hp. pose proof (JSON_print_round_trip (js "  ") (JObject fields) eq_refl Hp) as H. unfold safeJsonParse.
  pose proof (printed_object_solid (js "  ") fields) as Hs. rewrite (solid_trim _ Hs).
  destruct (JSON_print (js "  ") [] (JObject fields)) as [|c text]; [by apply solid_nonempty in Hs | ]. by rewrite H.
Qed.

Lemma pricing_keys_NoDup : NoDup PRICING_KEYS.
Proof. apply (bool_decide_unpack _). by vm_compute. Qed.

Lemma read_tables_printed ts : map fst ts = PRICING_KEYS → Forall printable_table ts → read_tables (options_of ts) = Some ts.
Proof.
  intros Hk Hp. assert (Hd : NoDup (map fst (options_of ts))).
  { unfold options_of. rewrite map_map. change (NoDup (map fst ts)). rewrite Hk. apply pricing_keys_NoDup. }
  unfold read_tables. rewrite <-Hk. apply (mapM_tables (fun key => safeJsonParse (option_text (options_of ts) key))).
  intros t Ht. unfold option_text.
  rewrite (map_in_get t.1 (JSON_print (js "  ") [] (JObject t.2)) _ Hd) by (apply list_elem_of_fmap; by exists t).
  cbn [default]. apply safeJsonParse_printed. rewrite Forall_forall in Hp. by apply Hp.
Qed.

Lemma read_tables_keys options ts : read_tables options = Some ts → map fst ts = PRICING_KEYS.
Proof.
  unfold read_tables. generalize PRICING_KEYS as keys. intros keys. revert ts. induction keys as [|k keys IH]; intros ts; cbn [mapM].
  - by intros [= <-].
  - destruct (safeJsonParse _) as [f|]; [ | done]. cbn [mbind option_bind]. destruct (mapM _ keys) as [rest|]; [ | done].
    cbn. intros [= <-]. cbn. f_equal. by apply IH.
Qed.

(** ** Snapshots *)

(** A snapshot depends on the entries of its model only. *)
Lemma snapshot_of_ext ts ts' name : (∀ key, key ∈ PRICING_KEYS → price_at ts key name = price_at ts' key name) → snapshot_of ts name = snapshot_of ts' name.
Proof.
  intros H. assert (Hr : ratios_of ts name = ratios_of ts' name).
  { unfold ratios_of. rewrite !H by (apply (bool_decide_unpack _); by vm_compute). done. }
  unfold snapshot_of. rewrite Hr, !H by (apply (bool_decide_unpack _); by vm_compute). done.
Qed.

Lemma model_names_spec ts name : NoDup (map fst ts) → name ∈ model_names ts ↔ ∃ key, key ∈ map fst ts ∧ is_Some (price_at ts key name).
Proof.
  intros Hd. unfold model_names. rewrite elem_of_uniq, list_elem_of_bind. split.
  - intros ([key fields] & Hn & Ht). cbn in Hn. exists key. split; [apply list_elem_of_fmap; by exists (key, fields) | ].
    unfold price_at. rewrite (map_in_get _ _ _ Hd Ht). cbn. by apply map_get_is_Some.
  - intros (key & Hk & Hp). unfold price_at in Hp. destruct (map_get key ts) as [fields|] eqn:E; [ | by destruct Hp].
    exists (key, fields). split; [by apply map_get_is_Some | by apply map_get_in].
Qed.

Lemma snapshot_name ts name s : snapshot_of ts name = Some s → s_name s = name.
Proof.
  unfold snapshot_of. destruct (is_tiered _).
  - destruct (expr_text _); [ | done]. cbn. destruct (splitBillingExprAndRequestRules _); [ | done]. by intros [= <-].
  - by intros [= <-].
Qed.

(** The snapshots of a list of names, looked up by name. *)
Lemma named_snapshots ts names rows name : NoDup names → mapM (snapshot_of ts) names = Some rows →
  named name rows = if bool_decide (name ∈ names) then snapshot_of ts name else None.
Proof.
  unfold named. intros Hd. revert rows. induction names as [|n names IH]; intros rows; cbn [mapM].
  - intros [= <-]. rewrite bool_decide_false by set_solver. done.
  - apply NoDup_cons in Hd as [Hn Hd]. destruct (snapshot_of ts n) as [s|] eqn:Es; [ | done]. cbn [mbind option_bind].
    destruct (mapM _ names) as [rest|] eqn:Er; [ | done]. cbn. intros [= <-]. specialize (IH Hd rest eq_refl).
    rewrite filter_cons. rewrite (snapshot_name _ _ _ Es). destruct (decide (n = name)) as [->|Hne].
    + rewrite (bool_decide_true (name ∈ name :: names)) by set_solver. rewrite (bool_decide_false (name ∈ names)) in IH by done.
      apply last_None in IH. by rewrite IH, Es.
    + rewrite IH. repeat case_bool_decide; try done; exfalso; set_solver.
Qed.
