(* ===== verification/ModelPricingEditor.v ===== *)
(** * The editor of the prices of a model

    features/system-settings/models/model-pricing-sheet.tsx (the panel with its prices and the
    ratios of its form) and the handlers of model-ratio-visual-editor.tsx around it.  The panel
    shows prices in dollars; what is saved are ratios to the input price, which the handlers
    keep in the form. *)

From Stdlib Require Import ZArith Lia.
From stdpp Require Import base numbers strings option sets list.
From S2P Require Import Prelude ArraySort JsNumber Json JsonText NumberText NumberOf PricingFormat RequestRules PriceSync PriceSyncPage ModelPricing.

(** ** Lanes *)

Inductive LaneKey := LCompletion | LCache | LCreateCache | LImage | LAudioInput | LAudioOutput.

#[export] Instance LaneKey_eq_dec : EqDecision LaneKey.
Proof. solve_decision. Defined.

(** The keys of [laneConfigs], in order. *)
Definition laneConfigs : list LaneKey := [LCompletion; LCache; LCreateCache; LImage; LAudioInput; LAudioOutput].

Record Lanes (A : Type) := mkLanes {
  l_completion : A; l_cache : A; l_createCache : A; l_image : A; l_audioInput : A; l_audioOutput : A }.
Arguments mkLanes {A} _ _ _ _ _ _.
Arguments l_completion {A} _.
Arguments l_cache {A} _.
Arguments l_createCache {A} _.
Arguments l_image {A} _.
Arguments l_audioInput {A} _.
Arguments l_audioOutput {A} _.

Definition get_lane {A} (k : LaneKey) (l : Lanes A) : A :=
  match k with
  | LCompletion => l_completion l | LCache => l_cache l | LCreateCache => l_createCache l | LImage => l_image l
  | LAudioInput => l_audioInput l | LAudioOutput => l_audioOutput l
  end.

Definition set_lane {A} (k : LaneKey) (v : A) (l : Lanes A) : Lanes A :=
  let at_ (x : LaneKey) := if bool_decide (x = k) then v else get_lane x l in
  mkLanes (at_ LCompletion) (at_ LCache) (at_ LCreateCache) (at_ LImage) (at_ LAudioInput) (at_ LAudioOutput).

Definition EMPTY_LANE_PRICES : Lanes ustring := mkLanes [] [] [] [] [] [].
Definition EMPTY_LANE_ENABLED : Lanes bool := mkLanes false false false false false false.

Definition ratioFieldByLane (k : LaneKey) : RatioField :=
  match k with
  | LCompletion => FCompletion | LCache => FCache | LCreateCache => FCreateCache | LImage => FImage
  | LAudioInput => FAudio | LAudioOutput => FAudioCompletion
  end.

(** [/^(\d+(\.\d* )?|\.\d* )?$/], without the blanks. *)
Definition numericDraft (text : ustring) : bool :=
  match drop_while is_digit text with
  | [] => true
  | c :: rest => (c =? chr ".")%Z && forallb is_digit rest
  end.

(** ** The prices of saved ratios *)

Definition ratioToBasePrice (r : ustring) : ustring :=
  match toNumberOrNull r with Some num => formatPricingNumber (num_mul num (num_of_Z 2)) | None => [] end.

Definition deriveLanePrice (r denominator : ustring) : ustring :=
  match toNumberOrNull r, toNumberOrNull denominator with
  | Some a, Some b => formatPricingNumber (num_mul a b)
  | _, _ => []
  end.

Definition createInitialLaneState (data : option ModelRatioData) : ustring * Lanes ustring * Lanes bool :=
  match data with
  | None => ([], EMPTY_LANE_PRICES, EMPTY_LANE_ENABLED)
  | Some d =>
      let r := rd_ratios d in
      let promptPrice := ratioToBasePrice (ratio r) in
      let audioInputPrice := deriveLanePrice (audioRatio r) promptPrice in
      (promptPrice,
       mkLanes (deriveLanePrice (completionRatio r) promptPrice) (deriveLanePrice (cacheRatio r) promptPrice)
         (deriveLanePrice (createCacheRatio r) promptPrice) (deriveLanePrice (imageRatio r) promptPrice) audioInputPrice
         (deriveLanePrice (audioCompletionRatio r) audioInputPrice),
       mkLanes (hasValue (completionRatio r)) (hasValue (cacheRatio r)) (hasValue (createCacheRatio r)) (hasValue (imageRatio r))
         (hasValue (audioRatio r)) (hasValue (audioCompletionRatio r)))
  end.

(** ** The panel *)

Record FormValues := mkForm { f_name : ustring; f_price : ustring; f_ratios : Ratios }.

Record Panel := mkPanel {
  pricingMode : PricingMode; promptPrice : ustring; lanePrices : Lanes ustring; laneEnabled : Lanes bool;
  panelExpr : ustring; panelRules : ustring; form : FormValues; editorReloadToken : nat }.

Definition initial_panel : Panel := mkPanel PerToken [] EMPTY_LANE_PRICES EMPTY_LANE_ENABLED [] [] (mkForm [] [] no_ratios) 0.

(** The effect that shows a model, or an empty form. *)
Definition show_model (editData : option ModelRatioData) (p : Panel) : Panel :=
  let '(prompt, prices, enabled) := createInitialLaneState editData in
  match editData with
  | Some d =>
      mkPanel (match rd_billingMode d with TieredExpr => TieredExpr | _ => if truthy (rd_price d) then PerRequest else PerToken end)
        prompt prices enabled (rd_billingExpr d) (rd_requestRuleExpr d) (mkForm (rd_name d) (rd_price d) (rd_ratios d))
        (S (editorReloadToken p))
  | None => mkPanel PerToken prompt prices enabled [] [] (mkForm [] [] no_ratios) (S (editorReloadToken p))
  end.

Definition with_form (f : FormValues → FormValues) (p : Panel) : Panel :=
  mkPanel (pricingMode p) (promptPrice p) (lanePrices p) (laneEnabled p) (panelExpr p) (panelRules p) (f (form p)) (editorReloadToken p).

Definition setFormValue (field : RatioField) (value : ustring) (p : Panel) : Panel :=
  with_form (fun v => mkForm (f_name v) (f_price v) (set_ratio field value (f_ratios v))) p.

Definition with_lanes (prices : Lanes ustring) (enabled : Lanes bool) (p : Panel) : Panel :=
  mkPanel (pricingMode p) (promptPrice p) prices enabled (panelExpr p) (panelRules p) (form p) (editorReloadToken p).

Definition with_prompt (prompt : ustring) (p : Panel) : Panel :=
  mkPanel (pricingMode p) prompt (lanePrices p) (laneEnabled p) (panelExpr p) (panelRules p) (form p) (editorReloadToken p).

(** [x / y] as text, absent where [y] is none or zero. *)
Definition ratio_to (x : number) (denominator : ustring) : ustring :=
  match toNumberOrNull denominator with
  | Some y => if num_eqb y zero then [] else formatPricingNumber (num_div x y)
  | None => []
  end.

Definition deriveLaneRatio (lane : LaneKey) (price prompt : ustring) (prices : Lanes ustring) : ustring :=
  match toNumberOrNull price with
  | None => []
  | Some priceNumber =>
      match lane with
      | LAudioOutput => ratio_to priceNumber (l_audioInput prices)
      | _ => ratio_to priceNumber prompt
      end
  end.

Definition base_ratio (prompt : ustring) : ustring :=
  match toNumberOrNull prompt with Some inputPrice => formatPricingNumber (num_div inputPrice (num_of_Z 2)) | None => [] end.

Definition lane_ratio (prompt : ustring) (prices : Lanes ustring) (enabled : Lanes bool) (key : LaneKey) : ustring :=
  if get_lane key enabled then deriveLaneRatio key (get_lane key prices) prompt prices else [].

Definition syncLaneRatios (prompt : ustring) (prices : Lanes ustring) (enabled : Lanes bool) (p : Panel) : Panel :=
  fold_left (fun p key => setFormValue (ratioFieldByLane key) (lane_ratio prompt prices enabled key) p) laneConfigs
    (setFormValue FRatio (base_ratio prompt) p).

Definition handlePromptPriceChange (value : ustring) (p : Panel) : Panel :=
  if numericDraft value then syncLaneRatios value (lanePrices p) (laneEnabled p) (with_prompt value p) else p.

Definition handleLanePriceChange (lane : LaneKey) (value : ustring) (p : Panel) : Panel :=
  if negb (numericDraft value) then p
  else
    let nextLanePrices := set_lane lane value (lanePrices p) in
    let q := with_lanes nextLanePrices (laneEnabled p) p in
    let q := if get_lane lane (laneEnabled p)
             then setFormValue (ratioFieldByLane lane) (deriveLaneRatio lane value (promptPrice p) nextLanePrices) q else q in
    if bool_decide (lane = LAudioInput) && l_audioOutput (laneEnabled p)
    then setFormValue FAudioCompletion (deriveLaneRatio LAudioOutput (l_audioOutput nextLanePrices) (promptPrice p) nextLanePrices) q
    else q.

Definition handleLaneToggle (lane : LaneKey) (checked : bool) (p : Panel) : Panel :=
  let nextEnabled := set_lane lane checked (laneEnabled p) in
  if checked
  then
    setFormValue (ratioFieldByLane lane) (deriveLaneRatio lane (get_lane lane (lanePrices p)) (promptPrice p) (lanePrices p))
      (with_lanes (lanePrices p) nextEnabled p)
  else
    let nextPrices := set_lane lane [] (lanePrices p) in
    let q := setFormValue (ratioFieldByLane lane) [] p in
    if bool_decide (lane = LAudioInput)
    then with_lanes (set_lane LAudioOutput [] nextPrices) (set_lane LAudioOutput false nextEnabled) (setFormValue FAudioCompletion [] q)
    else with_lanes nextPrices nextEnabled q.

Definition DEFAULT_EXPR : ustring := js "tier(" ++ [34%Z] ++ js "base" ++ [34%Z] ++ js ", p * 0 + c * 0)".

Definition handleModeChange (mode : PricingMode) (p : Panel) : Panel :=
  mkPanel mode (promptPrice p) (lanePrices p) (laneEnabled p)
    (if bool_decide (mode = TieredExpr) && negb (truthy (panelExpr p)) then DEFAULT_EXPR else panelExpr p)
    (panelRules p) (form p) (editorReloadToken p).

(** The inputs of the name and of the fixed price, and what the expression editor reports. *)
Definition name_input (value : ustring) (p : Panel) : Panel := with_form (fun v => mkForm value (f_price v) (f_ratios v)) p.
Definition price_input (value : ustring) (p : Panel) : Panel :=
  if numericDraft value then with_form (fun v => mkForm (f_name v) value (f_ratios v)) p else p.
Definition expr_changed (value : ustring) (p : Panel) : Panel :=
  mkPanel (pricingMode p) (promptPrice p) (lanePrices p) (laneEnabled p) value (panelRules p) (form p) (editorReloadToken p).
Definition rules_changed (value : ustring) (p : Panel) : Panel :=
  mkPanel (pricingMode p) (promptPrice p) (lanePrices p) (laneEnabled p) (panelExpr p) value (form p) (editorReloadToken p).

(** ** Checks *)

Definition input_price_missing (p : Panel) : bool :=
  bool_decide (pricingMode p = PerToken) && negb (bool_decide (is_Some (toNumberOrNull (promptPrice p)))) &&
  existsb (fun key => get_lane key (laneEnabled p) && hasValue (get_lane key (lanePrices p))) laneConfigs.

Definition audio_input_missing (p : Panel) : bool :=
  bool_decide (pricingMode p = PerToken) && l_audioOutput (laneEnabled p) && negb (hasValue (l_audioInput (lanePrices p))).

Definition warnings (editData : option ModelRatioData) (p : Panel) : list ustring :=
  let hasConflict :=
    match editData with
    | Some d => truthy (rd_price d) && existsb (fun f => hasValue (get_ratio f (rd_ratios d))) RATIO_FIELDS
    | None => false
    end in
  (if hasConflict
   then [js "This model has both fixed-price and token-price settings. Saving the current mode will rewrite the conflicting fields."]
   else []) ++
  (if input_price_missing p then [js "Input price is required before saving dependent prices."] else []) ++
  (if audio_input_missing p then [js "Audio output price requires an audio input price."] else []).

(** The field and the message of the error, if there is one. *)
Definition validatePricingValues (p : Panel) : option (RatioField * ustring) :=
  if input_price_missing p then Some (FRatio, js "Input price is required before saving dependent prices.")
  else if audio_input_missing p then Some (FAudio, js "Audio output price requires an audio input price.")
  else None.

Definition buildSubmitData (p : Panel) : ModelRatioData :=
  let tiered := bool_decide (pricingMode p = TieredExpr) in
  mkData (trim (f_name (form p))) (f_price (form p)) (f_ratios (form p)) (pricingMode p)
    (if tiered then panelExpr p else []) (if tiered then panelRules p else []).

(** The schema wants a name; then the checks. *)
Definition commitDraft (p : Panel) : option ModelRatioData :=
  if negb (truthy (f_name (form p))) then None
  else match validatePricingValues p with Some _ => None | None => Some (buildSubmitData p) end.

(** ** The preview *)

Record PreviewRow := mkPreview { pv_key : ustring; pv_label : ustring; pv_value : ustring; pv_multiline : bool }.

Definition or_empty_label (v : ustring) : ustring := if truthy v then v else js "Empty".

Definition dollars (enabled : bool) (price : ustring) : ustring := if enabled && truthy price then js "$" ++ price else js "Empty".

Definition buildPreviewRows (p : Panel) : list PreviewRow :=
  match pricingMode p with
  | TieredExpr =>
      [mkPreview (js "mode") (js "BillingMode") (js "tiered_expr") false;
       mkPreview (js "expr") (js "Expression") (or_empty_label (combineBillingExpr (panelExpr p) (panelRules p))) true]
  | PerRequest => [mkPreview (js "price") (js "ModelPrice") (or_empty_label (f_price (form p))) false]
  | PerToken =>
      let lane (key label : string) (k : LaneKey) :=
        mkPreview (js key) (js label) (dollars (get_lane k (laneEnabled p)) (get_lane k (lanePrices p))) false in
      [mkPreview (js "inputPrice") (js "Input price") (dollars true (promptPrice p)) false;
       lane "completion" "Completion price" LCompletion; lane "cache" "Cache read price" LCache;
       lane "createCache" "Cache write price" LCreateCache; lane "image" "Image input price" LImage;
       lane "audio" "Audio input price" LAudioInput; lane "audioCompletion" "Audio output price" LAudioOutput]%string
  end.

(** ** The editor around the panel

    On a wide page the panel is mounted while the editor is open; the sheet of a narrow page is not modelled. *)

Record PricingEditor := mkEditor {
  draftOptions : Options; editData : option ModelRatioData; editorOpen : bool; globalFilter : ustring; panel : Panel }.

Definition edit_of (snapshot : ModelPricingSnapshot) : ModelRatioData :=
  mkData (s_name snapshot) (s_price snapshot) (s_ratios snapshot)
    (match s_billingMode snapshot with TieredExpr => TieredExpr | _ => if truthy (s_price snapshot) then PerRequest else PerToken end)
    (s_billingExpr snapshot) (s_requestRuleExpr snapshot).

(** The model of a row: its draft, what is saved, or the row itself. *)
Definition handleEdit (row : PricingRow) (e : PricingEditor) : PricingEditor :=
  let editable := match pr_draft row, pr_saved row with Some d, _ => d | None, Some s => s | None, None => pr_displayed row end in
  let data := Some (edit_of editable) in
  mkEditor (draftOptions e) data true (globalFilter e) (show_model data (if editorOpen e then panel e else initial_panel)).

(** A panel that is mounted is filled again only where a model was edited. *)
Definition handleAdd (e : PricingEditor) : PricingEditor :=
  mkEditor (draftOptions e) None true (globalFilter e)
    (match editData e with
     | None => if editorOpen e then panel e else show_model None initial_panel
     | Some _ => show_model None (if editorOpen e then panel e else initial_panel)
     end).

Definition close_editor (e : PricingEditor) : PricingEditor :=
  mkEditor (draftOptions e) None false (globalFilter e) initial_panel.

Definition handleGlobalFilterChange (next : ustring) (e : PricingEditor) : PricingEditor :=
  let e := if ustring_eqb next (globalFilter e) then e else close_editor e in
  mkEditor (draftOptions e) (editData e) (editorOpen e) next (panel e).

Definition with_options (options : Options) (e : PricingEditor) : PricingEditor :=
  mkEditor options (editData e) (editorOpen e) (globalFilter e) (panel e).

Definition handleDelete (name : ustring) (e : PricingEditor) : option PricingEditor :=
  options ← delete_model (draftOptions e) name;
  let e := with_options options e in
  Some (if bool_decide (rd_name <$> editData e = Some name) then close_editor e else e).

(** The data that was committed becomes the edited model, which fills the panel again. *)
Definition committed (data : ModelRatioData) (e : PricingEditor) : PricingEditor :=
  mkEditor (draftOptions e) (Some data) (editorOpen e) (globalFilter e) (show_model (Some data) (panel e)).

Inductive CopyResult := CopyNoSource | CopyInvalid | CopyNoTarget | CopyDone.

Definition handleBatchCopy (targetNames : list ustring) (e : PricingEditor) : option (PricingEditor * CopyResult) :=
  match editData e with
  | None => Some (e, CopyNoSource)
  | Some source =>
      match (if editorOpen e then commitDraft (panel e) else Some source) with
      | None => Some (e, CopyInvalid)
      | Some sourceData =>
          let e := if editorOpen e then committed sourceData e else e in
          match targetNames with
          | [] => Some (e, CopyNoTarget)
          | _ => options ← persistPricingData (draftOptions e) sourceData (uniq (rd_name sourceData :: targetNames));
                 Some (with_options options e, CopyDone)
          end
      end
  end.

(** The editor and whether saving may go on. *)
Definition commitOpenEditor (e : PricingEditor) : option (PricingEditor * bool) :=
  if negb (editorOpen e) then Some (e, true)
  else
    match commitDraft (panel e) with
    | None => Some (e, false)
    | Some data =>
        options ← persistPricingData (draftOptions e) data [rd_name data];
        Some (committed data (with_options options e), true)
    end.
