(* ===== verification/ModelPricingProperties.v ===== *)
(** * What the editor of model prices guarantees

    The ratios of the form follow the prices on the panel of a new model, and on any panel from
    the first input price on; what is saved for a model is shown again when the model is edited, and other models keep their prices; a
    row is unchanged exactly where its prices are.  The fixed price of a model outlives the
    mode it belongs to, which is a fault of the code. *)

From Stdlib Require Import ZArith Lia.
From stdpp Require Import base numbers strings option sets list.
From S2P Require Import TierExpr RequestRules RequestRulesRoundTrip TierExprRoundTrip TierEditor TierEditorProperties.
From S2P Require Import Prelude ArraySort JsNumber Json JsonText NumberText JsonPrint JsonStringify NumberOf PricingFormat RequestRules PriceSync PriceSyncPage PriceSyncLemmas ModelPricing ModelPricingLemmas ModelPricingEditor.

(** ** The panel *)

Inductive PanelEvent :=
| EvPrompt (v : ustring) | EvLanePrice (k : LaneKey) (v : ustring) | EvLaneToggle (k : LaneKey) (b : bool) | EvMode (m : PricingMode)
| EvName (v : ustring) | EvPrice (v : ustring) | EvExpr (v : ustring) | EvRules (v : ustring).

Definition apply_event (p : Panel) (e : PanelEvent) : Panel :=
  match e with
  | EvPrompt v => handlePromptPriceChange v p
  | EvLanePrice k v => handleLanePriceChange k v p
  | EvLaneToggle k b => handleLaneToggle k b p
  | EvMode m => handleModeChange m p
  | EvName v => name_input v p
  | EvPrice v => price_input v p
  | EvExpr v => expr_changed v p
  | EvRules v => rules_changed v p
  end.

(** The ratios of the form are those of the prices that are shown. *)
Definition follows (r : Ratios) (p : Panel) : Prop :=
  ratio r = base_ratio (promptPrice p) ∧
  ∀ k, get_ratio (ratioFieldByLane k) r = lane_ratio (promptPrice p) (lanePrices p) (laneEnabled p) k.

Definition in_sync (p : Panel) : Prop := follows (f_ratios (form p)) p.

Lemma get_set_ratio f g v r : get_ratio g (set_ratio f v r) = if bool_decide (g = f) then v else get_ratio g r.
Proof. by destruct f, g. Qed.

Lemma get_set_lane {A} k k' (v : A) l : get_lane k' (set_lane k v l) = if bool_decide (k' = k) then v else get_lane k' l.
Proof. by destruct k, k'. Qed.

Lemma field_inj k k' : ratioFieldByLane k = ratioFieldByLane k' ↔ k = k'.
Proof. split; [ | by intros ->]. by destruct k, k'. Qed.

(** The ratio of a lane depends on its own price, and that of audio output also on the price of audio input. *)
Lemma lane_ratio_other prompt prices enabled k k' v b :
  k' ≠ k → (k = LAudioInput → k' ≠ LAudioOutput) →
  lane_ratio prompt (set_lane k v prices) (set_lane k b enabled) k' = lane_ratio prompt prices enabled k'.
Proof. intros Hne Ha. unfold lane_ratio, deriveLaneRatio. destruct k, k'; try done; by destruct (Ha eq_refl). Qed.

Lemma lane_ratio_price prompt prices enabled k k' v :
  k' ≠ k → (k = LAudioInput → k' ≠ LAudioOutput) → lane_ratio prompt (set_lane k v prices) enabled k' = lane_ratio prompt prices enabled k'.
Proof. intros Hne Ha. unfold lane_ratio, deriveLaneRatio. destruct k, k'; try done; by destruct (Ha eq_refl). Qed.

Lemma lane_ratio_enabled prompt prices enabled k k' b : k' ≠ k → lane_ratio prompt prices (set_lane k b enabled) k' = lane_ratio prompt prices enabled k'.
Proof. intros Hne. unfold lane_ratio. rewrite get_set_lane, bool_decide_false by done. done. Qed.

Lemma prompt_change_in_sync v p : numericDraft v = true → in_sync (handlePromptPriceChange v p).
Proof. intros Hv. unfold handlePromptPriceChange. rewrite Hv. split; [done | ]. by intros []. Qed.

Lemma lane_price_in_sync k v p : in_sync p → in_sync (handleLanePriceChange k v p).
Proof.
  intros Hp. unfold handleLanePriceChange. destruct (numericDraft v); cbn [negb]; [ | done]. destruct Hp as [Hr Hl]. split.
  - destruct (get_lane k (laneEnabled p)), (bool_decide (k = LAudioInput) && l_audioOutput (laneEnabled p)); cbn; destruct k; exact Hr.
  - intros k'. specialize (Hl k'). unfold lane_ratio in *.
    destruct k, k'; cbn in *; repeat case_match; cbn in *; try done; congruence.
Qed.

Lemma lane_toggle_in_sync k b p : in_sync p → in_sync (handleLaneToggle k b p).
Proof.
  intros [Hr Hl]. unfold handleLaneToggle. split.
  - destruct b, k; exact Hr.
  - intros k'. specialize (Hl k'). unfold lane_ratio in *. destruct b, k, k'; cbn in *; try done; repeat case_match; done.
Qed.

Lemma apply_event_in_sync p e : in_sync p → in_sync (apply_event p e).
Proof.
  destruct e; cbn [apply_event]; try done.
  - intros H. destruct (numericDraft v) eqn:Hv; [by apply prompt_change_in_sync | ]. unfold handlePromptPriceChange. by rewrite Hv.
  - apply lane_price_in_sync.
  - apply lane_toggle_in_sync.
  - unfold price_input. by destruct (numericDraft v).
Qed.

Lemma events_in_sync events : ∀ p, in_sync p → in_sync (fold_left apply_event events p).
Proof. induction events as [|e l IH]; intros p H; [done | ]. cbn [fold_left]. by apply IH, apply_event_in_sync. Qed.

(** C27: On the panel of a new model, or on any panel once an input price has been entered,
    whatever is then typed, switched on or off, in any order: the data that is saved has the
    ratio of the input price, for every lane that is on the ratio of its price to the input
    price (of the audio output price to the audio input price), and none for a lane that is
    off.  (A model that is opened and saved before that keeps the ratios it had.) *)
Theorem saved_ratios_follow_the_prices q p0 v events start :
  start = show_model None q ∨ (numericDraft v = true ∧ start = handlePromptPriceChange v p0) →
  let p := fold_left apply_event events start in
  ∀ d, commitDraft p = Some d →
  rd_billingMode d = pricingMode p ∧ ratio (rd_ratios d) = base_ratio (promptPrice p) ∧
  ∀ k, get_ratio (ratioFieldByLane k) (rd_ratios d) = lane_ratio (promptPrice p) (lanePrices p) (laneEnabled p) k.
Proof.
  intros Hstart p d Hd. assert (Hp : in_sync p).
  { apply events_in_sync. destruct Hstart as [-> | [Hv ->]]; [ | by apply prompt_change_in_sync]. split; [done | by intros []]. }
  unfold commitDraft in Hd. destruct (negb _); [done | ]. destruct (validatePricingValues p); [done | ]. injection Hd as <-. by split.
Qed.

(** ** Saving a model *)

(** A text that is the text of its number. *)
Definition canonical (v : ustring) : bool :=
  negb (truthy v) || (is_finite (parseFloat v) && ustring_eqb (Number_toString (parseFloat v)) v && printable_number (parseFloat v)).

Definition canonical_data (d : ModelRatioData) : bool :=
  forallb (fun e => canonical e.2) (number_entries d) && forallb is_code_unit (combined_expr d).

(** There is something to save: a price or a ratio; or, with an expression, prices and rules that the visual editors have
    written and whose names and values stay clear of the syntax, without a guarded condition on a parameter. *)
Definition saveable (d : ModelRatioData) : Prop :=
  match rd_billingMode d with
  | TieredExpr =>
      ∃ config groups, rd_billingExpr d = generateExprFromVisualConfig (Some config) ∧ rd_requestRuleExpr d = buildRequestRuleExpr groups ∧
        readable_config config = true ∧ config_flat config = true ∧ readable_rules groups = true
  | _ => truthy (rd_price d) || existsb (fun f => truthy (get_ratio f (rd_ratios d))) RATIO_FIELDS = true
  end.

(** What the editor shows of it afterwards: a fixed price stands alone. *)
Definition shown_again (d : ModelRatioData) (name : ustring) : ModelRatioData :=
  match rd_billingMode d with
  | TieredExpr => mkData name (rd_price d) (rd_ratios d) TieredExpr (rd_billingExpr d) (rd_requestRuleExpr d)
  | _ => if truthy (rd_price d) then mkData name (rd_price d) no_ratios PerRequest [] [] else mkData name [] (rd_ratios d) PerToken [] []
  end.

(** Such prices and rules are taken apart again. *)
Lemma saveable_split d : rd_billingMode d = TieredExpr → saveable d →
  truthy (combined_expr d) = true ∧ splitBillingExprAndRequestRules (combined_expr d) = Ok (mkSplit (rd_billingExpr d) (rd_requestRuleExpr d)).
Proof.
  unfold saveable. intros ->. intros (config & groups & He & Hr & Hc & Hf & Hg). unfold combined_expr. rewrite He, Hr.
  pose proof (split_written config groups Hc Hf Hg) as Hs. cbv zeta in Hs. destruct (price_facts config Hc Hf) as (Hsolid & _).
  set (expr := generateExprFromVisualConfig (Some config)) in *.
  assert (Ht : truthy (combineBillingExpr expr (buildRequestRuleExpr groups)) = true).
  { unfold combineBillingExpr. rewrite (solid_trim _ Hsolid), (solid_truthy _ Hsolid). cbn [negb].
    destruct (truthy (trim _)); cbn [negb]; [done | by apply solid_truthy]. }
  split; [done | ]. unfold combined_or in Hs. by rewrite Ht in Hs.
Qed.

Lemma canonical_entry v : canonical v = true → value_text (number_entry v) = v ∧ printable_entry v = true.
Proof.
  unfold canonical, printable_entry, number_entry. destruct v as [|c v]; [done | ]. cbn [truthy negb orb andb].
  intros H. apply andb_true_iff in H as [H Hp]. apply andb_true_iff in H as [Hf Ht]. rewrite Hf. bools. cbn [value_text]. split; [exact Ht | done].
Qed.

Lemma canonical_some v : canonical v = true → truthy v = true → is_Some (number_entry v).
Proof.
  unfold canonical, number_entry. intros H Ht. rewrite Ht in *. cbn in H. apply andb_true_iff in H as [H _]. apply andb_true_iff in H as [-> _]. eauto.
Qed.

Lemma canonical_printable d : canonical_data d = true → printable_data d = true.
Proof.
  unfold canonical_data, printable_data. intros H. apply andb_true_iff in H as [H ->]. rewrite andb_true_r.
  rewrite forallb_forall in H |- *. intros e He. by apply canonical_entry, H.
Qed.

Lemma canonical_of d v : canonical_data d = true → v ∈ map snd (number_entries d) → canonical v = true.
Proof.
  unfold canonical_data. intros H (e & -> & He)%list_elem_of_fmap. apply andb_true_iff in H as [H _]. rewrite forallb_forall in H.
  by apply H, list_elem_of_In.
Qed.

Lemma canonical_price d : canonical_data d = true → canonical (rd_price d) = true.
Proof. intros H. apply (canonical_of d _ H). left. Qed.

Lemma canonical_ratio d f : canonical_data d = true → canonical (get_ratio f (rd_ratios d)) = true.
Proof. intros H. apply (canonical_of d _ H). right. apply list_elem_of_fmap. exists (ratio_key f, get_ratio f (rd_ratios d)). split; [done | ].
  apply list_elem_of_fmap. exists f. split; [done | ]. destruct f; set_solver. Qed.

Lemma ratio_entry_get d f : map_get (ratio_key f) (ratio_entries d) = Some (get_ratio f (rd_ratios d)).
Proof. by destruct f. Qed.

Lemma ratio_key_facts f : ratio_key f ∈ PRICING_KEYS ∧ ratio_key f ≠ PRICE_KEY ∧ ratio_key f ≠ MODE_KEY ∧ ratio_key f ≠ EXPR_KEY.
Proof. apply (bool_decide_unpack _). by destruct f; vm_compute. Qed.

(** The entries of a saved model, field by field. *)
Lemma saved_ratio d f : canonical_data d = true →
  value_text (saved_entry d (ratio_key f)) =
  match rd_billingMode d with
  | TieredExpr => get_ratio f (rd_ratios d)
  | _ => if truthy (rd_price d) then [] else get_ratio f (rd_ratios d)
  end.
Proof.
  intros H. destruct (ratio_key_facts f) as (_ & Hp & Hm & Hx). pose proof (canonical_entry _ (canonical_ratio d f H)) as [Hv _].
  unfold saved_entry, ustring_eqb. rewrite (bool_decide_false (_ = PRICE_KEY)), (bool_decide_false (_ = MODE_KEY)), (bool_decide_false (_ = EXPR_KEY)) by done.
  rewrite !andb_false_r. unfold number_entries. cbn [map_get]. rewrite (bool_decide_false (PRICE_KEY = _)) by congruence.
  rewrite ratio_entry_get. cbn [mbind option_bind]. destruct (rd_billingMode d); [ | | exact Hv]; by destruct (truthy (rd_price d)).
Qed.

Lemma saved_price d : canonical_data d = true → value_text (saved_entry d PRICE_KEY) = rd_price d.
Proof.
  intros H. pose proof (canonical_entry _ (canonical_price d H)) as [Hv _]. unfold saved_entry.
  destruct (rd_billingMode d); [ | | ]; cbn -[number_entry value_text truthy].
  1-2: destruct (rd_price d); [done | exact Hv].
  rewrite !andb_false_r. exact Hv.
Qed.

Lemma saved_snapshot d ts name :
  canonical_data d = true → saveable d → (∀ key, key ∈ PRICING_KEYS → price_at ts key name = saved_entry d key) →
  ∃ s, snapshot_of ts name = Some s ∧ edit_of s = shown_again d name.
Proof.
  intros Hc Hs Hg. assert (Hr : ∀ f, value_text (price_at ts (ratio_key f) name) = match rd_billingMode d with TieredExpr => get_ratio f (rd_ratios d)
      | _ => if truthy (rd_price d) then [] else get_ratio f (rd_ratios d) end).
  { intros f. rewrite Hg by apply ratio_key_facts. by apply saved_ratio. }
  assert (Hp : value_text (price_at ts PRICE_KEY name) = rd_price d) by (rewrite Hg by left; by apply saved_price).
  assert (Hratios : ratios_of ts name = match rd_billingMode d with TieredExpr => rd_ratios d | _ => if truthy (rd_price d) then no_ratios else rd_ratios d end).
  { unfold ratios_of. rewrite !Hr. destruct (rd_ratios d); destruct (rd_billingMode d); try done; by destruct (truthy (rd_price d)). }
  unfold snapshot_of. rewrite Hp, Hratios, !Hg by (apply (bool_decide_unpack _); by vm_compute). unfold saved_entry, shown_again in *.
  pose proof (saveable_split d) as Hsplit. destruct (rd_billingMode d) eqn:Em.
  1-2: assert (Hmode : (if truthy (rd_price d) then if ustring_eqb MODE_KEY PRICE_KEY then number_entry (rd_price d) else None
         else map_get MODE_KEY (ratio_entries d) ≫= number_entry) = None) by (by destruct (truthy (rd_price d)));
    rewrite Hmode; cbn [is_tiered]; eexists; split; [done | ]; unfold edit_of; cbn; by destruct (rd_price d).
  destruct (Hsplit eq_refl Hs) as [Ht Hsp]. rewrite Ht. cbn [andb].
  change (ustring_eqb MODE_KEY MODE_KEY) with true. change (ustring_eqb EXPR_KEY MODE_KEY) with false.
  change (ustring_eqb EXPR_KEY EXPR_KEY) with true. cbn [is_tiered expr_text mbind option_bind].
  change (ustring_eqb (js "tiered_expr") (js "tiered_expr")) with true. cbn iota. rewrite Hsp. by eexists.
Qed.

Lemma saved_named d : canonical_data d = true → saveable d → ∃ key, key ∈ PRICING_KEYS ∧ is_Some (saved_entry d key).
Proof.
  intros Hc Hs. destruct (decide (rd_billingMode d = TieredExpr)) as [Em|Em].
  - destruct (saveable_split d Em Hs) as [Ht _]. exists MODE_KEY. split; [apply (bool_decide_unpack _); by vm_compute | ].
    unfold saved_entry. rewrite Em, Ht. cbn. eauto.
  - assert (Hs' : truthy (rd_price d) || existsb (fun f => truthy (get_ratio f (rd_ratios d))) RATIO_FIELDS = true) by (unfold saveable in Hs; by destruct (rd_billingMode d)).
    clear Hs. destruct (truthy (rd_price d)) eqn:Ep.
    + exists PRICE_KEY. split; [left | ]. unfold saved_entry. rewrite Ep. pose proof (canonical_some _ (canonical_price d Hc) Ep).
      by destruct (rd_billingMode d).
    + cbn [orb] in Hs'. apply existsb_exists in Hs' as (f & _ & Hf). exists (ratio_key f). split; [apply ratio_key_facts | ].
      unfold saved_entry. rewrite Ep, ratio_entry_get. pose proof (canonical_some _ (canonical_ratio d f Hc) Hf).
      by destruct (rd_billingMode d).
Qed.

(** C26: Saving the prices of a model, also copied to other models, and reading the options
    again shows each of these models with the prices that were saved, with a fixed price
    standing alone, and every other model as before.  The texts of the prices are those of
    their numbers, there is a price to save, and an expression is one the visual editors have
    written (prices and rules that they can read, without a guarded condition). *)
Theorem saved_model_is_shown_again options ts rows d names name :
  read_tables options = Some ts → Forall printable_table ts → buildModelSnapshots options = Some rows →
  canonical_data d = true → saveable d → forallb printable_name names = true → name ∈ names →
  ∃ options' rows',
    persistPricingData options d names = Some options' ∧ buildModelSnapshots options' = Some rows' ∧
    edit_of <$> named name rows' = Some (shown_again d name) ∧
    ∀ other, other ∉ names → named other rows' = named other rows.
Proof.
  intros Hts Hp Hrows Hc Hs Hn Hname. pose proof (read_tables_keys _ _ Hts) as Hk.
  set (ts' := fold_left (write_model d) names ts). assert (Hk' : map fst ts' = PRICING_KEYS) by (subst ts'; by rewrite write_models_keys).
  assert (Hp' : Forall printable_table ts') by (apply write_models_printable; [by apply canonical_printable | done | done]).
  assert (Hg : ∀ key m, key ∈ PRICING_KEYS → price_at ts' key m = if bool_decide (m ∈ names) then saved_entry d key else price_at ts key m).
  { intros key m Hkey. by apply write_models_get. }
  assert (Hread : read_tables (options_of ts') = Some ts') by (by apply read_tables_printed).
  assert (Hd : NoDup (map fst ts)) by (rewrite Hk; apply pricing_keys_NoDup).
  assert (Hd' : NoDup (map fst ts')) by (rewrite Hk'; apply pricing_keys_NoDup).
  unfold buildModelSnapshots in Hrows. rewrite Hts in Hrows. cbn [mbind option_bind] in Hrows.
  assert (Hother : ∀ m, m ∉ names → snapshot_of ts' m = snapshot_of ts m ∧ (m ∈ model_names ts' ↔ m ∈ model_names ts)).
  { intros m Hm. assert (He : ∀ key, key ∈ PRICING_KEYS → price_at ts' key m = price_at ts key m).
    { intros key Hkey. rewrite Hg by done. by rewrite bool_decide_false. }
    split; [by apply snapshot_of_ext | ]. rewrite !model_names_spec by done. rewrite Hk, Hk'.
    split; intros (key & Hkey & Hv); exists key; (split; [done | ]); [rewrite <-He | rewrite He]; done. }
  assert (Hmine : ∀ m, m ∈ names → ∃ s, snapshot_of ts' m = Some s ∧ edit_of s = shown_again d m).
  { intros m Hm. apply saved_snapshot; [done | done | ]. intros key Hkey. rewrite Hg by done. by rewrite bool_decide_true. }
  assert (Hall : is_Some (mapM (snapshot_of ts') (model_names ts'))).
  { apply mapM_is_Some_2, Forall_forall. intros m Hm. change (is_Some (snapshot_of ts' m)). destruct (decide (m ∈ names)) as [Hin|Hin].
    - destruct (Hmine m Hin) as (s & -> & _). eauto.
    - destruct (Hother m Hin) as [-> Hmn]. apply Hmn in Hm.
      assert (Hsome : is_Some (mapM (snapshot_of ts) (model_names ts))) by eauto.
      apply mapM_is_Some_1 in Hsome. rewrite Forall_forall in Hsome. by apply Hsome. }
  destruct Hall as [rows' Hrows']. exists (options_of ts'), rows'.
  split; [unfold persistPricingData; by rewrite Hts | ].
  split; [unfold buildModelSnapshots; by rewrite Hread | ]. split.
  - rewrite (named_snapshots ts' _ rows' name (NoDup_uniq _) Hrows'). rewrite bool_decide_true.
    + destruct (Hmine name Hname) as (s & -> & <-). done.
    + apply model_names_spec; [done | ]. rewrite Hk'. destruct (saved_named d Hc Hs) as (key & Hkey & Hv). exists key. split; [done | ].
      rewrite Hg by done. by rewrite bool_decide_true.
  - intros other Ho. rewrite (named_snapshots ts' _ rows' other (NoDup_uniq _) Hrows'), (named_snapshots ts _ rows other (NoDup_uniq _) Hrows).
    destruct (Hother other Ho) as [-> Hmn]. repeat case_bool_decide; tauto.
Qed.

(** C28: The mode is not consulted when a model is saved: where the form still holds a fixed
    price, the prices per token that were entered and shown are not saved, and the model keeps
    its fixed price. *)
Theorem fixed_price_outlives_its_mode e e' :
  editorOpen e = true → pricingMode (panel e) = PerToken → truthy (f_price (form (panel e))) = true →
  commitOpenEditor e = Some (e', true) →
  ∃ ts, draftOptions e' = options_of ts ∧
    (∀ f, price_at ts (ratio_key f) (trim (f_name (form (panel e)))) = None) ∧
    price_at ts PRICE_KEY (trim (f_name (form (panel e)))) = number_entry (f_price (form (panel e))).
Proof.
  intros Ho Hm Hp H. unfold commitOpenEditor in H. rewrite Ho in H. cbn [negb] in H. destruct (commitDraft (panel e)) as [d|] eqn:Ed; [ | done].
  unfold commitDraft in Ed. destruct (negb (truthy (f_name _))); [done | ]. destruct (validatePricingValues _); [done | ]. injection Ed as <-.
  unfold persistPricingData in H. destruct (read_tables (draftOptions e)) as [ts|] eqn:Et; [ | done]. cbn [mbind option_bind] in H. injection H as <-.
  pose proof (read_tables_keys _ _ Et) as Hk. eexists. split; [reflexivity | ]. cbn [fold_left rd_name buildSubmitData].
  assert (Hs : ∀ key, saved_entry (buildSubmitData (panel e)) key = if ustring_eqb key PRICE_KEY then number_entry (f_price (form (panel e))) else None).
  { intros key. unfold saved_entry. cbn [rd_billingMode rd_price buildSubmitData]. by rewrite Hm, Hp. }
  split.
  - intros f. destruct (ratio_key_facts f) as (Hkey & Hne & _). rewrite write_model_get by done. rewrite bool_decide_true by done.
    rewrite Hs. unfold ustring_eqb. by rewrite bool_decide_false.
  - rewrite write_model_get by (first [done | left]). by rewrite bool_decide_true, Hs.
Qed.

(** ** Rows *)

Definition plain_snapshot (s : ModelPricingSnapshot) : bool :=
  forallb (forallb is_code_unit) (s_price s :: map (fun f => get_ratio f (s_ratios s)) RATIO_FIELDS ++ [s_billingExpr s; s_requestRuleExpr s]).

Lemma signature_printable s : plain_snapshot s = true → printable (signature_json s) = true.
Proof.
  unfold plain_snapshot. cbn [map app forallb RATIO_FIELDS get_ratio]. rewrite !andb_true_iff. intros H. decompose [and] H.
  unfold signature_json. apply printable_object. split; [ | split].
  - apply Forall_forall. repeat constructor.
  - apply (bool_decide_unpack _). by vm_compute.
  - apply Forall_forall. repeat (constructor; [cbn [snd printable]; try done; by destruct (s_billingMode s) | ]). constructor.
Qed.

(** A row whose saved and drafted prices both exist is marked as changed exactly where a
    price, a ratio, the mode, the expression or the rules differ. *)
Theorem changed_rows_differ savedRows draftRows name a b :
  named name savedRows = Some a → named name draftRows = Some b → plain_snapshot a = true → plain_snapshot b = true →
  pr_isDraftChanged (pricing_row savedRows draftRows name) = false ↔
  s_price a = s_price b ∧ s_ratios a = s_ratios b ∧ s_billingMode a = s_billingMode b ∧
  s_billingExpr a = s_billingExpr b ∧ s_requestRuleExpr a = s_requestRuleExpr b.
Proof.
  intros Ha Hb Pa Pb. unfold pricing_row. rewrite Ha, Hb. cbn [pr_isDraftChanged getSnapshotSignature]. unfold ustring_eqb.
  rewrite negb_false_iff, bool_decide_eq_true. split.
  - intros H. apply (f_equal JSON_parse) in H. rewrite !JSON_round_trip in H by (by apply signature_printable). injection H.
    destruct a as [na pa [] ma xa ra ca], b as [nb pb [] mb xb rb cb]. cbn in *. intros. subst. repeat split. by destruct ma, mb.
  - intros (E1 & E2 & E3 & E4 & E5). unfold signature_json. by rewrite E1, E2, E3, E4, E5.
Qed.

(** ** Examples *)

Definition cent : json := JNumber (Number (js "0.01")).

Definition priced_tables : ParsedRatios := map (fun key => (key, if ustring_eqb key PRICE_KEY then [(js "gpt", cent)] else [])) PRICING_KEYS.
Definition priced_options : Options := options_of priced_tables.
Definition priced_model : ModelRatioData := mkData (js "gpt") (js "0.01") no_ratios PerRequest [] [].

(** A model with a fixed price, switched to prices per token, with an input price of 3 dollars. *)
Definition switched : PricingEditor :=
  mkEditor priced_options (Some priced_model) true []
    (fold_left apply_event [EvMode PerToken; EvPrompt (js "3")] (show_model (Some priced_model) initial_panel)).

Definition token_model : ModelRatioData :=
  mkData (js "claude") [] (mkRatios (js "1.5") (js "0.1") [] (js "5") [] [] []) PerToken [] [].

Lemma saved_ratios_follow_the_prices_witness :
  let p := fold_left apply_event [EvName (js "gpt"); EvLaneToggle LCompletion true; EvLanePrice LCompletion (js "15"); EvPrompt (js "3")]
             (show_model None initial_panel) in
  ∃ d, commitDraft p = Some d ∧ ratio (rd_ratios d) = js "1.5" ∧ completionRatio (rd_ratios d) = js "5".
Proof.
  set (events := [EvName (js "gpt"); EvLaneToggle LCompletion true; EvLanePrice LCompletion (js "15"); EvPrompt (js "3")]).
  set (p := fold_left apply_event events (show_model None initial_panel)).
  destruct (commitDraft p) as [d|] eqn:E; [ | vm_compute in E; discriminate E].
  destruct (saved_ratios_follow_the_prices initial_panel initial_panel [] events (show_model None initial_panel)
              (or_introl eq_refl) d E) as (_ & Hr & Hl).
  exists d. split; [exact E | ]. split.
  - etransitivity; [exact Hr | vm_compute; reflexivity].
  - etransitivity; [exact (Hl LCompletion) | vm_compute; reflexivity].
Defined.

(** A model with tiers and a rule. *)
Definition tiered_model : ModelRatioData :=
  mkData (js "tiered") [] no_ratios TieredExpr (generateExprFromVisualConfig (Some readable_sample)) (buildRequestRuleExpr [night_rule]).

Lemma tiered_saveable : saveable tiered_model.
Proof. exists readable_sample, [night_rule]. split; [reflexivity | ]. split; [reflexivity | ]. split; [ | split]; vm_compute; reflexivity. Defined.

Lemma priced_printable : Forall printable_table priced_tables.
Proof. repeat (constructor; [vm_compute; reflexivity | ]). constructor. Defined.

Lemma saved_model_is_shown_again_witness :
  (∃ options' rows',
    persistPricingData priced_options token_model [js "claude"; js "opus"] = Some options' ∧ buildModelSnapshots options' = Some rows' ∧
    edit_of <$> named (js "opus") rows' = Some (mkData (js "opus") [] (rd_ratios token_model) PerToken [] [])) ∧
  (∃ options' rows',
    persistPricingData priced_options tiered_model [js "tiered"] = Some options' ∧ buildModelSnapshots options' = Some rows' ∧
    edit_of <$> named (js "tiered") rows' = Some tiered_model).
Proof.
  destruct (buildModelSnapshots priced_options) as [rows|] eqn:E; [ | vm_compute in E; discriminate E]. split.
  - destruct (saved_model_is_shown_again priced_options priced_tables rows token_model [js "claude"; js "opus"] (js "opus"))
      as (o & r & H1 & H2 & H3 & _);
      [vm_compute; reflexivity | exact priced_printable | exact E | vm_compute; reflexivity | vm_compute; reflexivity
      | vm_compute; reflexivity | right; left | ].
    exists o, r. split; [exact H1 | ]. split; [exact H2 | exact H3].
  - destruct (saved_model_is_shown_again priced_options priced_tables rows tiered_model [js "tiered"] (js "tiered"))
      as (o & r & H1 & H2 & H3 & _);
      [vm_compute; reflexivity | exact priced_printable | exact E | vm_compute; reflexivity | exact tiered_saveable
      | vm_compute; reflexivity | left | ].
    exists o, r. split; [exact H1 | ]. split; [exact H2 | exact H3].
Defined.

Lemma fixed_price_outlives_its_mode_witness : ∃ e' ts,
  commitOpenEditor switched = Some (e', true) ∧ draftOptions e' = options_of ts ∧
  price_at ts (js "ModelRatio") (js "gpt") = None ∧ price_at ts PRICE_KEY (js "gpt") = Some cent.
Proof.
  destruct (commitOpenEditor switched) as [[e' [] ]|] eqn:E; [ | vm_compute in E; discriminate E | vm_compute in E; discriminate E].
  destruct (fixed_price_outlives_its_mode switched e' eq_refl eq_refl eq_refl E) as (ts & H1 & H2 & H3).
  exists e', ts. split; [exact eq_refl | ]. split; [exact H1 | ]. split; [exact (H2 FRatio) | ].
  etransitivity; [exact H3 | vm_compute; reflexivity].
Defined.

(** With an input price of zero the preview shows a price for the output, which is not saved. *)
Example zero_input_price_drops_lanes :
  let p := fold_left apply_event [EvName (js "gpt"); EvPrompt (js "0"); EvLaneToggle LCompletion true; EvLanePrice LCompletion (js "5")]
             (show_model None initial_panel) in
  map pv_value (take 2 (buildPreviewRows p)) = [js "$0"; js "$5"] ∧
  completionRatio <$> (rd_ratios <$> commitDraft p) = Some [].
Proof. vm_compute. done. Qed.

(** A name of blanks passes the check and is saved as the empty name. *)
Example blank_name_is_saved_empty :
  rd_name <$> commitDraft (fold_left apply_event [EvName (js "  "); EvPrompt (js "1")] (show_model None initial_panel)) = Some [].
Proof. vm_compute. reflexivity. Qed.

(** A model without an input ratio is opened: its output ratio has no price, is on, and is saved as it was. *)
Example opened_model_keeps_its_ratios :
  let d := mkData (js "gpt") [] (mkRatios [] [] [] (js "5") [] [] []) PerToken [] [] in
  let p := show_model (Some d) initial_panel in
  commitDraft p = Some d ∧ lane_ratio (promptPrice p) (lanePrices p) (laneEnabled p) LCompletion = [].
Proof. vm_compute. done. Qed.
