(* ===== verification/SecureVerification.v ===== *)
(** * Confirming sensitive operations

    features/auth/secure-verification/ (protocol.ts, api.ts, the hook
    use-secure-verification.ts and the checks of the dialog) and lib/secure-verification.ts: a
    sensitive operation is repeated with a proof that the user has just verified with a
    password, a code or a passkey.  The hook is a machine: a verification is a job that waits
    for the answer to its request and then for its operation, while the user goes on using the
    dialog.  The server, the authenticator and the conversions of passkey data are arguments;
    texts are their English keys.

    Under any interleaving of the user, the answers of the server and the ends of operations:
    an operation is run with a proof only after it was started, with a proof that was asked
    for its own scope and target, by a method it allows.  Cancelling does not stop a
    verification under way, and the end of an operation closes whatever dialog is open. *)

From Stdlib Require Import ZArith.
From stdpp Require Import base numbers strings option sets list relations.
From S2P Require Import Prelude.

(** ** protocol.ts and types.ts *)

Inductive VerificationMethod := MPassword | MTwoFA | MPasskey.

#[export] Instance VerificationMethod_eq_dec : EqDecision VerificationMethod.
Proof. solve_decision. Defined.

Definition method_name (m : VerificationMethod) : ustring := match m with MPassword => js "password" | MTwoFA => js "2fa" | MPasskey => js "passkey" end.

Inductive SecurityProofScope :=
| ChannelKeyRead | PasskeyRegister | PasskeyDelete | EmailChange | TwofaSetup | ExternalBind | ExternalUnbind | PatRotate
| AccountDelete | TokenKeyRotate | AdminBindingClear | AdminTwofaDisable | AdminPasskeyReset.

#[export] Instance SecurityProofScope_eq_dec : EqDecision SecurityProofScope.
Proof. solve_decision. Defined.

Record SecurityProof := mkProof { proof_token : ustring; expires_at : Z; proof_method : VerificationMethod; proof_scope : SecurityProofScope; proof_target : ustring }.

Record VerificationMethods := mkMethods { hasPassword : bool; has2FA : bool; hasPasskey : bool; passkeySupported : bool }.

Definition defaultMethods : VerificationMethods := mkMethods false false false false.

Record SecurityVerificationRequest := mkRequest {
  rq_method : VerificationMethod; rq_scope : SecurityProofScope; rq_target : ustring; rq_code : option ustring; rq_password : option ustring }.

Definition buildSecurityVerificationRequest (method : VerificationMethod) (scope : SecurityProofScope) (target : ustring)
    (credential : option ustring) : SecurityVerificationRequest :=
  match method with
  | MTwoFA => mkRequest method scope target (Some (default [] (trim <$> credential))) None
  | MPassword => mkRequest method scope target None (Some (default [] credential))
  | MPasskey => mkRequest method scope target None None
  end.

Definition ALL_METHODS : list VerificationMethod := [MPassword; MTwoFA; MPasskey].

Definition availableSecurityVerificationMethods (methods : VerificationMethods) (allowedMethods : option (list VerificationMethod))
    : list VerificationMethod :=
  let allowed := default ALL_METHODS allowedMethods in
  (if bool_decide (MPassword ∈ allowed) && hasPassword methods then [MPassword] else []) ++
  (if bool_decide (MTwoFA ∈ allowed) && has2FA methods then [MTwoFA] else []) ++
  (if bool_decide (MPasskey ∈ allowed) && hasPasskey methods && passkeySupported methods then [MPasskey] else []).

Definition selectSecurityVerificationMethod (methods : VerificationMethods) (preferredMethod : option VerificationMethod)
    (allowedMethods : option (list VerificationMethod)) : option VerificationMethod :=
  let available := availableSecurityVerificationMethods methods allowedMethods in
  let first_of (l : list VerificationMethod) := head (filter (fun m => m ∈ available) l) in
  match preferredMethod with
  | Some p => if bool_decide (p ∈ available) then Some p else first_of [MPasskey; MTwoFA; MPassword]
  | None => first_of [MPasskey; MTwoFA; MPassword]
  end.

(** ** api.ts *)

(** What is thrown: an [Error], a [DOMException] with its name, or anything else. *)
Inductive failure := FError (message : ustring) | FDom (name message : ustring) | FOther.

Definition failure_message (f : failure) : ustring :=
  match f with FError m => m | FDom _ m => m | FOther => js "Verification failed" end.

Inductive reply (A : Type) := RThrow (f : failure) | RData (a : A).
Arguments RThrow {A} _.
Arguments RData {A} _.

(** The answer to a verification: whether it succeeded, its message and the proof. *)
Record ProofAnswer := mkProofAnswer { pa_success : bool; pa_message : ustring; pa_proof : option SecurityProof }.

(** [twoFAResponse] and [passkeyResponse], with the absent fields as [false]. *)
Record StatusAnswer := mkStatus { st_success : bool; st_enabled : bool; st_has_password : bool }.

Definition checkVerificationMethods (twoFA passkey : reply StatusAnswer) (supported : reply bool) : VerificationMethods :=
  match twoFA, passkey, supported with
  | RData t, RData p, RData s =>
      mkMethods (st_success t && st_has_password t) (st_success t && st_enabled t) (st_success p && st_enabled p) s
  | _, _, _ => defaultMethods
  end.

Definition proof_of (failed : ustring) (a : ProofAnswer) : result failure SecurityProof :=
  if negb (pa_success a) then Err (FError (if truthy (pa_message a) then pa_message a else failed))
  else match pa_proof a with
       | Some p => if truthy (proof_token p) then Ok p else Err (FError (js "Verification proof was not returned"))
       | None => Err (FError (js "Verification proof was not returned"))
       end.

(** What a verification waits for once it has started. *)
Inductive Waiting := WaitPost (r : SecurityVerificationRequest) | WaitPasskey (scope : SecurityProofScope) (target : ustring).

(** [verify] up to its first request. *)
Definition verify_start (method : VerificationMethod) (scope : SecurityProofScope) (target : ustring) (credential : option ustring)
    : result failure Waiting :=
  match method with
  | MPassword =>
      match credential with
      | Some (c :: p) => Ok (WaitPost (buildSecurityVerificationRequest MPassword scope target (Some (c :: p))))
      | _ => Err (FError (js "Please enter your password"))
      end
  | MTwoFA =>
      let trimmed := default [] (trim <$> credential) in
      if truthy trimmed then Ok (WaitPost (buildSecurityVerificationRequest MTwoFA scope target (Some trimmed)))
      else Err (FError (js "Please enter the verification code or backup code"))
  | MPasskey => Ok (WaitPasskey scope target)
  end.

Definition wait_scope (w : Waiting) : SecurityProofScope := match w with WaitPost r => rq_scope r | WaitPasskey s _ => s end.
Definition wait_target (w : Waiting) : ustring := match w with WaitPost r => rq_target r | WaitPasskey _ t => t end.
Definition wait_method (w : Waiting) : VerificationMethod := match w with WaitPost r => rq_method r | WaitPasskey _ _ => MPasskey end.

(** The end of [verifyTwoFA] and of [verifyPassword]. *)
Definition verify_posted (answer : reply ProofAnswer) : result failure SecurityProof :=
  match answer with RThrow f => Err f | RData a => proof_of (js "Verification failed") a end.

(** The answers on the way of [verifyPasskey]: the options of the server with the token of the flow, the credential of
    the authenticator, its assertion, and the last answer of the server. *)
Record PasskeyAnswers := mkPasskey {
  pk_supported : bool; pk_begin : reply (bool * ustring * ustring); pk_prepared : reply unit; pk_credential : reply bool;
  pk_assertion : reply bool; pk_finish : reply ProofAnswer }.

Definition passkey_steps (a : PasskeyAnswers) : result failure SecurityProof :=
  match pk_begin a with
  | RThrow f => Err f
  | RData (success, message, flowToken) =>
      if negb success then Err (FError (if truthy message then message else js "Failed to start verification"))
      else
        match pk_prepared a with
        | RThrow f => Err f
        | RData _ =>
            if negb (truthy flowToken) then Err (FError (js "Verification flow expired"))
            else
              match pk_credential a with
              | RThrow f => Err f
              | RData false => Err (FError (js "Passkey verification was cancelled"))
              | RData true =>
                  match pk_assertion a with
                  | RThrow f => Err f
                  | RData false => Err (FError (js "Unable to build Passkey assertion"))
                  | RData true =>
                      match pk_finish a with
                      | RThrow f => Err f
                      | RData answer => proof_of (js "Passkey verification failed") answer
                      end
                  end
              end
        end
  end.

Definition verifyPasskey (a : PasskeyAnswers) : result failure SecurityProof :=
  if negb (pk_supported a) then Err (FError (js "Passkey verification is not supported in this environment"))
  else
    match passkey_steps a with
    | Err (FDom name m) =>
        if ustring_eqb name (js "NotAllowedError") then Err (FError (js "Passkey verification was cancelled or timed out"))
        else if ustring_eqb name (js "InvalidStateError") then Err (FError (js "Passkey verification is not available in the current state"))
        else Err (FDom name m)
    | other => other
    end.

(** ** lib/secure-verification.ts *)

(** The status and the code of the answer an error carries, if it carries one. *)
Record AxiosAnswer := mkAxios { ax_status : Z; ax_code : option ustring; ax_message : option ustring }.

Definition VERIFICATION_CODES : list ustring :=
  map js ["VERIFICATION_REQUIRED"; "VERIFICATION_EXPIRED"; "VERIFICATION_INVALID"; "SECURITY_PROOF_REQUIRED"; "SECURITY_PROOF_EXPIRED";
          "SECURITY_PROOF_INVALID"; "SECURITY_PROOF_SCOPE_MISMATCH"; "SECURITY_PROOF_TARGET_MISMATCH"; "SECURITY_PROOF_METHOD_MISMATCH";
          "SECURITY_PROOF_CONSUMED"]%string.

Definition isVerificationRequiredError (error : option AxiosAnswer) : bool :=
  match error with
  | Some a => (ax_status a =? 403)%Z && match ax_code a with Some c => bool_decide (c ∈ VERIFICATION_CODES) | None => false end
  | None => false
  end.

Record VerificationRequiredInfo := mkInfo { info_code : option ustring; info_message : ustring; info_required : bool }.

Definition extractVerificationInfo (error : option AxiosAnswer) : VerificationRequiredInfo :=
  mkInfo (error ≫= ax_code) (default (js "Secure verification is required") (error ≫= ax_message)) true.

(** ** The hook *)

Record StartVerificationOptions := mkStart {
  c_scope : SecurityProofScope; c_target : ustring; c_allowedMethods : option (list VerificationMethod);
  c_preferredMethod : option VerificationMethod; c_title : option ustring; c_description : option ustring }.

(** An operation of the page is known by its number. *)
Record InternalState := mkInternal {
  v_method : option VerificationMethod; v_scope : option SecurityProofScope; v_target : option ustring;
  v_allowedMethods : option (list VerificationMethod); v_loading : bool; v_code : ustring;
  v_title : option ustring; v_description : option ustring; v_apiCall : option nat }.

Definition initialState : InternalState := mkInternal None None None None false [] None None None.

Definition set_loading (b : bool) (s : InternalState) : InternalState :=
  mkInternal (v_method s) (v_scope s) (v_target s) (v_allowedMethods s) b (v_code s) (v_title s) (v_description s) (v_apiCall s).

(** A verification under way: what it waits for, or that its operation runs. *)
Inductive Stage := Verifying (w : Waiting) | Running.

Record Job := mkJob { j_id : nat; j_op : nat; j_method : VerificationMethod; j_stage : Stage }.

(** What the hook does, in order. *)
Inductive Effect :=
| Started (op : nat) (config : StartVerificationOptions)
| Asked (id : nat) (w : Waiting)
| Proved (id : nat) (token : ustring)
| Ran (op : nat) (token : option ustring)
| Succeeded (op : nat) (method : VerificationMethod)
| Failed (f : failure)
| Toast (text : ustring).

Record Hook := mkHook { methods : VerificationMethods; state : InternalState; opened : bool; jobs : list Job; next_job : nat; effects : list Effect }.

Definition initial_hook : Hook := mkHook defaultMethods initialState false [] 0 [].

Definition with_state (f : InternalState → InternalState) (h : Hook) : Hook :=
  mkHook (methods h) (f (state h)) (opened h) (jobs h) (next_job h) (effects h).

Definition emit (es : list Effect) (h : Hook) : Hook := mkHook (methods h) (state h) (opened h) (jobs h) (next_job h) (effects h ++ es).

Definition reset (h : Hook) : Hook := mkHook (methods h) initialState false (jobs h) (next_job h) (effects h).

Definition fetchVerificationMethods (m : VerificationMethods) (h : Hook) : Hook :=
  mkHook m (state h) (opened h) (jobs h) (next_job h) (effects h).

(** After the methods have been fetched. *)
Definition startVerification (op : nat) (config : StartVerificationOptions) (m : VerificationMethods) (h : Hook) : Hook :=
  let h := fetchVerificationMethods m h in
  match selectSecurityVerificationMethod m (c_preferredMethod config) (c_allowedMethods config) with
  | None =>
      emit [Toast (default (js "Add a password or enable Two-factor Authentication or Passkey before proceeding") (c_description config));
            Failed (FError (default (js "No verification methods available. Add a password, 2FA, or Passkey to continue.") (c_description config)))] h
  | Some method =>
      let s := state h in
      emit [Started op config]
        (mkHook (methods h)
           (mkInternal (Some method) (Some (c_scope config)) (Some (c_target config)) (c_allowedMethods config) (v_loading s) (v_code s)
              (c_title config) (c_description config) (Some op))
           true (jobs h) (next_job h) (effects h))
  end.

(** The [catch] and the [finally] of a verification. *)
Definition fail (f : failure) (h : Hook) : Hook := with_state (set_loading false) (emit [Toast (failure_message f); Failed f] h).

Definition executeVerification (method : option VerificationMethod) (code : option ustring) (h : Hook) : Hook :=
  let s := state h in
  match v_apiCall s with
  | None => emit [Toast (js "Verification is not configured properly")] h
  | Some op =>
      match (match method with Some m => Some m | None => v_method s end) with
      | None => emit [Toast (js "Select a verification method first")] h
      | Some actualMethod =>
          let h := with_state (set_loading true) h in
          match v_scope s, v_target s with
          | None, _ => fail (FError (js "Verification scope is missing")) h
          | _, None => fail (FError (js "Verification is not configured properly")) h
          | Some scope, Some target =>
              if bool_decide (actualMethod ∈ availableSecurityVerificationMethods (methods h) (v_allowedMethods s))
              then
                match verify_start actualMethod scope target (Some (default (v_code s) code)) with
                | Err f => fail f h
                | Ok w =>
                    emit [Asked (next_job h) w]
                      (mkHook (methods h) (state h) (opened h) (jobs h ++ [mkJob (next_job h) op actualMethod (Verifying w)]) (S (next_job h)) (effects h))
                end
              else fail (FError (js "Unsupported verification method: " ++ method_name actualMethod)) h
          end
      end
  end.

Definition find_job (id : nat) (h : Hook) : option Job := head (filter (fun j => j_id j = id) (jobs h)).

Definition with_jobs (js' : list Job) (h : Hook) : Hook := mkHook (methods h) (state h) (opened h) js' (next_job h) (effects h).

Definition drop_job (id : nat) (h : Hook) : Hook := with_jobs (filter (fun j => j_id j ≠ id) (jobs h)) h.

Definition job_running (id : nat) (j : Job) : Job := if j_id j =? id then mkJob (j_id j) (j_op j) (j_method j) Running else j.

(** The answers a verification has waited for. *)
Inductive Answers := APosted (answer : reply ProofAnswer) | APasskey (answers : PasskeyAnswers).

(** [verify] after its first request, where the answers are the ones it waits for. *)
Definition verify_end (w : Waiting) (a : Answers) : option (result failure SecurityProof) :=
  match w, a with
  | WaitPost _, APosted answer => Some (verify_posted answer)
  | WaitPasskey _ _, APasskey answers => Some (verifyPasskey answers)
  | _, _ => None
  end.

(** A verification goes on with its answers: it fails, or its operation is run with the proof. *)
Definition verification_answered (id : nat) (a : Answers) (h : Hook) : Hook :=
  match find_job id h with
  | Some (mkJob _ op _ (Verifying w)) =>
      match verify_end w a with
      | None => h
      | Some (Err f) => fail f (drop_job id h)
      | Some (Ok proof) => emit [Proved id (proof_token proof); Ran op (Some (proof_token proof))] (with_jobs (map (job_running id) (jobs h)) h)
      end
  | _ => h
  end.

Section options.
  Context (successMessage : option ustring) (autoReset : bool).

(** The end of the operation that was run with a proof. *)
Definition operation_answered (id : nat) (r : result failure unit) (h : Hook) : Hook :=
  match find_job id h with
  | Some (mkJob _ op method Running) =>
      let h := drop_job id h in
      match r with
      | Err f => fail f h
      | Ok _ =>
          let h := emit ((match successMessage with Some (c :: m) => [Toast (c :: m)] | _ => [] end) ++ [Succeeded op method]) h in
          with_state (set_loading false) (if autoReset then reset h else h)
      end
  | _ => h
  end.

(** [withVerification] tries the operation without a proof; [required] where the answer asks for one, after which
    [startVerification] follows. *)
Definition withVerification (op : nat) (outcome : result (option AxiosAnswer) unit) (h : Hook) : Hook :=
  let h := emit [Ran op None] h in
  match outcome with
  | Err e => if isVerificationRequiredError e then emit [Toast (info_message (extractVerificationInfo e))] h else h
  | Ok _ => h
  end.

Definition setCode (code : ustring) (h : Hook) : Hook :=
  with_state (fun s => mkInternal (v_method s) (v_scope s) (v_target s) (v_allowedMethods s) (v_loading s) code (v_title s) (v_description s) (v_apiCall s)) h.

Definition switchMethod (method : VerificationMethod) (h : Hook) : Hook :=
  with_state (fun s => mkInternal (Some method) (v_scope s) (v_target s) (v_allowedMethods s) (v_loading s) [] (v_title s) (v_description s) (v_apiCall s)) h.

Definition cancel (h : Hook) : Hook := reset h.

Definition canUseMethod (method : VerificationMethod) (m : VerificationMethods) : bool :=
  match method with MPassword => hasPassword m | MTwoFA => has2FA m | MPasskey => hasPasskey m && passkeySupported m end.

(** ** The dialog *)

Definition activeMethod (h : Hook) : option VerificationMethod :=
  match v_method (state h) with
  | Some m => Some m
  | None => head (availableSecurityVerificationMethods (methods h) (v_allowedMethods (state h)))
  end.

Definition verifyDisabled (h : Hook) : bool :=
  let s := state h in
  v_loading s ||
  match activeMethod h with
  | Some MTwoFA => negb (truthy (trim (v_code s))) || (length (v_code s) <? 6)
  | Some MPassword => negb (truthy (v_code s))
  | _ => false
  end.

Definition handleVerify (h : Hook) : Hook :=
  match activeMethod h with
  | None => h
  | Some m => executeVerification (Some m) (match m with MPasskey => None | _ => Some (v_code (state h)) end) h
  end.

(** ** Everything that can happen *)

Inductive Event :=
| EFetched (m : VerificationMethods)
| ETried (op : nat) (outcome : result (option AxiosAnswer) unit)
| EStarted (op : nat) (config : StartVerificationOptions) (m : VerificationMethods)
| EVerify
| EExecute (method : option VerificationMethod) (code : option ustring)
| EVerified (id : nat) (a : Answers)
| EOperated (id : nat) (r : result failure unit)
| ECode (code : ustring)
| ESwitch (method : VerificationMethod)
| ECancel.

Definition handle (h : Hook) (e : Event) : Hook :=
  match e with
  | EFetched m => fetchVerificationMethods m h
  | ETried op outcome => withVerification op outcome h
  | EStarted op config m => startVerification op config m h
  | EVerify => handleVerify h
  | EExecute method code => executeVerification method code h
  | EVerified id a => verification_answered id a h
  | EOperated id r => operation_answered id r h
  | ECode code => setCode code h
  | ESwitch m => switchMethod m h
  | ECancel => cancel h
  end.

Definition run (events : list Event) : Hook := fold_left handle events initial_hook.
End options.

(** ** Choosing a method *)

Lemma available_spec methods allowed m :
  m ∈ availableSecurityVerificationMethods methods allowed ↔ m ∈ default ALL_METHODS allowed ∧ canUseMethod m methods = true.
Proof.
  unfold availableSecurityVerificationMethods. rewrite !elem_of_app.
  assert (Hif : ∀ (b : bool) (x : VerificationMethod), m ∈ (if b then [x] else []) ↔ b = true ∧ m = x).
  { intros [] x; rewrite ?list_elem_of_singleton, ?elem_of_nil; naive_solver. }
  rewrite !Hif, !andb_true_iff, !bool_decide_eq_true. destruct m; cbn [canUseMethod]; rewrite ?andb_true_iff; naive_solver.
Qed.

(** A method is chosen exactly where one is allowed and usable; it is such a method, and the preferred one if that is. *)
Theorem selected_method_is_usable methods preferred allowed :
  match selectSecurityVerificationMethod methods preferred allowed with
  | Some m => (m ∈ default ALL_METHODS allowed ∧ canUseMethod m methods = true) ∧
              (∀ p, preferred = Some p → p ∈ availableSecurityVerificationMethods methods allowed → m = p)
  | None => ∀ m, m ∈ default ALL_METHODS allowed → canUseMethod m methods = false
  end.
Proof.
  unfold selectSecurityVerificationMethod. set (available := availableSecurityVerificationMethods methods allowed).
  assert (Hfirst : match head (filter (fun m => m ∈ available) [MPasskey; MTwoFA; MPassword]) with
    | Some m => m ∈ available | None => ∀ m, m ∉ available end).
  { destruct (filter _ _) as [|m l] eqn:E; cbn.
    - intros m Hm. apply (elem_of_nil m). rewrite <-E. apply list_elem_of_filter. split; [done | ]. destruct m; set_solver.
    - assert (Hin : m ∈ filter (fun m => m ∈ available) [MPasskey; MTwoFA; MPassword]) by (rewrite E; left).
      by apply list_elem_of_filter in Hin as [? _]. }
  assert (Hnone : (∀ m, m ∉ available) → ∀ m, m ∈ default ALL_METHODS allowed → canUseMethod m methods = false).
  { intros H m Hm. destruct (canUseMethod m methods) eqn:Em; [ | done]. exfalso. apply (H m). by apply available_spec. }
  destruct preferred as [p|]; [case_bool_decide as Hp | ].
  - split; [by apply available_spec | ]. by intros p' [= ->].
  - destruct (head _) as [m|]; [ | by apply Hnone]. split; [by apply available_spec | ]. by intros p' [= <-].
  - destruct (head _) as [m|]; [ | by apply Hnone]. split; [by apply available_spec | done].
Qed.

(** ** The proofs of operations *)

(** The request [w] is for an operation that was started. *)
Definition justified (es : list Effect) (op : nat) (id : nat) (w : Waiting) : Prop :=
  ∃ config, Started op config ∈ es ∧ Asked id w ∈ es ∧ wait_scope w = c_scope config ∧ wait_target w = c_target config ∧
    wait_method w ∈ default ALL_METHODS (c_allowedMethods config).

Record hook_ok (h : Hook) : Prop := {
  ok_state : ∀ op, v_apiCall (state h) = Some op → ∃ config, Started op config ∈ effects h ∧
    v_scope (state h) = Some (c_scope config) ∧ v_target (state h) = Some (c_target config) ∧ v_allowedMethods (state h) = c_allowedMethods config;
  ok_jobs : ∀ j w, j ∈ jobs h → j_stage j = Verifying w → justified (effects h) (j_op j) (j_id j) w;
  ok_ran : ∀ op token, Ran op (Some token) ∈ effects h → ∃ id w, justified (effects h) op id w ∧ Proved id token ∈ effects h }.

Lemma justified_app es es' op id w : justified es op id w → justified (es ++ es') op id w.
Proof. intros (c & H1 & H2 & H3). exists c. rewrite !elem_of_app. tauto. Qed.

(** A change of the session that keeps the operation's data, or ends it. *)
Lemma with_state_ok f h :
  hook_ok h →
  (v_apiCall (f (state h)) = v_apiCall (state h) ∧ v_scope (f (state h)) = v_scope (state h) ∧ v_target (f (state h)) = v_target (state h) ∧
   v_allowedMethods (f (state h)) = v_allowedMethods (state h)) → hook_ok (with_state f h).
Proof. intros [Hs Hj Hr] (E1 & E2 & E3 & E4). split; cbn; [ | done | done]. rewrite E1, E2, E3, E4. exact Hs. Qed.

(** Effects that run no operation with a proof. *)
Definition quiet (e : Effect) : Prop := match e with Ran _ (Some _) => False | _ => True end.

Lemma emit_ok es h : Forall quiet es → hook_ok h → hook_ok (emit es h).
Proof.
  intros Hq [Hs Hj Hr]. split; cbn.
  - intros op Hop. destruct (Hs op Hop) as (c & Hc & ?). exists c. rewrite elem_of_app. tauto.
  - intros j w Hin Hst. by apply justified_app, Hj.
  - intros op token [Hin|Hin]%elem_of_app.
    + destruct (Hr op token Hin) as (id & w & H1 & H2). exists id, w. split; [by apply justified_app | ]. rewrite elem_of_app. tauto.
    + rewrite Forall_forall in Hq. by apply Hq in Hin.
Qed.

Lemma with_jobs_ok l h : hook_ok h → (∀ j w, j ∈ l → j_stage j = Verifying w → j ∈ jobs h) → hook_ok (with_jobs l h).
Proof. intros [Hs Hj Hr] Hl. split; cbn; [done | | done]. intros j w Hin Hst. by apply Hj; [eapply Hl | ]. Qed.

Lemma drop_job_ok id h : hook_ok h → hook_ok (drop_job id h).
Proof. intros H. apply with_jobs_ok; [done | ]. intros j w Hin _. by apply list_elem_of_filter in Hin as [_ ?]. Qed.

Lemma reset_ok h : hook_ok h → hook_ok (reset h).
Proof. intros [Hs Hj Hr]. by split. Qed.

Lemma fetched_ok m h : hook_ok h → hook_ok (fetchVerificationMethods m h).
Proof. intros [Hs Hj Hr]. by split. Qed.

Lemma fail_ok f h : hook_ok h → hook_ok (fail f h).
Proof. intros H. apply with_state_ok; [ | done]. apply emit_ok; [by repeat constructor | done]. Qed.

Lemma find_job_in id h j : find_job id h = Some j → j ∈ jobs h ∧ j_id j = id.
Proof.
  unfold find_job. destruct (filter _ _) as [|x l] eqn:E; [done | ]. intros [= <-].
  assert (Hin : x ∈ filter (fun j => j_id j = id) (jobs h)) by (rewrite E; left).
  by apply list_elem_of_filter in Hin as [? ?].
Qed.

Lemma running_found id l op method w :
  head (filter (fun j => j_id j = id) l) = Some (mkJob id op method (Verifying w)) →
  head (filter (fun j => j_id j = id) (map (job_running id) l)) = Some (mkJob id op method Running).
Proof.
  induction l as [|j l IH]; [done | ]. cbn [map]. rewrite !filter_cons.
  assert (Hid : j_id (job_running id j) = j_id j) by (unfold job_running; by destruct (j_id j =? id)). rewrite Hid.
  destruct (decide (j_id j = id)) as [E|E]; [ | done]. cbn. intros [= ->]. unfold job_running. cbn. by rewrite Nat.eqb_refl.
Qed.

Lemma start_ok op config m h : hook_ok h → hook_ok (startVerification op config m h).
Proof.
  intros H. apply (fetched_ok m) in H. unfold startVerification. destruct (selectSecurityVerificationMethod _ _ _) as [method|].
  - destruct H as [Hs Hj Hr]. split; cbn.
    + intros op' [= <-]. exists config. rewrite elem_of_app. set_solver.
    + intros j w Hin Hst. by apply justified_app, Hj.
    + intros op' token [Hin|Hin]%elem_of_app; [ | set_solver].
      destruct (Hr op' token Hin) as (id & w & H1 & H2). exists id, w. split; [by apply justified_app | ]. rewrite elem_of_app. tauto.
  - apply emit_ok; [by repeat constructor | done].
Qed.

Lemma verify_start_wait m scope target credential w : verify_start m scope target credential = Ok w →
  wait_scope w = scope ∧ wait_target w = target ∧ wait_method w = m.
Proof. unfold verify_start. destruct m; repeat case_match; intros [= <-]; done. Qed.

Lemma execute_ok method code h : hook_ok h → hook_ok (executeVerification method code h).
Proof.
  intros H. unfold executeVerification. destruct (v_apiCall (state h)) as [op|] eqn:Eop; [ | apply emit_ok; [by repeat constructor | done]].
  destruct (match method with Some m => Some m | None => v_method (state h) end) as [m|]; [ | apply emit_ok; [by repeat constructor | done]].
  assert (Hl : hook_ok (with_state (set_loading true) h)) by (by apply with_state_ok).
  destruct (v_scope (state h)) as [scope|] eqn:Es; [ | by apply fail_ok]. destruct (v_target (state h)) as [target|] eqn:Et; [ | by apply fail_ok].
  case_bool_decide as Hm; [ | by apply fail_ok]. destruct (verify_start m scope target _) as [w|f] eqn:Ev; [ | by apply fail_ok].
  apply verify_start_wait in Ev as (Ws & Wt & Wm). destruct (ok_state _ H op Eop) as (c & Hc & E1 & E2 & E3).
  destruct Hl as [Hs Hj Hr]. split; cbn in *.
  - intros op' Hop'. destruct (Hs op' Hop') as (c' & Hc' & ?). exists c'. rewrite elem_of_app. tauto.
  - intros j w' [Hin| ->%list_elem_of_singleton]%elem_of_app; [intros Hst; by apply justified_app, Hj | ].
    cbn. intros [= <-]. exists c. apply available_spec in Hm as [Hm _]. rewrite Es in E1. rewrite Et in E2. injection E1 as ->. injection E2 as ->.
    rewrite !elem_of_app, Wm, <-E3. set_solver.
  - intros op' token [Hin|Hin]%elem_of_app; [ | set_solver].
    destruct (Hr op' token Hin) as (id & w' & H1 & H2). exists id, w'. split; [by apply justified_app | ]. rewrite elem_of_app. tauto.
Qed.

Lemma answered_ok id a h : hook_ok h → hook_ok (verification_answered id a h).
Proof.
  intros H. unfold verification_answered. destruct (find_job id h) as [[jid op method [w|]]|] eqn:Ej; [ | done | done].
  destruct (verify_end w a) as [[proof|f]|]; [ | by apply fail_ok, drop_job_ok | done]. apply find_job_in in Ej as [Hin Hid]. cbn in Hid. subst jid.
  pose proof (ok_jobs _ H _ w Hin eq_refl) as Hjust. cbn in Hjust.
  assert (Hj : hook_ok (with_jobs (map (job_running id) (jobs h)) h)).
  { apply with_jobs_ok; [done | ]. intros j w' (x & -> & Hx)%list_elem_of_fmap. unfold job_running. by destruct (j_id x =? id). }
  destruct Hj as [Hs Hjj Hr]. split; cbn in *.
  - intros op' Hop'. destruct (Hs op' Hop') as (c' & Hc' & ?). exists c'. rewrite elem_of_app. tauto.
  - intros j w' Hj' Hst. by apply justified_app, Hjj.
  - intros op' token [Hran|Hran]%elem_of_app.
    + destruct (Hr op' token Hran) as (id' & w' & H1 & H2). exists id', w'. split; [by apply justified_app | ]. rewrite elem_of_app. tauto.
    + assert (op' = op ∧ token = proof_token proof) as [-> ->] by (rewrite !elem_of_cons, elem_of_nil in Hran; naive_solver).
      exists id, w. split; [by apply justified_app | ]. rewrite elem_of_app. right. left.
Qed.

Lemma operated_ok successMessage autoReset id r h : hook_ok h → hook_ok (operation_answered successMessage autoReset id r h).
Proof.
  intros H. unfold operation_answered. destruct (find_job id h) as [[jid op method [w|]]|]; [done | | done].
  apply (drop_job_ok id) in H. destruct r as [[]|f]; [ | by apply fail_ok].
  apply with_state_ok; [ | by destruct autoReset].
  destruct autoReset; try apply reset_ok; (apply emit_ok; [ | done]); destruct successMessage as [[]|]; by repeat constructor.
Qed.

Lemma handle_ok successMessage autoReset h e : hook_ok h → hook_ok (handle successMessage autoReset h e).
Proof.
  intros H. destruct e; cbn [handle].
  - by apply fetched_ok.
  - unfold withVerification. destruct outcome; [ | case_match]; repeat (apply emit_ok; [by repeat constructor | ]); done.
  - by apply start_ok.
  - unfold handleVerify. destruct (activeMethod h); [by apply execute_ok | done].
  - by apply execute_ok.
  - by apply answered_ok.
  - by apply operated_ok.
  - by apply with_state_ok.
  - by apply with_state_ok.
  - by apply reset_ok.
Qed.

Lemma run_ok successMessage autoReset events : hook_ok (run successMessage autoReset events).
Proof.
  unfold run. assert (H0 : hook_ok initial_hook) by (split; set_solver). revert H0. generalize initial_hook.
  induction events as [|e l IH]; intros h H; [done | ]. cbn [fold_left]. by apply IH, handle_ok.
Qed.

(** C23: Whatever the user does and in whatever order answers arrive: an operation that is run
    with a proof was started, and the proof answers a request for the scope and the target the
    operation was started with, by a method it allows. *)
Theorem proofs_match_their_operation successMessage autoReset events op token :
  Ran op (Some token) ∈ effects (run successMessage autoReset events) →
  ∃ config id w, let es := effects (run successMessage autoReset events) in
    Started op config ∈ es ∧ Asked id w ∈ es ∧ Proved id token ∈ es ∧
    wait_scope w = c_scope config ∧ wait_target w = c_target config ∧ wait_method w ∈ default ALL_METHODS (c_allowedMethods config).
Proof.
  intros H. destruct (ok_ran _ (run_ok successMessage autoReset events) op token H) as (id & w & (c & H1 & H2 & H3 & H4 & H5) & Hp).
  exists c, id, w. cbv zeta. tauto.
Qed.

(** C24: Cancelling, which closing the dialog does also while a verification is under way, does
    not stop it: when its answer comes the operation is run after all, and when an operation
    ends the dialog is closed and its session is forgotten, also where it is by then the dialog
    of another operation. *)
Theorem cancelled_operation_still_runs successMessage h id op method w answers proof :
  find_job id h = Some (mkJob id op method (Verifying w)) → verify_end w answers = Some (Ok proof) →
  let answered := handle successMessage true (handle successMessage true h ECancel) (EVerified id answers) in
  Ran op (Some (proof_token proof)) ∈ effects answered ∧
  ∀ op' config m, let ended := handle successMessage true (handle successMessage true answered (EStarted op' config m)) (EOperated id (Ok tt)) in
    opened ended = false ∧ v_apiCall (state ended) = None.
Proof.
  intros Hf Hv answered. assert (Ha : answered = verification_answered id answers (reset h)) by done.
  unfold verification_answered in Ha. assert (Hf' : find_job id (reset h) = find_job id h) by done. rewrite Hf', Hf, Hv in Ha. rewrite Ha. split.
  - cbn. rewrite elem_of_app. right. right. left.
  - intros op' config m ended. assert (Hr : find_job id (startVerification op' config m answered) = Some (mkJob id op method Running)).
    { assert (Hjobs : jobs (startVerification op' config m answered) = map (job_running id) (jobs h)).
      { rewrite Ha. unfold startVerification. by destruct (selectSecurityVerificationMethod _ _ _). }
      unfold find_job in *. rewrite Hjobs. by apply running_found in Hf. }
    subst ended. rewrite <-Ha. cbn [handle]. unfold operation_answered. rewrite Hr. done.
Qed.

(** ** Examples *)

Definition delete_account : StartVerificationOptions := mkStart AccountDelete (js "7") None None None None.
Definition password_only : VerificationMethods := mkMethods true false false false.
Definition some_proof : SecurityProof := mkProof (js "tok") 1700000000 MPassword AccountDelete (js "7").
Definition some_answer : Answers := APosted (RData (mkProofAnswer true [] (Some some_proof))).

(** The account is deleted although the dialog was closed before the password had been checked. *)
Definition story : list Event :=
  [EStarted 1 delete_account password_only; ECode (js "secret"); EVerify; ECancel; EVerified 0 some_answer].

Lemma proofs_match_their_operation_witness : ∃ config id w, let es := effects (run None true story) in
  Started 1 config ∈ es ∧ Asked id w ∈ es ∧ Proved id (js "tok") ∈ es ∧
  wait_scope w = c_scope config ∧ wait_target w = c_target config ∧ wait_method w ∈ default ALL_METHODS (c_allowedMethods config).
Proof. apply (proofs_match_their_operation None true story 1 (js "tok")). vm_compute. do 3 right. left. Defined.

Lemma cancelled_operation_still_runs_witness :
  Ran 1 (Some (js "tok")) ∈ effects (run None true story).
Proof.
  apply (cancelled_operation_still_runs None (run None true (take 3 story)) 0 1 MPassword
    (WaitPost (buildSecurityVerificationRequest MPassword AccountDelete (js "7") (Some (js "secret")))) some_answer some_proof);
    vm_compute; reflexivity.
Defined.
