(* ===== verification/TableUrlState.v ===== *)
(** * Tables whose state is in the address

    hooks/use-table-url-state.ts: page, page size, search text and column filters of a table
    are read from the search part of the address, and changing them navigates.  The search is
    an object of JSON values; [undefined] is an absent entry.  The page size is also kept in
    the local storage.  How a filter is written to the address and read from it are functions
    of the table ([serialize], [deserialize]), and what a search has become once it has gone
    through the address is a function of the router ([router]): it hands out a new search, or
    keeps the one it had where nothing changes.  A page, a page size and the
    filters of columns that are set are read back from the address that setting them leads to;
    a page beyond the last one is brought into range once. *)

From Stdlib Require Import SpecFloat ZArith Lia.
From stdpp Require Import base numbers strings option sets list.
From S2P Require Import Prelude ArraySort JsNumber NumberExact Json JsonText NumberText JsonPrint JsonStringify.

Abbreviation SearchRecord := (list (ustring * json)).

(** [{ ...prev, \[key\]: value }]. *)
Definition put_search (prev : SearchRecord) (entry : ustring * option json) : SearchRecord :=
  match entry.2 with Some v => map_set entry.1 v prev | None => map_del entry.1 prev end.

(** ** The stored page size *)

(** [Number.parseInt(text, 10)]; no number where there are no digits. *)
Definition parseInt (text : ustring) : option Z :=
  let digits (s : ustring) := match take_while is_digit s with [] => None | ds => Some (digits_value ds) end in
  match trim_start text with
  | c :: rest =>
      if (c =? chr "-")%Z then Z.opp <$> digits rest
      else if (c =? chr "+")%Z then digits rest
      else digits (c :: rest)
  | [] => None
  end.

(** [stored]: the item of the storage, absent also where reading it throws. *)
Definition getStoredPageSize (stored : option ustring) : option number :=
  n ← parseInt (default [] stored);
  if (0 <? n)%Z then Some (num_of_Z n) else None.

(** ** Configuration *)

Inductive FilterType := FString | FArray.

Record ColumnFilter := mkColumn {
  columnId : ustring; searchKey : ustring; filterType : option FilterType;
  serialize : json → option json; deserialize : option json → option json }.

Record Config := mkConfig {
  pageKey : ustring; pageSizeKey : ustring; defaultPage : number; defaultPageSize : number;
  globalFilterKey : ustring; globalFilterEnabled : bool; trimGlobal : bool; columnFiltersCfg : list ColumnFilter }.

Record PaginationState := mkPagination { pageIndex : number; pageSize : number }.

Abbreviation ColumnFiltersState := (list (ustring * json)).

Record Table := mkTable { search : SearchRecord; columnFilters : ColumnFiltersState; storedSize : option ustring }.

Section table.
  Context (router : SearchRecord → SearchRecord → option SearchRecord) (cfg : Config).

(** ** Reading the address *)

(** The value of a column in the address: a text that is not blank, or an array that is not empty.  A column without a
    type has arrays. *)
Definition usable (type : option FilterType) (value : option json) : option json :=
  match type with
  | Some FString => match value with Some (JString t) => if truthy (trim t) then Some (JString t) else None | _ => None end
  | _ => match value with Some (JArray (v :: vs)) => Some (JArray (v :: vs)) | _ => None end
  end.

Definition read_filter (c : ColumnFilter) (s : SearchRecord) : option json := usable (filterType c) (deserialize c (map_get (searchKey c) s)).

Definition initialColumnFilters (s : SearchRecord) : ColumnFiltersState :=
  omap (fun c => (fun v => (columnId c, v)) <$> read_filter c s) (columnFiltersCfg cfg).

Definition page_number (s : SearchRecord) : number :=
  match map_get (pageKey cfg) s with Some (JNumber n) => n | _ => defaultPage cfg end.

Definition pagination (t : Table) : PaginationState :=
  let size := match map_get (pageSizeKey cfg) (search t) with
              | Some (JNumber n) => n
              | _ => default (defaultPageSize cfg) (getStoredPageSize (storedSize t))
              end in
  mkPagination (num_max zero (num_sub (page_number (search t)) one)) size.

Definition globalFilter (t : Table) : ustring :=
  if globalFilterEnabled cfg then match map_get (globalFilterKey cfg) (search t) with Some (JString s) => s | _ => [] end else [].

(** ** Changing it *)

(** The search that a navigation asks for. *)
Definition patched (patch : list (ustring * option json)) (t : Table) : SearchRecord := fold_left put_search patch (search t).

(** A navigation.  The effect fills the column filters again where the router hands out another search; where it keeps
    the one it had, the effect does not run. *)
Definition navigate (patch : list (ustring * option json)) (t : Table) : Table :=
  match router (search t) (patched patch t) with
  | Some next => mkTable next (initialColumnFilters next) (storedSize t)
  | None => t
  end.

Definition page_patch (next : PaginationState) : list (ustring * option json) :=
  let nextPage := num_add (pageIndex next) one in
  [(pageKey cfg, if num_leb nextPage (defaultPage cfg) then None else Some (JNumber nextPage));
   (pageSizeKey cfg, Some (JNumber (pageSize next)))].

(** The page size is stored where it has changed; a storage that refuses it is passed over and keeps what it had. *)
Definition onPaginationChange (next : PaginationState) (t : Table) : Table :=
  let t := if num_eqb (pageSize next) (pageSize (pagination t)) then t
           else mkTable (search t) (columnFilters t) (Some (Number_toString (pageSize next))) in
  navigate (page_patch next) t.

Definition normalizeGlobalFilter (value : ustring) : ustring := if trimGlobal cfg then trim value else value.

Definition onGlobalFilterChange (next : ustring) (t : Table) : Table :=
  if globalFilterEnabled cfg
  then let value := normalizeGlobalFilter next in
       navigate [(pageKey cfg, None); (globalFilterKey cfg, if truthy value then Some (JString value) else None)] t
  else t.

(** The value of a column in the address after the filters have become [next]. *)
Definition filter_patch (next : ColumnFiltersState) (c : ColumnFilter) : ustring * option json :=
  (searchKey c, usable (filterType c) (map_get (columnId c) next) ≫= serialize c).

Definition filters_patch (next : ColumnFiltersState) : list (ustring * option json) :=
  (pageKey cfg, None) :: map (filter_patch next) (columnFiltersCfg cfg).

Definition onColumnFiltersChange (next : ColumnFiltersState) (t : Table) : Table :=
  navigate (filters_patch next) (mkTable (search t) next (storedSize t)).

Inductive ResetTo := ToFirst | ToLast.

Definition range_patch (pageCount : number) (resetTo : ResetTo) : list (ustring * option json) :=
  [(pageKey cfg, match resetTo with ToLast => Some (JNumber pageCount) | ToFirst => None end)].

Definition ensurePageInRange (pageCount : number) (resetTo : ResetTo) (t : Table) : Table :=
  if num_ltb zero pageCount && num_ltb pageCount (page_number (search t))
  then navigate (range_patch pageCount resetTo) t
  else t.

(** ** What the address keeps *)

Lemma put_search_get s e k : map_get k (put_search s e) = if bool_decide (e.1 = k) then e.2 else map_get k s.
Proof. unfold put_search. destruct e as [x [v|]]; cbn [fst snd]; autorewrite with objects; done. Qed.

Lemma patch_get patch k : NoDup (map fst patch) → ∀ s,
  map_get k (fold_left put_search patch s) = match map_get k patch with Some v => v | None => map_get k s end.
Proof.
  induction patch as [|[x v] patch IH]; intros Hd s; [done | ]. cbn in Hd. apply NoDup_cons in Hd as [Hx Hd]. cbn [fold_left map_get].
  rewrite (IH Hd), put_search_get. cbn [fst snd]. destruct (bool_decide (x = k)) eqn:E; bools; subst; [ | done].
  by rewrite (proj2 (map_get_None k patch)).
Qed.

(** The keys of the address are distinct, and so are the columns. *)
Record keys_ok : Prop := {
  ko_keys : NoDup (pageKey cfg :: pageSizeKey cfg :: globalFilterKey cfg :: map searchKey (columnFiltersCfg cfg));
  ko_columns : NoDup (map columnId (columnFiltersCfg cfg)) }.

(** What the filters [next] mean for the columns of the table: in the order of the columns, those with a text that is
    not blank or an array that is not empty. *)
Definition kept_filters (next : ColumnFiltersState) : ColumnFiltersState :=
  omap (fun c => (fun v => (columnId c, v)) <$> usable (filterType c) (map_get (columnId c) next)) (columnFiltersCfg cfg).

(** The column reads back what it writes, and no filter where nothing is written. *)
Definition faithful (c : ColumnFilter) (next : ColumnFiltersState) : Prop :=
  usable (filterType c) (deserialize c None) = None ∧
  ∀ v, usable (filterType c) (map_get (columnId c) next) = Some v → deserialize c (serialize c v) = Some v.

Lemma omap_ext_in {A B} (f g : A → option B) (l : list A) : (∀ x, x ∈ l → f x = g x) → omap f l = omap g l.
Proof. induction l as [|x l IH]; intros H; [done | ]. cbn. rewrite (H x) by left. destruct (g x); rewrite IH; auto; intros; apply H; by right. Qed.

Lemma patched_filter next c s :
  keys_ok → c ∈ columnFiltersCfg cfg →
  map_get (searchKey c) (fold_left put_search (filters_patch next) s) = (filter_patch next c).2.
Proof.
  intros [Hk _] Hc. apply NoDup_cons in Hk as [Hp Hk]. apply NoDup_cons in Hk as [_ Hk]. apply NoDup_cons in Hk as [_ Hk].
  assert (Hm : map fst (map (filter_patch next) (columnFiltersCfg cfg)) = map searchKey (columnFiltersCfg cfg)) by (by rewrite map_map).
  assert (Hin : searchKey c ∈ map searchKey (columnFiltersCfg cfg)) by (apply list_elem_of_fmap; by exists c).
  unfold filters_patch. rewrite patch_get.
  - cbn [map_get]. rewrite bool_decide_false by (intros E; apply Hp; rewrite E; set_solver).
    rewrite (map_in_get (searchKey c) (filter_patch next c).2); [done | by rewrite Hm | ].
    apply list_elem_of_fmap. by exists c.
  - cbn [map fst]. rewrite Hm. apply NoDup_cons. split; [set_solver | done].
Qed.
End table.

(** ** Comparing numbers *)

Lemma num_ltb_irrefl x : num_ltb x x = false.
Proof.
  destruct x as [s|s| |s m e]; [done | by destruct s | done | ]. unfold num_ltb, SFltb, SFcompare.
  rewrite Z.compare_refl. replace (Pos.compare_cont Eq m m) with Eq by (symmetry; apply Pos.compare_refl). by destruct s.
Qed.

Lemma num_leb_one n : (1 < n < exact_limit)%Z → num_leb (num_of_Z n) one = false.
Proof.
  intros Hn. unfold one. rewrite !num_of_Z_whole by lia. unfold whole, num_leb, SFleb, SFcompare.
  assert (Hl : (1 ≤ Z.log2 n)%Z) by (apply Z.log2_le_pow2; lia).
  replace (exponent n ?= exponent 1)%Z with Gt; [done | ]. symmetry. apply Z.compare_gt_iff. unfold exponent. change (Z.log2 1) with 0%Z. lia.
Qed.

Lemma num_max_zero n : (0 ≤ n < exact_limit)%Z → num_max zero (num_of_Z n) = num_of_Z n.
Proof.
  intros Hn. destruct (decide (n = 0)%Z) as [->|]; [done | ]. pose proof (num_positive n ltac:(lia)) as H.
  unfold num_max. rewrite (num_of_Z_whole n) in * by lia. unfold whole in *. cbn [is_nan orb zero] in *. by rewrite H.
Qed.

Section theorems.
  Context (router : SearchRecord → SearchRecord → option SearchRecord) (cfg : Config).

(** The router hands out the search it was asked for, or keeps one with the same entries. *)
Definition reads_back (patch : list (ustring * option json)) (t : Table) : Prop :=
  match router (search t) (patched patch t) with
  | Some s => s = patched patch t
  | None => ∀ k, map_get k (patched patch t) = map_get k (search t)
  end.

Lemma navigate_get patch t k :
  reads_back patch t → NoDup (map fst patch) →
  map_get k (search (navigate router cfg patch t)) = match map_get k patch with Some v => v | None => map_get k (search t) end.
Proof.
  unfold reads_back, navigate. intros Hr H. rewrite <-(patch_get patch k H (search t)).
  destruct (router _ _) as [s|]; [by subst s | symmetry; apply Hr].
Qed.

Lemma search_text_key k : keys_ok cfg → k ∈ globalFilterKey cfg :: map searchKey (columnFiltersCfg cfg) → k ≠ pageKey cfg ∧ k ≠ pageSizeKey cfg.
Proof. intros [Hk _] Hin. apply NoDup_cons in Hk as [Hp Hk]. apply NoDup_cons in Hk as [Hs _]. split; intros ->; set_solver. Qed.

Lemma column_key c : c ∈ columnFiltersCfg cfg → searchKey c ∈ globalFilterKey cfg :: map searchKey (columnFiltersCfg cfg).
Proof. intros Hc. right. apply list_elem_of_fmap. by exists c. Qed.

(** The filters of two searches with the same entries for the columns. *)
Lemma initial_ext s s' :
  (∀ k, k ∈ globalFilterKey cfg :: map searchKey (columnFiltersCfg cfg) → map_get k s' = map_get k s) →
  initialColumnFilters cfg s' = initialColumnFilters cfg s.
Proof. intros H. apply omap_ext_in. intros c Hc. unfold read_filter. by rewrite (H _ (column_key c Hc)). Qed.

(** ** Pages *)

Lemma page_patch_keys next : keys_ok cfg → NoDup (map fst (page_patch cfg next)).
Proof. intros [Hk _]. apply NoDup_cons in Hk as [Hp Hk]. cbn. apply NoDup_cons. split; [set_solver | apply NoDup_singleton]. Qed.

(** A page and a page size that are set are the ones that are read, and the search text and the filters of the address
    stay as they are. *)
Theorem page_survives_the_address i size t :
  keys_ok cfg → reads_back (page_patch cfg (mkPagination (num_of_Z i) size)) t →
  defaultPage cfg = one → (0 ≤ i)%Z → (i + 1 < exact_limit)%Z →
  let t' := onPaginationChange router cfg (mkPagination (num_of_Z i) size) t in
  pagination cfg t' = mkPagination (num_of_Z i) size ∧ globalFilter cfg t' = globalFilter cfg t ∧
  initialColumnFilters cfg (search t') = initialColumnFilters cfg (search t).
Proof.
  intros Hko Hr Hdef Hi Hlim. unfold onPaginationChange. cbn [pageSize]. set (next := mkPagination _ _) in *.
  set (t0 := if num_eqb size _ then t else _). assert (Hsearch : search t0 = search t) by (subst t0; by destruct (num_eqb _ _)).
  assert (Hr0 : reads_back (page_patch cfg next) t0) by (unfold reads_back, patched in *; by rewrite Hsearch).
  assert (Hother : ∀ k, k ∈ globalFilterKey cfg :: map searchKey (columnFiltersCfg cfg) →
    map_get k (search (navigate router cfg (page_patch cfg next) t0)) = map_get k (search t)).
  { intros k Hin. destruct (search_text_key k Hko Hin). rewrite navigate_get by auto using page_patch_keys. cbn [map_get page_patch].
    by rewrite !bool_decide_false, Hsearch by congruence. }
  split; [ | split].
  - unfold pagination, page_number. rewrite !navigate_get by auto using page_patch_keys. cbn [map_get page_patch].
    pose proof (ko_keys cfg Hko) as Hk. rewrite (bool_decide_true (pageKey cfg = pageKey cfg)), (bool_decide_true (pageSizeKey cfg = pageSizeKey cfg)) by done.
    rewrite (bool_decide_false (pageKey cfg = pageSizeKey cfg)) by (apply NoDup_cons in Hk as [? _]; set_solver). subst next. f_equal. cbn [pageIndex].
    rewrite Hdef. unfold one. rewrite num_add_exact by lia. destruct (decide (i = 0)%Z) as [->|Hne]; [done | ].
    change (num_of_Z 1) with one at 1. rewrite num_leb_one by lia. rewrite num_sub_exact by lia.
    replace (i + 1 - 1)%Z with i by lia. by apply num_max_zero; lia.
  - unfold globalFilter. by rewrite Hother by left.
  - by apply initial_ext.
Qed.

(** ** Filters *)

Lemma filters_patch_keys next : map fst (filters_patch cfg next) = pageKey cfg :: map searchKey (columnFiltersCfg cfg).
Proof. unfold filters_patch. cbn. by rewrite map_map. Qed.

Lemma filters_patch_NoDup next : keys_ok cfg → NoDup (map fst (filters_patch cfg next)).
Proof.
  intros [Hk _]. rewrite filters_patch_keys. apply NoDup_cons in Hk as [Hp Hk]. apply NoDup_cons in Hk as [_ Hk]. apply NoDup_cons in Hk as [_ Hk].
  apply NoDup_cons. split; [set_solver | done].
Qed.

Lemma usable_again type v w : usable type v = Some w → usable type (Some w) = Some w.
Proof. unfold usable. destruct type as [[]|], v as [[| | |t|[]|]|]; try destruct (truthy (trim t)) eqn:E; intros [= <-]; by rewrite ?E. Qed.

Lemma written_filter next c :
  faithful c next → usable (filterType c) (deserialize c (filter_patch next c).2) = usable (filterType c) (map_get (columnId c) next).
Proof.
  intros [Hnone Hsome]. cbn [snd filter_patch]. destruct (usable (filterType c) (map_get (columnId c) next)) as [v|] eqn:E; [ | exact Hnone].
  cbn [mbind option_bind]. rewrite (Hsome v eq_refl). by eapply usable_again.
Qed.

(** C38: Where every column reads back what it writes, and shows no filter where nothing is
    written, and the router reads back what it was asked for, column filters that are set are
    the ones of the address afterwards: in the order of the columns, those with a text that is
    not blank or an array that is not empty.  The table shows them, or, where the address was
    the same before, the filters as they were given.  The table goes back to its first page,
    and the page size and the search text stay. *)
Theorem filters_survive_the_address next t :
  keys_ok cfg → reads_back (filters_patch cfg next) t → (∀ c, c ∈ columnFiltersCfg cfg → faithful c next) →
  let t' := onColumnFiltersChange router cfg next t in
  initialColumnFilters cfg (search t') = kept_filters cfg next ∧
  columnFilters t' = match router (search t) (patched (filters_patch cfg next) t) with Some _ => kept_filters cfg next | None => next end ∧
  page_number cfg (search t') = defaultPage cfg ∧
  pageSize (pagination cfg t') = pageSize (pagination cfg t) ∧ globalFilter cfg t' = globalFilter cfg t.
Proof.
  intros Hko Hr Hf. unfold onColumnFiltersChange. set (t0 := mkTable (search t) next (storedSize t)).
  assert (Hget : ∀ k, map_get k (search (navigate router cfg (filters_patch cfg next) t0)) = map_get k (fold_left put_search (filters_patch cfg next) (search t))).
  { intros k. rewrite (patch_get _ k (filters_patch_NoDup next Hko)). apply (navigate_get (filters_patch cfg next) t0 k); [done | by apply filters_patch_NoDup]. }
  assert (Hsame : ∀ k, k ∈ [pageSizeKey cfg; globalFilterKey cfg] → map_get k (search (navigate router cfg (filters_patch cfg next) t0)) = map_get k (search t)).
  { intros k Hin. rewrite Hget, (patch_get _ k (filters_patch_NoDup next Hko)). rewrite (proj2 (map_get_None k (filters_patch cfg next))); [done | ].
    rewrite filters_patch_keys. pose proof (ko_keys cfg Hko) as Hk.
    apply NoDup_cons in Hk as [Hp Hk]. apply NoDup_cons in Hk as [Hs Hk]. apply NoDup_cons in Hk as [Hg _]. set_solver. }
  assert (Hinit : initialColumnFilters cfg (search (navigate router cfg (filters_patch cfg next) t0)) = kept_filters cfg next).
  { apply omap_ext_in. intros c Hc. unfold read_filter. rewrite Hget, patched_filter by done. by rewrite written_filter by auto. }
  split; [exact Hinit | ]. split; [ | split; [ | split]].
  - unfold navigate in *. change (search t0) with (search t) in *. change (patched (filters_patch cfg next) t0) with (patched (filters_patch cfg next) t) in *.
    by destruct (router _ _).
  - unfold page_number. rewrite Hget, (patch_get _ _ (filters_patch_NoDup next Hko)). cbn [map_get filters_patch]. by rewrite bool_decide_true.
  - assert (Hst : storedSize (navigate router cfg (filters_patch cfg next) t0) = storedSize t) by (unfold navigate; by destruct (router _ _)).
    unfold pagination. cbn [pageSize]. rewrite Hsame by left. by rewrite Hst.
  - unfold globalFilter. by rewrite Hsame by (right; left).
Qed.

(** C39: [ensurePageInRange] changes nothing unless the table has pages and its page is beyond the
    last; then the page becomes the default page or the last one, as asked for, and the page
    size, the search text and the filters of the address stay.  Where the default page is not
    beyond the last, calling it again, whichever way, changes nothing, and the page of a table
    that has pages is not beyond the last. *)
Theorem page_is_brought_into_range pageCount resetTo again t :
  keys_ok cfg → reads_back (range_patch cfg pageCount resetTo) t →
  let t' := ensurePageInRange router cfg pageCount resetTo t in
  (if num_ltb zero pageCount && num_ltb pageCount (page_number cfg (search t))
   then page_number cfg (search t') = match resetTo with ToFirst => defaultPage cfg | ToLast => pageCount end ∧
        pageSize (pagination cfg t') = pageSize (pagination cfg t) ∧ globalFilter cfg t' = globalFilter cfg t ∧
        initialColumnFilters cfg (search t') = initialColumnFilters cfg (search t)
   else t' = t) ∧
  (num_ltb pageCount (defaultPage cfg) = false →
   ensurePageInRange router cfg pageCount again t' = t' ∧
   (num_ltb zero pageCount = true → num_ltb pageCount (page_number cfg (search t')) = false)).
Proof.
  intros Hko Hr. cbv zeta. set (t' := ensurePageInRange router cfg pageCount resetTo t).
  assert (Ht' : t' = ensurePageInRange router cfg pageCount resetTo t) by done. clearbody t'. unfold ensurePageInRange in Ht'.
  destruct (num_ltb zero pageCount && num_ltb pageCount (page_number cfg (search t))) eqn:E.
  2:{ subst t'. split; [done | ]. intros _. unfold ensurePageInRange. rewrite E. split; [done | ]. intros Hz. by rewrite Hz in E. }
  assert (Hget : ∀ k, map_get k (search t') = match map_get k (range_patch cfg pageCount resetTo) with Some v => v | None => map_get k (search t) end).
  { intros k. subst t'. by apply navigate_get; [ | apply NoDup_singleton]. }
  assert (Hother : ∀ k, k ≠ pageKey cfg → map_get k (search t') = map_get k (search t)).
  { intros k Hk. rewrite Hget. cbn [map_get range_patch]. by rewrite bool_decide_false by congruence. }
  assert (Hpage : page_number cfg (search t') = match resetTo with ToFirst => defaultPage cfg | ToLast => pageCount end).
  { unfold page_number. rewrite Hget. cbn [map_get range_patch]. rewrite bool_decide_true by done. by destruct resetTo. }
  assert (Hst : storedSize t' = storedSize t) by (subst t'; unfold navigate; by destruct (router _ _)).
  pose proof (ko_keys cfg Hko) as Hk. apply NoDup_cons in Hk as [Hp _]. split.
  - split; [exact Hpage | ]. split; [ | split].
    + unfold pagination. cbn [pageSize]. rewrite Hother by set_solver. by rewrite Hst.
    + unfold globalFilter. by rewrite Hother by set_solver.
    + apply initial_ext. intros k Hin. apply Hother. by apply search_text_key.
  - intros Hd. assert (Hin : num_ltb pageCount (page_number cfg (search t')) = false) by (rewrite Hpage; destruct resetTo; [done | apply num_ltb_irrefl]).
    split; [ | done]. unfold ensurePageInRange. by rewrite Hin, andb_false_r.
Qed.
End theorems.

(** ** Examples *)

Definition users_table : Config :=
  mkConfig (js "page") (js "pageSize") one (num_of_Z 20) (js "filter") true true
    [mkColumn (js "status") (js "status") (Some FArray) Some id; mkColumn (js "group") (js "group") (Some FString) Some id].

Definition some_filters : ColumnFiltersState := [(js "group", JString (js "vip")); (js "status", JArray [JString (js "1")])].

Definition fifth_page : Table := mkTable [(js "page", JNumber (num_of_Z 5))] [] None.

Lemma users_keys : keys_ok users_table.
Proof. split; apply (bool_decide_unpack _); vm_compute; exact I. Defined.

(** A router that keeps the search where the request changes no entry. *)
Definition keeps_same (now asked : SearchRecord) : option SearchRecord :=
  if forallb (fun k => match map_get k asked, map_get k now with
                       | None, None => true
                       | Some a, Some b => ustring_eqb (JSON_stringify a) (JSON_stringify b)
                       | _, _ => false
                       end) (map fst asked ++ map fst now)
  then None else Some asked.

Lemma filters_survive_the_address_witness :
  columnFilters (onColumnFiltersChange keeps_same users_table some_filters fifth_page) =
    [(js "status", JArray [JString (js "1")]); (js "group", JString (js "vip"))].
Proof.
  destruct (filters_survive_the_address keeps_same users_table some_filters fifth_page users_keys) as (_ & H & _).
  - vm_compute. reflexivity.
  - intros c Hc. cbn in Hc. apply elem_of_cons in Hc as [->|Hc]; [ | apply list_elem_of_singleton in Hc as ->];
      (split; [reflexivity | ]); intros v Hv; reflexivity.
  - etransitivity; [exact H | vm_compute; reflexivity].
Defined.

Lemma page_is_brought_into_range_witness :
  let t' := ensurePageInRange keeps_same users_table (num_of_Z 3) ToLast fifth_page in
  page_number users_table (search t') = num_of_Z 3 ∧ ensurePageInRange keeps_same users_table (num_of_Z 3) ToFirst t' = t'.
Proof.
  destruct (page_is_brought_into_range keeps_same users_table (num_of_Z 3) ToLast ToFirst fifth_page users_keys) as [H1 H2].
  - vm_compute. reflexivity.
  - split; [exact (proj1 H1) | ]. apply H2. vm_compute. reflexivity.
Defined.
